(* ===== verification/_CoqProject ===== *)
-Q . S2P
Prelude.v
RustStr.v
IpAddr.v
AccessControl.v
RealIp.v
CircuitBreaker.v
Retry.v
LoadBalance.v
ProxyProtocol.v
ConnPool.v
Headers.v
F32.v
Compress.v
ErrorPage.v
ProxyResponse.v
Http1.v
Sendfile.v
Streaming.v
ProxyCache.v
Forward.v
ProxyHandler.v
FastCgi.v
Location.v
Rewrite.v
StaticPath.v
FileHeaders.v
StaticFile.v
VHost.v
AuthRequest.v
ConnLimit.v
Router.v
WsProxy.v
WebSocket.v
Config.v
Tls.v
HotReload.v
Json.v
AdminServer.v
AdminConfig.v
AdminRoutes.v
Monitor.v
AccessLog.v
H2Upstream.v
Grpc.v
F64.v
RateLimit.v
Cli.v
Dns01.v
AcmeOrder.v
Startup.v
ProxyEntry.v
FcgiEntry.v
Prometheus.v
Plugins.v
TlsFiles.v
FileStreams.v
Process.v
Watcher.v
UpstreamTls.v
Serde.v
AdminViews.v
SerdeSite.v
Dormant.v
AcmeLoop.v
