(* ===== verification/Prelude.v ===== *)
(** * Sweety: a verification library for the Sweety web server

    Sweety (crate [sweety], sources under [src/src/]) is a web server and
    reverse proxy: virtual hosts with static files, FastCGI, HTTP/1.1, HTTP/2,
    gRPC and WebSocket upstreams, TLS with automatic certificates, hot reload
    and an administration interface.  The HTTP engine it runs on is a vendored
    crate; this library models the program's own code.

    ** The program and how its parts interact

    [SweetyServer::run] (server/http.rs) loads the configuration, builds the
    registry of virtual hosts with the resources of every site, the certificate
    resolver of every TLS port and the background tasks.  Every request then
    goes through [multi_site_handler] (server/router.rs): connection limits,
    the ACME challenge path, the virtual host, redirects, sensitive paths,
    rewriting, the location, limits, access control and authorisation, and last
    the handler of the location.  The handlers keep shared state: node health
    and counters, circuit breakers, connection pools, response and file caches.
    The file watcher and the admin interface change configuration, registry and
    certificates while requests run.

    ** Files

    Foundations
    - Prelude.v: outcomes with panics, results, machine integers, list and map
      lemmas, tactics and hint databases.
    - RustStr.v: what the code uses of [str], [String] and byte slices.
    - IpAddr.v: [std::net::IpAddr] with parser and printer.
    - F32.v, F64.v: the IEEE numbers that q-values and token buckets use.
    - Headers.v: the header collection of the [http] crate as the classes
      [HeaderLib] and [HeaderLaws]; handlers are proved against the classes, and
      an instance shows that the laws can be met.

    Request path
    - Router.v: [multi_site_handler] with every guard and early return
      (server/router.rs, server/state.rs, middleware/security.rs, metrics.rs);
      ConnLimit.v: its counters as atomic steps of concurrent requests.
    - VHost.v (dispatcher/vhost.rs), Location.v (dispatcher/location.rs),
      Rewrite.v (dispatcher/rewrite.rs).
    - AccessControl.v, RealIp.v, RateLimit.v, AuthRequest.v: the checks of a
      location (middleware/access_control.rs, real_ip.rs, rate_limit.rs,
      handler/auth_request.rs).
    - Compress.v: negotiation and wrapping (handler/compress.rs).
    - Monitor.v, AccessLog.v, Prometheus.v: the record and the log line of a
      request, and the text of the metrics (monitor/, middleware/access_log.rs).
    - ErrorPage.v (handler/error_page.rs), Plugins.v (handler/plugin/).

    Reverse proxy (handler/reverse_proxy/)
    - Retry.v (retry.rs, error.rs), CircuitBreaker.v, LoadBalance.v (lb.rs),
      ConnPool.v (pool.rs, and handler/fastcgi_pool.rs), ProxyProtocol.v.
    - Http1.v, Streaming.v, Forward.v: the exchange with an upstream (conn.rs).
    - ProxyResponse.v (response.rs), ProxyHandler.v (the parts of mod.rs: headers,
      attempts, counters), ProxyEntry.v (mod.rs: the whole handler, composed of
      them and of the cache).
    - ProxyCache.v: memory and disk layers (middleware/proxy_cache.rs).
    - H2Upstream.v (upstream_h2.rs), Grpc.v (handler/grpc.rs), WsProxy.v
      (ws_proxy.rs), WebSocket.v (handler/websocket.rs).
    - UpstreamTls.v: TLS to upstreams on every path that opens connections, and
      the health checks as a whole (tls_client.rs, conn.rs, lb.rs).

    Other handlers
    - FastCgi.v: records, environment, response assembly and the exchange on a
      pooled connection (handler/fastcgi.rs, fastcgi/); FcgiEntry.v: the whole
      handler.
    - StaticPath.v, FileHeaders.v, StaticFile.v, Sendfile.v: paths, ranges,
      validators, caches and positional reads (handler/static_file.rs,
      static_file/, middleware/cache.rs, handler/sendfile.rs); FileStreams.v: the
      other streams of sendfile.rs, its permits and the two [sendfile] loops.
    - Dormant.v: code nothing calls (error log, security headers, the buffered
      FastCGI parser).

    Configuration, certificates and administration
    - Config.v (config/expand.rs, preset.rs, loader.rs, model/), HotReload.v
      (config/hot_reload.rs), Watcher.v (its file watcher and loop, as steps),
      Startup.v ([run] of server/http.rs).
    - Serde.v, SerdeSite.v: the readers and writers of the configuration formats
      (config/model/) as codecs to a tree, up to the whole file.
    - Tls.v (resolvers of server/tls.rs and the certificate parts of acme.rs),
      TlsFiles.v (PEM files, QUIC settings, cmd/validate.rs), AcmeOrder.v
      (orders and accounts of server/acme.rs), AcmeLoop.v (its renewal loop),
      Dns01.v (server/dns01.rs).
    - Json.v (the configuration tree), AdminServer.v, AdminConfig.v,
      AdminRoutes.v, AdminViews.v (admin_api/).
    - Cli.v, Process.v: the commands, on the processes and files of a machine
      (main.rs, cli.rs, cmd/).

    ** How code is modelled

    Every operation is an executable function that keeps the branches and the
    order of effects of the source.  Shared state is passed explicitly; atomics
    that concurrent requests race on (breaker probe, connection limits,
    WebSocket counts) are also given as step relations over the separate atomic
    accesses, with any number of callers.  The crate is built with overflow
    checks and with [panic = "abort"], so arithmetic that can overflow and
    indices that can be out of range return an [outcome].  Strings are lists of
    bytes.  Clock readings, the order in which hash maps are visited, the way
    reads are split, and the answers of the network are arguments, and the
    theorems hold for all of them.  Libraries that are not part of the
    repository (regular expressions, encoders, the JSON serialiser, TLS, the
    HTTP/2 client, the certificate authority, hash functions) are parameters;
    what is used of them is a named hypothesis or a class, with an instance in
    a witness.

    ** What the theorems show

    - Exactness of data paths: complete upstream bodies within the limits of the
      code reach the client byte for byte under every read schedule, and a
      connection that is reused has what follows the response less what its
      reader had fetched ahead (the code drops that: [Streaming.into_inner])
      ([ProxyEntry.proxy_response_exact], [Streaming.streamed_chunked_exact],
      [FastCgi.fcgi_response_exact], [H2Upstream.h2_response_exact],
      [WsProxy.relay_exact], [Sendfile.pread_stream_exact]); cached responses
      repeat the stored one while their entry is kept, cached files answer like
      the disk while it is unchanged; round trips of chunked bodies, PROXY
      headers, FastCGI requests, disk cache entries and whole configurations.
    - Refinement of declarative specifications: host lookup, location
      precedence, access rules, SNI, load balancing by turns and by weight, the
      configuration loader, hot reload, admin reload and start
      ([VHost.vhost_lookup_correct], [Location.location_precedence],
      [HotReload.reload_is_fresh_start], [Startup.start_serves_configuration]),
      and over any interleaving of changes of the file ([Watcher.change_is_served]).
      Configurations are compared site by site with all their settings; what the
      reload loses (access logs and caches) is left out of the comparison and
      proved as a defect ([HotReload.reload_drops_resources]).
    - Safety: no handler without the admission checks, no header injection, no
      path outside the root, no admin action without the configured token, no
      authorisation without a 2xx, one probe per open breaker, no newly opened
      checked upstream connection without a valid certificate.
    - Invariants over all operation sequences: breaker, pools, counters, the
      active configuration, challenge records, permits; refused changes that
      leave the server as it was, but for a save that fails half way.
    - Where code and documentation disagree, or the code loses what it means to
      keep, the behaviour is a theorem of its own that the related properties
      name in their comments ([AdminRoutes.empty_token_refuses],
      [ProxyCache.disk_record_outlives_ttl], [Config.ports_unchecked],
      [StaticPath.uncanonical_accepted], [Location.caret_file_order],
      [LoadBalance.probe_is_discarded], [Watcher.replaced_file_not_loaded] and
      others).
    - Bounds and liveness: token buckets over binary64 arithmetic, honest
      Retry-After, termination of reads and of the ACME wait, a written
      configuration is loaded, certificates are checked while they are due.

    ** Bounds and fuel

    Structural recursion is used wherever the loop consumes a list (bytes,
    records, polls, attempts).  Fuel appears in the readers and rewriting loops
    that the source bounds itself or that consume at least one byte per turn:
    the fuel given is the length of the input plus one or the bound of the
    source, and the theorems conclude that the function returns a result.
    Integers keep their width: [usize] is 64 bits; the token bucket bound has an
    explicit term for rounding.

    ** Not modelled

    The HTTP engine, TLS, QUIC, HTTP/2 and gzip code, which are vendored or
    external crates; the text of TOML, JSON and YAML, which external parsers
    read and write; the text of the API documentation (admin_api/doc.rs); the
    QUIC placeholder (server/quic.rs), which only logs; log output.  The
    component list of the manifest says so part by part. *)

From Stdlib Require Export ZArith Lia.
From stdpp Require Export base gmap strings option list.
Export list.

#[global] Open Scope Z_scope.

(** ** Notation scope of the development *)

Declare Scope sweety_scope.
Delimit Scope sweety_scope with sw.
#[global] Open Scope sweety_scope.

(** ** Outcomes

    The release profile of the crate sets [overflow-checks = true] and
    [panic = "abort"]: an arithmetic overflow, an out-of-range index or a
    slice at a non-boundary ends the process.  Code that can do so returns an
    [outcome]. *)

Inductive outcome (A : Type) : Type :=
| Ret (a : A)
| Panic.
Arguments Ret {A} a.
Arguments Panic {A}.

#[export] Instance outcome_ret : MRet outcome := λ A a, Ret a.
#[export] Instance outcome_bind : MBind outcome := λ A B f m,
  match m with Ret a => f a | Panic => Panic end.
#[export] Instance outcome_fmap : FMap outcome := λ A B f m,
  match m with Ret a => Ret (f a) | Panic => Panic end.

Lemma outcome_bind_ret {A B} (m : outcome A) (f : A → outcome B) b :
  m ≫= f = Ret b ↔ ∃ a, m = Ret a ∧ f a = Ret b.
Proof. destruct m; cbn; naive_solver. Qed.

(** Results of fallible code: Rust's [Result<A, E>]. *)

Inductive result (A E : Type) : Type :=
| Ok (a : A)
| Err (e : E).
Arguments Ok {A E} a.
Arguments Err {A E} e.

(** ** Machine integers *)

Definition u8_max  : Z := 255.
Definition u16_max : Z := 65535.
Definition u32_max : Z := 4294967295.
Definition u64_max : Z := 18446744073709551615.
Definition u128_max : Z := 340282366920938463463374607431768211455.
(** [usize] is 64 bits wide on every target the crate ships for. *)
Definition usize_max : Z := u64_max.

Definition is_u8 (z : Z) : Prop := 0 ≤ z ≤ u8_max.
Definition is_u16 (z : Z) : Prop := 0 ≤ z ≤ u16_max.
Definition is_u32 (z : Z) : Prop := 0 ≤ z ≤ u32_max.
Definition is_u64 (z : Z) : Prop := 0 ≤ z ≤ u64_max.

Definition wrap32 (z : Z) : Z := z mod (u32_max + 1).
Definition wrap64 (z : Z) : Z := z mod (u64_max + 1).

(** [a.saturating_sub(b)] on an unsigned type. *)
Definition sat_sub (a b : Z) : Z := Z.max 0 (a - b).

(** [a + b] and [a - b] with overflow checks on. *)
Definition checked_add (max a b : Z) : outcome Z :=
  if a + b <=? max then Ret (a + b) else Panic.
Definition checked_sub (a b : Z) : outcome Z :=
  if b <=? a then Ret (a - b) else Panic.

(** [max.checked_shl(n).unwrap_or(0)] on a [w]-bit type: [None] when the
    amount is not below the width, bits shifted out are lost. *)
Definition checked_shl_or_0 (w v n : Z) : Z :=
  if n <? w then Z.shiftl v n mod 2 ^ w else 0.

(** ** Tactics *)

Create HintDb sweety discriminated.

(** Case analysis on every boolean test and option scrutinised in the goal or
    a hypothesis. *)
Ltac case_test :=
  match goal with
  | |- context [if ?b then _ else _] => let E := fresh "E" in destruct b eqn:E
  | H : context [if ?b then _ else _] |- _ => let E := fresh "E" in destruct b eqn:E
  | |- context [match ?o with Some _ => _ | None => _ end] =>
      let E := fresh "E" in destruct o eqn:E
  | H : context [match ?o with Some _ => _ | None => _ end] |- _ =>
      let E := fresh "E" in destruct o eqn:E
  end.

(** Turn boolean tests on integers into propositions. *)
Ltac zbool :=
  repeat match goal with
  | H : (_ <? _) = true |- _ => apply Z.ltb_lt in H
  | H : (_ <? _) = false |- _ => apply Z.ltb_ge in H
  | H : (_ <=? _) = true |- _ => apply Z.leb_le in H
  | H : (_ <=? _) = false |- _ => apply Z.leb_gt in H
  | H : (_ =? _) = true |- _ => apply Z.eqb_eq in H
  | H : (_ =? _) = false |- _ => apply Z.eqb_neq in H
  | H : (_ && _) = true |- _ => apply andb_true_iff in H as [? ?]
  | H : (_ && _) = false |- _ => apply andb_false_iff in H as [?|?]
  | H : (_ || _) = true |- _ => apply orb_true_iff in H as [?|?]
  | H : (_ || _) = false |- _ => apply orb_false_iff in H as [? ?]
  | H : negb _ = true |- _ => apply negb_true_iff in H
  | H : negb _ = false |- _ => apply negb_false_iff in H
  end.

Ltac zsolve := zbool; simplify_eq/=; try lia; auto.

(** ** Generic lemmas *)

Lemma is_u16_be_bytes v : is_u16 v → is_u8 (v / 256) ∧ is_u8 (v mod 256).
Proof. unfold is_u16, is_u8, u16_max, u8_max; intros. split; Z.to_euclidean_division_equations; lia. Qed.

Lemma sat_sub_le a b : 0 ≤ a → 0 ≤ b → sat_sub a b ≤ a.
Proof. unfold sat_sub; lia. Qed.
#[export] Hint Resolve sat_sub_le : sweety.

Lemma drop_S_length_app {A} (l1 l2 : list A) x : drop (S (length l1)) (l1 ++ x :: l2) = l2.
Proof. induction l1; cbn; [by rewrite drop_0|done]. Qed.

(** First element satisfying a boolean test, the shape of every rule scan. *)
Fixpoint find_first {A} (p : A → bool) (l : list A) : option A :=
  match l with
  | [] => None
  | x :: l => if p x then Some x else find_first p l
  end.

Lemma find_first_Some {A} (p : A → bool) l x :
  find_first p l = Some x ↔
  ∃ l1 l2, l = l1 ++ x :: l2 ∧ p x = true ∧ Forall (λ y, p y = false) l1.
Proof.
  split.
  - induction l as [|y l IH]; cbn; [done|]. destruct (p y) eqn:Hy.
    + intros [= <-]. exists [], l. split_and!; auto.
    + intros (l1 & l2 & -> & Hx & Hl)%IH. exists (y :: l1), l2. split_and!; auto.
  - intros (l1 & l2 & -> & Hx & Hl). induction Hl as [|y l1 Hy _ IH]; cbn.
    + by rewrite Hx.
    + by rewrite Hy.
Qed.

Lemma find_first_None {A} (p : A → bool) l :
  find_first p l = None ↔ Forall (λ y, p y = false) l.
Proof.
  split.
  - induction l as [|y l IH]; cbn; [constructor|]. destruct (p y) eqn:Hy; [done|].
    intros ?%IH. by constructor.
  - induction 1 as [|y l Hy _ IH]; cbn; [done|]. by rewrite Hy.
Qed.

Lemma find_first_elem {A} (p : A → bool) l x :
  find_first p l = Some x → x ∈ l ∧ p x = true.
Proof.
  intros (l1 & l2 & -> & Hx & _)%find_first_Some. split; [|done].
  rewrite elem_of_app, elem_of_cons. auto.
Qed.

(** Stable insertion sort by an integer key: Rust's [sort_by_key]. *)
Section stable_sort.
Context {A : Type} (key : A → Z).

Fixpoint insert_by_key (x : A) (l : list A) : list A :=
  match l with
  | [] => [x]
  | y :: l' => if key x <=? key y then x :: l else y :: insert_by_key x l'
  end.

Fixpoint sort_by_key (l : list A) : list A :=
  match l with
  | [] => []
  | x :: l => insert_by_key x (sort_by_key l)
  end.

Definition key_sorted (l : list A) : Prop :=
  ∀ i j x y, (i < j)%nat → l !! i = Some x → l !! j = Some y → key x ≤ key y.

Lemma insert_by_key_perm x l : insert_by_key x l ≡ₚ x :: l.
Proof.
  induction l as [|y l IH]; cbn; [done|]. case_test; [done|].
  rewrite IH. constructor.
Qed.

Lemma sort_by_key_perm l : sort_by_key l ≡ₚ l.
Proof.
  induction l as [|x l IH]; cbn; [done|]. by rewrite insert_by_key_perm, IH.
Qed.

Lemma key_sorted_nil : key_sorted [].
Proof. intros i j x y _ H. done. Qed.

Lemma key_sorted_cons x l :
  key_sorted (x :: l) ↔ (∀ y, y ∈ l → key x ≤ key y) ∧ key_sorted l.
Proof.
  split.
  - intros H. split.
    + intros y [j Hj]%list_elem_of_lookup. by apply (H 0%nat (S j) x y); [lia|..].
    + intros i j a b Hij Ha Hb. apply (H (S i) (S j) a b); [lia|done..].
  - intros [H1 H2] i j a b Hij Ha Hb.
    destruct j as [|j]; [lia|]. destruct i as [|i]; cbn in *.
    + simplify_eq. apply H1, list_elem_of_lookup. eauto.
    + apply (H2 i j a b); [lia|done..].
Qed.

Lemma insert_by_key_sorted x l : key_sorted l → key_sorted (insert_by_key x l).
Proof.
  induction l as [|y l IH]; cbn; intros Hs.
  - apply key_sorted_cons. split; [|apply key_sorted_nil]. intros ? ?%elem_of_nil. done.
  - pose proof Hs as [Hy Hl]%key_sorted_cons. case_test; zbool.
    + apply key_sorted_cons. split; [|done].
      intros z [->|Hz]%elem_of_cons; [lia|]. specialize (Hy z Hz). lia.
    + apply key_sorted_cons. split; [|auto].
      intros z Hz. rewrite insert_by_key_perm in Hz.
      apply elem_of_cons in Hz as [->|Hz]; [lia|auto].
Qed.

Lemma sort_by_key_sorted l : key_sorted (sort_by_key l).
Proof. induction l; cbn; [apply key_sorted_nil|by apply insert_by_key_sorted]. Qed.

(** Stability: the elements of one key keep their order. *)
Lemma insert_by_key_filter k x l :
  filter (λ y, key y = k) (insert_by_key x l) = filter (λ y, key y = k) (x :: l).
Proof.
  induction l as [|y l IH]; cbn [insert_by_key]; [done|].
  case_test; zbool; [done|].
  rewrite filter_cons, IH, !filter_cons.
  repeat case_decide; try done. lia.
Qed.

Lemma sort_by_key_stable k l :
  filter (λ y, key y = k) (sort_by_key l) = filter (λ y, key y = k) l.
Proof.
  induction l as [|x l IH]; cbn [sort_by_key]; [done|].
  rewrite insert_by_key_filter, !filter_cons, IH. done.
Qed.

(** Scanning the sorted list for the first hit is the same as looking for
    the hit of least key, the earliest one among equals. *)
Fixpoint least_by_key (p : A → bool) (l : list A) : option A :=
  match l with
  | [] => None
  | x :: l =>
      if p x then
        match least_by_key p l with
        | Some y => if key x <=? key y then Some x else Some y
        | None => Some x
        end
      else least_by_key p l
  end.

Lemma find_first_insert p x l :
  key_sorted l →
  find_first p (insert_by_key x l) =
    if p x then match find_first p l with
                | Some y => if key x <=? key y then Some x else Some y
                | None => Some x
                end
    else find_first p l.
Proof.
  induction l as [|y l IH]; intros Hs; cbn [insert_by_key find_first]; [done|].
  pose proof Hs as [Hy Hl]%key_sorted_cons.
  destruct (Z.leb_spec (key x) (key y)) as [Hle|Hlt]; cbn [find_first].
  - destruct (p x) eqn:Hx; [|done]. destruct (p y) eqn:Hpy.
    + destruct (Z.leb_spec (key x) (key y)); [done|lia].
    + destruct (find_first p l) as [z|] eqn:Ez; [|done].
      apply find_first_elem in Ez as [Hz _]. specialize (Hy z Hz).
      destruct (Z.leb_spec (key x) (key z)); [done|lia].
  - rewrite IH by done. destruct (p y) eqn:Hpy; [|done].
    destruct (p x); [|done]. destruct (Z.leb_spec (key x) (key y)); [lia|done].
Qed.

Lemma find_first_sort p l : find_first p (sort_by_key l) = least_by_key p l.
Proof.
  induction l as [|x l IH]; cbn [sort_by_key least_by_key]; [done|].
  rewrite find_first_insert by apply sort_by_key_sorted. by rewrite IH.
Qed.
End stable_sort.

Lemma NoDup_fmap_unique {A B} (f : A → B) l x y : NoDup (f <$> l) → x ∈ l → y ∈ l → f x = f y → x = y.
Proof.
  intros Hnd Hx Hy E. apply list_elem_of_lookup in Hx as [i Hi], Hy as [j Hj].
  assert (i = j) as ->; [|congruence]. eapply (NoDup_lookup (f <$> l) i j (f x)); rewrite ?list_lookup_fmap, ?Hi, ?Hj; cbn; congruence.
Qed.

Lemma find_first_app {A} (p : A → bool) l1 l2 :
  find_first p (l1 ++ l2) = match find_first p l1 with Some x => Some x | None => find_first p l2 end.
Proof. induction l1 as [|x l1 IH]; [done|]. cbn [app find_first]. by destruct (p x). Qed.

Lemma rev_fmap {A B} (f : A → B) (l : list A) : rev (f <$> l) = f <$> rev l.
Proof. induction l as [|x l IH]; [done|]. cbn [fmap list_fmap rev]. by rewrite fmap_app, <- IH. Qed.

(** A list of keys mapped to one value, added at the front. *)
Lemma lookup_insert_members {A} (f : gmap (list Z) A) (k h : list Z) (ks : list (list Z)) (x : A) :
  (if bool_decide (h ∈ ks) then Some x else <[k := x]> f !! h) = (if bool_decide (h ∈ k :: ks) then Some x else f !! h).
Proof.
  rewrite (bool_decide_ext (h ∈ k :: ks) (h = k ∨ h ∈ ks)) by apply elem_of_cons.
  destruct (decide (h ∈ ks)) as [Hi|Hi]; [by rewrite !bool_decide_true by auto|].
  destruct (decide (h = k)) as [->|Hk].
  - rewrite (bool_decide_false (k ∈ ks)), bool_decide_true by auto. by rewrite lookup_insert_eq.
  - rewrite !bool_decide_false by naive_solver. by rewrite lookup_insert_ne.
Qed.

Lemma find_first_fmap {A B} (f : A → B) (p : B → bool) l :
  find_first p (f <$> l) = f <$> find_first (λ x, p (f x)) l.
Proof. induction l as [|x l IH]; cbn; [done|]. destruct (p (f x)); [done|apply IH]. Qed.

(** Network masks: [w]-bit words compared on their top bits. *)
Lemma mask_eq w sh : 0 ≤ sh → sh ≤ w →
  Z.shiftl (2 ^ w - 1) sh mod 2 ^ w = Z.shiftl (Z.ones (w - sh)) sh.
Proof.
  intros H1 H2. replace (2 ^ w - 1) with (Z.ones w) by (rewrite Z.ones_equiv; lia).
  apply Z.bits_inj'. intros i Hi.
  rewrite <- Z.land_ones by lia. rewrite Z.land_spec, !Z.shiftl_spec by lia.
  destruct (Z.ltb_spec (i - sh) 0).
  - by rewrite !(Z.testbit_neg_r _ (i - sh)) by lia.
  - rewrite !Z.testbit_ones_nonneg by lia.
    repeat match goal with |- context [?x <? ?y] => destruct (Z.ltb_spec x y); try lia end; done.
Qed.

Lemma land_mask w sh a : 0 ≤ sh ≤ w → 0 ≤ a < 2 ^ w →
  Z.land a (Z.shiftl (Z.ones (w - sh)) sh) = Z.shiftl (Z.shiftr a sh) sh.
Proof.
  intros H1 H2. apply Z.bits_inj'. intros i Hi.
  rewrite Z.land_spec, !Z.shiftl_spec by lia.
  destruct (Z.ltb_spec (i - sh) 0).
  - rewrite !(Z.testbit_neg_r _ (i - sh)) by lia. by rewrite andb_false_r.
  - rewrite Z.testbit_ones_nonneg, Z.shiftr_spec by lia.
    replace (i - sh + sh) with i by lia.
    destruct (Z.ltb_spec (i - sh) (w - sh)); [by rewrite andb_true_r|].
    rewrite andb_false_r. symmetry. destruct (Z.eq_dec a 0) as [->|]; [apply Z.bits_0|].
    apply Z.bits_above_log2; [lia|]. apply Z.log2_lt_pow2; [lia|].
    apply Z.lt_le_trans with (2 ^ w); [lia|]. apply Z.pow_le_mono_r; lia.
Qed.

(** Masked comparison is equality of the bits above the shift. *)
Lemma masked_eqb w sh a b : 0 ≤ sh ≤ w → 0 ≤ a < 2 ^ w → 0 ≤ b < 2 ^ w →
  let mask := Z.shiftl (2 ^ w - 1) sh mod 2 ^ w in
  (Z.land a mask =? Z.land b mask) = (Z.shiftr a sh =? Z.shiftr b sh).
Proof.
  intros H Ha Hb. cbn. rewrite mask_eq, !land_mask by lia.
  destruct (Z.eqb_spec (Z.shiftr a sh) (Z.shiftr b sh)) as [->|Hne]; [by rewrite Z.eqb_refl|].
  apply Z.eqb_neq. intros Heq. apply Hne.
  apply (f_equal (λ z, Z.shiftr z sh)) in Heq. by rewrite !Z.shiftr_shiftl_l, !Z.sub_diag, !Z.shiftl_0_r in Heq by lia.
Qed.

(** ** Bit packing as arithmetic *)

Lemma land_low a k : 0 ≤ k → Z.land a (2 ^ k - 1) = a mod 2 ^ k.
Proof. intros. rewrite Z.sub_1_r, <- Z.ones_equiv. by apply Z.land_ones. Qed.

Lemma lor_shiftl_add a b k : 0 ≤ k → 0 ≤ b < 2 ^ k → Z.lor (Z.shiftl a k) b = a * 2 ^ k + b.
Proof.
  intros Hk Hb. rewrite Z.shiftl_mul_pow2 by done.
  pose proof (Z.add_lor_land (a * 2 ^ k) b) as H.
  assert (Z.land (a * 2 ^ k) b = 0) as H0; [|lia].
  rewrite <- Z.shiftl_mul_pow2 by done. apply Z.bits_inj'. intros n Hn.
  rewrite Z.land_spec, Z.bits_0. destruct (decide (n < k)).
  - rewrite Z.shiftl_spec_low by lia. done.
  - rewrite <- (Z.mod_small b (2 ^ k)), Z.mod_pow2_bits_high by lia. apply andb_false_r.
Qed.

Lemma filter_none {A} (P : A → Prop) `{!∀ x, Decision (P x)} (l : list A) :
  (∀ x, x ∈ l → ¬ P x) → filter P l = [].
Proof.
  induction l as [|x l IH]; intros Hl; [apply filter_nil|]. rewrite filter_cons, decide_False by (apply Hl; set_solver).
  apply IH. set_solver.
Qed.

Lemma negb_existsb {A} (f : A → bool) l : negb (existsb f l) = forallb (λ x, negb (f x)) l.
Proof. induction l as [|x l IH]; cbn; [done|]. by rewrite negb_orb, IH. Qed.
