(* ===== verification/RustStr.v ===== *)
(** * Rust strings and byte slices

    A [&str], [String], [&[u8]] or [Vec<u8>] of the source is the list of its
    bytes, each a [Z] in [0, 256).  This file models the operations of the
    Rust standard library that the server's code applies to them, byte for
    byte, UTF-8 included, and the lemmas the components share. *)

From S2P Require Import Prelude.
From Stdlib Require Strings.String Strings.Ascii.

(** ASCII literals: [lit "GET"]. *)
Definition byte_of_ascii (a : Ascii.ascii) : Z := Z.of_N (Ascii.N_of_ascii a).
Definition lit (s : String.string) : list Z := byte_of_ascii <$> String.list_ascii_of_string s.
Arguments lit s%_string_scope.

Definition CR : Z := 13.
Definition LF : Z := 10.
Definition SP : Z := 32.
Definition byte_slash : Z := 47.
Definition byte_backslash : Z := 92.
Definition byte_colon : Z := 58.
Definition byte_comma : Z := 44.
Definition byte_dot : Z := 46.
Definition byte_question : Z := 63.
Definition byte_semicolon : Z := 59.
Definition byte_minus : Z := 45.
Definition byte_plus : Z := 43.
Definition byte_0 : Z := 48.

#[export] Instance bytes_eq_dec : EqDecision (list Z) := _.

(** Boolean equality of byte strings. *)
Definition str_eqb (a b : list Z) : bool := bool_decide (a = b).

Lemma str_eqb_eq a b : str_eqb a b = true ↔ a = b.
Proof. unfold str_eqb. by rewrite bool_decide_eq_true. Qed.
Lemma str_eqb_refl a : str_eqb a a = true.
Proof. by apply str_eqb_eq. Qed.

(** ** Prefixes and suffixes *)

Fixpoint strip_prefix (p s : list Z) : option (list Z) :=
  match p, s with
  | [], _ => Some s
  | a :: p, b :: s => if a =? b then strip_prefix p s else None
  | _ :: _, [] => None
  end.

Definition starts_with (p s : list Z) : bool :=
  match strip_prefix p s with Some _ => true | None => false end.

Definition ends_with (p s : list Z) : bool := starts_with (rev p) (rev s).

Lemma strip_prefix_Some p s r : strip_prefix p s = Some r ↔ s = p ++ r.
Proof.
  revert s; induction p as [|a p IH]; intros s; cbn; [naive_solver|].
  destruct s as [|b s]; [naive_solver|].
  destruct (Z.eqb_spec a b); naive_solver.
Qed.

Lemma starts_with_spec p s : starts_with p s = true ↔ ∃ r, s = p ++ r.
Proof.
  unfold starts_with. destruct (strip_prefix p s) eqn:E.
  - apply strip_prefix_Some in E. naive_solver.
  - split; [done|]. intros [r Hr%strip_prefix_Some]. congruence.
Qed.

Lemma starts_with_app p r : starts_with p (p ++ r) = true.
Proof. apply starts_with_spec. eauto. Qed.

Lemma strip_prefix_app p r : strip_prefix p (p ++ r) = Some r.
Proof. by apply strip_prefix_Some. Qed.

(** ** Searching for a byte *)

(** [s.find(c)]: index of the first occurrence. *)
Fixpoint find_byte (c : Z) (s : list Z) : option nat :=
  match s with
  | [] => None
  | b :: s => if b =? c then Some 0%nat else S <$> find_byte c s
  end.

Lemma find_byte_Some c s i :
  find_byte c s = Some i ↔ ∃ s1 s2, s = s1 ++ c :: s2 ∧ c ∉ s1 ∧ length s1 = i.
Proof.
  split.
  - revert i; induction s as [|b s IH]; intros i; cbn; [done|].
    destruct (Z.eqb_spec b c) as [->|Hne].
    + intros [= <-]. exists [], s. split_and!; auto. apply not_elem_of_nil.
    + intros (j & (s1 & s2 & -> & Hs1 & <-)%IH & ->)%fmap_Some.
      exists (b :: s1), s2. split_and!; auto. rewrite not_elem_of_cons. auto.
  - intros (s1 & s2 & -> & Hs1 & <-). induction s1 as [|b s1 IH]; cbn.
    + by rewrite Z.eqb_refl.
    + apply not_elem_of_cons in Hs1 as [? ?].
      destruct (Z.eqb_spec b c); [congruence|]. by rewrite IH.
Qed.

Lemma find_byte_None c s : find_byte c s = None ↔ c ∉ s.
Proof.
  induction s as [|b s IH]; cbn.
  - split; [intros; apply not_elem_of_nil|done].
  - rewrite not_elem_of_cons, <- IH.
    destruct (Z.eqb_spec b c); [naive_solver|].
    destruct (find_byte c s); naive_solver.
Qed.

(** [s.rfind(c)]: index of the last occurrence. *)
Fixpoint rfind_byte (c : Z) (s : list Z) : option nat :=
  match s with
  | [] => None
  | b :: s =>
      match rfind_byte c s with
      | Some i => Some (S i)
      | None => if b =? c then Some 0%nat else None
      end
  end.

Lemma rfind_byte_Some c s i :
  rfind_byte c s = Some i → ∃ s1 s2, s = s1 ++ c :: s2 ∧ c ∉ s2 ∧ length s1 = i.
Proof.
  assert (HN : ∀ s, rfind_byte c s = None → c ∉ s).
  { induction s0 as [|b s0 IH]; cbn; [intros; apply not_elem_of_nil|].
    destruct (rfind_byte c s0); [done|]. destruct (Z.eqb_spec b c); [done|].
    intros _. rewrite not_elem_of_cons. auto. }
  revert i; induction s as [|b s IH]; intros i; cbn; [done|].
  destruct (rfind_byte c s) as [j|] eqn:E.
  - intros [= <-]. destruct (IH j eq_refl) as (s1 & s2 & -> & ? & <-).
    by exists (b :: s1), s2.
  - destruct (Z.eqb_spec b c) as [->|]; [|done]. intros [= <-].
    exists [], s. auto.
Qed.

Lemma rfind_byte_None c s : rfind_byte c s = None ↔ c ∉ s.
Proof.
  induction s as [|b s IH]; cbn; [split; [intros; apply not_elem_of_nil|done]|].
  rewrite not_elem_of_cons, <- IH. destruct (rfind_byte c s); [naive_solver|].
  destruct (Z.eqb_spec b c); naive_solver.
Qed.

Lemma rfind_byte_app c s1 s2 : c ∉ s2 → rfind_byte c (s1 ++ c :: s2) = Some (length s1).
Proof.
  intros H%rfind_byte_None. induction s1 as [|b s1 IH]; cbn [app rfind_byte length]; [by rewrite H, Z.eqb_refl|by rewrite IH].
Qed.

(** [s.rsplit_once(c)] *)
Definition rsplit_once (c : Z) (s : list Z) : option (list Z * list Z) :=
  match rfind_byte c s with Some i => Some (take i s, drop (S i) s) | None => None end.

(** ** Splitting *)

(** [s.split(c)] for a set of separators given as a test: always at least one
    piece. *)
Fixpoint split_on (sep : Z → bool) (s : list Z) : list (list Z) :=
  match s with
  | [] => [[]]
  | b :: s =>
      if sep b then [] :: split_on sep s
      else match split_on sep s with
           | p :: ps => (b :: p) :: ps
           | [] => [[b]]
           end
  end.

Definition split_byte (c : Z) (s : list Z) : list (list Z) := split_on (λ b, b =? c) s.

(** [s.splitn(n, c)]: at most [n] pieces, the last one takes the rest. *)
Fixpoint splitn_byte (n : nat) (c : Z) (s : list Z) : list (list Z) :=
  match n with
  | O => []
  | S O => [s]
  | S n' =>
      match find_byte c s with
      | Some i => take i s :: splitn_byte n' c (drop (S i) s)
      | None => [s]
      end
  end.

Lemma split_on_nonempty sep s : split_on sep s ≠ [].
Proof. destruct s; cbn; [done|]. case_test; [done|]. destruct (split_on sep s); done. Qed.

Lemma split_on_pieces sep s p b : p ∈ split_on sep s → b ∈ p → sep b = false.
Proof.
  revert p; induction s as [|a s IH]; intros p; cbn.
  - intros ->%list_elem_of_singleton Hb%elem_of_nil. done.
  - destruct (sep a) eqn:Ha.
    + intros [->|Hp]%elem_of_cons; [by intros ?%elem_of_nil|eauto].
    + destruct (split_on sep s) as [|q qs] eqn:E; [by destruct (split_on_nonempty sep s)|].
      intros [->|Hp]%elem_of_cons.
      * intros [->|Hb]%elem_of_cons; [done|]. apply (IH q); [left|done].
      * apply IH. by right.
Qed.

(** A string without separator is its own only piece. *)
Lemma split_on_none sep s : Forall (λ b, sep b = false) s → split_on sep s = [s].
Proof. induction 1 as [|b s Hb _ IH]; cbn; [done|]. by rewrite Hb, IH. Qed.

Lemma split_on_app_sep sep p c s :
  Forall (λ b, sep b = false) p → sep c = true →
  split_on sep (p ++ c :: s) = p :: split_on sep s.
Proof.
  intros Hp Hc. induction Hp as [|b p Hb _ IH]; cbn; [by rewrite Hc|]. by rewrite Hb, IH.
Qed.

Lemma splitn_byte_app n c p s :
  c ∉ p → splitn_byte (S (S n)) c (p ++ c :: s) = p :: splitn_byte (S n) c s.
Proof.
  intros Hp. cbn [splitn_byte].
  assert (find_byte c (p ++ c :: s) = Some (length p)) as ->.
  { apply find_byte_Some. exists p, s. auto. }
  rewrite take_app_length.
  by rewrite drop_S_length_app.
Qed.

(** [s.split(c).next()]: the part before the first separator. *)
Definition before_byte (c : Z) (s : list Z) : list Z :=
  match find_byte c s with Some i => take i s | None => s end.

Lemma before_byte_head c s : head (split_byte c s) = Some (before_byte c s).
Proof.
  unfold before_byte, split_byte. induction s as [|b s IH]; cbn; [done|].
  destruct (Z.eqb_spec b c); cbn; [done|].
  destruct (split_on (λ b, b =? c) s) as [|q qs] eqn:E; [by destruct (split_on_nonempty (λ b, b =? c) s)|].
  cbn in *. injection IH as ->. by destruct (find_byte c s).
Qed.

Lemma before_byte_notin c s : c ∉ before_byte c s.
Proof.
  unfold before_byte. destruct (find_byte c s) as [i|] eqn:E.
  - apply find_byte_Some in E as (s1 & s2 & -> & H & <-). by rewrite take_app_length.
  - by apply find_byte_None.
Qed.

(** ** ASCII case *)

Definition is_ascii_uppercase (b : Z) : bool := (65 <=? b) && (b <=? 90).
Definition is_ascii_lowercase (b : Z) : bool := (97 <=? b) && (b <=? 122).
Definition is_ascii_digit (b : Z) : bool := (48 <=? b) && (b <=? 57).
Definition is_ascii_alphanumeric (b : Z) : bool :=
  is_ascii_uppercase b || is_ascii_lowercase b || is_ascii_digit b.
Definition byte_lower (b : Z) : Z := if is_ascii_uppercase b then b + 32 else b.
Definition byte_upper (b : Z) : Z := if is_ascii_lowercase b then b - 32 else b.

Definition to_ascii_lowercase (s : list Z) : list Z := byte_lower <$> s.
Definition to_ascii_uppercase (s : list Z) : list Z := byte_upper <$> s.
Definition eq_ignore_ascii_case (a b : list Z) : bool :=
  str_eqb (to_ascii_lowercase a) (to_ascii_lowercase b).
Definition is_ascii (s : list Z) : bool := forallb (λ b, (0 <=? b) && (b <? 128)) s.

Lemma byte_lower_idemp b : byte_lower (byte_lower b) = byte_lower b.
Proof. unfold byte_lower, is_ascii_uppercase. repeat case_test; zsolve. Qed.

Lemma to_ascii_lowercase_idemp s :
  to_ascii_lowercase (to_ascii_lowercase s) = to_ascii_lowercase s.
Proof.
  unfold to_ascii_lowercase. induction s as [|b s IH]; cbn; [done|].
  by rewrite byte_lower_idemp, IH.
Qed.

Lemma to_ascii_lowercase_id s :
  forallb (λ b, negb (is_ascii_uppercase b)) s = true → to_ascii_lowercase s = s.
Proof.
  unfold to_ascii_lowercase. induction s as [|b s IH]; cbn; [done|].
  intros [Hb Hs]%andb_true_iff. rewrite IH by done. f_equal.
  unfold byte_lower. apply negb_true_iff in Hb. by rewrite Hb.
Qed.

Lemma to_ascii_uppercase_id s :
  forallb (λ b, negb (is_ascii_lowercase b)) s = true → to_ascii_uppercase s = s.
Proof.
  unfold to_ascii_uppercase. induction s as [|b s IH]; cbn; [done|].
  intros [Hb Hs]%andb_true_iff. rewrite IH by done. f_equal.
  unfold byte_upper. apply negb_true_iff in Hb. by rewrite Hb.
Qed.

Lemma to_ascii_lowercase_app a b :
  to_ascii_lowercase (a ++ b) = to_ascii_lowercase a ++ to_ascii_lowercase b.
Proof. apply fmap_app. Qed.

Lemma byte_lower_keeps b c :
  is_ascii_uppercase c = false → is_ascii_lowercase c = false →
  byte_lower b = c ↔ b = c.
Proof.
  unfold byte_lower, is_ascii_uppercase, is_ascii_lowercase. intros H1 H2.
  split; [|intros ->; by rewrite H1].
  case_test; zsolve.
Qed.

(** ** White space: [char::is_whitespace] on UTF-8 *)

Definition is_ws1 (a : Z) : bool := ((9 <=? a) && (a <=? 13)) || (a =? 32).
Definition is_ws2 (a b : Z) : bool := (a =? 194) && ((b =? 133) || (b =? 160)).
Definition is_ws3 (a b c : Z) : bool :=
  ((a =? 225) && (b =? 154) && (c =? 128))
  || ((a =? 226) && (b =? 128) &&
        (((128 <=? c) && (c <=? 138)) || (c =? 168) || (c =? 169) || (c =? 175)))
  || ((a =? 226) && (b =? 129) && (c =? 159))
  || ((a =? 227) && (b =? 128) && (c =? 128)).

(** [s.trim_start()] *)
Fixpoint trim_start (s : list Z) : list Z :=
  match s with
  | [] => []
  | a :: s1 =>
      if is_ws1 a then trim_start s1 else
      match s1 with
      | [] => s
      | b :: s2 =>
          if is_ws2 a b then trim_start s2 else
          match s2 with
          | [] => s
          | c :: s3 => if is_ws3 a b c then trim_start s3 else s
          end
      end
  end.

(** [trim_start] on the reversed string: the bytes of a character come last
    byte first. *)
Fixpoint trim_start_rev (s : list Z) : list Z :=
  match s with
  | [] => []
  | a :: s1 =>
      if is_ws1 a then trim_start_rev s1 else
      match s1 with
      | [] => s
      | b :: s2 =>
          if is_ws2 b a then trim_start_rev s2 else
          match s2 with
          | [] => s
          | c :: s3 => if is_ws3 c b a then trim_start_rev s3 else s
          end
      end
  end.

Definition trim_end (s : list Z) : list Z := rev (trim_start_rev (rev s)).
Definition trim (s : list Z) : list Z := trim_end (trim_start s).

(** [s.split_whitespace()] *)
Fixpoint split_ws (cur : list Z) (s : list Z) : list (list Z) :=
  let flush := match cur with [] => [] | _ => [rev cur] end in
  match s with
  | [] => flush
  | a :: s1 =>
      if is_ws1 a then flush ++ split_ws [] s1 else
      match s1 with
      | [] => [rev (a :: cur)]
      | b :: s2 =>
          if is_ws2 a b then flush ++ split_ws [] s2 else
          match s2 with
          | [] => split_ws (a :: cur) s1
          | c :: s3 =>
              if is_ws3 a b c then flush ++ split_ws [] s3
              else split_ws (a :: cur) s1
          end
      end
  end.
Definition split_whitespace (s : list Z) : list (list Z) := split_ws [] s.

(** [s.trim_start_matches(c)] and [s.trim_end_matches(c)] for a set of bytes. *)
Fixpoint trim_start_matches (p : Z → bool) (s : list Z) : list Z :=
  match s with
  | [] => []
  | b :: s' => if p b then trim_start_matches p s' else s
  end.
Definition trim_end_matches (p : Z → bool) (s : list Z) : list Z :=
  rev (trim_start_matches p (rev s)).

Lemma trim_start_matches_suffix p s : ∃ q, s = q ++ trim_start_matches p s ∧ Forall (λ b, p b = true) q.
Proof.
  induction s as [|b s (q & Hq & Hp)]; cbn; [by exists []|].
  destruct (p b) eqn:E; [|by exists []].
  exists (b :: q). split; [cbn; by f_equal|by constructor].
Qed.

Lemma trim_start_matches_head p s b s' : trim_start_matches p s = b :: s' → p b = false.
Proof. induction s as [|a s IH]; cbn; [done|]. destruct (p a) eqn:E; [auto|naive_solver]. Qed.

(** A string whose first and last bytes are visible ASCII is its own trim. *)
Definition visible (b : Z) : bool := (33 <=? b) && (b <=? 126).

Lemma visible_not_ws a : visible a = true → is_ws1 a = false ∧ (∀ b, is_ws2 a b = false)
  ∧ (∀ b c, is_ws3 a b c = false) ∧ (∀ b, is_ws2 b a = false) ∧ (∀ b c, is_ws3 b c a = false).
Proof.
  unfold visible, is_ws1, is_ws2, is_ws3. intros H; zbool.
  split_and!; intros;
    repeat match goal with
    | |- context [?x =? ?y] => destruct (Z.eqb_spec x y); try lia
    | |- context [?x <=? ?y] => destruct (Z.leb_spec x y); try lia
    end; done.
Qed.

Lemma trim_start_visible a s : visible a = true → trim_start (a :: s) = a :: s.
Proof.
  intros (H1 & H2 & H3 & _)%visible_not_ws. cbn. rewrite H1.
  destruct s as [|b s]; [done|]. rewrite H2. destruct s; [done|]. by rewrite H3.
Qed.

Lemma trim_start_rev_visible a s : visible a = true → trim_start_rev (a :: s) = a :: s.
Proof.
  intros (H1 & _ & _ & H2 & H3)%visible_not_ws. cbn. rewrite H1.
  destruct s as [|b s]; [done|]. rewrite H2. destruct s; [done|]. by rewrite H3.
Qed.

Lemma trim_visible s : Forall (λ b, visible b = true) s → trim s = s.
Proof.
  intros Hs. destruct s as [|a s]; [done|]. unfold trim, trim_end.
  rewrite trim_start_visible by by inversion Hs.
  destruct (rev (a :: s)) as [|b t] eqn:E.
  - apply (f_equal (@length Z)) in E. rewrite length_rev in E. done.
  - rewrite trim_start_rev_visible; [rewrite <- E; apply rev_involutive|].
    rewrite Forall_forall in Hs. apply Hs.
    apply list_elem_of_In, in_rev. rewrite E. by left.
Qed.

(** ** Numbers *)

Definition digit_of (radix b : Z) : option Z :=
  let d := if is_ascii_digit b then b - 48
           else if is_ascii_lowercase b then b - 87
           else if is_ascii_uppercase b then b - 55
           else radix in
  if d <? radix then Some d else None.

Fixpoint parse_digits (radix max acc : Z) (s : list Z) : option Z :=
  match s with
  | [] => Some acc
  | b :: s =>
      match digit_of radix b with
      | Some d =>
          if acc * radix + d <=? max then parse_digits radix max (acc * radix + d) s else None
      | None => None
      end
  end.

(** [uN::from_str_radix(s, radix)]: an optional [+], then at least one digit,
    failing on overflow. *)
Definition from_str_radix (radix max : Z) (s : list Z) : option Z :=
  match s with
  | [] => None
  | b :: s' =>
      if b =? byte_plus then match s' with [] => None | _ => parse_digits radix max 0 s' end
      else parse_digits radix max 0 s
  end.

(** [s.parse::<uN>()] *)
Definition parse_uint (max : Z) (s : list Z) : option Z := from_str_radix 10 max s.

(** Decimal rendering of an unsigned integer; 20 digits hold every [u64]. *)
Fixpoint to_decimal (fuel : nat) (z : Z) : list Z :=
  match fuel with
  | O => []
  | S fuel => if z <? 10 then [48 + z] else to_decimal fuel (z / 10) ++ [48 + z mod 10]
  end.
Definition dec (z : Z) : list Z := to_decimal 20 z.

Lemma parse_digits_app radix max acc s b :
  parse_digits radix max acc (s ++ [b]) =
    (parse_digits radix max acc s ≫= λ a,
       digit_of radix b ≫= λ d, if a * radix + d <=? max then Some (a * radix + d) else None).
Proof.
  revert acc; induction s as [|c s IH]; intros acc; cbn.
  - destruct (digit_of radix b); cbn; [case_test|]; done.
  - destruct (digit_of radix c); cbn; [|done]. case_test; cbn; [apply IH|done].
Qed.

Lemma digit_of_decimal d : 0 ≤ d < 10 → digit_of 10 (48 + d) = Some d.
Proof.
  intros H. unfold digit_of, is_ascii_digit.
  replace ((48 <=? 48 + d) && (48 + d <=? 57)) with true by (symmetry; apply andb_true_iff; lia).
  replace (48 + d - 48) with d by lia. by destruct (Z.ltb_spec d 10); [|lia].
Qed.

Lemma to_decimal_parse fuel z max :
  0 ≤ z ≤ max → z < 10 ^ Z.of_nat fuel → fuel ≠ 0%nat →
  parse_digits 10 max 0 (to_decimal fuel z) = Some z.
Proof.
  revert z; induction fuel as [|fuel IH]; intros z Hz Hf Hn; [done|].
  cbn [to_decimal]. destruct (Z.ltb_spec z 10).
  - cbn [parse_digits]. rewrite digit_of_decimal by lia.
    replace (0 * 10 + z) with z by lia. destruct (Z.leb_spec z max); [done|lia].
  - destruct fuel as [|fuel]; [cbn in Hf; lia|].
    rewrite parse_digits_app, IH.
    + cbn. rewrite digit_of_decimal by (apply Z.mod_pos_bound; lia). cbn.
      replace (z / 10 * 10 + z mod 10) with z by (pose proof (Z.div_mod z 10); lia).
      destruct (Z.leb_spec z max); [done|lia].
    + split; [apply Z.div_pos; lia|]. apply Z.div_le_upper_bound; lia.
    + apply Z.div_lt_upper_bound; [lia|]. rewrite Nat2Z.inj_succ, Z.pow_succ_r in Hf by lia. lia.
    + done.
Qed.

Lemma to_decimal_digits fuel z : 0 ≤ z → Forall (λ b, is_ascii_digit b = true) (to_decimal fuel z).
Proof.
  revert z; induction fuel as [|fuel IH]; intros z Hz; cbn; [constructor|].
  unfold is_ascii_digit in *. destruct (Z.ltb_spec z 10).
  - constructor; [|constructor]. apply andb_true_iff; lia.
  - apply Forall_app; split; [apply IH, Z.div_pos; lia|].
    constructor; [|constructor]. pose proof (Z.mod_pos_bound z 10). apply andb_true_iff; lia.
Qed.

Lemma to_decimal_nonempty fuel z : fuel ≠ 0%nat → to_decimal fuel z ≠ [].
Proof. destruct fuel; [done|]. intros _. cbn. case_test; [done|]. intros [_ ?]%app_nil. done. Qed.

Lemma dec_digits z : 0 ≤ z → Forall (λ b, is_ascii_digit b = true) (dec z).
Proof. apply to_decimal_digits. Qed.

Lemma parse_uint_digits max s :
  s ≠ [] → Forall (λ b, is_ascii_digit b = true) s → parse_uint max s = parse_digits 10 max 0 s.
Proof.
  unfold parse_uint, from_str_radix. destruct s as [|b s]; [done|]. intros _ H.
  inversion H as [|? ? Hb]; subst. unfold is_ascii_digit, byte_plus in *.
  destruct (Z.eqb_spec b 43); [subst; done|done].
Qed.

(** Printing then parsing a [u64] gives it back. *)
Lemma parse_uint_dec max z : 0 ≤ z ≤ max → max ≤ u64_max → parse_uint max (dec z) = Some z.
Proof.
  intros Hz Hm. rewrite parse_uint_digits.
  - unfold u64_max in Hm. apply to_decimal_parse; [lia| |done]. cbn. lia.
  - by apply to_decimal_nonempty.
  - apply dec_digits. lia.
Qed.

Lemma digit_of_nonneg radix b d : 0 ≤ radix → digit_of radix b = Some d → 0 ≤ d < radix.
Proof.
  unfold digit_of, is_ascii_digit, is_ascii_lowercase, is_ascii_uppercase.
  intros Hr. repeat case_test; zsolve; intros; zsolve.
Qed.

Lemma parse_digits_bound radix max acc s v :
  0 ≤ acc ≤ max → 0 ≤ radix → parse_digits radix max acc s = Some v → 0 ≤ v ≤ max.
Proof.
  revert acc; induction s as [|b s IH]; intros acc Ha Hr; cbn; [naive_solver|].
  destruct (digit_of radix b) as [d|] eqn:E; [|done]. case_test; [|done]. zbool.
  apply IH; [|done]. split; [|done].
  apply digit_of_nonneg in E; [|done]. nia.
Qed.

Lemma parse_uint_bound max s v : 0 ≤ max → parse_uint max s = Some v → 0 ≤ v ≤ max.
Proof.
  unfold parse_uint, from_str_radix. intros Hm.
  destruct s as [|b s]; [done|]. case_test; [destruct s; [done|]|];
    apply parse_digits_bound; lia.
Qed.

(** ** Substrings *)

(** [s.find(pat)] for a string pattern. *)
Fixpoint find_sub (pat s : list Z) : option nat :=
  if starts_with pat s then Some 0%nat
  else match s with [] => None | _ :: s' => S <$> find_sub pat s' end.

(** [s.contains(pat)] *)
Fixpoint contains (pat s : list Z) : bool :=
  starts_with pat s || match s with [] => false | _ :: s' => contains pat s' end.

(** Whether a byte continues a UTF-8 character. *)
Definition is_cont (b : Z) : bool := (128 <=? b) && (b <=? 191).

(** [s.replace(pat, to)] for a non-empty pattern: matches are taken left to
    right and do not overlap; [skip] counts the bytes of a match still to be
    dropped. *)
Fixpoint replace_go (pat to : list Z) (skip : nat) (s : list Z) : list Z :=
  match s with
  | [] => []
  | b :: s' =>
      match skip with
      | S k => replace_go pat to k s'
      | O => if starts_with pat s then to ++ replace_go pat to (length pat - 1) s'
             else b :: replace_go pat to 0 s'
      end
  end.

(** The empty pattern matches before every character and at the end. *)
Fixpoint replace_empty (to s : list Z) : list Z :=
  match s with
  | [] => to
  | b :: s' => if is_cont b then b :: replace_empty to s' else to ++ b :: replace_empty to s'
  end.

Definition replace (pat to s : list Z) : list Z :=
  match pat with
  | [] => replace_empty to s
  | _ :: _ => replace_go pat to 0 s
  end.

(** [s.replacen(pat, to, 1)] *)
Fixpoint replace_first (pat to s : list Z) : list Z :=
  match strip_prefix pat s with
  | Some r => to ++ r
  | None => match s with [] => [] | b :: s' => b :: replace_first pat to s' end
  end.

Lemma replace_absent pat to s : pat ≠ [] → contains pat s = false → replace pat to s = s.
Proof.
  intros Hp. destruct pat as [|c pat]; [done|]. cbn [replace].
  induction s as [|b s IH]; cbn [replace_go]; [done|].
  cbn [contains]. intros [H1 H2]%orb_false_iff. rewrite H1. f_equal. by apply IH.
Qed.

(** A pattern made of bytes that a string lacks does not occur in it. *)
Lemma contains_byte c pat s : c ∈ pat → c ∉ s → contains pat s = false.
Proof.
  intros Hc. induction s as [|b s IH]; intros Hs.
  - cbn. destruct pat as [|a pat]; [by apply elem_of_nil in Hc|done].
  - cbn [contains]. apply orb_false_iff. split.
    + destruct (starts_with pat (b :: s)) eqn:E; [|done].
      apply starts_with_spec in E as [r Hr]. exfalso. apply Hs. rewrite Hr.
      apply elem_of_app. by left.
    + apply IH. rewrite not_elem_of_cons in Hs. tauto.
Qed.

(** [parts.join(sep)] *)
Fixpoint join (sep : list Z) (l : list (list Z)) : list Z :=
  match l with
  | [] => []
  | [x] => x
  | x :: l => x ++ sep ++ join sep l
  end.

(** [s.lines()]: a line ends at [\n] or [\r\n]; a last line without newline
    keeps its carriage return. *)
Definition strip_cr (s : list Z) : list Z :=
  match rev s with
  | b :: r => if b =? CR then rev r else s
  | [] => s
  end.

Fixpoint lines_go (l : list (list Z)) : list (list Z) :=
  match l with
  | [] => []
  | [x] => match x with [] => [] | _ => [x] end
  | x :: l => strip_cr x :: lines_go l
  end.
Definition lines (s : list Z) : list (list Z) := lines_go (split_byte LF s).

(** ** UTF-8 *)

(** [std::str::from_utf8(s).is_ok()]: the table of well-formed sequences. *)
Fixpoint utf8_valid (s : list Z) : bool :=
  match s with
  | [] => true
  | a :: s1 =>
      if a <=? 127 then utf8_valid s1
      else if a <=? 193 then false
      else match s1 with
      | [] => false
      | b :: s2 =>
          if a <=? 223 then is_cont b && utf8_valid s2
          else match s2 with
          | [] => false
          | c :: s3 =>
              if a <=? 239 then
                is_cont b && is_cont c
                && negb ((a =? 224) && (b <? 160)) && negb ((a =? 237) && (159 <? b))
                && utf8_valid s3
              else match s3 with
              | [] => false
              | d :: s4 =>
                  (a <=? 244) && is_cont b && is_cont c && is_cont d
                  && negb ((a =? 240) && (b <? 144)) && negb ((a =? 244) && (143 <? b))
                  && utf8_valid s4
              end
          end
      end
  end.

Lemma utf8_valid_ascii s : is_ascii s = true → utf8_valid s = true.
Proof.
  induction s as [|b s IH]; cbn; [done|]. intros [Hb Hs]%andb_true_iff.
  destruct (Z.leb_spec b 127); [auto|]. zbool. lia.
Qed.

(** [s.is_char_boundary(i)]; slicing a string elsewhere panics. *)
Definition is_char_boundary (s : list Z) (i : nat) : bool :=
  (i =? 0)%nat || match s !! i with
                 | Some b => negb (is_cont b)
                 | None => (i =? length s)%nat
                 end.

(** [&s[..i]] *)
Definition slice_to (s : list Z) (i : nat) : outcome (list Z) :=
  if is_char_boundary s i then Ret (take i s) else Panic.

(** ** Big-endian integers *)

Definition to_be_bytes16 (v : Z) : list Z := [v / 256 mod 256; v mod 256].
Definition from_be_bytes16 (a b : Z) : Z := a * 256 + b.
Definition to_be_bytes32 (v : Z) : list Z :=
  [v / 16777216 mod 256; v / 65536 mod 256; v / 256 mod 256; v mod 256].
Definition from_be_bytes32 (a b c d : Z) : Z := ((a * 256 + b) * 256 + c) * 256 + d.

Lemma be16_roundtrip v : is_u16 v → from_be_bytes16 (v / 256 mod 256) (v mod 256) = v.
Proof.
  unfold is_u16, u16_max, from_be_bytes16. intros. Z.to_euclidean_division_equations; lia.
Qed.

Lemma be32_roundtrip v : is_u32 v →
  from_be_bytes32 (v / 16777216 mod 256) (v / 65536 mod 256) (v / 256 mod 256) (v mod 256) = v.
Proof.
  unfold is_u32, u32_max, from_be_bytes32. intros. Z.to_euclidean_division_equations; lia.
Qed.

Lemma to_be_bytes16_u8 v : Forall is_u8 (to_be_bytes16 v).
Proof.
  unfold to_be_bytes16, is_u8, u8_max.
  repeat (constructor; [match goal with |- 0 ≤ ?a mod 256 ≤ _ =>
    pose proof (Z.mod_pos_bound a 256); lia end|]). constructor.
Qed.

(** ** Slices: indexing and copying with bounds checks *)

(** [buf[i]], [&buf[i..j]] and [buf[pos..pos + bs.len()].copy_from_slice(bs)]. *)
Definition index {A} (buf : list A) (i : nat) : outcome A :=
  match buf !! i with Some b => Ret b | None => Panic end.
Definition slice {A} (buf : list A) (i j : nat) : outcome (list A) :=
  if (i <=? j)%nat && (j <=? length buf)%nat then Ret (take (j - i) (drop i buf)) else Panic.
Definition copy_at {A} (buf : list A) (pos : nat) (bs : list A) : outcome (list A) :=
  if (pos + length bs <=? length buf)%nat
  then Ret (take pos buf ++ bs ++ drop (pos + length bs) buf) else Panic.

Lemma index_lt {A} (buf : list A) i : (i < length buf)%nat → ∃ b, index buf i = Ret b ∧ buf !! i = Some b.
Proof. intros [b Hb]%lookup_lt_is_Some_2. unfold index. rewrite Hb. eauto. Qed.

Lemma slice_le {A} (buf : list A) i j :
  (i ≤ j)%nat → (j ≤ length buf)%nat → slice buf i j = Ret (take (j - i) (drop i buf)).
Proof. intros. unfold slice. rewrite !(proj2 (Nat.leb_le _ _)) by lia. done. Qed.

(** [buf.windows(2).position(|w| w == [a, b])] *)
Fixpoint find_pair (a b : Z) (s : list Z) : option nat :=
  match s with
  | x :: (y :: _) as s' => if (x =? a) && (y =? b) then Some 0%nat else S <$> find_pair a b s'
  | _ => None
  end.

Lemma find_pair_app a b p s :
  a ∉ p → a ≠ b → find_pair a b (p ++ a :: b :: s) = Some (length p).
Proof.
  intros Hp Hab. induction p as [|x p IH]; [cbn; by rewrite !Z.eqb_refl|].
  apply not_elem_of_cons in Hp as [Hx Hp]. specialize (IH Hp).
  destruct p as [|y p]; cbn [app find_pair length] in *; rewrite (proj2 (Z.eqb_neq x a)) by done;
    cbn [andb]; by rewrite IH.
Qed.

Lemma find_pair_bound a b s i : find_pair a b s = Some i → (i + 2 ≤ length s)%nat ∧ s !! i = Some a.
Proof.
  revert i; induction s as [|x s IH]; intros i; cbn [find_pair]; [done|].
  destruct s as [|y s]; [done|]. destruct ((x =? a) && (y =? b)) eqn:E.
  - intros [= <-]. zbool. subst. cbn. split; [lia|done].
  - destruct (find_pair a b (y :: s)) as [j|] eqn:Ej; cbn; intros [= <-].
    destruct (IH j eq_refl). cbn in *. split; [lia|done].
Qed.

(** [buf.windows(4).position(|w| w == b"\r\n\r\n")] *)
Fixpoint find_crlfcrlf (buf : list Z) : option nat :=
  match buf with
  | a :: ((b :: c :: d :: _) as rest) =>
      if (a =? CR) && (b =? LF) && (c =? CR) && (d =? LF) then Some 0%nat else S <$> find_crlfcrlf rest
  | _ => None
  end.

Lemma find_crlfcrlf_cons x y z w a :
  find_crlfcrlf (x :: y :: z :: w :: a)
  = if (x =? CR) && (y =? LF) && (z =? CR) && (w =? LF) then Some 0%nat else S <$> find_crlfcrlf (y :: z :: w :: a).
Proof. done. Qed.

Lemma find_crlfcrlf_app a b i : find_crlfcrlf a = Some i → find_crlfcrlf (a ++ b) = Some i.
Proof.
  revert i; induction a as [|x a IH]; intros i; [done|].
  destruct a as [|y [|z [|w a]]]; try done. cbn [app] in *. rewrite !find_crlfcrlf_cons.
  destruct ((x =? CR) && (y =? LF) && (z =? CR) && (w =? LF)); [done|].
  intros (j & E & ->)%fmap_Some. by rewrite (IH j E).
Qed.

Lemma find_crlfcrlf_bound a i : find_crlfcrlf a = Some i → (i + 4 ≤ length a)%nat.
Proof.
  revert i; induction a as [|x a IH]; intros i; [done|].
  destruct a as [|y [|z [|w a]]]; try done. rewrite find_crlfcrlf_cons.
  destruct ((x =? CR) && (y =? LF) && (z =? CR) && (w =? LF)); [intros [= <-]; cbn; lia|].
  intros (j & E & ->)%fmap_Some. specialize (IH j E). cbn [length] in *. lia.
Qed.

Lemma find_crlfcrlf_prefix a b i :
  find_crlfcrlf (a ++ b) = Some i → (i + 4 ≤ length a)%nat → find_crlfcrlf a = Some i.
Proof.
  revert i; induction a as [|x a IH]; intros i H Hi; cbn [length] in Hi; [lia|].
  destruct a as [|y [|z [|w a]]]; cbn [length] in Hi; try lia. cbn [app] in *. rewrite find_crlfcrlf_cons in *.
  destruct ((x =? CR) && (y =? LF) && (z =? CR) && (w =? LF)); [done|].
  apply fmap_Some in H as (j & E & ->). rewrite (IH j E); [done|cbn [length]; lia].
Qed.

(** ** Trimming keeps a contiguous part *)

Lemma trim_start_suffix s : ∃ p, s = p ++ trim_start s.
Proof.
  induction s as [s IH] using (induction_ltof1 _ (@length Z)). unfold ltof in IH.
  destruct s as [|a s1]; [by exists []|]. cbn [trim_start].
  assert (Hgo : ∀ p s', a :: s1 = p ++ s' → p ≠ [] → ∃ q, a :: s1 = q ++ trim_start s').
  { intros p s' E Hp. destruct (IH s') as [q Hq].
    { rewrite E, length_app. destruct p; [done|]. cbn. lia. }
    exists (p ++ q). by rewrite <- app_assoc, <- Hq. }
  destruct (is_ws1 a); [by apply (Hgo [a])|]. destruct s1 as [|b s2]; [by exists []|].
  destruct (is_ws2 a b); [by apply (Hgo [a; b])|]. destruct s2 as [|c s3]; [by exists []|].
  destruct (is_ws3 a b c); [by apply (Hgo [a; b; c])|]. by exists [].
Qed.

Lemma trim_start_rev_suffix s : ∃ p, s = p ++ trim_start_rev s.
Proof.
  induction s as [s IH] using (induction_ltof1 _ (@length Z)). unfold ltof in IH.
  destruct s as [|a s1]; [by exists []|]. cbn [trim_start_rev].
  assert (Hgo : ∀ p s', a :: s1 = p ++ s' → p ≠ [] → ∃ q, a :: s1 = q ++ trim_start_rev s').
  { intros p s' E Hp. destruct (IH s') as [q Hq].
    { rewrite E, length_app. destruct p; [done|]. cbn. lia. }
    exists (p ++ q). by rewrite <- app_assoc, <- Hq. }
  destruct (is_ws1 a); [by apply (Hgo [a])|]. destruct s1 as [|b s2]; [by exists []|].
  destruct (is_ws2 b a); [by apply (Hgo [a; b])|]. destruct s2 as [|c s3]; [by exists []|].
  destruct (is_ws3 c b a); [by apply (Hgo [a; b; c])|]. by exists [].
Qed.

Lemma trim_infix s : ∃ p q, s = p ++ trim s ++ q.
Proof.
  destruct (trim_start_suffix s) as [p Hp]. unfold trim, trim_end.
  destruct (trim_start_rev_suffix (rev (trim_start s))) as [q Hq].
  exists p, (rev q). apply (f_equal (@rev Z)) in Hq. rewrite rev_involutive, rev_app_distr in Hq.
  by rewrite <- Hq.
Qed.

Lemma elem_of_trim b s : b ∈ trim s → b ∈ s.
Proof. destruct (trim_infix s) as (p & q & E). rewrite E at 2. rewrite !elem_of_app. auto. Qed.

Lemma is_ascii_elem s : is_ascii s = true ↔ ∀ b, b ∈ s → 0 ≤ b < 128.
Proof.
  unfold is_ascii. rewrite forallb_forall. setoid_rewrite <- list_elem_of_In.
  split; intros H b Hb; specialize (H b Hb); [zbool; lia|].
  rewrite (proj2 (Z.leb_le _ _)), (proj2 (Z.ltb_lt _ _)) by lia. done.
Qed.

(** An ASCII string can be cut anywhere. *)
Lemma slice_to_ascii s i : is_ascii s = true → (i ≤ length s)%nat → slice_to s i = Ret (take i s).
Proof.
  intros Ha Hi. unfold slice_to, is_char_boundary. destruct (Nat.eqb_spec i 0) as [->|Hn]; [done|].
  cbn [orb]. destruct (s !! i) as [b|] eqn:E.
  - assert (Hb : 0 ≤ b < 128) by (eapply is_ascii_elem; [done|by eapply list_elem_of_lookup_2]).
    unfold is_cont. rewrite (proj2 (Z.leb_gt _ _)) by lia. done.
  - apply lookup_ge_None in E. rewrite (proj2 (Nat.eqb_eq _ _)) by lia. done.
Qed.

(** The bytes of a piece are bytes of the string. *)
Lemma split_on_incl sep s p b : p ∈ split_on sep s → b ∈ p → b ∈ s.
Proof.
  revert p; induction s as [|a s IH]; intros p; cbn [split_on].
  - intros ->%list_elem_of_singleton. done.
  - destruct (sep a).
    + intros [->|Hp]%elem_of_cons; [by intros ?%not_elem_of_nil|]. intros. right. eauto.
    + destruct (split_on sep s) as [|q qs] eqn:E; [by destruct (split_on_nonempty sep s)|].
      intros [->|Hp]%elem_of_cons.
      * intros [->|Hb]%elem_of_cons; [left|right]. apply (IH q); [left|done].
      * intros. right. apply (IH p); [by right|done].
Qed.

(** ** Fields: words of visible ASCII *)

(** A visible, space-free, CR-free field. *)
Definition field (s : list Z) : Prop := Forall (λ b, visible b = true) s.

Lemma field_no_sp s : field s → SP ∉ s.
Proof. intros H Hin. by apply (proj1 (Forall_forall _ _) H) in Hin. Qed.
Lemma field_no_cr s : field s → CR ∉ s.
Proof. intros H Hin. by apply (proj1 (Forall_forall _ _) H) in Hin. Qed.
Lemma is_ascii_app a b : is_ascii (a ++ b) = is_ascii a && is_ascii b.
Proof. unfold is_ascii. apply forallb_app. Qed.
Lemma is_ascii_cons b s : is_ascii (b :: s) = (0 <=? b) && (b <? 128) && is_ascii s.
Proof. done. Qed.
Lemma field_ascii s : field s → is_ascii s = true.
Proof.
  induction 1 as [|b s Hb _ IH]; [done|]. rewrite is_ascii_cons, IH, andb_true_r. unfold visible in Hb. zbool.
  rewrite (proj2 (Z.leb_le _ _)), (proj2 (Z.ltb_lt _ _)) by lia. done.
Qed.
Lemma field_digits s : Forall (λ b, is_ascii_digit b = true) s → field s.
Proof.
  intros H. unfold field. eapply Forall_impl; [exact H|]. intros b Hb. unfold is_ascii_digit, visible in *.
  zbool. rewrite !(proj2 (Z.leb_le _ _)) by lia. done.
Qed.
Lemma dec_field z : 0 ≤ z → field (dec z).
Proof. intros. by apply field_digits, dec_digits. Qed.
Lemma field_app a b : field a → field b → field (a ++ b).
Proof. intros. by apply Forall_app. Qed.

Lemma field_no_lf s : field s → LF ∉ s.
Proof. intros H Hin. by apply (proj1 (Forall_forall _ _) H) in Hin. Qed.

(** [trim] removes the line end after a field. *)
Lemma trim_field_crlf s : field s → trim (s ++ [CR; LF]) = s.
Proof.
  intros Hs. destruct s as [|a s]; [reflexivity|]. unfold trim, trim_end.
  change ((a :: s) ++ [CR; LF]) with (a :: (s ++ [CR; LF])).
  rewrite trim_start_visible by (by inversion Hs).
  change (a :: (s ++ [CR; LF])) with ((a :: s) ++ [CR; LF]).
  rewrite rev_app_distr. change (rev [CR; LF] ++ rev (a :: s)) with (LF :: CR :: rev (a :: s)).
  change (trim_start_rev (LF :: CR :: rev (a :: s))) with (trim_start_rev (rev (a :: s))).
  destruct (rev (a :: s)) as [|b t] eqn:E.
  - apply (f_equal (@length Z)) in E. rewrite length_rev in E. done.
  - rewrite trim_start_rev_visible; [rewrite <- E; apply rev_involutive|].
    apply (proj1 (Forall_forall _ _) Hs). apply list_elem_of_In, in_rev. rewrite E. by left.
Qed.
