(* ===== verification/IpAddr.v ===== *)
(** * [std::net::IpAddr]

    IP addresses as the access-control, real-ip and PROXY-protocol code uses
    them: the enum with its two families, the octets and the integer value,
    the parser of the Rust standard library ([FromStr]) and its printer
    ([Display]). *)

From S2P Require Import Prelude RustStr.

(** An IPv4 address is its 32-bit value, an IPv6 address its 128-bit value. *)
Inductive IpAddr : Type :=
| V4 (a : Z)
| V6 (a : Z).

#[export] Instance IpAddr_eq_dec : EqDecision IpAddr.
Proof. solve_decision. Defined.

Definition ip_wf (ip : IpAddr) : Prop :=
  match ip with
  | V4 a => 0 ≤ a ≤ u32_max
  | V6 a => 0 ≤ a ≤ u128_max
  end.

Definition is_ipv4 (ip : IpAddr) : bool := match ip with V4 _ => true | V6 _ => false end.

(** Socket addresses. *)
Record SocketAddr := mkSocketAddr { sa_ip : IpAddr; sa_port : Z }.

Definition socket_wf (s : SocketAddr) : Prop := ip_wf (sa_ip s) ∧ is_u16 (sa_port s).

(** ** Octets: the big-endian bytes of the address *)

Fixpoint be_bytes (n : nat) (v : Z) : list Z :=
  match n with
  | O => []
  | S n => be_bytes n (v / 256) ++ [v mod 256]
  end.

Definition be_value (l : list Z) : Z := foldl (λ acc b, acc * 256 + b) 0 l.

Definition octets4 (a : Z) : list Z := be_bytes 4 a.
Definition octets16 (a : Z) : list Z := be_bytes 16 a.

Lemma length_be_bytes n v : length (be_bytes n v) = n.
Proof. revert v; induction n; intros; cbn; [done|]. rewrite length_app, IHn. cbn. lia. Qed.

Lemma be_value_app l b : be_value (l ++ [b]) = be_value l * 256 + b.
Proof. unfold be_value. by rewrite foldl_app. Qed.

Lemma be_value_be_bytes n v :
  0 ≤ v < 256 ^ Z.of_nat n → be_value (be_bytes n v) = v.
Proof.
  revert v; induction n as [|n IH]; intros v Hv; cbn [be_bytes].
  - cbn in *. lia.
  - rewrite be_value_app, IH.
    + pose proof (Z.div_mod v 256). lia.
    + rewrite Nat2Z.inj_succ, Z.pow_succ_r in Hv by lia.
      split; [apply Z.div_pos; lia|apply Z.div_lt_upper_bound; lia].
Qed.

Lemma be_bytes_u8 n v : Forall is_u8 (be_bytes n v).
Proof.
  revert v; induction n as [|n IH]; intros v; cbn; [constructor|].
  apply Forall_app; split; [apply IH|]. constructor; [|constructor].
  unfold is_u8, u8_max. pose proof (Z.mod_pos_bound v 256). lia.
Qed.

Lemma be_value_bound l : Forall is_u8 l → 0 ≤ be_value l < 256 ^ Z.of_nat (length l).
Proof.
  induction l as [|b l IH] using rev_ind; intros Hl; [by cbn|].
  apply Forall_app in Hl as [Hl Hb]. inversion Hb as [|? ? Hb1]; subst.
  rewrite be_value_app, length_app, Nat2Z.inj_add, Z.pow_add_r by lia. cbn [length].
  change (256 ^ Z.of_nat 1) with 256. specialize (IH Hl).
  unfold is_u8, u8_max in Hb1. nia.
Qed.

(** ** [FromStr]

    The parser of [core::net::parser]: a cursor over the input; each reader
    returns the rest of the input, or [None] and leaves it untouched. *)

(** Digits of a number, at most [max_digits], with the overflow check of
    [read_number]; a leading zero followed by more digits is refused when
    [allow_zero_prefix] is false. *)
Fixpoint read_digits (radix max : Z) (fuel : nat) (acc : Z) (n : nat) (s : list Z)
  {struct s} : option (Z * nat * list Z) :=
  match s with
  | [] => Some (acc, n, s)
  | b :: s' =>
      match digit_of radix b with
      | None => Some (acc, n, s)
      | Some d =>
          match fuel with
          | O => None
          | S fuel => if acc * radix + d <=? max
                      then read_digits radix max fuel (acc * radix + d) (S n) s' else None
          end
      end
  end.

Definition read_number (radix max : Z) (max_digits : nat) (allow_zero_prefix : bool)
    (s : list Z) : option (Z * list Z) :=
  let has_leading_zero := match s with b :: _ => b =? byte_0 | [] => false end in
  match read_digits radix max max_digits 0 0 s with
  | Some (v, n, r) =>
      if (n =? 0)%nat then None
      else if negb allow_zero_prefix && has_leading_zero && (1 <? n)%nat then None
      else Some (v, r)
  | None => None
  end.

Definition read_char (c : Z) (s : list Z) : option (list Z) :=
  match s with b :: s' => if b =? c then Some s' else None | [] => None end.

(** [read_separator(sep, index, inner)]: the separator is read before every
    element but the first. *)
Definition read_separator {A} (sep : Z) (index : nat) (inner : list Z → option (A * list Z))
    (s : list Z) : option (A * list Z) :=
  match index with
  | O => inner s
  | S _ => match read_char sep s with Some s' => inner s' | None => None end
  end.

Definition read_ipv4 (s : list Z) : option (Z * list Z) :=
  '(a, s) ← read_number 10 u8_max 3 false s;
  s ← read_char byte_dot s;
  '(b, s) ← read_number 10 u8_max 3 false s;
  s ← read_char byte_dot s;
  '(c, s) ← read_number 10 u8_max 3 false s;
  s ← read_char byte_dot s;
  '(d, s) ← read_number 10 u8_max 3 false s;
  Some (be_value [a; b; c; d], s).

(** [read_groups]: up to [limit] 16-bit groups starting at index [i]; stops at
    an embedded IPv4 address, which fills two of them. *)
Fixpoint read_groups (remaining : nat) (i : nat) (s : list Z)
  : list Z * bool * list Z :=
  match remaining with
  | O => ([], false, s)
  | S rem =>
      let embedded := if (1 <=? rem)%nat then read_separator byte_colon i read_ipv4 s else None in
      match embedded with
      | Some (v4, r) => ([v4 / 65536; v4 mod 65536], true, r)
      | None =>
          match read_separator byte_colon i (read_number 16 u16_max 4 true) s with
          | Some (g, r) =>
              let '(gs, v4, r) := read_groups rem (S i) r in (g :: gs, v4, r)
          | None => ([], false, s)
          end
      end
  end.

Definition groups_value (l : list Z) : Z := foldl (λ acc g, acc * 65536 + g) 0 l.

Definition read_ipv6 (s : list Z) : option (Z * list Z) :=
  let '(head, head_v4, s1) := read_groups 8 0 s in
  if (length head =? 8)%nat then Some (groups_value head, s1)
  else if head_v4 then None
  else
    s2 ← read_char byte_colon s1;
    s3 ← read_char byte_colon s2;
    let '(tail, _, s4) := read_groups (8 - (length head + 1)) 0 s3 in
    Some (groups_value (head ++ replicate (8 - length head - length tail) 0 ++ tail), s4).

(** [s.parse::<IpAddr>()]: IPv4 first, then IPv6, and the whole input. *)
Definition parse_ip (s : list Z) : option IpAddr :=
  match read_ipv4 s with
  | Some (a, []) => Some (V4 a)
  | Some (_, _ :: _) => None
  | None => match read_ipv6 s with
            | Some (a, []) => Some (V6 a)
            | _ => None
            end
  end.

Example parse_ip_v4 : parse_ip (lit "192.168.1.100") = Some (V4 3232235876).
Proof. reflexivity. Qed.
Example parse_ip_v4_leading_zero : parse_ip (lit "192.168.01.1") = None.
Proof. reflexivity. Qed.
Example parse_ip_loopback6 : parse_ip (lit "::1") = Some (V6 1).
Proof. vm_compute. reflexivity. Qed.
Example parse_ip_mapped : parse_ip (lit "::ffff:1.2.3.4") = Some (V6 (65535 * 4294967296 + 16909060)).
Proof. vm_compute. reflexivity. Qed.

(** ** [Display] *)

Definition hex_digit (d : Z) : Z := if d <? 10 then 48 + d else 87 + d.

(** [{:x}] of a 16-bit group. *)
Fixpoint to_hex (fuel : nat) (z : Z) : list Z :=
  match fuel with
  | O => []
  | S fuel => if z <? 16 then [hex_digit z] else to_hex fuel (z / 16) ++ [hex_digit (z mod 16)]
  end.

Definition display_v4 (a : Z) : list Z := join [byte_dot] (dec <$> octets4 a).

Fixpoint segments_of (n : nat) (v : Z) : list Z :=
  match n with
  | O => []
  | S n => segments_of n (v / 65536) ++ [v mod 65536]
  end.

(** The longest run of zero groups, the first one on ties: (start, length). *)
Fixpoint longest_zero_run (i cur_start cur_len best_start best_len : nat) (l : list Z) : nat * nat :=
  match l with
  | [] => (best_start, best_len)
  | g :: l =>
      if g =? 0 then
        let cs := if (cur_len =? 0)%nat then i else cur_start in
        let cl := S cur_len in
        if (best_len <? cl)%nat then longest_zero_run (S i) cs cl cs cl l
        else longest_zero_run (S i) cs cl best_start best_len l
      else longest_zero_run (S i) 0 0 best_start best_len l
  end.

Definition display_groups (l : list Z) : list Z := join [byte_colon] (to_hex 4 <$> l).

Definition display_v6 (a : Z) : list Z :=
  if a / 4294967296 =? 65535 then lit "::ffff:" ++ display_v4 (a mod 4294967296)
  else
    let l := segments_of 8 a in
    let '(start, len) := longest_zero_run 0 0 0 0 0 l in
    if (1 <? len)%nat
    then display_groups (take start l) ++ lit "::" ++ display_groups (drop (start + len) l)
    else display_groups l.

Definition display_ip (ip : IpAddr) : list Z :=
  match ip with V4 a => display_v4 a | V6 a => display_v6 a end.

Example display_v6_compressed : display_ip (V6 (42540766411282592856903984951653826561)) = lit "2001:db8::1".
Proof. vm_compute. reflexivity. Qed.

(** ** Printing then parsing an IPv4 address *)

(** The parser stops where a string has no further digit. *)
Definition no_digit (radix : Z) (s : list Z) : Prop :=
  match s with [] => True | b :: _ => digit_of radix b = None end.

Lemma read_digits_app radix max fuel acc n ds s v :
  parse_digits radix max acc ds = Some v → (length ds ≤ fuel)%nat → no_digit radix s →
  Forall (λ b, is_Some (digit_of radix b)) ds →
  read_digits radix max fuel acc n (ds ++ s) = Some (v, (n + length ds)%nat, s).
Proof.
  intros Hp Hf Hs Hd. revert fuel acc n Hp Hf.
  induction Hd as [|b ds [d Hb] _ IH]; intros fuel acc n Hp Hf; cbn in *.
  - simplify_eq. rewrite Nat.add_0_r. destruct s as [|c s]; [done|].
    cbn in Hs. cbn. by rewrite Hs.
  - rewrite Hb in Hp. destruct fuel as [|fuel]; [lia|]. cbn. rewrite Hb.
    case_test; [|done]. rewrite (IH fuel (acc * radix + d) (S n)) by (done || lia).
    do 2 f_equal. f_equal. lia.
Qed.

Lemma read_digits_bound radix max fuel acc n s v m r :
  read_digits radix max fuel acc n s = Some (v, m, r) → 0 ≤ acc ≤ max → 0 ≤ radix → 0 ≤ v ≤ max.
Proof.
  revert fuel acc n; induction s as [|b s IH]; intros fuel acc n; cbn; [intros; simplify_eq; lia|].
  destruct (digit_of radix b) as [d|] eqn:E; [|intros; simplify_eq; lia].
  destruct fuel as [|fuel]; [done|]. case_test; [|done]. intros H Ha Hr.
  apply (IH _ _ _ H); [|done]. zbool. split; [|done].
  apply digit_of_nonneg in E; [|done]. nia.
Qed.

(** The decimal form of an octet: one to three digits, no leading zero. *)
Definition octet_ok (o : Z) : bool :=
  (1 <=? length (dec o))%nat && (length (dec o) <=? 3)%nat
  && ((length (dec o) =? 1)%nat || match dec o with b :: _ => negb (b =? byte_0) | [] => false end).

Lemma octet_ok_all o : 0 ≤ o ≤ 255 → octet_ok o = true.
Proof.
  intros Ho. assert (forallb octet_ok (Z.of_nat <$> seq 0 256) = true) as H by (vm_compute; reflexivity).
  rewrite forallb_forall in H. apply H, list_elem_of_In, list_elem_of_fmap.
  exists (Z.to_nat o). rewrite elem_of_seq. lia.
Qed.

Lemma digits_are_digits s :
  Forall (λ b, is_ascii_digit b = true) s → Forall (λ b, is_Some (digit_of 10 b)) s.
Proof.
  intros H. eapply Forall_impl; [exact H|]. intros b Hb. unfold digit_of. rewrite Hb.
  unfold is_ascii_digit in Hb. zbool. destruct (Z.ltb_spec (b - 48) 10); [done|lia].
Qed.

Lemma read_number_octet o s :
  0 ≤ o ≤ 255 → no_digit 10 s → read_number 10 u8_max 3 false (dec o ++ s) = Some (o, s).
Proof.
  intros Ho Hs. pose proof (octet_ok_all o Ho) as Hok. unfold octet_ok in Hok.
  apply andb_true_iff in Hok as [[H1 H3]%andb_true_iff Hz]. unfold read_number.
  rewrite (read_digits_app 10 u8_max 3 0 0 (dec o) s o).
  - cbn [Nat.add]. destruct (Nat.eqb_spec (length (dec o)) 0) as [E|_];
      [rewrite E in *; done|].
    apply orb_true_iff in Hz as [Hz|Hz].
    + apply Nat.eqb_eq in Hz. rewrite Hz. rewrite !andb_false_r. done.
    + destruct (dec o) as [|b r]; [done|]. apply negb_true_iff in Hz. cbn [app]. by rewrite Hz.
  - apply to_decimal_parse; [unfold u8_max; lia|cbn; lia|done].
  - by apply Nat.leb_le.
  - done.
  - apply digits_are_digits, dec_digits. lia.
Qed.

Lemma no_digit_dot s : no_digit 10 (byte_dot :: s).
Proof. done. Qed.

Lemma octets4_eq a : octets4 a = [a / 256 / 256 / 256 mod 256; a / 256 / 256 mod 256; a / 256 mod 256; a mod 256].
Proof. done. Qed.

Lemma u32_pow a : 0 ≤ a ≤ u32_max → 0 ≤ a < 256 ^ Z.of_nat 4.
Proof. unfold u32_max. change (256 ^ Z.of_nat 4) with 4294967296. lia. Qed.

Lemma read_ipv4_dotted a b c d s :
  is_u8 a → is_u8 b → is_u8 c → is_u8 d → no_digit 10 s →
  read_ipv4 (dec a ++ byte_dot :: dec b ++ byte_dot :: dec c ++ byte_dot :: dec d ++ s)
    = Some (be_value [a; b; c; d], s).
Proof.
  unfold is_u8, u8_max. intros. unfold read_ipv4.
  do 3 (rewrite read_number_octet by (done || apply no_digit_dot); cbn [mbind option_bind read_char];
        rewrite Z.eqb_refl; cbn [mbind option_bind]).
  by rewrite read_number_octet.
Qed.

Lemma display_v4_eq a :
  display_v4 a = dec (a / 256 / 256 / 256 mod 256) ++ byte_dot :: dec (a / 256 / 256 mod 256)
    ++ byte_dot :: dec (a / 256 mod 256) ++ byte_dot :: dec (a mod 256).
Proof. done. Qed.

(** Parsing what [Display] prints for an IPv4 address gives the address. *)
Lemma parse_display_v4 a : 0 ≤ a ≤ u32_max → parse_ip (display_v4 a) = Some (V4 a).
Proof.
  intros Ha. unfold parse_ip. rewrite display_v4_eq.
  pose proof (be_bytes_u8 4 a) as Hu. change (be_bytes 4 a) with (octets4 a) in Hu.
  rewrite octets4_eq in Hu. decompose_Forall_hyps.
  rewrite <- (app_nil_r (dec (a mod 256))).
  rewrite read_ipv4_dotted by done.
  rewrite <- octets4_eq. unfold octets4. by rewrite be_value_be_bytes by by apply u32_pow.
Qed.

(** ** Parsed addresses are in range *)

Lemma read_number_bound radix max d z s v r :
  0 ≤ max → 0 ≤ radix → read_number radix max d z s = Some (v, r) → 0 ≤ v ≤ max.
Proof.
  intros Hm Hr. unfold read_number. destruct (read_digits _ _ _ _ _ _) as [[[w n] t]|] eqn:E; [|done].
  apply read_digits_bound in E; [|lia|done]. repeat case_test; intros; by simplify_eq.
Qed.

Lemma read_ipv4_bound s a r : read_ipv4 s = Some (a, r) → 0 ≤ a ≤ u32_max.
Proof.
  unfold read_ipv4. intros H.
  repeat match goal with
  | H : mbind _ _ = Some _ |- _ => apply bind_Some in H as (? & ? & H)
  | H : (let '(_, _) := ?x in _) = Some _ |- _ => destruct x
  end. simplify_eq.
  repeat match goal with H : read_number _ _ _ _ _ = Some _ |- _ =>
    apply read_number_bound in H; [|done..] end.
  match goal with |- 0 ≤ be_value ?l ≤ _ => assert (Forall is_u8 l) as Hl end.
  { repeat (constructor; [done|]). by apply Forall_nil. }
  apply be_value_bound in Hl. cbn [length] in Hl.
  change (256 ^ Z.of_nat 4) with (u32_max + 1) in Hl. lia.
Qed.

Lemma read_separator_Some {A} sep i (inner : list Z → option (A * list Z)) s x :
  read_separator sep i inner s = Some x → ∃ s', inner s' = Some x.
Proof. destruct i; cbn; [eauto|]. destruct (read_char sep s); [eauto|done]. Qed.

Lemma read_groups_bound rem i s gs v4 r :
  read_groups rem i s = (gs, v4, r) → Forall is_u16 gs ∧ (length gs ≤ rem)%nat.
Proof.
  revert i s gs v4 r; induction rem as [|rem IH]; intros i s gs v4 r; cbn [read_groups].
  { intros [= <- <- <-]. auto. }
  destruct (if (1 <=? rem)%nat then read_separator byte_colon i read_ipv4 s else None) as [[a t]|] eqn:E.
  - destruct (1 <=? rem)%nat eqn:Hr; [|done]. apply Nat.leb_le in Hr.
    apply read_separator_Some in E as (s' & Ha%read_ipv4_bound).
    intros [= <- <- <-]. split; [|cbn; lia]. unfold is_u16, u16_max, u32_max in *.
    repeat (constructor; [Z.to_euclidean_division_equations; lia|]). by apply Forall_nil.
  - clear E. destruct (read_separator byte_colon i (read_number 16 u16_max 4 true) s) as [[g t]|] eqn:Eg.
    + apply read_separator_Some in Eg as (s' & Hg%read_number_bound); [|done..].
      destruct (read_groups rem (S i) t) as [[gs' b] t'] eqn:Er. apply IH in Er as [Hgs Hl].
      intros [= <- <- <-]. split; [by constructor|cbn; lia].
    + intros [= <- <- <-]. split; [constructor|cbn; lia].
Qed.

Lemma groups_value_app l g : groups_value (l ++ [g]) = groups_value l * 65536 + g.
Proof. unfold groups_value. by rewrite foldl_app. Qed.

Lemma groups_value_bound l : Forall is_u16 l → 0 ≤ groups_value l < 65536 ^ Z.of_nat (length l).
Proof.
  induction l as [|g l IH] using rev_ind; intros Hl; [by cbn|].
  apply Forall_app in Hl as [Hl Hb]. inversion Hb as [|? ? Hg]; subst.
  rewrite groups_value_app, length_app, Nat2Z.inj_add, Z.pow_add_r by lia. cbn [length].
  change (65536 ^ Z.of_nat 1) with 65536. specialize (IH Hl).
  unfold is_u16, u16_max in Hg. nia.
Qed.

Lemma groups8_bound l : Forall is_u16 l → length l = 8%nat → 0 ≤ groups_value l ≤ u128_max.
Proof.
  intros H Hl. apply groups_value_bound in H. rewrite Hl in H.
  change (65536 ^ Z.of_nat 8) with (u128_max + 1) in H. lia.
Qed.

Lemma read_ipv6_bound s a r : read_ipv6 s = Some (a, r) → 0 ≤ a ≤ u128_max.
Proof.
  unfold read_ipv6. destruct (read_groups 8 0 s) as [[hd hv4] s1] eqn:E1.
  apply read_groups_bound in E1 as [Hh Hhl].
  destruct (Nat.eqb_spec (length hd) 8) as [H8|H8].
  { intros [= <- <-]. by apply groups8_bound. }
  destruct hv4; [done|]. intros (s2 & _ & H)%bind_Some. apply bind_Some in H as (s3 & _ & H).
  destruct (read_groups _ 0 s3) as [[tl b] s4] eqn:E2. apply read_groups_bound in E2 as [Ht Htl].
  injection H as <- <-. apply groups8_bound.
  - rewrite !Forall_app. split_and!; [done| |done]. apply Forall_replicate. done.
  - rewrite !length_app, length_replicate. lia.
Qed.

Lemma parse_ip_wf s ip : parse_ip s = Some ip → ip_wf ip.
Proof.
  unfold parse_ip. destruct (read_ipv4 s) as [[a [|]]|] eqn:E4; [|done|].
  - intros [= <-]. by apply read_ipv4_bound in E4.
  - destruct (read_ipv6 s) as [[a [|]]|] eqn:E6; [|done..].
    intros [= <-]. by apply read_ipv6_bound in E6.
Qed.

(** ** Hexadecimal *)

Lemma to_hex_length fuel z : (length (to_hex fuel z) ≤ fuel)%nat.
Proof.
  revert z; induction fuel as [|fuel IH]; intros z; cbn; [lia|].
  case_test; cbn; [lia|]. rewrite length_app. specialize (IH (z / 16)). cbn. lia.
Qed.

Lemma field_hex fuel z : 0 ≤ z → field (to_hex fuel z).
Proof.
  assert (Hd : ∀ d, 0 ≤ d < 16 → visible (hex_digit d) = true).
  { intros d Hd. unfold visible, hex_digit. case_test; zbool; rewrite !(proj2 (Z.leb_le _ _)) by lia; done. }
  revert z; induction fuel as [|fuel IH]; intros z Hz; cbn [to_hex]; [constructor|].
  destruct (Z.ltb_spec z 16).
  - constructor; [|constructor]. apply Hd. lia.
  - apply field_app; [apply IH; apply Z.div_pos; lia|]. constructor; [|constructor].
    apply Hd. apply Z.mod_pos_bound. lia.
Qed.

Lemma digit_of_hex d : 0 ≤ d < 16 → digit_of 16 (hex_digit d) = Some d.
Proof.
  intros Hd. assert (H : forallb (λ d, bool_decide (digit_of 16 (hex_digit d) = Some d))
    (Z.of_nat <$> seq 0 16) = true) by (vm_compute; reflexivity).
  rewrite forallb_forall in H. eapply bool_decide_eq_true, H, list_elem_of_In, list_elem_of_fmap.
  exists (Z.to_nat d). rewrite elem_of_seq. lia.
Qed.

Lemma to_hex_parse fuel z max :
  0 ≤ z ≤ max → z < 16 ^ Z.of_nat fuel → fuel ≠ 0%nat →
  parse_digits 16 max 0 (to_hex fuel z) = Some z.
Proof.
  revert z; induction fuel as [|fuel IH]; intros z Hz Hf Hn; [done|].
  cbn [to_hex]. destruct (Z.ltb_spec z 16).
  - cbn [parse_digits]. rewrite digit_of_hex by lia.
    replace (0 * 16 + z) with z by lia. destruct (Z.leb_spec z max); [done|lia].
  - destruct fuel as [|fuel]; [cbn in Hf; lia|].
    rewrite parse_digits_app, IH.
    + cbn [mbind option_bind]. rewrite digit_of_hex by (apply Z.mod_pos_bound; lia). cbn [mbind option_bind].
      replace (z / 16 * 16 + z mod 16) with z by (pose proof (Z.div_mod z 16); lia).
      destruct (Z.leb_spec z max); [done|lia].
    + split; [apply Z.div_pos; lia|]. apply Z.div_le_upper_bound; lia.
    + apply Z.div_lt_upper_bound; [lia|]. rewrite Nat2Z.inj_succ, Z.pow_succ_r in Hf by lia. lia.
    + done.
Qed.

Lemma to_hex_nonempty fuel z : fuel ≠ 0%nat → to_hex fuel z ≠ [].
Proof. destruct fuel; [done|]. intros _. cbn. case_test; [done|]. intros [_ ?]%app_nil. done. Qed.

Lemma to_hex_digits fuel z : 0 ≤ z → Forall (λ b, is_Some (digit_of 16 b)) (to_hex fuel z).
Proof.
  revert z; induction fuel as [|fuel IH]; intros z Hz; cbn [to_hex]; [constructor|].
  destruct (Z.ltb_spec z 16).
  - constructor; [|constructor]. rewrite digit_of_hex by lia. by eexists.
  - apply Forall_app; split; [apply IH; apply Z.div_pos; lia|]. constructor; [|constructor].
    rewrite digit_of_hex by (apply Z.mod_pos_bound; lia). by eexists.
Qed.
