(* ===== verification/AccessControl.v ===== *)
(** * IP access control: [src/middleware/access_control.rs]

    [allow] / [deny] rules of a location: parsing of a rule's source, CIDR
    matching, compilation in priority order and the per-request check. *)

From S2P Require Import Prelude RustStr IpAddr.

Inductive AccessAction := Allow | Deny.

#[export] Instance AccessAction_eq_dec : EqDecision AccessAction.
Proof. solve_decision. Defined.

Record AccessRule := mkAccessRule {
  ar_action : AccessAction;
  ar_source : list Z;
  ar_priority : Z;          (* u16, default 0 *)
}.

Inductive IpMatcher :=
| MAll
| MExact (addr : IpAddr)
| MCidr (network : IpAddr) (prefix_len : Z).

Record CompiledAccessRule := mkCompiledAccessRule {
  car_action : AccessAction;
  car_matcher : IpMatcher;
}.

Definition default_priority : Z := 0.

(** [IpMatcher::parse] *)
Definition IpMatcher_parse (source : list Z) : option IpMatcher :=
  let s := trim source in
  if eq_ignore_ascii_case s (lit "all") then Some MAll
  else
    match find_byte byte_slash s with
    | Some pos =>
        ip ← parse_ip (take pos s);
        prefix_len ← parse_uint u8_max (drop (S pos) s);
        let max := if is_ipv4 ip then 32 else 128 in
        if max <? prefix_len then None else Some (MCidr ip prefix_len)
    | None => MExact <$> parse_ip s
    end.

(** [cidr_contains]: the subtraction [32 - prefix_len] panics when the prefix
    is longer than the address. *)
Definition cidr_contains (network : IpAddr) (prefix_len : Z) (ip : IpAddr) : outcome bool :=
  match network, ip with
  | V4 net, V4 addr =>
      if prefix_len =? 0 then Ret true
      else
        sh ← checked_sub 32 prefix_len;
        let mask := checked_shl_or_0 32 u32_max sh in
        Ret (Z.land net mask =? Z.land addr mask)
  | V6 net, V6 addr =>
      if prefix_len =? 0 then Ret true
      else
        sh ← checked_sub 128 prefix_len;
        let mask := checked_shl_or_0 128 u128_max sh in
        Ret (Z.land net mask =? Z.land addr mask)
  | _, _ => Ret false
  end.

(** [IpMatcher::matches] *)
Definition IpMatcher_matches (m : IpMatcher) (ip : IpAddr) : outcome bool :=
  match m with
  | MAll => Ret true
  | MExact addr => Ret (bool_decide (addr = ip))
  | MCidr network prefix_len => cidr_contains network prefix_len ip
  end.

(** [compile_rules]: rules whose source does not parse are dropped; the rest
    are sorted by priority, stably. *)
Definition compile_rule (r : AccessRule) : option (Z * CompiledAccessRule) :=
  (λ m, (ar_priority r, mkCompiledAccessRule (ar_action r) m)) <$> IpMatcher_parse (ar_source r).

Definition compile_rules (rules : list AccessRule) : list CompiledAccessRule :=
  snd <$> sort_by_key fst (omap compile_rule rules).

(** [check_access]: the first matching rule decides, allow by default. *)
Fixpoint check_access (rules : list CompiledAccessRule) (ip : IpAddr) : outcome AccessAction :=
  match rules with
  | [] => Ret Allow
  | r :: rules =>
      b ← IpMatcher_matches (car_matcher r) ip;
      if (b : bool) then Ret (car_action r) else check_access rules ip
  end.

(** ** Reference semantics *)

(** The width of an address family and the set a matcher denotes: [ip] is in
    the network when it has the network's family and its first [p] bits. *)
Definition ip_width (ip : IpAddr) : Z := if is_ipv4 ip then 32 else 128.
Definition ip_bits (ip : IpAddr) : Z := match ip with V4 a | V6 a => a end.

Definition matcher_covers (m : IpMatcher) (ip : IpAddr) : bool :=
  match m with
  | MAll => true
  | MExact addr => bool_decide (addr = ip)
  | MCidr net p =>
      eqb (is_ipv4 net) (is_ipv4 ip)
      && (Z.shiftr (ip_bits net) (ip_width net - p) =? Z.shiftr (ip_bits ip) (ip_width ip - p))
  end.

Definition matcher_wf (m : IpMatcher) : Prop :=
  match m with
  | MAll => True
  | MExact addr => ip_wf addr
  | MCidr net p => ip_wf net ∧ 0 ≤ p ≤ ip_width net
  end.

(** The rule that decides: of the rules that parse and cover the address, the
    one of least priority number, the earliest in the file among equals. *)
Definition deciding_rule (rules : list AccessRule) (ip : IpAddr) : option (Z * CompiledAccessRule) :=
  least_by_key fst (λ r, matcher_covers (car_matcher (snd r)) ip) (omap compile_rule rules).

Definition access_spec (rules : list AccessRule) (ip : IpAddr) : AccessAction :=
  match deciding_rule rules ip with
  | Some (_, r) => car_action r
  | None => Allow
  end.

(** ** Lemmas *)

Lemma IpMatcher_parse_wf s m : IpMatcher_parse s = Some m → matcher_wf m.
Proof.
  unfold IpMatcher_parse. case_test; [by intros [= <-]|].
  destruct (find_byte byte_slash (trim s)) as [pos|].
  - intros (ip & Hip%parse_ip_wf & H)%bind_Some. apply bind_Some in H as (p & Hp & H).
    apply parse_uint_bound in Hp; [|done]. revert H. case_test; [done|]. intros [= <-].
    split; [done|]. zbool. unfold ip_width. lia.
  - intros (ip & Hip%parse_ip_wf & ->)%fmap_Some. done.
Qed.

Lemma shiftr_width a w : 0 ≤ a < 2 ^ w → 0 ≤ w → Z.shiftr a w = 0.
Proof. intros. rewrite Z.shiftr_div_pow2 by lia. apply Z.div_small. lia. Qed.

Lemma cidr_contains_V4 net p addr :
  ip_wf (V4 net) → ip_wf (V4 addr) → 0 ≤ p ≤ 32 →
  cidr_contains (V4 net) p (V4 addr) = Ret (Z.shiftr net (32 - p) =? Z.shiftr addr (32 - p)).
Proof.
  cbn [ip_wf]. unfold u32_max. intros Hn Ha Hp. cbn [cidr_contains].
  destruct (Z.eqb_spec p 0) as [->|Hp0].
  - rewrite !shiftr_width by lia. done.
  - unfold checked_sub. destruct (Z.leb_spec p 32); [|lia]. cbn [mbind outcome_bind].
    unfold checked_shl_or_0. destruct (Z.ltb_spec (32 - p) 32); [|lia].
    f_equal. by apply (masked_eqb 32); lia.
Qed.

Lemma cidr_contains_V6 net p addr :
  ip_wf (V6 net) → ip_wf (V6 addr) → 0 ≤ p ≤ 128 →
  cidr_contains (V6 net) p (V6 addr) = Ret (Z.shiftr net (128 - p) =? Z.shiftr addr (128 - p)).
Proof.
  cbn [ip_wf]. unfold u128_max. intros Hn Ha Hp. cbn [cidr_contains].
  destruct (Z.eqb_spec p 0) as [->|Hp0].
  - rewrite !shiftr_width by lia. done.
  - unfold checked_sub. destruct (Z.leb_spec p 128); [|lia]. cbn [mbind outcome_bind].
    unfold checked_shl_or_0. destruct (Z.ltb_spec (128 - p) 128); [|lia].
    f_equal. by apply (masked_eqb 128); lia.
Qed.

Lemma IpMatcher_matches_covers m ip :
  matcher_wf m → ip_wf ip → IpMatcher_matches m ip = Ret (matcher_covers m ip).
Proof.
  destruct m as [|addr|net p]; [done..|]. intros [Hn Hp] Hip.
  destruct net, ip; cbn [IpMatcher_matches matcher_covers is_ipv4 ip_bits]; try done.
  - by apply cidr_contains_V4.
  - by apply cidr_contains_V6.
Qed.

Lemma check_access_find rules ip :
  ip_wf ip → Forall (λ r, matcher_wf (car_matcher r)) rules →
  check_access rules ip =
    Ret (match find_first (λ r, matcher_covers (car_matcher r) ip) rules with
         | Some r => car_action r | None => Allow end).
Proof.
  intros Hip. induction 1 as [|r rules Hr _ IH]; cbn; [done|].
  rewrite IpMatcher_matches_covers by done. cbn.
  destruct (matcher_covers (car_matcher r) ip); [done|apply IH].
Qed.

Lemma compile_rules_wf rules : Forall (λ r, matcher_wf (car_matcher r)) (compile_rules rules).
Proof.
  unfold compile_rules. rewrite Forall_fmap, sort_by_key_perm.
  apply Forall_forall. intros [p r] (x & _ & Hx)%list_elem_of_omap.
  unfold compile_rule in Hx. apply fmap_Some in Hx as (m & Hm%IpMatcher_parse_wf & [= -> ->]). done.
Qed.

(** ** Properties *)

(** C12: compiling the rules (parse, stable sort by priority) and scanning for
    the first match decides every address exactly as the declarative rule
    does, without panicking: among the rules of the configuration that parse
    and cover the address, the least priority number wins, the earliest in
    the file among equals; with no covering rule the request is allowed. *)
Theorem check_access_correct (rules : list AccessRule) (ip : IpAddr) :
  ip_wf ip → check_access (compile_rules rules) ip = Ret (access_spec rules ip).
Proof.
  intros Hip. rewrite check_access_find by (done || apply compile_rules_wf).
  unfold compile_rules, access_spec, deciding_rule.
  rewrite find_first_fmap, find_first_sort.
  by destruct (least_by_key _ _ _) as [[p r]|].
Qed.

Definition ex_rules : list AccessRule :=
  [mkAccessRule Deny (lit "all") 10; mkAccessRule Allow (lit " 10.0.0.0/8 ") 0;
   mkAccessRule Allow (lit "10.0.0.0/33") 0].

Lemma check_access_correct_witness :
  ip_wf (V4 167837955) ∧ check_access (compile_rules ex_rules) (V4 167837955) = Ret Allow
  ∧ check_access (compile_rules ex_rules) (V4 134744072) = Ret Deny.
Proof.
  split; [cbn; unfold u32_max; lia|]. split.
  - rewrite (check_access_correct ex_rules (V4 167837955)); [vm_compute; reflexivity|cbn; unfold u32_max; lia].
  - rewrite (check_access_correct ex_rules (V4 134744072)); [vm_compute; reflexivity|cbn; unfold u32_max; lia].
Defined.

(** a CIDR rule matches an IPv4 address exactly when the first [p] bits of
    the address are those of the network, for every legal prefix length,
    [/0] and [/32] included. *)
Theorem cidr_contains_prefix (net p addr : Z) :
  ip_wf (V4 net) → ip_wf (V4 addr) → 0 ≤ p ≤ 32 →
  cidr_contains (V4 net) p (V4 addr) = Ret true ↔ net / 2 ^ (32 - p) = addr / 2 ^ (32 - p).
Proof.
  intros Hn Ha Hp. rewrite cidr_contains_V4 by done.
  rewrite !Z.shiftr_div_pow2 by lia.
  destruct (Z.eqb_spec (net / 2 ^ (32 - p)) (addr / 2 ^ (32 - p))); naive_solver.
Qed.

Lemma cidr_contains_prefix_witness :
  cidr_contains (V4 167772160) 8 (V4 184549375) = Ret true.
Proof.
  apply (cidr_contains_prefix 167772160 8 184549375); [cbn; unfold u32_max; lia..|reflexivity].
Defined.
