(* ===== verification/RealIp.v ===== *)
(** * Real client address: [src/middleware/real_ip.rs]

    When the peer is a trusted proxy the client address is taken from a
    request header.  The configuration is compiled once per site; the
    extraction runs on every request of the site. *)

From S2P Require Import Prelude RustStr IpAddr.

Record RealIpConfig := mkRealIpConfig {
  set_real_ip_from : list (list Z);
  real_ip_header : list Z;
  rc_recursive : bool;
}.

Definition default_real_ip_header : list Z := lit "X-Forwarded-For".

Record CidrEntry := mkCidrEntry { ce_network : IpAddr; ce_prefix_len : Z }.

Record CompiledRealIp := mkCompiledRealIp {
  trusted : list CidrEntry;
  ri_header : list Z;
  ri_recursive : bool;
}.

(** [CidrEntry::parse]: the prefix length is any [u8]. *)
Definition CidrEntry_parse (s : list Z) : option CidrEntry :=
  let s := trim s in
  match find_byte byte_slash s with
  | Some pos =>
      ip ← parse_ip (take pos s);
      prefix_len ← parse_uint u8_max (drop (S pos) s);
      Some (mkCidrEntry ip prefix_len)
  | None =>
      ip ← parse_ip s;
      Some (mkCidrEntry ip (if is_ipv4 ip then 32 else 128))
  end.

(** [CidrEntry::contains] *)
Definition CidrEntry_contains (c : CidrEntry) (ip : IpAddr) : outcome bool :=
  match ce_network c, ip with
  | V4 net, V4 addr =>
      if ce_prefix_len c =? 0 then Ret true
      else
        sh ← checked_sub 32 (ce_prefix_len c);
        let mask := checked_shl_or_0 32 u32_max sh in
        Ret (Z.land net mask =? Z.land addr mask)
  | V6 net, V6 addr =>
      if ce_prefix_len c =? 0 then Ret true
      else
        sh ← checked_sub 128 (ce_prefix_len c);
        let mask := checked_shl_or_0 128 u128_max sh in
        Ret (Z.land net mask =? Z.land addr mask)
  | _, _ => Ret false
  end.

(** [CompiledRealIp::compile] *)
Definition CompiledRealIp_compile (cfg : RealIpConfig) : option CompiledRealIp :=
  match set_real_ip_from cfg with
  | [] => None
  | _ :: _ =>
      match omap CidrEntry_parse (set_real_ip_from cfg) with
      | [] => None
      | t => Some (mkCompiledRealIp t (real_ip_header cfg) (rc_recursive cfg))
      end
  end.

Definition header_name (c : CompiledRealIp) : list Z := ri_header c.

(** [CompiledRealIp::is_trusted]: [any], left to right. *)
Fixpoint any_contains (l : list CidrEntry) (ip : IpAddr) : outcome bool :=
  match l with
  | [] => Ret false
  | c :: l =>
      b ← CidrEntry_contains c ip;
      if (b : bool) then Ret true else any_contains l ip
  end.

Definition is_trusted (c : CompiledRealIp) (ip : IpAddr) : outcome bool :=
  any_contains (trusted c) ip.

(** The recursive scan of [X-Forwarded-For], over the parts right to left:
    the first part that parses and is not trusted. *)
Fixpoint scan_untrusted (c : CompiledRealIp) (parts : list (list Z)) : outcome (option IpAddr) :=
  match parts with
  | [] => Ret None
  | part :: parts =>
      match parse_ip (trim part) with
      | Some ip =>
          b ← is_trusted c ip;
          if (b : bool) then scan_untrusted c parts else Ret (Some ip)
      | None => scan_untrusted c parts
      end
  end.

(** [CompiledRealIp::extract_real_ip] *)
Definition extract_real_ip (c : CompiledRealIp) (conn_ip : IpAddr) (header_value : option (list Z))
  : outcome (option IpAddr) :=
  t ← is_trusted c conn_ip;
  if negb t then Ret None
  else
    match header_value with
    | None => Ret None
    | Some header_val =>
        if eq_ignore_ascii_case (ri_header c) (lit "X-Forwarded-For") then
          if ri_recursive c then
            r ← scan_untrusted c (rev (split_byte byte_comma header_val));
            match r with
            | Some ip => Ret (Some ip)
            | None => Ret (parse_ip (trim (before_byte byte_comma header_val)))
            end
          else
            match head (rev (split_byte byte_comma header_val)) with
            | Some part => Ret (parse_ip (trim part))
            | None => Ret None
            end
        else Ret (parse_ip (trim header_val))
    end.

(** ** Lemmas *)

Definition entry_wf (c : CidrEntry) : Prop :=
  0 ≤ ce_prefix_len c ≤ (if is_ipv4 (ce_network c) then 32 else 128).

Definition real_ip_wf (c : CompiledRealIp) : Prop := Forall entry_wf (trusted c).

Lemma CidrEntry_contains_total c ip : entry_wf c → ∃ b, CidrEntry_contains c ip = Ret b.
Proof.
  unfold entry_wf, CidrEntry_contains, checked_sub. destruct (ce_network c), ip; cbn; eauto;
    intros; case_test; eauto; case_test; zbool; cbn; eauto; lia.
Qed.

Lemma any_contains_total l ip : Forall entry_wf l → ∃ b, any_contains l ip = Ret b.
Proof.
  induction 1 as [|c l Hc _ [b IH]]; cbn; [eauto|].
  destruct (CidrEntry_contains_total c ip Hc) as [[] ->]; cbn; eauto.
Qed.

Lemma scan_untrusted_total c parts : real_ip_wf c → ∃ r, scan_untrusted c parts = Ret r.
Proof.
  intros Hc. induction parts as [|p parts [r IH]]; cbn; [eauto|].
  destruct (parse_ip (trim p)) as [ip|]; [|eauto].
  destruct (any_contains_total (trusted c) ip Hc) as [[] H]; unfold is_trusted; rewrite H; cbn; eauto.
Qed.

Lemma scan_untrusted_Some c parts ip :
  scan_untrusted c parts = Ret (Some ip) → is_trusted c ip = Ret false.
Proof.
  induction parts as [|p parts IH]; cbn; [done|].
  destruct (parse_ip (trim p)) as [a|]; [|done].
  destruct (is_trusted c a) as [[]|] eqn:E; cbn; [done| |done]. by intros [= ->].
Qed.

Lemma eq_ignore_ascii_case_refl s : eq_ignore_ascii_case s s = true.
Proof. apply str_eqb_refl. Qed.

Lemma split_byte_snoc c s p :
  c ∉ p → ∃ q ps, split_byte c (s ++ c :: p) = q :: ps ++ [p].
Proof.
  intros Hp. unfold split_byte. induction s as [|b s (q & ps & IH)]; cbn [app split_on].
  - rewrite Z.eqb_refl, split_on_none; [by exists [], []|].
    apply Forall_forall. intros b Hb. apply Z.eqb_neq. intros ->.
    by apply Hp.
  - rewrite IH. destruct (b =? c); [by exists [], (q :: ps)|by exists (b :: q), ps].
Qed.

Lemma rsplit_snoc c s p :
  c ∉ p → ∃ l, rev (split_byte c (s ++ c :: p)) = p :: l.
Proof.
  intros (q & ps & ->)%(split_byte_snoc c s). cbn [rev]. rewrite rev_app_distr. cbn. eauto.
Qed.

(** The text of an IPv4 address: digits and dots only. *)
Lemma display_v4_chars a :
  Forall (λ b, is_ascii_digit b = true ∨ b = byte_dot) (display_v4 a).
Proof.
  rewrite display_v4_eq.
  assert (∀ z, Forall (λ b, is_ascii_digit b = true ∨ b = byte_dot) (dec (z mod 256))) as H.
  { intros z. eapply Forall_impl; [apply dec_digits, Z.mod_pos_bound; lia|]. auto. }
  rewrite !Forall_app, !Forall_cons, !Forall_app, !Forall_cons, !Forall_app, !Forall_cons.
  auto 10.
Qed.

Lemma digit_or_dot_visible b : is_ascii_digit b = true ∨ b = byte_dot → visible b = true.
Proof. unfold is_ascii_digit, byte_dot, visible. intros [H| ->]; [zbool|done]. apply andb_true_iff; lia. Qed.

Lemma display_v4_trim a : trim (display_v4 a) = display_v4 a.
Proof. apply trim_visible. eapply Forall_impl; [apply display_v4_chars|apply digit_or_dot_visible]. Qed.

Lemma display_v4_no_comma a : byte_comma ∉ display_v4 a.
Proof.
  intros H. pose proof (display_v4_chars a) as F.
  rewrite Forall_forall in F. apply F in H as [H|H]; done.
Qed.

(** ** Properties *)

(** a peer that is not a trusted proxy cannot choose its own address: the
    header is ignored whatever it contains. *)
Theorem untrusted_peer_keeps_ip (c : CompiledRealIp) (conn_ip : IpAddr) (h : option (list Z)) :
  is_trusted c conn_ip = Ret false → extract_real_ip c conn_ip h = Ret None.
Proof. intros H. unfold extract_real_ip. by rewrite H. Qed.

Definition ex_cfg (recursive : bool) : RealIpConfig :=
  mkRealIpConfig [lit "10.0.0.0/8"; lit "172.16.0.0/12"] default_real_ip_header recursive.
Definition ex_compiled (recursive : bool) : CompiledRealIp :=
  mkCompiledRealIp [mkCidrEntry (V4 167772160) 8; mkCidrEntry (V4 2886729728) 12]
    default_real_ip_header recursive.

Example ex_compile b : CompiledRealIp_compile (ex_cfg b) = Some (ex_compiled b).
Proof. destruct b; vm_compute; reflexivity. Qed.

Lemma untrusted_peer_keeps_ip_witness :
  extract_real_ip (ex_compiled true) (V4 134744072) (Some (lit "1.2.3.4")) = Ret None.
Proof. apply untrusted_peer_keeps_ip. vm_compute. reflexivity. Defined.

(** spoofing resistance.  When the nearest proxy is trusted and appends the
    address [a] of an untrusted client to whatever [X-Forwarded-For] the
    client sent, the address extracted is [a], in recursive and in
    non-recursive mode, whatever the forged prefix is. *)
Theorem xff_appended_address_wins (c : CompiledRealIp) (conn_ip : IpAddr) (forged : list Z) (a : Z) :
  eq_ignore_ascii_case (ri_header c) (lit "X-Forwarded-For") = true →
  is_trusted c conn_ip = Ret true → 0 ≤ a ≤ u32_max → is_trusted c (V4 a) = Ret false →
  extract_real_ip c conn_ip (Some (forged ++ byte_comma :: display_v4 a)) = Ret (Some (V4 a)).
Proof.
  intros Hh Ht Ha Hu. unfold extract_real_ip. rewrite Ht, Hh. cbn [mbind outcome_bind negb].
  destruct (rsplit_snoc byte_comma forged (display_v4 a) (display_v4_no_comma a)) as [l Hl].
  rewrite Hl. destruct (ri_recursive c); cbn [scan_untrusted head];
    rewrite display_v4_trim, parse_display_v4 by done; [|done].
  rewrite Hu. done.
Qed.

Lemma xff_appended_address_wins_witness :
  extract_real_ip (ex_compiled true) (V4 167772161)
    (Some (lit "8.8.8.8, 10.9.9.9" ++ byte_comma :: display_v4 16909060)) = Ret (Some (V4 16909060)).
Proof.
  apply xff_appended_address_wins; [vm_compute; reflexivity..| |vm_compute; reflexivity].
  unfold u32_max. lia.
Defined.

(** an address extracted from a recursive [X-Forwarded-For] scan is
    trusted only if every address of the header is: the result is an
    untrusted address, or the scan found none. *)
Theorem recursive_scan_result (c : CompiledRealIp) (conn_ip : IpAddr) (h : list Z) (ip : IpAddr) :
  eq_ignore_ascii_case (ri_header c) (lit "X-Forwarded-For") = true →
  ri_recursive c = true →
  extract_real_ip c conn_ip (Some h) = Ret (Some ip) →
  is_trusted c ip = Ret false ∨
  (scan_untrusted c (rev (split_byte byte_comma h)) = Ret None
   ∧ parse_ip (trim (before_byte byte_comma h)) = Some ip).
Proof.
  intros Hh Hr. unfold extract_real_ip. rewrite Hh, Hr.
  destruct (is_trusted c conn_ip) as [[]|]; cbn [mbind outcome_bind negb]; [|done..].
  destruct (scan_untrusted c _) as [[a|]|] eqn:E; cbn; [| |done].
  - intros [= ->]. left. by apply scan_untrusted_Some in E.
  - intros [= H]. right. auto.
Qed.

Lemma recursive_scan_result_witness :
  is_trusted (ex_compiled true) (V4 16909060) = Ret false ∨
  (scan_untrusted (ex_compiled true) (rev (split_byte byte_comma (lit "1.2.3.4, 172.16.1.1"))) = Ret None
   ∧ parse_ip (trim (before_byte byte_comma (lit "1.2.3.4, 172.16.1.1"))) = Some (V4 16909060)).
Proof. apply (recursive_scan_result _ (V4 167772162)); vm_compute; reflexivity. Defined.

(** with prefix lengths within the address width, extraction never panics. *)
Theorem extract_real_ip_total (c : CompiledRealIp) (conn_ip : IpAddr) (h : option (list Z)) :
  real_ip_wf c → ∃ r, extract_real_ip c conn_ip h = Ret r.
Proof.
  intros Hc. unfold extract_real_ip, is_trusted.
  destruct (any_contains_total (trusted c) conn_ip Hc) as [[] ->]; cbn; [|eauto].
  destruct h as [h|]; [|eauto]. case_test; [|eauto]. case_test.
  - destruct (scan_untrusted_total c (rev (split_byte byte_comma h)) Hc) as [[] ->]; cbn; eauto.
  - destruct (head _); eauto.
Qed.

Lemma extract_real_ip_total_witness :
  real_ip_wf (ex_compiled false) ∧
  ∃ r, extract_real_ip (ex_compiled false) (V4 167772162) (Some (lit "1.2.3.4")) = Ret r.
Proof.
  assert (real_ip_wf (ex_compiled false)) as H.
  { repeat constructor; cbn; lia. }
  split; [exact H|]. apply (extract_real_ip_total (ex_compiled false)). exact H.
Defined.

(** the length of a trusted prefix is not checked when the configuration is
    compiled, and the subtraction [32 - prefix_len] of the match is: an entry
    such as [10.0.0.0/33] compiles, and the first IPv4 request aborts the
    process. *)
Theorem oversized_prefix_panics (net p addr : Z) (rest : list CidrEntry) (hdr : list Z) (rec : bool)
    (h : option (list Z)) :
  32 < p →
  extract_real_ip (mkCompiledRealIp (mkCidrEntry (V4 net) p :: rest) hdr rec) (V4 addr) h = Panic.
Proof.
  intros Hp. unfold extract_real_ip, is_trusted. cbn [trusted any_contains].
  unfold CidrEntry_contains, checked_sub. cbn [ce_network ce_prefix_len].
  destruct (Z.eqb_spec p 0); [lia|]. destruct (Z.leb_spec p 32); [lia|]. done.
Qed.

Lemma oversized_prefix_panics_witness :
  CompiledRealIp_compile (mkRealIpConfig [lit "10.0.0.0/33"] default_real_ip_header false)
    = Some (mkCompiledRealIp [mkCidrEntry (V4 167772160) 33] default_real_ip_header false)
  ∧ extract_real_ip (mkCompiledRealIp [mkCidrEntry (V4 167772160) 33] default_real_ip_header false)
      (V4 134744072) None = Panic.
Proof. split; [vm_compute; reflexivity|]. apply oversized_prefix_panics. lia. Defined.
