(* ===== verification/CircuitBreaker.v ===== *)
(** * Circuit breaker: [src/handler/reverse_proxy/circuit_breaker.rs]

    The three-state breaker of an upstream node.  Its fields are atomics; each
    method is one step here, given the clock reading [now] (Unix seconds) it
    makes.  The last section refines [allow] into its separate atomic accesses
    and interleaves any number of callers. *)

From S2P Require Import Prelude.

Definition CB_CLOSED : Z := 0.
Definition CB_OPEN : Z := 1.
Definition CB_HALF_OPEN : Z := 2.

Record CircuitBreaker := mkCB {
  cb_state : Z;            (* AtomicU8 *)
  failure_count : Z;       (* AtomicU32 *)
  window_start : Z;        (* AtomicU64 *)
  open_since : Z;          (* AtomicU64 *)
  max_failures : Z;        (* u32 *)
  window_secs : Z;         (* u64 *)
  fail_timeout : Z;        (* u64 *)
}.

(** [CircuitBreaker::new] *)
Definition cb_new (now maxf window timeout : Z) : CircuitBreaker :=
  mkCB CB_CLOSED 0 now 0 maxf window timeout.

Definition set_state (st : Z) (cb : CircuitBreaker) : CircuitBreaker :=
  mkCB st (failure_count cb) (window_start cb) (open_since cb)
    (max_failures cb) (window_secs cb) (fail_timeout cb).
Definition set_failures (n : Z) (cb : CircuitBreaker) : CircuitBreaker :=
  mkCB (cb_state cb) n (window_start cb) (open_since cb)
    (max_failures cb) (window_secs cb) (fail_timeout cb).
Definition set_window (t : Z) (cb : CircuitBreaker) : CircuitBreaker :=
  mkCB (cb_state cb) (failure_count cb) t (open_since cb)
    (max_failures cb) (window_secs cb) (fail_timeout cb).
Definition set_open_since (t : Z) (cb : CircuitBreaker) : CircuitBreaker :=
  mkCB (cb_state cb) (failure_count cb) (window_start cb) t
    (max_failures cb) (window_secs cb) (fail_timeout cb).

(** [allow]: whether a request may pass; an open breaker whose timeout has
    elapsed turns half-open and admits the caller. *)
Definition allow (now : Z) (cb : CircuitBreaker) : bool * CircuitBreaker :=
  if cb_state cb =? CB_CLOSED then (true, cb)
  else if cb_state cb =? CB_OPEN then
    if fail_timeout cb <=? sat_sub now (open_since cb)
    then (true, set_state CB_HALF_OPEN cb)
    else (false, cb)
  else if cb_state cb =? CB_HALF_OPEN then (false, cb)
  else (true, cb).

(** [maybe_reset_window] *)
Definition maybe_reset_window (now : Z) (cb : CircuitBreaker) : CircuitBreaker :=
  if window_secs cb <=? sat_sub now (window_start cb)
  then set_window now (set_failures 0 cb)
  else cb.

(** [record_success] *)
Definition cb_record_success (now : Z) (cb : CircuitBreaker) : CircuitBreaker :=
  if cb_state cb =? CB_HALF_OPEN
  then set_state CB_CLOSED (set_window now (set_failures 0 cb))
  else if cb_state cb =? CB_CLOSED then maybe_reset_window now cb
  else cb.

(** [record_failure]: the counter itself wraps, the sum [fetch_add(1) + 1] is
    overflow-checked. *)
Definition cb_record_failure (now : Z) (cb : CircuitBreaker) : outcome CircuitBreaker :=
  if cb_state cb =? CB_HALF_OPEN
  then Ret (set_state CB_OPEN (set_open_since now cb))
  else if cb_state cb =? CB_CLOSED then
    let cb := maybe_reset_window now cb in
    count ← checked_add u32_max (failure_count cb) 1;
    let cb := set_failures (wrap32 (failure_count cb + 1)) cb in
    Ret (if max_failures cb <=? count
         then set_state CB_OPEN (set_open_since now cb)
         else cb)
  else Ret cb.

(** [is_open] *)
Definition cb_is_open (cb : CircuitBreaker) : bool := cb_state cb =? CB_OPEN.

(** ** Steps, invariant and reachability *)

Inductive cb_op :=
| OpAllow (now : Z)
| OpSuccess (now : Z)
| OpFailure (now : Z).

Definition cb_exec (op : cb_op) (cb : CircuitBreaker) : outcome CircuitBreaker :=
  match op with
  | OpAllow now => Ret (snd (allow now cb))
  | OpSuccess now => Ret (cb_record_success now cb)
  | OpFailure now => cb_record_failure now cb
  end.

Inductive cb_reachable (maxf window timeout : Z) : CircuitBreaker → Prop :=
| cb_reach_new now : cb_reachable maxf window timeout (cb_new now maxf window timeout)
| cb_reach_step cb op cb' :
    cb_reachable maxf window timeout cb → cb_exec op cb = Ret cb' →
    cb_reachable maxf window timeout cb'.

(** A closed breaker has seen fewer failures than its threshold. *)
Record cb_inv (maxf window timeout : Z) (cb : CircuitBreaker) : Prop := {
  inv_state : cb_state cb = CB_CLOSED ∨ cb_state cb = CB_OPEN ∨ cb_state cb = CB_HALF_OPEN;
  inv_closed : cb_state cb = CB_CLOSED → failure_count cb < Z.max 1 maxf;
  inv_nonneg : 0 ≤ failure_count cb;
  inv_max : max_failures cb = maxf;
  inv_window : window_secs cb = window;
  inv_timeout : fail_timeout cb = timeout;
}.

Ltac cb_unfold :=
  unfold cb_exec, cb_record_failure, cb_record_success, maybe_reset_window, allow, checked_add,
    set_state, set_failures, set_window, set_open_since, CB_CLOSED, CB_OPEN, CB_HALF_OPEN in *;
  cbn [cb_state failure_count window_start open_since max_failures window_secs fail_timeout
       mbind outcome_bind fst snd] in *.

Ltac cb_cases :=
  cb_unfold;
  repeat (match goal with
  | |- context [(?a =? ?b)] => destruct (Z.eqb_spec a b)
  | |- context [(?a <=? ?b)] => destruct (Z.leb_spec a b)
  end; cb_unfold).

Lemma cb_inv_new now maxf window timeout : cb_inv maxf window timeout (cb_new now maxf window timeout).
Proof. split; cbn; auto; lia. Qed.

Lemma wrap32_small z : 0 ≤ z ≤ u32_max → wrap32 z = z.
Proof. unfold wrap32, u32_max. intros. apply Z.mod_small. lia. Qed.

Ltac cb_finish :=
  unfold CB_CLOSED, CB_OPEN, CB_HALF_OPEN, u32_max in *; cbn in *; intros; auto; lia.

Lemma cb_inv_exec maxf window timeout op cb :
  0 ≤ maxf ≤ u32_max → cb_inv maxf window timeout cb →
  ∃ cb', cb_exec op cb = Ret cb' ∧ cb_inv maxf window timeout cb'.
Proof.
  intros Hm [H1 H2 H3 H4 H5 H6].
  destruct op as [now|now|now]; cb_cases; try (exfalso; cb_finish);
    (eexists; split; [reflexivity|]);
    try rewrite wrap32_small by cb_finish; split; cb_finish.
Qed.

Lemma cb_reachable_inv maxf window timeout cb :
  0 ≤ maxf ≤ u32_max → cb_reachable maxf window timeout cb → cb_inv maxf window timeout cb.
Proof.
  intros Hm. induction 1 as [now|cb op cb' _ IH Hs]; [apply cb_inv_new|].
  destruct (cb_inv_exec maxf window timeout op cb Hm IH) as (cb'' & Hs' & Hinv).
  rewrite Hs in Hs'. by injection Hs' as ->.
Qed.

Lemma allow_open now cb : cb_state cb = CB_OPEN →
  allow now cb = if fail_timeout cb <=? sat_sub now (open_since cb)
                 then (true, set_state CB_HALF_OPEN cb) else (false, cb).
Proof. intros H. unfold allow. by rewrite H. Qed.
Lemma allow_half_open now cb : cb_state cb = CB_HALF_OPEN → allow now cb = (false, cb).
Proof. intros H. unfold allow. by rewrite H. Qed.
Lemma allow_closed now cb : cb_state cb = CB_CLOSED → allow now cb = (true, cb).
Proof. intros H. unfold allow. by rewrite H. Qed.

(** A run of failures, one clock reading each. *)
Fixpoint cb_failures (ts : list Z) (cb : CircuitBreaker) : outcome CircuitBreaker :=
  match ts with
  | [] => Ret cb
  | t :: ts => cb' ← cb_record_failure t cb; cb_failures ts cb'
  end.

(** A run of [allow] calls and the answers they got. *)
Fixpoint cb_allows (ts : list Z) (cb : CircuitBreaker) : list bool * CircuitBreaker :=
  match ts with
  | [] => ([], cb)
  | t :: ts =>
      let '(b, cb') := allow t cb in
      let '(bs, cb'') := cb_allows ts cb' in (b :: bs, cb'')
  end.

Definition granted (bs : list bool) : nat := length (filter (λ b, b = true) bs).

Lemma cb_failures_open ts cb : cb_state cb = CB_OPEN → cb_failures ts cb = Ret cb.
Proof.
  intros H. induction ts as [|t ts IH]; cbn [cb_failures]; [done|].
  unfold cb_record_failure. rewrite H. cbn. apply IH.
Qed.

Lemma cb_failures_closed ts cb :
  cb_state cb = CB_CLOSED → 0 ≤ failure_count cb < max_failures cb → max_failures cb ≤ u32_max →
  Forall (λ t, sat_sub t (window_start cb) < window_secs cb) ts →
  ∃ cb', cb_failures ts cb = Ret cb'
    ∧ (if max_failures cb <=? failure_count cb + Z.of_nat (length ts)
       then cb_state cb' = CB_OPEN
       else cb_state cb' = CB_CLOSED ∧ failure_count cb' = failure_count cb + Z.of_nat (length ts)).
Proof.
  intros Hst Hf Hm Hts. revert cb Hst Hf Hm Hts. induction ts as [|t ts IH]; intros cb Hst Hf Hm Hts.
  - cbn [cb_failures length]. eexists; split; [done|].
    destruct (Z.leb_spec (max_failures cb) (failure_count cb + Z.of_nat 0)); [lia|].
    split; [done|lia].
  - inversion Hts as [|? ? Ht Hts']; subst. cbn [cb_failures length].
    unfold cb_record_failure, maybe_reset_window. rewrite Hst. cbn [Z.eqb CB_CLOSED CB_HALF_OPEN].
    destruct (Z.leb_spec (window_secs cb) (sat_sub t (window_start cb))); [lia|].
    unfold checked_add. destruct (Z.leb_spec (failure_count cb + 1) u32_max); [|lia].
    cbn [mbind outcome_bind max_failures set_failures].
    rewrite wrap32_small by lia.
    destruct (Z.leb_spec (max_failures cb) (failure_count cb + 1)).
    + rewrite cb_failures_open by done. eexists; split; [done|].
      destruct (Z.leb_spec (max_failures cb) (failure_count cb + Z.of_nat (S (length ts)))); [done|lia].
    + destruct (IH (set_failures (failure_count cb + 1) cb)) as (cb' & Hrun & Hres);
        [done|cbn; lia|done|done|].
      exists cb'. split; [done|]. cbn [max_failures failure_count set_failures] in Hres.
      replace (failure_count cb + Z.of_nat (S (length ts)))
        with (failure_count cb + 1 + Z.of_nat (length ts)) by lia. done.
Qed.

Lemma cb_allows_half_open ts cb :
  cb_state cb = CB_HALF_OPEN → cb_allows ts cb = (replicate (length ts) false, cb).
Proof.
  intros H. induction ts as [|t ts IH]; cbn [cb_allows length replicate]; [done|].
  rewrite allow_half_open by done. by rewrite IH.
Qed.

Lemma granted_cons b bs : granted (b :: bs) = ((if b then 1 else 0) + granted bs)%nat.
Proof. unfold granted. rewrite filter_cons. by destruct b. Qed.

Lemma granted_false n : granted (replicate n false) = 0%nat.
Proof. induction n; [done|]. cbn [replicate]. by rewrite granted_cons. Qed.

(** ** Properties *)

(** every state a breaker can reach from [new] by any sequence of [allow],
    [record_success] and [record_failure] at any times is Closed, Open or
    HalfOpen with its configuration intact, a Closed breaker has counted fewer
    failures than its threshold, and no operation on it panics. *)
Theorem breaker_invariant (maxf window timeout : Z) (cb : CircuitBreaker) (op : cb_op) :
  0 ≤ maxf ≤ u32_max → cb_reachable maxf window timeout cb →
  cb_inv maxf window timeout cb ∧ ∃ cb', cb_exec op cb = Ret cb'.
Proof.
  intros Hm Hr%cb_reachable_inv; [|done]. split; [done|].
  destruct (cb_inv_exec maxf window timeout op cb Hm Hr) as (cb' & ? & _). eauto.
Qed.

Lemma breaker_invariant_witness :
  cb_inv 3 60 30 (cb_new 100 3 60 30) ∧ ∃ cb', cb_exec (OpFailure 101) (cb_new 100 3 60 30) = Ret cb'.
Proof. apply breaker_invariant; [unfold u32_max; lia|constructor]. Defined.

(** a fresh breaker with threshold [maxf], hit by failures within one
    window, is open exactly when there were at least [maxf] of them; below the
    threshold it is closed and counts them exactly. *)
Theorem breaker_opens_at_threshold (t0 maxf window timeout : Z) (ts : list Z) :
  1 ≤ maxf ≤ u32_max → 0 < window → Forall (λ t, t < t0 + window) ts →
  ∃ cb', cb_failures ts (cb_new t0 maxf window timeout) = Ret cb'
    ∧ (cb_is_open cb' = true ↔ maxf ≤ Z.of_nat (length ts))
    ∧ (Z.of_nat (length ts) < maxf → cb_state cb' = CB_CLOSED ∧ failure_count cb' = Z.of_nat (length ts)).
Proof.
  intros Hm Hw Hts.
  destruct (cb_failures_closed ts (cb_new t0 maxf window timeout)) as (cb' & Hr & Hres);
    [done|cbn; lia|cbn; lia| |].
  - eapply Forall_impl; [exact Hts|]. cbn. unfold sat_sub. lia.
  - exists cb'. split; [done|]. cbn [max_failures failure_count cb_new] in Hres.
    replace (0 + Z.of_nat (length ts)) with (Z.of_nat (length ts)) in Hres by lia.
    unfold cb_is_open. destruct (Z.leb_spec maxf (Z.of_nat (length ts))).
    + rewrite Hres. split; [done|lia].
    + destruct Hres as [-> ->]. split; [|done]. split; [done|lia].
Qed.

Lemma breaker_opens_at_threshold_witness :
  ∃ cb', cb_failures [100; 105; 110] (cb_new 100 3 60 30) = Ret cb'
    ∧ (cb_is_open cb' = true ↔ 3 ≤ Z.of_nat (length [100; 105; 110]))
    ∧ (Z.of_nat (length [100; 105; 110]) < 3 →
       cb_state cb' = CB_CLOSED ∧ failure_count cb' = Z.of_nat (length [100; 105; 110])).
Proof.
  apply breaker_opens_at_threshold; [unfold u32_max; lia|lia|].
  repeat (constructor; [lia|]). constructor.
Defined.

(** one full cycle of an open breaker.  Before its timeout it refuses and
    does not change; once [fail_timeout] seconds have passed it admits the
    caller and is half-open, and refuses every other; a success then closes it
    with a fresh window, a failure opens it again from that moment. *)
Theorem breaker_cycle (cb : CircuitBreaker) (now t : Z) :
  cb_state cb = CB_OPEN →
  (sat_sub now (open_since cb) < fail_timeout cb → allow now cb = (false, cb)) ∧
  (fail_timeout cb ≤ sat_sub now (open_since cb) →
    let probing := set_state CB_HALF_OPEN cb in
    allow now cb = (true, probing)
    ∧ allow t probing = (false, probing)
    ∧ cb_record_success t probing = set_state CB_CLOSED (set_window t (set_failures 0 cb))
    ∧ cb_record_failure t probing = Ret (set_open_since t cb)).
Proof.
  intros H. rewrite allow_open by done.
  split; intros Ht; destruct (Z.leb_spec (fail_timeout cb) (sat_sub now (open_since cb))); try lia; [done|].
  cbn zeta. split_and!; [done..|]. unfold cb_record_failure. cbn.
  do 2 f_equal. unfold set_open_since. by rewrite H.
Qed.

Lemma breaker_cycle_witness :
  let cb := mkCB CB_OPEN 3 100 110 3 60 30 in
  (sat_sub 120 (open_since cb) < fail_timeout cb → allow 120 cb = (false, cb)) ∧
  (fail_timeout cb ≤ sat_sub 120 (open_since cb) →
    let probing := set_state CB_HALF_OPEN cb in
    allow 120 cb = (true, probing)
    ∧ allow 141 probing = (false, probing)
    ∧ cb_record_success 141 probing = set_state CB_CLOSED (set_window 141 (set_failures 0 cb))
    ∧ cb_record_failure 141 probing = Ret (set_open_since 141 cb)).
Proof. apply breaker_cycle. reflexivity. Defined.

(** an open breaker admits at most one of any sequence of callers: until a
    result is recorded there is a single probe. *)
Theorem breaker_single_probe (cb : CircuitBreaker) (ts : list Z) :
  cb_state cb = CB_OPEN → (granted (fst (cb_allows ts cb)) ≤ 1)%nat.
Proof.
  intros H. revert cb H. induction ts as [|t ts IH]; intros cb H; cbn [cb_allows]; [cbn; lia|].
  rewrite allow_open by done.
  destruct (Z.leb_spec (fail_timeout cb) (sat_sub t (open_since cb))).
  - rewrite cb_allows_half_open by done. cbn [fst]. rewrite granted_cons, granted_false. lia.
  - specialize (IH cb H). destruct (cb_allows ts cb) as [bs cb'']. cbn [fst] in *.
    rewrite granted_cons. lia.
Qed.

Lemma breaker_single_probe_witness :
  let bs := fst (cb_allows [120; 140; 141; 150] (mkCB CB_OPEN 3 100 110 3 60 30)) in
  (granted bs ≤ 1)%nat ∧ granted bs = 1%nat.
Proof. split; [apply breaker_single_probe; reflexivity|reflexivity]. Defined.

(** ** Concurrent callers

    [allow] accesses the shared atomics several times.  A caller goes through
    the program points below; each step is one atomic access, and callers
    interleave arbitrarily. *)

Inductive allow_pc :=
| PcStart                 (* about to load the state *)
| PcOpen                  (* loaded Open: about to load open_since *)
| PcCas                   (* timeout elapsed: about to compare-exchange *)
| PcDone (b : bool).

Inductive caller_step : CircuitBreaker → allow_pc → CircuitBreaker → allow_pc → Prop :=
| cs_load_closed cb : cb_state cb = CB_CLOSED → caller_step cb PcStart cb (PcDone true)
| cs_load_open cb : cb_state cb = CB_OPEN → caller_step cb PcStart cb PcOpen
| cs_load_half cb : cb_state cb = CB_HALF_OPEN → caller_step cb PcStart cb (PcDone false)
| cs_elapsed cb now :
    fail_timeout cb ≤ sat_sub now (open_since cb) → caller_step cb PcOpen cb PcCas
| cs_not_elapsed cb now :
    sat_sub now (open_since cb) < fail_timeout cb → caller_step cb PcOpen cb (PcDone false)
| cs_cas_ok cb :
    cb_state cb = CB_OPEN → caller_step cb PcCas (set_state CB_HALF_OPEN cb) (PcDone true)
| cs_cas_fail cb : cb_state cb ≠ CB_OPEN → caller_step cb PcCas cb (PcDone false).

Inductive callers_run (cb0 : CircuitBreaker) (n : nat) : CircuitBreaker → list allow_pc → Prop :=
| cr_init : callers_run cb0 n cb0 (replicate n PcStart)
| cr_step cb pcs i pc cb' pc' :
    callers_run cb0 n cb pcs → pcs !! i = Some pc → caller_step cb pc cb' pc' →
    callers_run cb0 n cb' (<[i := pc']> pcs).

Definition admitted_at (pcs : list allow_pc) (i : nat) : Prop := pcs !! i = Some (PcDone true).

(** Run alone, a caller does what [allow] says: the steps refine it. *)
Lemma caller_refines_allow cb now :
  cb_state cb = CB_CLOSED ∨ cb_state cb = CB_OPEN ∨ cb_state cb = CB_HALF_OPEN →
  ∃ cb1 pc1 cb2 pc2,
    caller_step cb PcStart cb1 pc1
    ∧ (pc1 = PcDone (fst (allow now cb)) ∧ cb1 = snd (allow now cb)
       ∨ caller_step cb1 pc1 cb2 pc2
         ∧ (pc2 = PcDone (fst (allow now cb)) ∧ cb2 = snd (allow now cb)
            ∨ caller_step cb2 pc2 (snd (allow now cb)) (PcDone (fst (allow now cb))))).
Proof.
  intros [H|[H|H]];
    [rewrite allow_closed by done|rewrite allow_open by done|rewrite allow_half_open by done];
    cbn [fst snd].
  - exists cb, (PcDone true), cb, PcStart. split; [by constructor|auto].
  - destruct (Z.leb_spec (fail_timeout cb) (sat_sub now (open_since cb))); cbn [fst snd].
    + exists cb, PcOpen, cb, PcCas. split; [by constructor|]. right. split; [by econstructor|].
      right. by constructor.
    + exists cb, PcOpen, cb, (PcDone false). split; [by constructor|]. right.
      split; [by econstructor|auto].
  - exists cb, (PcDone false), cb, PcStart. split; [by constructor|auto].
Qed.

Definition probe_inv (cb : CircuitBreaker) (pcs : list allow_pc) : Prop :=
  (cb_state cb = CB_OPEN ∧ ∀ i, ¬ admitted_at pcs i) ∨
  (cb_state cb = CB_HALF_OPEN ∧ ∀ i j, admitted_at pcs i → admitted_at pcs j → i = j).

Lemma admitted_insert pcs i j pc' :
  admitted_at (<[i := pc']> pcs) j → (i = j ∧ pc' = PcDone true) ∨ admitted_at pcs j.
Proof.
  unfold admitted_at. intros [(-> & -> & _)|[_ H]]%list_lookup_insert_Some; auto.
Qed.

Lemma probe_inv_run cb0 n cb pcs :
  cb_state cb0 = CB_OPEN → callers_run cb0 n cb pcs → probe_inv cb pcs.
Proof.
  assert (CB_CLOSED ≠ CB_OPEN ∧ CB_HALF_OPEN ≠ CB_OPEN ∧ CB_CLOSED ≠ CB_HALF_OPEN)
    as (? & ? & ?) by done.
  intros Hst0. induction 1 as [|cb pcs i pc cb' pc' Hrun IH Hi Hstep].
  - left. split; [done|]. intros i Hi%lookup_replicate. naive_solver.
  - destruct IH as [[Hst Hno]|[Hst Huniq]].
    + inversion Hstep; subst; try congruence.
      all: try (left; split; [done|]; intros j [[_ ?]|?]%admitted_insert; [done|by eapply Hno]).
      right. split; [done|].
      intros j k [[<- _]|Hj]%admitted_insert [[<- _]|Hk]%admitted_insert;
        [done|destruct (Hno _ Hk)|destruct (Hno _ Hj)|destruct (Hno _ Hj)]; done.
    + right. inversion Hstep; subst; try congruence; split; try done.
      all: intros j k [[_ ?]|?]%admitted_insert [[_ ?]|?]%admitted_insert; try done; auto.
Qed.

(** C13: however the atomic accesses of [n] concurrent [allow] calls on an open
    breaker interleave, at most one of them is admitted. *)
Theorem breaker_single_probe_concurrent (cb0 cb : CircuitBreaker) (n i j : nat) (pcs : list allow_pc) :
  cb_state cb0 = CB_OPEN → callers_run cb0 n cb pcs →
  admitted_at pcs i → admitted_at pcs j → i = j.
Proof.
  intros H0 Hrun Hi Hj. destruct (probe_inv_run cb0 n cb pcs H0 Hrun) as [[_ Hno]|[_ Hu]]; [|auto].
  by destruct (Hno _ Hi).
Qed.

Lemma breaker_single_probe_concurrent_witness :
  let cb := mkCB CB_OPEN 3 100 110 3 60 30 in
  let pcs := [PcDone true; PcCas] in
  callers_run cb 2%nat (set_state CB_HALF_OPEN cb) pcs ∧ (0 = 0)%nat.
Proof.
  intros cb pcs.
  assert (callers_run cb 2%nat (set_state CB_HALF_OPEN cb) pcs) as Hrun.
  { change pcs with (<[0%nat := PcDone true]> [PcCas; PcCas]).
    apply (cr_step cb 2 cb [PcCas; PcCas] 0 PcCas); [|done|by constructor].
    change [PcCas; PcCas] with (<[1%nat := PcCas]> [PcCas; PcOpen]).
    apply (cr_step cb 2 cb [PcCas; PcOpen] 1 PcOpen); [|done|by apply (cs_elapsed cb 140)].
    change [PcCas; PcOpen] with (<[0%nat := PcCas]> [PcOpen; PcOpen]).
    apply (cr_step cb 2 cb [PcOpen; PcOpen] 0 PcOpen); [|done|by apply (cs_elapsed cb 140)].
    change [PcOpen; PcOpen] with (<[1%nat := PcOpen]> [PcOpen; PcStart]).
    apply (cr_step cb 2 cb [PcOpen; PcStart] 1 PcStart); [|done|by constructor].
    change [PcOpen; PcStart] with (<[0%nat := PcOpen]> [PcStart; PcStart]).
    apply (cr_step cb 2 cb [PcStart; PcStart] 0 PcStart); [|done|by constructor].
    apply cr_init. }
  split; [exact Hrun|].
  apply (breaker_single_probe_concurrent cb (set_state CB_HALF_OPEN cb) 2 0 0 pcs); [done|exact Hrun|done|done].
Defined.
