(* ===== verification/Retry.v ===== *)
(** * Upstream errors and retry conditions:
    [src/handler/reverse_proxy/retry.rs], [src/handler/reverse_proxy/error.rs]

    The [proxy_next_upstream] conditions of a configuration compiled to a
    16-bit set, and the classification of upstream errors against it. *)

From S2P Require Import Prelude RustStr.

(** ** Errors *)

(** [std::io::ErrorKind], the kinds the code tells apart. *)
Inductive ErrorKind :=
| ConnectionRefused | ConnectionReset | BrokenPipe | UnexpectedEof | TimedOut | OtherKind.

#[export] Instance ErrorKind_eq_dec : EqDecision ErrorKind.
Proof. solve_decision. Defined.

Inductive IoContext := Connect | Read | Write.

Inductive ProxyError :=
| ConnRefused (addr : list Z)
| ConnTimeout (addr : list Z) (timeout_secs : Z)
| ReadTimeout (addr : list Z) (timeout_secs : Z)
| WriteTimeout (addr : list Z) (timeout_secs : Z)
| TtfbTimeout (addr : list Z)
| ConnReset (addr : list Z)
| TlsHandshake (addr reason : list Z)
| BadGateway (addr : list Z) (status : Z)
| InvalidResponse (addr detail : list Z)
| NoAvailableUpstream (upstream : list Z)
| IoError (addr : list Z) (source : ErrorKind).

(** [ProxyError::http_status] *)
Definition http_status (e : ProxyError) : Z :=
  match e with
  | ConnRefused _ => 502
  | ConnTimeout _ _ => 504
  | ReadTimeout _ _ => 504
  | WriteTimeout _ _ => 504
  | TtfbTimeout _ => 504
  | ConnReset _ => 502
  | TlsHandshake _ _ => 502
  | BadGateway _ status => status
  | InvalidResponse _ _ => 502
  | NoAvailableUpstream _ => 503
  | IoError _ _ => 502
  end.

(** [ProxyError::from_io] *)
Definition from_io (addr : list Z) (e : ErrorKind) (context : IoContext) : ProxyError :=
  match e with
  | ConnectionRefused => ConnRefused addr
  | ConnectionReset | BrokenPipe | UnexpectedEof => ConnReset addr
  | _ => match context with
         | Connect => ConnRefused addr
         | Read | Write => IoError addr e
         end
  end.

(** ** Flags *)

Definition F_ERROR : Z := 1.
Definition F_TIMEOUT : Z := 2.
Definition F_HTTP_502 : Z := 4.
Definition F_HTTP_503 : Z := 8.
Definition F_HTTP_504 : Z := 16.
Definition F_HTTP_429 : Z := 32.
Definition F_NON_IDEMPOTENT : Z := 64.
Definition F_INVALID_HEADER : Z := 128.
Definition F_DEFAULT : Z := Z.lor F_ERROR F_TIMEOUT.
Definition F_OFF : Z := 0.

(** [NextUpstreamFlags::contains], [is_off], [matches_status],
    [allows_non_idempotent] *)
Definition flags_contains (flags flag : Z) : bool := negb (Z.land flags flag =? 0).
Definition flags_is_off (flags : Z) : bool := flags =? 0.
Definition matches_status (flags status : Z) : bool :=
  if status =? 502 then flags_contains flags F_HTTP_502
  else if status =? 503 then flags_contains flags F_HTTP_503
  else if status =? 504 then flags_contains flags F_HTTP_504
  else if status =? 429 then flags_contains flags F_HTTP_429
  else false.
Definition allows_non_idempotent (flags : Z) : bool := flags_contains flags F_NON_IDEMPOTENT.

Inductive NextUpstreamCondition :=
| NError | NTimeout | NHttp502 | NHttp503 | NHttp504 | NHttp429
| NNonIdempotent | NInvalidHeader | NOff.

#[export] Instance NextUpstreamCondition_eq_dec : EqDecision NextUpstreamCondition.
Proof. solve_decision. Defined.

Definition condition_bits (c : NextUpstreamCondition) : Z :=
  match c with
  | NError => F_ERROR
  | NTimeout => F_TIMEOUT
  | NHttp502 => F_HTTP_502
  | NHttp503 => F_HTTP_503
  | NHttp504 => F_HTTP_504
  | NHttp429 => F_HTTP_429
  | NNonIdempotent => F_NON_IDEMPOTENT
  | NInvalidHeader => F_INVALID_HEADER
  | NOff => 0
  end.

(** [compile_flags] *)
Definition compile_flags (conditions : list NextUpstreamCondition) : Z :=
  match conditions with
  | [] => F_DEFAULT
  | _ :: _ =>
      if bool_decide (NOff ∈ conditions) then F_OFF
      else foldl (λ bits c, Z.lor bits (condition_bits c)) 0 conditions
  end.

(** [is_idempotent] *)
Definition is_idempotent (method : list Z) : bool :=
  str_eqb method (lit "GET") || str_eqb method (lit "HEAD") || str_eqb method (lit "PUT")
  || str_eqb method (lit "DELETE") || str_eqb method (lit "OPTIONS") || str_eqb method (lit "TRACE").

(** [should_retry_error]: [None] is an [anyhow::Error] that is not a
    [ProxyError]. *)
Definition should_retry_error (err : option ProxyError) (flags : Z) : bool :=
  if flags_is_off flags then false
  else
    match err with
    | Some pe =>
        match pe with
        | ConnRefused _ | ConnReset _ | TlsHandshake _ _ | IoError _ _ => flags_contains flags F_ERROR
        | ConnTimeout _ _ | ReadTimeout _ _ | WriteTimeout _ _ | TtfbTimeout _ => flags_contains flags F_TIMEOUT
        | InvalidResponse _ _ => flags_contains flags F_INVALID_HEADER
        | BadGateway _ _ => false
        | NoAvailableUpstream _ => false
        end
    | None => flags_contains flags F_ERROR
    end.

(** ** Lemmas *)

Definition condition_bit (c : NextUpstreamCondition) : Z :=
  match c with
  | NError => 0 | NTimeout => 1 | NHttp502 => 2 | NHttp503 => 3 | NHttp504 => 4 | NHttp429 => 5
  | NNonIdempotent => 6 | NInvalidHeader => 7 | NOff => -1
  end.

Lemma condition_bits_pow c : c ≠ NOff → condition_bits c = 2 ^ condition_bit c.
Proof. by destruct c. Qed.

Lemma condition_bit_inj c d : c ≠ NOff → condition_bit c = condition_bit d → c = d.
Proof. by destruct c, d. Qed.

Lemma flags_contains_testbit flags n : 0 ≤ n → flags_contains flags (2 ^ n) = Z.testbit flags n.
Proof.
  intros Hn. unfold flags_contains. destruct (Z.testbit flags n) eqn:E.
  - apply negb_true_iff, Z.eqb_neq. intros H.
    apply (f_equal (λ z, Z.testbit z n)) in H.
    by rewrite Z.land_spec, E, Z.pow2_bits_true, Z.bits_0 in H.
  - apply negb_false_iff, Z.eqb_eq, Z.bits_inj'. intros i Hi.
    rewrite Z.land_spec, Z.bits_0. destruct (Z.eq_dec n i) as [<-|Hne]; [by rewrite E|].
    rewrite Z.pow2_bits_false by done. apply andb_false_r.
Qed.

Lemma condition_bits_testbit c d : c ≠ NOff →
  Z.testbit (condition_bits d) (condition_bit c) = bool_decide (c = d).
Proof. by destruct c, d. Qed.

Lemma fold_bits_testbit l acc c : c ≠ NOff →
  Z.testbit (foldl (λ bits c, Z.lor bits (condition_bits c)) acc l) (condition_bit c)
  = Z.testbit acc (condition_bit c) || bool_decide (c ∈ l).
Proof.
  intros Hc. revert acc; induction l as [|d l IH]; intros acc; cbn [foldl].
  - rewrite bool_decide_eq_false_2 by apply not_elem_of_nil. by rewrite orb_false_r.
  - rewrite IH, Z.lor_spec, condition_bits_testbit by done. rewrite <- orb_assoc. f_equal.
    rewrite <- bool_decide_or. apply bool_decide_ext. by rewrite elem_of_cons.
Qed.

Lemma compile_flags_spec conds c :
  c ≠ NOff → conds ≠ [] → NOff ∉ conds →
  flags_contains (compile_flags conds) (condition_bits c) = bool_decide (c ∈ conds).
Proof.
  intros Hc Hn Hoff. rewrite condition_bits_pow, flags_contains_testbit by (by destruct c).
  unfold compile_flags. destruct conds as [|d l]; [done|].
  rewrite bool_decide_eq_false_2 by done. rewrite fold_bits_testbit by done.
  by rewrite Z.bits_0.
Qed.

(** ** Properties *)

(** the compiled flags are the configured set: a condition is in force
    exactly when it is listed; [off] anywhere in the list disables every
    condition, and an empty list means [error] and [timeout]. *)
Theorem compile_flags_correct (conds : list NextUpstreamCondition) (c : NextUpstreamCondition) :
  c ≠ NOff →
  flags_contains (compile_flags conds) (condition_bits c) = true ↔
    NOff ∉ conds ∧ c ∈ (match conds with [] => [NError; NTimeout] | _ => conds end).
Proof.
  intros Hc. destruct conds as [|d l] eqn:El; rewrite <- El.
  - rewrite El. destruct c; cbn; rewrite ?elem_of_cons, ?elem_of_nil; naive_solver.
  - destruct (decide (NOff ∈ conds)) as [Hoff|Hoff].
    + unfold compile_flags. rewrite El in *. rewrite bool_decide_eq_true_2 by done. naive_solver.
    + rewrite compile_flags_spec by (done || by rewrite El). rewrite bool_decide_eq_true.
      rewrite El in *. naive_solver.
Qed.

Lemma compile_flags_correct_witness :
  flags_contains (compile_flags [NError; NHttp502]) (condition_bits NHttp502) = true.
Proof.
  apply (compile_flags_correct [NError; NHttp502] NHttp502); [done|].
  rewrite !not_elem_of_cons, !elem_of_cons. split; [|auto].
  split; [done|]. split; [done|]. apply not_elem_of_nil.
Defined.
