(* ===== verification/LoadBalance.v ===== *)
(** * Upstream pools: [src/handler/reverse_proxy/lb.rs],
    [src/config/model/upstream.rs]

    Runtime state of upstream nodes, the four load-balancing strategies, the
    health-check transitions and the pool registry.  A node is addressed by
    its position in the pool; [is_available] runs [CircuitBreaker::allow] and
    may change the node, so every scan over the nodes threads them, and stops
    where the iterator of the source stops. *)

From S2P Require Import Prelude RustStr CircuitBreaker Retry.

(** ** Configuration *)

Inductive LoadBalanceStrategy := RoundRobin | Weighted | LeastConn | IpHash.

Inductive UpstreamAddr :=
| Tcp (s : list Z)
| Unix (s : list Z).

Definition UpstreamAddr_parse (addr : list Z) : UpstreamAddr :=
  match strip_prefix (lit "unix:") addr with
  | Some path => Unix path
  | None => Tcp addr
  end.

Definition addr_is_unix (a : UpstreamAddr) : bool := match a with Unix _ => true | Tcp _ => false end.
Definition addr_as_str (a : UpstreamAddr) : list Z := match a with Tcp s | Unix s => s end.

Record CircuitBreakerConfig := mkCBConfig {
  cbc_max_failures : Z;
  cbc_window_secs : Z;
  cbc_fail_timeout : Z;
}.

Record UpstreamNode := mkUpstreamNode {
  un_addr : UpstreamAddr;
  un_weight : Z;
  un_tls : bool;
  un_tls_sni : option (list Z);
  un_tls_insecure : bool;
  un_upstream_host : option (list Z);
  un_http2 : bool;
  un_send_proxy_protocol : Z;
}.

Record HealthCheckConfig := mkHealthCheckConfig {
  hc_enabled : bool;
  hc_interval : Z;
  hc_timeout : Z;
  hc_path : list Z;
}.

Record UpstreamConfig := mkUpstreamConfig {
  uc_name : list Z;
  uc_strategy : LoadBalanceStrategy;
  uc_health_check : option HealthCheckConfig;
  uc_nodes : list UpstreamNode;
  uc_keepalive : Z;
  uc_keepalive_requests : Z;
  uc_keepalive_time : Z;
  uc_connect_timeout : Z;
  uc_read_timeout : Z;
  uc_write_timeout : Z;
  uc_retry : Z;
  uc_retry_timeout : Z;
  uc_proxy_next_upstream : list NextUpstreamCondition;
  uc_circuit_breaker : option CircuitBreakerConfig;
}.

(** ** Nodes *)

Record NodeState := mkNode {
  addr : UpstreamAddr;
  weight : Z;                  (* AtomicU32 *)
  healthy : Z;                 (* AtomicU32, 1 = healthy *)
  active_connections : Z;      (* AtomicU32 *)
  fail_count : Z;              (* AtomicU32 *)
  tls : bool;
  tls_sni : list Z;
  tls_insecure : bool;
  upstream_host : option (list Z);
  http2 : bool;
  send_proxy_protocol : Z;
  circuit_breaker : option CircuitBreaker;
}.

Definition set_health (h f : Z) (n : NodeState) : NodeState :=
  mkNode (addr n) (weight n) h (active_connections n) f (tls n) (tls_sni n) (tls_insecure n)
    (upstream_host n) (http2 n) (send_proxy_protocol n) (circuit_breaker n).
Definition set_active (a : Z) (n : NodeState) : NodeState :=
  mkNode (addr n) (weight n) (healthy n) a (fail_count n) (tls n) (tls_sni n) (tls_insecure n)
    (upstream_host n) (http2 n) (send_proxy_protocol n) (circuit_breaker n).
Definition set_breaker (cb : option CircuitBreaker) (n : NodeState) : NodeState :=
  mkNode (addr n) (weight n) (healthy n) (active_connections n) (fail_count n) (tls n) (tls_sni n)
    (tls_insecure n) (upstream_host n) (http2 n) (send_proxy_protocol n) cb.

(** [NodeState::new] *)
Definition node_new (now : Z) (node : UpstreamNode) (cb_cfg : option CircuitBreakerConfig) : NodeState :=
  let host_part := match un_addr node with
                   | Tcp s => before_byte byte_colon s
                   | Unix _ => lit "localhost"
                   end in
  let sni := match un_tls_sni node with Some s => s | None => host_part end in
  mkNode (un_addr node) (un_weight node) 1 0 0 (un_tls node) sni (un_tls_insecure node)
    (un_upstream_host node) (un_http2 node) (un_send_proxy_protocol node)
    ((λ c, cb_new now (cbc_max_failures c) (cbc_window_secs c) (cbc_fail_timeout c)) <$> cb_cfg).

Definition is_healthy (n : NodeState) : bool := healthy n =? 1.

(** [is_available]: healthy and let through by the breaker, whose state the
    question may change. *)
Definition is_available (now : Z) (n : NodeState) : bool * NodeState :=
  if negb (is_healthy n) then (false, n)
  else match circuit_breaker n with
       | None => (true, n)
       | Some cb => let '(b, cb') := allow now cb in (b, set_breaker (Some cb') n)
       end.

Definition mark_unhealthy (n : NodeState) : NodeState := set_health 0 (fail_count n) n.
Definition mark_healthy (n : NodeState) : NodeState := set_health 1 0 n.

(** [record_success] *)
Definition node_record_success (now : Z) (n : NodeState) : NodeState :=
  let n := if 0 <? fail_count n then set_health (healthy n) 0 n else n in
  let n := if is_healthy n then n else mark_healthy n in
  match circuit_breaker n with
  | Some cb => set_breaker (Some (cb_record_success now cb)) n
  | None => n
  end.

(** [record_failure]: the third consecutive failure marks the node unhealthy. *)
Definition node_record_failure (now : Z) (n : NodeState) : outcome NodeState :=
  count ← checked_add u32_max (fail_count n) 1;
  let n := set_health (healthy n) (wrap32 (fail_count n + 1)) n in
  let n := if 3 <=? count then mark_unhealthy n else n in
  match circuit_breaker n with
  | Some cb => cb' ← cb_record_failure now cb; Ret (set_breaker (Some cb') n)
  | None => Ret n
  end.

(** ** Pools *)

Record UpstreamPool := mkPool {
  nodes : list NodeState;
  strategy : LoadBalanceStrategy;
  rr_counter : Z;              (* AtomicUsize *)
  keepalive_requests : Z;
  keepalive_time : Z;
  keepalive_max_idle : Z;
  connect_timeout : Z;
  read_timeout : Z;
  write_timeout : Z;
  retry : Z;
  retry_timeout : Z;
  next_upstream_flags : Z;
}.

Definition set_nodes (ns : list NodeState) (p : UpstreamPool) : UpstreamPool :=
  mkPool ns (strategy p) (rr_counter p) (keepalive_requests p) (keepalive_time p) (keepalive_max_idle p)
    (connect_timeout p) (read_timeout p) (write_timeout p) (retry p) (retry_timeout p) (next_upstream_flags p).
Definition set_rr (c : Z) (p : UpstreamPool) : UpstreamPool :=
  mkPool (nodes p) (strategy p) c (keepalive_requests p) (keepalive_time p) (keepalive_max_idle p)
    (connect_timeout p) (read_timeout p) (write_timeout p) (retry p) (retry_timeout p) (next_upstream_flags p).

(** [UpstreamPool::from_config] *)
Definition pool_from_config (now : Z) (cfg : UpstreamConfig) : UpstreamPool :=
  mkPool ((λ n, node_new now n (uc_circuit_breaker cfg)) <$> uc_nodes cfg) (uc_strategy cfg) 0
    (uc_keepalive_requests cfg) (uc_keepalive_time cfg) (uc_keepalive cfg)
    (uc_connect_timeout cfg) (uc_read_timeout cfg) (uc_write_timeout cfg)
    (uc_retry cfg) (uc_retry_timeout cfg) (compile_flags (uc_proxy_next_upstream cfg)).

(** [simple_hash] *)
Definition simple_hash (s : list Z) : Z :=
  foldl (λ h b, wrap64 (wrap64 (h * 33) + b)) 5381 s.

(** *** Scans *)

(** [filter(is_available)] run to the end: the answer of every node. *)
Fixpoint scan_all (now : Z) (ns : list NodeState) : list bool * list NodeState :=
  match ns with
  | [] => ([], [])
  | n :: ns =>
      let '(b, n') := is_available now n in
      let '(bs, ns') := scan_all now ns in (b :: bs, n' :: ns')
  end.

Definition count_true (bs : list bool) : nat := length (filter (λ b, b = true) bs).

(** [filter(is_available).nth(k)]: stops at the hit. *)
Fixpoint nth_available (now : Z) (k : nat) (ns : list NodeState) : option nat * list NodeState :=
  match ns with
  | [] => (None, [])
  | n :: ns =>
      let '(b, n') := is_available now n in
      if b then
        match k with
        | O => (Some 0%nat, n' :: ns)
        | S k => let '(r, ns') := nth_available now k ns in (option_map S r, n' :: ns')
        end
      else let '(r, ns') := nth_available now k ns in (option_map S r, n' :: ns')
  end.

(** [filter(is_healthy).nth(k)] *)
Fixpoint nth_healthy (k : nat) (ns : list NodeState) : option nat :=
  match ns with
  | [] => None
  | n :: ns =>
      if is_healthy n then match k with O => Some 0%nat | S k => option_map S (nth_healthy k ns) end
      else option_map S (nth_healthy k ns)
  end.

(** [filter(is_available).map(weight).sum()] on [u32]. *)
Fixpoint sum_weights (now : Z) (acc : Z) (ns : list NodeState) : outcome (Z * list NodeState) :=
  match ns with
  | [] => Ret (acc, [])
  | n :: ns =>
      let '(b, n') := is_available now n in
      acc' ← (if (b : bool) then checked_add u32_max acc (weight n') else Ret acc);
      '(total, ns') ← sum_weights now acc' ns;
      Ret (total, n' :: ns')
  end.

(** The cumulative-weight loop. *)
Fixpoint weighted_loop (now target cumulative : Z) (ns : list NodeState)
  : outcome (option nat * list NodeState) :=
  match ns with
  | [] => Ret (None, [])
  | n :: ns =>
      let '(b, n') := is_available now n in
      if (b : bool) then
        cumulative ← checked_add u32_max cumulative (weight n');
        if target <? cumulative then Ret (Some 0%nat, n' :: ns)
        else '(r, ns') ← weighted_loop now target cumulative ns; Ret (option_map S r, n' :: ns')
      else '(r, ns') ← weighted_loop now target cumulative ns; Ret (option_map S r, n' :: ns')
  end.

(** [filter(is_available).last()] and [.min_by_key(active_connections)],
    folding the answers of a full scan; the first minimum is returned. *)
Fixpoint last_true (bs : list bool) : option nat :=
  match bs with
  | [] => None
  | b :: bs => match last_true bs with
               | Some i => Some (S i)
               | None => if b then Some 0%nat else None
               end
  end.

Fixpoint min_active (bs : list bool) (ns : list NodeState) : option (nat * Z) :=
  match bs, ns with
  | b :: bs, n :: ns =>
      let rest := (λ '(i, a), (S i, a)) <$> min_active bs ns in
      if (b : bool) then
        match rest with
        | Some (i, a) => if active_connections n <=? a then Some (0%nat, active_connections n) else rest
        | None => Some (0%nat, active_connections n)
        end
      else rest
  | _, _ => None
  end.

(** [UpstreamPool::pick]: the chosen node's position, if any. *)
Definition pick (now : Z) (client_ip : option (list Z)) (p : UpstreamPool)
  : outcome (option nat * UpstreamPool) :=
  let '(avail, ns) := scan_all now (nodes p) in
  let p := set_nodes ns p in
  let c := rr_counter p in
  let bump := set_rr (wrap64 (c + 1)) p in
  let avail_count := Z.of_nat (count_true avail) in
  if avail_count =? 0 then
    let healthy_count := Z.of_nat (length (filter (λ n, is_healthy n = true) ns)) in
    if 0 <? healthy_count then Ret (nth_healthy (Z.to_nat (c mod healthy_count)) ns, bump)
    else match ns with
         | [] => Ret (None, p)
         | _ :: _ => Ret (Some (Z.to_nat (c mod Z.of_nat (length ns))), bump)
         end
  else
    match strategy p with
    | RoundRobin =>
        let '(r, ns') := nth_available now (Z.to_nat (c mod avail_count)) ns in
        Ret (r, set_nodes ns' bump)
    | Weighted =>
        '(total, ns1) ← sum_weights now 0 ns;
        if total =? 0 then
          let '(r, ns2) := nth_available now 0 ns1 in Ret (r, set_nodes ns2 p)
        else
          let target := wrap32 c mod total in
          '(r, ns2) ← weighted_loop now target 0 ns1;
          match r with
          | Some i => Ret (Some i, set_nodes ns2 bump)
          | None =>
              let '(bs, ns3) := scan_all now ns2 in Ret (last_true bs, set_nodes ns3 bump)
          end
    | LeastConn =>
        let '(bs, ns1) := scan_all now ns in
        Ret (fst <$> min_active bs ns1, set_nodes ns1 p)
    | IpHash =>
        let h := simple_hash (match client_ip with Some ip => ip | None => lit "0.0.0.0" end) in
        let '(r, ns1) := nth_available now (Z.to_nat (h mod avail_count)) ns in
        Ret (r, set_nodes ns1 p)
    end.

(** ** Health checks: one probe of [health_check_task] *)

Inductive probe_result :=
| ProbeStatus (code : Z)
| ProbeError
| ProbeTimeout.

Definition health_check_node (r : probe_result) (n : NodeState) : NodeState :=
  match r with
  | ProbeStatus code =>
      if (200 <=? code) && (code <? 300) then mark_healthy n
      else
        let n := set_health (healthy n) (wrap32 (fail_count n + 1)) n in
        if 3 <=? fail_count n then mark_unhealthy n else n
  | ProbeError => mark_unhealthy n
  | ProbeTimeout => mark_unhealthy n
  end.

(** One round of the task: every node is probed in order. *)
Definition health_check_round (rs : list probe_result) (ns : list NodeState) : list NodeState :=
  zip_with health_check_node rs ns.

(** ** Registry: [UpstreamRegistry] *)

Definition registry_register (key : list Z) (pool : UpstreamPool) (pools : gmap (list Z) UpstreamPool)
  : gmap (list Z) UpstreamPool := <[key := pool]> pools.
Definition registry_get (key : list Z) (pools : gmap (list Z) UpstreamPool) : option UpstreamPool :=
  pools !! key.

(** ** Scans over settled nodes

    A node is settled at [now] when asking for its availability leaves it as
    it is: it has no breaker, or one that is closed, half-open, or open and
    not yet expired. *)

Definition avail (now : Z) (n : NodeState) : bool := fst (is_available now n).
Definition settled (now : Z) (n : NodeState) : Prop := snd (is_available now n) = n.

(** The positions of the available nodes, in order. *)
Fixpoint avail_idx (now : Z) (ns : list NodeState) : list nat :=
  match ns with
  | [] => []
  | n :: ns => let rest := S <$> avail_idx now ns in
               if avail now n then 0%nat :: rest else rest
  end.

(** Every available position repeated [weight] times. *)
Fixpoint weight_slots (now : Z) (ns : list NodeState) : list nat :=
  match ns with
  | [] => []
  | n :: ns => let rest := S <$> weight_slots now ns in
               if avail now n then replicate (Z.to_nat (weight n)) 0%nat ++ rest else rest
  end.

Lemma is_available_eta now n : is_available now n = (avail now n, snd (is_available now n)).
Proof. unfold avail. by destruct (is_available now n). Qed.

Lemma is_available_settled now n : settled now n → is_available now n = (avail now n, n).
Proof. intros Hs. rewrite is_available_eta. by rewrite Hs. Qed.

Ltac settle :=
  repeat match goal with
  | H : Forall (settled _) (_ :: _) |- _ => apply Forall_cons_1 in H as [? ?]
  | H : settled ?now ?n |- context [is_available ?now ?n] => rewrite (is_available_settled _ _ H)
  end.

Lemma avail_idx_spec now ns i :
  i ∈ avail_idx now ns ↔ ∃ n, ns !! i = Some n ∧ avail now n = true.
Proof.
  revert i; induction ns as [|n ns IH]; intros i; cbn [avail_idx].
  { split; [by intros ?%not_elem_of_nil | intros (n & H & _); done]. }
  assert (Hr : i ∈ S <$> avail_idx now ns ↔
               ∃ j, i = S j ∧ ∃ n, ns !! j = Some n ∧ avail now n = true).
  { rewrite list_elem_of_fmap. setoid_rewrite IH. naive_solver. }
  destruct i as [|i]; destruct (avail now n) eqn:E; rewrite ?elem_of_cons, Hr; cbn.
  - split; [by exists n | auto].
  - split; [intros (j & ? & _); done | intros (m & [= ->] & ?); congruence].
  - split; [intros [?|(j & [= ->] & ?)]; done | intros H; right; eauto].
  - split; [intros (j & [= ->] & ?); done | eauto].
Qed.

Lemma weight_slots_spec now ns i :
  i ∈ weight_slots now ns → ∃ n, ns !! i = Some n ∧ avail now n = true.
Proof.
  revert i; induction ns as [|n ns IH]; intros i; cbn [weight_slots].
  { by intros ?%not_elem_of_nil. }
  assert (Hr : i ∈ S <$> weight_slots now ns →
               ∃ m, (n :: ns) !! i = Some m ∧ avail now m = true).
  { rewrite list_elem_of_fmap. intros (j & -> & Hj). apply IH in Hj. done. }
  destruct (avail now n) eqn:E; [|done].
  rewrite elem_of_app. intros [[-> _]%elem_of_replicate|?]; [|auto]. exists n; done.
Qed.

(** How often a position occurs in the slots: its weight. *)
Definition occ (i : nat) (l : list nat) : nat := length (filter (λ j, j = i) l).

Lemma occ_app i l k : occ i (l ++ k) = (occ i l + occ i k)%nat.
Proof. unfold occ. by rewrite filter_app, length_app. Qed.
Lemma occ_S i l : occ (S i) (S <$> l) = occ i l.
Proof.
  unfold occ. induction l as [|x l IH]; [done|]. cbn [fmap list_fmap].
  rewrite !filter_cons. case_decide; case_decide; simpl; repeat case_decide; lia.
Qed.
Lemma occ_0 l : occ 0 (S <$> l) = 0%nat.
Proof. unfold occ. induction l as [|x l IH]; [done|]. cbn [fmap list_fmap]. rewrite filter_cons. by case_decide. Qed.
Lemma occ_replicate i n : occ i (replicate n 0%nat) = if decide (i = 0%nat) then n else 0%nat.
Proof. unfold occ. induction n as [|n IH]; cbn [replicate]; [by case_decide|]. rewrite filter_cons. case_decide; case_decide; simpl; repeat case_decide; lia. Qed.

Lemma weight_slots_occ now ns i n :
  ns !! i = Some n →
  occ i (weight_slots now ns) = if avail now n then Z.to_nat (weight n) else 0%nat.
Proof.
  revert i; induction ns as [|m ns IH]; intros [|i]; cbn [weight_slots]; [done|done| |].
  - intros [= ->]. destruct (avail now n); rewrite ?occ_app, ?occ_replicate, occ_0; simpl; repeat case_decide; lia.
  - intros Hi. change (ns !! i = Some n) in Hi. apply IH in Hi.
    destruct (avail now m); rewrite ?occ_app, ?occ_replicate, occ_S; simpl; repeat case_decide; lia.
Qed.

Section settled_scans.
Context (now : Z).

Lemma scan_all_settled ns :
  Forall (settled now) ns → scan_all now ns = (avail now <$> ns, ns).
Proof. induction ns as [|n ns IH]; intros H; [done|]. cbn [scan_all]. settle. by rewrite IH. Qed.

Lemma count_true_avail ns : count_true (avail now <$> ns) = length (avail_idx now ns).
Proof.
  induction ns as [|n ns IH]; [done|]. unfold count_true in *. cbn [fmap list_fmap avail_idx].
  rewrite filter_cons. destruct (avail now n); cbn; rewrite ?length_fmap, <- IH; done.
Qed.

Lemma nth_available_settled ns k :
  Forall (settled now) ns → nth_available now k ns = (avail_idx now ns !! k, ns).
Proof.
  revert k; induction ns as [|n ns IH]; intros k H; [done|]. cbn [nth_available avail_idx]. settle.
  destruct (avail now n); [destruct k as [|k]; [done|]|]; rewrite IH by done;
    f_equal; symmetry; apply (list_lookup_fmap S).
Qed.

Lemma sum_weights_settled ns acc :
  Forall (settled now) ns → Forall (λ n, 0 ≤ weight n) ns → 0 ≤ acc →
  acc + Z.of_nat (length (weight_slots now ns)) ≤ u32_max →
  sum_weights now acc ns = Ret (acc + Z.of_nat (length (weight_slots now ns)), ns).
Proof.
  revert acc; induction ns as [|n ns IH]; intros acc Hs Hw Ha Hle.
  { cbn. by rewrite Z.add_0_r. }
  apply Forall_cons_1 in Hw as [Hwn Hw]. cbn [sum_weights weight_slots] in *. settle.
  destruct (avail now n).
  - rewrite length_app, length_replicate, length_fmap in *.
    unfold checked_add. rewrite (proj2 (Z.leb_le _ _)) by lia. cbn [mbind outcome_bind].
    rewrite IH by (auto; lia). cbn [mbind outcome_bind]. do 2 f_equal. lia.
  - rewrite length_fmap in *. cbn [mbind outcome_bind]. rewrite IH by auto. done.
Qed.

Lemma weighted_loop_settled ns target cum :
  Forall (settled now) ns → Forall (λ n, 0 ≤ weight n) ns → 0 ≤ cum ≤ target →
  cum + Z.of_nat (length (weight_slots now ns)) ≤ u32_max →
  weighted_loop now target cum ns = Ret (weight_slots now ns !! Z.to_nat (target - cum), ns).
Proof.
  revert cum; induction ns as [|n ns IH]; intros cum Hs Hw Hc Hle; [done|].
  apply Forall_cons_1 in Hw as [Hwn Hw]. cbn [weighted_loop weight_slots] in *. settle.
  destruct (avail now n).
  - rewrite length_app, length_replicate, length_fmap in *.
    unfold checked_add. rewrite (proj2 (Z.leb_le _ _)) by lia. cbn [mbind outcome_bind].
    destruct (Z.ltb_spec target (cum + weight n)).
    + rewrite lookup_app_l by (rewrite length_replicate; lia). rewrite lookup_replicate_2 by lia. done.
    + rewrite IH by (auto; lia). cbn [mbind outcome_bind].
      rewrite lookup_app_r by (rewrite length_replicate; lia).
      rewrite length_replicate, (list_lookup_fmap S). do 3 f_equal. f_equal. lia.
  - rewrite length_fmap in *. rewrite IH by auto. cbn [mbind outcome_bind].
    by rewrite (list_lookup_fmap S).
Qed.

End settled_scans.

(** ** Fairness *)

(** [k] picks in a row with nothing in between. *)
Fixpoint picks (now : Z) (ip : option (list Z)) (k : nat) (p : UpstreamPool)
  : outcome (list (option nat) * UpstreamPool) :=
  match k with
  | O => Ret ([], p)
  | S k => '(r, p1) ← pick now ip p; '(rs, p2) ← picks now ip k p1; Ret (r :: rs, p2)
  end.

Definition cycled {A} (l : list A) (c k : nat) : list (option A) :=
  (λ i, l !! ((c + i) mod length l)%nat) <$> seq 0 k.

Lemma cycled_S {A} (l : list A) c k :
  cycled l c (S k) = l !! (c mod length l)%nat :: cycled l (S c) k.
Proof.
  unfold cycled. cbn [seq fmap list_fmap]. rewrite Nat.add_0_r. f_equal.
  rewrite <- fmap_S_seq, <- list_fmap_compose. apply list_fmap_ext. intros ? i _. cbn.
  by rewrite Nat.add_succ_r.
Qed.

Lemma cycled_tail {A} (l : list A) r : (r ≤ length l)%nat →
  (λ i, l !! i) <$> seq r (length l - r) = Some <$> drop r l.
Proof.
  intros Hr. apply list_eq. intros i. rewrite !list_lookup_fmap, lookup_drop.
  destruct (decide (i < length l - r)%nat) as [Hi|Hi].
  - rewrite lookup_seq_lt by done. cbn. destruct (lookup_lt_is_Some_2 l (r + i)) as [x ->]; [lia|done].
  - rewrite lookup_seq_ge by lia. by rewrite lookup_ge_None_2 by lia.
Qed.

Lemma cycled_head {A} (l : list A) r : (r ≤ length l)%nat →
  (λ i, l !! i) <$> seq 0 r = Some <$> take r l.
Proof.
  intros Hr. apply list_eq. intros i. rewrite !list_lookup_fmap.
  destruct (decide (i < r)%nat) as [Hi|Hi].
  - rewrite lookup_seq_lt by done. rewrite lookup_take_lt by done. cbn.
    destruct (lookup_lt_is_Some_2 l i) as [x ->]; [lia|done].
  - rewrite lookup_seq_ge by lia. by rewrite lookup_take_ge by lia.
Qed.

(** One full turn visits every slot once. *)
Lemma cycled_turn {A} (l : list A) c : l ≠ [] → cycled l c (length l) ≡ₚ Some <$> l.
Proof.
  intros Hl. assert (Hm : (length l ≠ 0)%nat) by (by destruct l).
  set (m := length l) in *. set (r := (c mod m)%nat).
  assert (Hr : (r < m)%nat) by (apply Nat.mod_upper_bound; lia).
  assert (Hc : cycled l c m = (Some <$> drop r l) ++ (Some <$> take r l)).
  { unfold cycled. fold m. replace (seq 0 m) with (seq 0 ((m - r) + r)) by (f_equal; lia).
    rewrite seq_app, fmap_app. f_equal.
    - rewrite <- cycled_tail by (unfold m in Hr; lia). fold m.
      replace (seq r (m - r)) with (Nat.add r <$> seq 0 (m - r)).
      2:{ rewrite fmap_add_seq. f_equal; lia. }
      rewrite <- list_fmap_compose. apply list_fmap_ext. intros i x [-> Hi]%lookup_seq. cbn. f_equal.
      rewrite <- Nat.Div0.add_mod_idemp_l. fold r. rewrite Nat.mod_small; lia.
    - rewrite <- cycled_head by (unfold m in Hr; lia).
      replace (seq (0 + (m - r)) r) with (Nat.add (m - r) <$> seq 0 r).
      2:{ rewrite fmap_add_seq. f_equal; lia. }
      rewrite <- list_fmap_compose. apply list_fmap_ext. intros i x [-> Hi]%lookup_seq. cbn. f_equal.
      rewrite <- Nat.Div0.add_mod_idemp_l. fold r.
      replace (r + (m - r + i))%nat with (i + 1 * m)%nat by lia.
      rewrite Nat.Div0.mod_add, Nat.mod_small; lia. }
  rewrite Hc, <- fmap_app. apply fmap_Permutation.
  rewrite Permutation_app_comm. by rewrite take_drop.
Qed.

(** The slots a counter-driven strategy walks through. *)
Definition slots (now : Z) (p : UpstreamPool) : list nat :=
  match strategy p with
  | RoundRobin => avail_idx now (nodes p)
  | Weighted => weight_slots now (nodes p)
  | _ => []
  end.

(** A pool whose nodes are settled and whose counter and weights are in range. *)
Record pool_ok (now : Z) (p : UpstreamPool) : Prop := {
  ok_settled : Forall (settled now) (nodes p);
  ok_weight : Forall (λ n, 0 ≤ weight n) (nodes p);
  ok_total : Z.of_nat (length (weight_slots now (nodes p))) ≤ u32_max;
  ok_counter : 0 ≤ rr_counter p;
}.

Lemma set_nodes_id p : set_nodes (nodes p) p = p.
Proof. by destruct p. Qed.

Lemma avail_idx_slots now p : weight_slots now (nodes p) ≠ [] → avail_idx now (nodes p) ≠ [].
Proof.
  intros Hw Ha. destruct (weight_slots now (nodes p)) as [|i l] eqn:E; [done|].
  assert (Hi : i ∈ weight_slots now (nodes p)) by (rewrite E; constructor).
  apply weight_slots_spec, avail_idx_spec in Hi. rewrite Ha in Hi. by apply not_elem_of_nil in Hi.
Qed.

Lemma pick_settled now ip p :
  Forall (settled now) (nodes p) → avail_idx now (nodes p) ≠ [] →
  pick now ip p =
    let c := rr_counter p in
    let bump := set_rr (wrap64 (c + 1)) p in
    let m := Z.of_nat (length (avail_idx now (nodes p))) in
    match strategy p with
    | RoundRobin => Ret (avail_idx now (nodes p) !! Z.to_nat (c mod m), bump)
    | Weighted =>
        '(total, ns1) ← sum_weights now 0 (nodes p);
        if total =? 0 then
          let '(r, ns2) := nth_available now 0 ns1 in Ret (r, set_nodes ns2 p)
        else
          '(r, ns2) ← weighted_loop now (wrap32 c mod total) 0 ns1;
          match r with
          | Some i => Ret (Some i, set_nodes ns2 bump)
          | None => let '(bs, ns3) := scan_all now ns2 in Ret (last_true bs, set_nodes ns3 bump)
          end
    | LeastConn => Ret (fst <$> min_active (avail now <$> nodes p) (nodes p), p)
    | IpHash =>
        Ret (avail_idx now (nodes p) !!
               Z.to_nat (simple_hash (default (lit "0.0.0.0") ip) mod m), p)
    end.
Proof.
  intros Hs Ha. unfold pick. rewrite scan_all_settled by done. rewrite set_nodes_id, count_true_avail.
  rewrite (proj2 (Z.eqb_neq _ _)) by (destruct (avail_idx now (nodes p)); [done|cbn; lia]).
  cbv zeta. destruct (strategy p).
  - rewrite nth_available_settled by done. by f_equal.
  - reflexivity.
  - by rewrite scan_all_settled, set_nodes_id by done.
  - rewrite nth_available_settled by done. by rewrite set_nodes_id.
Qed.

Lemma pick_slot now ip p :
  pool_ok now p → slots now p ≠ [] → rr_counter p < u32_max →
  pick now ip p =
    Ret (slots now p !! (Z.to_nat (rr_counter p) mod length (slots now p))%nat,
         set_rr (rr_counter p + 1) p).
Proof.
  intros [Hs Hw Ht Hc] Hne Hlt. unfold slots in *.
  assert (Hb : wrap64 (rr_counter p + 1) = rr_counter p + 1).
  { unfold wrap64, u64_max, u32_max in *. rewrite Z.mod_small; lia. }
  assert (Hmod : ∀ l : list nat, l ≠ [] →
    Z.to_nat (rr_counter p mod Z.of_nat (length l)) = (Z.to_nat (rr_counter p) mod length l)%nat).
  { intros l Hl. rewrite Z2Nat.inj_mod, Nat2Z.id by lia. done. }
  destruct (strategy p) eqn:Est; try done.
  - rewrite pick_settled, Est by done. cbv zeta. by rewrite Hb, Hmod by done.
  - rewrite pick_settled, Est by eauto using avail_idx_slots. cbv zeta. rewrite Hb.
    rewrite sum_weights_settled by (auto; lia). cbn [mbind outcome_bind].
    assert (Hl : (length (weight_slots now (nodes p)) ≠ 0)%nat) by (by destruct (weight_slots now (nodes p))).
    rewrite (proj2 (Z.eqb_neq _ _)) by lia. rewrite Z.add_0_l.
    assert (Hw32 : wrap32 (rr_counter p) = rr_counter p) by (unfold wrap32; rewrite Z.mod_small; lia).
    rewrite Hw32.
    set (t := rr_counter p mod _).
    assert (Hrange : 0 ≤ t < Z.of_nat (length (weight_slots now (nodes p)))) by (apply Z.mod_pos_bound; lia).
    rewrite weighted_loop_settled by (auto; lia). cbn [mbind outcome_bind].
    rewrite Z.sub_0_r. rewrite <- Hmod by done. fold t.
    destruct (lookup_lt_is_Some_2 (weight_slots now (nodes p)) (Z.to_nat t)) as [i ->]; [lia|].
    by f_equal.
Qed.

Lemma slots_set_rr now c p : slots now (set_rr c p) = slots now p.
Proof. by destruct p. Qed.
Lemma pool_ok_set_rr now c p : 0 ≤ c → pool_ok now p → pool_ok now (set_rr c p).
Proof. intros Hc [? ? ? ?]. by split. Qed.

Lemma picks_cycled now ip k p :
  pool_ok now p → slots now p ≠ [] → rr_counter p + Z.of_nat k ≤ u32_max →
  picks now ip k p =
    Ret (cycled (slots now p) (Z.to_nat (rr_counter p)) k, set_rr (rr_counter p + Z.of_nat k) p).
Proof.
  revert p; induction k as [|k IH]; intros p Hok Hne Hle.
  { cbn [picks]. rewrite Z.add_0_r. by destruct p. }
  cbn [picks]. pose proof (ok_counter _ _ Hok).
  rewrite pick_slot by (auto; lia). cbn [mbind outcome_bind].
  rewrite IH by (rewrite ?slots_set_rr; auto using pool_ok_set_rr with lia; cbn; lia).
  cbn [mbind outcome_bind]. rewrite cycled_S, slots_set_rr. cbn [rr_counter set_rr].
  rewrite Z2Nat.inj_add, Nat.add_1_r by lia. do 2 f_equal. unfold set_rr. cbn. f_equal. lia.
Qed.

(** C8: round robin is fair while nothing changes.  Let no breaker of the pool be open with its
    timeout passed (the picks that turn such a breaker half-open are [probe_is_discarded]), let the
    weights be in range, let at least one node be available, and let the 32-bit counter not reach its
    maximum during the picks.  Then as many consecutive picks at one time as there are available nodes
    return each available node exactly once (they are a permutation of the available positions),
    wherever the counter starts, and change nothing but the counter. *)
Theorem round_robin_fair now ip p :
  strategy p = RoundRobin → pool_ok now p → avail_idx now (nodes p) ≠ [] →
  rr_counter p + Z.of_nat (length (avail_idx now (nodes p))) ≤ u32_max →
  ∃ rs, picks now ip (length (avail_idx now (nodes p))) p =
          Ret (rs, set_rr (rr_counter p + Z.of_nat (length (avail_idx now (nodes p)))) p)
    ∧ rs ≡ₚ Some <$> avail_idx now (nodes p).
Proof.
  intros Est Hok Hne Hle. assert (Hsl : slots now p = avail_idx now (nodes p)) by (unfold slots; by rewrite Est).
  eexists. rewrite picks_cycled by (rewrite ?Hsl; done). split; [done|]. rewrite Hsl. by apply cycled_turn.
Qed.

(** C17: weighted round robin is exact while nothing changes.  Let no breaker of the pool be open with
    its timeout passed ([probe_is_discarded]), let the weights be no less than 0 and the total weight of
    the available nodes be positive and fit 32 bits (the sum of the code overflows otherwise), and let
    the 32-bit counter not reach its maximum during the picks.  Then over as many consecutive picks at
    one time as that total weight, each node is returned exactly [weight] times if it is available and
    never otherwise, and nothing but the counter changes. *)
Theorem weighted_exact now ip p :
  strategy p = Weighted → pool_ok now p → weight_slots now (nodes p) ≠ [] →
  rr_counter p + Z.of_nat (length (weight_slots now (nodes p))) ≤ u32_max →
  ∃ rs, picks now ip (length (weight_slots now (nodes p))) p =
          Ret (Some <$> rs, set_rr (rr_counter p + Z.of_nat (length (weight_slots now (nodes p)))) p)
    ∧ ∀ i n, nodes p !! i = Some n → occ i rs = if avail now n then Z.to_nat (weight n) else 0%nat.
Proof.
  intros Est Hok Hne Hle. assert (Hsl : slots now p = weight_slots now (nodes p)) by (unfold slots; by rewrite Est).
  rewrite picks_cycled by (rewrite ?Hsl; done). rewrite Hsl.
  pose proof (cycled_turn (weight_slots now (nodes p)) (Z.to_nat (rr_counter p)) Hne) as Hp.
  apply Permutation_map_inv in Hp as (rs & Hrs & Hp).
  exists rs. split; [by rewrite Hrs|]. intros i n Hi. rewrite <- (weight_slots_occ _ _ _ _ Hi).
  unfold occ. by rewrite Hp.
Qed.

(** ** Least connections, IP hash, availability *)

Lemma min_active_spec bs ns :
  length bs = length ns →
  match min_active bs ns with
  | Some (i, a) =>
      bs !! i = Some true ∧ active_connections <$> (ns !! i) = Some a ∧
      (∀ j n, bs !! j = Some true → ns !! j = Some n → a ≤ active_connections n) ∧
      (∀ j n, (j < i)%nat → bs !! j = Some true → ns !! j = Some n → a < active_connections n)
  | None => ∀ j, bs !! j ≠ Some true
  end.
Proof.
  revert ns; induction bs as [|b bs IH]; intros [|n ns] Hl; cbn [min_active]; try done.
  cbn in Hl. injection Hl as Hl. specialize (IH ns Hl).
  destruct (min_active bs ns) as [[i a]|]; cbn.
  - destruct IH as (Hb & Ha & Hmin & Hfst). destruct b.
    + destruct (Z.leb_spec (active_connections n) a).
      * repeat split; [|intros; lia]. intros [|j] m Hj Hm; simplify_eq/=; [lia|].
        specialize (Hmin _ _ Hj Hm). lia.
      * repeat split; auto; intros [|j] m; intros; simplify_eq/=; try lia; eauto.
        eapply Hfst; eauto. lia.
    + repeat split; auto; intros [|j] m; intros; simplify_eq/=; eauto.
      eapply Hfst; eauto. lia.
  - destruct b.
    + repeat split; [|intros; lia]. intros [|j] m Hj Hm; simplify_eq/=; [lia|]. by apply IH in Hj.
    + intros [|j]; cbn; [congruence|apply IH].
Qed.

Lemma least_min_ex now p :
  avail_idx now (nodes p) ≠ [] →
  ∃ i n, fst <$> min_active (avail now <$> nodes p) (nodes p) = Some i ∧
    nodes p !! i = Some n ∧ avail now n = true
    ∧ (∀ j m, nodes p !! j = Some m → avail now m = true → active_connections n ≤ active_connections m)
    ∧ (∀ j m, (j < i)%nat → nodes p !! j = Some m → avail now m = true →
         active_connections n < active_connections m).
Proof.
  intros Ha.
  pose proof (min_active_spec (avail now <$> nodes p) (nodes p) (length_fmap _ _)) as H.
  destruct (min_active _ _) as [[i a]|].
  - destruct H as (Hb & Hn & Hmin & Hfst). apply fmap_Some in Hn as (n & Hn & ->).
    assert (Hav : ∀ j m, nodes p !! j = Some m → avail now m = true →
                    (avail now <$> nodes p) !! j = Some true).
    { intros j m Hj Hm. by rewrite list_lookup_fmap, Hj, <- Hm. }
    exists i, n. split_and!; eauto.
    rewrite list_lookup_fmap, Hn in Hb. by injection Hb.
  - exfalso. destruct (avail_idx now (nodes p)) as [|i l] eqn:E; [done|].
    assert (Hi : i ∈ avail_idx now (nodes p)) by (rewrite E; constructor).
    apply avail_idx_spec in Hi as (n & Hn & Hav). apply (H i).
    by rewrite list_lookup_fmap, Hn, <- Hav.
Qed.

(** least-connections picks the first available node with the fewest
    active connections, and leaves the pool as it is. *)
Theorem least_conn_minimal now ip p :
  strategy p = LeastConn → Forall (settled now) (nodes p) → avail_idx now (nodes p) ≠ [] →
  ∃ i n, pick now ip p = Ret (Some i, p) ∧ nodes p !! i = Some n ∧ avail now n = true
    ∧ (∀ j m, nodes p !! j = Some m → avail now m = true → active_connections n ≤ active_connections m)
    ∧ (∀ j m, (j < i)%nat → nodes p !! j = Some m → avail now m = true →
         active_connections n < active_connections m).
Proof.
  intros Est Hs Ha. rewrite pick_settled, Est by done. cbv zeta.
  destruct (least_min_ex now p Ha) as (i & n & Hi & ?). exists i, n. by rewrite Hi.
Qed.

(** IP hash is sticky: while the nodes' availability does not change, any
    number of picks for one client address return the same available node and
    leave the pool, counter included, as it is. *)
Theorem ip_hash_sticky now ip p k :
  strategy p = IpHash → Forall (settled now) (nodes p) → avail_idx now (nodes p) ≠ [] →
  ∃ i n, picks now ip k p = Ret (replicate k (Some i), p)
    ∧ nodes p !! i = Some n ∧ avail now n = true.
Proof.
  intros Est Hs Ha.
  assert (Hm : (length (avail_idx now (nodes p)) ≠ 0)%nat) by (by destruct (avail_idx now (nodes p))).
  set (idx := simple_hash (default (lit "0.0.0.0") ip) mod Z.of_nat (length (avail_idx now (nodes p)))).
  assert (Hidx : 0 ≤ idx < Z.of_nat (length (avail_idx now (nodes p)))) by (apply Z.mod_pos_bound; lia).
  destruct (lookup_lt_is_Some_2 (avail_idx now (nodes p)) (Z.to_nat idx)) as [i Hi]; [lia|].
  pose proof (list_elem_of_lookup_2 _ _ _ Hi) as Hin. apply avail_idx_spec in Hin as (n & Hn & Hav).
  exists i, n. split_and!; [|done..].
  assert (Hp : pick now ip p = Ret (Some i, p)).
  { rewrite pick_settled, Est by done. cbv zeta. fold idx. by rewrite Hi. }
  induction k as [|k IH]; [done|]. cbn [picks]. rewrite Hp. cbn [mbind outcome_bind]. by rewrite IH.
Qed.

(** a pool with an available node always serves it.  Under every strategy,
    [pick] on settled nodes returns a node that is available and changes no
    node. *)
Theorem pick_available now ip p :
  pool_ok now p → avail_idx now (nodes p) ≠ [] →
  ∃ i n p', pick now ip p = Ret (Some i, p') ∧ nodes p' = nodes p
    ∧ nodes p !! i = Some n ∧ avail now n = true.
Proof.
  intros [Hs Hw Ht Hc] Ha.
  assert (Hm : (length (avail_idx now (nodes p)) ≠ 0)%nat) by (by destruct (avail_idx now (nodes p))).
  assert (Hix : ∀ z, ∃ i n, avail_idx now (nodes p) !!
                 Z.to_nat (z mod Z.of_nat (length (avail_idx now (nodes p)))) = Some i
                 ∧ nodes p !! i = Some n ∧ avail now n = true).
  { intros z. pose proof (Z.mod_pos_bound z (Z.of_nat (length (avail_idx now (nodes p))))) as Hb.
    destruct (lookup_lt_is_Some_2 (avail_idx now (nodes p))
      (Z.to_nat (z mod Z.of_nat (length (avail_idx now (nodes p)))))) as [i Hi]; [lia|].
    pose proof (list_elem_of_lookup_2 _ _ _ Hi) as (n & ? & ?)%avail_idx_spec. eauto. }
  destruct (strategy p) eqn:Est.
  - destruct (Hix (rr_counter p)) as (i & n & Hi & ? & ?).
    exists i, n. eexists. rewrite pick_settled, Est by done. cbv zeta. by rewrite Hi.
  - rewrite pick_settled, Est by done. cbv zeta. rewrite sum_weights_settled by (auto; lia).
    cbn [mbind outcome_bind]. rewrite Z.add_0_l.
    destruct (Z.eqb_spec (Z.of_nat (length (weight_slots now (nodes p)))) 0) as [Hz|Hz].
    + rewrite nth_available_settled by done.
      destruct (Hix 0) as (i & n & Hi & ? & ?). rewrite Z.mod_0_l in Hi by lia. change (Z.to_nat 0) with 0%nat in Hi.
      exists i, n. eexists. rewrite Hi. split_and!; [reflexivity|by destruct p|done|done].
    + set (t := wrap32 (rr_counter p) mod _).
      assert (Hrange : 0 ≤ t < Z.of_nat (length (weight_slots now (nodes p)))) by (apply Z.mod_pos_bound; lia).
      rewrite weighted_loop_settled by (auto; lia). cbn [mbind outcome_bind]. rewrite Z.sub_0_r.
      destruct (lookup_lt_is_Some_2 (weight_slots now (nodes p)) (Z.to_nat t)) as [i Hi]; [lia|].
      pose proof (list_elem_of_lookup_2 _ _ _ Hi) as (n & ? & ?)%weight_slots_spec.
      exists i, n. eexists. rewrite Hi. done.
  - destruct (least_min_ex now p Ha) as (i & n & Hi & ? & ? & _).
    exists i, n. eexists. rewrite pick_settled, Est by done. cbv zeta. by rewrite Hi.
  - destruct (Hix (simple_hash (default (lit "0.0.0.0") ip))) as (i & n & Hi & ? & ?).
    exists i, n. eexists. rewrite pick_settled, Est by done. cbv zeta. by rewrite Hi.
Qed.

(** ** No available node *)

Fixpoint healthy_idx (ns : list NodeState) : list nat :=
  match ns with
  | [] => []
  | n :: ns => let rest := S <$> healthy_idx ns in if is_healthy n then 0%nat :: rest else rest
  end.

Lemma nth_healthy_idx ns k : nth_healthy k ns = healthy_idx ns !! k.
Proof.
  revert k; induction ns as [|n ns IH]; intros k; [done|]. cbn [nth_healthy healthy_idx].
  destruct (is_healthy n); [destruct k as [|k]; [done|]|]; rewrite IH;
    symmetry; apply (list_lookup_fmap S).
Qed.

Lemma healthy_idx_length ns :
  length (filter (λ n, is_healthy n = true) ns) = length (healthy_idx ns).
Proof.
  induction ns as [|n ns IH]; [done|]. cbn [healthy_idx]. rewrite filter_cons.
  destruct (is_healthy n); [rewrite decide_True by done|rewrite decide_False by done];
    cbn [length]; rewrite ?length_fmap, IH; done.
Qed.

Lemma healthy_idx_spec ns i :
  i ∈ healthy_idx ns → ∃ n, ns !! i = Some n ∧ is_healthy n = true.
Proof.
  revert i; induction ns as [|n ns IH]; intros i; cbn [healthy_idx]; [by intros ?%not_elem_of_nil|].
  assert (Hr : i ∈ S <$> healthy_idx ns → ∃ m, (n :: ns) !! i = Some m ∧ is_healthy m = true).
  { rewrite list_elem_of_fmap. intros (j & -> & Hj). apply IH in Hj. done. }
  destruct (is_healthy n) eqn:E; [|done]. rewrite elem_of_cons. intros [->|?]; [by exists n|auto].
Qed.

Lemma healthy_idx_complete ns i n :
  ns !! i = Some n → is_healthy n = true → healthy_idx ns ≠ [].
Proof.
  revert i; induction ns as [|m ns IH]; intros [|i] Hi Hn; try done; cbn [healthy_idx].
  - injection Hi as ->. by rewrite Hn.
  - destruct (is_healthy m); [done|]. specialize (IH _ Hi Hn). by destruct (healthy_idx ns).
Qed.

(** degraded mode never refuses.  When no node is available, a non-empty
    pool still returns a node, a healthy one as long as there is one, and
    moves the counter. *)
Theorem pick_degraded now ip p :
  Forall (settled now) (nodes p) → avail_idx now (nodes p) = [] → nodes p ≠ [] →
  ∃ i n, pick now ip p = Ret (Some i, set_rr (wrap64 (rr_counter p + 1)) p)
    ∧ nodes p !! i = Some n
    ∧ (is_healthy n = true ∨ Forall (λ m, is_healthy m = false) (nodes p)).
Proof.
  intros Hs Ha Hne. unfold pick. rewrite scan_all_settled by done.
  rewrite set_nodes_id, count_true_avail, Ha. cbn [length Z.of_nat Z.eqb]. cbv zeta.
  rewrite healthy_idx_length. destruct (Z.ltb_spec 0 (Z.of_nat (length (healthy_idx (nodes p))))) as [H|H].
  - rewrite nth_healthy_idx.
    pose proof (Z.mod_pos_bound (rr_counter p) _ H).
    destruct (lookup_lt_is_Some_2 (healthy_idx (nodes p))
      (Z.to_nat (rr_counter p mod Z.of_nat (length (healthy_idx (nodes p)))))) as [i Hi]; [lia|].
    pose proof (list_elem_of_lookup_2 _ _ _ Hi) as (n & ? & ?)%healthy_idx_spec.
    exists i, n. rewrite Hi. auto.
  - assert (Hl : 0 < Z.of_nat (length (nodes p))) by (destruct (nodes p); [done|cbn; lia]).
    pose proof (Z.mod_pos_bound (rr_counter p) _ Hl).
    destruct (lookup_lt_is_Some_2 (nodes p)
      (Z.to_nat (rr_counter p mod Z.of_nat (length (nodes p))))) as [n Hn]; [lia|].
    eexists _, n. split_and!; [|exact Hn|].
    + by destruct (nodes p).
    + right. apply Forall_forall. intros m [j Hj]%list_elem_of_lookup_1.
      destruct (is_healthy m) eqn:Em; [|done]. exfalso.
      pose proof (healthy_idx_complete _ _ _ Hj Em). destruct (healthy_idx (nodes p)); [done|cbn in H; lia].
Qed.

(** ** The half-open probe

    [pick] asks every node once to count, and again to choose.  The breaker
    admits the probe on the first question and refuses it on the second. *)

(** A healthy node whose breaker is in state [st]. *)
Definition breaker_in (st : Z) (n : NodeState) : Prop :=
  is_healthy n = true ∧ ∃ cb, circuit_breaker n = Some cb ∧ cb_state cb = st.

Definition probe_due (now : Z) (n : NodeState) : Prop :=
  is_healthy n = true ∧ ∃ cb, circuit_breaker n = Some cb ∧ cb_state cb = CB_OPEN
    ∧ fail_timeout cb ≤ sat_sub now (open_since cb).

Lemma half_open_refused now n : breaker_in CB_HALF_OPEN n → is_available now n = (false, n).
Proof.
  intros [Hh (cb & Hcb & Hst)]. unfold is_available. rewrite Hh, Hcb. cbn [negb].
  rewrite allow_half_open by done. unfold set_breaker. destruct n; cbn in *. by subst.
Qed.

Lemma closed_admitted now n : breaker_in CB_CLOSED n → is_available now n = (true, n).
Proof.
  intros [Hh (cb & Hcb & Hst)]. unfold is_available. rewrite Hh, Hcb. cbn [negb].
  rewrite allow_closed by done. unfold set_breaker. destruct n; cbn in *. by subst.
Qed.

Lemma probe_due_admitted now n :
  probe_due now n → ∃ n', is_available now n = (true, n') ∧ breaker_in CB_HALF_OPEN n'.
Proof.
  intros [Hh (cb & Hcb & Hst & Hto)]. unfold is_available. rewrite Hh, Hcb. cbn [negb].
  rewrite allow_open, (proj2 (Z.leb_le _ _)) by done.
  eexists. split; [reflexivity|]. split; [done|]. eexists. split; [reflexivity|done].
Qed.

(** Scans leave a half-open node alone and do not return it. *)
Lemma scan_all_lookup now ns i n :
  ns !! i = Some n →
  fst (scan_all now ns) !! i = Some (fst (is_available now n))
  ∧ snd (scan_all now ns) !! i = Some (snd (is_available now n)).
Proof.
  revert i; induction ns as [|m ns IH]; intros [|i] Hi; try done; cbn [scan_all];
    destruct (is_available now m) as [b m'] eqn:E; destruct (scan_all now ns) as [bs ns'] eqn:Es.
  - injection Hi as ->. by rewrite E.
  - apply IH in Hi. done.
Qed.

Lemma nth_available_half_open now k ns i n r ns' :
  ns !! i = Some n → breaker_in CB_HALF_OPEN n → nth_available now k ns = (r, ns') →
  ns' !! i = Some n ∧ r ≠ Some i.
Proof.
  revert k i r ns'; induction ns as [|m ns IH]; intros k [|i] r ns' Hi Hn Hr; try done; cbn [nth_available] in Hr.
  - injection Hi as ->. rewrite half_open_refused in Hr by done.
    destruct (nth_available now k ns) as [[j|] ns1]; simplify_eq/=; done.
  - destruct (is_available now m) as [[] m'].
    + destruct k as [|k]; [simplify_eq/=; done|].
      destruct (nth_available now k ns) as [r1 ns1] eqn:E. eapply IH in E as [? ?]; eauto.
      destruct r1; simplify_eq/=; split; congruence.
    + destruct (nth_available now k ns) as [r1 ns1] eqn:E. eapply IH in E as [? ?]; eauto.
      destruct r1; simplify_eq/=; split; congruence.
Qed.

Lemma sum_weights_half_open now acc ns i n t ns' :
  ns !! i = Some n → breaker_in CB_HALF_OPEN n → sum_weights now acc ns = Ret (t, ns') →
  ns' !! i = Some n.
Proof.
  revert acc i t ns'; induction ns as [|m ns IH]; intros acc [|i] t ns' Hi Hn Hr; try done;
    cbn [sum_weights] in Hr; destruct (is_available now m) as [b m'] eqn:E;
    apply outcome_bind_ret in Hr as (acc' & _ & Hr);
    apply outcome_bind_ret in Hr as ([t1 ns1] & H1 & Hr); injection Hr as <- <-.
  - injection Hi as ->. rewrite half_open_refused in E by done. by injection E as _ <-.
  - eapply IH in H1; eauto.
Qed.

Lemma weighted_loop_half_open now target cum ns i n r ns' :
  ns !! i = Some n → breaker_in CB_HALF_OPEN n → weighted_loop now target cum ns = Ret (r, ns') →
  ns' !! i = Some n ∧ r ≠ Some i.
Proof.
  revert cum i r ns'; induction ns as [|m ns IH]; intros cum [|i] r ns' Hi Hn Hr; try done;
    cbn [weighted_loop] in Hr.
  - injection Hi as ->. rewrite half_open_refused in Hr by done.
    apply outcome_bind_ret in Hr as ([[j|] ns1] & H1 & Hr); simplify_eq/=; done.
  - destruct (is_available now m) as [[] m'].
    + apply outcome_bind_ret in Hr as (c & _ & Hr). destruct (target <? c); [simplify_eq/=; done|].
      apply outcome_bind_ret in Hr as ([r1 ns1] & H1 & Hr). eapply IH in H1 as [? ?]; eauto.
      destruct r1; simplify_eq/=; split; congruence.
    + apply outcome_bind_ret in Hr as ([r1 ns1] & H1 & Hr). eapply IH in H1 as [? ?]; eauto.
      destruct r1; simplify_eq/=; split; congruence.
Qed.

Lemma last_true_spec bs i : last_true bs = Some i → bs !! i = Some true.
Proof.
  revert i; induction bs as [|b bs IH]; intros i; cbn [last_true]; [done|].
  destruct (last_true bs); intros H; [injection H as <-; cbn; auto|].
  destruct b; [by injection H as <-|done].
Qed.

Lemma min_active_true bs ns i a : min_active bs ns = Some (i, a) → bs !! i = Some true.
Proof.
  revert ns i a; induction bs as [|b bs IH]; intros [|n ns] i a; cbn [min_active]; try done.
  destruct (min_active bs ns) as [[j c]|] eqn:E; cbn; destruct b; repeat case_match; intros; simplify_eq/=; eauto.
Qed.

Lemma scan_all_half_open now ns i n :
  ns !! i = Some n → breaker_in CB_HALF_OPEN n →
  fst (scan_all now ns) !! i = Some false ∧ snd (scan_all now ns) !! i = Some n.
Proof.
  intros Hi Hn. pose proof (scan_all_lookup now _ _ _ Hi) as H.
  by rewrite half_open_refused in H.
Qed.

Lemma count_true_pos bs j : bs !! j = Some true → (0 < count_true bs)%nat.
Proof.
  intros Hj. unfold count_true. destruct (filter _ bs) eqn:E; [|cbn; lia].
  assert (Hin : true ∈ filter (λ b, b = true) bs).
  { apply list_elem_of_filter. split; [done|]. by eapply list_elem_of_lookup_2. }
  rewrite E in Hin. by apply not_elem_of_nil in Hin.
Qed.

(** Once the counting scan has left node [i] half-open and found any node
    available, [i] is not the answer and stays half-open. *)
Lemma pick_skips_half_open now ip p i n j r p' :
  snd (scan_all now (nodes p)) !! i = Some n → breaker_in CB_HALF_OPEN n →
  fst (scan_all now (nodes p)) !! j = Some true →
  pick now ip p = Ret (r, p') → r ≠ Some i ∧ nodes p' !! i = Some n.
Proof.
  intros Hi Hn Hj. unfold pick. destruct (scan_all now (nodes p)) as [bs ns]. cbn [fst snd] in *.
  apply count_true_pos in Hj. rewrite (proj2 (Z.eqb_neq _ _)) by lia. cbv zeta.
  set (q := set_nodes ns p). replace (strategy q) with (strategy p) by done. destruct (strategy p).
  - destruct (nth_available _ _ ns) as [r1 ns1] eqn:E. intros [= <- <-].
    eapply nth_available_half_open in E as [? ?]; eauto.
  - intros ([t ns1] & H1 & H)%outcome_bind_ret. eapply sum_weights_half_open in H1; eauto.
    destruct (t =? 0).
    + destruct (nth_available _ _ ns1) as [r1 ns2] eqn:E. injection H as <- <-.
      eapply nth_available_half_open in E as [? ?]; eauto.
    + apply outcome_bind_ret in H as ([r1 ns2] & H2 & H).
      eapply weighted_loop_half_open in H2 as [H2 Hne]; eauto.
      destruct r1 as [k|]; [injection H as <- <-; done|].
      pose proof (scan_all_half_open now _ _ _ H2 Hn) as [Hf Hs].
      destruct (scan_all now ns2) as [bs3 ns3]. injection H as <- <-. split; [|done].
      intros Hl%last_true_spec. cbn in Hf. congruence.
  - pose proof (scan_all_half_open now _ _ _ Hi Hn) as [Hf Hs].
    destruct (scan_all now ns) as [bs1 ns1]. intros [= <- <-]. split; [|done].
    destruct (min_active bs1 ns1) as [[k a]|] eqn:E; [|done]. cbn. intros [= ->].
    apply min_active_true in E. cbn in Hf. congruence.
  - destruct (nth_available _ _ ns) as [r1 ns1] eqn:E. intros [= <- <-].
    eapply nth_available_half_open in E as [? ?]; eauto.
Qed.

(** the probe is discarded.  When the breaker of node [i] is open and its
    timeout has elapsed, the [pick] that turns it half-open never returns node
    [i], under any strategy: the probing request goes to another node or is
    answered with an error. *)
Theorem probe_is_discarded now ip p i n r p' :
  nodes p !! i = Some n → probe_due now n → pick now ip p = Ret (r, p') →
  r ≠ Some i ∧ ∃ n', nodes p' !! i = Some n' ∧ breaker_in CB_HALF_OPEN n'.
Proof.
  intros Hi Hn Hp. apply probe_due_admitted in Hn as (n' & Ha & Hh).
  pose proof (scan_all_lookup now _ _ _ Hi) as [Hf Hs]. rewrite Ha in Hf, Hs.
  eapply pick_skips_half_open in Hp as [? ?]; eauto.
Qed.

(** Picks at arbitrary later times, interleaved with nothing that touches
    node [i]; the other nodes may be replaced between two picks. *)
Inductive serves (i : nat) (n : NodeState) : UpstreamPool → list (option nat) → Prop :=
| serves_nil p : serves i n p []
| serves_cons now ip p p1 p2 r rs :
    pick now ip p = Ret (r, p1) →
    (∃ j m, nodes p !! j = Some m ∧ breaker_in CB_CLOSED m) →
    nodes p2 !! i = nodes p1 !! i →
    serves i n p2 rs →
    serves i n p (r :: rs).

(** a half-open node starves.  As long as some other node of the pool is
    closed, no pick ever returns a half-open node, so no request can report
    its recovery and it stays half-open. *)
Theorem half_open_starves i n p rs :
  nodes p !! i = Some n → breaker_in CB_HALF_OPEN n → serves i n p rs → Some i ∉ rs.
Proof.
  intros Hi Hn Hs. induction Hs as [p|now ip p p1 p2 r rs Hp (j & m & Hj & Hm) Heq _ IH].
  { apply not_elem_of_nil. }
  pose proof (scan_all_half_open now _ _ _ Hi Hn) as [_ Hh].
  pose proof (scan_all_lookup now _ _ _ Hj) as [Hc _]. rewrite closed_admitted in Hc by done.
  eapply pick_skips_half_open in Hp as [Hne Hi1]; eauto.
  rewrite not_elem_of_cons. split; [congruence|]. apply IH. congruence.
Qed.

(** ** Health transitions *)

(** three strikes.  Three failures in a row with no success in between mark
    a node without breaker unhealthy, two do not, and one success restores it
    with a clean counter, from any state. *)
Theorem node_health_cycle now n :
  circuit_breaker n = None → healthy n = 1 → fail_count n = 0 →
  (∃ n2 n3, (n1 ← node_record_failure now n; node_record_failure now n1) = Ret n2 ∧ is_healthy n2 = true
     ∧ node_record_failure now n2 = Ret n3 ∧ is_healthy n3 = false)
  ∧ ∀ m, circuit_breaker m = None → 0 ≤ fail_count m →
      is_healthy (node_record_success now m) = true ∧ fail_count (node_record_success now m) = 0.
Proof.
  intros Hcb Hh Hf. split.
  - destruct n; cbn in *; subst. eexists _, _. split_and!; reflexivity.
  - intros m Hm Hge. unfold node_record_success.
    destruct (Z.ltb_spec 0 (fail_count m)); unfold is_healthy; cbn [healthy set_health];
      destruct (Z.eqb_spec (healthy m) 1); cbn [circuit_breaker set_health mark_healthy healthy fail_count];
      rewrite ?Hm; cbn; rewrite ?Hm; split; rewrite ?Z.eqb_eq; try done; lia.
Qed.

(** ** Witnesses *)

Module Witness.

Definition node (w act : Z) (st : Z) : NodeState :=
  mkNode (Tcp (lit "a:80")) w 1 act 0 false [] false None false 0
    (Some (mkCB st 0 0 10 3 60 30)).
Definition pool (s : LoadBalanceStrategy) (c : Z) (ns : list NodeState) : UpstreamPool :=
  mkPool ns s c 0 0 0 10 60 60 1 0 0.
Definition three : list NodeState := [node 2 5 CB_CLOSED; node 1 1 CB_OPEN; node 3 1 CB_CLOSED].

Lemma ok s c : 0 ≤ c → pool_ok 20 (pool s c three).
Proof. intros; split; [repeat constructor; vm_compute; congruence..|vm_compute; congruence|done]. Qed.

Lemma round_robin_fair_witness :
  ∃ rs, picks 20 None 2 (pool RoundRobin 7 three) = Ret (rs, pool RoundRobin 9 three)
    ∧ rs ≡ₚ [Some 0%nat; Some 2%nat].
Proof.
  apply (round_robin_fair 20 None (pool RoundRobin 7 three)); [done|apply ok; lia|done|done].
Defined.

Lemma weighted_exact_witness :
  ∃ rs, picks 20 None 5 (pool Weighted 7 three) = Ret (Some <$> rs, pool Weighted 12 three)
    ∧ ∀ i n, three !! i = Some n → occ i rs = if avail 20 n then Z.to_nat (weight n) else 0%nat.
Proof.
  apply (weighted_exact 20 None (pool Weighted 7 three)); [done|apply ok; lia|done|done].
Defined.

Lemma least_conn_minimal_witness :
  ∃ i n, pick 20 None (pool LeastConn 0 three) = Ret (Some i, pool LeastConn 0 three)
    ∧ three !! i = Some n ∧ avail 20 n = true
    ∧ (∀ j m, three !! j = Some m → avail 20 m = true → active_connections n ≤ active_connections m)
    ∧ (∀ j m, (j < i)%nat → three !! j = Some m → avail 20 m = true →
         active_connections n < active_connections m).
Proof.
  apply (least_conn_minimal 20 None (pool LeastConn 0 three)); [done|apply (ok LeastConn 0); lia|done].
Defined.

Lemma ip_hash_sticky_witness :
  ∃ i n, picks 20 (Some (lit "192.168.1.100")) 10 (pool IpHash 0 three)
      = Ret (replicate 10 (Some i), pool IpHash 0 three)
    ∧ three !! i = Some n ∧ avail 20 n = true.
Proof.
  apply (ip_hash_sticky 20 (Some (lit "192.168.1.100")) (pool IpHash 0 three) 10);
    [done|apply (ok IpHash 0); lia|done].
Defined.

Lemma pick_available_witness :
  ∃ i n p', pick 20 None (pool Weighted 4 three) = Ret (Some i, p') ∧ nodes p' = three
    ∧ three !! i = Some n ∧ avail 20 n = true.
Proof. apply (pick_available 20 None (pool Weighted 4 three)); [apply ok; lia|done]. Defined.

Lemma pick_degraded_witness :
  ∃ i n, pick 20 None (pool RoundRobin 4 [node 1 0 CB_OPEN]) = Ret (Some i, pool RoundRobin 5 [node 1 0 CB_OPEN])
    ∧ [node 1 0 CB_OPEN] !! i = Some n
    ∧ (is_healthy n = true ∨ Forall (λ m, is_healthy m = false) [node 1 0 CB_OPEN]).
Proof.
  apply (pick_degraded 20 None (pool RoundRobin 4 [node 1 0 CB_OPEN])); [|done|done].
  repeat constructor.
Defined.

(** A single node: the request that should probe it gets no node at all. *)
Lemma probe_is_discarded_witness :
  pick 100 None (pool RoundRobin 0 [node 1 0 CB_OPEN]) = Ret (None, pool RoundRobin 1 [node 1 0 CB_HALF_OPEN])
  ∧ (None : option nat) ≠ Some 0%nat
  ∧ ∃ n', nodes (pool RoundRobin 1 [node 1 0 CB_HALF_OPEN]) !! 0%nat = Some n' ∧ breaker_in CB_HALF_OPEN n'.
Proof.
  split; [reflexivity|].
  apply (probe_is_discarded 100 None (pool RoundRobin 0 [node 1 0 CB_OPEN]) 0 (node 1 0 CB_OPEN));
    [done| |reflexivity].
  split; [done|]. eexists. split; [reflexivity|]. split; [done|vm_compute; congruence].
Defined.

Lemma half_open_starves_witness :
  Some 0%nat ∉ [Some 1%nat; Some 1%nat].
Proof.
  set (ns := [node 1 0 CB_HALF_OPEN; node 1 0 CB_CLOSED]).
  apply (half_open_starves 0 (node 1 0 CB_HALF_OPEN) (pool RoundRobin 0 ns)); [done| |].
  { split; [done|]. eexists; split; reflexivity. }
  assert (Hc : ∀ c, ∃ j m, nodes (pool RoundRobin c ns) !! j = Some m ∧ breaker_in CB_CLOSED m).
  { intros c. exists 1%nat, (node 1 0 CB_CLOSED). split; [done|]. split; [done|]. eexists; split; reflexivity. }
  eapply (serves_cons _ _ 50 None _ (pool RoundRobin 1 ns) (pool RoundRobin 1 ns));
    [reflexivity|apply Hc|done|].
  eapply (serves_cons _ _ 1000 None _ (pool RoundRobin 2 ns) (pool RoundRobin 2 ns));
    [reflexivity|apply Hc|done|]. constructor.
Defined.

Lemma node_health_cycle_witness :
  let n := mkNode (Tcp (lit "a:80")) 1 1 0 0 false [] false None false 0 None in
  (∃ n2 n3, (n1 ← node_record_failure 0 n; node_record_failure 0 n1) = Ret n2 ∧ is_healthy n2 = true
     ∧ node_record_failure 0 n2 = Ret n3 ∧ is_healthy n3 = false)
  ∧ ∀ m, circuit_breaker m = None → 0 ≤ fail_count m →
      is_healthy (node_record_success 0 m) = true ∧ fail_count (node_record_success 0 m) = 0.
Proof.
  intros n. apply (node_health_cycle 0 n); reflexivity.
Defined.

End Witness.
