(* ===== verification/ProxyProtocol.v ===== *)
(** * PROXY protocol: [src/handler/reverse_proxy/proxy_protocol.rs]

    Encoder and parser of the v1 text header and the v2 binary header.  The
    encoders write into fixed stack buffers ([copy_at] panics past the end),
    the parser indexes the received bytes ([index], [slice] panic likewise). *)

From S2P Require Import Prelude RustStr IpAddr.

Definition V2_SIGNATURE : list Z := [13; 10; 13; 10; 0; 13; 10; 81; 85; 73; 84; 10].
Definition V2_VERSION_COMMAND_PROXY : Z := 33.
Definition V2_VERSION_COMMAND_LOCAL : Z := 32.
Definition V2_AF_INET_STREAM : Z := 17.
Definition V2_AF_INET6_STREAM : Z := 33.
Definition V1_MAX_HEADER_LEN : nat := 108.

Inductive ProxyHeader :=
| Proxy (src dst : SocketAddr)
| Local.

Definition src_addr (h : ProxyHeader) : option SocketAddr :=
  match h with Proxy src _ => Some src | Local => None end.
Definition src_ip_str (h : ProxyHeader) : option (list Z) :=
  (λ a, display_ip (sa_ip a)) <$> src_addr h.

(** ** Encoders *)

(** [write_u8], [write_u16], [write_ip]: the bytes written. *)
Definition write_u8 (val : Z) : list Z :=
  if 100 <=? val then [48 + val / 100; 48 + (val / 10) mod 10; 48 + val mod 10]
  else if 10 <=? val then [48 + val / 10; 48 + val mod 10]
  else [48 + val].

Definition write_u16 (val : Z) : list Z :=
  if 10000 <=? val then
    [48 + val / 10000; 48 + (val / 1000) mod 10; 48 + (val / 100) mod 10; 48 + (val / 10) mod 10; 48 + val mod 10]
  else if 1000 <=? val then
    [48 + val / 1000; 48 + (val / 100) mod 10; 48 + (val / 10) mod 10; 48 + val mod 10]
  else if 100 <=? val then [48 + val / 100; 48 + (val / 10) mod 10; 48 + val mod 10]
  else if 10 <=? val then [48 + val / 10; 48 + val mod 10]
  else [48 + val].

Fixpoint write_octets (first : bool) (os : list Z) : list Z :=
  match os with
  | [] => []
  | o :: os => (if first then [] else [byte_dot]) ++ write_u8 o ++ write_octets false os
  end.

Definition write_ip (ip : IpAddr) : list Z :=
  match ip with
  | V4 a => write_octets true (octets4 a)
  | V6 a => display_v6 a
  end.

(** A write at the cursor, which then moves past it. *)
Definition emit (bs : list Z) (st : list Z * nat) : outcome (list Z * nat) :=
  let '(buf, pos) := st in
  buf' ← copy_at buf pos bs; Ret (buf', (pos + length bs)%nat).

Definition encode_v1 (src dst : SocketAddr) : outcome (list Z * nat) :=
  let buf := replicate V1_MAX_HEADER_LEN 0 in
  st ← emit (lit "PROXY ") (buf, 0%nat);
  match (match sa_ip src, sa_ip dst with
         | V4 _, V4 _ => Some (lit "TCP4 ")
         | V6 _, V6 _ => Some (lit "TCP6 ")
         | _, _ => None
         end) with
  | None => emit (lit "UNKNOWN" ++ [CR; LF]) st
  | Some proto =>
      st ← emit proto st;
      st ← emit (write_ip (sa_ip src)) st;
      st ← emit [SP] st;
      st ← emit (write_ip (sa_ip dst)) st;
      st ← emit [SP] st;
      st ← emit (write_u16 (sa_port src)) st;
      st ← emit [SP] st;
      st ← emit (write_u16 (sa_port dst)) st;
      emit [CR; LF] st
  end.

Definition encode_v2 (src dst : SocketAddr) : outcome (list Z * nat) :=
  let buf := replicate 52 0 in
  buf ← copy_at buf 0 V2_SIGNATURE;
  buf ← copy_at buf 12 [V2_VERSION_COMMAND_PROXY];
  match sa_ip src, sa_ip dst with
  | V4 src_ip, V4 dst_ip =>
      buf ← copy_at buf 13 [V2_AF_INET_STREAM];
      buf ← copy_at buf 14 [0];
      buf ← copy_at buf 15 [12];
      buf ← copy_at buf 16 (octets4 src_ip);
      buf ← copy_at buf 20 (octets4 dst_ip);
      buf ← copy_at buf 24 (to_be_bytes16 (sa_port src));
      buf ← copy_at buf 26 (to_be_bytes16 (sa_port dst));
      Ret (buf, 28%nat)
  | V6 src_ip, V6 dst_ip =>
      buf ← copy_at buf 13 [V2_AF_INET6_STREAM];
      buf ← copy_at buf 14 [0];
      buf ← copy_at buf 15 [36];
      buf ← copy_at buf 16 (octets16 src_ip);
      buf ← copy_at buf 32 (octets16 dst_ip);
      buf ← copy_at buf 48 (to_be_bytes16 (sa_port src));
      buf ← copy_at buf 50 (to_be_bytes16 (sa_port dst));
      Ret (buf, 52%nat)
  | _, _ =>
      buf ← copy_at buf 12 [V2_VERSION_COMMAND_LOCAL];
      buf ← copy_at buf 13 [0];
      buf ← copy_at buf 14 [0];
      buf ← copy_at buf 15 [0];
      Ret (buf, 16%nat)
  end.

(** ** Parser *)

Inductive InvalidReason :=
| BadFormat | V1TooLong | V1NotUtf8 | V1FieldCount | V1SrcIp | V1DstIp | V1SrcPort | V1DstPort
| V2Version | V2Command | V2ShortV4 | V2ShortV6.

Inductive ParseError :=
| Incomplete
| Invalid (why : InvalidReason).

Notation parsed := (result (ProxyHeader * nat) ParseError).

Definition parse_v1 (buf : list Z) : outcome parsed :=
  match find_pair CR LF buf with
  | None => Ret (Err (if (length buf <? V1_MAX_HEADER_LEN)%nat then Incomplete else Invalid V1TooLong))
  | Some header_end =>
      line ← slice buf 6 header_end;
      if negb (utf8_valid line) then Ret (Err (Invalid V1NotUtf8))
      else if starts_with (lit "UNKNOWN") line then Ret (Ok (Local, (header_end + 2)%nat))
      else match splitn_byte 5 SP line with
      | [_; p1; p2; p3; p4] =>
          match parse_ip p1 with
          | None => Ret (Err (Invalid V1SrcIp))
          | Some src_ip =>
          match parse_ip p2 with
          | None => Ret (Err (Invalid V1DstIp))
          | Some dst_ip =>
          match parse_uint u16_max p3 with
          | None => Ret (Err (Invalid V1SrcPort))
          | Some src_port =>
          match parse_uint u16_max p4 with
          | None => Ret (Err (Invalid V1DstPort))
          | Some dst_port =>
              Ret (Ok (Proxy (mkSocketAddr src_ip src_port) (mkSocketAddr dst_ip dst_port),
                       (header_end + 2)%nat))
          end end end end
      | _ => Ret (Err (Invalid V1FieldCount))
      end
  end.

Definition parse_v2 (buf : list Z) : outcome parsed :=
  if (length buf <? 16)%nat then Ret (Err Incomplete)
  else
    ver_cmd ← index buf 12;
    let version := Z.shiftr ver_cmd 4 in
    let command := Z.land ver_cmd 15 in
    if negb (version =? 2) then Ret (Err (Invalid V2Version))
    else
      b13 ← index buf 13;
      let addr_family := Z.shiftr b13 4 in
      b14 ← index buf 14;
      b15 ← index buf 15;
      let addr_len := from_be_bytes16 b14 b15 in
      let total_len := 16 + addr_len in
      if Z.of_nat (length buf) <? total_len then Ret (Err Incomplete)
      else if command =? 0 then Ret (Ok (Local, Z.to_nat total_len))
      else if negb (command =? 1) then Ret (Err (Invalid V2Command))
      else if addr_family =? 1 then
        if addr_len <? 12 then Ret (Err (Invalid V2ShortV4))
        else
          src_ip ← slice buf 16 20;
          dst_ip ← slice buf 20 24;
          p0 ← index buf 24; p1 ← index buf 25; p2 ← index buf 26; p3 ← index buf 27;
          Ret (Ok (Proxy (mkSocketAddr (V4 (be_value src_ip)) (from_be_bytes16 p0 p1))
                         (mkSocketAddr (V4 (be_value dst_ip)) (from_be_bytes16 p2 p3)),
                   Z.to_nat total_len))
      else if addr_family =? 2 then
        if addr_len <? 36 then Ret (Err (Invalid V2ShortV6))
        else
          src_ip ← slice buf 16 32;
          dst_ip ← slice buf 32 48;
          p0 ← index buf 48; p1 ← index buf 49; p2 ← index buf 50; p3 ← index buf 51;
          Ret (Ok (Proxy (mkSocketAddr (V6 (be_value src_ip)) (from_be_bytes16 p0 p1))
                         (mkSocketAddr (V6 (be_value dst_ip)) (from_be_bytes16 p2 p3)),
                   Z.to_nat total_len))
      else Ret (Ok (Local, Z.to_nat total_len)).

Definition parse (buf : list Z) : outcome parsed :=
  let len := length buf in
  if (len <? 8)%nat then Ret (Err Incomplete)
  else if (16 <=? len)%nat && str_eqb (take 12 buf) V2_SIGNATURE then parse_v2 buf
  else if (len <? 16)%nat && (12 <=? len)%nat && str_eqb (take 12 buf) V2_SIGNATURE then Ret (Err Incomplete)
  else if (len <? 12)%nat && starts_with buf V2_SIGNATURE then Ret (Err Incomplete)
  else if starts_with (lit "PROXY ") buf then parse_v1 buf
  else Ret (Err (Invalid BadFormat)).

Example encode_v1_example :
  encode_v1 (mkSocketAddr (V4 3232235876) 12345) (mkSocketAddr (V4 167772161) 80)
  = Ret (lit "PROXY TCP4 192.168.1.100 10.0.0.1 12345 80" ++ [CR; LF] ++ replicate 64 0, 44%nat).
Proof. vm_compute. reflexivity. Qed.
Example parse_unknown : parse (lit "PROXY UNKNOWN" ++ [CR; LF]) = Ret (Ok (Local, 15%nat)).
Proof. vm_compute. reflexivity. Qed.

(** ** The buffers are large enough *)

(** A buffer of [n] bytes whose first bytes are [w], the rest still zero. *)
Definition filled (n : nat) (w : list Z) : list Z := w ++ replicate (n - length w) 0.

Lemma emit_filled n w bs :
  (length w + length bs ≤ n)%nat →
  emit bs (filled n w, length w) = Ret (filled n (w ++ bs), length (w ++ bs)).
Proof.
  intros Hle. unfold emit, copy_at, filled. rewrite length_app, length_replicate.
  rewrite (proj2 (Nat.leb_le _ _)) by lia. cbn [mbind outcome_bind].
  rewrite take_app_length, length_app. rewrite drop_app_ge by lia. rewrite drop_replicate.
  rewrite <- app_assoc. do 5 f_equal. lia.
Qed.

Lemma emit_start n bs :
  (length bs ≤ n)%nat → emit bs (replicate n 0, 0%nat) = Ret (filled n bs, length bs).
Proof.
  intros Hle. pose proof (emit_filled n [] bs Hle) as H. unfold filled at 1 in H.
  cbn [length app] in H. by rewrite Nat.sub_0_r in H.
Qed.

Lemma write_u8_dec v : is_u8 v → write_u8 v = dec v.
Proof.
  unfold is_u8, u8_max. intros Hv.
  assert (forallb (λ v, str_eqb (write_u8 v) (dec v)) (Z.of_nat <$> seq 0 256) = true) as H
    by (vm_compute; reflexivity).
  rewrite forallb_forall in H. apply str_eqb_eq, H, list_elem_of_In, list_elem_of_fmap.
  exists (Z.to_nat v). rewrite elem_of_seq. lia.
Qed.

Lemma write_u16_dec v : is_u16 v → write_u16 v = dec v.
Proof.
  unfold is_u16, u16_max, write_u16, dec. intros Hv.
  assert (Hstep : ∀ fuel z, 10 ≤ z → to_decimal (S fuel) z = to_decimal fuel (z / 10) ++ [48 + z mod 10]).
  { intros fuel z Hz. cbn [to_decimal]. by rewrite (proj2 (Z.ltb_ge _ _)). }
  assert (Hlast : ∀ fuel z, z < 10 → to_decimal (S fuel) z = [48 + z]).
  { intros fuel z Hz. cbn [to_decimal]. by rewrite (proj2 (Z.ltb_lt _ _)). }
  repeat match goal with |- context [?n <=? v] => destruct (Z.leb_spec n v) end;
    repeat (rewrite Hstep by (rewrite ?Z.div_div by lia; Z.to_euclidean_division_equations; lia));
    rewrite Hlast by (rewrite ?Z.div_div by lia; Z.to_euclidean_division_equations; lia);
    rewrite ?Z.div_div by lia; reflexivity.
Qed.

Lemma write_ip_v4 a : 0 ≤ a ≤ u32_max → write_ip (V4 a) = display_v4 a.
Proof.
  intros Ha. pose proof (be_bytes_u8 4 a) as Hu. change (be_bytes 4 a) with (octets4 a) in Hu.
  cbn [write_ip]. rewrite display_v4_eq, octets4_eq in *. decompose_Forall_hyps.
  cbn [write_octets]. rewrite !write_u8_dec by done. rewrite app_nil_r. cbn [app].
  by rewrite <- ?app_assoc.
Qed.

Lemma write_u16_length v : (length (write_u16 v) ≤ 5)%nat.
Proof. unfold write_u16. repeat case_test; cbn; lia. Qed.
Lemma write_u8_length v : (length (write_u8 v) ≤ 3)%nat.
Proof. unfold write_u8. repeat case_test; cbn; lia. Qed.

Lemma display_groups_length l : (length (display_groups l) ≤ 5 * length l - 1)%nat.
Proof.
  unfold display_groups. induction l as [|g l IH]; [cbn; lia|].
  pose proof (to_hex_length 4 g). destruct l as [|h l].
  - change (length (to_hex 4 g) ≤ 5 * 1 - 1)%nat. lia.
  - change (join [byte_colon] (to_hex 4 <$> g :: h :: l))
      with (to_hex 4 g ++ [byte_colon] ++ join [byte_colon] (to_hex 4 <$> h :: l)).
    rewrite !length_app. change (length [byte_colon]) with 1%nat. cbn [length] in IH |- *. lia.
Qed.

Lemma length_segments_of n v : length (segments_of n v) = n.
Proof. revert v; induction n as [|n IH]; intros v; cbn; [done|]. rewrite length_app, IH. cbn. lia. Qed.

Lemma write_v4_length a : (length (write_ip (V4 a)) ≤ 15)%nat.
Proof.
  cbn [write_ip]. rewrite octets4_eq. cbn [write_octets].
  pose proof (write_u8_length (a mod 256)). pose proof (write_u8_length (a / 256 mod 256)).
  pose proof (write_u8_length (a / 256 / 256 mod 256)).
  pose proof (write_u8_length (a / 256 / 256 / 256 mod 256)).
  repeat (rewrite length_app; cbn [length]). lia.
Qed.

Lemma display_v4_length a : 0 ≤ a ≤ u32_max → (length (display_v4 a) ≤ 15)%nat.
Proof. intros. rewrite <- write_ip_v4 by done. apply write_v4_length. Qed.

Lemma display_v6_length a : (length (display_v6 a) ≤ 41)%nat.
Proof.
  unfold display_v6. case_test.
  - rewrite length_app. change (length (lit "::ffff:")) with 7%nat.
    pose proof (display_v4_length (a mod 4294967296)) as H. unfold u32_max in H.
    pose proof (Z.mod_pos_bound a 4294967296). lia.
  - destruct (longest_zero_run 0 0 0 0 0 (segments_of 8 a)) as [start len].
    pose proof (length_segments_of 8 a) as Hs. case_test.
    + rewrite !length_app. change (length (lit "::")) with 2%nat.
      pose proof (display_groups_length (take start (segments_of 8 a))) as H1.
      pose proof (display_groups_length (drop (start + len) (segments_of 8 a))) as H2.
      rewrite length_take in H1. rewrite length_drop in H2. lia.
    + pose proof (display_groups_length (segments_of 8 a)). lia.
Qed.

Lemma write_ip_length ip : (length (write_ip ip) ≤ 41)%nat.
Proof. destruct ip as [a|a]; [pose proof (write_v4_length a); lia|apply display_v6_length]. Qed.

(** The text of a v1 header. *)
Definition v1_text (src dst : SocketAddr) : list Z :=
  lit "PROXY " ++
  match sa_ip src, sa_ip dst with
  | V4 _, V4 _ => lit "TCP4 "
  | V6 _, V6 _ => lit "TCP6 "
  | _, _ => []
  end ++
  (if bool_decide (is_ipv4 (sa_ip src) = is_ipv4 (sa_ip dst)) then
     write_ip (sa_ip src) ++ SP :: write_ip (sa_ip dst) ++ SP :: write_u16 (sa_port src)
       ++ SP :: write_u16 (sa_port dst)
   else lit "UNKNOWN") ++ [CR; LF].

Lemma v1_text_length src dst : (length (v1_text src dst) ≤ V1_MAX_HEADER_LEN)%nat.
Proof.
  pose proof (write_ip_length (sa_ip src)). pose proof (write_ip_length (sa_ip dst)).
  pose proof (write_u16_length (sa_port src)). pose proof (write_u16_length (sa_port dst)).
  unfold v1_text, V1_MAX_HEADER_LEN.
  destruct (sa_ip src) eqn:E1, (sa_ip dst) eqn:E2; cbn [is_ipv4] in *;
    [rewrite bool_decide_true by done|rewrite bool_decide_false by done..|rewrite bool_decide_true by done];
    repeat (rewrite length_app; cbn [length]);
    change (length (lit "PROXY ")) with 6%nat; change (length (lit "TCP4 ")) with 5%nat;
    change (length (lit "TCP6 ")) with 5%nat; change (length (lit "UNKNOWN")) with 7%nat; lia.
Qed.

(** The header never runs past its 108-byte buffer, IPv6 included. *)
Lemma encode_v1_text src dst :
  encode_v1 src dst = Ret (filled V1_MAX_HEADER_LEN (v1_text src dst), length (v1_text src dst)).
Proof.
  pose proof (write_ip_length (sa_ip src)). pose proof (write_ip_length (sa_ip dst)).
  pose proof (write_u16_length (sa_port src)). pose proof (write_u16_length (sa_port dst)).
  unfold encode_v1, v1_text, V1_MAX_HEADER_LEN. rewrite emit_start by (cbn; lia). cbn [mbind outcome_bind].
  assert (Hgo : ∀ proto, length proto = 5%nat →
    (st ← emit proto (filled 108 (lit "PROXY "), length (lit "PROXY "));
     st ← emit (write_ip (sa_ip src)) st; st ← emit [SP] st;
     st ← emit (write_ip (sa_ip dst)) st; st ← emit [SP] st;
     st ← emit (write_u16 (sa_port src)) st; st ← emit [SP] st;
     st ← emit (write_u16 (sa_port dst)) st; emit [CR; LF] st)
    = let t := lit "PROXY " ++ proto ++ (write_ip (sa_ip src) ++ SP :: write_ip (sa_ip dst)
          ++ SP :: write_u16 (sa_port src) ++ SP :: write_u16 (sa_port dst)) ++ [CR; LF] in
      Ret (filled 108 t, length t)).
  { intros proto Hp.
    repeat (rewrite emit_filled
      by (rewrite ?length_app, ?Hp; change (length (lit "PROXY ")) with 6%nat; cbn [length]; lia);
      cbn [mbind outcome_bind]).
    cbv zeta. repeat (rewrite <- app_assoc || rewrite <- app_comm_cons). reflexivity. }
  destruct (sa_ip src) eqn:E1, (sa_ip dst) eqn:E2; cbn [is_ipv4] in *;
    [rewrite bool_decide_true by done; apply Hgo; reflexivity
    |rewrite bool_decide_false by done..
    |rewrite bool_decide_true by done; apply Hgo; reflexivity];
    (rewrite emit_filled by (cbn; lia); reflexivity).
Qed.

(** ** Round trips *)

(** What the receiver should see: the addresses when both are of one family,
    nothing otherwise. *)
Definition announced (src dst : SocketAddr) : ProxyHeader :=
  if bool_decide (is_ipv4 (sa_ip src) = is_ipv4 (sa_ip dst)) then Proxy src dst else Local.

Lemma octets16_list a : ∃ b0 b1 b2 b3 b4 b5 b6 b7 b8 b9 b10 b11 b12 b13 b14 b15,
  octets16 a = [b0; b1; b2; b3; b4; b5; b6; b7; b8; b9; b10; b11; b12; b13; b14; b15].
Proof. repeat eexists. Qed.

Lemma u128_pow a : 0 ≤ a ≤ u128_max → 0 ≤ a < 256 ^ Z.of_nat 16.
Proof. unfold u128_max. change (256 ^ Z.of_nat 16) with 340282366920938463463374607431768211456. lia. Qed.

(** The v2 header as one list. *)
Definition v2_bytes (src dst : SocketAddr) : list Z :=
  V2_SIGNATURE ++
  match sa_ip src, sa_ip dst with
  | V4 s, V4 d => [V2_VERSION_COMMAND_PROXY; V2_AF_INET_STREAM; 0; 12]
      ++ octets4 s ++ octets4 d ++ to_be_bytes16 (sa_port src) ++ to_be_bytes16 (sa_port dst)
  | V6 s, V6 d => [V2_VERSION_COMMAND_PROXY; V2_AF_INET6_STREAM; 0; 36]
      ++ octets16 s ++ octets16 d ++ to_be_bytes16 (sa_port src) ++ to_be_bytes16 (sa_port dst)
  | _, _ => [V2_VERSION_COMMAND_LOCAL; 0; 0; 0]
  end.

Lemma encode_v2_bytes src dst :
  ∃ buf len, encode_v2 src dst = Ret (buf, len) ∧ length buf = 52%nat ∧ take len buf = v2_bytes src dst
    ∧ len = length (v2_bytes src dst).
Proof.
  destruct src as [[s|s] sp], dst as [[d|d] dp]; unfold encode_v2, v2_bytes, to_be_bytes16; cbn [sa_ip sa_port].
  - rewrite !octets4_eq. eexists _, _. split_and!; reflexivity.
  - eexists _, _. split_and!; reflexivity.
  - eexists _, _. split_and!; reflexivity.
  - destruct (octets16_list s) as (?&?&?&?&?&?&?&?&?&?&?&?&?&?&?&?&->).
    destruct (octets16_list d) as (?&?&?&?&?&?&?&?&?&?&?&?&?&?&?&?&->).
    eexists _, _. split_and!; reflexivity.
Qed.

Lemma parse_signature s : (4 ≤ length s)%nat → parse (V2_SIGNATURE ++ s) = parse_v2 (V2_SIGNATURE ++ s).
Proof.
  intros Hs. unfold parse. cbv zeta. rewrite length_app. change (length V2_SIGNATURE) with 12%nat.
  rewrite (proj2 (Nat.ltb_ge _ _)) by lia. rewrite (proj2 (Nat.leb_le _ _)) by lia.
  change 12%nat with (length V2_SIGNATURE). rewrite take_app_length, str_eqb_refl. done.
Qed.

(** Walk the fixed part of a v2 header, then its addresses. *)
Ltac v2_header :=
  cbn [app V2_SIGNATURE length]; rewrite (proj2 (Nat.ltb_ge _ _)) by lia;
  unfold index; cbn [lookup list_lookup mbind outcome_bind];
  match goal with |- context [Z.of_nat ?a <? ?b] =>
    replace (Z.of_nat a <? b) with false by (symmetry; apply Z.ltb_ge; unfold from_be_bytes16; lia) end.
Ltac v2_payload :=
  rewrite !slice_le by (cbn [length]; lia);
  cbn [take drop Nat.sub lookup list_lookup mbind outcome_bind].

Lemma parse_v2_bytes src dst rest :
  socket_wf src → socket_wf dst →
  parse (v2_bytes src dst ++ rest) = Ret (Ok (announced src dst, length (v2_bytes src dst))).
Proof.
  intros [Hs Hsp] [Hd Hdp].
  destruct src as [[s|s] sp], dst as [[d|d] dp]; cbn [sa_ip sa_port ip_wf] in *;
    unfold announced, v2_bytes, to_be_bytes16; cbn [sa_ip sa_port is_ipv4];
    rewrite <- app_assoc, parse_signature by (cbn; lia); unfold parse_v2.
  - rewrite bool_decide_true by done.
    pose proof (be_value_be_bytes 4 s (u32_pow _ Hs)) as Es. pose proof (be_value_be_bytes 4 d (u32_pow _ Hd)) as Ed.
    fold (octets4 s) in Es. fold (octets4 d) in Ed. rewrite octets4_eq in Es, Ed.
    rewrite !octets4_eq. v2_header. v2_payload.
    rewrite Es, Ed, !be16_roundtrip by done. reflexivity.
  - rewrite bool_decide_false by done. v2_header. reflexivity.
  - rewrite bool_decide_false by done. v2_header. reflexivity.
  - rewrite bool_decide_true by done.
    pose proof (be_value_be_bytes 16 s (u128_pow _ Hs)) as Es.
    pose proof (be_value_be_bytes 16 d (u128_pow _ Hd)) as Ed.
    fold (octets16 s) in Es. fold (octets16 d) in Ed.
    destruct (octets16_list s) as (?&?&?&?&?&?&?&?&?&?&?&?&?&?&?&?&E1).
    destruct (octets16_list d) as (?&?&?&?&?&?&?&?&?&?&?&?&?&?&?&?&E2).
    rewrite E1, E2 in *. v2_header. v2_payload.
    rewrite Es, Ed, !be16_roundtrip by done. reflexivity.
Qed.

(** C30: v2 round trip.  Whatever follows on the connection, parsing an encoded
    v2 header gives back both addresses (or LOCAL for mixed families) and
    consumes exactly the header, for IPv4 and IPv6. *)
Theorem v2_roundtrip src dst rest :
  socket_wf src → socket_wf dst →
  ∃ buf len, encode_v2 src dst = Ret (buf, len) ∧ (len ≤ length buf)%nat
    ∧ parse (take len buf ++ rest) = Ret (Ok (announced src dst, len)).
Proof.
  intros Hs Hd. destruct (encode_v2_bytes src dst) as (buf & len & He & Hb & Ht & Hl).
  exists buf, len. split_and!; [done| |].
  - rewrite <- (take_drop len buf), Ht, length_app. lia.
  - rewrite Ht, Hl. by apply parse_v2_bytes.
Qed.

Lemma field_port v : is_u16 v → field (write_u16 v).
Proof. intros Hv. rewrite write_u16_dec by done. apply field_digits, dec_digits. unfold is_u16 in Hv. lia. Qed.
Lemma field_v4 a : 0 ≤ a ≤ u32_max → field (display_v4 a).
Proof.
  intros Ha. rewrite display_v4_eq. pose proof (be_bytes_u8 4 a) as Hu.
  change (be_bytes 4 a) with (octets4 a) in Hu. rewrite octets4_eq in Hu. decompose_Forall_hyps.
  assert (Hd : ∀ z, is_u8 z → field (dec z)) by (intros z [? ?]; apply field_digits, dec_digits; lia).
  unfold field in *.
  repeat (apply Forall_app; split; [by apply Hd|]; constructor; [done|]). by apply Hd.
Qed.

Lemma v1_not_v2 t : (2 ≤ length t)%nat → parse (lit "PROXY " ++ t) = parse_v1 (lit "PROXY " ++ t).
Proof.
  intros Ht. unfold parse. cbv zeta. rewrite length_app. change (length (lit "PROXY ")) with 6%nat.
  rewrite (proj2 (Nat.ltb_ge _ _)) by lia.
  assert (str_eqb (take 12 (lit "PROXY " ++ t)) V2_SIGNATURE = false) as ->.
  { apply bool_decide_eq_false. intros H%(f_equal head). discriminate H. }
  rewrite !andb_false_r, starts_with_app. done.
Qed.

(** A v1 line of five fields is read field by field. *)
Lemma parse_v1_fields proto f1 f2 f3 f4 rest :
  field proto → field f1 → field f2 → field f3 → field f4 →
  starts_with (lit "UNKNOWN") (proto ++ SP :: f1 ++ SP :: f2 ++ SP :: f3 ++ SP :: f4) = false →
  let t := lit "PROXY " ++ (proto ++ SP :: f1 ++ SP :: f2 ++ SP :: f3 ++ SP :: f4) ++ [CR; LF] in
  parse_v1 (t ++ rest) =
    match parse_ip f1, parse_ip f2, parse_uint u16_max f3, parse_uint u16_max f4 with
    | Some a, Some b, Some p, Some q =>
        Ret (Ok (Proxy (mkSocketAddr a p) (mkSocketAddr b q), length t))
    | None, _, _, _ => Ret (Err (Invalid V1SrcIp))
    | _, None, _, _ => Ret (Err (Invalid V1DstIp))
    | _, _, None, _ => Ret (Err (Invalid V1SrcPort))
    | _, _, _, None => Ret (Err (Invalid V1DstPort))
    end.
Proof.
  intros Hp H1 H2 H3 H4 Hu t. set (line := proto ++ _) in *.
  assert (Hcr : CR ∉ line).
  { unfold line. repeat (rewrite not_elem_of_app || rewrite not_elem_of_cons).
    split_and!; auto using field_no_cr; done. }
  assert (Hasc : is_ascii line = true).
  { unfold line. repeat (rewrite is_ascii_app || rewrite is_ascii_cons).
    by rewrite !field_ascii by done. }
  unfold parse_v1, t.
  assert (Hf : find_pair CR LF ((lit "PROXY " ++ line ++ [CR; LF]) ++ rest) = Some (6 + length line)%nat).
  { replace ((lit "PROXY " ++ line ++ [CR; LF]) ++ rest) with ((lit "PROXY " ++ line) ++ CR :: LF :: rest)
      by (by rewrite <- !app_assoc).
    apply find_pair_app; [|done]. rewrite not_elem_of_app. split; [|done].
    apply (bool_decide_unpack _). vm_compute. done. }
  rewrite Hf, slice_le by (rewrite ?length_app; change (length (lit "PROXY ")) with 6%nat; cbn [length]; lia).
  cbn [mbind outcome_bind].
  replace (take _ (drop 6 _)) with line.
  2:{ rewrite <- !app_assoc. change (drop 6 (lit "PROXY " ++ ?s)) with s.
      rewrite Nat.add_comm, Nat.add_sub, take_app_length. done. }
  rewrite utf8_valid_ascii by done. cbn [negb]. rewrite Hu.
  unfold line. rewrite !splitn_byte_app by auto using field_no_sp. cbn [splitn_byte].
  rewrite !length_app. fold line. change (length (lit "PROXY ")) with 6%nat. cbn [length].
  replace (6 + length line + 2)%nat with (6 + (length line + 2))%nat by lia.
  by repeat case_match.
Qed.

Lemma encode_v1_parse src dst rest :
  socket_wf src → socket_wf dst → ¬ (is_ipv4 (sa_ip src) = false ∧ is_ipv4 (sa_ip dst) = false) →
  ∃ buf len, encode_v1 src dst = Ret (buf, len) ∧ (len ≤ length buf)%nat
    ∧ parse (take len buf ++ rest) = Ret (Ok (announced src dst, len)).
Proof.
  intros [Hs Hsp] [Hd Hdp] Hfam. eexists _, _. split; [apply encode_v1_text|].
  split. { unfold filled. rewrite length_app. lia. }
  unfold filled at 1. rewrite take_app_length. unfold announced.
  destruct src as [[s|s] sp], dst as [[d|d] dp]; cbn [sa_ip sa_port ip_wf is_ipv4] in *; try (by destruct Hfam).
  - rewrite bool_decide_true by done. unfold v1_text. cbn [sa_ip sa_port is_ipv4].
    rewrite bool_decide_true by done. rewrite !write_ip_v4 by done.
    set (t := lit "PROXY " ++ _).
    replace t with (lit "PROXY " ++ (lit "TCP4" ++ SP :: display_v4 s ++ SP :: display_v4 d ++ SP ::
      write_u16 sp ++ SP :: write_u16 dp) ++ [CR; LF]) by reflexivity.
    rewrite <- app_assoc, v1_not_v2 by (cbn; lia). rewrite (app_assoc (lit "PROXY ")).
    rewrite parse_v1_fields by (auto using field_v4, field_port; by repeat constructor).
    rewrite !parse_display_v4, !write_u16_dec, !parse_uint_dec
      by (done || unfold is_u16, u16_max, u64_max in *; lia). done.
  - rewrite bool_decide_false by done. unfold v1_text. cbn [sa_ip sa_port is_ipv4].
    rewrite bool_decide_false by done. rewrite <- app_assoc, v1_not_v2 by (cbn; lia). reflexivity.
  - rewrite bool_decide_false by done. unfold v1_text. cbn [sa_ip sa_port is_ipv4].
    rewrite bool_decide_false by done. rewrite <- app_assoc, v1_not_v2 by (cbn; lia). reflexivity.
Qed.

(** v1 round trip.  An encoded v1 header fits its buffer, and parsing it,
    whatever follows on the connection, gives back two IPv4 addresses with
    their ports (or LOCAL for mixed families) and consumes exactly the
    header. *)
Theorem v1_roundtrip src dst rest :
  socket_wf src → socket_wf dst → ¬ (is_ipv4 (sa_ip src) = false ∧ is_ipv4 (sa_ip dst) = false) →
  ∃ buf len, encode_v1 src dst = Ret (buf, len) ∧ (len ≤ length buf)%nat
    ∧ parse (take len buf ++ rest) = Ret (Ok (announced src dst, len)).
Proof. apply encode_v1_parse. Qed.

(** ** Totality *)

Definition header_wf (h : ProxyHeader) : Prop :=
  match h with Proxy src dst => socket_wf src ∧ socket_wf dst | Local => True end.

Definition good_result (buf : list Z) (o : outcome parsed) : Prop :=
  ∃ r, o = Ret r ∧ match r with Ok (h, n) => (n ≤ length buf)%nat ∧ header_wf h | Err _ => True end.

Lemma good_err buf e : good_result buf (Ret (Err e)).
Proof. by eexists. Qed.

Lemma parse_v1_good t : good_result (lit "PROXY " ++ t) (parse_v1 (lit "PROXY " ++ t)).
Proof.
  unfold parse_v1. destruct (find_pair CR LF (lit "PROXY " ++ t)) as [i|] eqn:Ei; [|apply good_err].
  apply find_pair_bound in Ei as [Hb Hcr].
  assert (Hi : (6 ≤ i)%nat).
  { do 6 (destruct i as [|i]; [discriminate Hcr|]). lia. }
  rewrite slice_le by lia. cbn [mbind outcome_bind].
  case_test; [apply good_err|]. case_test; [by eexists; split; [done|split; [lia|]]|].
  destruct (splitn_byte 5 SP _) as [|p0 [|p1 [|p2 [|p3 [|p4 [|]]]]]]; try apply good_err.
  destruct (parse_ip p1) eqn:E1; [|apply good_err]. destruct (parse_ip p2) eqn:E2; [|apply good_err].
  destruct (parse_uint u16_max p3) eqn:E3; [|apply good_err].
  destruct (parse_uint u16_max p4) eqn:E4; [|apply good_err].
  apply parse_ip_wf in E1, E2. apply parse_uint_bound in E3, E4; try done.
  eexists; split; [done|]. split; [lia|]. done.
Qed.

Lemma be16_u16 a b : is_u8 a → is_u8 b → is_u16 (from_be_bytes16 a b).
Proof. unfold is_u8, is_u16, from_be_bytes16, u8_max, u16_max. lia. Qed.

(** Read a byte of a long enough buffer, which is a [u8]. *)
Ltac next_byte :=
  match goal with
  | Hu : Forall is_u8 ?buf |- good_result _ (mbind _ (index ?buf ?k)) =>
      let b := fresh "b" in let Hb := fresh "Hb" in let Hk := fresh "Hk" in let Hub := fresh "Hub" in
      destruct (index_lt buf k) as (b & Hb & Hk); [lia|]; rewrite Hb; cbn [mbind outcome_bind]; cbv zeta;
      pose proof (proj1 (Forall_lookup _ _) Hu _ _ Hk) as Hub; clear Hk
  end.

Lemma slice_value buf i j :
  Forall is_u8 buf → (i ≤ j)%nat → (j ≤ length buf)%nat →
  ∃ s, slice buf i j = Ret s ∧ 0 ≤ be_value s < 256 ^ Z.of_nat (j - i).
Proof.
  intros Hu Hij Hj. rewrite slice_le by done. eexists. split; [done|].
  replace (j - i)%nat with (length (take (j - i) (drop i buf))) at 3
    by (rewrite length_take, length_drop; lia).
  apply be_value_bound. by apply Forall_take, Forall_drop.
Qed.

Lemma parse_v2_good buf : Forall is_u8 buf → good_result buf (parse_v2 buf).
Proof.
  intros Hu. unfold parse_v2. destruct (Nat.ltb_spec (length buf) 16); [apply good_err|].
  next_byte. case_test; [apply good_err|]. do 3 next_byte.
  pose proof (be16_u16 _ _ Hub1 Hub2) as Hl. unfold is_u16 in Hl.
  set (alen := from_be_bytes16 b1 b2) in *.
  destruct (Z.ltb_spec (Z.of_nat (length buf)) (16 + alen)); [apply good_err|].
  case_test; [eexists; split; [done|split; [lia|done]]|].
  case_test; [apply good_err|].
  case_test.
  { destruct (Z.ltb_spec alen 12); [apply good_err|].
    destruct (slice_value buf 16 20) as (s & -> & Hs); [done|lia..|].
    destruct (slice_value buf 20 24) as (d & -> & Hd); [done|lia..|]. cbn [mbind outcome_bind].
    do 4 next_byte. eexists; split; [done|]. split; [lia|].
    change (256 ^ _) with 4294967296 in Hs, Hd. unfold header_wf, socket_wf, ip_wf, u32_max. cbn [sa_ip sa_port].
    split_and!; try lia; apply be16_u16; done. }
  case_test.
  { destruct (Z.ltb_spec alen 36); [apply good_err|].
    destruct (slice_value buf 16 32) as (s & -> & Hs); [done|lia..|].
    destruct (slice_value buf 32 48) as (d & -> & Hd); [done|lia..|]. cbn [mbind outcome_bind].
    do 4 next_byte. eexists; split; [done|]. split; [lia|].
    change (256 ^ _) with 340282366920938463463374607431768211456 in Hs, Hd.
    unfold header_wf, socket_wf, ip_wf, u128_max. cbn [sa_ip sa_port].
    split_and!; try lia; apply be16_u16; done. }
  eexists; split; [done|split; [lia|done]].
Qed.

(** the parser is total and safe: on any received bytes it returns without
    panicking, never claims to have consumed more than it was given, and the
    addresses it reports are in range. *)
Theorem parse_total buf :
  Forall is_u8 buf →
  ∃ r, parse buf = Ret r ∧
    match r with Ok (h, n) => (n ≤ length buf)%nat ∧ header_wf h | Err _ => True end.
Proof.
  intros Hu. change (good_result buf (parse buf)). unfold parse. cbv zeta.
  case_test; [apply good_err|]. case_test; [by apply parse_v2_good|].
  case_test; [apply good_err|]. case_test; [apply good_err|].
  case_test; [|apply good_err]. apply starts_with_spec in E3 as [t ->]. apply parse_v1_good.
Qed.

(** ** Streaming: a partial header is never mistaken for anything else *)

Lemma field_groups l : Forall (λ g, 0 ≤ g) l → field (display_groups l).
Proof.
  unfold display_groups. induction 1 as [|g l Hg Hl IH]; [constructor|].
  destruct l as [|h l]; [by apply field_hex|].
  change (field (to_hex 4 g ++ byte_colon :: join [byte_colon] (to_hex 4 <$> h :: l))).
  apply field_app; [by apply field_hex|]. constructor; [done|]. exact IH.
Qed.

Lemma segments_nonneg n v : Forall (λ g, 0 ≤ g) (segments_of n v).
Proof.
  revert v; induction n as [|n IH]; intros v; cbn [segments_of]; [constructor|].
  apply Forall_app; split; [apply IH|]. constructor; [|constructor].
  pose proof (Z.mod_pos_bound v 65536). lia.
Qed.

Lemma field_v6 a : field (display_v6 a).
Proof.
  unfold display_v6. case_test.
  - apply field_app; [by repeat constructor|]. apply field_v4. unfold u32_max.
    pose proof (Z.mod_pos_bound a 4294967296). lia.
  - destruct (longest_zero_run 0 0 0 0 0 (segments_of 8 a)) as [start len].
    pose proof (segments_nonneg 8 a). case_test; [|by apply field_groups].
    apply field_app; [by apply field_groups, Forall_take|].
    apply field_app; [by repeat constructor|by apply field_groups, Forall_drop].
Qed.

Lemma field_ip ip : ip_wf ip → field (write_ip ip).
Proof. destruct ip as [a|a]; intros Ha; [rewrite write_ip_v4 by done; by apply field_v4|apply field_v6]. Qed.

Lemma find_pair_absent a b s : a ∉ s → find_pair a b s = None.
Proof.
  induction s as [|x s IH]; intros H; [done|]. apply not_elem_of_cons in H as [Hx Hs].
  cbn [find_pair]. destruct s as [|y s]; [done|]. rewrite (proj2 (Z.eqb_neq x a)) by done.
  cbn [andb]. by rewrite IH.
Qed.

Lemma find_pair_end t : CR ∉ t → find_pair CR LF (t ++ [CR]) = None.
Proof.
  induction t as [|x t IH]; intros Ht; [done|]. apply not_elem_of_cons in Ht as [Hx Ht].
  specialize (IH Ht). change ((x :: t) ++ [CR]) with (x :: (t ++ [CR])). cbn [find_pair].
  destruct (t ++ [CR]) as [|y s]; [done|]. rewrite (proj2 (Z.eqb_neq x CR)) by done.
  cbn [andb]. by rewrite IH.
Qed.

(** A proper prefix of a text ending in its only CR holds no CRLF. *)
Lemma find_pair_prefix t k :
  CR ∉ t → (k < length (t ++ [CR; LF]))%nat → find_pair CR LF (take k (t ++ [CR; LF])) = None.
Proof.
  intros Ht Hk. rewrite length_app in Hk. cbn [length] in Hk.
  destruct (decide (k ≤ length t)%nat).
  - rewrite take_app_le by done. apply find_pair_absent. intros (i & Hi & _)%elem_of_take.
    apply Ht. by eapply list_elem_of_lookup_2.
  - replace k with (length t + 1)%nat by lia. rewrite take_app_add. cbn [take].
    by apply find_pair_end.
Qed.

Lemma v1_text_body src dst :
  socket_wf src → socket_wf dst → ∃ t, v1_text src dst = (lit "PROXY " ++ t) ++ [CR; LF] ∧ CR ∉ t
    ∧ (2 ≤ length t)%nat.
Proof.
  intros [Hs Hsp] [Hd Hdp]. unfold v1_text.
  pose proof (field_no_cr _ (field_ip _ Hs)). pose proof (field_no_cr _ (field_ip _ Hd)).
  pose proof (field_no_cr _ (field_port _ Hsp)). pose proof (field_no_cr _ (field_port _ Hdp)).
  match goal with |- ∃ _, _ ++ ?a ++ ?b ++ _ = _ ∧ _ =>
    exists (a ++ b); split; [by rewrite <- (app_assoc (lit "PROXY ")), <- (app_assoc a)|] end.
  split.
  - rewrite !not_elem_of_app. split.
    + destruct (sa_ip src), (sa_ip dst); try apply not_elem_of_nil;
        apply (bool_decide_unpack _); vm_compute; done.
    + case_bool_decide; [|apply (bool_decide_unpack _); vm_compute; done].
      repeat (rewrite not_elem_of_app || rewrite not_elem_of_cons). done.
  - rewrite length_app. case_bool_decide; [|cbn; lia].
    repeat (rewrite length_app; cbn [length]). lia.
Qed.

Lemma prefix_incomplete_v2 src dst k :
  (k < length (v2_bytes src dst))%nat → parse (take k (v2_bytes src dst)) = Ret (Err Incomplete).
Proof.
  intros Hk. assert (Hsig : ∃ s, v2_bytes src dst = V2_SIGNATURE ++ s ∧ (4 ≤ length s)%nat
    ∧ ∃ a b c d p, s = a :: b :: c :: d :: p ∧ Z.shiftr a 4 = 2 ∧ from_be_bytes16 c d = Z.of_nat (length p)).
  { unfold v2_bytes. eexists. split; [done|]. destruct (sa_ip src) as [s|s], (sa_ip dst) as [d|d];
      (split; [cbn; lia|]); repeat eexists. }
  destruct Hsig as (s & Hs & Hl & a & b & c & d & p & -> & Ha & Hp). rewrite Hs in *.
  destruct (decide (k < 16)%nat) as [Hlt|Hge].
  - do 16 (destruct k as [|k]; [reflexivity|]). lia.
  - do 16 (destruct k as [|k]; [lia|]). 
    change (take _ _) with (V2_SIGNATURE ++ a :: b :: c :: d :: take k p).
    rewrite parse_signature by (cbn; lia). unfold parse_v2.
    rewrite (proj2 (Nat.ltb_ge _ _)) by (cbn; lia).
    unfold index. cbn [app V2_SIGNATURE lookup list_lookup mbind outcome_bind]. cbv zeta. rewrite Ha.
    rewrite Z.eqb_refl. cbn [negb]. rewrite Hp, (proj2 (Z.ltb_lt _ _)); [done|].
    cbn [length app V2_SIGNATURE] in *. rewrite length_take. lia.
Qed.

Lemma prefix_incomplete_v1 src dst k :
  socket_wf src → socket_wf dst →
  (k < length (v1_text src dst))%nat → parse (take k (v1_text src dst)) = Ret (Err Incomplete).
Proof.
  intros Hs Hd Hk. pose proof (v1_text_length src dst) as Hmax.
  destruct (v1_text_body src dst Hs Hd) as (t & Ht & Hcr & Hl). rewrite Ht in *.
  destruct (decide (k < 8)%nat) as [Hlt|Hge].
  - unfold parse. cbv zeta. rewrite length_take. rewrite (proj2 (Nat.ltb_lt _ _)) by lia. done.
  - assert (Hno : find_pair CR LF (take k ((lit "PROXY " ++ t) ++ [CR; LF])) = None).
    { apply find_pair_prefix; [|done]. rewrite not_elem_of_app. split; [|done].
      apply (bool_decide_unpack _). vm_compute. done. }
    assert (Hsplit : take k ((lit "PROXY " ++ t) ++ [CR; LF])
                     = lit "PROXY " ++ take (k - 6) (t ++ [CR; LF])).
    { rewrite <- app_assoc. replace k with (length (lit "PROXY ") + (k - 6))%nat at 1 by (cbn; lia).
      by rewrite take_app_add. }
    rewrite Hsplit in *. rewrite v1_not_v2.
    2:{ rewrite length_take, length_app. rewrite !length_app in Hk. cbn [length] in *.
        change (length (lit "PROXY ")) with 6%nat in Hk. lia. }
    unfold parse_v1. rewrite Hno, <- Hsplit, length_take.
    rewrite (proj2 (Nat.ltb_lt _ _)); [done|]. unfold V1_MAX_HEADER_LEN in *. lia.
Qed.

(** streaming.  Every proper prefix of an encoded header, v1 or v2, of any
    address family, is reported as incomplete: the caller keeps reading, and
    neither rejects the connection nor takes a shorter header. *)
Theorem prefix_incomplete src dst :
  socket_wf src → socket_wf dst →
  ∃ b1 n1 b2 n2, encode_v1 src dst = Ret (b1, n1) ∧ encode_v2 src dst = Ret (b2, n2)
  ∧ (∀ k, (k < n1)%nat → parse (take k b1) = Ret (Err Incomplete))
  ∧ (∀ k, (k < n2)%nat → parse (take k b2) = Ret (Err Incomplete)).
Proof.
  intros Hs Hd. destruct (encode_v2_bytes src dst) as (b2 & n2 & E2 & _ & Ht & Hn).
  eexists _, _, b2, n2. split; [apply encode_v1_text|]. split; [done|]. split; intros k Hk.
  - unfold filled. rewrite take_app_le by lia. by apply prefix_incomplete_v1.
  - replace (take k b2) with (take k (v2_bytes src dst)).
    + apply prefix_incomplete_v2. lia.
    + rewrite <- Ht, take_take. f_equal. lia.
Qed.

(** ** Witnesses *)

Module Witness.

Definition a4 : SocketAddr := mkSocketAddr (V4 3232235876) 12345.
Definition b4 : SocketAddr := mkSocketAddr (V4 167772161) 80.
Definition a6 : SocketAddr := mkSocketAddr (V6 42540766411282592856903984951653826561) 443.

Lemma wf4 : socket_wf a4 ∧ socket_wf b4 ∧ socket_wf a6.
Proof. repeat split; vm_compute; congruence. Qed.

Lemma v2_roundtrip_witness :
  ∃ buf len, encode_v2 a6 a6 = Ret (buf, len) ∧ (len ≤ length buf)%nat
    ∧ parse (take len buf ++ lit "GET /") = Ret (Ok (Proxy a6 a6, len)).
Proof. apply (v2_roundtrip a6 a6 (lit "GET /")); apply wf4. Defined.

Lemma v1_roundtrip_witness :
  ∃ buf len, encode_v1 a4 b4 = Ret (buf, len) ∧ (len ≤ length buf)%nat
    ∧ parse (take len buf ++ lit "GET /") = Ret (Ok (Proxy a4 b4, len)).
Proof. apply (v1_roundtrip a4 b4 (lit "GET /")); [apply wf4|apply wf4|intros [H _]; discriminate H]. Defined.

Lemma parse_total_witness :
  ∃ r, parse (lit "PROXY TCP4 x") = Ret r ∧
    match r with Ok (h, n) => (n ≤ 12)%nat ∧ header_wf h | Err _ => True end.
Proof. apply (parse_total (lit "PROXY TCP4 x")). repeat constructor; vm_compute; congruence. Defined.

Lemma prefix_incomplete_witness :
  ∃ b1 n1 b2 n2, encode_v1 a4 b4 = Ret (b1, n1) ∧ encode_v2 a4 b4 = Ret (b2, n2)
  ∧ (∀ k, (k < n1)%nat → parse (take k b1) = Ret (Err Incomplete))
  ∧ (∀ k, (k < n2)%nat → parse (take k b2) = Ret (Err Incomplete)).
Proof. apply (prefix_incomplete a4 b4); apply wf4. Defined.

End Witness.
