(* ===== verification/ConnPool.v ===== *)
(** * Connection pools: [src/handler/reverse_proxy/pool.rs],
    [src/handler/fastcgi_pool.rs]

    The per-worker keep-alive pool of upstream connections and the FastCGI
    pool.  The operating system's streams are a type parameter; instants are
    nanoseconds, and every call of the clock is an argument. *)

From S2P Require Import Prelude RustStr LoadBalance.

Definition nanos (secs : Z) : Z := secs * 1000000000.

(** ** [PooledConn::key], [PooledConn::key_from_addr] *)

Definition pooled_key (addr : list Z) (use_tls : bool) : list Z :=
  (if use_tls then lit "tls:" else lit "tcp:") ++ addr.

Definition key_from_addr (addr : UpstreamAddr) (use_tls : bool) : list Z :=
  match addr with
  | Tcp s => (if use_tls then lit "tls:" else lit "tcp:") ++ s
  | Unix s => (if use_tls then lit "tls-unix:" else lit "unix:") ++ s
  end.

(** pool keys separate upstreams: two upstreams share a key only when they
    have the same address, of the same kind, and both or neither use TLS. *)
Theorem key_from_addr_inj a b tls_a tls_b :
  key_from_addr a tls_a = key_from_addr b tls_b → a = b ∧ tls_a = tls_b.
Proof.
  destruct a as [s|s], b as [t|t], tls_a, tls_b; unfold key_from_addr; cbn;
    intros H; simplify_eq/=; done.
Qed.

Section pool.
Context {Stream : Type}.

Inductive PooledConn :=
| ConnTcp (s : Stream)
| ConnTls (s : Stream)
| ConnUnix (s : Stream)
| ConnTlsUnix (s : Stream).

Record IdleConn := mkIdle {
  ic_conn : PooledConn;
  returned_at : Z;
  created_at : Z;
  request_count : Z;
}.

Record ConnPool := mkConnPool { max_idle : Z; idle_timeout : Z }.

Definition conn_pool_new (max_idle idle_timeout_secs : Z) : ConnPool :=
  mkConnPool max_idle (nanos idle_timeout_secs).

(** The thread-local map from key to idle queue ([NodePool]). *)
Local Notation Pools := (gmap (list Z) (list IdleConn)).

Definition fresh (pool : ConnPool) (now : Z) (c : IdleConn) : bool :=
  sat_sub now (returned_at c) <? idle_timeout pool.

(** The [while let Some(c) = pop_front()] loop; the [i]-th test reads the clock. *)
Fixpoint pop_fresh (pool : ConnPool) (clock : nat → Z) (i : nat) (q : list IdleConn)
  : option IdleConn * list IdleConn :=
  match q with
  | [] => (None, [])
  | c :: q => if fresh pool (clock i) c then (Some c, q) else pop_fresh pool clock (S i) q
  end.

(** [ConnPool::acquire] *)
Definition acquire (pool : ConnPool) (now : Z) (clock : nat → Z) (key : list Z) (pools : Pools)
  : option (PooledConn * Z * Z) * Pools :=
  match pools !! key with
  | None => (None, pools)
  | Some q =>
      let q := if (1 <? length q)%nat then filter (λ c, fresh pool now c = true) q else q in
      let '(r, q') := pop_fresh pool clock 0 q in
      ((λ c, (ic_conn c, created_at c, request_count c)) <$> r, <[key := q']> pools)
  end.

(** [ConnPool::release] *)
Definition release (pool : ConnPool) (now_created now_returned : Z) (key : list Z) (conn : PooledConn)
    (created request_count keepalive_requests keepalive_time max_idle_override : Z) (pools : Pools) : Pools :=
  if (0 <? keepalive_requests) && (keepalive_requests <=? request_count) then pools
  else if (0 <? keepalive_time) && (nanos keepalive_time <=? sat_sub now_created created) then pools
  else
    let limit := if 0 <? max_idle_override then max_idle_override else max_idle pool in
    let q := default [] (pools !! key) in
    if limit <=? Z.of_nat (length q) then <[key := q]> pools
    else <[key := q ++ [mkIdle conn now_returned created request_count]]> pools.

(** ** What the pool promises *)

Lemma pop_fresh_spec pool clock i q :
  match pop_fresh pool clock i q with
  | (Some c, q') => ∃ old j, q = old ++ c :: q' ∧ fresh pool (clock j) c = true
  | (None, q') => q' = []
  end.
Proof.
  revert i; induction q as [|c q IH]; intros i; cbn [pop_fresh]; [done|].
  case_test; [by exists [], i|]. specialize (IH (S i)).
  destruct (pop_fresh pool clock (S i) q) as [[c'|] q']; [|done].
  destruct IH as (old & j & -> & Hj). exists (c :: old), j. done.
Qed.

Lemma filter_sublist_incl {A} (P : A → Prop) `{∀ x, Decision (P x)} (l : list A) x : x ∈ filter P l → x ∈ l.
Proof. rewrite list_elem_of_filter. tauto. Qed.

(** What is lent out was in the queue; what stays in a queue was there. *)
Lemma acquire_spec pool now clock key pools r pools' :
  acquire pool now clock key pools = (r, pools') →
  (∀ k q' c, pools' !! k = Some q' → c ∈ q' → ∃ q, pools !! k = Some q ∧ c ∈ q)
  ∧ (∀ k q', pools' !! k = Some q' → ∃ q, pools !! k = Some q ∧ (length q' ≤ length q)%nat)
  ∧ match r with
    | Some (conn, cr, n) => ∃ q c j, pools !! key = Some q ∧ c ∈ q
        ∧ conn = ic_conn c ∧ cr = created_at c ∧ n = request_count c ∧ fresh pool (clock j) c = true
    | None => True
    end.
Proof.
  unfold acquire. destruct (pools !! key) as [q|] eqn:Eq; [|intros [= <- <-]; split_and!; eauto].
  set (q1 := if (1 <? length q)%nat then _ else q).
  assert (Hincl : ∀ c, c ∈ q1 → c ∈ q).
  { intros c. unfold q1. case_test; [apply filter_sublist_incl|done]. }
  assert (Hlen : (length q1 ≤ length q)%nat).
  { unfold q1. case_test; [apply length_filter|done]. }
  pose proof (pop_fresh_spec pool clock 0 q1) as Hp.
  destruct (pop_fresh pool clock 0 q1) as [o q2]. cbn. intros [= <- <-].
  assert (H2 : (∀ c, c ∈ q2 → c ∈ q) ∧ (length q2 ≤ length q)%nat).
  { destruct o as [c|]; [|subst; split; [by intros ? ?%not_elem_of_nil|cbn; lia]].
    destruct Hp as (old & j & E & _). rewrite E in Hincl, Hlen. split.
    - intros x Hx. apply Hincl. rewrite elem_of_app, elem_of_cons. auto.
    - rewrite length_app in Hlen. cbn in Hlen. lia. }
  destruct H2 as [H2 H3]. split_and!.
  - intros k q' c [[<- <-]|[? ?]]%lookup_insert_Some Hc; eauto.
  - intros k q' [[<- <-]|[? ?]]%lookup_insert_Some; eauto.
  - destruct o as [c|]; cbn; [|done]. destruct Hp as (old & j & E & Hf).
    exists q, c, j. split_and!; eauto. apply Hincl. rewrite E, elem_of_app, elem_of_cons. auto.
Qed.

(** The calls a worker makes on its pool. *)
Inductive pool_call :=
| CallAcquire (now : Z) (clock : nat → Z) (key : list Z)
| CallRelease (now_created now_returned : Z) (key : list Z) (conn : PooledConn)
    (created count ka_requests ka_time max_override : Z).

Definition pool_step (pool : ConnPool) (c : pool_call) (pools : Pools) : Pools :=
  match c with
  | CallAcquire now clock key => snd (acquire pool now clock key pools)
  | CallRelease nc nr key conn cr n kr kt mo => release pool nc nr key conn cr n kr kt mo pools
  end.

(** What a caller guarantees when it returns a connection: it [belongs] to
    the key, and the keep-alive limits are those of the key. *)
Record limits := mkLimits { l_requests : Z; l_time : Z; l_idle : Z }.

Definition call_ok (belongs : list Z → PooledConn → Prop) (lim : list Z → limits) (c : pool_call) : Prop :=
  match c with
  | CallAcquire _ _ _ => True
  | CallRelease _ _ key conn _ _ kr kt mo =>
      belongs key conn ∧ kr = l_requests (lim key) ∧ kt = l_time (lim key) ∧ mo = l_idle (lim key)
  end.

Definition idle_limit (pool : ConnPool) (l : limits) : Z :=
  if 0 <? l_idle l then l_idle l else max_idle pool.

(** The call by which an idle connection came into the queue of [key]: within
    both keep-alive limits when it was made. *)
Definition returned_by (lim : list Z → limits) (calls : list pool_call) (key : list Z) (c : IdleConn) : Prop :=
  let l := lim key in
  ∃ nc, CallRelease nc (returned_at c) key (ic_conn c) (created_at c) (request_count c) (l_requests l) (l_time l) (l_idle l) ∈ calls
    ∧ (0 < l_requests l → request_count c < l_requests l)
    ∧ (0 < l_time l → sat_sub nc (created_at c) < nanos (l_time l)).

Definition pool_inv (lim : list Z → limits) (pool : ConnPool) (calls : list pool_call) (pools : Pools) : Prop :=
  ∀ key q, pools !! key = Some q →
    Z.of_nat (length q) ≤ Z.max 0 (idle_limit pool (lim key)) ∧ Forall (returned_by lim calls key) q.

Lemma returned_by_app lim calls call key c : returned_by lim calls key c → returned_by lim (calls ++ [call]) key c.
Proof. intros (nc & Hin & H). exists nc. split; [apply elem_of_app; by left|done]. Qed.

Lemma pool_step_inv belongs lim pool calls c pools :
  call_ok belongs lim c → pool_inv lim pool calls pools → pool_inv lim pool (calls ++ [c]) (pool_step pool c pools).
Proof.
  intros Hc Hinv. assert (Hold : pool_inv lim pool (calls ++ [c]) pools).
  { intros k q Hk. destruct (Hinv k q Hk) as [Hl Hf]. split; [done|]. eapply Forall_impl; [exact Hf|]. apply returned_by_app. }
  destruct c as [now clock key|nc nr key conn cr n kr kt mo]; cbn [pool_step].
  - destruct (acquire pool now clock key pools) as [r pools'] eqn:E. cbn.
    apply acquire_spec in E as (Hin & Hlen & _). intros k q' Hk.
    destruct (Hlen k q' Hk) as (q & Hq & ?). destruct (Hold k q Hq) as [Hl Hf]. split; [lia|].
    apply Forall_forall. intros x Hx. destruct (Hin k q' x Hk Hx) as (q0 & Hq0 & Hx0).
    simplify_eq. by apply (proj1 (Forall_forall _ _) Hf).
  - destruct Hc as (_ & -> & -> & ->). unfold release.
    destruct (_ && _) eqn:Er; [done|]. destruct ((0 <? l_time (lim key)) && _) eqn:Et; [done|].
    set (q := default [] (pools !! key)). fold (idle_limit pool (lim key)).
    assert (Hq : Z.of_nat (length q) ≤ Z.max 0 (idle_limit pool (lim key))
                 ∧ Forall (returned_by lim (calls ++ [CallRelease nc nr key conn cr n (l_requests (lim key)) (l_time (lim key))
                                                       (l_idle (lim key))]) key) q).
    { unfold q. destruct (pools !! key) as [q0|] eqn:Eq; cbn; [by apply Hold|]. split; [lia|constructor]. }
    destruct Hq as [Hl Hf].
    destruct (Z.leb_spec (idle_limit pool (lim key)) (Z.of_nat (length q)));
      intros k q' [[<- <-]|[? ?]]%lookup_insert_Some; [done|by apply Hold| |by apply Hold].
    split; [rewrite length_app; cbn; lia|]. apply Forall_app. split; [done|].
    constructor; [|constructor]. exists nc. cbn. split_and!.
    + apply elem_of_app. right. by apply list_elem_of_singleton.
    + intros Hpos. rewrite (proj2 (Z.ltb_lt _ _)) in Er by done. cbn [andb] in Er. by zbool.
    + intros Hpos. rewrite (proj2 (Z.ltb_lt _ _)) in Et by done. cbn [andb] in Et. by zbool.
Qed.

Lemma pool_reachable_inv belongs lim pool calls :
  Forall (call_ok belongs lim) calls →
  pool_inv lim pool calls (foldl (λ ps c, pool_step pool c ps) ∅ calls).
Proof.
  induction calls as [|c calls IH] using rev_ind; intros Hcalls.
  { intros k q Hk. cbn [foldl] in Hk. by rewrite lookup_empty in Hk. }
  apply Forall_app in Hcalls as [Hcalls Hc]. rewrite foldl_app. cbn [foldl].
  apply (pool_step_inv belongs); [by inversion Hc|by apply IH].
Qed.

(** C21: pool soundness.  Start from an empty pool and make any calls in which
    connections are returned under the key they belong to, with the keep-alive
    limits of that key.  Then every idle queue stays within its limit, and a
    connection handed out for a key belongs to that key, was returned under it
    by one of the calls, with the requests it had served below
    [keepalive_requests] and its age then below [keepalive_time] where those
    limits are set, and has been idle for less than the timeout since. *)
Theorem pool_sound belongs lim pool calls now clock key conn cr n :
  Forall (call_ok belongs lim) calls →
  let pools := foldl (λ ps c, pool_step pool c ps) (∅ : Pools) calls in
  fst (acquire pool now clock key pools) = Some (conn, cr, n) →
  let l := lim key in
  (∀ k q, pools !! k = Some q → Z.of_nat (length q) ≤ Z.max 0 (idle_limit pool (lim k)))
  ∧ belongs key conn
  ∧ (0 < l_requests l → n < l_requests l)
  ∧ ∃ nc nr, CallRelease nc nr key conn cr n (l_requests l) (l_time l) (l_idle l) ∈ calls
      ∧ (0 < l_time l → sat_sub nc cr < nanos (l_time l))
      ∧ ∃ j, sat_sub (clock j) nr < idle_timeout pool.
Proof.
  intros Hcalls pools Hacq l. pose proof (pool_reachable_inv belongs lim pool calls Hcalls) as Hinv.
  destruct (acquire pool now clock key pools) as [r pools'] eqn:E. cbn in Hacq. subst r.
  apply acquire_spec in E as (_ & _ & q & c & j & Hq & Hc & -> & -> & -> & Hf).
  destruct (Hinv key q Hq) as [_ Hall].
  destruct (proj1 (Forall_forall _ _) Hall c Hc) as (nc & Hin & Hn & Ht).
  split_and!; [| |done|].
  - intros k q0 Hk. apply (Hinv k q0 Hk).
  - apply (proj1 (Forall_forall _ _) Hcalls _ Hin).
  - exists nc, (returned_at c). split_and!; [done..|]. exists j. unfold fresh in Hf. by zbool.
Qed.

(** Reuse is immediate: the connection returned to an empty queue, within
    its limits and not yet expired, is the one the next request gets. *)
Lemma release_acquire (pools : Pools) pool t0 t1 now clock key conn cr n kr kt mo :
  default [] (pools !! key) = [] →
  (0 < kr → n < kr) → (0 < kt → sat_sub t0 cr < nanos kt) →
  0 < (if 0 <? mo then mo else max_idle pool) →
  sat_sub (clock 0%nat) t1 < idle_timeout pool →
  acquire pool now clock key (release pool t0 t1 key conn cr n kr kt mo pools)
  = (Some (conn, cr, n), <[key := []]> pools).
Proof.
  intros Hq Hr Ht Hl Hf. unfold release.
  assert ((0 <? kr) && (kr <=? n) = false) as ->.
  { destruct (Z.ltb_spec 0 kr); [|done]. cbn. apply Z.leb_gt. auto. }
  assert ((0 <? kt) && (nanos kt <=? sat_sub t0 cr) = false) as ->.
  { destruct (Z.ltb_spec 0 kt); [|done]. cbn. apply Z.leb_gt. auto. }
  rewrite Hq. cbn [length Z.of_nat]. rewrite (proj2 (Z.leb_gt _ _)) by done.
  unfold acquire. rewrite lookup_insert_eq. cbn [app length Nat.ltb Nat.leb pop_fresh].
  unfold fresh. cbn [returned_at]. rewrite (proj2 (Z.ltb_lt _ _)) by done. cbn.
  by rewrite insert_insert_eq.
Qed.

End pool.
Arguments PooledConn : clear implicits.
Arguments IdleConn : clear implicits.

(** ** FastCGI pool *)

Section fcgi_pool.
Context {Stream : Type}.

Inductive FcgiConn :=
| FcgiTcp (s : Stream)
| FcgiUnix (s : Stream).

Record FcgiPool := mkFcgiPool {
  inner : gmap (list Z) (list FcgiConn);
  fcgi_max_idle : Z;
  connect_timeout_secs : Z;
  read_timeout_secs : Z;
}.

Definition set_inner (m : gmap (list Z) (list FcgiConn)) (p : FcgiPool) : FcgiPool :=
  mkFcgiPool m (fcgi_max_idle p) (connect_timeout_secs p) (read_timeout_secs p).

Definition fcgi_pool_new (max_idle connect_timeout_secs read_timeout_secs : Z) : FcgiPool :=
  mkFcgiPool ∅ max_idle connect_timeout_secs read_timeout_secs.

Inductive fcgi_connect_error := ConnectTimedOut | ConnectFailed.

(** [new_conn] on a Unix target; [tcp_connect] and [unix_connect] are the
    operating system's answers within the timeout. *)
Definition fcgi_new_conn (tcp_connect unix_connect : list Z → result Stream fcgi_connect_error)
    (addr : list Z) (is_unix : bool) : result FcgiConn fcgi_connect_error :=
  if is_unix then
    match unix_connect addr with Ok s => Ok (FcgiUnix s) | Err e => Err e end
  else
    match tcp_connect addr with Ok s => Ok (FcgiTcp s) | Err e => Err e end.

(** [FcgiPool::acquire] *)
Definition fcgi_acquire (tcp_connect unix_connect : list Z → result Stream fcgi_connect_error)
    (addr : list Z) (is_unix : bool) (p : FcgiPool) : result FcgiConn fcgi_connect_error * FcgiPool :=
  match inner p !! addr with
  | Some (conn :: queue) => (Ok conn, set_inner (<[addr := queue]> (inner p)) p)
  | _ => (fcgi_new_conn tcp_connect unix_connect addr is_unix, p)
  end.

(** [FcgiPool::release] *)
Definition fcgi_release (addr : list Z) (conn : FcgiConn) (p : FcgiPool) : FcgiPool :=
  let queue := default [] (inner p !! addr) in
  if Z.of_nat (length queue) <? fcgi_max_idle p
  then set_inner (<[addr := queue ++ [conn]]> (inner p)) p
  else set_inner (<[addr := queue]> (inner p)) p.

(** [FcgiPool::evict] *)
Definition fcgi_evict (addr : list Z) (p : FcgiPool) : FcgiPool :=
  set_inner (delete addr (inner p)) p.

Definition fcgi_inv (p : FcgiPool) : Prop :=
  map_Forall (λ _ q, Z.of_nat (length q) ≤ Z.max 0 (fcgi_max_idle p)) (inner p).

Lemma fcgi_release_inv addr conn p : fcgi_inv p → fcgi_inv (fcgi_release addr conn p).
Proof.
  intros Hinv. unfold fcgi_release.
  assert (Hq : Z.of_nat (length (default [] (inner p !! addr))) ≤ Z.max 0 (fcgi_max_idle p)).
  { destruct (inner p !! addr) as [q|] eqn:E; cbn; [by apply (Hinv addr q)|lia]. }
  case_test; intros k q; cbn; intros [[<- <-]|[? ?]]%lookup_insert_Some; zbool;
    rewrite ?length_app; cbn [length]; try lia; by apply (Hinv k q).
Qed.

Lemma fcgi_acquire_inv tcp unix addr is_unix p :
  fcgi_inv p → fcgi_inv (snd (fcgi_acquire tcp unix addr is_unix p)).
Proof.
  intros Hinv. unfold fcgi_acquire. destruct (inner p !! addr) as [[|c q]|] eqn:E; try done.
  intros k q'; cbn; intros [[<- <-]|[? ?]]%lookup_insert_Some; [|by apply (Hinv k q')].
  pose proof (Hinv _ _ E) as H. cbn [length] in H. lia.
Qed.

End fcgi_pool.

(** ** Witnesses *)

Module Witness.

Definition pool : ConnPool := conn_pool_new 2 60.
Definition c1 : PooledConn Z := ConnTcp 7.
Definition lim : list Z → limits := λ _, mkLimits 100 60 0.

Lemma key_from_addr_inj_witness :
  Tcp (lit "10.0.0.1:80") = Tcp (lit "10.0.0.1:80") ∧ true = true.
Proof. apply (key_from_addr_inj (Tcp (lit "10.0.0.1:80")) (Tcp (lit "10.0.0.1:80")) true true). reflexivity. Defined.

Lemma pool_sound_witness :
  c1 = ConnTcp 7 ∧ (0 < 100 → 3 < 100) ∧ ∃ nc, 0 < 60 → sat_sub nc 0 < nanos 60.
Proof.
  destruct (pool_sound (λ _ c, c = ConnTcp 7) lim pool
    [CallRelease 5 5 (lit "tcp:a") c1 0 3 100 60 0] 9 (λ _, 9) (lit "tcp:a") c1 0 3
    ltac:(repeat constructor) ltac:(vm_compute; reflexivity)) as (_ & Hb & Hn & nc & _ & _ & Ht & _).
  split; [exact Hb|]. split; [exact Hn|]. exists nc. exact Ht.
Defined.

Example release_acquire_example :
  acquire pool 9 (λ _, 9) (lit "tcp:a") (release pool 5 5 (lit "tcp:a") c1 0 3 100 0 0 ∅)
  = (Some (c1, 0, 3), <[lit "tcp:a" := []]> ∅).
Proof.
  apply (release_acquire ∅ pool 5 5 9 (λ _, 9) (lit "tcp:a") c1 0 3 100 0 0); try lia; reflexivity.
Qed.

End Witness.
