(* ===== verification/Headers.v ===== *)
(** * HTTP header collections

    The types of the [http] crate that the handlers use.  The crate is not
    part of the repository: its validation functions and its multimap are the
    operations of a type class, with the laws its documentation gives; the
    instance at the end shows that the laws can be met. *)

From S2P Require Import Prelude RustStr.

Class HeaderLib := {
  (** [HeaderName::from_bytes] and [HeaderValue::from_str]: the name in its
      canonical form, the bytes of the value. *)
  header_name : list Z → option (list Z);
  header_value : list Z → option (list Z);
  HeaderMap : Type;
  hm_empty : HeaderMap;
  hm_insert : list Z → list Z → HeaderMap → HeaderMap;
  hm_append : list Z → list Z → HeaderMap → HeaderMap;
  hm_remove : list Z → HeaderMap → HeaderMap;
  hm_get_all : HeaderMap → list Z → list (list Z);
}.

(** Names are case-insensitive and kept in lower case; a value keeps its
    bytes, and visible ASCII is always a value; [insert] replaces, [append] adds at the end, [remove] removes all. *)
Class HeaderLaws (L : HeaderLib) : Prop := {
  header_name_lower : ∀ k n, header_name k = Some n → n = to_ascii_lowercase k;
  header_name_case : ∀ k k', to_ascii_lowercase k = to_ascii_lowercase k' → header_name k = header_name k';
  header_value_bytes : ∀ v w, header_value v = Some w → w = v;
  header_value_visible : ∀ v, forallb (λ b, (32 <=? b) && (b <=? 126)) v = true → header_value v = Some v;
  header_value_no_crlf : ∀ v w, header_value v = Some w → CR ∉ v ∧ LF ∉ v;
  get_all_empty : ∀ n, hm_get_all hm_empty n = [];
  get_all_insert : ∀ n v m n',
    hm_get_all (hm_insert n v m) n' = if decide (n' = n) then [v] else hm_get_all m n';
  get_all_append : ∀ n v m n',
    hm_get_all (hm_append n v m) n' = if decide (n' = n) then hm_get_all m n ++ [v] else hm_get_all m n';
  get_all_remove : ∀ n m n',
    hm_get_all (hm_remove n m) n' = if decide (n' = n) then [] else hm_get_all m n';
}.

(** [HeaderMap::get]: the first value. *)
Definition hm_get `{HeaderLib} (m : HeaderMap) (n : list Z) : option (list Z) := head (hm_get_all m n).

Lemma hm_get_insert `{HeaderLaws} n v m : hm_get (hm_insert n v m) n = Some v.
Proof. unfold hm_get. rewrite get_all_insert, decide_True by done. done. Qed.

Lemma hm_get_remove `{HeaderLaws} n m : hm_get (hm_remove n m) n = None.
Proof. unfold hm_get. rewrite get_all_remove, decide_True by done. done. Qed.

(** A header set by the configuration: [HeaderOverride] of
    [src/config/model/location.rs]. *)
Record HeaderOverride := mkOverride { ho_name : list Z; ho_value : list Z }.

(** ** An implementation of the interface *)

Module Model.

Definition is_tchar (b : Z) : bool :=
  is_ascii_alphanumeric b || existsb (Z.eqb b) (lit "!#$%&'*+-.^_`|~").
Definition name (k : list Z) : option (list Z) :=
  match k with
  | [] => None
  | _ => if forallb is_tchar (to_ascii_lowercase k) then Some (to_ascii_lowercase k) else None
  end.
Definition value (v : list Z) : option (list Z) :=
  if forallb (λ b, (b =? 9) || ((32 <=? b) && (b <=? 126))) v then Some v else None.

Notation mmap := (gmap (list Z) (list (list Z))).

#[export] Instance lib : HeaderLib := {
  header_name := name;
  header_value := value;
  HeaderMap := mmap;
  hm_empty := (∅ : mmap);
  hm_insert := λ n v m, <[n := [v]]> (m : mmap);
  hm_append := λ n v m, <[n := default [] ((m : mmap) !! n) ++ [v]]> (m : mmap);
  hm_remove := λ n m, delete n (m : mmap);
  hm_get_all := λ m n, default [] ((m : mmap) !! n);
}.

#[export] Instance laws : HeaderLaws lib.
Proof.
  split; cbn.
  - intros [|b k] n; [done|]. cbn [name]. case_test; congruence.
  - intros k k' H. assert (Hl : length k = length k').
    { apply (f_equal length) in H. unfold to_ascii_lowercase in H. by rewrite !length_fmap in H. }
    unfold name. destruct k, k'; try done. by rewrite H.
  - intros v w. unfold value. case_test; congruence.
  - intros v Hv. unfold value. case_test; [done|]. rewrite forallb_forall in Hv.
    match goal with H : forallb _ v = false |- _ => apply not_true_iff_false in H; destruct H end.
    apply forallb_forall. intros b Hb. rewrite (Hv b Hb). apply orb_true_r.
  - intros v w. unfold value. destruct (forallb _ v) eqn:E; [|done]. intros _.
    rewrite forallb_forall in E.
    split; intros Hin%list_elem_of_In%E; vm_compute in Hin; discriminate.
  - intros n. by rewrite lookup_empty.
  - intros n v m n'. case_decide; subst; [by rewrite lookup_insert_eq|by rewrite lookup_insert_ne].
  - intros n v m n'. case_decide; subst; [by rewrite lookup_insert_eq|by rewrite lookup_insert_ne].
  - intros n m n'. case_decide; subst; [by rewrite lookup_delete_eq|by rewrite lookup_delete_ne].
Qed.

End Model.
