(* ===== verification/F32.v ===== *)
(** * Single-precision numbers

    What the code uses of [f32]: parsing, comparison, subtraction and clamping,
    with the rounding of IEEE 754 (to nearest, ties to even).  A finite number
    is an integer multiple of [2^-149]; the sign of zero, which no comparison
    sees, is not kept. *)

From S2P Require Import Prelude RustStr.

Inductive f32 := FNaN | FInf (neg : bool) | FFin (z : Z).

#[export] Instance f32_eq_dec : EqDecision f32.
Proof. solve_decision. Defined.

(** The least exponent, and the first value that is infinite. *)
Definition F32_SCALE : Z := 2 ^ 149.
Definition F32_INF : Z := 2 ^ (128 + 149).

(** The multiple of [2^k] nearest to [num / den], ties to even. *)
Definition round_half_even (num den : Z) : Z :=
  let m := num / den in
  let r := num mod den in
  if 2 * r <? den then m else if den <? 2 * r then m + 1 else if Z.even m then m else m + 1.

(** [num / den] (in units of [2^-149]) rounded to 24 significant bits. *)
Definition round24 (num den : Z) : Z :=
  let k := Z.max 0 (Z.log2 (num / den) - 23) in
  round_half_even num (den * 2 ^ k) * 2 ^ k.

Definition of_magnitude (neg : bool) (n : Z) : f32 :=
  if F32_INF <=? n then FInf neg else FFin (if neg then - n else n).

(** ** Operations *)

Definition f32_lt (a b : f32) : bool :=
  match a, b with
  | FFin x, FFin y => x <? y
  | FInf true, FFin _ | FInf true, FInf false | FFin _, FInf false => true
  | _, _ => false
  end.
Definition f32_le (a b : f32) : bool :=
  match a, b with
  | FFin x, FFin y => x <=? y
  | FInf true, FFin _ | FInf true, FInf _ | FFin _, FInf false | FInf false, FInf false => true
  | _, _ => false
  end.

(** [f32::max], [f32::min]: the other operand when one is NaN. *)
Definition f32_max (a b : f32) : f32 :=
  match a, b with FNaN, _ => b | _, FNaN => a | _, _ => if f32_lt a b then b else a end.
Definition f32_min (a b : f32) : f32 :=
  match a, b with FNaN, _ => b | _, FNaN => a | _, _ => if f32_lt b a then b else a end.

(** Subtraction of finite numbers; the other cases by the rules of IEEE 754. *)
Definition f32_sub (a b : f32) : f32 :=
  match a, b with
  | FFin x, FFin y =>
      let d := x - y in if d <? 0 then of_magnitude true (round24 (- d) 1) else of_magnitude false (round24 d 1)
  | FNaN, _ | _, FNaN => FNaN
  | FInf s, FInf t => if eqb s t then FNaN else FInf s
  | FInf s, FFin _ => FInf s
  | FFin _, FInf t => FInf (negb t)
  end.

(** [f32::clamp]: NaN stays NaN. *)
Definition f32_clamp (a lo hi : f32) : f32 :=
  let a := if f32_lt a lo then lo else a in if f32_lt hi a then hi else a.

(** ** Parsing: [str::parse::<f32>] *)

(** Digits with their value and number. *)
Fixpoint take_digits (acc : Z) (n : nat) (s : list Z) : Z * nat * list Z :=
  match s with
  | b :: s' => if is_ascii_digit b then take_digits (acc * 10 + (b - 48)) (S n) s' else (acc, n, s)
  | [] => (acc, n, [])
  end.

Definition take_sign (s : list Z) : bool * list Z :=
  match s with
  | b :: s' => if b =? 45 then (true, s') else if b =? 43 then (false, s') else (false, s)
  | [] => (false, [])
  end.

(** [m * 10^e] *)
Definition f32_of_decimal (neg : bool) (m e : Z) : f32 :=
  of_magnitude neg
    (if 0 <=? e then round24 (m * 10 ^ e * F32_SCALE) 1 else round24 (m * F32_SCALE) (10 ^ (- e))).

Definition parse_number (neg : bool) (s : list Z) : option f32 :=
  let '(m, n, s) := take_digits 0 0 s in
  let '(m, frac, s) := match s with
                       | b :: s' => if b =? byte_dot then take_digits m 0 s' else (m, 0%nat, s)
                       | [] => (m, 0%nat, [])
                       end in
  if (n + frac =? 0)%nat then None
  else match s with
       | [] => Some (f32_of_decimal neg m (- Z.of_nat frac))
       | b :: s' =>
           if (b =? 101) || (b =? 69) then
             let '(eneg, s') := take_sign s' in
             let '(e, en, rest) := take_digits 0 0 s' in
             if (en =? 0)%nat then None
             else match rest with
                  | [] => Some (f32_of_decimal neg m ((if eneg then - e else e) - Z.of_nat frac))
                  | _ => None
                  end
           else None
       end.

Definition parse_f32 (s : list Z) : option f32 :=
  let '(neg, s) := take_sign s in
  if eq_ignore_ascii_case s (lit "nan") then Some FNaN
  else if eq_ignore_ascii_case s (lit "inf") || eq_ignore_ascii_case s (lit "infinity") then Some (FInf neg)
  else parse_number neg s.

(** ** Constants *)

Definition F0 : f32 := FFin 0.
Definition F1 : f32 := FFin F32_SCALE.
Definition F_MILLI : f32 := f32_of_decimal false 1 (-3).

Example parse_f32_one : parse_f32 (lit "1.000") = Some F1.
Proof. vm_compute. reflexivity. Qed.
(** The encoding of 0.001 is [0x3A83126F]: mantissa [0x83126F], exponent -33. *)
Example milli_encoding : F_MILLI = FFin (8589935 * 2 ^ (149 - 33)).
Proof. vm_compute. reflexivity. Qed.
Example parse_f32_bad : parse_f32 (lit "0.5x") = None ∧ parse_f32 (lit ".") = None ∧ parse_f32 (lit "-.5") ≠ None.
Proof. vm_compute. done. Qed.

(** ** Facts *)

Lemma f32_clamp_01 a : (∃ z, f32_clamp a F0 F1 = FFin z ∧ 0 ≤ z ≤ F32_SCALE) ∨ a = FNaN ∧ f32_clamp a F0 F1 = FNaN.
Proof.
  unfold f32_clamp, F0, F1. assert (0 < F32_SCALE) by done.
  destruct a as [|[]|z]; cbn [f32_lt]; [by right|left..].
  - destruct (Z.ltb_spec F32_SCALE 0); [lia|]. eexists; split; [done|lia].
  - eexists; split; [done|lia].
  - destruct (Z.ltb_spec z 0); cbn [f32_lt].
    + destruct (Z.ltb_spec F32_SCALE 0); [lia|]. eexists; split; [done|lia].
    + destruct (Z.ltb_spec F32_SCALE z); eexists; (split; [done|lia]).
Qed.

(** On numbers the comparisons are a total order. *)
Definition is_num (a : f32) : Prop := a ≠ FNaN.

Lemma f32_le_refl a : is_num a → f32_le a a = true.
Proof. unfold is_num. destruct a as [|[]|z]; [done..|]. intros _. apply Z.leb_refl. Qed.

Lemma f32_lt_not_le a b : is_num a → is_num b → f32_lt a b = negb (f32_le b a).
Proof. intros Ha Hb. destruct a as [|[]|x], b as [|[]|y]; try done. cbn. by rewrite Z.leb_antisym, negb_involutive. Qed.

Lemma f32_le_trans a b c : f32_le a b = true → f32_le b c = true → f32_le a c = true.
Proof.
  destruct a as [|[]|x], b as [|[]|y], c as [|[]|z]; cbn; try done.
  rewrite !Z.leb_le. lia.
Qed.

Lemma f32_lt_num a b : f32_lt a b = true → is_num a ∧ is_num b.
Proof. unfold is_num. destruct a as [|[]|x], b as [|[]|y]; cbn; intros H; done. Qed.

Lemma f32_max_spec a b : is_num a → is_num b →
  (f32_max a b = a ∨ f32_max a b = b) ∧ f32_le a (f32_max a b) = true ∧ f32_le b (f32_max a b) = true.
Proof.
  intros Ha Hb. assert (f32_max a b = if f32_lt a b then b else a) as -> by (by destruct a, b).
  rewrite f32_lt_not_le by done. destruct (f32_le b a) eqn:E; cbn [negb]; [auto using f32_le_refl|].
  split_and!; [auto| |by apply f32_le_refl]. destruct a as [|[]|x], b as [|[]|y]; try done. cbn in *.
  apply Z.leb_gt in E. apply Z.leb_le. lia.
Qed.

Lemma f32_min_spec a b : is_num a → is_num b →
  (f32_min a b = a ∨ f32_min a b = b) ∧ f32_le (f32_min a b) a = true ∧ f32_le (f32_min a b) b = true.
Proof.
  intros Ha Hb. assert (f32_min a b = if f32_lt b a then b else a) as -> by (by destruct a, b).
  rewrite f32_lt_not_le by done. destruct (f32_le a b) eqn:E; cbn [negb]; [auto using f32_le_refl|].
  split_and!; [auto| |by apply f32_le_refl]. destruct a as [|[]|x], b as [|[]|y]; try done. cbn in *.
  apply Z.leb_gt in E. apply Z.leb_le. lia.
Qed.

(** Folding the maximum over numbers, from minus infinity, gives the greatest. *)
Lemma fold_max_spec l a : is_num a → Forall is_num l →
  (foldl f32_max a l = a ∨ foldl f32_max a l ∈ l) ∧ is_num (foldl f32_max a l)
  ∧ f32_le a (foldl f32_max a l) = true ∧ Forall (λ x, f32_le x (foldl f32_max a l) = true) l.
Proof.
  intros Ha Hl. revert a Ha. induction Hl as [|x l Hx Hl IH]; intros a Ha; cbn [foldl]; [auto using f32_le_refl|].
  destruct (f32_max_spec a x Ha Hx) as (Hm & Ham & Hxm).
  assert (Hn : is_num (f32_max a x)) by (destruct Hm as [->| ->]; done).
  destruct (IH _ Hn) as (Hin & Hnum & Hle & Hall). split_and!; [|done|by eapply f32_le_trans|].
  - destruct Hin as [->|Hin]; [|by right; right]. destruct Hm as [->| ->]; [by left|right; by left].
  - constructor; [by eapply f32_le_trans|done].
Qed.

Lemma fold_min_spec l a : is_num a → Forall is_num l →
  (foldl f32_min a l = a ∨ foldl f32_min a l ∈ l) ∧ is_num (foldl f32_min a l)
  ∧ f32_le (foldl f32_min a l) a = true ∧ Forall (λ x, f32_le (foldl f32_min a l) x = true) l.
Proof.
  intros Ha Hl. revert a Ha. induction Hl as [|x l Hx Hl IH]; intros a Ha; cbn [foldl]; [auto using f32_le_refl|].
  destruct (f32_min_spec a x Ha Hx) as (Hm & Ham & Hxm).
  assert (Hn : is_num (f32_min a x)) by (destruct Hm as [->| ->]; done).
  destruct (IH _ Hn) as (Hin & Hnum & Hle & Hall). split_and!; [|done|by eapply f32_le_trans|].
  - destruct Hin as [->|Hin]; [|by right; right]. destruct Hm as [->| ->]; [by left|right; by left].
  - constructor; [by eapply f32_le_trans|done].
Qed.
