(* ===== verification/Compress.v ===== *)
(** * Response compression: [src/handler/compress.rs], [src/config/model/compress.rs]

    Content negotiation over Accept-Encoding, the effective configuration of a
    site, and the wrapping of dynamic responses.  The encoders are a parameter:
    a function from the coding, its level and the body to the encoded body. *)

From S2P Require Import Prelude RustStr Headers F32.

(** ** Configuration *)

Record CompressConfig := mkCompress {
  cc_gzip : bool; cc_gzip_level : Z;
  cc_brotli : bool; cc_brotli_level : Z;
  cc_zstd : bool; cc_zstd_level : Z;
  cc_min_length : Z;
}.

(** [CompressConfig::default] *)
Definition default_compress : CompressConfig := mkCompress true 6 true 4 true 3 1.

Record SiteCompressConfig := mkSiteCompress {
  scc_gzip : option bool; scc_gzip_level : option Z;
  scc_brotli : option bool; scc_brotli_level : option Z;
  scc_zstd : option bool; scc_zstd_level : option Z;
  scc_min_length : option Z;
}.

(** [SiteCompressConfig::resolve] *)
Definition resolve (s : SiteCompressConfig) (g : CompressConfig) : CompressConfig :=
  mkCompress (default (cc_gzip g) (scc_gzip s)) (default (cc_gzip_level g) (scc_gzip_level s))
    (default (cc_brotli g) (scc_brotli s)) (default (cc_brotli_level g) (scc_brotli_level s))
    (default (cc_zstd g) (scc_zstd s)) (default (cc_zstd_level g) (scc_zstd_level s))
    (default (cc_min_length g) (scc_min_length s)).

(** The compression fields of a site and of the global configuration, with the
    older [gzip] switches beside the newer sections. *)
Record SiteCompression := mkSC { sz_compress : SiteCompressConfig; sz_gzip : option bool; sz_gzip_comp_level : option Z }.
Record GlobalCompression := mkGC { gz_compress : CompressConfig; gz_gzip : bool }.

(** What is enabled, with its level. *)
Record effective := mkEffective { ef_gz : bool; ef_gz_level : Z; ef_br : bool; ef_br_level : Z; ef_zst : bool; ef_zst_level : Z }.

(** [effective_compress] *)
Definition effective_compress (site : SiteCompression) (global : GlobalCompression) : effective :=
  let eff := resolve (sz_compress site) (gz_compress global) in
  mkEffective
    (cc_gzip eff || default (gz_gzip global) (sz_gzip site))
    (match scc_gzip_level (sz_compress site) with
     | Some _ => cc_gzip_level eff
     | None => default (cc_gzip_level eff) (sz_gzip_comp_level site)
     end)
    (cc_brotli eff) (cc_brotli_level eff) (cc_zstd eff) (cc_zstd_level eff).

(** ** Accept-Encoding *)

Record AcceptEncoding := mkAE { ae_gzip : f32; ae_brotli : f32; ae_zstd : f32 }.

(** The weight of a token: [q=] or [Q=] directly after the first semicolon. *)
Definition q_of (param : option (list Z)) : f32 :=
  let q := match param with
           | Some p =>
               let p := trim p in
               if starts_with (lit "q=") p || starts_with (lit "Q=") p then parse_f32 (trim (drop 2 p)) else None
           | None => None
           end in
  f32_clamp (default F1 q) F0 F1.

(** One token: its name in lower case and its weight. *)
Definition ae_token (token : list Z) : option (list Z * f32) :=
  match trim token with
  | [] => None
  | token =>
      let parts := splitn_byte 2 byte_semicolon token in
      Some (to_ascii_lowercase (trim (default [] (head parts))), q_of (parts !! 1%nat))
  end.

(** The four slots of the loop, [None] for the initial [-1]. *)
Record ae_slots := mkSlots { sl_gz : option f32; sl_br : option f32; sl_zst : option f32; sl_any : option f32 }.

Definition ae_step (sl : ae_slots) (token : list Z) : ae_slots :=
  match ae_token token with
  | None => sl
  | Some (name, q) =>
      if str_eqb name (lit "gzip") then mkSlots (Some q) (sl_br sl) (sl_zst sl) (sl_any sl)
      else if str_eqb name (lit "br") then mkSlots (sl_gz sl) (Some q) (sl_zst sl) (sl_any sl)
      else if str_eqb name (lit "zstd") then mkSlots (sl_gz sl) (sl_br sl) (Some q) (sl_any sl)
      else if str_eqb name (lit "*") then mkSlots (sl_gz sl) (sl_br sl) (sl_zst sl) (Some q)
      else sl
  end.

(** A slot counts as set when its value is at least zero, which NaN is not. *)
Definition slot_or (v : option f32) (d : f32) : f32 :=
  match v with Some q => if f32_le F0 q then q else d | None => d end.

(** [parse_accept_encoding] *)
Definition parse_accept_encoding (header : list Z) : AcceptEncoding :=
  let sl := foldl ae_step (mkSlots None None None None) (split_byte byte_comma header) in
  let default_q := slot_or (sl_any sl) F0 in
  mkAE (slot_or (sl_gz sl) default_q) (slot_or (sl_br sl) default_q) (slot_or (sl_zst sl) default_q).

(** ** The choice *)

Inductive coding := Br | Zstd | Gzip.

#[export] Instance coding_eq_dec : EqDecision coding.
Proof. solve_decision. Defined.

Definition coding_name (c : coding) : list Z :=
  match c with Br => lit "br" | Zstd => lit "zstd" | Gzip => lit "gzip" end.

Definition ZSTD_PREFERRED_BELOW_BYTES : Z := 20480.

Definition ae_q (ae : AcceptEncoding) (c : coding) : f32 :=
  match c with Br => ae_brotli ae | Zstd => ae_zstd ae | Gzip => ae_gzip ae end.

(** The codings that are enabled and that the client accepts. *)
Definition available (gz_en br_en zst_en : bool) (ae : AcceptEncoding) : list (coding * f32) :=
  (if br_en && f32_lt F0 (ae_brotli ae) then [(Br, ae_brotli ae)] else [])
  ++ (if zst_en && f32_lt F0 (ae_zstd ae) then [(Zstd, ae_zstd ae)] else [])
  ++ (if gz_en && f32_lt F0 (ae_gzip ae) then [(Gzip, ae_gzip ae)] else []).

(** [Iterator::max_by] with [partial_cmp], NaN as equal: the last of the
    greatest. *)
Definition max_step (best x : coding * f32) : coding * f32 := if f32_lt (snd x) (snd best) then best else x.
Definition max_by_q (l : list (coding * f32)) : option (coding * f32) :=
  match l with [] => None | x :: l => Some (foldl max_step x l) end.

(** [pick_best_encoding_sized] *)
Definition pick_best_encoding_sized (accept_encoding : option (list Z)) (gz_en br_en zst_en : bool) (size_hint : option Z)
  : option coding :=
  match default [] accept_encoding with
  | [] => None
  | raw =>
      let avail := available gz_en br_en zst_en (parse_accept_encoding raw) in
      match avail with
      | [] => None
      | _ =>
          let q_max := foldl f32_max (FInf true) (snd <$> avail) in
          let q_min := foldl f32_min (FInf false) (snd <$> avail) in
          if f32_lt F_MILLI (f32_sub q_max q_min) then fst <$> max_by_q avail
          else
            let prefer_zstd := match size_hint with Some sz => sz <=? ZSTD_PREFERRED_BELOW_BYTES | None => true end in
            find_first (λ c, existsb (λ p, bool_decide (fst p = c)) avail)
              (if prefer_zstd then [Zstd; Br; Gzip] else [Br; Zstd; Gzip])
      end
  end.

(** ** Wrapping a response *)

Section wrap.
Context `{L : HeaderLib} {B : Type} (encode : coding → Z → B → B).

Definition header_visible (v : list Z) : option (list Z) :=
  if forallb (λ b, (b =? 9) || ((32 <=? b) && (b <=? 126))) v then Some v else None.

Definition header_str (h : HeaderMap) (name : list Z) : option (list Z) := v ← hm_get h name; header_visible v.

Definition compressible_type (ct : list Z) : bool :=
  starts_with (lit "text/") ct || contains (lit "javascript") ct || contains (lit "json") ct
  || contains (lit "xml") ct || contains (lit "svg") ct.

(** The level handed to the encoder. *)
Definition encoder_level (c : coding) (ef : effective) : Z :=
  match c with
  | Br => Z.min (ef_br_level ef) 11
  | Zstd => Z.max 1 (Z.min (ef_zst_level ef) 22)
  | Gzip => Z.min (ef_gz_level ef) 9
  end.

(** [compress_response]: headers and body; the status is not looked at. *)
Definition compress_response (headers : HeaderMap) (body : B) (accept_encoding : option (list Z)) (ef : effective)
  : HeaderMap * B :=
  if negb (ef_gz ef) && negb (ef_br ef) && negb (ef_zst ef) then (headers, body)
  else match hm_get headers (lit "content-encoding") with
       | Some _ => (headers, body)
       | None =>
           if negb (compressible_type (default [] (header_str headers (lit "content-type")))) then (headers, body)
           else
             let size_hint := s ← header_str headers (lit "content-length"); parse_uint u64_max s in
             match pick_best_encoding_sized accept_encoding (ef_gz ef) (ef_br ef) (ef_zst ef) size_hint with
             | None => (headers, body)
             | Some c =>
                 let h := hm_remove (lit "content-length") headers in
                 let h := match header_value (coding_name c) with
                          | Some v => hm_insert (lit "content-encoding") v h
                          | None => h
                          end in
                 (hm_insert (lit "vary") (lit "Accept-Encoding") h, encode c (encoder_level c ef) body)
             end
       end.

End wrap.

(** ** What negotiation promises *)

(** The weight of a name: that of its last token. *)
Definition last_q (header name : list Z) : option f32 :=
  snd <$> last (filter (λ p, fst p = name) (omap ae_token (split_byte byte_comma header))).

(** The weight of a coding: its own, else that of [*], else zero. *)
Definition accept_q (header : list Z) (c : coding) : f32 :=
  slot_or (last_q header (coding_name c)) (slot_or (last_q header (lit "*")) F0).

Definition slot (sl : ae_slots) (name : list Z) : option f32 :=
  if str_eqb name (lit "gzip") then sl_gz sl else if str_eqb name (lit "br") then sl_br sl
  else if str_eqb name (lit "zstd") then sl_zst sl else sl_any sl.

Definition slot_names : list (list Z) := [lit "gzip"; lit "br"; lit "zstd"; lit "*"].

Lemma ae_step_slot sl token name :
  name ∈ slot_names →
  slot (ae_step sl token) name
  = match ae_token token with
    | Some (n, q) => if str_eqb n name then Some q else slot sl name
    | None => slot sl name
    end.
Proof.
  intros Hn. unfold ae_step. destruct (ae_token token) as [[n q]|]; [|done].
  assert (Hc : ∀ a, a ∈ slot_names → str_eqb n a = true → n = a) by (intros a _; apply str_eqb_eq).
  destruct (str_eqb n (lit "gzip")) eqn:E1; [apply str_eqb_eq in E1 as ->|destruct (str_eqb n (lit "br")) eqn:E2;
    [apply str_eqb_eq in E2 as ->|destruct (str_eqb n (lit "zstd")) eqn:E3; [apply str_eqb_eq in E3 as ->|
     destruct (str_eqb n (lit "*")) eqn:E4; [apply str_eqb_eq in E4 as ->|]]]];
    repeat (apply elem_of_cons in Hn as [->|Hn]; [try reflexivity; by rewrite ?E1, ?E2, ?E3, ?E4|]);
    by apply elem_of_nil in Hn.
Qed.

Lemma ae_fold_slot tokens sl name :
  name ∈ slot_names →
  slot (foldl ae_step sl tokens) name
  = match last (filter (λ p, fst p = name) (omap ae_token tokens)) with Some p => Some (snd p) | None => slot sl name end.
Proof.
  intros Hn. revert sl. induction tokens as [|t ts IH]; intros sl; [done|]. cbn [foldl omap list_omap]. rewrite IH.
  rewrite ae_step_slot by done. destruct (ae_token t) as [[n q]|]; [|done]. rewrite filter_cons. cbn [fst].
  case_decide as Hd.
  - rewrite last_cons. destruct (last _); [done|]. by rewrite (proj2 (str_eqb_eq n name) Hd).
  - destruct (last _); [done|]. destruct (str_eqb n name) eqn:E; [by apply str_eqb_eq in E|done].
Qed.

(** Parsing gives every coding the weight of the specification. *)
Lemma parse_accept_encoding_spec header c : ae_q (parse_accept_encoding header) c = accept_q header c.
Proof.
  set (sl := foldl ae_step (mkSlots None None None None) (split_byte byte_comma header)).
  assert (H : ∀ name, name ∈ slot_names → slot sl name = last_q header name).
  { intros name Hn. unfold sl, last_q. rewrite ae_fold_slot by done. destruct (last _); [done|].
    unfold slot. by repeat case_match. }
  assert (Hany : sl_any sl = last_q header (lit "*")) by (apply (H (lit "*")); apply (bool_decide_unpack _); by vm_compute).
  unfold accept_q, parse_accept_encoding. fold sl. rewrite <- Hany.
  destruct c; cbn [ae_q ae_gzip ae_brotli ae_zstd coding_name]; f_equal.
  - apply (H (lit "br")). apply (bool_decide_unpack _). by vm_compute.
  - apply (H (lit "zstd")). apply (bool_decide_unpack _). by vm_compute.
  - apply (H (lit "gzip")). apply (bool_decide_unpack _). by vm_compute.
Qed.

Definition enabled (gz br zst : bool) (c : coding) : bool := match c with Br => br | Zstd => zst | Gzip => gz end.

Lemma available_spec gz br zst ae c q :
  (c, q) ∈ available gz br zst ae ↔ enabled gz br zst c = true ∧ f32_lt F0 q = true ∧ q = ae_q ae c.
Proof.
  unfold available. rewrite !elem_of_app.
  assert (H : ∀ (b : bool) c' q', (c, q) ∈ (if b && f32_lt F0 q' then [(c', q')] else []) ↔
                                  b = true ∧ f32_lt F0 q' = true ∧ c = c' ∧ q = q').
  { intros b c' q'. destruct b, (f32_lt F0 q'); cbn [andb]; rewrite ?list_elem_of_singleton, ?elem_of_nil;
      split; try done; try (intros (? & ? & ?); done); [by intros [= -> ->]|by intros (_ & _ & -> & ->)]. }
  rewrite !H. destruct c; cbn [enabled ae_q]; split;
    (intros [(?&?&?&?)|[(?&?&?&?)|(?&?&?&?)]] || intros (?&?&?)); subst; try done; tauto.
Qed.

Lemma max_by_q_spec l p :
  Forall (λ p, is_num (snd p)) l → max_by_q l = Some p → p ∈ l ∧ Forall (λ x, f32_le (snd x) (snd p) = true) l.
Proof.
  intros Hl. destruct l as [|x l]; [done|]. intros [= <-]. apply Forall_cons in Hl as [Hx Hl].
  revert x Hx. induction Hl as [|y l Hy Hl IH]; intros x Hx; cbn [foldl].
  { split; [left|]. constructor; [by apply f32_le_refl|done]. }
  assert (Hs : (max_step x y = x ∨ max_step x y = y) ∧ f32_le (snd x) (snd (max_step x y)) = true
               ∧ f32_le (snd y) (snd (max_step x y)) = true).
  { unfold max_step. rewrite f32_lt_not_le by done. destruct (f32_le (snd x) (snd y)) eqn:E; cbn [negb].
    - split_and!; [auto|done|by apply f32_le_refl].
    - split_and!; [auto|by apply f32_le_refl|]. assert (Hlt := f32_lt_not_le (snd y) (snd x) Hy Hx). rewrite E in Hlt.
      destruct (snd x) as [|[]|a], (snd y) as [|[]|b]; try done. cbn in *. apply Z.ltb_lt in Hlt. apply Z.leb_le. lia. }
  destruct Hs as (Hor & Hxs & Hys).
  assert (Hn : is_num (snd (max_step x y))) by (destruct Hor as [->| ->]; done).
  destruct (IH _ Hn) as [Hin Hall]. apply Forall_cons in Hall as [Hm Hall]. split.
  - apply elem_of_cons in Hin as [->|Hin]; [|by right; right]. destruct Hor as [->| ->]; [left|right; left].
  - constructor; [by eapply f32_le_trans|]. constructor; [by eapply f32_le_trans|done].
Qed.

Lemma available_num gz br zst ae : Forall (λ p, is_num (snd p)) (available gz br zst ae).
Proof. apply Forall_forall. intros [c q] (_ & Hq & _)%available_spec. exact (proj2 (f32_lt_num _ _ Hq)). Qed.

(** Two acceptable codings whose weights bound all others are at most a
    thousandth apart. *)
Definition no_preference (gz br zst : bool) (header : list Z) : Prop :=
  ∃ hi lo, (∀ c, enabled gz br zst c = true → f32_lt F0 (accept_q header c) = true →
              f32_le (accept_q header c) hi = true ∧ f32_le lo (accept_q header c) = true)
           ∧ f32_lt F_MILLI (f32_sub hi lo) = false.

(** Content negotiation is sound and complete.  A coding is chosen exactly when some
    enabled coding has a positive weight for the client; the chosen one is enabled and has a positive
    weight; and when the weights differ by more than a thousandth no acceptable coding has a greater
    one.  The weight of a coding is that of its last token, else that of [*], else zero. *)
Theorem negotiation_correct header gz br zst size :
  header ≠ [] →
  match pick_best_encoding_sized (Some header) gz br zst size with
  | Some c =>
      enabled gz br zst c = true ∧ f32_lt F0 (accept_q header c) = true
      ∧ (no_preference gz br zst header
         ∨ ∀ c', enabled gz br zst c' = true → f32_lt F0 (accept_q header c') = true →
             f32_le (accept_q header c') (accept_q header c) = true)
  | None => ∀ c, enabled gz br zst c = true → f32_lt F0 (accept_q header c) = false
  end.
Proof.
  intros Hne. unfold pick_best_encoding_sized. cbn [from_option id]. destruct header as [|b hs]; [done|]. clear Hne.
  set (header := b :: hs). set (ae := parse_accept_encoding header). cbv zeta.
  assert (Hav : ∀ c q, (c, q) ∈ available gz br zst ae ↔
            enabled gz br zst c = true ∧ f32_lt F0 (accept_q header c) = true ∧ q = accept_q header c).
  { intros c q. rewrite available_spec. unfold ae. rewrite parse_accept_encoding_spec. naive_solver. }
  assert (Hav' : ∀ c, enabled gz br zst c = true → f32_lt F0 (accept_q header c) = true →
            (c, accept_q header c) ∈ available gz br zst ae).
  { intros c H1 H2. apply Hav. exact (conj H1 (conj H2 eq_refl)). }
  pose proof (available_num gz br zst ae) as Hnum. set (avail := available gz br zst ae) in *.
  destruct avail as [|p0 av] eqn:Ea.
  { intros c Hen. destruct (f32_lt F0 (accept_q header c)) eqn:Ef; [|done].
    exfalso. exact (not_elem_of_nil _ (Hav' c Hen Ef)). }
  rewrite <- Ea in *. destruct (f32_lt F_MILLI _) eqn:Ep.
  - destruct (max_by_q avail) as [[c q]|] eqn:Em; [|by rewrite Ea in Em].
    apply max_by_q_spec in Em as [Hin Hall]; [|done]. cbn [fmap option_fmap option_map fst].
    apply Hav in Hin as (Hen & Hq & ->). split_and!; [exact Hen|exact Hq|]. right. intros c' Hen' Hq'.
    rewrite Forall_forall in Hall. exact (Hall (c', accept_q header c') (Hav' c' Hen' Hq')).
  - assert (Hno : no_preference gz br zst header).
    { assert (Hn : Forall is_num (snd <$> avail)) by (by apply Forall_fmap).
      destruct (fold_max_spec (snd <$> avail) (FInf true)) as (_ & _ & _ & Hmax); [discriminate|exact Hn|].
      destruct (fold_min_spec (snd <$> avail) (FInf false)) as (_ & _ & _ & Hmin); [discriminate|exact Hn|].
      do 2 eexists. split; [|exact Ep]. intros c Hen Hq. rewrite Forall_forall in Hmax, Hmin.
      assert (Hin : accept_q header c ∈ snd <$> avail).
      { apply list_elem_of_fmap. exists (c, accept_q header c). split; [reflexivity|]. exact (Hav' c Hen Hq). }
      split; [exact (Hmax _ Hin)|exact (Hmin _ Hin)]. }
    match goal with |- match find_first ?f ?l with _ => _ end =>
      assert (Hall : ∀ c, c ∈ l) by (intros c; destruct (match size with Some _ => _ | None => _ end), c;
        apply (bool_decide_unpack _); vm_compute; done);
      destruct (find_first f l) as [c|] eqn:Ef end.
    + apply find_first_elem in Ef as [_ Hc]. apply existsb_exists in Hc as ([c' q] & Hin & Hc).
      apply list_elem_of_In in Hin. apply bool_decide_eq_true in Hc. cbn [fst] in Hc. subst c'.
      apply Hav in Hin as (? & ? & _). split_and!; [assumption|assumption|left; exact Hno].
    + intros c Hen. destruct (f32_lt F0 (accept_q header c)) eqn:Eq; [|done]. exfalso.
      rewrite find_first_None in Ef. rewrite Forall_forall in Ef. pose proof (Ef c (Hall c)) as Hf. cbn in Hf.
      apply not_true_iff_false in Hf. apply Hf, existsb_exists. exists (c, accept_q header c). split.
      * apply list_elem_of_In. exact (Hav' c Hen Eq).
      * by apply bool_decide_eq_true.
Qed.

(** On a tie of the greatest weight the last candidate wins, which is gzip. *)
Example tie_prefers_gzip :
  pick_best_encoding_sized (Some (lit "br, gzip, zstd;q=0.5")) true true true None = Some Gzip.
Proof. vm_compute. reflexivity. Qed.

(** The site's section cannot switch gzip off while the older global switch is
    on. *)
Theorem gzip_not_disabled site global :
  scc_gzip (sz_compress site) = Some false → sz_gzip site = None → gz_gzip global = true →
  ef_gz (effective_compress site global) = true.
Proof. intros H1 H2 H3. unfold effective_compress. cbn [ef_gz]. rewrite H2. cbn [from_option]. rewrite H3. apply orb_true_r. Qed.

Section wrap_theorems.
Context `{L : HeaderLib} `{HL : !HeaderLaws L} {B : Type} (encode : coding → Z → B → B).

Lemma coding_value c : header_value (coding_name c) = Some (coding_name c).
Proof using HL. apply header_value_visible. by destruct c. Qed.

(** Wrapping a response keeps it consistent.  A response is left as it is, or else it had
    no Content-Encoding, the coding chosen is enabled and acceptable to the client, the body is
    encoded with it, Content-Encoding names it, Content-Length is gone, Vary is set, and every other
    header is kept. *)
Theorem compress_response_consistent headers body accept ef h b :
  compress_response encode headers body accept ef = (h, b) →
  (h = headers ∧ b = body)
  ∨ ∃ c raw, accept = Some raw ∧ hm_get headers (lit "content-encoding") = None
      ∧ enabled (ef_gz ef) (ef_br ef) (ef_zst ef) c = true ∧ f32_lt F0 (accept_q raw c) = true
      ∧ b = encode c (encoder_level c ef) body
      ∧ hm_get_all h (lit "content-encoding") = [coding_name c] ∧ hm_get_all h (lit "content-length") = []
      ∧ hm_get_all h (lit "vary") = [lit "Accept-Encoding"]
      ∧ ∀ n, n ∉ [lit "content-encoding"; lit "content-length"; lit "vary"] → hm_get_all h n = hm_get_all headers n.
Proof.
  unfold compress_response. destruct (negb (ef_gz ef) && _ && _); [intros [= <- <-]; by left|].
  destruct (hm_get headers (lit "content-encoding")) eqn:Ece; [intros [= <- <-]; by left|].
  destruct (negb (compressible_type _)); [intros [= <- <-]; by left|]. cbv zeta.
  destruct (pick_best_encoding_sized _ _ _ _ _) as [c|] eqn:Ep; [|intros [= <- <-]; by left].
  rewrite coding_value. intros [<- <-]%pair_equal_spec. right.
  assert (∃ raw, accept = Some raw ∧ raw ≠ []) as (raw & -> & Hr).
  { unfold pick_best_encoding_sized in Ep. destruct accept as [[|]|]; [done|by eexists|done]. }
  match type of Ep with pick_best_encoding_sized _ ?g ?b ?z ?s = _ =>
    pose proof (negotiation_correct raw g b z s Hr) as Hn end.
  rewrite Ep in Hn. destruct Hn as (Hen & Hq & _). exists c, raw.
  rewrite !get_all_insert, !get_all_remove. split_and!; try reflexivity; try assumption.
  intros n Hnot. rewrite !get_all_insert, get_all_remove.
  assert (n ≠ lit "vary" ∧ n ≠ lit "content-encoding" ∧ n ≠ lit "content-length") as (? & ? & ?).
  { rewrite !not_elem_of_cons in Hnot. tauto. }
  by rewrite !decide_False by assumption.
Qed.

(** A partial response (206) is encoded like any other, keeping its
    Content-Range. *)
Theorem partial_content_encoded headers body raw ef c :
  hm_get headers (lit "content-encoding") = None →
  header_str headers (lit "content-type") = Some (lit "text/plain") →
  pick_best_encoding_sized (Some raw) (ef_gz ef) (ef_br ef) (ef_zst ef)
    (s ← header_str headers (lit "content-length"); parse_uint u64_max s) = Some c →
  enabled (ef_gz ef) (ef_br ef) (ef_zst ef) c = true →
  snd (compress_response encode headers body (Some raw) ef) = encode c (encoder_level c ef) body
  ∧ hm_get_all (fst (compress_response encode headers body (Some raw) ef)) (lit "content-range")
    = hm_get_all headers (lit "content-range").
Proof.
  intros H1 H2 H3 H4. unfold compress_response.
  assert (negb (ef_gz ef) && negb (ef_br ef) && negb (ef_zst ef) = false) as ->.
  { destruct c; cbn [enabled] in H4; rewrite H4; cbn [negb]; rewrite ?andb_false_r; reflexivity. }
  rewrite H1, H2. cbv zeta. change (negb (compressible_type (default [] (Some (lit "text/plain"))))) with false. cbn match.
  rewrite H3, coding_value. cbn [fst snd]. split; [reflexivity|]. by rewrite !get_all_insert, get_all_remove.
Qed.

End wrap_theorems.

Module Witness.

Import Headers.Model.

Definition enc (c : coding) (level : Z) (b : list Z) : list Z := coding_name c ++ b.
Definition all_on : effective := mkEffective true 6 true 4 true 3.
Definition headers : HeaderMap (HeaderLib := lib) :=
  hm_insert (lit "content-type") (lit "text/plain") (hm_insert (lit "content-range") (lit "bytes 0-4/10") hm_empty).

Lemma negotiation_correct_witness :
  pick_best_encoding_sized (Some (lit "gzip;q=0.5, br;q=0")) true true false None = Some Gzip
  ∧ f32_lt F0 (accept_q (lit "gzip;q=0.5, br;q=0") Gzip) = true.
Proof.
  assert (H : pick_best_encoding_sized (Some (lit "gzip;q=0.5, br;q=0")) true true false None = Some Gzip) by (vm_compute; reflexivity).
  split; [exact H|]. pose proof (negotiation_correct (lit "gzip;q=0.5, br;q=0") true true false None) as Hn.
  rewrite H in Hn. apply Hn. discriminate.
Defined.

Lemma gzip_not_disabled_witness :
  ef_gz (effective_compress (mkSC (mkSiteCompress (Some false) None None None None None None) None None)
           (mkGC default_compress true)) = true.
Proof. apply gzip_not_disabled; reflexivity. Defined.

Lemma compress_response_consistent_witness :
  ∃ h, compress_response (L := lib) enc headers (lit "hello") (Some (lit "br")) all_on = (h, lit "brhello")
  ∧ hm_get_all (HeaderLib := lib) h (lit "content-encoding") = [lit "br"].
Proof.
  destruct (compress_response (L := lib) enc headers (lit "hello") (Some (lit "br")) all_on) as [h b] eqn:E.
  assert (Hb : b = lit "brhello") by (change (snd (h, b) = lit "brhello"); rewrite <- E; vm_compute; reflexivity). subst b.
  exists h. split; [reflexivity|].
  destruct (compress_response_consistent enc _ _ _ _ _ _ E)
    as [[_ Hc]|(c & raw & _ & _ & _ & _ & Hc & Hce & _)]; [discriminate Hc|].
  destruct c; [exact Hce|discriminate Hc|discriminate Hc].
Defined.

Lemma partial_content_encoded_witness :
  snd (compress_response (L := lib) enc headers (lit "hello") (Some (lit "br")) all_on) = lit "brhello"
  ∧ hm_get_all (HeaderLib := lib) (fst (compress_response (L := lib) enc headers (lit "hello") (Some (lit "br")) all_on)) (lit "content-range")
    = hm_get_all (HeaderLib := lib) headers (lit "content-range").
Proof.
  apply (partial_content_encoded enc headers (lit "hello") (lit "br") all_on Br); vm_compute; reflexivity.
Defined.

End Witness.
