(* ===== verification/ErrorPage.v ===== *)
(** * Error pages: [src/handler/error_page.rs]

    The built-in page of a status, its cache, and pages read from files. *)

From S2P Require Import Prelude RustStr.

(** Template text; the apostrophe stands for the quotation mark. *)
Definition html (s : String.string) : list Z := (λ b, if b =? 39 then 34 else b) <$> lit s.
Arguments html s%_string_scope.

(** [status_info]: the English name of a status and its two descriptions. *)
Definition status_info (code : Z) : list Z * list Z * list Z :=
  if code =? 400 then (lit "Bad Request", lit "请求格式有误，服务器无法解析该请求。",
    lit "The server could not understand the request due to invalid syntax.")
  else if code =? 401 then (lit "Unauthorized", lit "访问此资源需要身份验证，请登录后重试。",
    lit "Authentication is required. Please log in and try again.")
  else if code =? 403 then (lit "Forbidden", lit "您没有权限访问此资源。",
    lit "You don't have permission to access this resource.")
  else if code =? 404 then (lit "Not Found", lit "您请求的页面不存在或已被移除。",
    lit "The page you requested could not be found.")
  else if code =? 405 then (lit "Method Not Allowed", lit "不支持该请求方法。",
    lit "The request method is not supported for this resource.")
  else if code =? 408 then (lit "Request Timeout", lit "请求超时，请检查网络后重试。",
    lit "The server timed out waiting for the request.")
  else if code =? 413 then (lit "Payload Too Large", lit "请求体过大，超出服务器限制。",
    lit "The request body exceeds the server's size limit.")
  else if code =? 418 then (lit "I'm a Teapot", lit "服务器是一个茶壶，拒绝冲咖啡。",
    lit "The server refuses to brew coffee because it is, permanently, a teapot.")
  else if code =? 421 then (lit "Misdirected Request", lit "请求被发到了无法响应的服务器，请检查域名配置。",
    lit "The request was directed at a server that is not able to produce a response.")
  else if code =? 429 then (lit "Too Many Requests", lit "请求过于频繁，请稍后再试。",
    lit "Too many requests in a given amount of time. Please slow down.")
  else if code =? 500 then (lit "Internal Server Error", lit "服务器内部发生错误，请稍后重试或联系管理员。",
    lit "An unexpected error occurred on the server. Please try again later.")
  else if code =? 502 then (lit "Bad Gateway", lit "上游服务器返回了无效响应。",
    lit "The upstream server received an invalid response.")
  else if code =? 503 then (lit "Service Unavailable", lit "服务暂时不可用，可能正在维护中，请稍后重试。",
    lit "The service is temporarily unavailable. Please try again later.")
  else if code =? 504 then (lit "Gateway Timeout", lit "等待上游服务器响应超时。",
    lit "The upstream server did not respond in time.")
  else (lit "Error", lit "发生了一个未知错误。", lit "An unexpected error occurred.").

Definition page_color (code : Z) : list Z :=
  if 500 <=? code then lit "#e74c3c" else if 400 <=? code then lit "#e67e22" else lit "#3498db".

(** [build_default_html] *)
Definition build_default_html (code : Z) : list Z :=
  let '(text, desc_zh, desc_en) := status_info code in
  let color := page_color code in
  html "<!DOCTYPE html>" ++ [LF] ++
  html "<html lang='zh-CN'>" ++ [LF] ++
  html "<head>" ++ [LF] ++
  html "  <meta charset='UTF-8'>" ++ [LF] ++
  html "  <meta name='viewport' content='width=device-width, initial-scale=1.0'>" ++ [LF] ++
  html "  <title>" ++
  dec code ++
  html " " ++
  text ++
  html "</title>" ++ [LF] ++
  html "  <style>" ++ [LF] ++
  html "    body { font-family: -apple-system, BlinkMacSystemFont, 'Segoe UI', 'PingFang SC', 'Microsoft YaHei', sans-serif;" ++ [LF] ++
  html "           display: flex; align-items: center; justify-content: center;" ++ [LF] ++
  html "           min-height: 100vh; margin: 0; background: #f0f2f5; }" ++ [LF] ++
  html "    .box { text-align: center; padding: 48px 56px; background: #fff;" ++ [LF] ++
  html "            border-radius: 16px; box-shadow: 0 4px 32px rgba(0,0,0,.08); max-width: 480px; }" ++ [LF] ++
  html "    .code { font-size: 5.5rem; font-weight: 900; color: " ++
  color ++
  html "; line-height: 1; margin: 0 0 8px; }" ++ [LF] ++
  html "    .title { font-size: 1.4rem; font-weight: 600; color: #333; margin: 0 0 20px; }" ++ [LF] ++
  html "    hr { border: none; border-top: 1px solid #eee; margin: 0 0 20px; }" ++ [LF] ++
  html "    .zh { color: #555; font-size: .95rem; margin: 0 0 8px; }" ++ [LF] ++
  html "    .en { color: #999; font-size: .85rem; margin: 0 0 24px; }" ++ [LF] ++
  html "    .foot { font-size: .72rem; color: #bbb; margin: 0; }" ++ [LF] ++
  html "  </style>" ++ [LF] ++
  html "</head>" ++ [LF] ++
  html "<body>" ++ [LF] ++
  html "  <div class='box'>" ++ [LF] ++
  html "    <div class='code'>" ++
  dec code ++
  html "</div>" ++ [LF] ++
  html "    <div class='title'>" ++
  text ++
  html "</div>" ++ [LF] ++
  html "    <hr>" ++ [LF] ++
  html "    <p class='zh'>" ++
  desc_zh ++
  html "</p>" ++ [LF] ++
  html "    <p class='en'>" ++
  desc_en ++
  html "</p>" ++ [LF] ++
  html "    <p class='foot'>Sweety Web Server</p>" ++ [LF] ++
  html "  </div>" ++ [LF] ++
  html "</body>" ++ [LF] ++
  html "</html>".

(** The pages built once, [ERROR_PAGE_CACHE]. *)
Definition cached_codes : list Z := [400; 401; 403; 404; 405; 408; 413; 421; 429; 500; 502; 503; 504].
Definition error_cache : gmap Z (list Z) := list_to_map ((λ code, (code, build_default_html code)) <$> cached_codes).

(** [get_error_bytes] *)
Definition get_error_bytes (code : Z) : list Z :=
  match error_cache !! code with Some b => b | None => build_default_html code end.

(** [load_error_page]: the configured file when it can be read as text. *)
Definition load_error_page (read_to_string : list Z → option (list Z)) (code : Z) (pages : option (gmap Z (list Z))) : list Z :=
  match (m ← pages; path ← m !! code; read_to_string path) with
  | Some content => content
  | None => build_default_html code
  end.

(** The cache is transparent. *)
Lemma get_error_bytes_default code : get_error_bytes code = build_default_html code.
Proof.
  unfold get_error_bytes, error_cache. destruct (list_to_map _ !! code) as [b|] eqn:E; [|done].
  apply elem_of_list_to_map_2, list_elem_of_fmap in E as (c & [= -> ->] & _). done.
Qed.
