(* ===== verification/ProxyResponse.v ===== *)
(** * Upstream responses: [src/handler/reverse_proxy/response.rs]

    Which upstream headers reach the client and in which form, the status
    line, and the body filters.  A compiled regular expression is given by the
    [regex] parameter: [None] for a pattern that does not compile, otherwise
    its [replace_all]. *)

From S2P Require Import Prelude RustStr Headers.

(** ** Hop-by-hop headers *)

Definition HOP_BY_HOP_SET : list (list Z) :=
  [lit "connection"; lit "keep-alive"; lit "proxy-authenticate"; lit "proxy-authorization";
   lit "te"; lit "trailer"; lit "transfer-encoding"; lit "upgrade"; lit "content-length";
   lit "host"; lit "proxy-connection"].

Definition is_hop_by_hop (name : list Z) : bool :=
  if (32 <? length name)%nat then false
  else
    let lower := to_ascii_lowercase name in
    if utf8_valid lower then existsb (str_eqb lower) HOP_BY_HOP_SET else false.

(** The table lookup agrees with a plain case-insensitive comparison: neither
    the length cut-off nor the UTF-8 check loses a name. *)
Lemma is_hop_by_hop_spec name :
  is_hop_by_hop name = existsb (eq_ignore_ascii_case name) HOP_BY_HOP_SET.
Proof.
  assert (Heq : existsb (str_eqb (to_ascii_lowercase name)) HOP_BY_HOP_SET
                = existsb (eq_ignore_ascii_case name) HOP_BY_HOP_SET) by reflexivity.
  unfold is_hop_by_hop. destruct (Nat.ltb_spec 32 (length name)) as [Hlen|Hlen].
  - symmetry. rewrite <- Heq. apply not_true_iff_false. intros (x & Hx & Hn)%existsb_exists.
    apply str_eqb_eq in Hn. assert (length x = length name).
    { rewrite <- Hn. apply length_fmap. }
    repeat (destruct Hx as [<-|Hx]; [cbn in *; lia|]). done.
  - destruct (utf8_valid (to_ascii_lowercase name)) eqn:Hu; [done|].
    symmetry. rewrite <- Heq. apply not_true_iff_false. intros (x & Hx & Hn)%existsb_exists.
    apply str_eqb_eq in Hn. rewrite Hn in Hu.
    repeat (destruct Hx as [<-|Hx]; [vm_compute in Hu; discriminate Hu|]). done.
Qed.

Lemma is_hop_by_hop_case a b :
  to_ascii_lowercase a = to_ascii_lowercase b → is_hop_by_hop a = is_hop_by_hop b.
Proof. rewrite !is_hop_by_hop_spec. unfold eq_ignore_ascii_case. intros H. by rewrite H. Qed.

(** ** Status line *)

(** [parse_status_code] *)
Definition parse_status_code (status_line : list Z) : Z :=
  match split_whitespace status_line !! 1%nat with
  | Some s => match parse_uint u16_max s with Some c => c | None => 502 end
  | None => 502
  end.

Example parse_status_ok : parse_status_code (lit "HTTP/1.1 200 OK") = 200.
Proof. reflexivity. Qed.

(** ** Set-Cookie *)

(** One attribute of [rewrite_set_cookie]: [trimmed[..7]] panics inside a
    multi-byte character. *)
Definition rewrite_part (strip_secure : bool) (new_domain : option (list Z)) (part : list Z)
  : outcome (option (list Z)) :=
  let trimmed := trim part in
  if strip_secure && eq_ignore_ascii_case trimmed (lit "secure") then Ret None
  else
    match new_domain with
    | Some domain =>
        if (7 <? length trimmed)%nat then
          pre ← slice_to trimmed 7;
          if eq_ignore_ascii_case pre (lit "domain=")
          then Ret (Some (lit "Domain=" ++ domain)) else Ret (Some trimmed)
        else Ret (Some trimmed)
    | None => Ret (Some trimmed)
    end.

Fixpoint rewrite_parts (strip_secure : bool) (new_domain : option (list Z)) (parts : list (list Z))
  : outcome (list (list Z)) :=
  match parts with
  | [] => Ret []
  | p :: ps =>
      r ← rewrite_part strip_secure new_domain p;
      rs ← rewrite_parts strip_secure new_domain ps;
      Ret (match r with Some x => x :: rs | None => rs end)
  end.

Definition rewrite_set_cookie (cookie : list Z) (strip_secure : bool) (new_domain : option (list Z))
  : outcome (list Z) :=
  ps ← rewrite_parts strip_secure new_domain (split_byte byte_semicolon cookie);
  Ret (join (lit "; ") ps).

(** ** Response headers *)

Section headers.
Context `{L : HeaderLib}.

(** One header of [apply_response_headers]. *)
Definition apply_header (strip_cookie_secure : bool)
    (proxy_cookie_domain proxy_redirect_from proxy_redirect_to : option (list Z))
    (kv : list Z * list Z) (m : HeaderMap) : outcome HeaderMap :=
  let '(k, v) := kv in
  if is_hop_by_hop k then Ret m
  else
    match eq_ignore_ascii_case k (lit "location"), proxy_redirect_from, proxy_redirect_to with
    | true, Some from, Some to =>
        let rewritten := replace_first from to v in
        Ret (match header_name k, header_value rewritten with
             | Some name, Some val => hm_insert name val m
             | _, _ => m
             end)
    | _, _, _ =>
        let is_set_cookie := eq_ignore_ascii_case k (lit "set-cookie") in
        val_str ← (if is_set_cookie && (strip_cookie_secure || bool_decide (is_Some proxy_cookie_domain))
                   then rewrite_set_cookie v strip_cookie_secure proxy_cookie_domain
                   else Ret v);
        Ret (match header_name k with
             | Some name =>
                 match header_value val_str with
                 | Some val => if is_set_cookie then hm_append name val m else hm_insert name val m
                 | None => m
                 end
             | None => m
             end)
    end.

Fixpoint apply_response_headers (m : HeaderMap) (headers : list (list Z * list Z))
    (strip_cookie_secure : bool)
    (proxy_cookie_domain proxy_redirect_from proxy_redirect_to : option (list Z)) : outcome HeaderMap :=
  match headers with
  | [] => Ret m
  | kv :: hs =>
      m' ← apply_header strip_cookie_secure proxy_cookie_domain proxy_redirect_from proxy_redirect_to kv m;
      apply_response_headers m' hs strip_cookie_secure proxy_cookie_domain proxy_redirect_from proxy_redirect_to
  end.

(** [append_trailer_headers] of [conn.rs]: the trailers of a chunked body. *)
Fixpoint append_trailer_headers (m : HeaderMap) (trailers : list (list Z * list Z)) : HeaderMap :=
  match trailers with
  | [] => m
  | (k, v) :: ts =>
      let m' := if is_hop_by_hop k then m
                else match header_name k, header_value v with
                     | Some name, Some val => hm_append name val m
                     | _, _ => m
                     end in
      append_trailer_headers m' ts
  end.

(** ** What is forwarded *)

Context `{!HeaderLaws L}.

Lemma apply_header_other strip cd rf rt k v m m' n :
  apply_header strip cd rf rt (k, v) m = Ret m' →
  is_hop_by_hop k = true ∨ to_ascii_lowercase k ≠ n → hm_get_all m' n = hm_get_all m n.
Proof.
  unfold apply_header. destruct (is_hop_by_hop k) eqn:Eh; [by intros [= <-]|].
  intros H [?|Hn]; [done|].
  assert (Hne : ∀ name, header_name k = Some name → n ≠ name).
  { intros name Hname ->. apply header_name_lower in Hname. congruence. }
  assert (Hins : ∀ name val, header_name k = Some name → hm_get_all (hm_insert name val m) n = hm_get_all m n).
  { intros name val Hname. rewrite get_all_insert, decide_False by eauto. done. }
  assert (Happ : ∀ name val, header_name k = Some name → hm_get_all (hm_append name val m) n = hm_get_all m n).
  { intros name val Hname. rewrite get_all_append, decide_False by eauto. done. }
  assert (Hgen : ∀ w b, (match header_name k with
      | Some name => match header_value w with
                     | Some val => if b : bool then hm_append name val m else hm_insert name val m
                     | None => m end
      | None => m end) = m' → hm_get_all m' n = hm_get_all m n).
  { intros w b <-. destruct (header_name k) eqn:En; [|done]. destruct (header_value w); [|done].
    destruct b; eauto. }
  destruct (eq_ignore_ascii_case k (lit "location")).
  - destruct rf as [from|], rt as [to|].
    + injection H as <-. destruct (header_name k) eqn:En; [|done].
      destruct (header_value _); [|done]. eauto.
    + apply outcome_bind_ret in H as (w & _ & [= H]). eauto.
    + apply outcome_bind_ret in H as (w & _ & [= H]). eauto.
    + apply outcome_bind_ret in H as (w & _ & [= H]). eauto.
  - apply outcome_bind_ret in H as (w & _ & [= H]). eauto.
Qed.

(** hop-by-hop headers stop at the proxy.  Whatever the upstream sends,
    and in whatever letter case, the values of a hop-by-hop header
    (Connection, Transfer-Encoding, Content-Length, ...) in the client's
    response are those it had before. *)
Theorem hop_by_hop_stripped headers strip cd rf rt m m' n :
  is_hop_by_hop n = true →
  apply_response_headers m headers strip cd rf rt = Ret m' →
  hm_get_all m' (to_ascii_lowercase n) = hm_get_all m (to_ascii_lowercase n).
Proof.
  intros Hn. revert m. induction headers as [|[k v] hs IH]; intros m; cbn [apply_response_headers].
  { by intros [= <-]. }
  intros (m1 & H1 & H2)%outcome_bind_ret. rewrite (IH _ H2).
  eapply apply_header_other; [exact H1|].
  destruct (decide (to_ascii_lowercase k = to_ascii_lowercase n)) as [E|E]; [left|by right].
  by rewrite (is_hop_by_hop_case _ _ E).
Qed.

(** The Set-Cookie lines of an upstream response. *)
Definition cookies_of (headers : list (list Z * list Z)) : list (list Z) :=
  omap (λ '(k, v), if eq_ignore_ascii_case k (lit "set-cookie") then header_value v else None) headers.

(** cookies are not merged or lost.  Without cookie rewriting, the client
    receives every Set-Cookie value the upstream sent that is a legal header
    value, in the same order, after those already present; other repeated
    headers keep the last value. *)
Theorem set_cookie_forwarded headers rf rt m :
  header_name (lit "set-cookie") = Some (lit "set-cookie") →
  ∃ m', apply_response_headers m headers false None rf rt = Ret m'
    ∧ hm_get_all m' (lit "set-cookie") = hm_get_all m (lit "set-cookie") ++ cookies_of headers.
Proof.
  intros Hname. revert m. induction headers as [|[k v] hs IH]; intros m.
  { exists m. split; [done|]. cbn. by rewrite app_nil_r. }
  cbn [apply_response_headers].
  assert (Htot : ∃ m1, apply_header false None rf rt (k, v) m = Ret m1).
  { unfold apply_header. rewrite andb_false_r. cbn [mbind outcome_bind].
    repeat case_test; repeat case_match; eauto. }
  destruct Htot as [m1 H1]. destruct (IH m1) as (m' & H2 & Hc).
  exists m'. rewrite H1. cbn [mbind outcome_bind]. split; [exact H2|]. rewrite Hc.
  unfold cookies_of. cbn [omap list_omap].
  destruct (eq_ignore_ascii_case k (lit "set-cookie")) eqn:Ek.
  - assert (Hlow : to_ascii_lowercase k = lit "set-cookie") by (by apply str_eqb_eq in Ek).
    assert (Hk : header_name k = Some (lit "set-cookie")).
    { rewrite <- Hname. apply header_name_case. by rewrite Hlow. }
    unfold apply_header in H1.
    rewrite (is_hop_by_hop_case k (lit "set-cookie")) in H1 by (by rewrite Hlow).
    change (is_hop_by_hop (lit "set-cookie")) with false in H1. cbn match in H1.
    assert (Hloc : eq_ignore_ascii_case k (lit "location") = false).
    { unfold eq_ignore_ascii_case in *. rewrite Hlow. reflexivity. }
    rewrite Hloc, Ek, Hk in H1. cbn [andb orb bool_decide decide is_Some mbind outcome_bind] in H1.
    injection H1 as <-. destruct (header_value v) as [val|]; [|done].
    rewrite get_all_append, decide_True by done. by rewrite <- app_assoc.
  - rewrite (apply_header_other _ _ _ _ _ _ _ _ (lit "set-cookie") H1); [done|]. right.
    intros Hlow. unfold eq_ignore_ascii_case in Ek. rewrite Hlow in Ek. by vm_compute in Ek.
Qed.

End headers.

(** ** Cookie rewriting *)

Definition dropped (strip_secure : bool) (t : list Z) : bool :=
  strip_secure && eq_ignore_ascii_case t (lit "secure").
Definition is_domain_attr (t : list Z) : bool :=
  (7 <? length t)%nat && eq_ignore_ascii_case (take 7 t) (lit "domain=").
Definition with_domain (new_domain : option (list Z)) (t : list Z) : list Z :=
  match new_domain with
  | Some d => if is_domain_attr t then lit "Domain=" ++ d else t
  | None => t
  end.

Lemma rewrite_part_ascii strip nd p :
  is_ascii p = true →
  rewrite_part strip nd p =
    Ret (if dropped strip (trim p) then None else Some (with_domain nd (trim p))).
Proof.
  intros Ha. unfold rewrite_part, dropped, with_domain, is_domain_attr. case_test; [done|].
  destruct nd as [d|]; [|done]. destruct (Nat.ltb_spec 7 (length (trim p))); [|done].
  rewrite slice_to_ascii; [cbn [mbind outcome_bind andb]; by case_test| |lia].
  rewrite is_ascii_elem in *. intros b Hb. by apply Ha, elem_of_trim.
Qed.

(** cookie rewriting on ASCII cookies: it never panics, drops exactly the
    Secure attributes when asked to, replaces exactly the Domain attributes
    when a domain is configured, and keeps every other attribute in order. *)
Theorem rewrite_set_cookie_ascii cookie strip nd :
  is_ascii cookie = true →
  rewrite_set_cookie cookie strip nd =
    Ret (join (lit "; ")
      (with_domain nd <$> filter (λ t, dropped strip t = false)
         (trim <$> split_byte byte_semicolon cookie))).
Proof.
  intros Ha. unfold rewrite_set_cookie.
  assert (Hparts : ∀ p, p ∈ split_byte byte_semicolon cookie → is_ascii p = true).
  { intros p Hp. rewrite is_ascii_elem in *. intros b Hb. apply Ha. by eapply split_on_incl. }
  assert (Hgo : rewrite_parts strip nd (split_byte byte_semicolon cookie) =
    Ret (with_domain nd <$> filter (λ t, dropped strip t = false) (trim <$> split_byte byte_semicolon cookie))).
  { revert Hparts. generalize (split_byte byte_semicolon cookie) as ps.
    induction ps as [|p ps IH]; intros Hp; [done|]. cbn [rewrite_parts].
    rewrite rewrite_part_ascii by (apply Hp; left). cbn [mbind outcome_bind].
    rewrite IH by (intros; apply Hp; by right). cbn [mbind outcome_bind fmap list_fmap].
    rewrite filter_cons. destruct (dropped strip (trim p)); cbn; [done|]. done. }
  by rewrite Hgo.
Qed.

(** a cookie can end the process.  With a cookie domain configured, an
    attribute that has a multi-byte character across its seventh byte makes
    the rewrite of an otherwise well-formed upstream response panic. *)
Theorem multibyte_cookie_panics cookie strip d p :
  p ∈ split_byte byte_semicolon cookie →
  (7 < length (trim p))%nat → is_char_boundary (trim p) 7 = false →
  dropped strip (trim p) = false →
  rewrite_set_cookie cookie strip (Some d) = Panic.
Proof.
  intros Hp Hlen Hb Hd. unfold rewrite_set_cookie.
  assert (Hgo : ∀ ps, p ∈ ps → rewrite_parts strip (Some d) ps = Panic).
  { induction ps as [|q ps IH]; [by intros ?%not_elem_of_nil|].
    intros [->|Hin]%elem_of_cons; cbn [rewrite_parts].
    - unfold rewrite_part. unfold dropped in Hd. rewrite Hd, (proj2 (Nat.ltb_lt _ _)) by lia.
      unfold slice_to. rewrite Hb. done.
    - destruct (rewrite_part strip (Some d) q); [|done]. cbn [mbind outcome_bind]. by rewrite IH. }
  by rewrite Hgo.
Qed.

(** ** Body filters *)

Record SubFilter := mkSubFilter { sf_pattern : list Z; sf_replacement : list Z }.

Definition header_is_text (headers : list (list Z * list Z)) : bool :=
  existsb (λ '(k, v), eq_ignore_ascii_case k (lit "content-type") &&
    (contains (lit "html") v || contains (lit "json") v ||
     contains (lit "javascript") v || contains (lit "text") v)) headers.

(** [sub_filter_regex]: the global cache of compiled patterns; [build] is the
    [regex] crate's builder. *)
Definition sub_filter_regex {R} (build : list Z → option R) (pattern : list Z)
    (cache : gmap (list Z) R) : option R * gmap (list Z) R :=
  match cache !! pattern with
  | Some re => (Some re, cache)
  | None => match build pattern with
            | Some re => (Some re, <[pattern := re]> cache)
            | None => (None, cache)
            end
  end.

Section sub_filter.
Context {R : Type} (build : list Z → option R) (replace_all : R → list Z → list Z → list Z).

Fixpoint sub_filter_loop (filters : list SubFilter) (result : list Z) (cache : gmap (list Z) R)
  : list Z * gmap (list Z) R :=
  match filters with
  | [] => (result, cache)
  | f :: fs =>
      match strip_prefix (lit "~") (sf_pattern f) with
      | Some pattern =>
          let '(re, cache') := sub_filter_regex build (trim pattern) cache in
          sub_filter_loop fs
            (match re with Some re => replace_all re result (sf_replacement f) | None => result end) cache'
      | None => sub_filter_loop fs (replace (sf_pattern f) (sf_replacement f) result) cache
      end
  end.

(** [apply_sub_filter] *)
Definition apply_sub_filter (body : list Z) (headers : list (list Z * list Z)) (filters : list SubFilter)
    (cache : gmap (list Z) R) : list Z * gmap (list Z) R :=
  match filters with
  | [] => (body, cache)
  | _ =>
      if negb (header_is_text headers) then (body, cache)
      else if negb (utf8_valid body) then (body, cache)
      else sub_filter_loop filters body cache
  end.

(** The cache holds only what the builder gives. *)
Definition cache_ok (cache : gmap (list Z) R) : Prop :=
  map_Forall (λ p re, build p = Some re) cache.

Lemma sub_filter_regex_ok pattern cache :
  cache_ok cache →
  fst (sub_filter_regex build pattern cache) = build pattern
  ∧ cache_ok (snd (sub_filter_regex build pattern cache)).
Proof.
  intros Hc. unfold sub_filter_regex. destruct (cache !! pattern) as [re|] eqn:E.
  - split; [|done]. symmetry. exact (Hc _ _ E).
  - destruct (build pattern) eqn:Eb; [|done]. split; [done|].
    intros k v; cbn; intros [[<- <-]|[? ?]]%lookup_insert_Some; [done|]. by apply (Hc k v).
Qed.

(** What the filters do, without the cache. *)
Definition apply_filter (f : SubFilter) (text : list Z) : list Z :=
  match strip_prefix (lit "~") (sf_pattern f) with
  | Some pattern => match build (trim pattern) with
                    | Some re => replace_all re text (sf_replacement f)
                    | None => text
                    end
  | None => replace (sf_pattern f) (sf_replacement f) text
  end.

(** the regex cache is transparent.  From any cache built by the builder,
    sub_filter rewrites a text body exactly as applying the filters one after
    the other with freshly compiled patterns would, leaves every other body
    untouched, and keeps the cache consistent. *)
Theorem sub_filter_cache_transparent body headers filters cache :
  cache_ok cache →
  let '(body', cache') := apply_sub_filter body headers filters cache in
  body' = (if header_is_text headers && utf8_valid body then foldl (λ t f, apply_filter f t) body filters else body)
  ∧ cache_ok cache'.
Proof.
  intros Hc. unfold apply_sub_filter.
  assert (Hgo : ∀ fs t c, cache_ok c →
    fst (sub_filter_loop fs t c) = foldl (λ t f, apply_filter f t) t fs ∧ cache_ok (snd (sub_filter_loop fs t c))).
  { induction fs as [|f fs IH]; intros t c Hcc; [done|]. cbn [sub_filter_loop foldl]. unfold apply_filter at 2.
    destruct (strip_prefix (lit "~") (sf_pattern f)) as [p|]; [|by apply IH].
    destruct (sub_filter_regex_ok (trim p) c Hcc) as [Hr Hc'].
    destruct (sub_filter_regex build (trim p) c) as [re c']. cbn in Hr, Hc'. rewrite <- Hr. by apply IH. }
  destruct filters as [|f fs]; [by destruct (_ && _)|].
  destruct (header_is_text headers); cbn [negb andb]; [|done].
  destruct (utf8_valid body); cbn [negb]; [|done].
  destruct (Hgo (f :: fs) body cache Hc) as [H1 H2]. by destruct (sub_filter_loop (f :: fs) body cache).
Qed.

End sub_filter.

(** [rewrite_body_urls] of [conn.rs] *)
Definition rewrite_body_urls (bytes : list Z) (headers : list (list Z * list Z)) (from to : option (list Z))
  : list Z :=
  match from, to with
  | Some from, Some to =>
      let is_text := existsb (λ '(k, v), eq_ignore_ascii_case k (lit "content-type") &&
        (contains (lit "json") v || contains (lit "html") v ||
         contains (lit "javascript") v || contains (lit "text") v)) headers in
      if negb is_text then bytes
      else if utf8_valid bytes && contains from bytes then replace from to bytes
      else bytes
  | _, _ => bytes
  end.

(** ** Witnesses *)

Module Witness.
Import Headers.Model.

Definition hs : list (list Z * list Z) :=
  [(lit "Content-LENGTH", lit "5"); (lit "Set-Cookie", lit "a=1; Secure"); (lit "set-cookie", lit "b=2")].

Lemma hop_by_hop_stripped_witness :
  ∃ m', apply_response_headers hm_empty hs false None None None = Ret m'
    ∧ hm_get_all m' (lit "content-length") = hm_get_all hm_empty (lit "content-length").
Proof.
  eexists. split; [reflexivity|].
  apply (hop_by_hop_stripped hs false None None None hm_empty _ (lit "content-length")); reflexivity.
Defined.

Lemma set_cookie_forwarded_witness :
  ∃ m', apply_response_headers hm_empty hs false None None None = Ret m'
    ∧ hm_get_all m' (lit "set-cookie") = [] ++ [lit "a=1; Secure"; lit "b=2"].
Proof.
  destruct (set_cookie_forwarded hs None None hm_empty) as (m' & H1 & H2); [reflexivity|].
  exists m'. split; [exact H1|]. rewrite H2. vm_compute. reflexivity.
Defined.

Lemma rewrite_set_cookie_ascii_witness :
  rewrite_set_cookie (lit "sid=1; Domain=up.internal; Secure; Path=/") true (Some (lit "example.com"))
  = Ret (lit "sid=1; Domain=example.com; Path=/").
Proof.
  rewrite (rewrite_set_cookie_ascii (lit "sid=1; Domain=up.internal; Secure; Path=/") true (Some (lit "example.com"))
    eq_refl). vm_compute. reflexivity.
Defined.

(** A cookie named with six ASCII letters and one accented letter. *)
Lemma multibyte_cookie_panics_witness :
  rewrite_set_cookie (lit "abcdef" ++ [195; 169] ++ lit "=1") false (Some (lit "example.com")) = Panic.
Proof.
  apply (multibyte_cookie_panics (lit "abcdef" ++ [195; 169] ++ lit "=1") false (lit "example.com")
    (lit "abcdef" ++ [195; 169] ++ lit "=1")); [left|vm_compute; lia|reflexivity|reflexivity].
Defined.

Lemma sub_filter_cache_transparent_witness :
  fst (apply_sub_filter (λ p, Some p) (λ re t r, replace re r t) (lit "up.internal/x")
         [(lit "Content-Type", lit "text/html")] [mkSubFilter (lit "~up.internal") (lit "example.com")] ∅)
  = lit "example.com/x".
Proof.
  pose proof (sub_filter_cache_transparent (λ p, Some p) (λ re t r, replace re r t) (lit "up.internal/x")
    [(lit "Content-Type", lit "text/html")] [mkSubFilter (lit "~up.internal") (lit "example.com")] ∅
    ltac:(intros k v Hk; by rewrite lookup_empty in Hk)) as H.
  destruct (apply_sub_filter _ _ _ _ _ _) as [b c]. destruct H as [-> _]. vm_compute. reflexivity.
Defined.

End Witness.
