(* ===== verification/Http1.v ===== *)
(** * Talking HTTP/1.1 to an upstream: [src/handler/reverse_proxy/conn.rs]

    The request head and body that are written, and the readers of the
    response.  What the upstream sends is a list of bytes and the way its side
    ends; every [read] may return any non-empty part of what is asked for,
    chosen by a schedule. *)

From S2P Require Import Prelude RustStr IpAddr Retry.

(** ** Streams *)

(** How the upstream's side ends: a clean close, an I/O error (for TLS without
    close-notify an [UnexpectedEof]), or not at all (the connection stays open
    and silent). *)
Inductive stream_end := EndEof | EndErr (k : ErrorKind) | EndOpen.

#[export] Instance stream_end_eq_dec : EqDecision stream_end.
Proof. solve_decision. Defined.

(** Results of I/O: a value, an error, or waiting for ever. *)
Inductive io (A : Type) : Type :=
| Done (a : A)
| Failed
| Blocked.
Arguments Done {A} a.
Arguments Failed {A}.
Arguments Blocked {A}.

#[export] Instance io_ret : MRet io := λ A a, Done a.
#[export] Instance io_bind : MBind io := λ A B f m,
  match m with Done a => f a | Failed => Failed | Blocked => Blocked end.

(** One [read] of at most [want] bytes; [n] is the schedule's choice. *)
Definition read_len (n want avail : nat) : nat := Nat.max 1 (Nat.min n (Nat.min want avail)).

(** [read_line]: up to and including the line feed, or to the end.  Bytes that
    are not UTF-8 are an error. *)
Inductive line_result :=
| Line (l : list Z)          (* [Ok(n)]; empty at the end of the stream *)
| LineErr (k : ErrorKind) (l : list Z)    (* an error after the text [l] *)
| LineBlocked.

Definition read_line (s : list Z) (e : stream_end) : line_result * list Z :=
  match find_byte LF s with
  | Some i => let l := take (S i) s in
              (if utf8_valid l then Line l else LineErr OtherKind [], drop (S i) s)
  | None =>
      (match e with
       | EndEof => if utf8_valid s then Line s else LineErr OtherKind []
       | EndErr k => LineErr k (if utf8_valid s then s else [])
       | EndOpen => LineBlocked
       end, [])
  end.

(** ** Request head *)

(** [push_sanitized_value]: [b as char] on the slow path encodes a byte of
    0x80 and above as two. *)
Definition push_char (b : Z) : list Z :=
  if b <? 128 then [b] else [192 + b / 64; 128 + b mod 64].

Definition push_sanitized_value (buf val : list Z) : list Z :=
  if negb (existsb (λ b, (b =? CR) || (b =? LF)) val) then buf ++ val
  else foldl (λ buf b, if (b =? CR) || (b =? LF) then buf ++ [SP] else buf ++ push_char b) buf val.

Definition CRLF : list Z := [CR; LF].

Definition push_safe_header (buf name value : list Z) : list Z :=
  push_sanitized_value (push_sanitized_value buf name ++ lit ": ") value ++ CRLF.

Definition has_body (method : list Z) : bool :=
  existsb (str_eqb method) [lit "POST"; lit "PUT"; lit "PATCH"; lit "DELETE"].

Definition skipped_request_header (k : list Z) : bool :=
  eq_ignore_ascii_case k (lit "content-length") || eq_ignore_ascii_case k (lit "transfer-encoding")
  || eq_ignore_ascii_case k (lit "expect").

Definition push_extra_headers (req : list Z) (extra : list (list Z * list Z)) : list Z :=
  foldl (λ req '(k, v), if skipped_request_header k then req else push_safe_header req k v) req extra.

(** The request head built by [send_recv_pooled]. *)
Definition request_head (method path host : list Z) (extra : list (list Z * list Z))
    (client_ip client_proto : list Z) (known_content_length : option Z) (has_expect_continue : bool) : list Z :=
  let hb := has_body method in
  let use_chunked := hb && bool_decide (known_content_length = None) in
  let req := method ++ [SP] ++ path ++ lit " HTTP/1.1" ++ CRLF ++ lit "Host: " ++ host ++ CRLF in
  let req := push_extra_headers req extra in
  let req := push_sanitized_value (req ++ lit "X-Real-IP: ") client_ip ++ CRLF in
  let req := push_sanitized_value (req ++ lit "X-Forwarded-For: ") client_ip ++ CRLF in
  let req := push_sanitized_value (req ++ lit "X-Forwarded-Proto: ") client_proto
               ++ CRLF ++ lit "Connection: keep-alive" ++ CRLF in
  let req :=
    if hb then
      let req := if use_chunked then req ++ lit "Transfer-Encoding: chunked" ++ CRLF
                 else match known_content_length with
                      | Some len => req ++ lit "Content-Length: " ++ dec len ++ CRLF
                      | None => req
                      end in
      if has_expect_continue then req ++ lit "Expect: 100-continue" ++ CRLF else req
    else req in
  req ++ CRLF.

(** The two lookups [forward_request] makes in the client's headers. *)
Definition known_content_length_of (extra : list (list Z * list Z)) : option Z :=
  match find_first (λ kv, eq_ignore_ascii_case (fst kv) (lit "content-length")) extra with
  | Some (_, v) => parse_uint u64_max v
  | None => None
  end.

Definition has_expect_continue_of (extra : list (list Z * list Z)) : bool :=
  existsb (λ kv, eq_ignore_ascii_case (fst kv) (lit "expect")
                 && eq_ignore_ascii_case (snd kv) (lit "100-continue")) extra.

(** ** Request body: [pipe_request_body] *)

Inductive body_item :=
| BodyChunk (bs : list Z)
| BodyError
| BodyTimeout.

(** [{:x}] of a [usize]: sixteen digits are enough. *)
Definition hex (z : Z) : list Z := to_hex 16 z.

Inductive pipe_error := PipeReadTimeout | PipeBody | PipeWrite.

(** The bytes written; [write_ok i] tells whether the [i]-th timed write
    succeeds. *)
Fixpoint pipe_chunks (items : list body_item) (use_chunked : bool) (write_ok : nat → bool) (i : nat)
  : result (list Z * nat) pipe_error :=
  match items with
  | [] => Ok ([], i)
  | BodyTimeout :: _ => Err PipeReadTimeout
  | BodyError :: _ => Err PipeBody
  | BodyChunk bs :: items =>
      match bs with
      | [] => pipe_chunks items use_chunked write_ok i
      | _ =>
          let out := if use_chunked then hex (Z.of_nat (length bs)) ++ CRLF ++ bs ++ CRLF else bs in
          if write_ok i then
            match pipe_chunks items use_chunked write_ok (S i) with
            | Ok (rest, j) => Ok (out ++ rest, j)
            | Err e => Err e
            end
          else Err PipeWrite
      end
  end.

Definition pipe_request_body (items : list body_item) (use_chunked : bool) (write_ok : nat → bool)
  : result (list Z) pipe_error :=
  match pipe_chunks items use_chunked write_ok 0 with
  | Err e => Err e
  | Ok (out, i) =>
      if write_ok i then Ok (if use_chunked then out ++ lit "0" ++ CRLF ++ CRLF else out)
      else Err PipeWrite
  end.

(** ** Response bodies *)

Definition BUFFERED_MAX_BODY : Z := 268435456.
Definition CHUNKED_MAX_BODY : Z := 268435456.
Definition CHUNKED_MAX_CHUNK : Z := 67108864.
Definition CHUNKED_MAX_TRAILERS : nat := 100.

(** The read loop shared by the body readers: read until [remaining] bytes
    are in or the stream ends.  [cap] bounds one read.  [remaining] reads are
    always enough, since each returns at least one byte. *)
Fixpoint read_full (fuel : nat) (sched : nat → nat) (k : nat) (cap : Z) (remaining : nat) (s : list Z) (e : stream_end)
  : io (list Z * list Z * nat) :=
  match fuel with
  | O => Done ([], s, k)
  | S fuel =>
      match remaining with
      | O => Done ([], s, k)
      | _ =>
          match s with
          | [] => match e with
                  | EndEof | EndErr UnexpectedEof => Done ([], [], k)
                  | EndErr _ => Failed
                  | EndOpen => Blocked
                  end
          | _ =>
              let n := read_len (sched k) (Z.to_nat (Z.min (Z.of_nat remaining) cap)) (length s) in
              '(b, s', k') ← read_full fuel sched (S k) cap (remaining - n) (drop n s) e;
              Done (take n s ++ b, s', k')
          end
      end
  end.

(** [read_exact_body] *)
Definition read_exact_body (sched : nat → nat) (k : nat) (len : Z) (s : list Z) (e : stream_end)
  : io (list Z * list Z * nat) :=
  let capped := Z.to_nat (Z.min len BUFFERED_MAX_BODY) in
  read_full (S capped) sched k 65536 capped s e.

(** The EOF-delimited body of [send_recv_pooled]: errors end it too. *)
Fixpoint read_to_end (fuel : nat) (sched : nat → nat) (k : nat) (b : list Z) (s : list Z) (e : stream_end)
  : io (list Z * list Z) :=
  match fuel with
  | O => Done (b, s)
  | S fuel =>
      match s with
      | [] => match e with EndOpen => Blocked | _ => Done (b, []) end
      | _ =>
          let n := read_len (sched k) (Z.to_nat 65536) (length s) in
          let b' := b ++ take n s in
          if BUFFERED_MAX_BODY <? Z.of_nat (length b') then Done (b', drop n s)
          else read_to_end fuel sched (S k) b' (drop n s) e
      end
  end.

(** A header line of the response or a trailer: split at the first colon. *)
Definition split_header (trimmed : list Z) : option (list Z * list Z) :=
  match find_byte byte_colon trimmed with
  | Some colon => Some (trim (take colon trimmed), trim (drop (S colon) trimmed))
  | None => None
  end.

Fixpoint read_trailers (fuel : nat) (trailers : list (list Z * list Z)) (s : list Z) (e : stream_end)
  : io (list (list Z * list Z) * list Z) :=
  match fuel with
  | O => Done (trailers, s)
  | S fuel =>
      if (CHUNKED_MAX_TRAILERS <=? length trailers)%nat then Done (trailers, s)
      else match read_line s e with
           | (LineBlocked, _) => Blocked
           | (Line [], s') | (LineErr _ _, s') => Done (trailers, s')
           | (Line l, s') =>
               let trimmed := trim l in
               match trimmed with
               | [] => Done (trailers, s')
               | _ => read_trailers fuel
                        (match split_header trimmed with Some kv => trailers ++ [kv] | None => trailers end) s' e
               end
           end
  end.

(** [usize::from_str_radix(size_str, 16).unwrap_or(0)] of a chunk-size line. *)
Definition chunk_size_of (size_line : list Z) : Z :=
  match from_str_radix 16 u64_max (before_byte byte_semicolon (trim size_line)) with
  | Some n => n
  | None => 0
  end.

(** [read_chunked_body]: every round consumes at least one byte, so the
    length of the stream bounds the rounds. *)
Fixpoint read_chunks (fuel : nat) (sched : nat → nat) (k : nat) (collect_trailers : bool)
    (body : list Z) (s : list Z) (e : stream_end)
  : io (list Z * list (list Z * list Z) * list Z) :=
  match fuel with
  | O => Done (body, [], s)
  | S fuel =>
      match read_line s e with
      | (LineBlocked, _) => Blocked
      | (Line [], s1) | (LineErr _ _, s1) => Done (body, [], s1)
      | (Line size_line, s1) =>
          if (64 <? length size_line)%nat then Done (body, [], s1)
          else
            let chunk_size := chunk_size_of size_line in
            if chunk_size =? 0 then
              if collect_trailers then
                '(ts, s2) ← read_trailers (S (length s1)) [] s1 e; Done (body, ts, s2)
              else
                match read_line s1 e with
                | (LineBlocked, _) => Blocked
                | (_, s2) => Done (body, [], s2)
                end
            else if (CHUNKED_MAX_CHUNK <? chunk_size) || (CHUNKED_MAX_BODY <? Z.of_nat (length body) + chunk_size)
            then Done (body, [], s1)
            else
              let n := Z.to_nat chunk_size in
              '(data, s2, k') ← read_full (S n) sched k chunk_size n s1 e;
              match read_line s2 e with
              | (LineBlocked, _) => Blocked
              | (_, s3) => read_chunks fuel sched k' collect_trailers (body ++ data) s3 e
              end
      end
  end.

Definition read_chunked_body (sched : nat → nat) (collect_trailers : bool) (s : list Z) (e : stream_end)
  : io (list Z * list (list Z * list Z) * list Z) :=
  read_chunks (S (length s)) sched 0 collect_trailers [] s e.

(** ** Readers do not depend on how the bytes arrive *)

Lemma read_len_bounds n want avail :
  (1 ≤ want)%nat → (1 ≤ avail)%nat → (1 ≤ read_len n want avail ≤ Nat.min want avail)%nat.
Proof. unfold read_len. lia. Qed.

Lemma take_drop_take {A} n m (s : list A) : (n ≤ m)%nat → take n s ++ take (m - n) (drop n s) = take m s.
Proof. intros. replace m with (n + (m - n))%nat at 2 by lia. by rewrite take_take_drop. Qed.

(** Enough data, or a stream that ends, gives the first [r] bytes under every
    schedule. *)
Lemma read_full_spec fuel sched k cap r s e :
  (r < fuel)%nat → 1 ≤ cap → (r ≤ length s)%nat ∨ e = EndEof ∨ e = EndErr UnexpectedEof →
  ∃ k', read_full fuel sched k cap r s e = Done (take r s, drop r s, k').
Proof.
  revert k r s; induction fuel as [|fuel IH]; intros k r s Hf Hc He; [lia|].
  cbn [read_full]. destruct r as [|r]; [by exists k|].
  destruct s as [|b s]; [destruct He as [He|[->| ->]]; [cbn in He; lia|by exists k..]|].
  set (n := read_len _ _ _).
  assert (Hn : (1 ≤ n ≤ Nat.min (S r) (length (b :: s)))%nat).
  { pose proof (read_len_bounds (sched k) (Z.to_nat (Z.min (Z.of_nat (S r)) cap)) (length (b :: s))) as H.
    fold n in H. cbn [length] in *. lia. }
  destruct (IH (S k) (S r - n)%nat (drop n (b :: s))) as [k' Hk']; [lia|done| |].
  { rewrite length_drop. destruct He as [He|He]; [left; lia|auto]. }
  exists k'. rewrite Hk'. cbn [mbind io_bind]. do 2 f_equal. f_equal.
  - apply take_drop_take. lia.
  - rewrite drop_drop. f_equal. lia.
Qed.

Lemma read_line_field l rest e :
  field l → read_line (l ++ CR :: LF :: rest) e = (Line (l ++ CRLF), rest).
Proof.
  intros Hl. unfold read_line.
  assert (find_byte LF (l ++ CR :: LF :: rest) = Some (length (l ++ [CR]))) as ->.
  { apply find_byte_Some. exists (l ++ [CR]), rest. rewrite <- app_assoc. split_and!; [done| |done].
    rewrite not_elem_of_app, list_elem_of_singleton. split; [by apply field_no_lf|done]. }
  assert (E : l ++ CR :: LF :: rest = (l ++ CRLF) ++ rest) by (rewrite <- app_assoc; reflexivity).
  rewrite E. rewrite (take_app_length' _ _ (S (length (l ++ [CR])))) by (rewrite !length_app; cbn; lia).
  rewrite (drop_app_length' _ _ (S (length (l ++ [CR])))) by (rewrite !length_app; cbn; lia).
  rewrite utf8_valid_ascii; [done|]. rewrite is_ascii_app, field_ascii by done. done.
Qed.

(** ** Chunked bodies round-trip *)

Lemma field_hex_z z : 0 ≤ z → field (hex z).
Proof. apply field_hex. Qed.

Lemma chunk_size_hex z : 0 ≤ z ≤ u64_max → chunk_size_of (hex z ++ CRLF) = z.
Proof.
  intros Hz. unfold chunk_size_of, CRLF.
  rewrite trim_field_crlf by (apply field_hex_z; lia).
  assert (Hb : before_byte byte_semicolon (hex z) = hex z).
  { unfold before_byte. destruct (find_byte byte_semicolon (hex z)) as [i|] eqn:E; [|done].
    exfalso. assert (Hin : byte_semicolon ∈ hex z).
    { destruct (find_byte byte_semicolon (hex z)) eqn:E2; [|done]. destruct (decide (byte_semicolon ∈ hex z)); [done|].
      apply find_byte_None in n0. congruence. }
    pose proof (to_hex_digits 16 z (proj1 Hz)) as Hd. fold (hex z) in Hd.
    apply (proj1 (Forall_forall _ _) Hd) in Hin. by destruct Hin. }
  rewrite Hb. unfold from_str_radix. pose proof (to_hex_nonempty 16 z) as Hne. fold (hex z) in Hne.
  pose proof (to_hex_digits 16 z (proj1 Hz)) as Hd. fold (hex z) in Hd.
  pose proof (to_hex_parse 16 z u64_max Hz) as Hp. fold (hex z) in Hp.
  destruct (hex z) as [|b t]; [by destruct Hne|].
  assert (b =? byte_plus = false) as ->.
  { apply Z.eqb_neq. intros ->. inversion Hd as [|? ? [d Hx]]. discriminate Hx. }
  rewrite Hp; [done|unfold u64_max in *; cbn; lia|done].
Qed.

Lemma hex_length z : (length (hex z) ≤ 16)%nat.
Proof. apply to_hex_length. Qed.

(** One chunk is read whole. *)
Lemma read_chunks_step fuel sched k ct body bs rest e :
  bs ≠ [] → Z.of_nat (length bs) ≤ CHUNKED_MAX_CHUNK →
  Z.of_nat (length body + length bs) ≤ CHUNKED_MAX_BODY →
  ∃ k', read_chunks (S fuel) sched k ct body (hex (Z.of_nat (length bs)) ++ CRLF ++ bs ++ CRLF ++ rest) e
    = read_chunks fuel sched k' ct (body ++ bs) rest e.
Proof.
  intros Hbs Hc Hb. set (n := Z.of_nat (length bs)) in *.
  assert (Hn : 0 < n) by (unfold n; destruct bs; [done|cbn; lia]).
  assert (Hfield : field (hex n)) by (apply field_hex_z; lia).
  cbn [read_chunks]. unfold CRLF at 1. cbn [app]. rewrite read_line_field by done.
  destruct (hex n ++ CRLF) as [|x l] eqn:E; [by apply app_nil in E as [_ ?]|].
  rewrite <- E. rewrite (proj2 (Nat.ltb_ge _ _)) by (rewrite length_app; pose proof (hex_length n); change (length CRLF) with 2%nat; lia).
  rewrite chunk_size_hex by (unfold CHUNKED_MAX_CHUNK, u64_max in *; lia).
  rewrite (proj2 (Z.eqb_neq _ _)) by lia.
  rewrite (proj2 (Z.ltb_ge _ _)) by done.
  rewrite (proj2 (Z.ltb_ge _ _)) by (unfold n in *; lia). cbn [orb].
  replace (Z.to_nat n) with (length bs) by (unfold n; lia).
  destruct (read_full_spec (S (length bs)) sched k n (length bs) (bs ++ CRLF ++ rest) e) as [k' ->];
    [lia|lia|left; rewrite length_app; lia|].
  cbn [mbind io_bind]. rewrite take_app_length, drop_app_length.
  change (CRLF ++ rest) with ([] ++ CR :: LF :: rest). rewrite read_line_field by constructor.
  by exists k'.
Qed.

(** The data carried by a request body. *)
Fixpoint body_data (items : list body_item) : list Z :=
  match items with
  | BodyChunk bs :: items => bs ++ body_data items
  | _ => []
  end.
Definition chunk_ok (i : body_item) : Prop :=
  match i with BodyChunk bs => Z.of_nat (length bs) ≤ CHUNKED_MAX_CHUNK | _ => True end.

(** The number of chunks written. *)
Fixpoint chunk_count (items : list body_item) : nat :=
  match items with
  | BodyChunk (_ :: _) :: items => S (chunk_count items)
  | BodyChunk [] :: items => chunk_count items
  | _ => O
  end.

Lemma pipe_chunks_read items write_ok i out j fuel sched k ct body rest e :
  pipe_chunks items true write_ok i = Ok (out, j) → Forall chunk_ok items →
  Z.of_nat (length body + length (body_data items)) ≤ CHUNKED_MAX_BODY →
  ∃ k', read_chunks (chunk_count items + fuel) sched k ct body (out ++ rest) e
    = read_chunks fuel sched k' ct (body ++ body_data items) rest e.
Proof.
  intros Hp Hok. revert i out body k Hp.
  induction Hok as [|it items Hit _ IH]; intros i out body k Hp Hb.
  { injection Hp as <- <-. exists k. cbn. by rewrite app_nil_r. }
  destruct it as [bs| |]; [|done..]. cbn [pipe_chunks body_data chunk_count] in *.
  destruct bs as [|b bs]; [cbn [app] in *; eapply IH; eauto|].
  destruct (write_ok i); [|done].
  destruct (pipe_chunks items true write_ok (S i)) as [[out' j']|] eqn:E; [|done].
  set (c := b :: bs) in *. rewrite length_app in Hb.
  assert (out = (hex (Z.of_nat (length c)) ++ CRLF ++ c ++ CRLF) ++ out') as -> by congruence.
  assert (j' = j) as -> by congruence. clear Hp.
  replace ((hex (Z.of_nat (length c)) ++ CRLF ++ c ++ CRLF) ++ out') with
    (hex (Z.of_nat (length c)) ++ CRLF ++ c ++ CRLF ++ out') by (by rewrite <- !app_assoc).
  rewrite <- !app_assoc. cbn [Nat.add].
  destruct (read_chunks_step (chunk_count items + fuel) sched k ct body c (out' ++ rest) e) as [k1 ->];
    [done|done|lia|].
  destruct (IH (S i) out' (body ++ c) k1 E) as [k2 ->]; [rewrite length_app; lia|].
  exists k2. by rewrite <- app_assoc.
Qed.

Lemma pipe_chunks_count items write_ok i out j :
  pipe_chunks items true write_ok i = Ok (out, j) → (chunk_count items ≤ length out)%nat.
Proof.
  revert i out j; induction items as [|[bs| |] items IH]; intros i out j; cbn [pipe_chunks chunk_count];
    [intros [= <- <-]; done| |done..].
  destruct bs as [|b bs]; [apply IH|]. destruct (write_ok i); [|done].
  destruct (pipe_chunks items true write_ok (S i)) as [[out' j']|] eqn:E; [|done]. intros [= <- <-].
  apply IH in E. rewrite !length_app. cbn. lia.
Qed.

(** C10: chunked encoding round-trips.  A request body piped to the upstream in
    any pieces (each within 64 MiB, 256 MiB together), read back by the
    chunked decoder from any stream that continues with other bytes and under
    any schedule of partial reads, is the concatenation of the pieces; the
    decoder stops exactly at the end of the body. *)
Theorem chunked_roundtrip items write_ok out rest sched e :
  pipe_request_body items true write_ok = Ok out → Forall chunk_ok items →
  Z.of_nat (length (body_data items)) ≤ CHUNKED_MAX_BODY →
  read_chunked_body sched false (out ++ rest) e = Done (body_data items, [], rest).
Proof.
  unfold pipe_request_body. intros Hp Hok Hb.
  destruct (pipe_chunks items true write_ok 0) as [[o j]|] eqn:E; [|done].
  destruct (write_ok j); [|done].
  assert (out = o ++ lit "0" ++ CRLF ++ CRLF) as -> by congruence. unfold read_chunked_body.
  pose proof (pipe_chunks_count _ _ _ _ _ E) as Hc.
  set (fuel := S (length ((o ++ lit "0" ++ CRLF ++ CRLF) ++ rest))).
  assert (Hf : ∃ f, fuel = (chunk_count items + S f)%nat).
  { exists (length ((o ++ lit "0" ++ CRLF ++ CRLF) ++ rest) - chunk_count items)%nat. unfold fuel.
    rewrite !length_app. lia. }
  destruct Hf as [f Hf]. rewrite Hf. clear fuel Hf. rewrite <- app_assoc.
  destruct (pipe_chunks_read items write_ok 0 o j (S f) sched 0 false [] ((lit "0" ++ CRLF ++ CRLF) ++ rest) e)
    as [k' ->]; [done|done|done|]. cbn [app read_chunks].
  change ((lit "0" ++ CRLF ++ CRLF) ++ rest) with (lit "0" ++ CR :: LF :: CRLF ++ rest).
  rewrite read_line_field by (repeat constructor).
  change (lit "0" ++ CRLF) with [48; 13; 10]. cbn [length Nat.ltb Nat.leb].
  change (chunk_size_of [48; 13; 10]) with 0. cbn [Z.eqb].
  change (CRLF ++ rest) with ([] ++ CR :: LF :: rest). by rewrite read_line_field by constructor.
Qed.

(** fixed-length bodies.  With Content-Length [len] of at most 256 MiB and
    a stream that delivers that many bytes or ends, the reader returns exactly
    the first [len] bytes whatever the sizes of the individual reads, leaves
    the rest, and does not block. *)
Theorem read_exact_body_spec sched k len s e :
  0 ≤ len ≤ BUFFERED_MAX_BODY → len ≤ Z.of_nat (length s) ∨ e = EndEof ∨ e = EndErr UnexpectedEof →
  ∃ k', read_exact_body sched k len s e = Done (take (Z.to_nat len) s, drop (Z.to_nat len) s, k').
Proof.
  intros Hl He. unfold read_exact_body. rewrite Z.min_l by lia.
  apply read_full_spec; [lia|lia|]. destruct He as [He|He]; [left; lia|auto].
Qed.

(** ** The request head cannot be injected into *)

(** What [push_sanitized_value] appends. *)
Definition san (val : list Z) : list Z := push_sanitized_value [] val.

Lemma push_sanitized_app buf val : push_sanitized_value buf val = buf ++ san val.
Proof.
  unfold san, push_sanitized_value. case_test; [done|].
  assert (H : ∀ (f : Z → list Z) l b,
    foldl (λ buf b, if (b =? CR) || (b =? LF) then buf ++ [SP] else buf ++ f b) b l
    = b ++ foldl (λ buf b, if (b =? CR) || (b =? LF) then buf ++ [SP] else buf ++ f b) [] l).
  { intros f l. induction l as [|x l IH]; intros b; cbn [foldl]; [by rewrite app_nil_r|].
    rewrite IH, (IH (if (x =? CR) || (x =? LF) then [] ++ [SP] else [] ++ f x)).
    case_test; by rewrite <- app_assoc. }
  apply H.
Qed.

Definition no_crlf (s : list Z) : Prop := CR ∉ s ∧ LF ∉ s.

Lemma no_crlf_app a b : no_crlf a → no_crlf b → no_crlf (a ++ b).
Proof. unfold no_crlf. rewrite !not_elem_of_app. naive_solver. Qed.

Lemma san_no_crlf val : no_crlf (san val).
Proof.
  unfold san, push_sanitized_value. destruct (existsb _ val) eqn:E; cbn [negb app].
  - clear E. assert (H : ∀ l b, no_crlf b → no_crlf (foldl (λ buf b,
      if (b =? CR) || (b =? LF) then buf ++ [SP] else buf ++ push_char b) b l)).
    { induction l as [|x l IH]; intros b Hb; cbn [foldl]; [done|]. apply IH.
      destruct ((x =? CR) || (x =? LF)) eqn:Ex; apply no_crlf_app; try done;
        [split; by rewrite list_elem_of_singleton|].
      apply orb_false_iff in Ex as [Hx1 Hx2]. zbool. unfold push_char, no_crlf, CR, LF in *.
      destruct (Z.ltb_spec x 128).
      - rewrite !list_elem_of_singleton. split; congruence.
      - split; intros Hin; rewrite !elem_of_cons in Hin;
          destruct Hin as [?|[?|Hin]]; try (by apply not_elem_of_nil in Hin);
          Z.to_euclidean_division_equations; lia. }
    apply H. split; apply not_elem_of_nil.
  - split; intros Hin; apply not_true_iff_false in E; apply E, existsb_exists;
      eexists; (split; [by apply list_elem_of_In|]); by rewrite Z.eqb_refl, ?orb_true_r.
Qed.

Lemma san_id val : no_crlf val → san val = val.
Proof.
  intros [H1 H2]. unfold san, push_sanitized_value.
  assert (existsb (λ b, (b =? CR) || (b =? LF)) val = false) as ->; [|done].
  apply not_true_iff_false. intros (x & Hx%list_elem_of_In & Hb)%existsb_exists. zbool; subst; done.
Qed.

Definition kept (extra : list (list Z * list Z)) : list (list Z * list Z) :=
  filter (λ kv, skipped_request_header (fst kv) = false) extra.

(** The header lines of the request, in order. *)
Definition header_lines (method host : list Z) (extra : list (list Z * list Z)) (client_ip client_proto : list Z)
    (known_content_length : option Z) (has_expect_continue : bool) : list (list Z) :=
  (lit "Host: " ++ host) :: ((λ '(k, v), san k ++ lit ": " ++ san v) <$> kept extra) ++
  [lit "X-Real-IP: " ++ san client_ip; lit "X-Forwarded-For: " ++ san client_ip;
   lit "X-Forwarded-Proto: " ++ san client_proto; lit "Connection: keep-alive"] ++
  (if has_body method then
     match known_content_length with
     | None => [lit "Transfer-Encoding: chunked"]
     | Some len => [lit "Content-Length: " ++ dec len]
     end ++ (if has_expect_continue then [lit "Expect: 100-continue"] else [])
   else []).

Definition render (lines : list (list Z)) : list Z := concat ((λ l, l ++ CRLF) <$> lines) ++ CRLF.

Lemma push_extra_lines req extra :
  push_extra_headers req extra
  = req ++ concat ((λ l, l ++ CRLF) <$> ((λ '(k, v), san k ++ lit ": " ++ san v) <$> kept extra)).
Proof.
  unfold push_extra_headers, kept. revert req; induction extra as [|[k v] extra IH]; intros req; cbn [foldl].
  { by rewrite app_nil_r. }
  rewrite IH, filter_cons. cbn [fst]. destruct (skipped_request_header k); cbn [decide].
  - rewrite decide_False by done. done.
  - rewrite decide_True by done. cbn [fmap list_fmap concat]. unfold push_safe_header.
    rewrite !push_sanitized_app. by rewrite <- !app_assoc.
Qed.

Lemma request_head_lines method path host extra ip proto kcl hec :
  request_head method path host extra ip proto kcl hec
  = render ((method ++ [SP] ++ path ++ lit " HTTP/1.1")
            :: header_lines method host extra ip proto kcl hec).
Proof.
  unfold request_head, header_lines, render. cbv zeta.
  rewrite push_extra_lines, !push_sanitized_app.
  cbn [fmap list_fmap concat]. rewrite fmap_app, concat_app.
  set (X := concat ((λ l, l ++ CRLF) <$> ((λ '(k, v), san k ++ lit ": " ++ san v) <$> kept extra))).
  destruct (has_body method); cbn [andb]; [destruct kcl as [len|], hec|];
    rewrite ?bool_decide_false, ?bool_decide_true by done; cbn [app fmap list_fmap concat];
    repeat rewrite <- app_assoc; cbn [app]; repeat rewrite <- app_assoc; reflexivity.
Qed.

(** The name of a header line, lower case. *)
Definition line_name (l : list Z) : list Z := to_ascii_lowercase (before_byte byte_colon l).
Definition framing_line (l : list Z) : bool :=
  str_eqb (line_name l) (lit "content-length") || str_eqb (line_name l) (lit "transfer-encoding").

Definition name_ok (k : list Z) : Prop := no_crlf k ∧ byte_colon ∉ k.

Lemma before_colon k rest : byte_colon ∉ k → before_byte byte_colon (k ++ byte_colon :: rest) = k.
Proof.
  intros Hk. unfold before_byte.
  assert (find_byte byte_colon (k ++ byte_colon :: rest) = Some (length k)) as ->.
  { apply find_byte_Some. eauto. }
  apply take_app_length.
Qed.

Lemma kept_not_framing extra :
  Forall (λ kv, name_ok (fst kv)) extra →
  filter (λ l, framing_line l = true) ((λ '(k, v), san k ++ lit ": " ++ san v) <$> kept extra) = [].
Proof.
  intros H. unfold kept. induction H as [|[k v] extra [Hk Hcol] _ IH]; [done|]. rewrite filter_cons. cbn [fst].
  destruct (skipped_request_header k) eqn:Es; [by rewrite decide_False by done|].
  rewrite decide_True by done. cbn [fmap list_fmap]. rewrite filter_cons, decide_False; [done|].
  cbn [fst] in *. rewrite san_id by done. unfold framing_line, line_name.
  change (k ++ lit ": " ++ san v) with (k ++ byte_colon :: ([SP] ++ san v)). rewrite before_colon by done.
  unfold skipped_request_header, eq_ignore_ascii_case in Es. apply orb_false_iff in Es as [[E1 E2]%orb_false_iff _].
  apply not_true_iff_false, orb_false_iff.
  change (to_ascii_lowercase (lit "content-length")) with (lit "content-length") in E1.
  change (to_ascii_lowercase (lit "transfer-encoding")) with (lit "transfer-encoding") in E2. done.
Qed.

Lemma no_crlf_lit l r :
  forallb (λ b, negb ((b =? CR) || (b =? LF))) l = true → l ≠ [] → no_crlf r → no_crlf (l ++ r) ∧ l ++ r ≠ [].
Proof.
  intros Hl Hne Hr. split; [|intros [? ?]%app_nil; done]. apply no_crlf_app; [|done].
  rewrite forallb_forall in Hl. split; intros Hin%list_elem_of_In%Hl; discriminate.
Qed.

Lemma no_crlf_dec n : 0 ≤ n → no_crlf (dec n).
Proof. intros Hn. pose proof (field_digits _ (dec_digits n Hn)). split; [by apply field_no_cr|by apply field_no_lf]. Qed.

(** A fixed line name is or is not a framing name whatever follows it. *)
Lemma framing_line_lit name rest :
  byte_colon ∉ name →
  framing_line (name ++ byte_colon :: rest)
  = str_eqb (to_ascii_lowercase name) (lit "content-length")
    || str_eqb (to_ascii_lowercase name) (lit "transfer-encoding").
Proof. intros Hn. unfold framing_line, line_name. by rewrite before_colon. Qed.

Lemma header_lines_clean method host extra ip proto kcl hec :
  no_crlf host → from_option (λ n, 0 ≤ n) True kcl →
  Forall (λ l, no_crlf l ∧ l ≠ []) (header_lines method host extra ip proto kcl hec).
Proof.
  intros Hh Hk. unfold header_lines. assert (Hnil : no_crlf []) by (split; apply not_elem_of_nil).
  assert (Hlit : ∀ l r, forallb (λ b, negb ((b =? CR) || (b =? LF))) l = true → l ≠ [] → no_crlf r →
    no_crlf (l ++ r) ∧ l ++ r ≠ []) by apply no_crlf_lit.
  constructor; [by apply Hlit|]. apply Forall_app. split; [|apply Forall_app; split].
  - apply Forall_fmap, Forall_forall. intros [k v] _.
    change (no_crlf (san k ++ lit ": " ++ san v) ∧ san k ++ lit ": " ++ san v ≠ []). split.
    + apply no_crlf_app; [apply san_no_crlf|]. apply (Hlit (lit ": ") (san v)); [done|done|apply san_no_crlf].
    + intros [_ H]%app_nil. discriminate H.
  - repeat (constructor; [apply Hlit; [done|done|apply san_no_crlf]|]).
    constructor; [|constructor]. rewrite <- (app_nil_r (lit "Connection: keep-alive")). by apply Hlit.
  - destruct (has_body method); [|constructor]. apply Forall_app. split.
    + destruct kcl as [len|]; constructor; try constructor.
      * apply Hlit; [done|done|]. by apply no_crlf_dec.
      * apply Hlit; [done|done|]. by apply no_crlf_dec.
      * rewrite <- (app_nil_r (lit "Transfer-Encoding: chunked")). by apply Hlit.
      * done.
    + destruct hec; constructor; [|constructor].
      rewrite <- (app_nil_r (lit "Expect: 100-continue")). by apply Hlit.
Qed.

Lemma header_lines_framing method host extra ip proto kcl hec :
  Forall (λ kv, name_ok (fst kv)) extra →
  filter (λ l, framing_line l = true) (header_lines method host extra ip proto kcl hec)
  = if has_body method
    then [match kcl with None => lit "Transfer-Encoding: chunked"
                       | Some len => lit "Content-Length: " ++ dec len end]
    else [].
Proof.
  intros He. unfold header_lines. rewrite filter_cons.
  change (lit "Host: " ++ host) with (lit "Host" ++ byte_colon :: ([SP] ++ host)).
  rewrite framing_line_lit by (apply (bool_decide_unpack _); vm_compute; done).
  rewrite decide_False by done. rewrite filter_app, kept_not_framing, app_nil_l by done.
  rewrite filter_app.
  assert (Hfix : filter (λ l, framing_line l = true)
    [lit "X-Real-IP: " ++ san ip; lit "X-Forwarded-For: " ++ san ip;
     lit "X-Forwarded-Proto: " ++ san proto; lit "Connection: keep-alive"] = []).
  { change (lit "X-Real-IP: " ++ san ip) with (lit "X-Real-IP" ++ byte_colon :: ([SP] ++ san ip)).
    change (lit "X-Forwarded-For: " ++ san ip) with (lit "X-Forwarded-For" ++ byte_colon :: ([SP] ++ san ip)).
    change (lit "X-Forwarded-Proto: " ++ san proto)
      with (lit "X-Forwarded-Proto" ++ byte_colon :: ([SP] ++ san proto)).
    rewrite !filter_cons, !framing_line_lit by (apply (bool_decide_unpack _); vm_compute; done).
    reflexivity. }
  rewrite Hfix. cbn [app]. destruct (has_body method); [|done]. rewrite filter_app.
  assert (Hexp : filter (λ l, framing_line l = true) (if hec then [lit "Expect: 100-continue"] else []) = [])
    by (by destruct hec).
  rewrite Hexp, app_nil_r. destruct kcl as [len|]; [|done].
  change (lit "Content-Length: " ++ dec len) with (lit "Content-Length" ++ byte_colon :: ([SP] ++ dec len)).
  rewrite filter_cons, framing_line_lit by (apply (bool_decide_unpack _); vm_compute; done).
  by rewrite decide_True.
Qed.

(** C6: no request smuggling through the proxy.  Whatever bytes the forwarded
    header names and values, the client address and the scheme contain, the
    head sent upstream is the request line and the intended header lines, each
    non-empty, free of CR and LF and ended by CRLF, then the empty line.  When
    forwarded names are header names, a request with a body carries exactly
    one framing header (Content-Length or Transfer-Encoding, never both), and
    a request without a body carries none. *)
Theorem request_head_safe method path host extra ip proto kcl hec :
  no_crlf method → no_crlf path → no_crlf host → from_option (λ n, 0 ≤ n) True kcl →
  let lines := (method ++ [SP] ++ path ++ lit " HTTP/1.1")
               :: header_lines method host extra ip proto kcl hec in
  request_head method path host extra ip proto kcl hec = render lines
  ∧ Forall (λ l, no_crlf l ∧ l ≠ []) lines
  ∧ (Forall (λ kv, name_ok (fst kv)) extra →
       filter (λ l, framing_line l = true) (header_lines method host extra ip proto kcl hec)
       = if has_body method
         then [match kcl with None => lit "Transfer-Encoding: chunked"
                            | Some len => lit "Content-Length: " ++ dec len end]
         else []).
Proof.
  intros Hm Hp Hh Hk. split; [apply request_head_lines|]. split; [|apply header_lines_framing].
  constructor; [|by apply header_lines_clean]. split; [|intros [_ H]%app_nil; discriminate H].
  apply no_crlf_app; [done|]. apply (no_crlf_lit [SP]); [done|done|].
  apply no_crlf_app; [done|]. rewrite <- (app_nil_r (lit " HTTP/1.1")). apply no_crlf_lit; [done|done|].
  split; apply not_elem_of_nil.
Qed.

(** ** Reading back a head *)

(** A header value as upstreams send it: visible at both ends, ASCII. *)
Definition clean (v : list Z) : Prop :=
  is_ascii v = true ∧ LF ∉ v ∧ ∃ a m z, visible a = true ∧ visible z = true ∧ (v = [a] ∧ m = [] ∧ z = a ∨ v = a :: m ++ [z]).

Lemma trim_clean_crlf v : clean v → trim (v ++ CRLF) = v ∧ trim v = v.
Proof.
  intros (_ & _ & a & m & z & Ha & Hz & Hv).
  assert (Hrev : ∃ t, rev v = z :: t ∧ ∃ w, v = a :: w).
  { destruct Hv as [(-> & -> & ->)| ->]; [exists []; split; [done|by exists []]|].
    exists (rev (a :: m)). split; [|by exists (m ++ [z])].
    change (a :: m ++ [z]) with ((a :: m) ++ [z]). by rewrite rev_app_distr. }
  destruct Hrev as (t & Ht & w & Hw). unfold trim, trim_end, CRLF. split.
  - rewrite Hw. change ((a :: w) ++ [CR; LF]) with (a :: (w ++ [CR; LF])).
    rewrite trim_start_visible by done.
    change (a :: (w ++ [CR; LF])) with ((a :: w) ++ [CR; LF]). rewrite rev_app_distr, <- Hw, Ht.
    change (rev [CR; LF] ++ z :: t) with (LF :: CR :: z :: t).
    change (trim_start_rev (LF :: CR :: z :: t)) with (trim_start_rev (z :: t)).
    rewrite trim_start_rev_visible by done. rewrite <- Ht. apply rev_involutive.
  - rewrite Hw, trim_start_visible by done. rewrite <- Hw, Ht.
    rewrite trim_start_rev_visible by done. rewrite <- Ht. apply rev_involutive.
Qed.

Lemma read_line_ascii l rest e :
  is_ascii l = true → LF ∉ l → read_line (l ++ CRLF ++ rest) e = (Line (l ++ CRLF), rest).
Proof.
  intros Ha Hl. unfold read_line.
  assert (E : l ++ CRLF ++ rest = (l ++ [CR]) ++ LF :: rest) by (by rewrite <- app_assoc).
  rewrite E. assert (find_byte LF ((l ++ [CR]) ++ LF :: rest) = Some (length (l ++ [CR]))) as ->.
  { apply find_byte_Some. exists (l ++ [CR]), rest. split_and!; [done| |done].
    rewrite not_elem_of_app, list_elem_of_singleton. done. }
  rewrite <- E, app_assoc.
  rewrite (take_app_length' _ _ (S (length (l ++ [CR])))) by (rewrite !length_app; cbn; lia).
  rewrite (drop_app_length' _ _ (S (length (l ++ [CR])))) by (rewrite !length_app; cbn; lia).
  rewrite utf8_valid_ascii; [done|]. by rewrite is_ascii_app, Ha.
Qed.

(** A header name as upstreams send it. *)
Definition name_clean (k : list Z) : Prop := field k ∧ k ≠ [] ∧ byte_colon ∉ k.

Lemma header_line_clean k v : name_clean k → clean v → clean (k ++ lit ": " ++ v).
Proof.
  intros (Hk & Hne & _) (Hv & Hlf & a & m & z & Ha & Hz & Hav). split_and!.
  - rewrite !is_ascii_app, Hv, field_ascii by done. done.
  - rewrite !not_elem_of_app. split_and!; [by apply field_no_lf| |done].
    apply (bool_decide_unpack _). vm_compute. done.
  - destruct k as [|x k]; [done|]. apply Forall_cons_1 in Hk as [Hx Hk].
    destruct Hav as [(-> & -> & ->)| ->].
    + exists x, (k ++ lit ": "), a. split_and!; [done|done|]. right. by rewrite <- app_assoc.
    + exists x, (k ++ lit ": " ++ a :: m), z. split_and!; [done|done|]. right.
      cbn [app]. by rewrite <- !app_assoc.
Qed.

(** ** Witnesses *)

Module Witness.

Definition items : list body_item := [BodyChunk (lit "hello "); BodyChunk []; BodyChunk (lit "world")].

Lemma chunked_roundtrip_witness :
  read_chunked_body (λ _, 2%nat) false
    ((lit "6" ++ CRLF ++ lit "hello " ++ CRLF ++ lit "5" ++ CRLF ++ lit "world" ++ CRLF
      ++ lit "0" ++ CRLF ++ CRLF) ++ lit "HTTP/1.1 200") EndOpen
  = Done (lit "hello world", [], lit "HTTP/1.1 200").
Proof.
  apply (chunked_roundtrip items (λ _, true)); [reflexivity| |].
  - repeat constructor; vm_compute; congruence.
  - vm_compute. congruence.
Defined.

Lemma read_exact_body_spec_witness :
  ∃ k', read_exact_body (λ _, 3%nat) 0 5 (lit "helloHTTP") EndOpen = Done (lit "hello", lit "HTTP", k').
Proof.
  apply (read_exact_body_spec (λ _, 3%nat) 0 5 (lit "helloHTTP") EndOpen); [|left];
    vm_compute; repeat split; congruence.
Defined.

(** A header value that tries to add a header and a second request. *)
Lemma request_head_safe_witness :
  let extra := [(lit "x-a", lit "1" ++ CRLF ++ lit "Content-Length: 0" ++ CRLF ++ CRLF ++ lit "GET /admin");
                (lit "Content-Length", lit "5")] in
  let lines := (lit "POST" ++ [SP] ++ lit "/" ++ lit " HTTP/1.1")
     :: header_lines (lit "POST") (lit "h") extra (lit "1.2.3.4") (lit "http") (Some 5) false in
  request_head (lit "POST") (lit "/") (lit "h") extra (lit "1.2.3.4") (lit "http") (Some 5) false = render lines
  ∧ Forall (λ l, no_crlf l ∧ l ≠ []) lines
  ∧ (Forall (λ kv, name_ok (fst kv)) extra →
       filter (λ l, framing_line l = true)
         (header_lines (lit "POST") (lit "h") extra (lit "1.2.3.4") (lit "http") (Some 5) false)
       = [lit "Content-Length: 5"]).
Proof.
  apply (request_head_safe (lit "POST") (lit "/") (lit "h")
    [(lit "x-a", lit "1" ++ CRLF ++ lit "Content-Length: 0" ++ CRLF ++ CRLF ++ lit "GET /admin");
     (lit "Content-Length", lit "5")] (lit "1.2.3.4") (lit "http") (Some 5) false);
    try (split; apply (bool_decide_unpack _); vm_compute; done). vm_compute. congruence.
Defined.

End Witness.
