(* ===== verification/Sendfile.v ===== *)
(** * Reading files by position: [src/handler/sendfile.rs]

    Positional reads of a shared descriptor ([pread_all], [pread_exact]), the
    chunked stream built on them ([pread_stream]), and [async_read_range], which
    seeks a duplicated descriptor.  A file is its content; what each [pread]
    returns is given by a list of calls. *)

From S2P Require Import Prelude RustStr Retry Http1.

(** What one [pread] does: return up to [n] bytes, be interrupted, or fail. *)
Inductive pread_call := Got (n : nat) | Interrupted | PreadError.

#[export] Instance pread_call_eq_dec : EqDecision pread_call.
Proof. solve_decision. Defined.

(** Zero-initialised buffers. *)
Definition zeros (n : nat) : list Z := replicate n 0.

(** [pread_all] into a zeroed buffer of which [len] bytes are still to be
    filled; the bytes read so far are [acc].  The end of the file ends the loop.
    Without a next call the read has not returned. *)
Fixpoint pread_all (calls : list pread_call) (content : list Z) (off len : nat) (acc : list Z)
  : io (list Z * list pread_call) :=
  match len with
  | O => Done (acc, calls)
  | _ =>
      match calls with
      | [] => Blocked
      | Interrupted :: calls => pread_all calls content off len acc
      | PreadError :: _ => Failed
      | Got n :: calls =>
          match drop off content with
          | [] => Done (acc ++ zeros len, calls)
          | rest =>
              let m := read_len n len (length rest) in
              pread_all calls content (off + m) (len - m) (acc ++ take m rest)
          end
      end
  end.

(** [pread_exact] *)
Definition pread_exact (calls : list pread_call) (content : list Z) (off len : nat) : io (list Z * list pread_call) :=
  pread_all calls content off len [].

(** The chunk size of [pread_stream]. *)
Definition pread_chunk_size (len : nat) : nat :=
  if Z.of_nat len <=? 65536 then Z.to_nat 65536 else Z.to_nat 262144.

(** The chunks of [pread_stream] and how it ends: complete, with an error, or
    waiting.  Every round takes at least one byte off what remains. *)
Inductive stream_result := StreamDone | StreamError | StreamBlocked.

Fixpoint pread_chunks (fuel : nat) (calls : list pread_call) (content : list Z) (chunk off remaining : nat)
  : list (list Z) * stream_result :=
  match fuel, remaining with
  | _, O | O, _ => ([], StreamDone)
  | S fuel, _ =>
      let to_read := Nat.min remaining chunk in
      match pread_exact calls content off to_read with
      | Done ([], _) => ([], StreamDone)
      | Done (bytes, calls) =>
          let n := length bytes in
          let '(cs, r) := pread_chunks fuel calls content chunk (off + n) (remaining - n) in (bytes :: cs, r)
      | Failed => ([], StreamError)
      | Blocked => ([], StreamBlocked)
      end
  end.

(** [pread_stream] *)
Definition pread_stream (calls : list pread_call) (content : list Z) (off len : nat) : list (list Z) * stream_result :=
  pread_chunks (S len) calls content (pread_chunk_size len) off len.

(** ** Reads are exact *)

Definition is_got (c : pread_call) : bool := match c with Got _ => true | _ => false end.
Definition gots (calls : list pread_call) : nat := length (filter (λ c, is_got c = true) calls).
Definition no_error (calls : list pread_call) : Prop := PreadError ∉ calls.

Lemma pread_all_exact calls content off len acc :
  no_error calls → (len ≤ gots calls)%nat → (off + len ≤ length content)%nat →
  ∃ rest, pread_all calls content off len acc = Done (acc ++ take len (drop off content), rest)
          ∧ no_error rest ∧ (gots calls ≤ gots rest + len)%nat.
Proof.
  revert off len acc. induction calls as [|c calls IH]; intros off len acc Hne Hg Hlen.
  { destruct len; [|cbn in Hg; lia]. exists []. cbn. rewrite take_0, app_nil_r. auto. }
  destruct len as [|len]; [exists (c :: calls); cbn [pread_all]; rewrite take_0, app_nil_r; split_and!; [done|done|lia]|].
  assert (Hne' : no_error calls) by (intros H; apply Hne; by right).
  destruct c as [n| |]; cbn [pread_all].
  - destruct (drop off content) as [|b rest] eqn:Ed.
    { apply (f_equal length) in Ed. rewrite length_drop in Ed. cbn in Ed. lia. }
    rewrite <- Ed. set (m := read_len n (S len) (length (drop off content))).
    assert (Hm : (1 ≤ m ≤ Nat.min (S len) (length (drop off content)))%nat).
    { apply read_len_bounds; [lia|]. rewrite Ed. cbn. lia. }
    rewrite length_drop in Hm. assert (Hgc : gots (Got n :: calls) = S (gots calls)).
    { unfold gots. rewrite filter_cons. by rewrite decide_True by done. }
    destruct (IH (off + m)%nat (S len - m)%nat (acc ++ take m (drop off content))) as (r & Hr & Hnr & Hgr); [done|lia|lia|].
    exists r. rewrite Hr. split_and!; [|done|lia]. f_equal. f_equal. rewrite <- app_assoc. f_equal.
    rewrite <- drop_drop. apply take_drop_take. lia.
  - assert (Hgc : gots (Interrupted :: calls) = gots calls) by (unfold gots; by rewrite filter_cons).
    rewrite Hgc in *. by apply IH.
  - exfalso. apply Hne. by left.
Qed.

Lemma pread_chunk_size_pos len : (1 ≤ pread_chunk_size len)%nat.
Proof. unfold pread_chunk_size. destruct (Z.of_nat len <=? 65536); apply Nat.leb_le; vm_compute; reflexivity. Qed.

Lemma pread_chunks_exact fuel calls content chunk off rem :
  (1 ≤ chunk)%nat → (rem < fuel)%nat → no_error calls → (rem ≤ gots calls)%nat → (off + rem ≤ length content)%nat →
  ∃ cs, pread_chunks fuel calls content chunk off rem = (cs, StreamDone)
        ∧ concat cs = take rem (drop off content) ∧ Forall (λ c, (1 ≤ length c ≤ chunk)%nat) cs.
Proof.
  intros Hc. revert calls off rem. induction fuel as [|fuel IH]; intros calls off rem Hf Hne Hg Hlen; [lia|].
  destruct rem as [|rem]; [exists []; cbn; auto|]. cbn [pread_chunks].
  set (k := Nat.min (S rem) chunk). assert (Hk : (1 ≤ k ≤ S rem)%nat) by lia.
  destruct (pread_all_exact calls content off k []) as (calls' & Hp & Hne' & Hg'); [done|lia|lia|].
  unfold pread_exact. rewrite Hp. cbn [app].
  assert (Hl : length (take k (drop off content)) = k) by (rewrite length_take, length_drop; lia).
  destruct (take k (drop off content)) as [|b bs] eqn:Eb; [cbn [length] in Hl; lia|]. rewrite Hl.
  destruct (IH calls' (off + k)%nat (S rem - k)%nat) as (cs & Hcs & Hconc & Hall); [lia|done|lia|lia|].
  rewrite Hcs. exists ((b :: bs) :: cs). split_and!; [done| |constructor; [lia|done]].
  cbn [concat]. rewrite Hconc, <- Eb, <- drop_drop. apply take_drop_take. lia.
Qed.

(** C34: A streamed file is exact.  However the system splits or interrupts the positional reads,
    the chunks of the stream concatenate to exactly the requested range of the file, none is longer
    than the chunk size, and the stream ends. *)
Theorem pread_stream_exact calls content off len :
  no_error calls → (len ≤ gots calls)%nat → (off + len ≤ length content)%nat →
  ∃ cs, pread_stream calls content off len = (cs, StreamDone)
        ∧ concat cs = take len (drop off content)
        ∧ Forall (λ c, (1 ≤ length c ≤ pread_chunk_size len)%nat) cs.
Proof. intros. apply pread_chunks_exact; [apply pread_chunk_size_pos|lia|done..]. Qed.

(** A read that meets the end of the file delivers zeros for the missing bytes
    instead of failing. *)
Theorem short_file_padded_with_zeros n calls content off len :
  (off < length content)%nat → (length content - off < len)%nat → (length content - off ≤ n)%nat →
  ∃ rest, pread_exact (Got n :: Got n :: calls) content off len
          = Done (drop off content ++ zeros (off + len - length content), rest).
Proof.
  intros Ho Hl Hn. unfold pread_exact. destruct len as [|len]; [lia|]. cbn [pread_all].
  destruct (drop off content) as [|b rest] eqn:Ed.
  { apply (f_equal length) in Ed. rewrite length_drop in Ed. cbn in Ed. lia. }
  assert (Hlen : length (b :: rest) = (length content - off)%nat) by (rewrite <- Ed; apply length_drop).
  assert (Hm : read_len n (S len) (length (b :: rest)) = length (b :: rest)).
  { unfold read_len. cbn [length] in *. lia. }
  rewrite Hm, firstn_all. cbn [app].
  destruct (S len - length (b :: rest))%nat as [|z] eqn:Ez; [cbn [length] in *; lia|]. exists calls. cbn [pread_all].
  assert (drop (off + length (b :: rest)) content = []) as -> by (apply drop_ge; lia).
  replace (off + S len - length content)%nat with (S z) by lia. reflexivity.
Qed.

(** ** The shared position of duplicated descriptors *)

(** [async_read_range] on descriptors made by [try_clone]: they share one
    position.  A task seeks, then reads [len] bytes from where the position is
    then; the two are separate steps. *)
Inductive range_task := RSeek (off len : nat) | RRead (off len : nat) | RDone (off len : nat) (data : option (list Z)).

Inductive range_step (content : list Z) : nat * list range_task → nat * list range_task → Prop :=
| step_seek i off len pos ts :
    ts !! i = Some (RSeek off len) →
    range_step content (pos, ts) (off, <[i := RRead off len]> ts)
| step_read i off len pos ts :
    ts !! i = Some (RRead off len) →
    range_step content (pos, ts)
      (if (pos + len <=? length content)%nat
       then ((pos + len)%nat, <[i := RDone off len (Some (take len (drop pos content)))]> ts)
       else (length content, <[i := RDone off len None]> ts)).

Definition range_right (content : list Z) (t : range_task) : Prop :=
  match t with RDone off len d => d = Some (take len (drop off content)) | _ => True end.

(** One request at a time is answered with its range. *)
Lemma range_alone content pos off len :
  (off + len ≤ length content)%nat →
  ∃ pos', rtc (range_step content) (pos, [RSeek off len]) (pos', [RDone off len (Some (take len (drop off content)))]).
Proof.
  intros H. eexists. eapply rtc_l; [by apply (step_seek content 0)|].
  eapply rtc_l; [by apply (step_read content 0 off len)|].
  destruct (Nat.leb_spec (off + len) (length content)); [|lia]. apply rtc_refl.
Qed.

(** Two range requests for the same open file can get each other's bytes: for every
    file and any two different ranges of equal length inside it, an interleaving of the two requests
    gives the first the bytes of the second's range. *)
Theorem range_requests_race content off1 off2 len pos :
  (off1 + len ≤ length content)%nat → (off2 + len ≤ length content)%nat →
  ∃ pos' t2, rtc (range_step content) (pos, [RSeek off1 len; RSeek off2 len])
               (pos', [RDone off1 len (Some (take len (drop off2 content))); t2]).
Proof.
  intros H1 H2. eexists _, _.
  eapply rtc_l; [by apply (step_seek content 0 off1 len)|]. eapply rtc_l; [by apply (step_seek content 1 off2 len)|].
  eapply rtc_l; [by apply (step_read content 0 off1 len)|].
  destruct (Nat.leb_spec (off2 + len) (length content)); [|lia]. apply rtc_refl.
Qed.

Module Witness.

Lemma pread_stream_exact_witness :
  ∃ cs, pread_stream (Got 2 :: Interrupted :: replicate 5 (Got 3)) (lit "hello world") 6 5 = (cs, StreamDone)
        ∧ concat cs = lit "world".
Proof.
  destruct (pread_stream_exact (Got 2 :: Interrupted :: replicate 5 (Got 3)) (lit "hello world") 6 5) as (cs & H & Hc & _).
  - apply (bool_decide_unpack _). by vm_compute.
  - vm_compute. lia.
  - vm_compute. lia.
  - exists cs. split; [exact H|exact Hc].
Defined.

Lemma short_file_padded_with_zeros_witness :
  ∃ rest, pread_exact [Got 9; Got 9] (lit "abc") 1 4 = Done (lit "bc" ++ [0; 0], rest).
Proof. apply (short_file_padded_with_zeros 9 [] (lit "abc") 1 4); vm_compute; lia. Defined.

Lemma range_requests_race_witness :
  take 5 (drop 0 (lit "hello world")) ≠ take 5 (drop 6 (lit "hello world"))
  ∧ ∃ pos' t2, rtc (range_step (lit "hello world")) (0%nat, [RSeek 0 5; RSeek 6 5])
               (pos', [RDone 0 5 (Some (take 5 (drop 6 (lit "hello world")))); t2]).
Proof.
  split; [discriminate|]. apply (range_requests_race (lit "hello world") 0 6 5 0); vm_compute; lia.
Defined.

End Witness.
