(* ===== verification/Streaming.v ===== *)
(** * Streaming a response body: [src/handler/reverse_proxy/conn.rs]

    The two tasks that [send_recv_pooled] spawns when response buffering is
    off: one for a chunked upstream body, one for a body with a length or up to
    the end of the stream.  A task produces the items the client's stream
    delivers and decides what becomes of the connection, which loses what its
    reader has fetched ahead ([into_inner]). *)

From S2P Require Import Prelude RustStr IpAddr Retry Http1.

(** What is sent down the channel to the client. *)
Inductive stream_item := Piece (bs : list Z) | ItemError.

(** How a task leaves the connection: fit for the pool with its unread bytes,
    dropped, or waiting for ever. *)
Inductive stream_task := Kept (rest : list Z) | Dropped | Hung.

(** [BufReader::into_inner].  The reader fetches up to its capacity of 8 KiB
    ahead of what is consumed, and taking the connection out of it drops the
    bytes it holds.  How many of the unread bytes those are depends on how they
    arrived: [ahead] says it, and the theorems hold for every value. *)
Definition BUF_CAPACITY : Z := 8192.
Definition into_inner (ahead : nat) (unread : list Z) : list Z :=
  drop (Nat.min ahead (Z.to_nat BUF_CAPACITY)) unread.

Lemma into_inner_nil ahead : into_inner ahead [] = [].
Proof. apply drop_nil. Qed.

Definition STREAM_CHUNKED_MAX_CHUNK : Z := 16777216.
Definition STREAM_CHUNK : Z := 32768.

(** The inner read loop of a chunk: all of it, or why not.  Every read has a
    timeout, whose error is sent to the client. *)
Inductive fill_result := Filled (data rest : list Z) (k : nat) | FillEof | FillError.

Fixpoint stream_fill (fuel : nat) (sched : nat → nat) (k : nat) (remaining : nat) (s : list Z) (e : stream_end)
  : fill_result :=
  match fuel with
  | O => FillEof
  | S fuel =>
      match remaining with
      | O => Filled [] s k
      | _ =>
          match s with
          | [] => match e with
                  | EndEof | EndErr UnexpectedEof => FillEof
                  | EndErr _ | EndOpen => FillError
                  end
          | _ =>
              let n := read_len (sched k) remaining (length s) in
              match stream_fill fuel sched (S k) (remaining - n) (drop n s) e with
              | Filled data rest k' => Filled (take n s ++ data) rest k'
              | r => r
              end
          end
      end
  end.

(** [read_exact] of the two bytes after a chunk, its result ignored. *)
Definition skip_crlf (s : list Z) (e : stream_end) : io (list Z) :=
  if (2 <=? length s)%nat then Done (drop 2 s)
  else match e with EndOpen => Blocked | _ => Done [] end.

(** The chunked task; [client i] tells whether the [i]-th send finds the
    client's side still open.  Each round consumes a byte at least. *)
Fixpoint stream_chunked (fuel : nat) (sched : nat → nat) (k : nat) (client : nat → bool) (i : nat)
    (s : list Z) (e : stream_end) : list stream_item * stream_task :=
  match fuel with
  | O => ([], Dropped)
  | S fuel =>
      match read_line s e with
      | (LineBlocked, _) | (LineErr _ _, _) | (Line [], _) => ([], Dropped)
      | (Line size_line, s1) =>
          if (64 <? length size_line)%nat then ([], Dropped)
          else
            let chunk_size := chunk_size_of size_line in
            if STREAM_CHUNKED_MAX_CHUNK <? chunk_size then ([], Dropped)
            else if chunk_size =? 0 then
              match read_line s1 e with
              | (LineBlocked, _) => ([], Hung)
              | (_, s2) => ([], Kept s2)
              end
            else
              let n := Z.to_nat chunk_size in
              match stream_fill (S n) sched k n s1 e with
              | FillEof => ([], Dropped)
              | FillError => ([ItemError], Dropped)
              | Filled data s2 k' =>
                  if client i then
                    match skip_crlf s2 e with
                    | Done s3 => let '(ps, t) := stream_chunked fuel sched k' client (S i) s3 e in (Piece data :: ps, t)
                    | Failed | Blocked => ([Piece data], Hung)
                    end
                  else ([], Dropped)
              end
      end
  end.

(** The task for a body of [remaining] bytes ([usize::MAX] without a length).
    [Ok(0)] ends it without clearing [ok]. *)
Fixpoint stream_length (fuel : nat) (sched : nat → nat) (k : nat) (client : nat → bool) (i : nat)
    (remaining : Z) (s : list Z) (e : stream_end) : list stream_item * stream_task :=
  match fuel with
  | O => ([], Dropped)
  | S fuel =>
      if remaining =? 0 then ([], Kept s)
      else
        match s with
        | [] => match e with
                | EndEof => ([], Kept [])
                | EndErr _ | EndOpen => ([ItemError], Dropped)
                end
        | _ =>
            let n := read_len (sched k) (Z.to_nat (Z.min remaining STREAM_CHUNK)) (length s) in
            if client i then
              let '(ps, t) := stream_length fuel sched (S k) client (S i) (sat_sub remaining (Z.of_nat n)) (drop n s) e in
              (Piece (take n s) :: ps, t)
            else ([], Dropped)
        end
  end.

(** The spawned task of the streaming path: the client's items and the
    connection that goes back to the pool, if any, taken out of its reader. *)
Definition stream_body (sched : nat → nat) (ahead : nat) (client : nat → bool) (chunked : bool) (content_length : option Z)
    (can_reuse : bool) (s : list Z) (e : stream_end) : list stream_item * option (list Z) :=
  if chunked then
    let '(ps, t) := stream_chunked (S (length s)) sched 0 client 0 s e in
    (ps, match t with Kept rest => if can_reuse then Some (into_inner ahead rest) else None | Dropped | Hung => None end)
  else
    let '(ps, t) := stream_length (S (length s)) sched 0 client 0 (default usize_max content_length) s e in
    (ps, match t with
         | Kept rest => if bool_decide (content_length ≠ None) && can_reuse then Some (into_inner ahead rest) else None
         | Dropped | Hung => None
         end).

(** What the client sees of the items. *)
Definition delivered (items : list stream_item) : list Z :=
  concat ((λ i, match i with Piece bs => bs | ItemError => [] end) <$> items).
Definition failed (items : list stream_item) : bool :=
  existsb (λ i, match i with ItemError => true | Piece _ => false end) items.

(** ** Reading back *)

Lemma stream_fill_spec fuel sched k r s e :
  (r < fuel)%nat → (r ≤ length s)%nat → ∃ k', stream_fill fuel sched k r s e = Filled (take r s) (drop r s) k'.
Proof.
  revert k r s; induction fuel as [|fuel IH]; intros k r s Hf Hr; [lia|].
  cbn [stream_fill]. destruct r as [|r]; [by exists k|]. destruct s as [|b s]; [cbn in Hr; lia|].
  set (n := read_len _ _ _).
  assert (Hn : (1 ≤ n ≤ Nat.min (S r) (length (b :: s)))%nat) by (apply read_len_bounds; cbn in *; lia).
  destruct (IH (S k) (S r - n)%nat (drop n (b :: s))) as [k' ->]; [lia|rewrite length_drop; lia|].
  exists k'. f_equal; [apply take_drop_take; lia|]. rewrite drop_drop. f_equal. lia.
Qed.

Lemma stream_fill_eof fuel sched k r s :
  (r < fuel)%nat → (length s < r)%nat → stream_fill fuel sched k r s EndEof = FillEof.
Proof.
  revert k r s; induction fuel as [|fuel IH]; intros k r s Hf Hr; [lia|].
  cbn [stream_fill]. destruct r as [|r]; [lia|]. destruct s as [|b s]; [done|].
  set (n := read_len _ _ _).
  assert (Hn : (1 ≤ n ≤ Nat.min (S r) (length (b :: s)))%nat) by (apply read_len_bounds; cbn in *; lia).
  by rewrite IH by (rewrite ?length_drop; lia).
Qed.

Definition stream_chunk_ok (i : body_item) : Prop :=
  match i with BodyChunk bs => Z.of_nat (length bs) ≤ STREAM_CHUNKED_MAX_CHUNK | _ => True end.

(** A chunk in the stream is read and sent on as one piece. *)
Lemma stream_chunked_step fuel sched k client i bs s e :
  bs ≠ [] → Z.of_nat (length bs) ≤ STREAM_CHUNKED_MAX_CHUNK →
  ∃ k', stream_chunked (S fuel) sched k client i (hex (Z.of_nat (length bs)) ++ CRLF ++ bs ++ s) e
  = if client i then
      match skip_crlf s e with
      | Done s3 => let '(ps, t) := stream_chunked fuel sched k' client (S i) s3 e in (Piece bs :: ps, t)
      | Failed | Blocked => ([Piece bs], Hung)
      end
    else ([], Dropped).
Proof.
  intros Hbs Hc. set (n := Z.of_nat (length bs)) in *.
  assert (Hn : 0 < n) by (unfold n; destruct bs; [done|cbn; lia]).
  assert (Hfield : field (hex n)) by (apply field_hex_z; lia).
  cbn [stream_chunked]. unfold CRLF at 1. cbn [app]. rewrite read_line_field by done.
  destruct (hex n ++ CRLF) as [|x l] eqn:E; [by apply app_nil in E as [_ ?]|]. rewrite <- E.
  rewrite (proj2 (Nat.ltb_ge _ _))
    by (rewrite length_app; pose proof (hex_length n); change (length CRLF) with 2%nat; lia).
  rewrite chunk_size_hex by (unfold STREAM_CHUNKED_MAX_CHUNK, u64_max in *; lia).
  rewrite (proj2 (Z.ltb_ge _ _)) by done. rewrite (proj2 (Z.eqb_neq _ _)) by lia.
  replace (Z.to_nat n) with (length bs) by (unfold n; lia).
  destruct (stream_fill_spec (S (length bs)) sched k (length bs) (bs ++ s) e) as [k' ->];
    [lia|rewrite length_app; lia|].
  exists k'. by rewrite take_app_length, drop_app_length.
Qed.

Lemma delivered_cons bs ps : delivered (Piece bs :: ps) = bs ++ delivered ps.
Proof. done. Qed.

(** The chunks a client's body is piped as, followed by anything. *)
Lemma stream_pipe_chunks items write_ok i out j fuel sched k n s e :
  pipe_chunks items true write_ok i = Ok (out, j) → Forall stream_chunk_ok items →
  ∃ k' n' ps, stream_chunked (chunk_count items + fuel) sched k (λ _, true) n (out ++ s) e
    = (let '(ps', t) := stream_chunked fuel sched k' (λ _, true) n' s e in (ps ++ ps', t))
    ∧ delivered ps = body_data items ∧ failed ps = false.
Proof.
  intros Hp Hok. revert i out k n Hp.
  induction Hok as [|it items Hit _ IH]; intros i out k n Hp.
  { injection Hp as <- <-. exists k, n, []. split; [|done]. by destruct (stream_chunked _ _ _ _ _ _ _). }
  destruct it as [bs| |]; [|done..]. cbn [pipe_chunks body_data chunk_count] in *.
  destruct bs as [|b bs]; [cbn [app] in *; eapply IH; eauto|].
  destruct (write_ok i); [|done].
  destruct (pipe_chunks items true write_ok (S i)) as [[out' j']|] eqn:E; [|done].
  set (c := b :: bs) in *.
  assert (out = (hex (Z.of_nat (length c)) ++ CRLF ++ c ++ CRLF) ++ out') as -> by congruence.
  assert (j' = j) as -> by congruence. clear Hp. rewrite <- !app_assoc. cbn [Nat.add].
  destruct (stream_chunked_step (chunk_count items + fuel) sched k (λ _, true) n c (CRLF ++ out' ++ s) e)
    as [k1 ->]; [done|done|].
  change (skip_crlf (CRLF ++ out' ++ s) e) with (Done (out' ++ s)).
  destruct (IH (S i) out' k1 (S n) E) as (k2 & n2 & ps & -> & Hd & Hf).
  exists k2, n2, (Piece c :: ps). destruct (stream_chunked fuel _ _ _ _ _ _) as [ps' t].
  split; [done|]. by rewrite delivered_cons, Hd.
Qed.

Lemma delivered_app a b : delivered (a ++ b) = delivered a ++ delivered b.
Proof. unfold delivered. by rewrite fmap_app, concat_app. Qed.

Lemma failed_app a b : failed (a ++ b) = failed a || failed b.
Proof. apply existsb_app. Qed.

Lemma stream_last_chunk fuel sched k client i rest e :
  stream_chunked (S fuel) sched k client i (lit "0" ++ CRLF ++ CRLF ++ rest) e = ([], Kept rest).
Proof.
  cbn [stream_chunked].
  change (lit "0" ++ CRLF ++ CRLF ++ rest) with (lit "0" ++ CR :: LF :: CRLF ++ rest).
  rewrite read_line_field by (repeat constructor). change (lit "0" ++ CRLF) with [48; 13; 10].
  cbn [length Nat.ltb Nat.leb]. change (chunk_size_of [48; 13; 10]) with 0.
  change (STREAM_CHUNKED_MAX_CHUNK <? 0) with false. cbn [Z.eqb].
  change (CRLF ++ rest) with ([] ++ CR :: LF :: rest). by rewrite read_line_field by constructor.
Qed.

(** C23: A streamed chunked body is delivered exactly.  A body sent in chunks of
    at most 16 MiB reaches the client byte for byte, without an error item, under
    every schedule of partial reads, to a client that stays to the end.  The
    task then gives the connection back, unless the upstream asked to close it,
    with what follows the last chunk less what the reader had already fetched:
    in step with an upstream that sends nothing unasked, and short of those
    bytes otherwise. *)
Theorem streamed_chunked_exact items write_ok out rest sched ahead can_reuse e cl :
  pipe_request_body items true write_ok = Ok out → Forall stream_chunk_ok items →
  ∃ ps, stream_body sched ahead (λ _, true) true cl can_reuse (out ++ rest) e
        = (ps, if can_reuse then Some (into_inner ahead rest) else None)
    ∧ delivered ps = body_data items ∧ failed ps = false.
Proof.
  unfold pipe_request_body, stream_body. intros Hp Hok.
  destruct (pipe_chunks items true write_ok 0) as [[o j]|] eqn:E; [|done]. destruct (write_ok j); [|done].
  assert (out = o ++ lit "0" ++ CRLF ++ CRLF) as -> by congruence.
  pose proof (pipe_chunks_count _ _ _ _ _ E) as Hc. rewrite <- !app_assoc.
  set (tot := o ++ _). assert (Hf : S (length tot) = (chunk_count items + S (length tot - chunk_count items))%nat).
  { unfold tot. rewrite !length_app. lia. }
  rewrite Hf. unfold tot at 2.
  destruct (stream_pipe_chunks items write_ok 0 o j (S (length tot - chunk_count items)) sched 0 0
              (lit "0" ++ CRLF ++ CRLF ++ rest) e E Hok) as (k' & n' & ps & -> & Hd & Hfl).
  rewrite stream_last_chunk. exists ps. by rewrite app_nil_r.
Qed.

Lemma stream_length_spec fuel sched k i r s e :
  (length s < fuel)%nat → 0 ≤ r ≤ Z.of_nat (length s) →
  ∃ ps, stream_length fuel sched k (λ _, true) i r s e = (ps, Kept (drop (Z.to_nat r) s))
    ∧ delivered ps = take (Z.to_nat r) s ∧ failed ps = false.
Proof.
  revert k i r s; induction fuel as [|fuel IH]; intros k i r s Hf Hr; [lia|]. cbn [stream_length].
  destruct (Z.eqb_spec r 0) as [->|Hr0]; [by exists []|]. destruct s as [|b s]; [cbn in Hr; lia|].
  set (n := read_len _ _ _).
  assert (Hn : (1 ≤ n ≤ Nat.min (Z.to_nat r) (length (b :: s)))%nat).
  { pose proof (read_len_bounds (sched k) (Z.to_nat (Z.min r STREAM_CHUNK)) (length (b :: s))) as H.
    fold n in H. unfold STREAM_CHUNK in *. cbn [length] in *. lia. }
  assert (Hs : sat_sub r (Z.of_nat n) = r - Z.of_nat n) by (unfold sat_sub; lia). rewrite Hs.
  destruct (IH (S k) (S i) (r - Z.of_nat n) (drop n (b :: s))) as (ps & -> & Hd & Hfl); [rewrite length_drop; lia..|].
  exists (Piece (take n (b :: s)) :: ps). rewrite delivered_cons, Hd.
  replace (Z.to_nat (r - Z.of_nat n)) with (Z.to_nat r - n)%nat by lia.
  split_and!; [|apply take_drop_take; lia|done]. do 2 f_equal. rewrite drop_drop. f_equal. lia.
Qed.

(** A streamed body with a length is delivered exactly, under every schedule,
    and the connection goes back to the pool right after it, less what its
    reader had fetched ahead. *)
Theorem streamed_length_exact len s sched ahead e :
  0 ≤ len ≤ Z.of_nat (length s) →
  ∃ ps, stream_body sched ahead (λ _, true) false (Some len) true s e
        = (ps, Some (into_inner ahead (drop (Z.to_nat len) s)))
    ∧ delivered ps = take (Z.to_nat len) s ∧ failed ps = false.
Proof.
  intros Hl. unfold stream_body. change (default usize_max (Some len)) with len.
  destruct (stream_length_spec (S (length s)) sched 0 0 len s e) as (ps & -> & Hd & Hf); [lia|done|].
  exists ps. done.
Qed.

(** A truncated chunked body ends the client's stream as a complete one.  When
    the upstream closes in the middle of a chunk, the client is sent the chunks
    before it and then a normal end of the body: no error item marks the loss. *)
Theorem truncated_stream_silent items write_ok o j n part sched ahead cl :
  pipe_chunks items true write_ok 0 = Ok (o, j) → Forall stream_chunk_ok items →
  Z.of_nat (length part) < n ≤ STREAM_CHUNKED_MAX_CHUNK →
  ∃ ps, stream_body sched ahead (λ _, true) true cl true (o ++ hex n ++ CRLF ++ part) EndEof = (ps, None)
    ∧ delivered ps = body_data items ∧ failed ps = false.
Proof.
  intros E Hok Hn. unfold stream_body. pose proof (pipe_chunks_count _ _ _ _ _ E) as Hc.
  set (tot := o ++ _). assert (Hf : S (length tot) = (chunk_count items + S (length tot - chunk_count items))%nat).
  { unfold tot. rewrite !length_app. lia. }
  rewrite Hf. unfold tot at 2.
  destruct (stream_pipe_chunks items write_ok 0 o j (S (length tot - chunk_count items)) sched 0 0
              (hex n ++ CRLF ++ part) EndEof E Hok) as (k' & n' & ps & -> & Hd & Hfl).
  exists ps. cbn [stream_chunked]. unfold CRLF at 1. cbn [app]. rewrite read_line_field by (apply field_hex_z; lia).
  destruct (hex n ++ CRLF) as [|x l] eqn:E2; [by apply app_nil in E2 as [_ ?]|]. rewrite <- E2.
  rewrite (proj2 (Nat.ltb_ge _ _))
    by (rewrite length_app; pose proof (hex_length n); change (length CRLF) with 2%nat; lia).
  rewrite chunk_size_hex by (unfold STREAM_CHUNKED_MAX_CHUNK, u64_max in *; lia).
  rewrite (proj2 (Z.ltb_ge _ _)) by lia. rewrite (proj2 (Z.eqb_neq _ _)) by lia.
  rewrite stream_fill_eof by lia. by rewrite app_nil_r.
Qed.

Module Witness.

Definition items : list body_item := [BodyChunk (lit "hello "); BodyChunk []; BodyChunk (lit "world")].
Definition out : list Z := lit "6" ++ CRLF ++ lit "hello " ++ CRLF ++ lit "5" ++ CRLF ++ lit "world" ++ CRLF.

Lemma streamed_chunked_exact_witness :
  ∃ ps, stream_body (λ k, k) 3 (λ _, true) true None true ((out ++ lit "0" ++ CRLF ++ CRLF) ++ lit "next") EndOpen
        = (ps, Some (lit "t")) ∧ delivered ps = lit "hello world" ∧ failed ps = false.
Proof.
  apply (streamed_chunked_exact items (λ _, true) (out ++ lit "0" ++ CRLF ++ CRLF) (lit "next") (λ k, k) 3 true);
    [by vm_compute|].
  repeat (constructor; [by vm_compute|]). constructor.
Defined.

Lemma streamed_length_exact_witness :
  ∃ ps, stream_body (λ k, 2%nat) 0 (λ _, true) false (Some 5) true (lit "helloNEXT") EndOpen = (ps, Some (lit "NEXT"))
    ∧ delivered ps = lit "hello" ∧ failed ps = false.
Proof. apply (streamed_length_exact 5 (lit "helloNEXT") (λ k, 2%nat) 0). split; by vm_compute. Defined.

Lemma truncated_stream_silent_witness :
  ∃ ps, stream_body (λ k, k) 0 (λ _, true) true None true (out ++ hex 9 ++ CRLF ++ lit "tru") EndEof = (ps, None)
    ∧ delivered ps = lit "hello world" ∧ failed ps = false.
Proof.
  apply (truncated_stream_silent items (λ _, true) out 2); [by vm_compute| |split; by vm_compute].
  repeat (constructor; [by vm_compute|]). constructor.
Defined.

End Witness.
