(* ===== verification/ProxyCache.v ===== *)
(** * Response cache: [src/middleware/proxy_cache.rs]

    The in-memory map with its optional disk layer.  The concurrent map's
    iteration order is arbitrary, so eviction takes it as an argument; disk
    writes happen in a background task and are explicit steps.  Parameters:
    the standard library's string hash (file names) and Unicode case mapping
    (configuration strings), and [serde_json]'s writer and reader. *)

From S2P Require Import Prelude RustStr Headers.

(** ** Keys *)

Record CacheKey := mkCacheKey { ck_method : list Z; ck_host : list Z; ck_path : list Z }.

#[export] Instance CacheKey_eq_dec : EqDecision CacheKey.
Proof. solve_decision. Defined.
#[export] Program Instance CacheKey_countable : Countable CacheKey :=
  inj_countable' (λ k, (ck_method k, ck_host k, ck_path k)) (λ '(m, h, p), mkCacheKey m h p) _.
Next Obligation. by intros []. Qed.

(** [CacheKey::new]: only allocates when there is something to convert. *)
Definition cache_key_new (method host path : list Z) : CacheKey :=
  let method := if existsb is_ascii_lowercase method then to_ascii_uppercase method else method in
  let host := if existsb is_ascii_uppercase host then to_ascii_lowercase host else host in
  mkCacheKey method host path.

(** ** Base64 *)

Definition CHARS : list Z := lit "ABCDEFGHIJKLMNOPQRSTUVWXYZabcdefghijklmnopqrstuvwxyz0123456789+/".
Definition b64_char (i : Z) : Z := nth (Z.to_nat i) CHARS 0.
Definition byte_eq : Z := 61.

(** [base64_encode] *)
Fixpoint base64_encode (data : list Z) : list Z :=
  match data with
  | [] => []
  | [b0] => [b64_char (Z.shiftr b0 2); b64_char (Z.lor (Z.shiftl (Z.land b0 3) 4) (Z.shiftr 0 4)); byte_eq; byte_eq]
  | [b0; b1] =>
      [b64_char (Z.shiftr b0 2); b64_char (Z.lor (Z.shiftl (Z.land b0 3) 4) (Z.shiftr b1 4));
       b64_char (Z.lor (Z.shiftl (Z.land b1 15) 2) (Z.shiftr 0 6)); byte_eq]
  | b0 :: b1 :: b2 :: data =>
      b64_char (Z.shiftr b0 2) :: b64_char (Z.lor (Z.shiftl (Z.land b0 3) 4) (Z.shiftr b1 4))
      :: b64_char (Z.lor (Z.shiftl (Z.land b1 15) 2) (Z.shiftr b2 6)) :: b64_char (Z.land b2 63)
      :: base64_encode data
  end.

Definition decode_char (c : Z) : option Z :=
  if (65 <=? c) && (c <=? 90) then Some (c - 65)
  else if (97 <=? c) && (c <=? 122) then Some (c - 97 + 26)
  else if (48 <=? c) && (c <=? 57) then Some (c - 48 + 52)
  else if c =? 43 then Some 62
  else if c =? 47 then Some 63
  else if c =? 61 then Some 0
  else None.

(** [base64_decode]: shifts on [u8] lose the high bits; an incomplete last
    group is dropped. *)
Fixpoint base64_decode (s : list Z) : list Z :=
  match s with
  | c0 :: c1 :: c2 :: c3 :: s =>
      let b0 := default 0 (decode_char c0) in
      let b1 := default 0 (decode_char c1) in
      let b2 := default 0 (decode_char c2) in
      let b3 := default 0 (decode_char c3) in
      [Z.lor (Z.shiftl b0 2 mod 256) (Z.shiftr b1 4)]
      ++ (if negb (c2 =? byte_eq) then [Z.lor (Z.shiftl b1 4 mod 256) (Z.shiftr b2 2)] else [])
      ++ (if negb (c3 =? byte_eq) then [Z.lor (Z.shiftl b2 6 mod 256) b3] else [])
      ++ base64_decode s
  | _ => []
  end.

(** ** Entries and configuration *)

Record CacheEntry := mkEntry {
  ce_status : Z;
  ce_headers : list (list Z * list Z);
  ce_body : list Z;
  ce_created_at : Z;       (* nanoseconds *)
  ce_ttl : Z;              (* nanoseconds *)
}.

Definition SEC : Z := 1000000000.

Definition is_expired (now : Z) (e : CacheEntry) : bool := ce_ttl e <? sat_sub now (ce_created_at e).

Record ProxyCacheConfig := mkProxyCacheConfig {
  pcc_path : option (list Z);
  pcc_max_entries : Z;
  pcc_ttl : Z;
  pcc_cacheable_statuses : list Z;
  pcc_cacheable_methods : list (list Z);
  pcc_bypass_headers : list (list Z);
  pcc_ignore_headers : list (list Z);
}.

Record ProxyCache := mkProxyCache {
  mem : gmap CacheKey CacheEntry;
  disk : gmap (list Z) (list Z);           (* file name to content, under [disk_path] *)
  max_entries : Z;
  ttl : Z;                                  (* nanoseconds *)
  cacheable_statuses : list Z;
  cacheable_methods : list (list Z);
  bypass_headers : list (list Z);
  disk_path : option (list Z);
  ignore_cache_control : bool;
  ignore_set_cookie : bool;
}.

Definition set_mem (m : gmap CacheKey CacheEntry) (c : ProxyCache) : ProxyCache :=
  mkProxyCache m (disk c) (max_entries c) (ttl c) (cacheable_statuses c) (cacheable_methods c)
    (bypass_headers c) (disk_path c) (ignore_cache_control c) (ignore_set_cookie c).
Definition set_disk (d : gmap (list Z) (list Z)) (c : ProxyCache) : ProxyCache :=
  mkProxyCache (mem c) d (max_entries c) (ttl c) (cacheable_statuses c) (cacheable_methods c)
    (bypass_headers c) (disk_path c) (ignore_cache_control c) (ignore_set_cookie c).

(** [ProxyCache::is_cacheable] *)
Definition header_forbids (c : ProxyCache) (kv : list Z * list Z) : bool :=
  let '(k, v) := kv in
  (negb (ignore_cache_control c) && eq_ignore_ascii_case k (lit "cache-control")
     && (let vl := to_ascii_lowercase v in contains (lit "no-store") vl || contains (lit "private") vl))
  || (negb (ignore_set_cookie c) && eq_ignore_ascii_case k (lit "set-cookie")).

Definition is_cacheable (c : ProxyCache) (status : Z) (resp_headers : list (list Z * list Z)) : bool :=
  bool_decide (status ∈ cacheable_statuses c) && negb (existsb (header_forbids c) resp_headers).

(** ** Eviction *)

(** The two [retain] passes, visiting keys in [order]. *)
Fixpoint retain_expired (now evict_count removed : Z) (order : list CacheKey) (m : gmap CacheKey CacheEntry)
  : Z * gmap CacheKey CacheEntry :=
  match order with
  | [] => (removed, m)
  | k :: order =>
      match m !! k with
      | Some v =>
          if evict_count <=? removed then retain_expired now evict_count removed order m
          else if is_expired now v then retain_expired now evict_count (removed + 1) order (delete k m)
          else retain_expired now evict_count removed order m
      | None => retain_expired now evict_count removed order m
      end
  end.

Fixpoint retain_any (still_need cnt : Z) (order : list CacheKey) (m : gmap CacheKey CacheEntry)
  : gmap CacheKey CacheEntry :=
  match order with
  | [] => m
  | k :: order =>
      match m !! k with
      | Some _ => if still_need <=? cnt then retain_any still_need cnt order m
                  else retain_any still_need (cnt + 1) order (delete k m)
      | None => retain_any still_need cnt order m
      end
  end.

Definition evict (now : Z) (order1 order2 : list CacheKey) (c : ProxyCache) : ProxyCache :=
  let evict_count := Z.max (max_entries c / 10) 1 in
  let '(removed, m) := retain_expired now evict_count 0 order1 (mem c) in
  if removed <? evict_count then set_mem (retain_any (evict_count - removed) 0 order2 m) c
  else set_mem m c.

(** [ProxyCache::purge_all] *)
Definition purge_all (c : ProxyCache) : ProxyCache :=
  set_mem ∅ (if bool_decide (is_Some (disk_path c)) then set_disk ∅ c else c).

(** The counters of [ProxyCache::stats]: entries, expired. *)
Definition cache_stats (now : Z) (c : ProxyCache) : Z * Z :=
  (Z.of_nat (size (mem c)), Z.of_nat (size (filter (λ kv, is_expired now kv.2 = true) (mem c)))).

(** ** Disk format *)

(** The JSON object of an entry. *)
Record json_entry := mkJson {
  js_status : Z;
  js_headers : list (list Z * list Z);
  js_body : list Z;
  js_ttl_secs : Z;
}.

Section cache.
Context (default_hash : list Z → Z).
Context (json_write : json_entry → list Z) (json_read : list Z → option json_entry).
Context (to_uppercase to_lowercase : list Z → list Z).
Context `{L : HeaderLib}.

(** [CacheKey::to_filename] *)
Definition to_filename (k : CacheKey) : list Z :=
  dec (default_hash (ck_method k ++ [byte_colon] ++ ck_host k ++ [byte_colon] ++ ck_path k)).

(** [ProxyCache::from_config] *)
Definition cache_from_config (cfg : ProxyCacheConfig) : ProxyCache :=
  mkProxyCache ∅ ∅ (pcc_max_entries cfg) (pcc_ttl cfg * SEC) (pcc_cacheable_statuses cfg)
    (to_uppercase <$> pcc_cacheable_methods cfg) (to_lowercase <$> pcc_bypass_headers cfg) (pcc_path cfg)
    (existsb (λ h, eq_ignore_ascii_case h (lit "Cache-Control")) (pcc_ignore_headers cfg))
    (existsb (λ h, eq_ignore_ascii_case h (lit "Set-Cookie")) (pcc_ignore_headers cfg)).

(** [ProxyCache::should_lookup] *)
Definition bypassed (req_headers : HeaderMap) (bypass : list Z) : bool :=
  match header_name bypass with
  | Some n => match hm_get req_headers n with
              | Some val => negb (bool_decide (val = []))
              | None => false
              end
  | None => false
  end.

Definition should_lookup (c : ProxyCache) (method : list Z) (req_headers : HeaderMap) : bool :=
  if negb (existsb (λ m, eq_ignore_ascii_case m method) (cacheable_methods c)) then false
  else negb (existsb (bypassed req_headers) (bypass_headers c)).

(** [serialize_entry], [deserialize_entry] *)
Definition serialize_entry (now : Z) (e : CacheEntry) : list Z :=
  let elapsed := sat_sub now (ce_created_at e) / SEC in
  let remaining := sat_sub (ce_ttl e / SEC) elapsed in
  json_write (mkJson (ce_status e) (ce_headers e) (base64_encode (ce_body e)) remaining).

Definition deserialize_entry (now : Z) (data : list Z) : option CacheEntry :=
  match json_read data with
  | Some o => Some (mkEntry (js_status o) (js_headers o) (base64_decode (js_body o)) now (js_ttl_secs o * SEC))
  | None => None
  end.

(** [ProxyCache::get]; [now] is the clock, read at each expiry test. *)
Definition cache_get (now : Z) (key : CacheKey) (c : ProxyCache) : option CacheEntry * ProxyCache :=
  let '(hit, c) :=
    match mem c !! key with
    | Some entry => if negb (is_expired now entry) then (Some entry, c)
                    else (None, set_mem (delete key (mem c)) c)
    | None => (None, c)
    end in
  match hit with
  | Some entry => (Some entry, c)
  | None =>
      match disk_path c with
      | None => (None, c)
      | Some _ =>
          let path := to_filename key in
          match disk c !! path with
          | None => (None, c)
          | Some data =>
              match deserialize_entry now data with
              | None => (None, c)
              | Some entry =>
                  if negb (is_expired now entry)
                  then (Some entry, set_mem (<[key := entry]> (mem c)) c)
                  else (None, set_disk (delete path (disk c)) c)
              end
          end
      end
  end.

(** [ProxyCache::set]: the new cache and the disk write the background task
    will make. *)
Definition cache_set (now : Z) (order1 order2 : list CacheKey) (key : CacheKey) (status : Z)
    (headers : list (list Z * list Z)) (body : list Z) (c : ProxyCache)
  : ProxyCache * option (list Z * list Z) :=
  let c := if max_entries c <=? Z.of_nat (size (mem c)) then evict now order1 order2 c else c in
  let entry := mkEntry status headers body now (ttl c) in
  (set_mem (<[key := entry]> (mem c)) c,
   match disk_path c with
   | Some _ => Some (to_filename key, serialize_entry now entry)
   | None => None
   end).

(** The background write. *)
Definition disk_write (w : option (list Z * list Z)) (c : ProxyCache) : ProxyCache :=
  match w with Some (path, data) => set_disk (<[path := data]> (disk c)) c | None => c end.

End cache.

(** ** Base64 round trip *)

Definition b64_ok (i : Z) : bool :=
  bool_decide (decode_char (b64_char i) = Some i) && negb (b64_char i =? byte_eq).

Lemma b64_ok_all i : 0 ≤ i < 64 → default 0 (decode_char (b64_char i)) = i ∧ (b64_char i =? byte_eq) = false.
Proof.
  intros Hi. assert (H : forallb b64_ok (Z.of_nat <$> seq 0 64) = true) by (vm_compute; reflexivity).
  rewrite forallb_forall in H. specialize (H i). unfold b64_ok in H.
  apply andb_true_iff in H as [H1%bool_decide_eq_true H2%negb_true_iff].
  - by rewrite H1.
  - apply list_elem_of_In, list_elem_of_fmap. exists (Z.to_nat i). rewrite elem_of_seq. lia.
Qed.

(** The four six-bit groups of three bytes. *)
Lemma b64_groups b0 b1 b2 : is_u8 b0 → is_u8 b1 → is_u8 b2 →
  Z.shiftr b0 2 = b0 / 4 ∧ Z.lor (Z.shiftl (Z.land b0 3) 4) (Z.shiftr b1 4) = b0 mod 4 * 16 + b1 / 16
  ∧ Z.lor (Z.shiftl (Z.land b1 15) 2) (Z.shiftr b2 6) = b1 mod 16 * 4 + b2 / 64 ∧ Z.land b2 63 = b2 mod 64.
Proof.
  unfold is_u8, u8_max. intros. rewrite !Z.shiftr_div_pow2 by lia.
  change 3 with (2 ^ 2 - 1). change 15 with (2 ^ 4 - 1). change 63 with (2 ^ 6 - 1).
  rewrite !land_low by lia. change (2 ^ 2) with 4. change (2 ^ 4) with 16. change (2 ^ 6) with 64.
  rewrite !lor_shiftl_add by (try lia; change (2 ^ 4) with 16; change (2 ^ 2) with 4; Z.to_euclidean_division_equations; lia).
  done.
Qed.

(** The three bytes of four six-bit groups. *)
Lemma b64_bytes g0 g1 g2 g3 :
  0 ≤ g0 < 64 → 0 ≤ g1 < 64 → 0 ≤ g2 < 64 → 0 ≤ g3 < 64 →
  Z.lor (Z.shiftl g0 2 mod 256) (Z.shiftr g1 4) = g0 * 4 + g1 / 16
  ∧ Z.lor (Z.shiftl g1 4 mod 256) (Z.shiftr g2 2) = g1 mod 16 * 16 + g2 / 4
  ∧ Z.lor (Z.shiftl g2 6 mod 256) g3 = g2 mod 4 * 64 + g3.
Proof.
  intros. rewrite !Z.shiftr_div_pow2 by lia. change (2 ^ 4) with 16. change (2 ^ 2) with 4.
  assert (E0 : Z.shiftl g0 2 mod 256 = Z.shiftl g0 2).
  { rewrite Z.shiftl_mul_pow2 by lia. change (2 ^ 2) with 4. rewrite Z.mod_small; lia. }
  assert (E1 : Z.shiftl g1 4 mod 256 = Z.shiftl (g1 mod 16) 4).
  { rewrite !Z.shiftl_mul_pow2 by lia. change (2 ^ 4) with 16. Z.to_euclidean_division_equations; lia. }
  assert (E2 : Z.shiftl g2 6 mod 256 = Z.shiftl (g2 mod 4) 6).
  { rewrite !Z.shiftl_mul_pow2 by lia. change (2 ^ 6) with 64. Z.to_euclidean_division_equations; lia. }
  rewrite E0, E1, E2, !lor_shiftl_add by (try lia; change (2 ^ 2) with 4; change (2 ^ 4) with 16;
    change (2 ^ 6) with 64; Z.to_euclidean_division_equations; lia).
  done.
Qed.

Lemma list_ind3 {A} (P : list A → Prop) :
  P [] → (∀ a, P [a]) → (∀ a b, P [a; b]) → (∀ a b c l, P l → P (a :: b :: c :: l)) → ∀ l, P l.
Proof.
  intros H0 H1 H2 H3. fix IH 1. intros [|a [|b [|c l]]]; [done|done|done|]. apply H3, IH.
Qed.

Lemma decode_char_eq : decode_char byte_eq = Some 0.
Proof. reflexivity. Qed.

(** One group of four characters, with two, one or no padding character. *)
Lemma base64_decode_group g0 g1 g2 g3 s :
  0 ≤ g0 < 64 → 0 ≤ g1 < 64 → 0 ≤ g2 < 64 → 0 ≤ g3 < 64 →
  base64_decode (b64_char g0 :: b64_char g1 :: b64_char g2 :: b64_char g3 :: s)
    = g0 * 4 + g1 / 16 :: g1 mod 16 * 16 + g2 / 4 :: g2 mod 4 * 64 + g3 :: base64_decode s
  ∧ base64_decode (b64_char g0 :: b64_char g1 :: b64_char g2 :: byte_eq :: s)
    = g0 * 4 + g1 / 16 :: g1 mod 16 * 16 + g2 / 4 :: base64_decode s
  ∧ base64_decode (b64_char g0 :: b64_char g1 :: byte_eq :: byte_eq :: s)
    = g0 * 4 + g1 / 16 :: base64_decode s.
Proof.
  intros H0 H1 H2 H3. destruct (b64_bytes g0 g1 g2 g3) as (E0 & E1 & E2); try done.
  destruct (b64_ok_all g0 H0) as [D0 _]. destruct (b64_ok_all g1 H1) as [D1 _].
  destruct (b64_ok_all g2 H2) as [D2 N2]. destruct (b64_ok_all g3 H3) as [D3 N3].
  cbn [base64_decode]. cbv zeta. rewrite D0, D1, D2, D3, N2, N3, E0, E1, E2, Z.eqb_refl.
  cbn [negb app]. done.
Qed.

Lemma base64_roundtrip' data : Forall is_u8 data → base64_decode (base64_encode data) = data.
Proof.
  assert (H0 : is_u8 0) by (split; done).
  induction data as [|a|a b|a b c l IH] using list_ind3; intros H; [done|..];
    repeat match goal with H : Forall is_u8 (_ :: _) |- _ => apply Forall_cons_1 in H as [? H] end;
    cbn [base64_encode].
  - destruct (b64_groups a 0 0) as (-> & -> & _); [done..|].
    destruct (base64_decode_group (a / 4) (a mod 4 * 16 + 0 / 16) 0 0 []) as (_ & _ & ->);
      unfold is_u8, u8_max in *; try (Z.to_euclidean_division_equations; lia).
    f_equal. Z.to_euclidean_division_equations; lia.
  - destruct (b64_groups a b 0) as (-> & -> & -> & _); [done..|].
    destruct (base64_decode_group (a / 4) (a mod 4 * 16 + b / 16) (b mod 16 * 4 + 0 / 64) 0 []) as (_ & -> & _);
      unfold is_u8, u8_max in *; try (Z.to_euclidean_division_equations; lia).
    f_equal; [|f_equal]; Z.to_euclidean_division_equations; lia.
  - destruct (b64_groups a b c) as (-> & -> & -> & ->); [done..|].
    destruct (base64_decode_group (a / 4) (a mod 4 * 16 + b / 16) (b mod 16 * 4 + c / 64) (c mod 64)
      (base64_encode l)) as (-> & _ & _); unfold is_u8, u8_max in *; try (Z.to_euclidean_division_equations; lia).
    rewrite IH by done. f_equal; [|f_equal; [|f_equal]]; Z.to_euclidean_division_equations; lia.
Qed.

(** base64 round trip: what the disk layer encodes, it decodes to the same
    bytes, for every body. *)
Theorem base64_roundtrip data : Forall is_u8 data → base64_decode (base64_encode data) = data.
Proof. apply base64_roundtrip'. Qed.

(** ** Keys and cacheability *)

(** cache keys ignore letter case exactly where HTTP does: two requests
    share a key iff their methods and hosts agree up to ASCII case and their
    paths agree byte for byte. *)
Theorem cache_key_case m h p m' h' p' :
  cache_key_new m h p = cache_key_new m' h' p' ↔
  to_ascii_uppercase m = to_ascii_uppercase m' ∧ to_ascii_lowercase h = to_ascii_lowercase h' ∧ p = p'.
Proof.
  assert (Hu : ∀ s, (if existsb is_ascii_lowercase s then to_ascii_uppercase s else s) = to_ascii_uppercase s).
  { intros s. destruct (existsb is_ascii_lowercase s) eqn:E; [done|]. symmetry.
    apply to_ascii_uppercase_id. by rewrite <- negb_existsb, E. }
  assert (Hl : ∀ s, (if existsb is_ascii_uppercase s then to_ascii_lowercase s else s) = to_ascii_lowercase s).
  { intros s. destruct (existsb is_ascii_uppercase s) eqn:E; [done|]. symmetry.
    apply to_ascii_lowercase_id. by rewrite <- negb_existsb, E. }
  unfold cache_key_new. cbv zeta. rewrite !Hu, !Hl. split; [intros [=]; done|intros (-> & -> & ->); done].
Qed.

(** ** Size bound *)

Lemma retain_expired_size now ec removed order m :
  let '(r, m') := retain_expired now ec removed order m in
  removed ≤ r ∧ Z.of_nat (size m') + (r - removed) = Z.of_nat (size m) ∧ m' ⊆ m.
Proof.
  revert removed m; induction order as [|k order IH]; intros removed m; cbn [retain_expired].
  { split_and!; [lia|lia|done]. }
  destruct (m !! k) as [v|] eqn:E; [|apply IH].
  destruct (ec <=? removed); [apply IH|]. destruct (is_expired now v); [|apply IH].
  specialize (IH (removed + 1) (delete k m)). destruct (retain_expired _ _ _ _ _) as [r m'].
  destruct IH as (? & Hs & Hsub).
  assert (Hd : (size (delete k m) = size m - 1)%nat) by (rewrite map_size_delete_Some by (by rewrite E); lia).
  assert (Hpos : size m ≠ 0%nat).
  { intros H0. apply map_size_empty_iff in H0. subst. by rewrite lookup_empty in E. }
  split_and!; [lia|lia|]. etrans; [done|]. apply delete_subseteq.
Qed.

Lemma retain_any_le need cnt order m : (size (retain_any need cnt order m) ≤ size m)%nat.
Proof.
  revert cnt m; induction order as [|k order IH]; intros cnt m; cbn [retain_any]; [done|].
  destruct (m !! k) as [v|] eqn:E; [|apply IH]. destruct (need <=? cnt); [apply IH|].
  etrans; [apply IH|]. rewrite map_size_delete_Some by (by rewrite E). lia.
Qed.

Lemma insert_size_le `{Countable K} {A} k v (m : gmap K A) : (size (<[k := v]> m) ≤ S (size m))%nat.
Proof. rewrite map_size_insert. case_match; unfold id; lia. Qed.

Lemma map_size_pos `{Countable K} {A} (m : gmap K A) k v : m !! k = Some v → (0 < size m)%nat.
Proof.
  intros E. destruct (size m) eqn:Hs; [|lia]. apply map_size_empty_iff in Hs. subst. by rewrite lookup_empty in E.
Qed.

Lemma retain_any_lt need cnt order m :
  cnt < need → m ≠ ∅ → (∀ k, is_Some (m !! k) → k ∈ order) →
  (size (retain_any need cnt order m) < size m)%nat.
Proof.
  revert m; induction order as [|k order IH]; intros m Hc Hne Hdom; cbn [retain_any].
  - exfalso. apply Hne, map_eq. intros k. rewrite lookup_empty.
    destruct (m !! k) eqn:E; [|done]. destruct (not_elem_of_nil k). apply Hdom. by rewrite E.
  - destruct (m !! k) as [v|] eqn:E.
    + rewrite (proj2 (Z.leb_gt _ _)) by lia.
      pose proof (retain_any_le need (cnt + 1) order (delete k m)).
      rewrite map_size_delete_Some in H by (by rewrite E). pose proof (map_size_pos _ _ _ E). lia.
    + apply IH; [done|done|]. intros k' Hk'. pose proof (Hdom k' Hk') as [->|]%elem_of_cons; [|done].
      rewrite E in Hk'. by destruct Hk'.
Qed.

(** An iteration order visits every key that is there. *)
Definition visits {A} (order : list CacheKey) (m : gmap CacheKey A) : Prop := ∀ k, is_Some (m !! k) → k ∈ order.

Lemma evict_shrinks now o1 o2 c :
  visits o2 (mem c) → mem c ≠ ∅ → (size (mem (evict now o1 o2 c)) < size (mem c))%nat.
Proof.
  intros Hv Hne. unfold evict. set (ec := Z.max (max_entries c / 10) 1).
  pose proof (retain_expired_size now ec 0 o1 (mem c)) as H.
  destruct (retain_expired now ec 0 o1 (mem c)) as [r m]. destruct H as (Hr & Hs & Hsub).
  destruct (Z.ltb_spec r ec); cbn [mem set_mem].
  - destruct (decide (m = ∅)) as [->|Hm].
    + pose proof (retain_any_le (ec - r) 0 o2 ∅). rewrite map_size_empty in H0.
      destruct (size (mem c)) eqn:E; [by apply map_size_empty_iff in E|lia].
    + assert (size (retain_any (ec - r) 0 o2 m) < size m)%nat; [|lia].
      apply retain_any_lt; [lia|done|]. intros k [v Hk]. apply Hv. exists v. by eapply lookup_weaken.
  - assert (1 ≤ ec) by (unfold ec; lia). lia.
Qed.

Lemma evict_fields now o1 o2 c :
  max_entries (evict now o1 o2 c) = max_entries c ∧ ttl (evict now o1 o2 c) = ttl c
  ∧ disk_path (evict now o1 o2 c) = disk_path c.
Proof. unfold evict. destruct (retain_expired _ _ _ _ _) as [r m]. by case_test. Qed.

Section cache_theorems.
Context (default_hash : list Z → Z).
Context (json_write : json_entry → list Z) (json_read : list Z → option json_entry).

(** the cache stays within [max_entries]: storing a response never makes
    it larger than its configured bound, whatever order the map is walked in. *)
Theorem cache_set_bounded now o1 o2 key status headers body c :
  1 ≤ max_entries c → Z.of_nat (size (mem c)) ≤ max_entries c → visits o2 (mem c) →
  let c' := fst (cache_set default_hash json_write now o1 o2 key status headers body c) in
  Z.of_nat (size (mem c')) ≤ max_entries c' ∧ max_entries c' = max_entries c.
Proof.
  intros Hmax Hs Hv. unfold cache_set. cbn [fst mem set_mem max_entries].
  destruct (Z.leb_spec (max_entries c) (Z.of_nat (size (mem c)))) as [Hfull|Hroom].
  - destruct (evict_fields now o1 o2 c) as (-> & _). split; [|done].
    assert (Hne : mem c ≠ ∅) by (intros E; rewrite E, map_size_empty in Hfull; lia).
    pose proof (evict_shrinks now o1 o2 c Hv Hne).
    match goal with |- Z.of_nat (size (insert ?k ?v ?m)) ≤ _ => pose proof (insert_size_le k v m) end. lia.
  - split; [|done].
    match goal with |- Z.of_nat (size (insert ?k ?v ?m)) ≤ _ => pose proof (insert_size_le k v m) end. lia.
Qed.

(** the in-memory round trip.  A stored response is served with its
    status, headers and body unchanged until its lifetime has passed, and
    never after. *)
Theorem cache_set_get now now' o1 o2 key status headers body c :
  disk_path c = None →
  let c' := fst (cache_set default_hash json_write now o1 o2 key status headers body c) in
  fst (cache_get default_hash json_read now' key c') =
    if sat_sub now' now <=? ttl c then Some (mkEntry status headers body now (ttl c)) else None.
Proof.
  intros Hd. unfold cache_set. cbn [fst].
  set (c1 := if max_entries c <=? Z.of_nat (size (mem c)) then evict now o1 o2 c else c).
  assert (H1 : ttl c1 = ttl c ∧ disk_path c1 = None).
  { unfold c1. case_test; [|done]. destruct (evict_fields now o1 o2 c) as (_ & -> & ->). done. }
  destruct H1 as [Ht Hdp]. unfold cache_get. cbn [mem set_mem]. rewrite lookup_insert_eq.
  unfold is_expired. cbn [ce_ttl ce_created_at]. rewrite Ht, <- Z.leb_antisym.
  destruct (sat_sub now' now <=? ttl c); [done|]. cbn [disk_path set_mem]. by rewrite Hdp.
Qed.

(** nothing stale or foreign is served: whatever is in memory and on disk,
    an answer is not past its lifetime, and it is the entry stored in memory
    under that key or the one read from the key's own file. *)
Theorem cache_get_fresh now key c e c' :
  cache_get default_hash json_read now key c = (Some e, c') →
  is_expired now e = false ∧ mem c' !! key = Some e
  ∧ (mem c !! key = Some e
     ∨ ∃ data, disk c !! to_filename default_hash key = Some data
         ∧ deserialize_entry json_read now data = Some e).
Proof.
  unfold cache_get. destruct (mem c !! key) as [e0|] eqn:Em.
  - destruct (is_expired now e0) eqn:Ex; cbn [negb].
    + destruct (disk_path _); [|done]. cbn [disk set_mem].
      destruct (disk c !! _) as [data|] eqn:Ed; [|done].
      destruct (deserialize_entry json_read now data) as [e1|] eqn:Es; [|done].
      destruct (is_expired now e1) eqn:Ey; cbn [negb]; [done|]. intros [= <- <-].
      split_and!; [done|cbn [mem set_mem]; by rewrite lookup_insert_eq|eauto].
    + intros [= <- <-]. auto.
  - destruct (disk_path _); [|done].
    destruct (disk c !! _) as [data|] eqn:Ed; [|done].
    destruct (deserialize_entry json_read now data) as [e1|] eqn:Es; [|done].
    destruct (is_expired now e1) eqn:Ey; cbn [negb]; [done|]. intros [= <- <-].
    split_and!; [done|cbn [mem set_mem]; by rewrite lookup_insert_eq|eauto].
Qed.

(** An entry in memory that is not past its lifetime is the answer. *)
Lemma cache_get_mem now key c e :
  mem c !! key = Some e → is_expired now e = false → cache_get default_hash json_read now key c = (Some e, c).
Proof. intros Hm He. unfold cache_get. by rewrite Hm, He. Qed.

Context (json_roundtrip : ∀ o, json_read (json_write o) = Some o).

(** What a lookup makes of the record of a stored response, at any time after memory was lost. *)
Lemma disk_read_back now now' o1 o2 key status headers body d c :
  disk_path c = Some d → Forall is_u8 body → 0 ≤ ttl c →
  let '(c1, w) := cache_set default_hash json_write now o1 o2 key status headers body c in
  fst (cache_get default_hash json_read now' key (set_mem ∅ (disk_write w c1)))
    = Some (mkEntry status headers body now' (ttl c / SEC * SEC)).
Proof.
  intros Hd Hb Ht. unfold cache_set.
  set (c1 := if max_entries c <=? Z.of_nat (size (mem c)) then evict now o1 o2 c else c).
  assert (H1 : ttl c1 = ttl c ∧ disk_path c1 = Some d).
  { unfold c1. case_test; [|done]. destruct (evict_fields now o1 o2 c) as (_ & -> & ->). done. }
  destruct H1 as [Htt Hdp]. rewrite Hdp. unfold cache_get. cbn [mem set_mem disk_write set_disk disk disk_path].
  rewrite lookup_empty. cbn [disk_path set_mem set_disk disk]. rewrite Hdp, lookup_insert_eq. unfold deserialize_entry, serialize_entry.
  rewrite json_roundtrip. cbn [js_status js_headers js_body js_ttl_secs ce_status ce_headers ce_body ce_created_at ce_ttl].
  rewrite base64_roundtrip' by done.
  assert (Hr : sat_sub (ttl c1 / SEC) (sat_sub now now / SEC) = ttl c / SEC).
  { rewrite Htt. unfold sat_sub at 2. rewrite Z.sub_diag, Z.max_id. change (0 / SEC) with 0.
    unfold sat_sub. rewrite Z.sub_0_r, Z.max_r; [done|]. apply Z.div_pos; [done|unfold SEC; lia]. }
  rewrite Hr. unfold is_expired. cbn [ce_ttl ce_created_at].
  unfold sat_sub at 1. rewrite Z.sub_diag, Z.max_id.
  rewrite (proj2 (Z.ltb_ge _ _)); [done|]. unfold SEC. pose proof (Z.div_pos (ttl c) 1000000000). lia.
Qed.

(** C32: The disk round trip.  Let a response be stored in a cache with a disk path, its background
    write done and memory lost afterwards.  A lookup of the key at any time within the configured
    lifetime is then answered with exactly the stored status, headers and body, and puts the answer back
    into memory, so that the next lookup at that time is answered the same way.  Lookups after the
    lifetime, where the code and the documentation disagree, are [disk_record_outlives_ttl]. *)
Theorem cache_disk_roundtrip now now' o1 o2 key status headers body d c :
  disk_path c = Some d → Forall is_u8 body → 0 ≤ now' - now ≤ ttl c →
  let '(c1, w) := cache_set default_hash json_write now o1 o2 key status headers body c in
  ∃ e c2, cache_get default_hash json_read now' key (set_mem ∅ (disk_write w c1)) = (Some e, c2)
    ∧ ce_status e = status ∧ ce_headers e = headers ∧ ce_body e = body
    ∧ cache_get default_hash json_read now' key c2 = (Some e, c2).
Proof.
  intros Hd Hb Ht. pose proof (disk_read_back now now' o1 o2 key status headers body d c Hd Hb) as H.
  destruct (cache_set _ _ _ _ _ _ _ _ _ _) as [c1 w]. specialize (H ltac:(lia)).
  destruct (cache_get _ _ _ _ (set_mem ∅ (disk_write w c1))) as [r c2] eqn:E. cbn [fst] in H. subst r.
  eexists _, c2. split_and!; [done..|]. apply cache_get_fresh in E as (He & Hm & _).
  by apply cache_get_mem.
Qed.

(** Records on disk outlive the lifetime.  A record keeps the seconds that were left when it was
    written, not the time of the writing: after the lifetime has passed, however long ago, a lookup
    still finds the memory entry expired but the record good, answers with it and keeps it for the whole
    lifetime again.  The header of the file, the comment at the removal of expired records and the
    documentation of [ttl] say that such a response is gone. *)
Theorem disk_record_outlives_ttl now now' o1 o2 key status headers body d c :
  disk_path c = Some d → Forall is_u8 body → 0 ≤ ttl c → ttl c < now' - now →
  let '(c1, w) := cache_set default_hash json_write now o1 o2 key status headers body c in
  (∀ e, mem c1 !! key = Some e → is_expired now' e = true)
  ∧ fst (cache_get default_hash json_read now' key (disk_write w c1))
      = Some (mkEntry status headers body now' (ttl c / SEC * SEC)).
Proof.
  intros Hd Hb Ht Hlate. pose proof (disk_read_back now now' o1 o2 key status headers body d c Hd Hb Ht) as H.
  unfold cache_set in *. set (c1 := if max_entries c <=? Z.of_nat (size (mem c)) then evict now o1 o2 c else c) in *.
  assert (Htt : ttl c1 = ttl c) by (unfold c1; case_test; [apply evict_fields|done]).
  assert (He : is_expired now' (mkEntry status headers body now (ttl c1)) = true).
  { unfold is_expired. cbn [ce_ttl ce_created_at]. rewrite Htt. unfold sat_sub. apply Z.ltb_lt. lia. }
  split.
  - intros e. cbn [mem set_mem]. rewrite lookup_insert_eq. by intros [= <-].
  - rewrite <- H. clear H. destruct (disk_path c1) eqn:Ep; cbn [disk_write]; unfold cache_get;
      cbn [mem set_mem set_disk disk]; rewrite lookup_insert_eq, lookup_empty, He; cbn [negb disk_path set_mem set_disk disk]; rewrite Ep; [|done].
    destruct (<[_ := _]> (disk c1) !! _); [|done]. destruct (deserialize_entry _ _ _); [|done]. by destruct (negb _).
Qed.

(** the bound does not cover disk hits: when memory is full, an answer
    read back from disk is added without eviction. *)
Theorem backfill_exceeds_bound now key c data e :
  mem c !! key = None → disk_path c ≠ None → disk c !! to_filename default_hash key = Some data →
  deserialize_entry json_read now data = Some e → is_expired now e = false →
  Z.of_nat (size (mem c)) = max_entries c →
  let c' := snd (cache_get default_hash json_read now key c) in
  Z.of_nat (size (mem c')) = max_entries c' + 1.
Proof.
  intros Hm Hd Hf Hs He Hfull. unfold cache_get. rewrite Hm. destruct (disk_path c); [|done].
  rewrite Hf, Hs, He. cbn [negb snd mem set_mem max_entries]. rewrite map_size_insert_None by done. lia.
Qed.

End cache_theorems.

(** ** Witnesses *)

Module Witness.

(** A concrete stand-in for the JSON library. *)
Definition jw (o : json_entry) : list Z :=
  [Z.pos (encode (js_status o, js_headers o, js_body o, js_ttl_secs o))].
Definition jr (l : list Z) : option json_entry :=
  match l with
  | [Z.pos p] => (λ '(s, h, b, t), mkJson s h b t) <$> (decode p : option (Z * list (list Z * list Z) * list Z * Z))
  | _ => None
  end.
Lemma jr_jw o : jr (jw o) = Some o.
Proof. unfold jr, jw. rewrite decode_encode. by destruct o. Qed.

Definition h (s : list Z) : Z := Z.of_nat (length s).
Definition c0 : ProxyCache := mkProxyCache ∅ ∅ 1 (60 * SEC) [200] [lit "GET"] [] None false false.
Definition cd : ProxyCache := mkProxyCache ∅ ∅ 1 (60 * SEC) [200] [lit "GET"] [] (Some (lit "/d")) false false.
Definition k0 : CacheKey := cache_key_new (lit "get") (lit "Example.com") (lit "/").

Lemma base64_roundtrip_witness : base64_decode (base64_encode [0; 255; 61; 7]) = [0; 255; 61; 7].
Proof. apply (base64_roundtrip [0; 255; 61; 7]). repeat constructor; vm_compute; congruence. Defined.

Lemma cache_set_bounded_witness :
  let c' := fst (cache_set h jw 5 [] [] k0 200 [] [] c0) in
  Z.of_nat (size (mem c')) ≤ max_entries c' ∧ max_entries c' = max_entries c0.
Proof.
  apply (cache_set_bounded h jw 5 [] [] k0 200 [] [] c0); [vm_compute; congruence..|].
  intros k [v Hk]. exfalso. change ((∅ : gmap CacheKey CacheEntry) !! k = Some v) in Hk.
  by rewrite lookup_empty in Hk.
Defined.

Lemma cache_set_get_witness :
  fst (cache_get h jr 70 k0 (fst (cache_set h jw 5 [] [] k0 200 [] (lit "hi") c0)))
  = Some (mkEntry 200 [] (lit "hi") 5 (60 * SEC)).
Proof. apply (cache_set_get h jw jr 5 70 [] [] k0 200 [] (lit "hi") c0). reflexivity. Defined.

Lemma cache_get_fresh_witness :
  is_expired 70 (mkEntry 200 [] (lit "hi") 5 (60 * SEC)) = false.
Proof.
  pose proof (cache_get_fresh h jr 70 k0 (fst (cache_set h jw 5 [] [] k0 200 [] (lit "hi") c0))
    (mkEntry 200 [] (lit "hi") 5 (60 * SEC)) (fst (cache_set h jw 5 [] [] k0 200 [] (lit "hi") c0))
    eq_refl) as [H _]. exact H.
Defined.

Lemma cache_disk_roundtrip_witness :
  let '(c1, w) := cache_set h jw 5 [] [] k0 200 [] (lit "hi") cd in
  ∃ e c2, cache_get h jr (30 * SEC) k0 (set_mem ∅ (disk_write w c1)) = (Some e, c2)
    ∧ ce_status e = 200 ∧ ce_headers e = [] ∧ ce_body e = lit "hi" ∧ cache_get h jr (30 * SEC) k0 c2 = (Some e, c2).
Proof.
  apply (cache_disk_roundtrip h jw jr jr_jw 5 (30 * SEC) [] [] k0 200 [] (lit "hi") (lit "/d") cd);
    [reflexivity|repeat constructor; vm_compute; congruence|vm_compute; split; congruence].
Defined.

(** A response stored for a minute is served an hour later. *)
Lemma disk_record_outlives_ttl_witness :
  let '(c1, w) := cache_set h jw 5 [] [] k0 200 [] (lit "hi") cd in
  (∀ e, mem c1 !! k0 = Some e → is_expired (3600 * SEC) e = true)
  ∧ fst (cache_get h jr (3600 * SEC) k0 (disk_write w c1)) = Some (mkEntry 200 [] (lit "hi") (3600 * SEC) (60 * SEC)).
Proof.
  apply (disk_record_outlives_ttl h jw jr jr_jw 5 (3600 * SEC) [] [] k0 200 [] (lit "hi") (lit "/d") cd);
    [reflexivity|repeat constructor; vm_compute; congruence|vm_compute; congruence|vm_compute; congruence].
Defined.

Definition full : ProxyCache :=
  set_disk {[ to_filename h k0 := jw (mkJson 200 [] [] 60) ]}
    (set_mem {[ cache_key_new (lit "GET") (lit "b") (lit "/x") := mkEntry 200 [] [] 0 (60 * SEC) ]} cd).

Lemma backfill_exceeds_bound_witness :
  let c' := snd (cache_get h jr 7 k0 full) in Z.of_nat (size (mem c')) = max_entries c' + 1.
Proof.
  apply (backfill_exceeds_bound h jr 7 k0 full (jw (mkJson 200 [] [] 60)) (mkEntry 200 [] [] 7 (60 * SEC)));
    [reflexivity|done|reflexivity| |reflexivity|reflexivity].
  unfold deserialize_entry. by rewrite jr_jw.
Defined.

End Witness.
