(* ===== verification/Forward.v ===== *)
(** * Forwarding a request: [src/handler/reverse_proxy/conn.rs],
    [src/handler/reverse_proxy/mod.rs]

    One exchange on an upstream connection ([send_recv_pooled]), the reuse of
    idle connections with its single retry ([forward_request]), and the retry
    over upstream nodes of [handle_sweety] with the connection counters.

    A connection is described by what happens on it: whether the head and the
    body can be written, the bytes the upstream sends and how its side ends, and
    how many bytes beyond the response the reader has fetched when it is given
    up, which the connection loses. *)

From S2P Require Import Prelude RustStr IpAddr Headers CircuitBreaker Retry LoadBalance ConnPool ProxyProtocol ProxyResponse Http1 Streaming ProxyCache.

(** ** One exchange *)

Inductive head_write := HeadOk | HeadTimeout | HeadErr (k : ErrorKind).

Record Conn := mkConn {
  c_head : head_write;
  c_body_write : nat → bool;
  c_data : list Z;
  c_end : stream_end;
  c_sched : nat → nat;
  c_ahead : nat;                      (* what its reader holds past the response, see [into_inner] *)
}.

(** The arguments of [send_recv_pooled] that stay the same over a request. *)
Record Req := mkReq {
  r_method : list Z;
  r_path : list Z;
  r_host : list Z;
  r_extra : list (list Z * list Z);
  r_client_ip : list Z;
  r_client_proto : list Z;
  r_strip_cookie_secure : bool;
  r_cookie_domain : option (list Z);
  r_redirect_from : option (list Z);
  r_redirect_to : option (list Z);
  r_write_timeout : Z;
  r_buffering : bool;                 (* [proxy_buffering] *)
  r_client_open : nat → bool;         (* whether the client still takes the [i]-th piece *)
}.

(** The response head. *)
Record resp_head := mkHead {
  rh_content_length : option Z;
  rh_chunked : bool;
  rh_close : bool;
  rh_trailer : bool;
  rh_headers : list (list Z * list Z);
}.

Definition RESP_MAX_HEADERS : nat := 200.
Definition RESP_MAX_LINE_LEN : Z := 16384.

Definition add_resp_header (h : resp_head) (k v : list Z) : resp_head :=
  mkHead
    (if eq_ignore_ascii_case k (lit "content-length") then parse_uint usize_max v else rh_content_length h)
    (rh_chunked h || (eq_ignore_ascii_case k (lit "transfer-encoding")
                      && contains (lit "chunked") (to_ascii_lowercase v)))
    (rh_close h || (eq_ignore_ascii_case k (lit "connection") && contains (lit "close") (to_ascii_lowercase v)))
    (rh_trailer h || eq_ignore_ascii_case k (lit "trailer"))
    (rh_headers h ++ [(k, v)]).

(** The header loop: every round consumes a line, so the length of the stream
    bounds the rounds. *)
Fixpoint read_resp_headers (fuel : nat) (count : nat) (h : resp_head) (s : list Z) (e : stream_end)
  : io (resp_head * list Z) :=
  match fuel with
  | O => Done (h, s)
  | S fuel =>
      if (RESP_MAX_HEADERS <=? count)%nat then Done (h, s)
      else
        match read_line s e with
        | (LineBlocked, _) => Blocked
        | (LineErr UnexpectedEof _, s') => Done (h, s')
        | (LineErr _ _, _) => Failed
        | (Line l, s') =>
            if RESP_MAX_LINE_LEN <? Z.of_nat (length l) then read_resp_headers fuel (S count) h s' e
            else
              let trimmed := trim l in
              match trimmed with
              | [] => Done (h, s')
              | _ =>
                  match split_header trimmed with
                  | Some (k, v) => read_resp_headers fuel (S count) (add_resp_header h k v) s' e
                  | None => read_resp_headers fuel count h s' e
                  end
              end
        end
  end.

(** [StatusCode::from_u16(code).unwrap_or(StatusCode::OK)] *)
Definition status_or_ok (code : Z) : Z := if (100 <=? code) && (code <=? 999) then code else 200.

Definition no_body_status (s : Z) : bool :=
  (s =? 304) || (s =? 204) || (s =? 205) || ((100 <=? s) && (s <=? 199)).

Record WebResponse `{HeaderLib} := mkResp {
  w_status : Z;
  w_body : list Z;
  w_headers : HeaderMap;
}.

(** What an exchange ends with: a response and, when the connection goes back
    to the pool, what can still be read from it; a response whose body a task
    streams, with what the task gives back to the pool; an error with whether
    the body was consumed; waiting for ever; or a panic. *)
Inductive exchange `{HeaderLib} :=
| ExOk (resp : WebResponse) (reuse : option (list Z)) (store : option (Z * list (list Z * list Z) * list Z))
| ExStream (status : Z) (headers : HeaderMap) (items : list stream_item) (reuse : option (list Z))
| ExErr (err : option ProxyError) (body_consumed : bool)
| ExBlocked
| ExPanic.

Section exchange.
Context `{L : HeaderLib} {R : Type} (build : list Z → option R) (replace_all : R → list Z → list Z → list Z).

Definition with_headers (r : Req) (hs : list (list Z * list Z)) (f : HeaderMap → exchange) : exchange :=
  match apply_response_headers hm_empty hs (r_strip_cookie_secure r) (r_cookie_domain r)
          (r_redirect_from r) (r_redirect_to r) with
  | Ret m => f m
  | Panic => ExPanic
  end.

(** The response body of the buffered path, with the trailers and whether the
    connection must be closed. *)
Definition read_body (c : Conn) (h : resp_head) (s : list Z)
  : io (list Z * list (list Z * list Z) * bool * list Z) :=
  if rh_chunked h then
    '(b, ts, s') ← read_chunked_body (c_sched c) (rh_trailer h) s (c_end c);
    Done (b, ts, rh_close h, s')
  else
    match rh_content_length h with
    | Some len =>
        '(b, s', _) ← read_exact_body (c_sched c) 0 len s (c_end c);
        Done (b, [], rh_close h, s')
    | None =>
        '(b, s') ← read_to_end (S (length s)) (c_sched c) 0 [] s (c_end c);
        Done (b, [], true, s')
    end.

Definition set_content_length (len : nat) (m : HeaderMap) : HeaderMap :=
  match header_value (dec (Z.of_nat len)) with
  | Some v => hm_insert (lit "content-length") v m
  | None => m
  end.

(** From the status line on: headers, body-less statuses, the streamed body
    and the buffered one; [cache] is the response cache, if any. *)
Definition finish_response (r : Req) (c : Conn) (sub_filter : list SubFilter) (cache : option ProxyCache)
    (status_code : Z) (http10 : bool) (s : list Z) : exchange :=
  match read_resp_headers (S (length s)) 0 (mkHead None false http10 false []) s (c_end c) with
  | Blocked => ExBlocked
  | Failed => ExErr None true
  | Done (h, s1) =>
      let st := status_or_ok status_code in
      if no_body_status st then
        with_headers r (rh_headers h) (λ m,
          ExOk (mkResp _ st [] m) (if negb (rh_close h) then Some (into_inner (c_ahead c) s1) else None) None)
      else if negb (r_buffering r) && bool_decide (sub_filter = []) && negb (bool_decide (is_Some cache)) then
        let '(items, reuse) := stream_body (c_sched c) (c_ahead c) (r_client_open r) (rh_chunked h) (rh_content_length h)
                                 (negb (rh_close h)) s1 (c_end c) in
        with_headers r (rh_headers h) (λ m,
          let m := if rh_chunked h then hm_remove (lit "transfer-encoding") m
                   else match rh_content_length h with
                        | Some len => match header_value (dec len) with
                                      | Some v => hm_insert (lit "content-length") v m
                                      | None => m
                                      end
                        | None => m
                        end in
          ExStream st m items reuse)
      else
        match read_body c h s1 with
        | Blocked => ExBlocked
        | Failed => ExErr None true
        | Done (body, trailers, close, s2) =>
            let body_after_url := rewrite_body_urls body (rh_headers h) (r_redirect_from r) (r_redirect_to r) in
            let final_body := fst (apply_sub_filter build replace_all body_after_url (rh_headers h) sub_filter ∅) in
            let store := match cache with
                         | Some pc => if is_cacheable pc status_code (rh_headers h)
                                      then Some (status_code, rh_headers h, final_body) else None
                         | None => None
                         end in
            with_headers r (rh_headers h) (λ m,
              let m := append_trailer_headers m trailers in
              let m := set_content_length (length final_body) m in
              ExOk (mkResp _ st final_body m) (if negb close then Some (into_inner (c_ahead c) s2) else None) store)
        end
  end.

(** An [io::Error] of the body pipe, not a [ProxyError]. *)
Definition pipe_error_proxy (e : pipe_error) : option ProxyError := None.

(** [send_recv_pooled]: what is written, and how it ends. *)
Definition send_recv (r : Req) (c : Conn) (body : list body_item) (kcl : option Z) (hec : bool)
    (sub_filter : list SubFilter) (cache : option ProxyCache) (allow_retry : bool) : list Z * exchange :=
  let hb := has_body (r_method r) in
  let use_chunked := hb && bool_decide (kcl = None) in
  let head := request_head (r_method r) (r_path r) (r_host r) (r_extra r) (r_client_ip r) (r_client_proto r) kcl hec in
  match c_head c with
  | HeadTimeout => ([], ExErr (Some (WriteTimeout [] (r_write_timeout r))) false)
  | HeadErr k =>
      ([], ExErr (Some (if allow_retry then WriteTimeout [] (r_write_timeout r) else from_io [] k Write)) false)
  | HeadOk =>
      if hb && hec then
        match read_line (c_data c) (c_end c) with
        | (LineBlocked, _) | (LineErr _ _, _) => (head, ExErr (Some (TtfbTimeout [])) false)
        | (Line status_line, s1) =>
            let code := parse_status_code status_line in
            if code =? 100 then
              match read_line s1 (c_end c) with
              | (LineBlocked, _) => (head, ExBlocked)
              | (_, s2) =>
                  match pipe_request_body body use_chunked (c_body_write c) with
                  | Err e => (head, ExErr (pipe_error_proxy e) true)
                  | Ok bs =>
                      (head ++ bs,
                       match read_line s2 (c_end c) with
                       | (LineBlocked, _) => ExErr (Some (TtfbTimeout [])) true
                       | (LineErr k _, _) => ExErr (Some (from_io [] k Read)) true
                       | (Line sl, s3) =>
                           finish_response r c sub_filter cache (parse_status_code sl)
                             (starts_with (lit "HTTP/1.0") sl) s3
                       end)
                  end
              end
            else (head, finish_response r c sub_filter cache code (starts_with (lit "HTTP/1.0") status_line) s1)
        end
      else
        match (if hb then pipe_request_body body use_chunked (c_body_write c) else Ok []) with
        | Err e => (head, ExErr (pipe_error_proxy e) true)
        | Ok bs =>
            (head ++ bs,
             match read_line (c_data c) (c_end c) with
             | (LineBlocked, _) => ExErr (Some (TtfbTimeout [])) hb
             | (LineErr UnexpectedEof (b :: l), s1) =>
                 finish_response r c sub_filter cache (parse_status_code (b :: l))
                   (starts_with (lit "HTTP/1.0") (b :: l)) s1
             | (LineErr ConnectionReset _, _) | (LineErr BrokenPipe _, _) => ExErr (Some (ConnReset [])) hb
             | (LineErr k _, _) => ExErr (Some (from_io [] k Read)) hb
             | (Line [], _) => ExErr (Some (ConnReset [])) false
             | (Line sl, s1) =>
                 finish_response r c sub_filter cache (parse_status_code sl) (starts_with (lit "HTTP/1.0") sl) s1
             end)
        end
  end.

(** ** [forward_request] *)

Record limits_cfg := mkLimitsCfg { ka_requests : Z; ka_time : Z; ka_max_idle : Z }.

Inductive forwarded :=
| FwOk (resp : WebResponse) (store : option (Z * list (list Z * list Z) * list Z))
| FwStream (status : Z) (headers : HeaderMap) (items : list stream_item)
| FwErr (err : option ProxyError)
| FwBlocked
| FwPanic.

(** The sequence of heads and bodies written, one per attempt, and the result.
    [idle] is the connection [ConnPool::acquire] gave, [connect n] the answer
    to the [n]-th connection attempt, [release] what the caller does with a
    connection that is to be kept. *)
Definition forward_request (r : Req) (sub_filter : list SubFilter) (cache : option ProxyCache)
    (idle : option Conn) (connect : nat → result Conn ProxyError) (req_body : list body_item)
  : list (list Z) * forwarded * option (list Z) :=
  let kcl := known_content_length_of (r_extra r) in
  let hec := has_expect_continue_of (r_extra r) in
  match (match idle with Some c => Ok c | None => connect 0%nat end) with
  | Err e => ([], FwErr (Some e), None)
  | Ok c0 =>
      let '(w0, x0) := send_recv r c0 req_body kcl hec sub_filter cache true in
      match x0 with
      | ExOk resp reuse store => ([w0], FwOk resp store, reuse)
      | ExStream st m items reuse => ([w0], FwStream st m items, reuse)
      | ExBlocked => ([w0], FwBlocked, None)
      | ExPanic => ([w0], FwPanic, None)
      | ExErr e consumed =>
          if negb consumed then
            match connect 1%nat with
            | Err e => ([w0], FwErr (Some e), None)
            | Ok c1 =>
                (* [body_slot] was emptied by the first attempt *)
                let '(w1, x1) := send_recv r c1 [] kcl hec sub_filter cache false in
                match x1 with
                | ExOk resp reuse store => ([w0; w1], FwOk resp store, reuse)
                | ExStream st m items reuse => ([w0; w1], FwStream st m items, reuse)
                | ExErr e _ => ([w0; w1], FwErr e, None)
                | ExBlocked => ([w0; w1], FwBlocked, None)
                | ExPanic => ([w0; w1], FwPanic, None)
                end
            end
          else ([w0], FwErr e, None)
      end
  end.

End exchange.

(** ** Reading back a response *)

Lemma split_header_line k v :
  name_clean k → clean v → split_header (k ++ lit ": " ++ v) = Some (k, v).
Proof.
  intros (Hk & Hne & Hc) Hv. unfold split_header.
  change (k ++ lit ": " ++ v) with (k ++ byte_colon :: ([SP] ++ v)).
  assert (find_byte byte_colon (k ++ byte_colon :: ([SP] ++ v)) = Some (length k)) as ->.
  { apply find_byte_Some. eauto. }
  rewrite take_app_length, drop_S_length_app. rewrite trim_visible by done.
  assert (trim ([SP] ++ v) = trim v) as -> by reflexivity.
  by rewrite (proj2 (trim_clean_crlf v Hv)).
Qed.

Definition head_text (hs : list (list Z * list Z)) : list Z :=
  concat ((λ '(k, v), k ++ lit ": " ++ v ++ CRLF) <$> hs) ++ CRLF.

Definition hdr_ok (kv : list Z * list Z) : Prop :=
  name_clean (fst kv) ∧ clean (snd kv) ∧ Z.of_nat (length (fst kv) + length (snd kv)) + 4 ≤ RESP_MAX_LINE_LEN.

Lemma read_resp_headers_text hs fuel count h rest e :
  Forall hdr_ok hs → (length hs < fuel)%nat → (count + length hs < RESP_MAX_HEADERS)%nat →
  read_resp_headers fuel count h (head_text hs ++ rest) e
  = Done (foldl (λ h '(k, v), add_resp_header h k v) h hs, rest).
Proof.
  intros Hok. revert fuel count h. induction Hok as [|[k v] hs (Hk & Hv & Hlen) _ IH]; intros fuel count h Hf Hc;
    destruct fuel as [|fuel]; try (cbn [length] in *; lia); cbn [read_resp_headers].
  - rewrite (proj2 (Nat.leb_gt _ _)) by (cbn [length] in *; lia). unfold head_text. cbn [fmap list_fmap concat app].
    change (CRLF ++ rest) with ([] ++ CRLF ++ rest). rewrite read_line_ascii by (done || apply not_elem_of_nil).
    cbn [app length]. change (trim ([] ++ CRLF)) with ([] : list Z). done.
  - rewrite (proj2 (Nat.leb_gt _ _)) by (cbn [length] in *; lia). unfold head_text. cbn [fmap list_fmap concat fst snd] in *.
    pose proof (header_line_clean k v Hk Hv) as Hl.
    replace (((k ++ lit ": " ++ v ++ CRLF) ++ concat ((λ '(k, v), k ++ lit ": " ++ v ++ CRLF) <$> hs)) ++ CRLF)
      with ((k ++ lit ": " ++ v) ++ CRLF ++ head_text hs)
      by (unfold head_text; by rewrite <- !app_assoc).
    rewrite <- (app_assoc (k ++ lit ": " ++ v)), <- (app_assoc CRLF).
    rewrite read_line_ascii by apply Hl.
    rewrite (proj2 (Z.ltb_ge _ _)).
    2:{ rewrite !length_app. change (length CRLF) with 2%nat. change (length (lit ": ")) with 2%nat. lia. }
    rewrite (proj1 (trim_clean_crlf _ Hl)), split_header_line by done.
    destruct (k ++ lit ": " ++ v) eqn:E; [by apply app_nil in E as [? _]; destruct Hk as (_ & ? & _)|].
    rewrite IH by (cbn [length] in *; lia). done.
Qed.

Section exchange_theorems.
Context `{L : HeaderLib} {R : Type} (build : list Z → option R) (replace_all : R → list Z → list Z → list Z).

Lemma send_recv_no_body r c body kcl hec sf cache retry sl s :
  has_body (r_method r) = false → c_head c = HeadOk →
  c_data c = sl ++ CRLF ++ s → is_ascii sl = true → LF ∉ sl →
  snd (send_recv build replace_all r c body kcl hec sf cache retry)
  = finish_response build replace_all r c sf cache (parse_status_code (sl ++ CRLF))
      (starts_with (lit "HTTP/1.0") (sl ++ CRLF)) s.
Proof.
  intros Hb Hh Hd Ha Hl. unfold send_recv. rewrite Hb, Hh. cbn [andb]. rewrite Hd, read_line_ascii by done.
  cbn [snd]. destruct (sl ++ CRLF) eqn:E; [by apply app_nil in E as [_ ?]|]. done.
Qed.

Definition head_of (http10 : bool) (hs : list (list Z * list Z)) : resp_head :=
  foldl (λ h '(k, v), add_resp_header h k v) (mkHead None false http10 false []) hs.

Lemma head_text_length hs : Forall hdr_ok hs → (length hs ≤ length (head_text hs))%nat.
Proof.
  unfold head_text. intros H. induction H as [|[k v] hs _ _ IH]; cbn [fmap list_fmap concat length]; [lia|].
  rewrite !length_app in *. change (length CRLF) with 2%nat in *. lia.
Qed.

Lemma finish_response_head c http10 hs s :
  Forall hdr_ok hs → (length hs < RESP_MAX_HEADERS)%nat →
  read_resp_headers (S (length (head_text hs ++ s))) 0 (mkHead None false http10 false []) (head_text hs ++ s) (c_end c)
  = Done (head_of http10 hs, s).
Proof.
  intros Hok Hn. apply read_resp_headers_text; [done| |lia].
  rewrite length_app. pose proof (head_text_length hs Hok). lia.
Qed.

(** a proxied response is faithful and the connection stays in sync.  When
    the upstream answers a body-less request with a Content-Length body of at
    most 256 MiB, the client gets its status and exactly its body, under any
    schedule of reads, and the connection returned to the pool has consumed
    this response and what its reader fetched past it: it is in step when the
    upstream sends nothing before the next request. *)
Theorem exchange_in_sync r c req_body kcl hec cache retry sl hs body rest m :
  has_body (r_method r) = false → r_buffering r = true → c_head c = HeadOk →
  c_data c = sl ++ CRLF ++ head_text hs ++ body ++ rest →
  is_ascii sl = true → LF ∉ sl → Forall hdr_ok hs → (length hs < RESP_MAX_HEADERS)%nat →
  let code := parse_status_code (sl ++ CRLF) in
  let h := head_of (starts_with (lit "HTTP/1.0") (sl ++ CRLF)) hs in
  100 ≤ code ≤ 999 → no_body_status code = false →
  rh_chunked h = false → rh_close h = false → rh_content_length h = Some (Z.of_nat (length body)) →
  Z.of_nat (length body) ≤ BUFFERED_MAX_BODY → r_redirect_from r = None →
  apply_response_headers hm_empty (rh_headers h) (r_strip_cookie_secure r) (r_cookie_domain r)
    None (r_redirect_to r) = Ret m →
  ∃ resp store, snd (send_recv build replace_all r c req_body kcl hec [] cache retry) = ExOk resp (Some (into_inner (c_ahead c) rest)) store
    ∧ w_status resp = code ∧ w_body resp = body
    ∧ w_headers resp = set_content_length (length body) m.
Proof.
  intros Hb Hbuf Hh Hd Ha Hl Hok Hn code h Hcode Hnb Hch Hcl Hlen Hmax Hrf Hm.
  rewrite (send_recv_no_body r c req_body kcl hec [] cache retry sl (head_text hs ++ body ++ rest)) by done.
  unfold finish_response. rewrite finish_response_head by done. fold h. fold code.
  assert (status_or_ok code = code) as ->.
  { unfold status_or_ok. rewrite !(proj2 (Z.leb_le _ _)) by lia. done. }
  rewrite Hnb, Hbuf. cbn [negb andb]. unfold read_body. rewrite Hch, Hlen.
  destruct (read_exact_body_spec (c_sched c) 0 (Z.of_nat (length body)) (body ++ rest) (c_end c)) as [k' Hr];
    [lia|left; rewrite length_app; lia|].
  rewrite Hr. cbn [mbind io_bind]. rewrite Nat2Z.id, take_app_length, drop_app_length, Hcl. cbn [negb].
  unfold with_headers, rewrite_body_urls. rewrite Hrf, Hm. cbn [apply_sub_filter fst append_trailer_headers].
  eexists _, _. split; [reflexivity|]. done.
Qed.

(** HEAD never completes.  A HEAD request whose response announces a
    non-empty Content-Length, on a connection the upstream keeps open as
    HTTP/1.1 does, makes the proxy wait for a body that is never sent. *)
Theorem head_request_blocks r c req_body kcl hec sf cache retry sl hs n :
  r_method r = lit "HEAD" → r_buffering r = true → c_head c = HeadOk →
  c_data c = sl ++ CRLF ++ head_text hs → c_end c = EndOpen →
  is_ascii sl = true → LF ∉ sl → Forall hdr_ok hs → (length hs < RESP_MAX_HEADERS)%nat →
  let h := head_of (starts_with (lit "HTTP/1.0") (sl ++ CRLF)) hs in
  no_body_status (status_or_ok (parse_status_code (sl ++ CRLF))) = false →
  rh_chunked h = false → rh_content_length h = Some n → 0 < n →
  snd (send_recv build replace_all r c req_body kcl hec sf cache retry) = ExBlocked.
Proof.
  intros Hm Hbuf Hh Hd He Ha Hl Hok Hn h Hnb Hch Hlen Hpos.
  rewrite (send_recv_no_body r c req_body kcl hec sf cache retry sl (head_text hs ++ [])).
  2:{ by rewrite Hm. } 2-5: rewrite ?app_nil_r; done.
  unfold finish_response. rewrite finish_response_head by done. fold h. rewrite Hnb, Hbuf. cbn [negb andb].
  unfold read_body. rewrite Hch, Hlen. unfold read_exact_body. rewrite He.
  assert (Hc : ∃ k, Z.to_nat (Z.min n BUFFERED_MAX_BODY) = S k).
  { exists (Z.to_nat (Z.min n BUFFERED_MAX_BODY) - 1)%nat. unfold BUFFERED_MAX_BODY. lia. }
  destruct Hc as [k ->]. done.
Qed.

(** an informational response ends the exchange.  A 1xx other than the awaited
    100, such as 103 Early Hints, is passed on as the response, and the final
    response that follows stays behind on a connection that goes back to the
    pool: what the reader had fetched of it is lost, the rest is what the next
    request on that connection reads as its own response. *)
Theorem informational_ends_exchange r c req_body kcl hec sf cache retry sl hs final m :
  has_body (r_method r) = false → c_head c = HeadOk → c_data c = sl ++ CRLF ++ head_text hs ++ final →
  is_ascii sl = true → LF ∉ sl → Forall hdr_ok hs → (length hs < RESP_MAX_HEADERS)%nat →
  let code := parse_status_code (sl ++ CRLF) in
  let h := head_of (starts_with (lit "HTTP/1.0") (sl ++ CRLF)) hs in
  100 ≤ code ≤ 199 → rh_close h = false →
  apply_response_headers hm_empty (rh_headers h) (r_strip_cookie_secure r) (r_cookie_domain r)
    (r_redirect_from r) (r_redirect_to r) = Ret m →
  snd (send_recv build replace_all r c req_body kcl hec sf cache retry)
  = ExOk (mkResp _ code [] m) (Some (into_inner (c_ahead c) final)) None.
Proof.
  intros Hb Hh Hd Ha Hl Hok Hn code h Hcode Hcl Hm.
  rewrite (send_recv_no_body r c req_body kcl hec sf cache retry sl (head_text hs ++ final)) by done.
  unfold finish_response. rewrite finish_response_head by done. fold h. fold code.
  assert (status_or_ok code = code) as ->.
  { unfold status_or_ok. rewrite !(proj2 (Z.leb_le _ _)) by lia. done. }
  assert (no_body_status code = true) as ->.
  { unfold no_body_status. rewrite !(proj2 (Z.leb_le _ _)) by lia. by rewrite orb_true_r. }
  unfold with_headers. by rewrite Hm, Hcl.
Qed.

(** a truncated response passes for a complete one.  When the upstream
    closes before delivering the announced Content-Length, the buffered reader
    returns what arrived as the body, without an error, and (unless the
    upstream asked to close) the dead connection goes back to the pool. *)
Theorem truncated_body_accepted c h s len :
  rh_chunked h = false → rh_content_length h = Some len → c_end c = EndEof →
  Z.of_nat (length s) < len ≤ BUFFERED_MAX_BODY →
  read_body c h s = Done (s, [], rh_close h, []).
Proof.
  intros Hch Hlen He Hlt. unfold read_body. rewrite Hch, Hlen.
  destruct (read_exact_body_spec (c_sched c) 0 len s (c_end c)) as [k' ->]; [lia|auto|].
  cbn [mbind io_bind]. by rewrite take_ge, drop_ge by lia.
Qed.

(** an oversized response desynchronises the connection.  A response whose
    Content-Length exceeds 256 MiB is cut there, and a keep-alive connection
    goes back to the pool with the rest of the body, less the 8 KiB at most its
    reader had fetched, still to be read: the next request on it reads body
    bytes as its response. *)
Theorem oversized_body_desync c h s len :
  rh_chunked h = false → rh_close h = false → rh_content_length h = Some len →
  BUFFERED_MAX_BODY + BUF_CAPACITY < len ≤ Z.of_nat (length s) →
  ∃ b s', read_body c h s = Done (b, [], false, s') ∧ s = b ++ s' ∧ into_inner (c_ahead c) s' ≠ [].
Proof.
  intros Hch Hcl Hlen Hlt. unfold read_body. rewrite Hch, Hlen. unfold read_exact_body.
  unfold BUF_CAPACITY in Hlt. rewrite Z.min_r by lia.
  destruct (read_full_spec (S (Z.to_nat BUFFERED_MAX_BODY)) (c_sched c) 0 65536 (Z.to_nat BUFFERED_MAX_BODY) s (c_end c))
    as [k' ->]; [lia|lia|left; lia|].
  cbn [mbind io_bind]. rewrite Hcl. eexists _, _. split; [done|]. split; [by rewrite take_drop|].
  intros E. apply (f_equal length) in E. unfold into_inner in E. rewrite !length_drop in E. cbn [length] in E.
  unfold BUFFERED_MAX_BODY, BUF_CAPACITY in *. lia.
Qed.

(** the retry on a stale connection loses the request body.  When an idle
    connection accepts a request with a body and then turns out to be closed,
    the request is sent again on a new connection with the same head and an
    empty body. *)
Theorem stale_retry_drops_body r sf cache c0 c1 connect body b0 :
  has_body (r_method r) = true → has_expect_continue_of (r_extra r) = false →
  c_head c0 = HeadOk → c_data c0 = [] → c_end c0 = EndEof →
  let kcl := known_content_length_of (r_extra r) in
  let use_chunked := bool_decide (kcl = None) in
  pipe_request_body body use_chunked (c_body_write c0) = Ok b0 →
  connect 1%nat = Ok c1 → c_head c1 = HeadOk → c_body_write c1 0%nat = true →
  let head := request_head (r_method r) (r_path r) (r_host r) (r_extra r) (r_client_ip r) (r_client_proto r) kcl false in
  fst (fst (forward_request build replace_all r sf cache (Some c0) connect body))
  = [head ++ b0; head ++ (if use_chunked then lit "0" ++ CRLF ++ CRLF else [])].
Proof.
  intros Hb Hx Hh Hd He kcl use_chunked Hp Hcon Hh1 Hw head.
  unfold forward_request. fold kcl. rewrite Hx.
  assert (H0 : send_recv build replace_all r c0 body kcl false sf cache true
               = (head ++ b0, ExErr (Some (ConnReset [])) false)).
  { unfold send_recv. rewrite Hb, Hh. cbn [andb]. fold use_chunked. rewrite Hp, Hd, He. done. }
  rewrite H0. cbn [negb]. rewrite Hcon.
  assert (H1 : fst (send_recv build replace_all r c1 [] kcl false sf cache false)
               = head ++ (if use_chunked then lit "0" ++ CRLF ++ CRLF else [])).
  { unfold send_recv. rewrite Hb, Hh1. cbn [andb]. fold use_chunked.
    unfold pipe_request_body. cbn [pipe_chunks]. rewrite Hw. done. }
  destruct (send_recv build replace_all r c1 [] kcl false sf cache false) as [w1 x1]. cbn in H1. subst w1.
  by destruct x1.
Qed.

End exchange_theorems.

(** ** Opening connections: [new_conn], [write_proxy_header] *)

Inductive connect_result :=
| ConnectOk (local_addr : option SocketAddr)
| ConnectTimedOut'
| ConnectFailed' (k : ErrorKind).

(** A connected stream: an identity, and the bytes sent before any request. *)
Record UStream := mkUStream { us_id : Z; us_preamble : list Z }.

Definition write_proxy_header (version : Z) (src dst : SocketAddr) : outcome (list Z) :=
  if version =? 1 then '(buf, len) ← encode_v1 src dst; slice buf 0 len
  else if version =? 2 then '(buf, len) ← encode_v2 src dst; slice buf 0 len
  else Ret [].

(** [tls] is the outcome of the TLS handshake, run after the header is sent. *)
Definition new_conn (connect : connect_result) (tls : result unit (option ProxyError)) (id : Z)
    (upstream_addr : UpstreamAddr) (use_tls : bool) (connect_timeout_secs send_proxy_protocol : Z)
    (client_addr : option SocketAddr) : outcome (result (PooledConn UStream) (option ProxyError)) :=
  let timeout := if 0 <? connect_timeout_secs then connect_timeout_secs else 10 in
  match connect with
  | ConnectTimedOut' =>
      Ret (Err (Some (ConnTimeout (match upstream_addr with Tcp a => a | Unix p => lit "unix:" ++ p end) timeout)))
  | ConnectFailed' k => Ret (Err (Some (from_io (addr_as_str upstream_addr) k Connect)))
  | ConnectOk local =>
      preamble ←
        (if 0 <? send_proxy_protocol then
           match client_addr with
           | Some src =>
               let dst := match upstream_addr with
                          | Tcp _ => default src local
                          | Unix _ => mkSocketAddr (sa_ip src) 0
                          end in
               write_proxy_header send_proxy_protocol src dst
           | None => Ret []
           end
         else Ret []);
      let s := mkUStream id preamble in
      if use_tls then
        match tls with
        | Ok _ => Ret (Ok (match upstream_addr with Tcp _ => ConnTls s | Unix _ => ConnTlsUnix s end))
        | Err e => Ret (Err e)
        end
      else Ret (Ok (match upstream_addr with Tcp _ => ConnTcp s | Unix _ => ConnUnix s end))
  end.

Definition conn_stream (c : PooledConn UStream) : UStream :=
  match c with ConnTcp s | ConnTls s | ConnUnix s | ConnTlsUnix s => s end.

(** a pooled connection keeps announcing its first client.  With
    send_proxy_protocol = 1, the connection opened for client [a] and returned
    to the pool is the one handed to the next request of the worker, whoever
    its client is: the upstream still sees [a]'s address as the source. *)
Theorem proxy_identity_reused (pools : gmap (list Z) (list (IdleConn UStream)))
    pool t0 t1 now clock addr id a local conn cr :
  socket_wf a → socket_wf local → is_ipv4 (sa_ip a) = true → is_ipv4 (sa_ip local) = true →
  new_conn (ConnectOk (Some local)) (Ok tt) id (Tcp addr) false 10 1 (Some a) = Ret (Ok conn) →
  let key := key_from_addr (Tcp addr) false in
  default [] (pools !! key) = [] → 0 < max_idle pool → sat_sub (clock 0%nat) t1 < idle_timeout pool →
  ∃ n, fst (acquire pool now clock key (release pool t0 t1 key conn cr 1 0 0 0 pools)) = Some (conn, cr, 1)
    ∧ parse (us_preamble (conn_stream conn)) = Ret (Ok (Proxy a local, n)).
Proof.
  intros Ha Hl H4a H4l Hnew key Hq Hmax Hidle.
  rewrite (release_acquire pools pool t0 t1 now clock key conn cr 1 0 0 0); [|done|lia|lia|done|done].
  destruct (encode_v1_parse a local []) as (buf & len & He & Hle & Hp); [done|done|rewrite H4a; by intros [? _]|].
  exists len. split; [done|].
  unfold new_conn in Hnew. cbn [Z.ltb Z.compare default] in Hnew. unfold write_proxy_header in Hnew.
  change (0 <? 1) with true in Hnew. change (1 =? 1) with true in Hnew. cbn match in Hnew.
  change (Datatypes.id local) with local in Hnew. rewrite He in Hnew. cbn [mbind outcome_bind] in Hnew.
  rewrite slice_le in Hnew by lia. cbn [mbind outcome_bind] in Hnew. injection Hnew as <-.
  cbn [conn_stream us_preamble]. rewrite Nat.sub_0_r, drop_0. rewrite app_nil_r in Hp. rewrite Hp.
  unfold announced. rewrite bool_decide_true by congruence. done.
Qed.

(** ** Witnesses *)

Module Witness.
Import Headers.Model.

Definition bld (p : list Z) : option unit := None.
Definition rall (r : unit) (t s : list Z) : list Z := t.
Definition req (m : list Z) (extra : list (list Z * list Z)) : Req :=
  mkReq m (lit "/x") (lit "h") extra (lit "1.2.3.4") (lit "http") false None None None 60 true (λ _, true).
Definition conn (d : list Z) (e : stream_end) : Conn := mkConn HeadOk (λ _, true) d e (λ _, 2%nat) 0.
Definition sl : list Z := lit "HTTP/1.1 200 OK".
Definition hs : list (list Z * list Z) := [(lit "Content-Length", lit "5"); (lit "Server", lit "up")].

Lemma hs_ok : Forall hdr_ok hs.
Proof.
  repeat constructor; cbn [fst snd]; try (by repeat constructor); try (vm_compute; congruence);
    try (apply (bool_decide_unpack _); vm_compute; done).
  - exists 53, [], 53. split_and!; [done|done|by left].
  - exists 117, [], 112. split_and!; [done|done|by right].
Qed.

Lemma exchange_in_sync_witness :
  ∃ resp store,
    snd (send_recv bld rall (req (lit "GET") []) (conn (sl ++ CRLF ++ head_text hs ++ lit "hello" ++ lit "HTTP") EndOpen)
           [] None false [] None true) = ExOk resp (Some (lit "HTTP")) store
    ∧ w_status resp = 200 ∧ w_body resp = lit "hello".
Proof.
  destruct (exchange_in_sync bld rall (req (lit "GET") [])
    (conn (sl ++ CRLF ++ head_text hs ++ lit "hello" ++ lit "HTTP") EndOpen) [] None false None true
    sl hs (lit "hello") (lit "HTTP") (hm_insert (lit "server") (lit "up") hm_empty))
    as (resp & store & H1 & H2 & H3 & _);
    try reflexivity; try (vm_compute; split; congruence); try (vm_compute; congruence).
  - apply (bool_decide_unpack _). vm_compute. done.
  - apply hs_ok.
  - vm_compute. lia.
  - exists resp, store. split_and!; [exact H1|exact H2|exact H3].
Defined.

Lemma head_request_blocks_witness :
  snd (send_recv bld rall (req (lit "HEAD") []) (conn (sl ++ CRLF ++ head_text hs) EndOpen) [] None false [] None true)
  = ExBlocked.
Proof.
  apply (head_request_blocks bld rall (req (lit "HEAD") []) (conn (sl ++ CRLF ++ head_text hs) EndOpen)
    [] None false [] None true sl hs 5); try reflexivity.
  - apply (bool_decide_unpack _). vm_compute. done.
  - apply hs_ok.
  - vm_compute. lia.
Defined.

Lemma informational_ends_exchange_witness :
  let c := mkConn HeadOk (λ _, true) (lit "HTTP/1.1 103 Early Hints" ++ CRLF ++ head_text [] ++ lit "HTTP/1.1 200 OK")
             EndOpen (λ _, 2%nat) 9 in
  snd (send_recv bld rall (req (lit "GET") []) c [] None false [] None true)
  = ExOk (mkResp _ 103 [] hm_empty) (Some (lit "200 OK")) None.
Proof.
  intros c. refine (informational_ends_exchange bld rall (req (lit "GET") []) c [] None false [] None true
    (lit "HTTP/1.1 103 Early Hints") [] (lit "HTTP/1.1 200 OK") hm_empty _ _ _ _ _ _ _ _ _ _); try reflexivity.
  - apply (bool_decide_unpack _). vm_compute. done.
  - constructor.
  - cbn [length]. unfold RESP_MAX_HEADERS. lia.
  - vm_compute. split; congruence.
Defined.

Definition h5 : resp_head := mkHead (Some 5) false false false [].

Lemma truncated_body_accepted_witness :
  read_body (conn (lit "he") EndEof) h5 (lit "he") = Done (lit "he", [], false, []).
Proof.
  apply (truncated_body_accepted (conn (lit "he") EndEof) h5 (lit "he") 5); try reflexivity.
  vm_compute. split; congruence.
Defined.

Lemma oversized_body_desync_witness :
  let s := replicate (Z.to_nat 268450000) 0 in
  ∃ b s', read_body (conn s EndOpen) (mkHead (Some 268450000) false false false []) s = Done (b, [], false, s')
    ∧ s = b ++ s' ∧ into_inner 0 s' ≠ [].
Proof.
  intros s. apply (oversized_body_desync (conn s EndOpen) (mkHead (Some 268450000) false false false []) s 268450000);
    [reflexivity|reflexivity|reflexivity|]. unfold s. rewrite length_replicate. unfold BUFFERED_MAX_BODY, BUF_CAPACITY. lia.
Defined.

Lemma stale_retry_drops_body_witness :
  let r := req (lit "POST") [(lit "Content-Length", lit "4")] in
  let head := request_head (r_method r) (r_path r) (r_host r) (r_extra r) (r_client_ip r) (r_client_proto r) (Some 4) false in
  fst (fst (forward_request bld rall r [] None (Some (conn [] EndEof)) (λ _, Ok (conn [] EndOpen))
              [BodyChunk (lit "data")]))
  = [head ++ lit "data"; head ++ []].
Proof.
  apply (stale_retry_drops_body bld rall (req (lit "POST") [(lit "Content-Length", lit "4")]) [] None
    (conn [] EndEof) (conn [] EndOpen) (λ _, Ok (conn [] EndOpen)) [BodyChunk (lit "data")] (lit "data"));
    reflexivity.
Defined.

Definition a4 : SocketAddr := mkSocketAddr (V4 3232235876) 12345.
Definition l4 : SocketAddr := mkSocketAddr (V4 167772161) 40000.

Lemma proxy_identity_reused_witness :
  ∃ c n, new_conn (ConnectOk (Some l4)) (Ok tt) 1 (Tcp (lit "10.0.0.9:80")) false 10 1 (Some a4) = Ret (Ok c)
    ∧ parse (us_preamble (conn_stream c)) = Ret (Ok (Proxy a4 l4, n)).
Proof.
  set (c := ConnTcp (mkUStream 1 (lit "PROXY TCP4 192.168.1.100 10.0.0.1 12345 40000" ++ CRLF))).
  assert (Hc : new_conn (ConnectOk (Some l4)) (Ok tt) 1 (Tcp (lit "10.0.0.9:80")) false 10 1 (Some a4) = Ret (Ok c))
    by (vm_compute; reflexivity).
  destruct (proxy_identity_reused ∅ (conn_pool_new 8 60) 0 0 5 (λ _, 5) (lit "10.0.0.9:80") 1 a4 l4 c 0)
    as (n & _ & Hp); [vm_compute; repeat split; congruence|vm_compute; repeat split; congruence
      |reflexivity|reflexivity|exact Hc|reflexivity|vm_compute; reflexivity|vm_compute; reflexivity|].
  exists c, n. split; [exact Hc|exact Hp].
Defined.

End Witness.
