(* ===== verification/ProxyHandler.v ===== *)
(** * The reverse-proxy handler: [src/handler/reverse_proxy/mod.rs]

    Which client headers go upstream, the retry loop over upstream nodes with
    the per-node connection counters, and the headers added to the response.
    One attempt ([conn::forward_request]) is a function of the attempt number,
    the node and whether the request body is passed. *)

From S2P Require Import Prelude RustStr Headers CircuitBreaker Retry LoadBalance ProxyResponse.

(** ** Request headers *)

(** A client header: its name, and its value when [HeaderValue::to_str]
    accepts it. *)
Definition req_header : Type := list Z * option (list Z).

Definition is_ws_header (is_ws : bool) (name : list Z) : bool :=
  is_ws && (eq_ignore_ascii_case name (lit "upgrade")
            || starts_with (lit "sec-websocket-") (to_ascii_lowercase name)).

Definition forwarded_header (is_ws : bool) (h : req_header) : option (list Z * list Z) :=
  let '(name, v) := h in
  if negb (is_ws_header is_ws name) && is_hop_by_hop name then None
  else match v with Some val => Some (name, val) | None => None end.

Definition client_headers (is_ws : bool) (hs : list req_header) : list (list Z * list Z) :=
  omap (forwarded_header is_ws) hs.

(** The variables of [proxy_set_headers]. *)
Definition expand_value (remote_addr host scheme request_uri : list Z) (v : list Z) : list Z :=
  replace (lit "$request_uri") request_uri
    (replace (lit "$scheme") scheme
      (replace (lit "$host") host
        (replace (lit "$remote_addr") remote_addr v))).

Definition set_header (remote_addr host scheme request_uri : list Z) (hs : list (list Z * list Z))
    (h : HeaderOverride) : list (list Z * list Z) :=
  filter (λ kv, eq_ignore_ascii_case (fst kv) (ho_name h) = false) hs
  ++ [(ho_name h, expand_value remote_addr host scheme request_uri (ho_value h))].

Definition proxy_set_headers (remote_addr host scheme request_uri : list Z) (overrides : list HeaderOverride)
    (hs : list (list Z * list Z)) : list (list Z * list Z) :=
  foldl (set_header remote_addr host scheme request_uri) hs overrides.

(** The values a header has, names compared as HTTP does. *)
Definition values_of (name : list Z) (hs : list (list Z * list Z)) : list (list Z) :=
  snd <$> filter (λ kv, eq_ignore_ascii_case (fst kv) name = true) hs.

(** The last override of a name. *)
Definition last_override (name : list Z) (overrides : list HeaderOverride) : option HeaderOverride :=
  last (filter (λ h, eq_ignore_ascii_case (ho_name h) name = true) overrides).

Lemma eq_ignore_true a b : eq_ignore_ascii_case a b = true ↔ to_ascii_lowercase a = to_ascii_lowercase b.
Proof. unfold eq_ignore_ascii_case. apply str_eqb_eq. Qed.
Lemma eq_ignore_false a b : eq_ignore_ascii_case a b = false ↔ to_ascii_lowercase a ≠ to_ascii_lowercase b.
Proof. rewrite <- not_true_iff_false, eq_ignore_true. done. Qed.

Lemma values_of_set_header ra ho sc uri hs h name :
  values_of name (set_header ra ho sc uri hs h) =
    if eq_ignore_ascii_case (ho_name h) name then [expand_value ra ho sc uri (ho_value h)]
    else values_of name hs.
Proof.
  unfold values_of, set_header. rewrite filter_app, fmap_app, filter_cons. cbn [fst].
  destruct (eq_ignore_ascii_case (ho_name h) name) eqn:E.
  - rewrite decide_True by done. cbn [fmap list_fmap snd]. rewrite list_filter_filter.
    assert (Hnil : filter (λ kv, eq_ignore_ascii_case (fst kv) name = true
        ∧ eq_ignore_ascii_case (fst kv) (ho_name h) = false) hs = []).
    { apply eq_ignore_true in E. induction hs as [|kv hs IH]; [done|]. rewrite filter_cons, IH.
      rewrite decide_False; [done|]. rewrite eq_ignore_true, eq_ignore_false. intros [? ?]. congruence. }
    by rewrite Hnil.
  - rewrite decide_False by done. cbn [fmap list_fmap]. rewrite app_nil_r, list_filter_filter_l; [done|].
    intros kv. apply eq_ignore_false in E. rewrite eq_ignore_true, eq_ignore_false. congruence.
Qed.

(** configured headers win.  After [proxy_set_headers], a header named in
    the configuration, in any letter case, has exactly one value, the expanded
    value of its last entry, whatever the client sent; every other header has
    the client's values. *)
Theorem proxy_set_headers_override ra ho sc uri overrides hs name :
  values_of name (proxy_set_headers ra ho sc uri overrides hs) =
    match last_override name overrides with
    | Some h => [expand_value ra ho sc uri (ho_value h)]
    | None => values_of name hs
    end.
Proof.
  unfold proxy_set_headers, last_override.
  induction overrides as [|h overrides IH] using rev_ind; [done|].
  rewrite foldl_snoc, values_of_set_header, filter_app, filter_cons, IH.
  destruct (eq_ignore_ascii_case (ho_name h) name).
  - rewrite decide_True by done. rewrite filter_nil. by rewrite last_snoc.
  - rewrite decide_False by done. rewrite filter_nil. by rewrite app_nil_r.
Qed.

(** ** The retry loop *)

Inductive attempt_result :=
| AOk (status : Z)
| AErr (err : option ProxyError).

(** [true] when the request body is handed over. *)
Definition forwarder : Type := nat → nat → bool → attempt_result.

Definition update_node (i : nat) (f : NodeState → NodeState) (p : UpstreamPool) : UpstreamPool :=
  set_nodes (alter f i (nodes p)) p.

Definition node_fails (now : Z) (i : nat) (p : UpstreamPool) : outcome UpstreamPool :=
  match nodes p !! i with
  | Some n => n' ← node_record_failure now n; Ret (set_nodes (<[i := n']> (nodes p)) p)
  | None => Ret p
  end.

Definition active_add (d : Z) (n : NodeState) : NodeState :=
  set_active (wrap32 (active_connections n + d)) n.

Record loop_state := mkLoop {
  ls_pool : UpstreamPool;
  ls_node : nat;                       (* [current_node] *)
  ls_body : bool;                      (* [body_for_retry.is_some()] *)
  ls_resp : option Z;                  (* [resp_opt], its status *)
  ls_trace : list (nat * bool);        (* the attempts made *)
}.

(** Before a repeated attempt: switch to another node. *)
Definition switch_node (now : Z) (client_ip : list Z) (st : loop_state) : outcome loop_state :=
  '(r, p) ← pick now (Some client_ip) (ls_pool st);
  Ret (match r with
       | Some j =>
           mkLoop (update_node j (active_add 1) (update_node (ls_node st) (active_add (-1)) p)) j
             (ls_body st) (ls_resp st) (ls_trace st)
       | None => mkLoop p (ls_node st) (ls_body st) (ls_resp st) (ls_trace st)
       end).

(** The body of ['retry: for attempt in 0..max_attempts]. *)
Fixpoint retry_loop (clock : nat → Z) (fw : forwarder) (client_ip : list Z) (flags : Z)
    (method_allows_retry : bool) (max_attempts : nat) (left : nat) (st : loop_state) : outcome loop_state :=
  match left with
  | O => Ret st
  | S left' =>
      let attempt := (max_attempts - left)%nat in
      if (0 <? attempt)%nat && negb (ls_body st) then Ret st
      else
        st ← (if (0 <? attempt)%nat then switch_node (clock attempt) client_ip st else Ret st);
        let result := fw attempt (ls_node st) (ls_body st) in
        let st := mkLoop (ls_pool st) (ls_node st) false (ls_resp st) (ls_trace st ++ [(ls_node st, ls_body st)]) in
        match result with
        | AOk status =>
            if (attempt + 1 <? max_attempts)%nat && method_allows_retry && matches_status flags status then
              p ← node_fails (clock attempt) (ls_node st) (ls_pool st);
              retry_loop clock fw client_ip flags method_allows_retry max_attempts left'
                (mkLoop p (ls_node st) (ls_body st) (ls_resp st) (ls_trace st))
            else
              Ret (mkLoop (update_node (ls_node st) (node_record_success (clock attempt)) (ls_pool st))
                     (ls_node st) (ls_body st) (Some status) (ls_trace st))
        | AErr e =>
            p ← node_fails (clock attempt) (ls_node st) (ls_pool st);
            let st := mkLoop p (ls_node st) (ls_body st) (ls_resp st) (ls_trace st) in
            if negb (method_allows_retry && should_retry_error e flags) then Ret st
            else retry_loop clock fw client_ip flags method_allows_retry max_attempts left' st
        end
  end.

(** The attempts of one request, from a node that counts it already. *)
Definition forward_http1 (clock : nat → Z) (fw : forwarder) (client_ip method : list Z) (i : nat) (p : UpstreamPool)
  : outcome loop_state :=
  let flags := next_upstream_flags p in
  let max_attempts := if flags_is_off flags then 1%nat else (1 + Z.to_nat (retry p))%nat in
  let method_allows_retry := is_idempotent method || allows_non_idempotent flags in
  retry_loop clock fw client_ip flags method_allows_retry max_attempts max_attempts (mkLoop p i true None []).

(** The HTTP/1.1 forwarding of [handle_sweety]: pick a node, count the
    connection, try, uncount it; 502 when nothing was obtained. *)
Definition handle_http1 (clock : nat → Z) (now : Z) (fw : forwarder) (client_ip method : list Z) (p : UpstreamPool)
  : outcome (Z * UpstreamPool * list (nat * bool)) :=
  '(r, p) ← pick now (Some client_ip) p;
  match r with
  | None => Ret (502, p, [])
  | Some i =>
      st ← forward_http1 clock fw client_ip method i (update_node i (active_add 1) p);
      Ret (default 502 (ls_resp st), update_node (ls_node st) (active_add (-1)) (ls_pool st), ls_trace st)
  end.

(** ** Connection counters *)

Definition actives (ns : list NodeState) : list Z := active_connections <$> ns.
Lemma actives_cons n ns : actives (n :: ns) = active_connections n :: actives ns.
Proof. done. Qed.

Lemma is_available_active now n : active_connections (snd (is_available now n)) = active_connections n.
Proof.
  unfold is_available. destruct (is_healthy n); [|done]. cbn [negb].
  destruct (circuit_breaker n) as [cb|]; [|done]. by destruct (allow now cb).
Qed.

Ltac availability now n :=
  let H := fresh "Hact" in
  pose proof (is_available_active now n) as H; destruct (is_available now n) as [? ?]; cbn [snd] in H.

Lemma scan_all_actives now ns : actives (snd (scan_all now ns)) = actives ns.
Proof.
  induction ns as [|n ns IH]; [done|]. cbn [scan_all]. availability now n.
  destruct (scan_all now ns) as [bs ns']. cbn [snd] in *. rewrite !actives_cons. congruence.
Qed.

Lemma nth_available_actives now k ns : actives (snd (nth_available now k ns)) = actives ns.
Proof.
  revert k; induction ns as [|n ns IH]; intros k; [done|]. cbn [nth_available]. availability now n.
  destruct b; [destruct k as [|k]|].
  - cbn [snd] in *. rewrite !actives_cons. congruence.
  - specialize (IH k). destruct (nth_available now k ns). cbn [snd] in *. rewrite !actives_cons. congruence.
  - specialize (IH k). destruct (nth_available now k ns). cbn [snd] in *. rewrite !actives_cons. congruence.
Qed.

Lemma sum_weights_actives now acc ns t ns' : sum_weights now acc ns = Ret (t, ns') → actives ns' = actives ns.
Proof.
  revert acc t ns'; induction ns as [|n ns IH]; intros acc t ns'; cbn [sum_weights]; [by intros [= <- <-]|].
  availability now n. intros (a & _ & ([t1 ns1] & H1 & [= <- <-])%outcome_bind_ret)%outcome_bind_ret.
  apply IH in H1. rewrite !actives_cons. congruence.
Qed.

Lemma weighted_loop_actives now t c ns r ns' : weighted_loop now t c ns = Ret (r, ns') → actives ns' = actives ns.
Proof.
  revert c r ns'; induction ns as [|n ns IH]; intros c r ns'; cbn [weighted_loop]; [by intros [= <- <-]|].
  availability now n. destruct b.
  - intros (a & _ & H)%outcome_bind_ret. destruct (t <? a).
    + injection H as <- <-. cbn [snd] in *. rewrite !actives_cons. congruence.
    + apply outcome_bind_ret in H as ([r1 ns1] & H1 & [= <- <-]). apply IH in H1. rewrite !actives_cons. congruence.
  - intros ([r1 ns1] & H1 & [= <- <-])%outcome_bind_ret. apply IH in H1. rewrite !actives_cons. congruence.
Qed.

Lemma pick_actives now ip p r p' : pick now ip p = Ret (r, p') → actives (nodes p') = actives (nodes p).
Proof.
  unfold pick. pose proof (scan_all_actives now (nodes p)) as Hs.
  destruct (scan_all now (nodes p)) as [bs ns]. cbn [snd] in Hs. rewrite <- Hs. clear Hs.
  case_test. { case_test; [by intros [= <- <-]|]. destruct ns; by intros [= <- <-]. }
  destruct (strategy _).
  - match goal with |- context [nth_available now ?k ns] => pose proof (nth_available_actives now k ns) as Hn;
      destruct (nth_available now k ns) as [r1 ns1] end. intros [= <- <-]. exact Hn.
  - intros ([t ns1] & H1 & H)%outcome_bind_ret. apply sum_weights_actives in H1. rewrite <- H1.
    destruct (t =? 0).
    + pose proof (nth_available_actives now 0 ns1) as Hn. destruct (nth_available now 0 ns1).
      injection H as <- <-. exact Hn.
    + apply outcome_bind_ret in H as ([r1 ns2] & H2 & H). apply weighted_loop_actives in H2. rewrite <- H2.
      destruct r1; [by injection H as <- <-|]. pose proof (scan_all_actives now ns2) as Hs.
      destruct (scan_all now ns2). injection H as <- <-. exact Hs.
  - pose proof (scan_all_actives now ns) as Hs. destruct (scan_all now ns). intros [= <- <-]. exact Hs.
  - match goal with |- context [nth_available now ?k ns] => pose proof (nth_available_actives now k ns) as Hn;
      destruct (nth_available now k ns) as [r1 ns1] end. intros [= <- <-]. exact Hn.
Qed.

Lemma record_success_active now n : active_connections (node_record_success now n) = active_connections n.
Proof. unfold node_record_success. repeat case_test; by destruct (circuit_breaker _). Qed.

Lemma record_failure_active now n n' :
  node_record_failure now n = Ret n' → active_connections n' = active_connections n.
Proof.
  unfold node_record_failure. intros (c & _ & H)%outcome_bind_ret.
  destruct (3 <=? c); cbn [circuit_breaker set_health mark_unhealthy] in H;
    (destruct (circuit_breaker n); [apply outcome_bind_ret in H as (cb' & _ & [= <-])|injection H as <-]); done.
Qed.

Lemma update_node_actives i f p :
  (∀ n, active_connections (f n) = active_connections n) → actives (nodes (update_node i f p)) = actives (nodes p).
Proof.
  intros Hf. unfold actives, update_node. cbn [nodes set_nodes]. apply list_eq. intros j.
  rewrite !list_lookup_fmap. destruct (decide (j = i)) as [->|Hne].
  - rewrite list_lookup_alter_eq. destruct (nodes p !! i); cbn; [by rewrite Hf|done].
  - by rewrite list_lookup_alter_ne.
Qed.

Lemma node_fails_actives now i p p' : node_fails now i p = Ret p' → actives (nodes p') = actives (nodes p).
Proof.
  unfold node_fails. destruct (nodes p !! i) as [n|] eqn:E; [|by intros [= <-]].
  intros (n' & H & [= <-])%outcome_bind_ret. apply record_failure_active in H. unfold actives. cbn [nodes set_nodes].
  apply list_eq. intros j. rewrite !list_lookup_fmap. destruct (decide (j = i)) as [->|Hne].
  - rewrite list_lookup_insert_eq by (by eapply lookup_lt_Some). rewrite E. cbn. by rewrite H.
  - by rewrite list_lookup_insert_ne.
Qed.

(** Adding to a counter. *)
Definition bump (i : nat) (d : Z) (l : list Z) : list Z := alter (λ a, wrap32 (a + d)) i l.

Lemma update_active i d p : actives (nodes (update_node i (active_add d) p)) = bump i d (actives (nodes p)).
Proof.
  unfold actives, bump, update_node. cbn [nodes set_nodes]. apply list_eq. intros j.
  destruct (decide (j = i)) as [->|Hne].
  - rewrite list_lookup_fmap, !list_lookup_alter_eq, list_lookup_fmap. by destruct (nodes p !! i).
  - rewrite list_lookup_fmap, !list_lookup_alter_ne, list_lookup_fmap by done. done.
Qed.

Lemma bump_cancel i l : Forall is_u32 l → bump i (-1) (bump i 1 l) = l.
Proof.
  intros Hl. unfold bump. apply list_eq. intros j. destruct (decide (j = i)) as [->|Hne].
  - rewrite !list_lookup_alter_eq. destruct (l !! i) as [a|] eqn:E; [|done]. cbn. f_equal.
    apply (proj1 (Forall_lookup _ _) Hl) in E. unfold is_u32, wrap32 in *.
    rewrite Zplus_mod_idemp_l. replace (a + 1 + -1) with a by lia. apply Z.mod_small. lia.
  - by rewrite !list_lookup_alter_ne.
Qed.

Lemma bump_u32 i d l : Forall is_u32 l → Forall is_u32 (bump i d l).
Proof.
  intros Hl. unfold bump. apply Forall_alter; [done|]. intros a _ _. unfold is_u32, wrap32.
  pose proof (Z.mod_pos_bound (a + d) (u32_max + 1)). unfold u32_max in *. lia.
Qed.

(** The counters while a request is in the loop: the initial ones, plus one on
    the current node. *)
Definition held (l0 : list Z) (st : loop_state) : Prop :=
  actives (nodes (ls_pool st)) = bump (ls_node st) 1 l0.

Lemma switch_node_held now ip l0 st st' :
  Forall is_u32 l0 → held l0 st → switch_node now ip st = Ret st' → held l0 st'.
Proof.
  intros Hu Hst. unfold switch_node. intros ([r p] & Hp & [= <-])%outcome_bind_ret.
  apply pick_actives in Hp. destruct r as [j|]; unfold held; cbn [ls_pool ls_node]; [|congruence].
  rewrite !update_active, Hp, Hst. by rewrite bump_cancel.
Qed.

Lemma retry_loop_held clock fw ip flags mar maxa left l0 st st' :
  Forall is_u32 l0 → held l0 st →
  retry_loop clock fw ip flags mar maxa left st = Ret st' → held l0 st'.
Proof.
  intros Hu. revert st. induction left as [|left IH]; intros st Hst; cbn [retry_loop]; [by intros [= <-]|].
  set (att := (maxa - S left)%nat). case_test; [by intros [= <-]|].
  intros (st1 & H1 & H)%outcome_bind_ret.
  assert (Hst1 : held l0 st1).
  { destruct (0 <? att)%nat; [by eapply switch_node_held|by injection H1 as <-]. }
  clear H1. destruct (fw att (ls_node st1) (ls_body st1)) as [status|err]; cbn [ls_pool ls_node ls_body ls_resp ls_trace] in H.
  - destruct (_ && matches_status flags status).
    + apply outcome_bind_ret in H as (p & Hp & H). eapply IH; [|exact H].
      unfold held. cbn [ls_pool ls_node]. apply node_fails_actives in Hp. congruence.
    + injection H as <-. unfold held. cbn [ls_pool ls_node].
      rewrite update_node_actives by apply record_success_active. exact Hst1.
  - apply outcome_bind_ret in H as (p & Hp & H). apply node_fails_actives in Hp.
    assert (Hst2 : held l0 (mkLoop p (ls_node st1) false (ls_resp st1) (ls_trace st1 ++ [(ls_node st1, ls_body st1)])))
      by (unfold held; cbn [ls_pool ls_node]; congruence).
    destruct (negb (mar && should_retry_error err flags)); [by simplify_eq|]. by eapply IH.
Qed.

Lemma forward_http1_held clock fw ip method i p st :
  Forall is_u32 (actives (nodes p)) →
  forward_http1 clock fw ip method i (update_node i (active_add 1) p) = Ret st →
  held (actives (nodes p)) st.
Proof.
  intros Hu. unfold forward_http1. eapply retry_loop_held; [done|].
  unfold held. cbn [ls_pool ls_node]. by rewrite update_active.
Qed.

(** connection counters balance.  Whatever the upstreams answer and
    however often nodes are switched, when the request is done every node's
    [active_connections] is what it was before. *)
Theorem active_connections_balanced clock now fw ip method p status p' trace :
  Forall is_u32 (actives (nodes p)) →
  handle_http1 clock now fw ip method p = Ret (status, p', trace) →
  actives (nodes p') = actives (nodes p).
Proof.
  intros Hu. unfold handle_http1. intros ([r p1] & Hp & H)%outcome_bind_ret. apply pick_actives in Hp.
  destruct r as [i|]; [|by injection H as <- <- <-].
  apply outcome_bind_ret in H as (st & Hst & [= <- <- <-]).
  rewrite <- Hp in *. apply forward_http1_held in Hst; [|done]. rewrite update_active, Hst. by apply bump_cancel.
Qed.

Lemma retry_loop_stops clock fw ip flags mar maxa left st :
  (left < maxa)%nat → ls_body st = false → retry_loop clock fw ip flags mar maxa left st = Ret st.
Proof.
  intros Hlt Hb. destruct left as [|left]; cbn [retry_loop]; [done|].
  rewrite (proj2 (Nat.ltb_lt _ _)), Hb by lia. done.
Qed.

Lemma pick_config now ip p r p' :
  pick now ip p = Ret (r, p') → next_upstream_flags p' = next_upstream_flags p ∧ retry p' = retry p.
Proof.
  unfold pick. destruct (scan_all now (nodes p)) as [bs ns].
  case_test. { case_test; [by intros [= <- <-]|]. destruct ns; by intros [= <- <-]. }
  destruct (strategy _).
  - destruct (nth_available _ _ ns). by intros [= <- <-].
  - intros ([t ns1] & _ & H)%outcome_bind_ret. destruct (t =? 0).
    + destruct (nth_available _ _ ns1). by injection H as <- <-.
    + apply outcome_bind_ret in H as ([r1 ns2] & _ & H). destruct r1; [by injection H as <- <-|].
      destruct (scan_all now ns2). by injection H as <- <-.
  - destruct (scan_all now ns). by intros [= <- <-].
  - destruct (nth_available _ _ ns). by intros [= <- <-].
Qed.

(** The loop makes one attempt, on the node it was given. *)
Lemma forward_http1_single clock fw ip method i p st :
  forward_http1 clock fw ip method i p = Ret st →
  ls_trace st = [(i, true)] ∧ ls_node st = i
  ∧ match fw 0%nat i true with
    | AOk s => ls_resp st = Some s
        ∨ (ls_resp st = None ∧ matches_status (next_upstream_flags p) s = true ∧ 0 < retry p)
    | AErr _ => ls_resp st = None
    end.
Proof.
  unfold forward_http1.
  set (maxa := if flags_is_off (next_upstream_flags p) then 1%nat else (1 + Z.to_nat (retry p))%nat).
  assert (Hmax : ∃ m, maxa = S m ∧ (m ≠ 0%nat → 0 < retry p)).
  { unfold maxa. destruct (flags_is_off _); [exists 0%nat; done|]. exists (Z.to_nat (retry p)). split; [done|lia]. }
  destruct Hmax as (m & Em & Hm). rewrite Em. cbn [retry_loop]. rewrite Nat.sub_diag.
  cbn [Nat.ltb Nat.leb andb mbind outcome_bind ls_pool ls_node ls_body ls_resp ls_trace app Nat.add].
  destruct (fw 0%nat i true) as [s|e].
  - destruct (_ && matches_status (next_upstream_flags p) s) eqn:Ec.
    + intros (p2 & _ & Hst)%outcome_bind_ret. rewrite retry_loop_stops in Hst by (done || lia).
      injection Hst as <-. split_and!; [done|done|]. right. split; [done|].
      apply andb_true_iff in Ec as [[Ec _]%andb_true_iff Hs]. split; [done|]. apply Hm. by destruct m.
    + intros [= <-]. auto.
  - intros (p2 & _ & Hst)%outcome_bind_ret.
    assert (E : retry_loop clock fw ip (next_upstream_flags p)
      (is_idempotent method || allows_non_idempotent (next_upstream_flags p)) (S m) m
      (mkLoop p2 i false None [(i, true)]) = Ret (mkLoop p2 i false None [(i, true)]))
      by (apply retry_loop_stops; [lia|done]).
    rewrite E in Hst. destruct (negb _); by injection Hst as <-.
Qed.

Lemma forward_http1_success clock fw ip method i p s :
  fw 0%nat i true = AOk s → matches_status (next_upstream_flags p) s = false →
  forward_http1 clock fw ip method i p = Ret (mkLoop (update_node i (node_record_success (clock 0%nat)) p) i false (Some s) [(i, true)]).
Proof.
  intros Hf Hm. unfold forward_http1.
  set (maxa := if flags_is_off (next_upstream_flags p) then 1%nat else (1 + Z.to_nat (retry p))%nat).
  assert (Hmax : ∃ m, maxa = S m) by (unfold maxa; destruct (flags_is_off _); eauto).
  destruct Hmax as (m & ->). cbn [retry_loop]. rewrite Nat.sub_diag.
  cbn [Nat.ltb Nat.leb andb mbind outcome_bind ls_pool ls_node ls_body ls_resp ls_trace app Nat.add].
  by rewrite Hf, Hm, andb_false_r.
Qed.

(** [proxy_next_upstream] never moves on.  Whatever the configured retry
    count and conditions, at most one attempt is made, because the body slot
    is empty after the first one, even for a request without a body; and an
    upstream answer that matches a retry condition (say 502) is replaced by
    the proxy's own 502. *)
Theorem next_upstream_never_retries clock now fw ip method p status p' trace :
  handle_http1 clock now fw ip method p = Ret (status, p', trace) →
  (length trace ≤ 1)%nat
  ∧ ∀ i, trace = [(i, true)] →
      match fw 0%nat i true with
      | AOk s => status = s
          ∨ (status = 502 ∧ matches_status (next_upstream_flags p) s = true ∧ 0 < retry p)
      | AErr _ => status = 502
      end.
Proof.
  unfold handle_http1. intros ([r p1] & Hp & H)%outcome_bind_ret. apply pick_config in Hp as [Hfl Hre].
  destruct r as [i|]; [|injection H as <- <- <-; split; [cbn; lia|done]].
  apply outcome_bind_ret in H as (st & Hst & [= <- <- <-]).
  apply forward_http1_single in Hst as (-> & _ & Hr). split; [cbn; lia|]. intros i' [= <-].
  cbn [next_upstream_flags retry update_node set_nodes] in Hr. rewrite Hfl, Hre in Hr.
  destruct (fw 0%nat i true); [destruct Hr as [-> | (-> & ? & ?)]; auto|by rewrite Hr].
Qed.

(** ** Response headers added by the proxy: [apply_extra_headers] *)

Record CacheRule := mkCacheRule { cr_pattern : list Z; cr_cache_control : list Z }.

Section extra.
Context `{L : HeaderLib} {R : Type} (build : list Z → option R) (is_match : R → list Z → bool).

(** [cache_rule_regex]: the same cache as for sub_filter patterns. *)
Definition cache_rule_regex (pattern : list Z) (cache : gmap (list Z) R) : option R * gmap (list Z) R :=
  sub_filter_regex build pattern cache.

Fixpoint apply_cache_rules (rules : list CacheRule) (path : list Z) (m : HeaderMap) (cache : gmap (list Z) R)
  : HeaderMap * gmap (list Z) R :=
  match rules with
  | [] => (m, cache)
  | rule :: rules =>
      let '(re, cache) := cache_rule_regex (cr_pattern rule) cache in
      match re with
      | Some re =>
          if is_match re path then
            (match header_value (cr_cache_control rule) with
             | Some v => hm_insert (lit "cache-control") v m
             | None => m
             end, cache)
          else apply_cache_rules rules path m cache
      | None => apply_cache_rules rules path m cache
      end
  end.

Definition add_one_header (remote_addr scheme : list Z) (m : HeaderMap) (h : HeaderOverride) : HeaderMap :=
  let val := replace (lit "$scheme") scheme (replace (lit "$remote_addr") remote_addr (ho_value h)) in
  match header_name (ho_name h), header_value val with
  | Some name, Some v => hm_insert name v m
  | _, _ => m
  end.

Definition apply_extra_headers (status : Z) (add_headers : list HeaderOverride) (cache_rules : list CacheRule)
    (path remote_addr scheme : list Z) (m : HeaderMap) (cache : gmap (list Z) R) : HeaderMap * gmap (list Z) R :=
  let '(m, cache) := if (200 <=? status) && (status <? 300) then apply_cache_rules cache_rules path m cache
                     else (m, cache) in
  (foldl (add_one_header remote_addr scheme) m add_headers, cache).

(** [proxy_hide_headers] *)
Definition proxy_hide_headers (names : list (list Z)) (m : HeaderMap) : HeaderMap :=
  foldl (λ m name, match header_name name with Some n => hm_remove n m | None => m end) m names.

(** The first rule whose pattern compiles and matches the path. *)
Definition first_rule (rules : list CacheRule) (path : list Z) : option CacheRule :=
  find_first (λ r, match build (cr_pattern r) with Some re => is_match re path | None => false end) rules.

Context `{!HeaderLaws L}.

Lemma apply_cache_rules_first rules path m cache :
  cache_ok build cache →
  fst (apply_cache_rules rules path m cache) =
    match first_rule rules path with
    | Some r => match header_value (cr_cache_control r) with
                | Some v => hm_insert (lit "cache-control") v m
                | None => m
                end
    | None => m
    end.
Proof.
  revert cache; induction rules as [|r rules IH]; intros cache Hc; [done|].
  cbn [apply_cache_rules first_rule find_first]. unfold cache_rule_regex.
  destruct (sub_filter_regex_ok build (cr_pattern r) cache Hc) as [Hr Hc'].
  destruct (sub_filter_regex build (cr_pattern r) cache) as [re cache']. cbn [fst snd] in Hr, Hc'. subst re.
  destruct (build (cr_pattern r)) as [re|]; [|by apply IH].
  destruct (is_match re path); [done|by apply IH].
Qed.

(** hidden headers are hidden: after [proxy_hide_headers], a header that
    the configuration names, in any letter case, is absent, and every other
    header is untouched. *)
Theorem hide_headers_spec names m n :
  hm_get_all (proxy_hide_headers names m) n =
    if bool_decide (Exists (λ name, header_name name = Some n) names) then [] else hm_get_all m n.
Proof.
  unfold proxy_hide_headers. induction names as [|name names IH] using rev_ind; [done|].
  rewrite foldl_snoc. destruct (header_name name) as [n0|] eqn:E.
  - rewrite get_all_remove. destruct (decide (n = n0)) as [->|Hne].
    + rewrite bool_decide_true; [done|]. apply Exists_app. right. by constructor.
    + rewrite IH. case_bool_decide as H1; case_bool_decide as H2; try done.
      * destruct H2. apply Exists_app. by left.
      * apply Exists_app in H2 as [?|H2]; [done|]. inversion H2 as [? ? H3|? ? H3]; [congruence|by inversion H3].
  - rewrite IH. case_bool_decide as H1; case_bool_decide as H2; try done.
    + destruct H2. apply Exists_app. by left.
    + apply Exists_app in H2 as [?|H2]; [done|]. inversion H2 as [? ? H3|? ? H3]; [congruence|by inversion H3].
Qed.

End extra.

(** ** Witnesses *)

Module Witness.

Definition n0 : NodeState := mkNode (Tcp (lit "a:80")) 1 1 3 0 false [] false None false 0 None.
Definition n1 : NodeState := mkNode (Tcp (lit "b:80")) 1 1 0 0 false [] false None false 0 None.
Definition pool : UpstreamPool := mkPool [n0; n1] RoundRobin 0 0 0 0 10 60 60 2 0 (compile_flags [NError; NHttp502]).
(** The first node answers 502, the second would answer 200. *)
Definition fw : forwarder := λ _ i _, if (i =? 0)%nat then AOk 502 else AOk 200.

Lemma active_connections_balanced_witness :
  ∃ status p' trace, handle_http1 (λ _, 0) 0 fw (lit "1.2.3.4") (lit "GET") pool = Ret (status, p', trace)
    ∧ actives (nodes p') = actives (nodes pool).
Proof.
  eexists _, _, _. split; [reflexivity|].
  eapply (active_connections_balanced (λ _, 0) 0 fw (lit "1.2.3.4") (lit "GET") pool);
    [repeat constructor; vm_compute; congruence|reflexivity].
Defined.

(** Two nodes, two retries, a GET: still one attempt and a 502. *)
Lemma next_upstream_never_retries_witness :
  ∃ p' trace, handle_http1 (λ _, 0) 0 fw (lit "1.2.3.4") (lit "GET") pool = Ret (502, p', trace)
    ∧ (length trace ≤ 1)%nat.
Proof.
  eexists _, _. split; [reflexivity|].
  eapply (next_upstream_never_retries (λ _, 0) 0 fw (lit "1.2.3.4") (lit "GET") pool). reflexivity.
Defined.

Import Headers.Model.
Lemma hide_headers_spec_witness :
  hm_get_all (proxy_hide_headers [lit "X-Powered-By"] (hm_insert (lit "x-powered-by") (lit "p") hm_empty))
    (lit "x-powered-by") = [].
Proof.
  rewrite (hide_headers_spec [lit "X-Powered-By"] (hm_insert (lit "x-powered-by") (lit "p") hm_empty)
    (lit "x-powered-by")). reflexivity.
Defined.

End Witness.
