(* ===== verification/FastCgi.v ===== *)
(** * FastCGI: [src/handler/fastcgi.rs], [src/handler/fastcgi/proto.rs],
    [src/handler/fastcgi/response.rs]

    Records and name-value pairs on the wire, the CGI environment of a
    request, and the assembly of the response from the application server's
    records.  [String::from_utf8_lossy] is a parameter where it is used. *)

From S2P Require Import Prelude RustStr IpAddr Headers ConnPool ProxyCache Http1 Streaming Forward.

Definition FCGI_VERSION : Z := 1.
Definition FCGI_BEGIN_REQUEST : Z := 1.
Definition FCGI_PARAMS : Z := 4.
Definition FCGI_STDIN : Z := 5.
Definition FCGI_STDOUT : Z := 6.
Definition FCGI_STDERR : Z := 7.
Definition FCGI_RESPONDER : Z := 1.
Definition FCGI_MAX_CONTENT : nat := Z.to_nat 65535.

(** ** Writing *)

(** [write_fcgi_header]: [content_len as u16] keeps the low 16 bits. *)
Definition write_fcgi_header (record_type request_id content_len padding : Z) : list Z :=
  [FCGI_VERSION; record_type] ++ to_be_bytes16 request_id ++ to_be_bytes16 (content_len mod 65536)
  ++ [padding; 0].

Definition padding_of (n : nat) : nat := ((8 - n mod 8) mod 8)%nat.

(** One chunk of [write_fcgi_record]. *)
Definition write_chunk (record_type request_id : Z) (chunk : list Z) : list Z :=
  let padding := padding_of (length chunk) in
  write_fcgi_header record_type request_id (Z.of_nat (length chunk)) (Z.of_nat padding)
  ++ chunk ++ take padding (replicate 8 0).

(** [data.chunks(n)]; [fuel] is at most the number of bytes. *)
Fixpoint chunks {A} (fuel n : nat) (data : list A) : list (list A) :=
  match fuel with
  | O => []
  | S fuel => match data with
              | [] => []
              | _ => take n data :: chunks fuel n (drop n data)
              end
  end.

Definition write_fcgi_record (record_type request_id : Z) (data : list Z) : list Z :=
  match data with
  | [] => write_fcgi_header record_type request_id 0 0
  | _ => concat (write_chunk record_type request_id <$> chunks (length data) FCGI_MAX_CONTENT data)
  end.

(** [encode_nv_pair] *)
Definition enc_len (n : nat) : list Z :=
  let z := Z.of_nat n in
  if z <? 128 then [z] else to_be_bytes32 (Z.lor (z mod 4294967296) 2147483648).

Definition encode_nv_pair (name value : list Z) : list Z :=
  enc_len (length name) ++ enc_len (length value) ++ name ++ value.

(** The packet of [fcgi_send_and_read_headers]. *)
Definition request_packet (params : list (list Z * list Z)) (stdin_body : list Z) : list Z :=
  let rid := 1 in
  write_fcgi_header FCGI_BEGIN_REQUEST rid 8 0
  ++ to_be_bytes16 FCGI_RESPONDER ++ [1] ++ replicate 5 0
  ++ write_fcgi_record FCGI_PARAMS rid (concat ((λ '(k, v), encode_nv_pair k v) <$> params))
  ++ write_fcgi_record FCGI_PARAMS rid []
  ++ write_fcgi_record FCGI_STDIN rid stdin_body
  ++ write_fcgi_record FCGI_STDIN rid [].

(** ** Reading *)

(** [read_exact]: [None] when the stream ends first. *)
Definition read_exact (n : nat) (s : list Z) : option (list Z * list Z) :=
  if (length s <? n)%nat then None else Some (take n s, drop n s).

Record FcgiRecord := mkRecord { rec_type : Z; rec_data : list Z }.

(** [read_fcgi_from_stream], [read_fcgi_conn] *)
Definition read_fcgi (s : list Z) : option (FcgiRecord * list Z) :=
  match read_exact 8 s with
  | Some ([_; ty; _; _; l0; l1; pad; _], s1) =>
      let content_len := Z.to_nat (from_be_bytes16 l0 l1) in
      let total := (content_len + Z.to_nat pad)%nat in
      match read_exact total s1 with
      | Some (buf, s2) => Some (mkRecord ty (take content_len buf), s2)
      | None => None
      end
  | _ => None
  end.

(** [find_header_end] *)
Definition find_header_end (buf : list Z) : option (nat * nat) :=
  match find_crlfcrlf buf with
  | Some i => Some ((i + 4)%nat, i)
  | None => match find_pair LF LF buf with
            | Some i => Some ((i + 2)%nat, i)
            | None => None
            end
  end.

(** [parse_fcgi_headers] *)
Definition strip_status (line : list Z) : option (list Z) :=
  match strip_prefix (lit "Status:") line with
  | Some r => Some r
  | None => strip_prefix (lit "status:") line
  end.

Definition parse_fcgi_line (acc : Z * list (list Z * list Z)) (line : list Z) : Z * list (list Z * list Z) :=
  let '(status, hs) := acc in
  let line := trim line in
  match line with
  | [] => acc
  | _ =>
      match strip_status line with
      | Some rest =>
          match split_whitespace (trim rest) with
          | code :: _ => (default 200 (parse_uint u16_max code), hs)
          | [] => acc
          end
      | None =>
          match split_header line with
          | Some kv => (status, hs ++ [kv])
          | None => acc
          end
      end
  end.

Definition parse_fcgi_headers (header_str : list Z) : Z * list (list Z * list Z) :=
  foldl parse_fcgi_line (200, []) (lines header_str).

(** [read_headers_from_stream]: the header text, the start of the body, whether
    the body is complete, and the rest of the stream.  [None] is a read error;
    every round consumes a record of at least eight bytes. *)
Fixpoint read_headers_loop (fuel : nat) (header_buf : list Z) (s : list Z)
  : option (list Z * list Z * bool * list Z) :=
  match fuel with
  | O => None
  | S fuel =>
      match read_fcgi s with
      | None => None
      | Some (rec, s') =>
          if rec_type rec =? FCGI_STDOUT then
            match rec_data rec with
            | [] => Some (header_buf, [], true, s')
            | _ =>
                let header_buf := header_buf ++ rec_data rec in
                match find_header_end header_buf with
                | Some (body_start, text_end) =>
                    Some (take text_end header_buf, drop body_start header_buf, false, s')
                | None => read_headers_loop fuel header_buf s'
                end
            end
          else read_headers_loop fuel header_buf s'
      end
  end.

(** The body loop of [build_streaming_response]: the body, how the loop ended
    (a closing record, over the streaming limit, no further record), and the
    rest. *)
Definition STREAM_LIMIT : Z := 4194304.

Inductive body_end := BodyDone | BodyLarge | BodyCut.

Fixpoint read_body_loop (fuel : nat) (body : list Z) (s : list Z) : list Z * body_end * list Z :=
  match fuel with
  | O => (body, BodyCut, s)
  | S fuel =>
      match read_fcgi s with
      | None => (body, BodyCut, [])
      | Some (rec, s') =>
          if rec_type rec =? FCGI_STDOUT then
            match rec_data rec with
            | [] => (body, BodyDone, s')
            | _ => let body := body ++ rec_data rec in
                   if STREAM_LIMIT <? Z.of_nat (length body) then (body, BodyLarge, s')
                   else read_body_loop fuel body s'
            end
          else if rec_type rec =? FCGI_STDERR then read_body_loop fuel body s'
          else (body, BodyDone, s')
      end
  end.

(** The loop of the task of [stream_remaining]; [client i] tells whether the
    client still takes the [i]-th piece, [silent] whether the application
    stays connected and silent after its last byte. *)
Fixpoint stream_records (fuel : nat) (client : nat → bool) (i : nat) (silent : bool) (s : list Z)
  : list stream_item * stream_task :=
  match fuel with
  | O => ([], Dropped)
  | S fuel =>
      match read_fcgi s with
      | None => if silent then ([], Hung) else ([ItemError], Dropped)
      | Some (rec, s') =>
          if rec_type rec =? FCGI_STDOUT then
            match rec_data rec with
            | [] => ([], Kept s')
            | d => if client i then
                     let '(ps, t) := stream_records fuel client (S i) silent s' in (Piece d :: ps, t)
                   else ([], Dropped)
            end
          else if rec_type rec =? FCGI_STDERR then stream_records fuel client i silent s'
          else ([], Kept s')
      end
  end.

(** [stream_remaining]: first what was read already. *)
Definition stream_remaining (client : nat → bool) (silent : bool) (initial : list Z) (s : list Z)
  : list stream_item * stream_task :=
  match initial with
  | [] => stream_records (S (length s)) client 0 silent s
  | _ => if client 0%nat then
           let '(ps, t) := stream_records (S (length s)) client 1 silent s in (Piece initial :: ps, t)
         else ([], Dropped)
  end.

(** ** Responses *)

Section response.
Context `{L : HeaderLib} (from_utf8_lossy : list Z → list Z).

(** [HeaderValue::from_bytes] accepts more than [from_str]; it is a parameter. *)
Context (header_value_bytes : list Z → option (list Z)).

Definition append_header (m : HeaderMap) (kv : list Z * list Z) : HeaderMap :=
  match header_name (fst kv), header_value_bytes (snd kv) with
  | Some n, Some v => hm_append n v m
  | _, _ => m
  end.

Definition has_content_type (headers : list (list Z * list Z)) : bool :=
  existsb (λ kv, eq_ignore_ascii_case (fst kv) (lit "content-type")) headers.

Definition html_type : list Z := lit "text/html; charset=utf-8".

(** [make_complete_response] *)
Definition make_complete_response (status : Z) (headers : list (list Z * list Z)) (body : list Z) : WebResponse :=
  let st := status_or_ok status in
  let no_body := no_body_status st in
  let m := foldl append_header hm_empty headers in
  let m := if no_body then m
           else let m := if has_content_type headers then m else hm_insert (lit "content-type") html_type m in
                set_content_length (length body) m in
  mkResp _ st (if no_body then [] else body) m.

(** [write_fcgi_cache]: what is put into the cache. *)
Definition write_fcgi_cache (cache : option ProxyCache) (status : Z) (headers : list (list Z * list Z)) (body : list Z)
  : option (Z * list (list Z * list Z) * list Z) :=
  match cache with
  | Some pc => if is_cacheable pc status headers then Some (status, headers, body) else None
  | None => None
  end.

(** What the client gets: a complete response, or one whose body is streamed. *)
Inductive fcgi_response :=
| Complete (resp : WebResponse)
| Streamed (status : Z) (headers : HeaderMap) (items : list stream_item).

(** How an exchange ends: a response, what is put into the cache and the unread
    bytes of a connection that goes back to the pool; an error before the
    response head; or the read timeout. *)
Inductive fcgi_result :=
| FxOk (resp : fcgi_response) (store : option (Z * list (list Z * list Z) * list Z)) (kept : option (list Z))
| FxError
| FxTimeout.

(** [fcgi_send_and_read_headers] and [build_streaming_response] on a
    connection over which the application sends [s] and then stays silent or
    closes. *)
Definition fcgi_exchange (cache : option ProxyCache) (client : nat → bool) (silent : bool) (s : list Z) : fcgi_result :=
  match read_headers_loop (S (length s)) [] s with
  | None => if silent then FxTimeout else FxError
  | Some (header_buf, body_prefix, body_done, s1) =>
      let '(status, headers) := parse_fcgi_headers (from_utf8_lossy header_buf) in
      if body_done then
        FxOk (Complete (make_complete_response status headers body_prefix))
             (write_fcgi_cache cache status headers body_prefix) (Some s1)
      else
        let '(body, ends, s2) := read_body_loop (S (length s1)) body_prefix s1 in
        match ends, silent with
        | BodyLarge, _ =>
            let st := status_or_ok status in
            let no_body := no_body_status st in
            let '(ps, t) := stream_remaining (if no_body then λ _, false else client) silent body s2 in
            let m := foldl append_header hm_empty headers in
            let m := if no_body || has_content_type headers then m
                     else hm_insert (lit "content-type") html_type m in
            FxOk (Streamed st m ps) None
                 (match t with Kept rest => Some rest | Dropped | Hung => None end)
        | BodyCut, true => FxTimeout
        | BodyDone, _ | BodyCut, false =>
            FxOk (Complete (make_complete_response status headers body)) (write_fcgi_cache cache status headers body)
                 (Some s2)
        end
  end.

End response.

(** ** The attempts of the handler *)

(** A connection to the application server: what it will send, and whether it
    stays open after that. *)
Record app_stream := mkApp { as_data : list Z; as_silent : bool }.

Definition app_of (c : @FcgiConn app_stream) : app_stream := match c with FcgiTcp s | FcgiUnix s => s end.
Definition with_data (d : list Z) (c : @FcgiConn app_stream) : @FcgiConn app_stream :=
  match c with
  | FcgiTcp s => FcgiTcp (mkApp d (as_silent s))
  | FcgiUnix s => FcgiUnix (mkApp d (as_silent s))
  end.

(** What the client is answered: a response of the application, or an error
    page with this status. *)
Inductive fcgi_answer `{HeaderLib} :=
| FcgiAnswer (resp : fcgi_response)
| FcgiError (status : Z).

Section attempts.
Context `{L : HeaderLib} (from_utf8_lossy : list Z → list Z) (header_value_bytes : list Z → option (list Z)).
Context (tcp_connect unix_connect : nat → list Z → result app_stream fcgi_connect_error).

Notation answer := (fcgi_answer * option (Z * list (list Z * list Z) * list Z) * FcgiPool * nat)%type.

(** The loop [for attempt in 0u8..2] of [handle_sweety]; [tcp_connect n] is the
    operating system's answer to the [n]-th attempt.  The last component is the
    number of times the request was sent. *)
Fixpoint fcgi_attempts (rounds : nat) (attempt : nat) (cache : option ProxyCache) (client : nat → bool)
    (addr : list Z) (is_unix : bool) (p : @FcgiPool app_stream) : answer :=
  match rounds with
  | O => (FcgiError 502, None, p, attempt)
  | S rounds =>
      let p := if (attempt =? 1)%nat then fcgi_evict addr p else p in
      match fcgi_acquire (tcp_connect attempt) (unix_connect attempt) addr is_unix p with
      | (Err _, p) => (FcgiError 502, None, p, attempt)
      | (Ok c, p) =>
          match fcgi_exchange from_utf8_lossy header_value_bytes cache client (as_silent (app_of c)) (as_data (app_of c)) with
          | FxOk resp store kept =>
              (FcgiAnswer resp, store,
               match kept with Some d => fcgi_release addr (with_data d c) p | None => p end, S attempt)
          | FxTimeout => (FcgiError 504, None, p, S attempt)
          | FxError =>
              if (attempt =? 0)%nat then fcgi_attempts rounds (S attempt) cache client addr is_unix p
              else (FcgiError 502, None, p, S attempt)
          end
      end
  end.

Definition fcgi_handle (cache : option ProxyCache) (client : nat → bool) (addr : list Z) (is_unix : bool)
    (p : @FcgiPool app_stream) : answer :=
  fcgi_attempts 2 0 cache client addr is_unix p.

End attempts.

(** ** The CGI environment *)

(** [split_script_path] *)
Definition split_script_path (path : list Z) : list Z * list Z :=
  match find_sub (lit ".php") path with
  | Some pos =>
      let stop := (pos + 4)%nat in
      if (stop =? length path)%nat || bool_decide (path !! stop = Some byte_slash)
      then (take stop path, drop stop path) else (lit "/index.php", path)
  | None => (lit "/index.php", path)
  end.

Record FcgiReq := mkFcgiReq {
  f_method : list Z;
  f_path : list Z;
  f_query : option (list Z);
  f_req_uri : list Z;
  f_host : list Z;                              (* :authority or Host *)
  f_https : bool;
  f_root : list Z;
  f_script : option (list Z);                   (* resolved by try_files *)
  f_headers : list (list Z * list Z);           (* lower-case name, value bytes *)
  f_content_type : list Z;
  f_body : list Z;
  f_remote_addr : list Z;
  f_peer_port : Z;
  f_version : list Z;
}.

Definition trim_slashes_end (s : list Z) : list Z := trim_end_matches (λ b, b =? byte_slash) s.

(** SCRIPT_FILENAME, SCRIPT_NAME, PATH_INFO *)
Definition script_of (r : FcgiReq) : list Z * list Z * list Z :=
  match f_script r with
  | Some abs =>
      let rel := match strip_prefix (trim_slashes_end (f_root r)) abs with Some x => x | None => abs end in
      (abs, (λ b, if b =? byte_backslash then byte_slash else b) <$> rel, [])
  | None =>
      let '(sname, pinfo) := split_script_path (f_path r) in
      (trim_slashes_end (f_root r) ++ sname, sname, pinfo)
  end.

Definition cgi_name (k : list Z) : list Z :=
  lit "HTTP_" ++ ((λ b, if b =? byte_minus then 95 else byte_upper b) <$> k).

Definition cgi_skipped (k : list Z) : bool :=
  eq_ignore_ascii_case k (lit "host") || eq_ignore_ascii_case k (lit "cookie")
  || eq_ignore_ascii_case k (lit "content-type") || eq_ignore_ascii_case k (lit "content-length").

Section params.
Context (from_utf8_lossy : list Z → list Z).

Definition http_cookie (hs : list (list Z * list Z)) : list Z :=
  join (lit "; ") (from_utf8_lossy ∘ snd <$> filter (λ kv, fst kv = lit "cookie") hs).

(** The variables every request has. *)
Definition cgi_fixed (r : FcgiReq) : list (list Z * list Z) :=
  let '(server_name, server_port) :=
    match rsplit_once byte_colon (f_host r) with
    | Some hp => hp
    | None => (f_host r, if f_https r then lit "443" else lit "80")
    end in
  let '(script_filename, script_name, path_info) := script_of r in
  [(lit "GATEWAY_INTERFACE", lit "CGI/1.1"); (lit "SERVER_SOFTWARE", lit "Sweety/" ++ f_version r);
   (lit "SERVER_PROTOCOL", lit "HTTP/1.1"); (lit "SERVER_NAME", server_name); (lit "SERVER_PORT", server_port);
   (lit "REQUEST_METHOD", f_method r); (lit "REQUEST_URI", f_req_uri r); (lit "DOCUMENT_URI", f_path r);
   (lit "QUERY_STRING", default [] (f_query r)); (lit "DOCUMENT_ROOT", f_root r);
   (lit "SCRIPT_FILENAME", script_filename); (lit "SCRIPT_NAME", script_name); (lit "PATH_INFO", path_info);
   (lit "PATH_TRANSLATED", trim_slashes_end (f_root r) ++ path_info);
   (lit "REMOTE_ADDR", f_remote_addr r); (lit "REMOTE_HOST", f_remote_addr r);
   (lit "REMOTE_PORT", dec (f_peer_port r)); (lit "CONTENT_TYPE", f_content_type r);
   (lit "CONTENT_LENGTH", dec (Z.of_nat (length (f_body r))))].

(** The variables that depend on the request's headers. *)
Definition cgi_headers (r : FcgiReq) : list (list Z * list Z) :=
  (if f_https r then [(lit "HTTPS", lit "on")] else [])
  ++ (match f_host r with [] => [] | h => [(lit "HTTP_HOST", h)] end)
  ++ (match http_cookie (f_headers r) with [] => [] | c => [(lit "HTTP_COOKIE", c)] end)
  ++ ((λ '(k, v), (cgi_name k, from_utf8_lossy v)) <$> filter (λ kv, cgi_skipped (fst kv) = false) (f_headers r)).

Definition cgi_params (r : FcgiReq) : list (list Z * list Z) := cgi_fixed r ++ cgi_headers r.

End params.

(** ** Records round-trip *)

Lemma max_content : (1 ≤ FCGI_MAX_CONTENT)%nat ∧ Z.of_nat FCGI_MAX_CONTENT = 65535.
Proof. unfold FCGI_MAX_CONTENT. lia. Qed.

Lemma padding_lt n : (padding_of n < 8)%nat.
Proof. unfold padding_of. apply Nat.mod_upper_bound. lia. Qed.

Lemma read_exact_app n a b : length a = n → read_exact n (a ++ b) = Some (a, b).
Proof.
  intros <-. unfold read_exact. rewrite (proj2 (Nat.ltb_ge _ _)) by (rewrite length_app; lia).
  by rewrite take_app_length, drop_app_length.
Qed.

Lemma write_header_list ty id len pad :
  ∃ i0 i1, write_fcgi_header ty id len pad
    = [FCGI_VERSION; ty; i0; i1; len mod 65536 / 256 mod 256; len mod 65536 mod 256; pad; 0].
Proof. by eexists _, _. Qed.

Lemma read_write_chunk ty id chunk rest :
  Z.of_nat (length chunk) ≤ 65535 →
  read_fcgi (write_chunk ty id chunk ++ rest) = Some (mkRecord ty chunk, rest).
Proof.
  intros Hlen. unfold write_chunk, read_fcgi. pose proof (padding_lt (length chunk)) as Hp.
  set (pad := padding_of (length chunk)) in *.
  destruct (write_header_list ty id (Z.of_nat (length chunk)) (Z.of_nat pad)) as (i0 & i1 & ->).
  rewrite <- !app_assoc. rewrite (read_exact_app 8) by done. rewrite (Z.mod_small _ 65536) by lia.
  rewrite be16_roundtrip by (unfold is_u16, u16_max; lia). rewrite !Nat2Z.id.
  rewrite app_assoc, read_exact_app.
  2:{ rewrite length_app, length_take, length_replicate. lia. }
  by rewrite take_app_length.
Qed.

Lemma read_empty_record ty id rest :
  read_fcgi (write_fcgi_header ty id 0 0 ++ rest) = Some (mkRecord ty [], rest).
Proof. pose proof (read_write_chunk ty id [] rest) as H. unfold write_chunk in H. cbn [length] in H. apply H. lia. Qed.

Lemma chunks_spec {A} fuel n (data : list A) :
  (1 ≤ n)%nat → (length data ≤ fuel)%nat →
  concat (chunks fuel n data) = data ∧ Forall (λ c, c ≠ [] ∧ (length c ≤ n)%nat) (chunks fuel n data).
Proof.
  intros Hn. revert data; induction fuel as [|fuel IH]; intros data Hl; cbn [chunks].
  { destruct data; [|cbn in Hl; lia]. split; [done|constructor]. }
  destruct data as [|x data]; [split; [done|constructor]|].
  destruct (IH (drop n (x :: data))) as [H1 H2]; [rewrite length_drop; cbn [length] in *; lia|].
  split.
  - cbn [concat]. by rewrite H1, take_drop.
  - constructor; [|exact H2]. split; [|rewrite length_take; lia]. destruct n; [lia|]. done.
Qed.

(** Reading [k] records. *)
Fixpoint read_many (k : nat) (s : list Z) : option (list FcgiRecord * list Z) :=
  match k with
  | O => Some ([], s)
  | S k => match read_fcgi s with
           | Some (r, s1) => match read_many k s1 with
                             | Some (rs, s2) => Some (r :: rs, s2)
                             | None => None
                             end
           | None => None
           end
  end.

(** FastCGI records round-trip.  Data of any size, split into records of at
    most 65535 bytes with padding, is read back by the record reader as
    non-empty records of the same type whose contents concatenate to the data,
    and reading stops exactly where the next record starts. *)
Theorem record_roundtrip ty id data rest :
  data ≠ [] →
  let cs := chunks (length data) FCGI_MAX_CONTENT data in
  read_many (length cs) (write_fcgi_record ty id data ++ rest) = Some (mkRecord ty <$> cs, rest)
  ∧ concat cs = data ∧ Forall (λ c, c ≠ [] ∧ Z.of_nat (length c) ≤ 65535) cs.
Proof.
  intros Hne cs. destruct max_content as [Hm1 Hm2].
  destruct (chunks_spec (length data) FCGI_MAX_CONTENT data Hm1) as [Hc Hf]; [lia|]. fold cs in Hc, Hf.
  assert (Hf' : Forall (λ c, c ≠ [] ∧ Z.of_nat (length c) ≤ 65535) cs).
  { eapply Forall_impl; [exact Hf|]. intros c [? ?]. split; [done|lia]. }
  split; [|exact (conj Hc Hf')]. unfold write_fcgi_record. destruct data as [|x data]; [exfalso; by apply Hne|]. fold cs.
  clear Hc Hf. induction Hf' as [|c cs' [Hcne Hcl] _ IH]; [done|].
  cbn [length fmap list_fmap concat read_many]. rewrite <- app_assoc, read_write_chunk by done.
  by rewrite IH.
Qed.

(** ** Name-value pairs *)

(** The FastCGI specification's decoder of a length and of a list of pairs. *)
Definition dec_len (s : list Z) : option (nat * list Z) :=
  match s with
  | b :: s1 =>
      if b <? 128 then Some (Z.to_nat b, s1)
      else match s1 with
           | c :: d :: e :: s2 => Some (Z.to_nat (from_be_bytes32 (b - 128) c d e), s2)
           | _ => None
           end
  | [] => None
  end.

Fixpoint decode_nv (fuel : nat) (s : list Z) : option (list (list Z * list Z)) :=
  match fuel with
  | O => None
  | S fuel =>
      match s with
      | [] => Some []
      | _ =>
          match dec_len s with
          | Some (n, s1) =>
              match dec_len s1 with
              | Some (v, s2) =>
                  match read_exact n s2 with
                  | Some (name, s3) =>
                      match read_exact v s3 with
                      | Some (value, s4) =>
                          match decode_nv fuel s4 with
                          | Some rest => Some ((name, value) :: rest)
                          | None => None
                          end
                      | None => None
                      end
                  | None => None
                  end
              | None => None
              end
          | None => None
          end
      end
  end.

Lemma dec_enc_len n rest : Z.of_nat n < 2147483648 → dec_len (enc_len n ++ rest) = Some (n, rest).
Proof.
  intros Hn. unfold enc_len, dec_len. cbv zeta. destruct (Z.ltb_spec (Z.of_nat n) 128).
  - cbn [app]. rewrite (proj2 (Z.ltb_lt _ _)) by lia. by rewrite Nat2Z.id.
  - rewrite Z.mod_small by lia.
    assert (Hlor : Z.lor (Z.of_nat n) 2147483648 = 2147483648 + Z.of_nat n).
    { rewrite Z.lor_comm. change 2147483648 with (Z.shiftl 1 31) at 1.
      rewrite lor_shiftl_add; [lia|lia|]. change (2 ^ 31) with 2147483648. lia. }
    rewrite Hlor. unfold to_be_bytes32. set (z := 2147483648 + Z.of_nat n). cbn [app].
    rewrite (proj2 (Z.ltb_ge _ _)) by (unfold z; Z.to_euclidean_division_equations; lia).
    do 2 f_equal. unfold from_be_bytes32.
    assert (E : ((z / 16777216 mod 256 - 128) * 256 + z / 65536 mod 256) * 65536 + (z / 256 mod 256) * 256 + z mod 256
              = Z.of_nat n) by (unfold z; Z.to_euclidean_division_equations; lia).
    lia.
Qed.

Lemma enc_len_nonempty n : enc_len n ≠ [].
Proof. unfold enc_len. cbv zeta. by case_test. Qed.

Lemma decode_nv_step fuel k v s :
  Z.of_nat (length k) < 2147483648 → Z.of_nat (length v) < 2147483648 →
  decode_nv (S fuel) (encode_nv_pair k v ++ s) = ((k, v) ::.) <$> decode_nv fuel s.
Proof.
  intros Hk Hv. unfold encode_nv_pair. rewrite <- !app_assoc.
  pose proof (dec_enc_len (length k) (enc_len (length v) ++ k ++ v ++ s) Hk) as Hl.
  assert (Hne : enc_len (length k) ++ enc_len (length v) ++ k ++ v ++ s ≠ []).
  { intros [E _]%app_nil. by apply (enc_len_nonempty (length k)). }
  set (t := enc_len (length k) ++ _) in *. cbn [decode_nv]. destruct t as [|x t]; [done|].
  rewrite Hl, dec_enc_len, !read_exact_app by done. by destruct (decode_nv fuel s).
Qed.

(** CGI variables survive the wire.  The name-value encoding of any list
    of variables shorter than 2 GiB each is decoded, by the decoder of the
    FastCGI specification, to the same list. *)
Theorem nv_roundtrip params :
  Forall (λ kv, Z.of_nat (length (fst kv)) < 2147483648 ∧ Z.of_nat (length (snd kv)) < 2147483648) params →
  decode_nv (S (length params)) (concat ((λ '(k, v), encode_nv_pair k v) <$> params)) = Some params.
Proof.
  induction 1 as [|[k v] params [Hk Hv] _ IH]; [done|]. cbn [fst snd] in *.
  rewrite fmap_cons. cbn [concat length]. rewrite decode_nv_step by done. by rewrite IH.
Qed.

(** ** Reassembly of a response *)

Lemma find_pair_mono c d a b i : find_pair c d a = Some i → find_pair c d (a ++ b) = Some i.
Proof.
  assert (Hc : ∀ x y l, find_pair c d (x :: y :: l)
                        = if (x =? c) && (y =? d) then Some 0%nat else S <$> find_pair c d (y :: l)) by done.
  revert i; induction a as [|x a IH]; intros i; [done|].
  destruct a as [|y a]; [done|]. cbn [app] in *. rewrite !Hc.
  destruct ((x =? c) && (y =? d)); [done|]. intros (j & E & ->)%fmap_Some. by rewrite (IH j E).
Qed.

(** A header block that an application sends before its blank line: the blank
    line is the first in the output. *)
Definition header_block (hdr : list Z) : Prop :=
  find_crlfcrlf (hdr ++ [CR; LF; CR; LF]) = Some (length hdr)
  ∧ find_pair LF LF (hdr ++ [CR; LF; CR]) = None.

Lemma header_end_prefix hdr body n :
  header_block hdr →
  find_header_end (take n (hdr ++ [CR; LF; CR; LF] ++ body))
  = if decide (length hdr + 4 ≤ n)%nat then Some ((length hdr + 4)%nat, length hdr) else None.
Proof.
  intros [H4 H2]. set (sep := [CR; LF; CR; LF]) in *. unfold find_header_end.
  assert (Hl : length (hdr ++ sep) = (length hdr + 4)%nat) by (by rewrite length_app).
  rewrite (app_assoc hdr). case_decide as Hn.
  - rewrite take_app_ge by lia. by rewrite (find_crlfcrlf_app _ _ _ H4).
  - rewrite take_app_le by lia. set (p := take n (hdr ++ sep)).
    assert (Hp : p ++ drop n (hdr ++ sep) = hdr ++ sep) by apply take_drop.
    assert (Hpl : (length p < length hdr + 4)%nat) by (unfold p; rewrite length_take; lia).
    destruct (find_crlfcrlf p) as [i|] eqn:E4.
    { pose proof (find_crlfcrlf_bound _ _ E4). apply (find_crlfcrlf_app _ (drop n (hdr ++ sep))) in E4.
      rewrite Hp, H4 in E4. injection E4 as <-. lia. }
    destruct (find_pair LF LF p) as [i|] eqn:E2; [|done].
    assert (Hq : p = take n (hdr ++ [CR; LF; CR])).
    { unfold p, sep. change ([CR; LF; CR; LF]) with ([CR; LF; CR] ++ [LF]). rewrite app_assoc.
      rewrite (take_app_le (hdr ++ _)); [done|]. rewrite length_app. cbn. lia. }
    rewrite Hq in E2. apply (find_pair_mono _ _ _ (drop n (hdr ++ [CR; LF; CR]))) in E2.
    rewrite take_drop, H2 in E2. done.
Qed.

(** What an application sends: records of one request. *)
Definition wire (id : Z) (recs : list FcgiRecord) : list Z :=
  concat ((λ r, write_chunk (rec_type r) id (rec_data r)) <$> recs).

Definition stdout_of (recs : list FcgiRecord) : list Z :=
  concat (rec_data <$> filter (λ r, rec_type r = FCGI_STDOUT) recs).

Definition fits (r : FcgiRecord) : Prop := Z.of_nat (length (rec_data r)) ≤ 65535.

(** Records of the response proper: non-empty output, and error output. *)
Definition output_record (r : FcgiRecord) : Prop :=
  fits r ∧ (rec_type r = FCGI_STDOUT ∧ rec_data r ≠ [] ∨ rec_type r = FCGI_STDERR).

(** The end of a response: an empty output record or the end-of-request record
    (any type but output and error output). *)
Definition final_record (r : FcgiRecord) : Prop :=
  fits r ∧ (rec_type r = FCGI_STDOUT ∧ rec_data r = []
            ∨ rec_type r ≠ FCGI_STDOUT ∧ rec_type r ≠ FCGI_STDERR).

Lemma wire_cons id r recs s : wire id (r :: recs) ++ s = write_chunk (rec_type r) id (rec_data r) ++ wire id recs ++ s.
Proof. unfold wire. rewrite fmap_cons. cbn [concat]. by rewrite app_assoc. Qed.

Lemma read_wire id r recs s :
  fits r → read_fcgi (wire id (r :: recs) ++ s) = Some (r, wire id recs ++ s).
Proof. intros Hf. rewrite wire_cons, read_write_chunk by done. by destruct r. Qed.

Lemma wire_length id recs : (length recs ≤ length (wire id recs))%nat.
Proof.
  induction recs as [|r recs IH]; [done|]. unfold wire in *. rewrite fmap_cons. cbn [concat length].
  rewrite length_app. unfold write_chunk at 1.
  destruct (write_header_list (rec_type r) id (Z.of_nat (length (rec_data r)))
              (Z.of_nat (padding_of (length (rec_data r))))) as (i0 & i1 & ->).
  cbn [length app]. lia.
Qed.

Lemma stdout_of_cons r recs :
  stdout_of (r :: recs) = (if rec_type r =? FCGI_STDOUT then rec_data r else []) ++ stdout_of recs.
Proof.
  unfold stdout_of. rewrite filter_cons. destruct (Z.eqb_spec (rec_type r) FCGI_STDOUT) as [E|E].
  - by rewrite decide_True by done.
  - by rewrite decide_False by done.
Qed.

(** Before the blank line nothing is returned; at the record that completes
    it, the header text and the start of the body are. *)
Lemma headers_loop_wire id hdr body recs : ∀ buf fuel s,
  header_block hdr → Forall output_record recs →
  (length buf < length hdr + 4)%nat →
  buf ++ stdout_of recs = hdr ++ [CR; LF; CR; LF] ++ body → (length recs < fuel)%nat →
  ∃ recs2 b0, suffix recs2 recs ∧ b0 ++ stdout_of recs2 = body
    ∧ read_headers_loop fuel buf (wire id recs ++ s) = Some (hdr, b0, false, wire id recs2 ++ s).
Proof.
  induction recs as [|r recs IH]; intros buf fuel s Hb Hr Hlen Heq Hf.
  { unfold stdout_of in Heq. rewrite filter_nil in Heq. cbn in Heq. rewrite app_nil_r in Heq.
    apply (f_equal length) in Heq. rewrite !length_app in Heq. cbn in Heq. lia. }
  apply Forall_cons in Hr as [[Hfit Hty] Hr]. destruct fuel as [|fuel]; [lia|].
  cbn [read_headers_loop]. rewrite read_wire by done. rewrite stdout_of_cons in Heq.
  cbn [length] in Hf.
  destruct Hty as [[Hty Hne]|Hty]; rewrite Hty in Heq |- *.
  2:{ change (FCGI_STDERR =? FCGI_STDOUT) with false in *. cbn [app] in Heq. cbv iota.
      destruct (IH buf fuel s Hb Hr Hlen Heq) as (recs2 & b0 & Hs & Hq & ->); [lia|].
      exists recs2, b0. split; [|done]. by apply suffix_cons_r. }
  rewrite Z.eqb_refl in *. destruct (rec_data r) as [|x dt] eqn:Ed; [done|]. rewrite <- Ed in *. clear Ed.
  assert (Hpre : buf ++ rec_data r = take (length (buf ++ rec_data r)) (hdr ++ [CR; LF; CR; LF] ++ body)).
  { rewrite <- Heq, app_assoc, take_app_length. done. }
  assert (He : find_header_end (buf ++ rec_data r) = _) by (rewrite Hpre; by apply header_end_prefix).
  cbv zeta. rewrite He. clear He. rewrite app_assoc in Heq.
  case_decide as Hc.
  - exists recs, (drop (length hdr + 4) (buf ++ rec_data r)).
    split; [by apply suffix_cons_r|]. split.
    + rewrite <- drop_app_le by done. rewrite Heq, app_assoc.
      replace (length hdr + 4)%nat with (length (hdr ++ [CR; LF; CR; LF])) by (by rewrite length_app).
      by rewrite drop_app_length.
    + assert (Htk : take (length hdr) (buf ++ rec_data r) = hdr); [|by rewrite Htk].
      rewrite Hpre, take_take, Nat.min_l by lia. by rewrite take_app_length.
  - destruct (IH (buf ++ rec_data r) fuel s Hb Hr) as (recs2 & b0 & Hs & Hq & ->); [lia|done|lia|].
    exists recs2, b0. split; [|done]. by apply suffix_cons_r.
Qed.

Lemma body_loop_wire id recs fin : ∀ b0 fuel s,
  Forall output_record recs → final_record fin →
  Z.of_nat (length (b0 ++ stdout_of recs)) ≤ STREAM_LIMIT → (length recs < fuel)%nat →
  read_body_loop fuel b0 (wire id (recs ++ [fin]) ++ s) = (b0 ++ stdout_of recs, BodyDone, s).
Proof.
  induction recs as [|r recs IH]; intros b0 fuel s Hr [Hff Hfin] Hlim Hf.
  { destruct fuel as [|fuel]; [cbn in Hf; lia|]. cbn [app read_body_loop]. rewrite read_wire by done.
    change (stdout_of []) with (@nil Z). rewrite app_nil_r.
    destruct Hfin as [[-> ->]|[Hn1 Hn2]]; [done|].
    by rewrite (proj2 (Z.eqb_neq _ _) Hn1), (proj2 (Z.eqb_neq _ _) Hn2). }
  apply Forall_cons in Hr as [[Hfit Hty] Hr]. destruct fuel as [|fuel]; [cbn in Hf; lia|].
  rewrite stdout_of_cons in Hlim |- *. cbn [app read_body_loop length] in *. rewrite read_wire by done.
  destruct Hty as [[Hty Hne]|Hty]; rewrite Hty in Hlim |- *.
  2:{ apply IH; [done|by split|done|lia]. }
  rewrite Z.eqb_refl in *. destruct (rec_data r) as [|x dt] eqn:Ed; [done|]. rewrite <- Ed in *. clear Ed.
  cbv zeta. rewrite app_assoc in Hlim |- *.
  rewrite (proj2 (Z.ltb_ge _ _)) by (rewrite !length_app in *; lia).
  apply IH; [done|by split|done|lia].
Qed.

Lemma body_loop_eof id recs : ∀ b0 fuel,
  Forall output_record recs → Z.of_nat (length (b0 ++ stdout_of recs)) ≤ STREAM_LIMIT →
  (length recs < fuel)%nat → read_body_loop fuel b0 (wire id recs) = (b0 ++ stdout_of recs, BodyCut, []).
Proof.
  induction recs as [|r recs IH]; intros b0 fuel Hr Hl Hf.
  { destruct fuel; [cbn in Hf; lia|]. change (stdout_of []) with (@nil Z). by rewrite app_nil_r. }
  apply Forall_cons in Hr as [[Hfit Hty] Hr]. destruct fuel as [|fuel]; [cbn in Hf; lia|].
  rewrite stdout_of_cons in Hl |- *. cbn [read_body_loop length] in *.
  pose proof (read_wire id r recs [] Hfit) as Hread. rewrite !app_nil_r in Hread. rewrite Hread.
  destruct Hty as [[Hty Hne]|Hty]; rewrite Hty in Hl |- *; [|apply IH; [done|done|lia]].
  rewrite Z.eqb_refl in *. destruct (rec_data r) as [|x dt] eqn:Ed; [done|]. rewrite <- Ed in *. clear Ed.
  cbv zeta. rewrite app_assoc in Hl |- *. rewrite (proj2 (Z.ltb_ge _ _)) by (rewrite !length_app in *; lia).
  apply IH; [done|done|lia].
Qed.

(** Records left over from an earlier request (its end-of-request record) are
    skipped. *)
Lemma headers_loop_stale id stale : ∀ buf fuel s,
  Forall (λ r, fits r ∧ rec_type r ≠ FCGI_STDOUT) stale →
  read_headers_loop (length stale + fuel) buf (wire id stale ++ s) = read_headers_loop fuel buf s.
Proof.
  induction stale as [|r stale IH]; intros buf fuel s Hst; [done|].
  apply Forall_cons in Hst as [[Hfit Hty] Hst]. cbn [length Nat.add read_headers_loop].
  rewrite read_wire by done. rewrite (proj2 (Z.eqb_neq _ _) Hty). by apply IH.
Qed.

Lemma stdout_of_output hdr body recs :
  stdout_of recs = hdr ++ [CR; LF; CR; LF] ++ body → (length body ≤ length (stdout_of recs))%nat.
Proof. intros ->. rewrite !length_app. lia. Qed.

Lemma wire_app id a b : wire id (a ++ b) = wire id a ++ wire id b.
Proof. unfold wire. by rewrite fmap_app, concat_app. Qed.

Section reassembly.
Context `{L : HeaderLib} (from_utf8_lossy : list Z → list Z) (hvb : list Z → option (list Z)).

(** C5: A FastCGI response is reassembled exactly.  However the application
    cuts its output into records, with error output in between and with the
    end-of-request record of the previous exchange still unread on the kept
    connection, the client gets the parsed header block with exactly the body
    (up to 4 MiB), the cache is given the same when it takes the response, and the connection goes back to
    the pool positioned right after the record that ended the response. *)
Theorem fcgi_response_exact cache client silent id0 id stale recs fin hdr body rest :
  Forall (λ r, fits r ∧ rec_type r ≠ FCGI_STDOUT) stale →
  Forall output_record recs → final_record fin →
  header_block hdr → stdout_of recs = hdr ++ [CR; LF; CR; LF] ++ body →
  Z.of_nat (length body) ≤ STREAM_LIMIT →
  let '(status, headers) := parse_fcgi_headers (from_utf8_lossy hdr) in
  fcgi_exchange from_utf8_lossy hvb cache client silent (wire id0 stale ++ wire id (recs ++ [fin]) ++ rest)
  = FxOk (Complete (make_complete_response hvb status headers body)) (write_fcgi_cache cache status headers body) (Some rest).
Proof.
  intros Hst Hr Hfin Hb Heq Hlim. destruct (parse_fcgi_headers _) as [status headers] eqn:Ep.
  unfold fcgi_exchange. set (tot := wire id0 stale ++ _).
  assert (Hlen : (length stale + length recs < S (length tot))%nat).
  { unfold tot. rewrite wire_app, !length_app.
    pose proof (wire_length id0 stale). pose proof (wire_length id recs). lia. }
  replace (S (length tot)) with (length stale + (S (length tot) - length stale))%nat by lia.
  unfold tot at 2. rewrite headers_loop_stale by done. rewrite wire_app, <- app_assoc.
  destruct (headers_loop_wire id hdr body recs [] (S (length tot) - length stale) (wire id [fin] ++ rest))
    as (recs2 & b0 & [recs1 ->] & Hq & ->); [done|done|cbn; lia|done|lia|].
  rewrite Ep, app_assoc, <- wire_app. apply Forall_app in Hr as [_ Hr2].
  rewrite body_loop_wire; [by rewrite Hq|done|done|by rewrite Hq|].
  rewrite wire_app, !length_app. pose proof (wire_length id recs2). lia.
Qed.

(** A response cut off by a failing application is served and cached as a
    complete one.  When the stream ends in the middle of the body, without a
    closing record, the client gets the bytes received so far under a matching
    Content-Length, the cache stores them, and the dead connection is returned
    to the pool. *)
Theorem fcgi_truncation_accepted cache client id recs hdr body :
  Forall output_record recs → header_block hdr →
  stdout_of recs = hdr ++ [CR; LF; CR; LF] ++ body → Z.of_nat (length body) ≤ STREAM_LIMIT →
  let '(status, headers) := parse_fcgi_headers (from_utf8_lossy hdr) in
  fcgi_exchange from_utf8_lossy hvb cache client false (wire id recs)
  = FxOk (Complete (make_complete_response hvb status headers body)) (write_fcgi_cache cache status headers body) (Some []).
Proof.
  intros Hr Hb Heq Hlim. destruct (parse_fcgi_headers _) as [status headers] eqn:Ep.
  unfold fcgi_exchange. pose proof (wire_length id recs) as Hlen.
  destruct (headers_loop_wire id hdr body recs [] (S (length (wire id recs))) [])
    as (recs2 & b0 & [recs1 ->] & Hq & Hrun); [done|done|cbn; lia|done|lia|].
  rewrite app_nil_r in Hrun. rewrite Hrun, Ep. rewrite app_nil_r. apply Forall_app in Hr as [_ Hr2].
  rewrite body_loop_eof; [by rewrite Hq|done|by rewrite Hq|]. pose proof (wire_length id recs2). lia.
Qed.

End reassembly.

Section attempts_theorems.
Context `{L : HeaderLib} (from_utf8_lossy : list Z → list Z) (hvb : list Z → option (list Z)).

(** A dead idle connection does not fail a FastCGI request.  When the idle
    connection closes before it sends a response head, the whole pool of the address is
    dropped and the request is answered over a new connection, exactly as if there
    had been no idle connection; the request has then been sent twice. *)
Theorem fcgi_stale_connection_recovers cache client addr dead queue p fresh resp store kept :
  inner p !! addr = Some (FcgiTcp (mkApp dead false) :: queue) →
  fcgi_exchange from_utf8_lossy hvb cache client false dead = FxError →
  fcgi_exchange from_utf8_lossy hvb cache client (as_silent fresh) (as_data fresh) = FxOk resp store (Some kept) →
  0 < fcgi_max_idle p →
  ∃ p', fcgi_handle from_utf8_lossy hvb (λ _ _, Ok fresh) (λ _ _, Ok fresh) cache client addr false p
        = (FcgiAnswer resp, store, p', 2%nat)
    ∧ inner p' !! addr = Some [FcgiTcp (mkApp kept (as_silent fresh))].
Proof.
  intros Hp Hdead Hfresh Hmax. unfold fcgi_handle. cbn [fcgi_attempts Nat.eqb].
  unfold fcgi_acquire at 1. rewrite Hp. cbn [app_of as_silent as_data]. rewrite Hdead.
  unfold fcgi_acquire, fcgi_evict. cbn [inner set_inner]. rewrite lookup_delete_eq.
  cbn [fcgi_new_conn app_of]. rewrite Hfresh. eexists. split; [reflexivity|].
  unfold fcgi_release. cbn [inner set_inner fcgi_max_idle]. rewrite lookup_delete_eq. cbn [default length].
  rewrite (proj2 (Z.ltb_lt _ _)) by done. cbn [inner set_inner]. by rewrite lookup_insert_eq.
Qed.

End attempts_theorems.

(** ** The CGI environment *)

Definition fixed_names : list (list Z) :=
  lit <$> ["GATEWAY_INTERFACE"; "SERVER_SOFTWARE"; "SERVER_PROTOCOL"; "SERVER_NAME"; "SERVER_PORT";
           "REQUEST_METHOD"; "REQUEST_URI"; "DOCUMENT_URI"; "QUERY_STRING"; "DOCUMENT_ROOT";
           "SCRIPT_FILENAME"; "SCRIPT_NAME"; "PATH_INFO"; "PATH_TRANSLATED"; "REMOTE_ADDR"; "REMOTE_HOST";
           "REMOTE_PORT"; "CONTENT_TYPE"; "CONTENT_LENGTH"]%string.

Lemma cgi_fixed_names r : fst <$> cgi_fixed r = fixed_names.
Proof.
  unfold cgi_fixed. destruct (match rsplit_once byte_colon (f_host r) with Some hp => hp | None => _ end) as [sname sport].
  by destruct (script_of r) as [[? ?] ?].
Qed.

Lemma cgi_headers_http lossy r kv : kv ∈ cgi_headers lossy r → take 4 (fst kv) = lit "HTTP".
Proof.
  unfold cgi_headers. rewrite !elem_of_app, list_elem_of_fmap. intros [H|[H|[H|([k v] & -> & _)]]]; [| | |done].
  - destruct (f_https r); [|by apply elem_of_nil in H]. apply list_elem_of_singleton in H as ->. done.
  - destruct (f_host r); [by apply elem_of_nil in H|]. apply list_elem_of_singleton in H as ->. done.
  - destruct (http_cookie _ _); [by apply elem_of_nil in H|]. apply list_elem_of_singleton in H as ->. done.
Qed.

Lemma filter_key_unique {B} (l : list (list Z * B)) kv :
  NoDup (fst <$> l) → kv ∈ l → filter (λ kv', fst kv' = fst kv) l = [kv].
Proof.
  induction l as [|x l IH]; intros Hnd Hin; [by apply elem_of_nil in Hin|].
  rewrite fmap_cons in Hnd. apply NoDup_cons in Hnd as [Hx Hnd]. rewrite filter_cons.
  apply elem_of_cons in Hin as [->|Hin].
  - rewrite decide_True by done. f_equal. apply filter_none. intros y Hy E. apply Hx.
    rewrite <- E. by apply list_elem_of_fmap_2.
  - rewrite decide_False; [by apply IH|]. intros E. apply Hx. rewrite E. by apply list_elem_of_fmap_2.
Qed.

(** No request header overrides a variable of the server.  Each of the
    nineteen variables the server computes (SCRIPT_FILENAME, DOCUMENT_ROOT,
    REMOTE_ADDR, ...) is in the environment exactly once, with the computed
    value, whatever headers the client sends. *)
Theorem cgi_params_no_override lossy r kv :
  kv ∈ cgi_fixed r → filter (λ kv', fst kv' = fst kv) (cgi_params lossy r) = [kv].
Proof.
  intros Hin. unfold cgi_params. rewrite filter_app, filter_key_unique; [|rewrite cgi_fixed_names|done].
  2:{ apply (bool_decide_unpack _). by vm_compute. }
  rewrite filter_none; [done|]. intros y Hy%cgi_headers_http E.
  apply (list_elem_of_fmap_2 fst) in Hin. rewrite cgi_fixed_names in Hin. rewrite E in Hy.
  assert (Hall : Forall (λ k, take 4 k ≠ lit "HTTP") fixed_names) by (apply (bool_decide_unpack _); by vm_compute).
  rewrite Forall_forall in Hall. by apply (Hall _ Hin).
Qed.

(** The Proxy request header reaches the application as HTTP_PROXY.  The
    environment variable many HTTP client libraries take their proxy from is
    set from whatever the client sends. *)
Theorem proxy_header_forwarded lossy r v :
  (lit "proxy", v) ∈ f_headers r → (lit "HTTP_PROXY", lossy v) ∈ cgi_params lossy r.
Proof.
  intros Hin. unfold cgi_params, cgi_headers. rewrite !elem_of_app. do 4 right.
  apply list_elem_of_fmap. exists (lit "proxy", v). split; [done|].
  apply list_elem_of_filter. by split.
Qed.

(** ** Header text *)

(** The header block ends at a later CRLF blank line when there is an
    earlier LF one.  An application that ends its lines with LF alone and whose
    body contains an empty CRLF line has the start of its body parsed as
    header lines. *)
Theorem header_end_prefers_crlf hdr body1 body2 :
  find_crlfcrlf (hdr ++ [LF; LF] ++ body1 ++ [CR; LF; CR; LF]) = Some (length (hdr ++ [LF; LF] ++ body1)) →
  find_header_end (hdr ++ [LF; LF] ++ body1 ++ [CR; LF; CR; LF] ++ body2)
  = Some ((length (hdr ++ [LF; LF] ++ body1) + 4)%nat, length (hdr ++ [LF; LF] ++ body1)).
Proof.
  intros H. unfold find_header_end. apply (find_crlfcrlf_app _ body2) in H. rewrite <- !app_assoc in H.
  by rewrite H.
Qed.

Module Witness.

Import Headers.Model.

Definition hdr : list Z := lit "Status: 404 Not Found" ++ [CR; LF] ++ lit "Content-Type: text/plain".
Definition recs : list FcgiRecord :=
  [mkRecord FCGI_STDOUT (take 10 hdr); mkRecord FCGI_STDERR (lit "warning");
   mkRecord FCGI_STDOUT (drop 10 hdr ++ [CR; LF]); mkRecord FCGI_STDOUT ([CR; LF] ++ lit "he");
   mkRecord FCGI_STDOUT (lit "llo")].

Lemma recs_output : Forall output_record recs.
Proof.
  repeat (apply Forall_cons; split; [split; [by vm_compute|]|]); [..|constructor]; try (by left); by right.
Qed.

Lemma record_roundtrip_witness :
  read_many 1 (write_fcgi_record FCGI_STDIN 1 (lit "abc") ++ lit "x") = Some ([mkRecord FCGI_STDIN (lit "abc")], lit "x").
Proof. apply (record_roundtrip FCGI_STDIN 1 (lit "abc") (lit "x")). done. Defined.

Lemma nv_roundtrip_witness :
  decode_nv 2 (concat ((λ '(k, v), encode_nv_pair k v) <$> [(lit "A", replicate 200 65)]))
  = Some [(lit "A", replicate 200 65)].
Proof. apply (nv_roundtrip [(lit "A", replicate 200 65)]). repeat constructor. Defined.

Definition pc : ProxyCache := mkProxyCache ∅ ∅ 10 (60 * SEC) [404] [lit "GET"] [] None false false.
Definition end_rec : FcgiRecord := mkRecord 3 (replicate 8 0).
Definition hs : list (list Z * list Z) := [(lit "Content-Type", lit "text/plain")].

Lemma fcgi_response_exact_witness :
  fcgi_exchange id Some (Some pc) (λ _, true) true
    (wire 1 [end_rec] ++ wire 1 (recs ++ [mkRecord FCGI_STDOUT []]) ++ wire 1 [end_rec])
  = FxOk (Complete (make_complete_response Some 404 hs (lit "hello"))) (Some (404, hs, lit "hello"))
      (Some (wire 1 [end_rec])).
Proof.
  apply (fcgi_response_exact id Some (Some pc) (λ _, true) true 1 1 [end_rec] recs (mkRecord FCGI_STDOUT []) hdr (lit "hello")).
  - apply Forall_singleton. by split; vm_compute.
  - apply recs_output.
  - split; [by vm_compute|by left].
  - by split; vm_compute.
  - by vm_compute.
  - by vm_compute.
Defined.

Lemma fcgi_truncation_accepted_witness :
  fcgi_exchange id Some (Some pc) (λ _, true) false (wire 1 (take 4 recs))
  = FxOk (Complete (make_complete_response Some 404 hs (lit "he"))) (Some (404, hs, lit "he")) (Some []).
Proof.
  apply (fcgi_truncation_accepted id Some (Some pc) (λ _, true) 1 (take 4 recs) hdr (lit "he")).
  - apply Forall_take, recs_output.
  - by split; vm_compute.
  - by vm_compute.
  - by vm_compute.
Defined.

Lemma fcgi_stale_connection_recovers_witness :
  ∃ p', fcgi_handle id Some (λ _ _, Ok (mkApp (wire 1 (recs ++ [end_rec])) true)) (λ _ _, Ok (mkApp (wire 1 (recs ++ [end_rec])) true))
          None (λ _, true) (lit "a") false (mkFcgiPool {[lit "a" := [FcgiTcp (mkApp [] false)]]} 8 1 1)
        = (FcgiAnswer (Complete (make_complete_response Some 404 hs (lit "hello"))), None, p', 2%nat)
    ∧ inner p' !! lit "a" = Some [FcgiTcp (mkApp [] true)].
Proof.
  apply (fcgi_stale_connection_recovers id Some None (λ _, true) (lit "a") [] []
    (mkFcgiPool {[lit "a" := [FcgiTcp (mkApp [] false)]]} 8 1 1) (mkApp (wire 1 (recs ++ [end_rec])) true)).
  - reflexivity.
  - reflexivity.
  - reflexivity.
  - reflexivity.
Defined.

Definition req : FcgiReq :=
  mkFcgiReq (lit "GET") (lit "/a.php/x") None (lit "/a.php/x") (lit "h:8080") false (lit "/srv/") None
    [(lit "proxy", lit "http://evil"); (lit "script-filename", lit "/etc/passwd")] [] [] (lit "1.2.3.4") 5555 (lit "1").

Lemma cgi_params_no_override_witness :
  filter (λ kv', fst kv' = lit "SCRIPT_FILENAME") (cgi_params id req) = [(lit "SCRIPT_FILENAME", lit "/srv/a.php")].
Proof.
  apply (cgi_params_no_override id req (lit "SCRIPT_FILENAME", lit "/srv/a.php")).
  apply (bool_decide_unpack _). by vm_compute.
Defined.

Lemma proxy_header_forwarded_witness : (lit "HTTP_PROXY", lit "http://evil") ∈ cgi_params id req.
Proof. apply (proxy_header_forwarded id req). apply (bool_decide_unpack _). by vm_compute. Defined.

Lemma header_end_prefers_crlf_witness :
  find_header_end (lit "A: b" ++ [LF; LF] ++ lit "body" ++ [CR; LF; CR; LF] ++ lit "more") = Some (14%nat, 10%nat).
Proof. apply (header_end_prefers_crlf (lit "A: b") (lit "body") (lit "more")). by vm_compute. Defined.

End Witness.
