(* ===== verification/Location.v ===== *)
(** * Location matching: [src/dispatcher/location.rs] and the ordering of
    [SiteInfo::from_config] in [src/dispatcher/vhost.rs]

    A site's locations are compiled and sorted when the site is registered,
    and searched in three rounds for every request.  The regex engine is a
    parameter: [build] compiles a pattern, [is_match] searches a text. *)

From S2P Require Import Prelude RustStr AccessControl Headers.

Inductive HandlerType := Static | Fastcgi | Websocket | ReverseProxy | Grpc | Plugin (name : list Z).

#[export] Instance HandlerType_eq_dec : EqDecision HandlerType.
Proof. solve_decision. Defined.

(** The parts of [LocationConfig] that matching and routing use. *)
Record LocationConfig := mkLocation {
  lc_path : list Z;
  lc_handler : HandlerType;
  lc_root : option (list Z);
  lc_cache_control : option (list Z);
  lc_return_code : option Z;
  lc_return_url : option (list Z);
  lc_return_body : option (list Z);
  lc_return_content_type : option (list Z);
  lc_limit_conn : Z;
  lc_access_rules : list AccessRule;
  lc_auth_request : option (list Z);
  lc_auth_failure_status : Z;
  lc_auth_request_headers : list HeaderOverride;
  lc_try_files : list (list Z);
  lc_upstream : option (list Z);
}.

(** [LocationConfig::default] with a path. *)
Definition default_location (path : list Z) : LocationConfig :=
  mkLocation path Static None None None None None None 0 [] None 401 [] [] None.

Section location.
Context {R : Type} (build : list Z → option R) (is_match : R → list Z → bool).

Inductive LocationKind :=
| KExact (p : list Z)
| KPrefixPriority (p : list Z)
| KRegex (re : R)
| KPrefix.

Record CompiledLocation := mkCompiled {
  cl_config : LocationConfig;
  cl_kind : LocationKind;
  cl_regex : option R;
  cl_counter : nat;                 (* the shared counter [conn_count], by identity *)
  cl_limit_conn : Z;
  cl_access_rules : list CompiledAccessRule;
}.

Definition regex_kind (re : option R) : LocationKind :=
  match re with Some r => KRegex r | None => KPrefix end.

(** [CompiledLocation::new] *)
Definition location_kind (path : list Z) : LocationKind * option R :=
  match strip_prefix (lit "~* ") path with
  | Some p => let re := build (lit "(?i)" ++ p) in (regex_kind re, re)
  | None =>
      match strip_prefix (lit "~ ") path with
      | Some p => let re := build p in (regex_kind re, re)
      | None =>
          match strip_prefix (lit "= ") path with
          | Some p => (KExact p, None)
          | None =>
              match strip_prefix (lit "^~ ") path with
              | Some p => (KPrefixPriority p, None)
              | None => (KPrefix, None)
              end
          end
      end
  end.

Definition compile_location (counter : nat) (cfg : LocationConfig) : CompiledLocation :=
  let '(kind, regex) := location_kind (lc_path cfg) in
  mkCompiled cfg kind regex counter (lc_limit_conn cfg) (compile_rules (lc_access_rules cfg)).

(** [location_priority] *)
Definition location_priority (path : list Z) : Z :=
  if starts_with (lit "= ") path then 1
  else if starts_with (lit "^~ ") path then 2
  else if starts_with (lit "~ ") path || starts_with (lit "~* ") path then 3
  else 4.

(** The locations of [SiteInfo::from_config]: a site with a root and no
    location gets the location [/]. *)
Definition site_locations (has_root : bool) (cfgs : list LocationConfig) : list CompiledLocation :=
  let effective := if bool_decide (cfgs = []) && has_root then [default_location (lit "/")] else cfgs in
  sort_by_key (λ cl, location_priority (lc_path (cl_config cl))) (imap compile_location effective).

(** [match_location] *)
Definition first_round (path : list Z) (cl : CompiledLocation) : bool :=
  match cl_kind cl with
  | KExact p => str_eqb p path
  | KPrefixPriority p => starts_with p path
  | _ => false
  end.

Definition regex_round (path : list Z) (cl : CompiledLocation) : bool :=
  match cl_kind cl with KRegex re => is_match re path | _ => false end.

Definition prefix_round (path : list Z) (cl : CompiledLocation) : bool :=
  match cl_kind cl with KPrefix => starts_with (lc_path (cl_config cl)) path | _ => false end.

Fixpoint longest_prefix (path : list Z) (best : option (CompiledLocation * nat)) (l : list CompiledLocation)
  : option (CompiledLocation * nat) :=
  match l with
  | [] => best
  | cl :: l =>
      let best :=
        if prefix_round path cl then
          let len := length (lc_path (cl_config cl)) in
          match best with
          | Some (_, bl) => if (bl <? len)%nat then Some (cl, len) else best
          | None => Some (cl, len)
          end
        else best in
      longest_prefix path best l
  end.

Definition match_location (locations : list CompiledLocation) (path : list Z) : option CompiledLocation :=
  match find_first (first_round path) locations with
  | Some cl => Some cl
  | None =>
      match find_first (regex_round path) locations with
      | Some cl => Some cl
      | None => fst <$> longest_prefix path None locations
      end
  end.

(** ** What matching promises *)

(** A location applies to a path, by its kind. *)
Definition applies (path : list Z) (cl : CompiledLocation) : bool :=
  first_round path cl || regex_round path cl || prefix_round path cl.

(** Exact, then [^~], then regular expressions, then prefixes. *)
Definition rank (cl : CompiledLocation) : Z :=
  match cl_kind cl with KExact _ => 1 | KPrefixPriority _ => 2 | KRegex _ => 3 | KPrefix => 4 end.

Lemma longest_prefix_spec path l : ∀ best,
  match longest_prefix path best l with
  | Some (cl, n) =>
      (best = Some (cl, n) ∨ cl ∈ l ∧ prefix_round path cl = true ∧ n = length (lc_path (cl_config cl)))
      ∧ (∀ c m, best = Some (c, m) → (m ≤ n)%nat)
      ∧ (∀ c, c ∈ l → prefix_round path c = true → (length (lc_path (cl_config c)) ≤ n)%nat)
  | None => best = None ∧ ∀ c, c ∈ l → prefix_round path c = false
  end.
Proof.
  induction l as [|x l IH]; intros best; cbn [longest_prefix].
  { destruct best as [[cl n]|].
    - split; [by left|]. split; [intros ? ? [= <- <-]; lia|]. intros c H. by apply elem_of_nil in H.
    - split; [done|]. intros c H. by apply elem_of_nil in H. }
  set (b := if prefix_round path x then _ else best). specialize (IH b).
  assert (Hb : (b = best ∧ (prefix_round path x = false ∨ ∃ c m, best = Some (c, m) ∧ (length (lc_path (cl_config x)) ≤ m)%nat))
             ∨ (b = Some (x, length (lc_path (cl_config x))) ∧ prefix_round path x = true
                ∧ ∀ c m, best = Some (c, m) → (m ≤ length (lc_path (cl_config x)))%nat)).
  { unfold b. destruct (prefix_round path x) eqn:Ex; [|by left; auto].
    destruct best as [[c m]|]; [|right; split_and!; [done..|intros ? ? [=]]].
    destruct (Nat.ltb_spec m (length (lc_path (cl_config x)))).
    - right. split_and!; [done..|]. intros ? ? [= <- <-]. lia.
    - left. split; [done|]. right. exists c, m. done. }
  destruct (longest_prefix path b l) as [[cl n]|].
  - destruct IH as (H1 & H2 & H3). destruct Hb as [[Hb Hx]|(Hb & Hx & Hm)].
    + rewrite Hb in H1, H2. split_and!; [destruct H1 as [?|(? & ? & ?)]; [by left|right; set_solver]|done|].
      intros c [->|Hc]%elem_of_cons Hp; [|by apply H3]. destruct Hx as [Hx|(c' & m & Hbm & Hle)]; [congruence|].
      pose proof (H2 _ _ Hbm). lia.
    + rewrite Hb in H1, H2. pose proof (H2 _ _ eq_refl) as Hn. split_and!.
      * right. destruct H1 as [[= <- <-]|(? & ? & ?)]; set_solver.
      * intros c m Hc. pose proof (Hm _ _ Hc). lia.
      * intros c [->|Hc]%elem_of_cons Hp; [done|by apply H3].
  - destruct IH as [Hbn Hl]. destruct Hb as [[Hb Hx]|(Hb & _)]; [|congruence].
    rewrite Hb in Hbn. split; [done|]. intros c [->|Hc]%elem_of_cons; [|by apply Hl].
    destruct Hx as [?|(? & ? & ? & _)]; [done|congruence].
Qed.

(** Of the longest prefixes the first one met is kept. *)
Lemma longest_prefix_first path l best cl n :
  longest_prefix path best l = Some (cl, n) →
  best = Some (cl, n)
  ∨ find_first (λ c, prefix_round path c && (length (lc_path (cl_config c)) =? n)%nat) l = Some cl
    ∧ ∀ c m, best = Some (c, m) → (m < n)%nat.
Proof.
  revert best; induction l as [|x l IH]; intros best; cbn [longest_prefix find_first]; [by left|].
  destruct (prefix_round path x) eqn:Ex; cbn [andb]; [|apply IH].
  set (b := match best with Some (_, bl) => _ | None => _ end). intros H.
  pose proof (longest_prefix_spec path l b) as Hm. rewrite H in Hm. destruct Hm as (_ & Hm & _).
  destruct best as [[c m]|]; unfold b in *.
  - destruct (Nat.ltb_spec m (length (lc_path (cl_config x)))) as [Hlt|Hge].
    + pose proof (Hm _ _ eq_refl) as Hn. destruct (IH _ H) as [[= <- <-]|[Hf Hb]]; right.
      * rewrite Nat.eqb_refl. split; [done|]. by intros ? ? [= <- <-].
      * specialize (Hb _ _ eq_refl). rewrite (proj2 (Nat.eqb_neq _ _)) by lia. split; [done|]. intros ? ? [= <- <-]. lia.
    + destruct (IH _ H) as [?|[Hf Hb]]; [by left|right]. specialize (Hb _ _ eq_refl) as Hb'.
      rewrite (proj2 (Nat.eqb_neq _ _)) by lia. split; [done|]. intros ? ? [= <- <-]. lia.
  - right. split; [|done]. destruct (IH _ H) as [[= <- <-]|[Hf Hb]]; [by rewrite Nat.eqb_refl|].
    specialize (Hb _ _ eq_refl). by rewrite (proj2 (Nat.eqb_neq _ _)) by lia.
Qed.

(** The kind is the one its path announces, with its priority. *)
Lemma location_kind_priority path :
  match fst (location_kind path) with
  | KExact _ => location_priority path = 1
  | KPrefixPriority _ => location_priority path = 2
  | KRegex _ => location_priority path = 3
  | KPrefix => True
  end.
Proof.
  unfold location_kind.
  destruct (strip_prefix (lit "~* ") path) as [p|] eqn:E1.
  { apply strip_prefix_Some in E1 as ->. cbv zeta. cbn [fst]. by destruct (build _). }
  destruct (strip_prefix (lit "~ ") path) as [p|] eqn:E2.
  { apply strip_prefix_Some in E2 as ->. cbv zeta. cbn [fst]. by destruct (build _). }
  destruct (strip_prefix (lit "= ") path) as [p|] eqn:E3; [by apply strip_prefix_Some in E3 as ->|].
  destruct (strip_prefix (lit "^~ ") path) as [p|] eqn:E4; [by apply strip_prefix_Some in E4 as ->|done].
Qed.

Definition priority (cl : CompiledLocation) : Z := location_priority (lc_path (cl_config cl)).
Definition compiled (cl : CompiledLocation) : Prop := cl = compile_location (cl_counter cl) (cl_config cl).

Lemma compile_compiled i cfg : compiled (compile_location i cfg).
Proof.
  assert (E : cl_config (compile_location i cfg) = cfg ∧ cl_counter (compile_location i cfg) = i).
  { unfold compile_location. by destruct (location_kind _). }
  unfold compiled. by rewrite (proj1 E), (proj2 E).
Qed.

Lemma imap_compiled cfgs cl : cl ∈ imap compile_location cfgs → compiled cl.
Proof.
  intros [i Hi]%list_elem_of_lookup. rewrite list_lookup_imap in Hi.
  destruct (cfgs !! i); [|done]. injection Hi as <-. apply compile_compiled.
Qed.

Lemma rank_priority cl : compiled cl → rank cl ≤ 3 → priority cl = rank cl.
Proof.
  intros Hc.
  assert (Hk : cl_kind cl = fst (location_kind (lc_path (cl_config cl)))).
  { unfold compiled in Hc. rewrite Hc at 1. unfold compile_location. by destruct (location_kind _). }
  unfold rank, priority. rewrite Hk. pose proof (location_kind_priority (lc_path (cl_config cl))) as H.
  destruct (fst (location_kind _)); [done..|lia].
Qed.

Lemma applies_rank path cl :
  first_round path cl = applies path cl && (rank cl <=? 2)
  ∧ regex_round path cl = applies path cl && (rank cl =? 3) ∧ prefix_round path cl = applies path cl && (rank cl =? 4).
Proof.
  unfold applies, first_round, regex_round, prefix_round, rank. destruct (cl_kind cl); cbn;
    rewrite ?orb_false_r, ?andb_true_r, ?andb_false_r; done.
Qed.

Lemma find_first_ext {A} (p q : A → bool) l : (∀ x, x ∈ l → p x = q x) → find_first p l = find_first q l.
Proof.
  induction l as [|x l IH]; intros H; cbn [find_first]; [done|].
  rewrite (H x) by set_solver. rewrite IH by set_solver. done.
Qed.

Lemma find_first_filter {A} (P : A → Prop) `{!∀ x, Decision (P x)} (p : A → bool) l :
  (∀ x, p x = true → P x) → find_first p (filter P l) = find_first p l.
Proof.
  intros Hp. induction l as [|x l IH]; [by rewrite filter_nil|]. rewrite filter_cons. cbn [find_first].
  case_decide as Hx; cbn [find_first]; rewrite IH; [done|].
  destruct (p x) eqn:E; [|done]. destruct Hx. by apply Hp.
Qed.

(** Among the entries of one key, sorting keeps the order. *)
Lemma find_first_sorted_key {A} (key : A → Z) (p : A → bool) k l :
  (∀ x, p x = true → key x = k) → find_first p (sort_by_key key l) = find_first p l.
Proof.
  intros Hp. rewrite <- (find_first_filter (λ x, key x = k) p (sort_by_key key l)) by done.
  by rewrite sort_by_key_stable, find_first_filter.
Qed.

Lemma find_first_weaken {A} (p q : A → bool) l x :
  find_first p l = Some x → q x = true → (∀ y, y ∈ l → q y = true → p y = true) → find_first q l = Some x.
Proof.
  induction l as [|y l IH]; cbn [find_first]; [done|]. intros Hp Hq Hqp.
  destruct (q y) eqn:Eq.
  - rewrite (Hqp y) in Hp by set_solver. done.
  - destruct (p y) eqn:Ep; [injection Hp as ->; congruence|]. apply IH; [done|done|set_solver].
Qed.

(** The first of a sorted list has the least key. *)
Lemma find_first_least {A} (key : A → Z) (p : A → bool) l x y :
  find_first p (sort_by_key key l) = Some x → y ∈ sort_by_key key l → p y = true → key x ≤ key y.
Proof.
  intros (l1 & l2 & E & Hx & Hl1)%find_first_Some Hy Hp. pose proof (sort_by_key_sorted key l) as Hs.
  rewrite E in Hs, Hy. apply elem_of_app in Hy as [Hy|Hy].
  - rewrite Forall_forall in Hl1. rewrite (Hl1 y Hy) in Hp. done.
  - apply elem_of_cons in Hy as [->|Hy]; [done|].
    apply list_elem_of_lookup in Hy as [j Hj].
    apply (Hs (length l1) (length l1 + S j)%nat); [lia| |].
    + rewrite lookup_app_r by lia. by rewrite Nat.sub_diag.
    + rewrite lookup_app_r by lia. by replace (length l1 + S j - length l1)%nat with (S j) by lia.
Qed.

Definition configured (has_root : bool) (cfgs : list LocationConfig) : list CompiledLocation :=
  imap compile_location (if bool_decide (cfgs = []) && has_root then [default_location (lit "/")] else cfgs).

Lemma configured_compiled has_root cfgs cl :
  cl ∈ site_locations has_root cfgs → cl ∈ configured has_root cfgs ∧ compiled cl.
Proof.
  unfold site_locations. rewrite sort_by_key_perm. intros H. split; [done|].
  by apply imap_compiled in H.
Qed.

(** One round of the search over locations of rank at most three. *)
Lemma round_first has_root cfgs path p cl :
  find_first p (site_locations has_root cfgs) = Some cl →
  (∀ c, c ∈ site_locations has_root cfgs → applies path c = true → rank c = rank cl → p c = true) →
  applies path cl = true → rank cl ≤ 3 →
  find_first (λ c, applies path c && (rank c =? rank cl)) (configured has_root cfgs) = Some cl.
Proof.
  intros Hf Hp Ha Hr.
  assert (Hin : ∀ c, c ∈ site_locations has_root cfgs → compiled c) by (intros c Hc; by apply configured_compiled in Hc as []).
  pose proof (find_first_weaken p (λ c, applies path c && (rank c =? rank cl) && (priority c =? rank cl)) _ cl Hf) as H.
  assert (Hcl : cl ∈ site_locations has_root cfgs) by (by apply find_first_elem in Hf as []).
  unfold site_locations in H.
  change (λ cl0, location_priority (lc_path (cl_config cl0))) with priority in H.
  rewrite (find_first_sorted_key priority _ (rank cl)) in H by (intros x Hx; zbool; lia).
  rewrite <- H.
  - apply find_first_ext. intros c Hc. destruct (applies path c) eqn:Ea; [|done]. cbn [andb].
    destruct (Z.eqb_spec (rank c) (rank cl)) as [E|]; [|done]. cbn [andb].
    assert (Hcc : compiled c) by (by apply imap_compiled in Hc).
    symmetry. apply Z.eqb_eq. rewrite rank_priority by (done || lia). done.
  - rewrite Ha, Z.eqb_refl. cbn [andb]. apply Z.eqb_eq. apply rank_priority; [by apply Hin|done].
  - intros c Hc Hq. zbool. apply Hp; [done|done|lia].
Qed.

(** The first round finds a location of the least rank. *)
Lemma first_round_found has_root cfgs path cl :
  find_first (first_round path) (site_locations has_root cfgs) = Some cl →
  cl ∈ configured has_root cfgs ∧ applies path cl = true
  ∧ (∀ c, c ∈ configured has_root cfgs → applies path c = true → rank cl ≤ rank c)
  ∧ rank cl ≠ 4
  ∧ find_first (λ c, applies path c && (rank c =? rank cl)) (configured has_root cfgs) = Some cl.
Proof.
  intros E1. destruct (find_first_elem _ _ _ E1) as [Hin H1]. destruct (applies_rank path cl) as [Hf _].
  rewrite H1 in Hf. symmetry in Hf. apply andb_true_iff in Hf as [Ha Hr%Z.leb_le].
  split_and!; [by apply configured_compiled in Hin as []|done| |lia|].
  - intros c Hc Hac. destruct (Z.leb_spec (rank c) 2) as [Hc2|]; [|lia].
    assert (Hcs : c ∈ site_locations has_root cfgs) by (unfold site_locations; by rewrite sort_by_key_perm).
    assert (Hfc : first_round path c = true).
    { rewrite (proj1 (applies_rank path c)), Hac. apply Z.leb_le. lia. }
    pose proof (find_first_least priority _ _ _ _ E1 Hcs Hfc) as Hp.
    rewrite !rank_priority in Hp by (try lia; by apply configured_compiled in Hin as [], Hcs as []). done.
  - apply (round_first has_root cfgs path _ _ E1); [|done|lia].
    intros c Hc Hac Hrc. rewrite (proj1 (applies_rank path c)), Hac. apply Z.leb_le. lia.
Qed.

(** Equally long prefixes of a path are the same text and keep their order under sorting. *)
Lemma earliest_longest has_root cfgs path cl :
  longest_prefix path None (site_locations has_root cfgs) = Some (cl, length (lc_path (cl_config cl))) →
  (∀ c, c ∈ configured has_root cfgs → applies path c = true → prefix_round path c = true) →
  find_first (λ c, applies path c && (length (lc_path (cl_config c)) =? length (lc_path (cl_config cl)))%nat)
    (configured has_root cfgs) = Some cl.
Proof.
  intros El Hp. apply longest_prefix_first in El as [?|[El _]]; [done|].
  pose proof (find_first_elem _ _ _ El) as [_ [Hcl _]%andb_true_iff].
  unfold site_locations in El. rewrite (find_first_sorted_key _ _ (priority cl)) in El.
  - rewrite <- El. apply find_first_ext. intros c Hc. destruct (applies path c) eqn:Ea; [by rewrite Hp|].
    destruct (prefix_round path c) eqn:Ep; [|done]. unfold applies in Ea. by rewrite Ep, !orb_true_r in Ea.
  - intros c [Hc Hn]%andb_true_iff. apply Nat.eqb_eq in Hn. unfold priority. f_equal.
    unfold prefix_round in Hc, Hcl. destruct (cl_kind c); try done. destruct (cl_kind cl); try done.
    apply starts_with_spec in Hc as [r1 H1], Hcl as [r2 H2]. rewrite H1 in H2. by apply app_inj_1 in H2 as [? _].
Qed.

(** C19: Locations are chosen by precedence.  For the locations of a site in any
    configuration order and any path, the location returned applies to the path and no
    applicable location has higher precedence (exact, then [^~], then regular expression,
    then prefix); of the first three kinds it is the earliest of its kind in the
    configuration, of prefixes it is the longest and of equally long ones the earliest; and when
    nothing is returned, nothing applies.  For [^~] this is the code's rule and not Nginx's, which
    takes the longest ([caret_file_order]); a regular expression that does not compile counts as
    a prefix. *)
Theorem location_precedence has_root cfgs path :
  match match_location (site_locations has_root cfgs) path with
  | Some cl =>
      cl ∈ configured has_root cfgs ∧ applies path cl = true
      ∧ (∀ c, c ∈ configured has_root cfgs → applies path c = true → rank cl ≤ rank c)
      ∧ (if rank cl =? 4
         then (∀ c, c ∈ configured has_root cfgs → applies path c = true →
                    (length (lc_path (cl_config c)) ≤ length (lc_path (cl_config cl)))%nat)
              ∧ find_first (λ c, applies path c && (length (lc_path (cl_config c)) =? length (lc_path (cl_config cl)))%nat)
                  (configured has_root cfgs) = Some cl
         else find_first (λ c, applies path c && (rank c =? rank cl)) (configured has_root cfgs) = Some cl)
  | None => ∀ c, c ∈ configured has_root cfgs → applies path c = false
  end.
Proof.
  unfold match_location. set (ls := site_locations has_root cfgs).
  assert (Hls : ∀ c, c ∈ configured has_root cfgs → c ∈ ls).
  { intros c Hc. unfold ls, site_locations. by rewrite sort_by_key_perm. }
  assert (Hcf : ∀ c, c ∈ ls → c ∈ configured has_root cfgs) by (intros c Hc; by apply configured_compiled in Hc as []).
  assert (Hr14 : ∀ c : CompiledLocation, 1 ≤ rank c ≤ 4) by (intros c; unfold rank; destruct (cl_kind c); lia).
  destruct (find_first (first_round path) ls) as [cl|] eqn:E1.
  { destruct (first_round_found _ _ _ _ E1) as (? & ? & ? & Hn & ?). by rewrite (proj2 (Z.eqb_neq _ _) Hn). }
  rewrite find_first_None, Forall_forall in E1.
  assert (H3 : ∀ c, c ∈ ls → applies path c = true → 3 ≤ rank c).
  { intros c Hc Hac. specialize (E1 c Hc). rewrite (proj1 (applies_rank path c)), Hac in E1.
    apply Z.leb_gt in E1. lia. }
  destruct (find_first (regex_round path) ls) as [cl|] eqn:E2.
  { destruct (find_first_elem _ _ _ E2) as [Hin H1]. destruct (applies_rank path cl) as (_ & Hf & _).
    rewrite H1 in Hf. symmetry in Hf. apply andb_true_iff in Hf as [Ha Hr%Z.eqb_eq].
    split_and!; [by apply Hcf|done|intros c Hc Hac; pose proof (H3 c (Hls c Hc) Hac); lia|].
    rewrite (proj2 (Z.eqb_neq _ _)) by lia. apply (round_first has_root cfgs path _ _ E2); [|done|lia].
    intros c Hc Hac Hrc. rewrite (proj1 (proj2 (applies_rank path c))), Hac. apply Z.eqb_eq. lia. }
  rewrite find_first_None, Forall_forall in E2.
  assert (H4 : ∀ c, c ∈ ls → applies path c = true → prefix_round path c = true ∧ rank c = 4).
  { intros c Hc Hac. specialize (E2 c Hc). destruct (applies_rank path c) as (_ & Hx & Hy).
    rewrite Hx, Hac in E2. apply Z.eqb_neq in E2. pose proof (H3 c Hc Hac). pose proof (Hr14 c).
    assert (rank c = 4) by lia. rewrite Hy, Hac. split; [by apply Z.eqb_eq|done]. }
  pose proof (longest_prefix_spec path ls None) as Hl. destruct (longest_prefix path None ls) as [[cl n]|] eqn:El; cbn [fmap option_fmap option_map fst].
  - destruct Hl as ([[=]|(Hin & Hp & ->)] & _ & Hmax).
    assert (Ha : applies path cl = true) by (unfold applies; rewrite Hp; by rewrite !orb_true_r).
    split_and!; [by apply Hcf|done|intros c Hc Hac; destruct (H4 c) as [_ ->]; auto; apply Hr14|].
    destruct (H4 cl Hin Ha) as [_ ->]. cbn [Z.eqb].
    split; [intros c Hc Hac; apply Hmax; [auto|]; apply H4; auto|].
    apply (earliest_longest has_root cfgs path cl El). intros c Hc Hac. apply H4; auto.
  - destruct Hl as [_ Hl]. intros c Hc. destruct (applies path c) eqn:Hac; [|done].
    destruct (H4 c) as [Hp _]; [auto|done|]. rewrite Hl in Hp by auto. done.
Qed.

(** Of two [^~] prefixes the first in the file is taken, although the other is longer. *)
Theorem caret_file_order has_root c1 c2 p q rest :
  lc_path c1 = lit "^~ " ++ p → lc_path c2 = lit "^~ " ++ p ++ q →
  match_location (site_locations has_root [c1; c2]) (p ++ q ++ rest) = Some (compile_location 0 c1).
Proof.
  intros H1 H2. unfold match_location, site_locations.
  assert (Hk : ∀ n c s, lc_path c = lit "^~ " ++ s → compile_location n c
            = mkCompiled c (KPrefixPriority s) None n (lc_limit_conn c) (compile_rules (lc_access_rules c)))
    by (intros n c s H; unfold compile_location; by rewrite H).
  rewrite bool_decide_false by done. cbn [andb imap].
  unfold compose. rewrite (Hk _ c1 p H1), (Hk _ c2 (p ++ q) H2). cbn [sort_by_key insert_by_key cl_config].
  rewrite H1, H2. change (location_priority (lit "^~ " ++ p)) with 2. change (location_priority (lit "^~ " ++ p ++ q)) with 2.
  cbn [Z.leb Z.compare Pos.compare Pos.compare_cont find_first first_round cl_kind]. by rewrite starts_with_app.
Qed.

End location.
