(* ===== verification/Rewrite.v ===== *)
(** * Rewrite rules: [src/dispatcher/rewrite.rs], and their use in
    [src/server/router.rs]

    The cache of file metadata, the conditions of a rule, the substitution of
    capture groups and the rule loop.  The regex engine is a parameter
    ([is_match], [captures]); the file system is a function of time. *)

From S2P Require Import Prelude RustStr.

(** ** File metadata *)

Record FileMeta := mkMeta { fm_is_file : bool; fm_is_dir : bool; fm_executable : bool }.

(** [std::fs::metadata] at one moment: [None] is an error. *)
Definition FileSystem : Type := list Z → option FileMeta.

Record CachedMeta := mkCached {
  cm_exists : bool;
  cm_is_file : bool;
  cm_is_dir : bool;
  cm_is_executable : bool;
  cm_cached_at : Z;                     (* nanoseconds *)
}.

Definition POSITIVE_TTL_SECS : Z := 5.
Definition NEGATIVE_TTL_SECS : Z := 1.
Definition CLEANUP_THRESHOLD : Z := 50000.
Definition CLEANUP_INTERVAL : Z := 1024.

Definition as_secs (ns : Z) : Z := ns / 1000000000.

(** [stat_uncached] *)
Definition stat_uncached (fs : FileSystem) (now : Z) (path : list Z) : CachedMeta :=
  match fs path with
  | Some m => mkCached true (fm_is_file m) (fm_is_dir m) (fm_executable m) now
  | None => mkCached false false false false now
  end.

Definition meta_ttl (e : CachedMeta) : Z := if cm_exists e then POSITIVE_TTL_SECS else NEGATIVE_TTL_SECS.
Definition meta_fresh (now : Z) (e : CachedMeta) : bool := as_secs (now - cm_cached_at e) <? meta_ttl e.

(** The global cache and the miss counter. *)
Record MetaCache := mkMetaCache { mc_map : gmap (list Z) CachedMeta; mc_misses : Z }.

(** [stat_cached]: a path that is not UTF-8 is not cached. *)
Definition stat_cached (fs : FileSystem) (now : Z) (path : list Z) (c : MetaCache) : CachedMeta * MetaCache :=
  if utf8_valid path then
    match (match mc_map c !! path with Some e => if meta_fresh now e then Some e else None | None => None end) with
    | Some e => (e, c)
    | None =>
        let meta := stat_uncached fs now path in
        let m := <[path := meta]> (mc_map c) in
        let m := if (mc_misses c mod CLEANUP_INTERVAL =? 0) && (CLEANUP_THRESHOLD <? Z.of_nat (size m))
                 then filter (λ kv, meta_fresh now (snd kv) = true) m else m in
        (meta, mkMetaCache m ((mc_misses c + 1) mod 18446744073709551616))
    end
  else (stat_uncached fs now path, c).

(** [invalidate_meta_cache], [clear_meta_cache] *)
Definition invalidate_meta_cache (path : list Z) (c : MetaCache) : MetaCache :=
  if utf8_valid path then mkMetaCache (delete path (mc_map c)) (mc_misses c) else c.
Definition clear_meta_cache (c : MetaCache) : MetaCache := mkMetaCache ∅ (mc_misses c).

(** ** Conditions *)

(** [Path::join] with a relative path. *)
Definition path_join (root rel : list Z) : list Z :=
  match root with
  | [] => rel
  | _ => if ends_with [byte_slash] root then root ++ rel else root ++ [byte_slash] ++ rel
  end.

Definition is_separator (b : Z) : bool := (b =? byte_slash) || (b =? byte_backslash).
Definition has_dotdot (rel : list Z) : bool := existsb (str_eqb (lit "..")) (split_on is_separator rel).

(** The path a condition looks at: [None] for a path with a [..] segment. *)
Definition condition_path (root path : list Z) : option (list Z) :=
  let relative := trim_start_matches (λ b, b =? byte_slash) (before_byte byte_question path) in
  match relative with
  | [] => Some root
  | _ => if has_dotdot relative then None else Some (path_join root relative)
  end.

Inductive file_check := CheckF | CheckD | CheckE | CheckX.

Definition check_of (check : list Z) : option file_check :=
  if str_eqb check (lit "-f") then Some CheckF
  else if str_eqb check (lit "-d") then Some CheckD
  else if str_eqb check (lit "-e") then Some CheckE
  else if str_eqb check (lit "-x") then Some CheckX else None.

Definition check_meta (k : file_check) (m : CachedMeta) : bool :=
  match k with
  | CheckF => cm_exists m && cm_is_file m
  | CheckD => cm_exists m && cm_is_dir m
  | CheckE => cm_exists m
  | CheckX => cm_exists m && cm_is_file m && cm_is_executable m
  end.

(** [evaluate_condition] *)
Definition evaluate_condition (fs : FileSystem) (now : Z) (condition path : list Z) (doc_root : option (list Z))
    (c : MetaCache) : bool * MetaCache :=
  let cond := trim condition in
  let negated := starts_with (lit "!") cond in
  let check := if negated then drop 1 cond else cond in
  match check_of check with
  | None => (false, c)
  | Some k =>
      match doc_root with
      | None => (if negated then true else false, c)
      | Some root =>
          match condition_path root path with
          | None => (negated, c)
          | Some full =>
              let '(meta, c) := stat_cached fs now full c in
              let result := check_meta k meta in
              (if negated then negb result else result, c)
          end
      end
  end.

(** ** Rules *)

Inductive RewriteFlag := Last | BreakFlag | Redirect | Permanent.

#[export] Instance RewriteFlag_eq_dec : EqDecision RewriteFlag.
Proof. solve_decision. Defined.

Record RewriteRule := mkRule {
  rr_pattern : list Z;
  rr_target : list Z;
  rr_flag : RewriteFlag;
  rr_condition : option (list Z);
}.

Section rules.
Context {R : Type} (build : list Z → option R) (is_match : R → list Z → bool)
  (captures : R → list Z → option (nat → option (list Z))).

Record CompiledRewrite := mkCompiledRule { cr_rule : RewriteRule; cr_regex : R }.

(** [CompiledRewrite::new] *)
Definition compile_rewrite (rule : RewriteRule) : option CompiledRewrite :=
  mkCompiledRule rule <$> build (rr_pattern rule).

(** [regex_replace] *)
Definition placeholder (i : nat) : list Z := lit "$" ++ dec (Z.of_nat i).

Definition replace_group (caps : nat → option (list Z)) (result : list Z) (i : nat) : list Z :=
  if contains (placeholder i) result then replace (placeholder i) (default [] (caps i)) result else result.

Definition regex_replace (re : R) (input template : list Z) : list Z :=
  match captures re input with
  | Some caps =>
      let result := match caps 0%nat with Some m => replace (placeholder 0) m template | None => template end in
      foldl (replace_group caps) result (seq 1 9)
  | None => input
  end.

(** [apply_rewrites]; [eval] is [evaluate_condition] at the moment of the call. *)
Definition redirect_code (f : RewriteFlag) : list Z := if decide (f = Permanent) then lit "301" else lit "302".

Fixpoint apply_loop (eval : list Z → list Z → MetaCache → bool * MetaCache) (rules : list CompiledRewrite)
    (current : list Z) (changed : bool) (c : MetaCache) : option (list Z) * MetaCache :=
  match rules with
  | [] => (if changed then Some current else None, c)
  | cr :: rules =>
      let '(holds, c) := match rr_condition (cr_rule cr) with
                         | Some cond => eval cond current c
                         | None => (true, c)
                         end in
      if negb holds then apply_loop eval rules current changed c
      else if negb (is_match (cr_regex cr) current) then apply_loop eval rules current changed c
      else
        let current := regex_replace (cr_regex cr) current (rr_target (cr_rule cr)) in
        match rr_flag (cr_rule cr) with
        | Last | BreakFlag => (Some current, c)
        | f => (Some (lit "REDIRECT:" ++ redirect_code f ++ lit ":" ++ current), c)
        end
  end.

Definition apply_rewrites (fs : FileSystem) (now : Z) (rules : list CompiledRewrite) (path : list Z)
    (doc_root : option (list Z)) (c : MetaCache) : option (list Z) * MetaCache :=
  match rules with
  | [] => (None, c)
  | _ => apply_loop (λ cond cur, evaluate_condition fs now cond cur doc_root) rules path false c
  end.

End rules.

(** What the router makes of the result. *)
Inductive routed := RedirectTo (code : Z) (target : list Z) | RoutePath (path : list Z).

Definition route_rewritten (path : list Z) (rewritten : option (list Z)) : routed :=
  match rewritten with
  | Some rp =>
      match strip_prefix (lit "REDIRECT:301:") rp with
      | Some rest => RedirectTo 301 rest
      | None =>
          match strip_prefix (lit "REDIRECT:302:") rp with
          | Some rest => RedirectTo 302 rest
          | None => RoutePath rp
          end
      end
  | None => RoutePath path
  end.

(** ** The metadata cache *)

(** The file system over time. *)
Definition history : Type := Z → FileSystem.

(** The caches that calls at successive times lead to. *)
Inductive meta_reach (hist : history) : Z → MetaCache → Prop :=
| reach_start now : meta_reach hist now (mkMetaCache ∅ 0)
| reach_stat t now path c :
    meta_reach hist t c → t ≤ now → meta_reach hist now (snd (stat_cached (hist now) now path c))
| reach_invalidate t path c : meta_reach hist t c → meta_reach hist t (invalidate_meta_cache path c)
| reach_clear t c : meta_reach hist t c → meta_reach hist t (clear_meta_cache c).

Definition entry_ok (hist : history) (now : Z) (k : list Z) (e : CachedMeta) : Prop :=
  cm_cached_at e ≤ now ∧ e = stat_uncached (hist (cm_cached_at e)) (cm_cached_at e) k.
Definition meta_ok (hist : history) (now : Z) (c : MetaCache) : Prop := map_Forall (entry_ok hist now) (mc_map c).

Lemma stat_uncached_ok hist now path : entry_ok hist now path (stat_uncached (hist now) now path).
Proof. unfold entry_ok, stat_uncached. destruct (hist now path) eqn:E; cbn; rewrite E; split; done || lia. Qed.

Lemma meta_ok_later hist t now c : meta_ok hist t c → t ≤ now → meta_ok hist now c.
Proof. intros H Hle k e He. destruct (H k e He) as [? ?]. split; [lia|done]. Qed.

Lemma stat_cached_ok hist now path c : meta_ok hist now c → meta_ok hist now (snd (stat_cached (hist now) now path c)).
Proof.
  intros H. unfold stat_cached. destruct (utf8_valid path); [|done].
  destruct (match mc_map c !! path with Some e => if meta_fresh now e then Some e else None | None => None end); [done|].
  cbn [snd]. assert (Hi : map_Forall (entry_ok hist now) (<[path := stat_uncached (hist now) now path]> (mc_map c))).
  { apply map_Forall_insert_2; [apply stat_uncached_ok|done]. }
  unfold meta_ok. cbn [mc_map]. case_match; [|done]. intros k e [He _]%map_lookup_filter_Some. by apply (Hi k e).
Qed.

Lemma meta_reach_ok hist now c : meta_reach hist now c → meta_ok hist now c.
Proof.
  induction 1 as [now|t now path c _ IH Hle|t path c _ IH|t c _ IH].
  - apply map_Forall_empty.
  - apply stat_cached_ok. by apply (meta_ok_later hist t).
  - unfold invalidate_meta_cache. destruct (utf8_valid path); [|done].
    intros k e He. cbn [mc_map] in He. apply lookup_delete_Some in He as [_ He]. by apply (IH k e).
  - apply map_Forall_empty.
Qed.

(** A cached answer is an answer of the file system less than its lifetime ago.
    In every cache that calls at successive times lead to, what [stat_cached] returns is what a
    direct [stat] would have returned at some moment of the last five seconds, of the last second
    when it says that the file does not exist. *)
Theorem meta_cache_fresh hist t now path c :
  meta_reach hist t c → t ≤ now →
  let m := fst (stat_cached (hist now) now path c) in
  ∃ t0, t0 ≤ now ∧ now - t0 < meta_ttl m * 1000000000 ∧ m = stat_uncached (hist t0) t0 path.
Proof.
  intros H Hle m. apply meta_reach_ok, (meta_ok_later _ _ now) in H; [|done]. unfold m, stat_cached.
  assert (Hnow : ∃ t0, t0 ≤ now ∧ now - t0 < meta_ttl (stat_uncached (hist now) now path) * 1000000000
                    ∧ stat_uncached (hist now) now path = stat_uncached (hist t0) t0 path).
  { exists now. split_and!; [lia| |done]. unfold meta_ttl, POSITIVE_TTL_SECS, NEGATIVE_TTL_SECS. case_match; lia. }
  destruct (utf8_valid path); [|exact Hnow].
  destruct (mc_map c !! path) as [e|] eqn:E; [|exact Hnow].
  destruct (meta_fresh now e) eqn:Ef; [|exact Hnow]. cbn [fst].
  destruct (H path e E) as [Ht He]. exists (cm_cached_at e). split_and!; [done| |done].
  unfold meta_fresh, as_secs in Ef. zbool.
  pose proof (Z.mul_succ_div_gt (now - cm_cached_at e) 1000000000). lia.
Qed.

(** ** The rule loop *)

Section rules_theorems.
Context {R : Type} (is_match : R → list Z → bool) (captures : R → list Z → option (nat → option (list Z))).
Context (eval : list Z → list Z → MetaCache → bool * MetaCache).

(** Whether a rule fires on a path. *)
Definition fires (path : list Z) (cr : CompiledRewrite) (c : MetaCache) : bool * MetaCache :=
  let '(holds, c) := match rr_condition (cr_rule cr) with Some cond => eval cond path c | None => (true, c) end in
  (holds && is_match (cr_regex cr) path, c).

Inductive quiet (path : list Z) : list (CompiledRewrite (R := R)) → MetaCache → MetaCache → Prop :=
| quiet_nil c : quiet path [] c c
| quiet_cons cr rules c c1 c2 :
    fires path cr c = (false, c1) → quiet path rules c1 c2 → quiet path (cr :: rules) c c2.

Definition replaced (path : list Z) (cr : CompiledRewrite) : list Z :=
  regex_replace captures (cr_regex cr) path (rr_target (cr_rule cr)).

(** Exactly one rule is applied, the first that fires.  Either no rule fires and the
    path is kept, or the result is that of the first rule whose condition holds and whose pattern
    matches the request path, whatever rules follow; a redirect rule makes the router redirect to
    its substituted target with its code. *)
Theorem first_rule_applies rules path c :
  (∃ c', quiet path rules c c' ∧ apply_loop is_match captures eval rules path false c = (None, c'))
  ∨ (∃ pre cr post c1 c2 rp, rules = pre ++ cr :: post ∧ quiet path pre c c1 ∧ fires path cr c1 = (true, c2)
      ∧ apply_loop is_match captures eval rules path false c = (Some rp, c2)
      ∧ match rr_flag (cr_rule cr) with
        | Permanent => route_rewritten path (Some rp) = RedirectTo 301 (replaced path cr)
        | Redirect => route_rewritten path (Some rp) = RedirectTo 302 (replaced path cr)
        | _ => rp = replaced path cr
        end).
Proof.
  revert c; induction rules as [|cr rules IH]; intros c.
  { left. exists c. split; [constructor|done]. }
  destruct (fires path cr c) as [b c1] eqn:Ef. destruct b.
  - right. unfold fires in Ef. cbn [apply_loop].
    destruct (match rr_condition (cr_rule cr) with Some cond => eval cond path c | None => (true, c) end) as [holds cc] eqn:Ec.
    injection Ef as Hh ->. apply andb_true_iff in Hh as [-> Hm].
    exists [], cr, rules, c, c1. rewrite Hm. cbn [negb].
    assert (Hfire : fires path cr c = (true, c1)) by (unfold fires; rewrite Ec, Hm; done).
    destruct (rr_flag (cr_rule cr)) eqn:Efl; eexists; (split; [done|]); (split; [constructor|]); (split; [done|]);
      (split; [reflexivity|]); rewrite ?Efl; done.
  - assert (Hstep : apply_loop is_match captures eval (cr :: rules) path false c
                    = apply_loop is_match captures eval rules path false c1).
    { unfold fires in Ef. cbn [apply_loop].
      destruct (match rr_condition (cr_rule cr) with Some cond => eval cond path c | None => (true, c) end) as [holds cc].
      injection Ef as Hh ->. destruct holds; [|done]. cbn [andb negb] in *. by rewrite Hh. }
    rewrite Hstep. destruct (IH c1) as [(c' & Hq & ->)|(pre & cr' & post & d1 & d2 & rp & -> & Hq & Hf & -> & Hm)].
    + left. exists c'. split; [by econstructor|done].
    + right. exists (cr :: pre), cr', post, d1, d2, rp. split_and!; [done|by econstructor|done|done|done].
Qed.

(** A client can turn an internal rewrite into a redirect.  When the substituted
    path of a rule that is not a redirect starts with the marker that the loop uses for redirects,
    the router answers with a redirect to the rest, which the client chose. *)
Theorem redirect_marker_spoofed rules cr post path c c2 url :
  rules = cr :: post → fires path cr c = (true, c2) → rr_flag (cr_rule cr) = Last →
  replaced path cr = lit "REDIRECT:302:" ++ url →
  route_rewritten path (fst (apply_loop is_match captures eval rules path false c)) = RedirectTo 302 url.
Proof.
  intros -> Hf Hl Hr. unfold fires in Hf. cbn [apply_loop].
  destruct (match rr_condition (cr_rule cr) with Some cond => eval cond path c | None => (true, c) end) as [holds cc].
  injection Hf as Hh ->. apply andb_true_iff in Hh as [-> ->]. cbn [negb]. rewrite Hl.
  fold (replaced path cr). rewrite Hr. done.
Qed.

End rules_theorems.

(** Conditions look only below the document root.  The path a file condition asks
    about is the root, or the root joined with a relative path that has no [..] segment. *)
Theorem condition_path_confined root path full :
  condition_path root path = Some full →
  full = root ∨ ∃ rel, full = path_join root rel ∧ starts_with [byte_slash] rel = false
                       ∧ lit ".." ∉ split_on is_separator rel.
Proof.
  unfold condition_path. cbv zeta. set (rel := trim_start_matches _ _). intros H.
  assert (Hh : starts_with [byte_slash] rel = false).
  { destruct rel as [|b r] eqn:E; [done|]. apply trim_start_matches_head in E. unfold starts_with.
    cbn [strip_prefix]. by rewrite Z.eqb_sym, E. }
  destruct rel as [|b r] eqn:E; [left; congruence|]. right. exists (b :: r).
  destruct (has_dotdot (b :: r)) eqn:Ed; [done|]. injection H as <-. split_and!; [done|done|].
  intros Hin. unfold has_dotdot in Ed. assert (Ht : existsb (str_eqb (lit "..")) (split_on is_separator (b :: r)) = true).
  { apply existsb_exists. exists (lit ".."). split; [by apply list_elem_of_In|apply str_eqb_refl]. }
  congruence.
Qed.

Module Witness.

(** A file that exists from time 0 on and is deleted at 3 s. *)
Definition hist : history := λ t p, if t <? 3000000000 then Some (mkMeta true false false) else None.
Definition c0 : MetaCache := mkMetaCache ∅ 0.
Definition c1 : MetaCache := snd (stat_cached (hist 1) 1 (lit "/a") c0).

Lemma meta_cache_fresh_witness :
  ∃ t0, t0 ≤ 4000000000 ∧ 4000000000 - t0 < 5 * 1000000000
    ∧ fst (stat_cached (hist 4000000000) 4000000000 (lit "/a") c1) = stat_uncached (hist t0) t0 (lit "/a").
Proof.
  apply (meta_cache_fresh hist 1 4000000000 (lit "/a") c1); [|lia].
  apply (reach_stat hist 0); [apply reach_start|lia].
Defined.

(** The pattern that matches a slash and captures the rest. *)
Definition im (r : unit) (s : list Z) : bool := starts_with (lit "/") s.
Definition caps (r : unit) (s : list Z) : option (nat → option (list Z)) :=
  match strip_prefix (lit "/") s with
  | Some t => Some (λ i, match i with 0%nat => Some s | 1%nat => Some t | _ => None end)
  | None => None
  end.
Definition rule : CompiledRewrite := mkCompiledRule (mkRule (lit "^/(.*)$") (lit "$1") Last None) tt.

Lemma redirect_marker_spoofed_witness :
  route_rewritten (lit "/REDIRECT:302:https://evil.test/")
    (fst (apply_loop im caps (λ _ _ c, (true, c)) [rule] (lit "/REDIRECT:302:https://evil.test/") false c0))
  = RedirectTo 302 (lit "https://evil.test/").
Proof.
  apply (redirect_marker_spoofed im caps (λ _ _ c, (true, c)) [rule] rule [] (lit "/REDIRECT:302:https://evil.test/") c0 c0);
    reflexivity.
Defined.

Lemma condition_path_confined_witness :
  condition_path (lit "/srv") (lit "//a/b?x=../..") = Some (lit "/srv/a/b") ∧
  (lit "/srv/a/b" = lit "/srv" ∨ ∃ rel, lit "/srv/a/b" = path_join (lit "/srv") rel ∧ starts_with [byte_slash] rel = false
                                     ∧ lit ".." ∉ split_on is_separator rel).
Proof.
  split; [reflexivity|]. apply (condition_path_confined (lit "/srv") (lit "//a/b?x=../..")). reflexivity.
Defined.

End Witness.
