(* ===== verification/StaticPath.v ===== *)
(** * Static files: [src/handler/static_file/range.rs],
    [src/handler/static_file/path.rs]

    Range headers, the resolution of request paths below the document root,
    and [try_files].  [canonicalize] and the existence of files are parameters:
    a canonical path is the list of its components. *)

From S2P Require Import Prelude RustStr Rewrite.

(** ** Ranges *)

(** [parse_range] *)
Definition parse_range (range_header : list Z) (file_size : Z) : option (Z * Z) :=
  s ← strip_prefix (lit "bytes=") range_header;
  match splitn_byte 2 byte_minus s with
  | start_part :: end_part :: _ =>
      let start_str := trim start_part in
      let end_str := trim end_part in
      start ← (match start_str with
               | [] => suffix ← parse_uint u64_max end_str; Some (sat_sub file_size suffix)
               | _ => parse_uint u64_max start_str
               end);
      stop ← (match end_str with
              | [] => Some (sat_sub file_size 1)
              | _ => parse_uint u64_max end_str
              end);
      if (stop <? start) || (file_size <=? stop) then None else Some (start, stop)
  | _ => None
  end.

(** ** Paths *)

(** [Path::components] of an absolute path, and its text. *)
Definition components (p : list Z) : list (list Z) :=
  filter (λ c, c ≠ [] ∧ c ≠ lit ".") (split_byte byte_slash p).
Definition text_of (cs : list (list Z)) : list Z :=
  match cs with [] => [byte_slash] | _ => concat ((λ c, byte_slash :: c) <$> cs) end.

(** [Path::starts_with]: by components. *)
Definition under (root p : list (list Z)) : bool := bool_decide (root `prefix_of` p).

Section paths.
Context (canonicalize : list Z → option (list (list Z))) (is_file : list Z → bool).

(** The result of resolution: a canonical path, or the joined text of a file
    that does not exist. *)
Inductive resolved := Canonical (cs : list (list Z)) | Joined (p : list Z).

Definition resolved_text (r : resolved) : list Z := match r with Canonical cs => text_of cs | Joined p => p end.

(** [resolve_safe_path_with_canon] *)
Definition resolve_safe_path (root request_path : list Z) (canonical_root : option (list (list Z))) : option resolved :=
  let path_only := before_byte byte_question request_path in
  if has_dotdot path_only then None
  else
    let relative := trim_start_matches is_separator path_only in
    let full := path_join root relative in
    let cr := match canonical_root with Some p => Some p | None => canonicalize root end in
    match canonicalize full, cr with
    | Some cf, Some cr => if under cr cf then Some (Canonical cf) else None
    | None, Some cr => if starts_with (text_of cr) full then Some (Joined full) else None
    | _, None => None
    end.

(** [find_index] *)
Definition find_index (dir : list Z) (index_files : list (list Z)) : option (list Z) :=
  find_first is_file (path_join dir <$> index_files).

Inductive TryFilesResult := TFile (p : list Z) | TCode (code : Z) | TNotFound.

(** One entry of [try_files_resolve_inner]: [None] goes on to the next. *)
Definition try_entry (root uri request_path : list Z) (index_files : list (list Z)) (entry : list Z)
  : option TryFilesResult :=
  let entry := trim entry in
  match strip_prefix (lit "=") entry with
  | Some code_str => TCode <$> parse_uint u16_max code_str
  | None =>
      let expanded := replace (lit "$request_uri") request_path (replace (lit "$uri") uri entry) in
      if ends_with [byte_slash] expanded then
        dir ← resolve_safe_path root (trim_end_matches (λ b, b =? byte_slash) expanded) None;
        TFile <$> find_index (resolved_text dir) index_files
      else
        file ← resolve_safe_path root expanded None;
        if is_file (resolved_text file) then Some (TFile (resolved_text file)) else None
  end.

Fixpoint try_entries (root uri request_path : list Z) (index_files : list (list Z)) (entries : list (list Z))
  : TryFilesResult :=
  match entries with
  | [] => TNotFound
  | e :: entries =>
      match try_entry root uri request_path index_files e with
      | Some r => r
      | None => try_entries root uri request_path index_files entries
      end
  end.

(** [try_files_resolve] *)
Definition try_files_resolve (try_files : list (list Z)) (request_path : list Z) (root : option (list Z))
  : TryFilesResult :=
  match root with
  | None => TNotFound
  | Some root =>
      try_entries root (before_byte byte_question request_path) request_path [lit "index.php"; lit "index.html"] try_files
  end.

End paths.

(** ** Confinement *)

Section confinement.
Context (canonicalize : list Z → option (list (list Z))).


(** A path that cannot be canonicalised is accepted although a canonical root is given, when the root is
    configured by its canonical text. *)
Theorem uncanonical_accepted cr request_path :
  has_dotdot (before_byte byte_question request_path) = false →
  let rel := trim_start_matches is_separator (before_byte byte_question request_path) in
  canonicalize (path_join (text_of cr) rel) = None → starts_with (text_of cr) (path_join (text_of cr) rel) = true →
  resolve_safe_path canonicalize (text_of cr) request_path (Some cr) = Some (Joined (path_join (text_of cr) rel)).
Proof. intros Hd rel Hc Hs. unfold resolve_safe_path. cbv zeta. rewrite Hd. fold rel. by rewrite Hc, Hs. Qed.

End confinement.

Section try_files_theorems.
Context (canonicalize : list Z → option (list (list Z))) (is_file : list Z → bool).

(** [try_files] serves only existing files that resolution admits.  A file it answers
    with exists and is the resolution of an entry below the root, or an index file in such a
    directory. *)
Theorem try_files_sound entries request_path root p :
  try_files_resolve canonicalize is_file entries request_path (Some root) = TFile p →
  is_file p = true
  ∧ ∃ path r, resolve_safe_path canonicalize root path None = Some r
      ∧ (p = resolved_text r ∨ p ∈ path_join (resolved_text r) <$> [lit "index.php"; lit "index.html"]).
Proof.
  unfold try_files_resolve. set (idx := [_; _]). induction entries as [|e entries IH]; [done|]. cbn [try_entries].
  destruct (try_entry _ _ _ _ _ _ e) as [res|] eqn:E; [|exact IH]. intros ->. clear IH.
  unfold try_entry in E. cbv zeta in E. destruct (strip_prefix (lit "=") (trim e)).
  { by apply fmap_Some in E as (? & _ & ?). }
  destruct (ends_with _ _).
  - apply bind_Some in E as (dir & Hdir & (q & Hq & [= ->])%fmap_Some).
    apply find_first_elem in Hq as [Hin Hf]. split; [done|]. eexists _, dir. split; [exact Hdir|by right].
  - apply bind_Some in E as (file & Hf & E). destruct (is_file (resolved_text file)) eqn:Ei; [|done].
    injection E as <-. split; [done|]. eexists _, file. split; [exact Hf|by left].
Qed.

End try_files_theorems.

(** ** Ranges *)

Lemma dec_no_minus z : 0 ≤ z → byte_minus ∉ dec z.
Proof. intros Hz Hin. pose proof (dec_digits z Hz) as H. rewrite Forall_forall in H. by apply H in Hin. Qed.

Lemma dec_nonempty z : dec z ≠ [].
Proof. by apply to_decimal_nonempty. Qed.

Lemma split_range a s : byte_minus ∉ a → splitn_byte 2 byte_minus (a ++ byte_minus :: s) = [a; s].
Proof. intros. by rewrite splitn_byte_app. Qed.

(** The parsed halves of a range. *)
Lemma parse_range_halves a b n :
  field a → field b → byte_minus ∉ a →
  parse_range (lit "bytes=" ++ a ++ byte_minus :: b) n
  = (start ← (match a with [] => suffix ← parse_uint u64_max b; Some (sat_sub n suffix) | _ => parse_uint u64_max a end);
     stop ← (match b with [] => Some (sat_sub n 1) | _ => parse_uint u64_max b end);
     if (stop <? start) || (n <=? stop) then None else Some (start, stop)).
Proof.
  intros Ha Hb Hm. unfold parse_range. rewrite strip_prefix_app. cbn [mbind option_bind].
  rewrite split_range by done. by rewrite !trim_visible by done.
Qed.

(** Byte ranges.  [bytes=a-b] gives exactly (a, b) when a <= b < size and is refused
    otherwise; [bytes=a-] gives everything from a to the last byte; and any range accepted, from
    any header, lies within the file. *)
Theorem parse_range_correct n :
  0 ≤ n →
  (∀ a b, 0 ≤ a ≤ u64_max → 0 ≤ b ≤ u64_max →
     parse_range (lit "bytes=" ++ dec a ++ byte_minus :: dec b) n
     = if bool_decide (a ≤ b ∧ b < n) then Some (a, b) else None)
  ∧ (∀ a, 0 ≤ a < n → a ≤ u64_max → parse_range (lit "bytes=" ++ dec a ++ [byte_minus]) n = Some (a, n - 1))
  ∧ (∀ h a b, parse_range h n = Some (a, b) → 0 ≤ a ≤ b ∧ b < n).
Proof.
  intros Hn. split_and!.
  - intros a b Ha Hb. rewrite parse_range_halves by (auto using dec_field, dec_no_minus with lia).
    destruct (dec a) as [|x l] eqn:Ea; [by destruct (dec_nonempty a)|]. rewrite <- Ea.
    destruct (dec b) as [|y k] eqn:Eb; [by destruct (dec_nonempty b)|]. rewrite <- Eb.
    rewrite !parse_uint_dec by (unfold u64_max in *; lia). cbn [mbind option_bind].
    destruct (Z.ltb_spec b a); destruct (Z.leb_spec n b); case_bool_decide; try done; lia.
  - intros a Ha Ha'. rewrite parse_range_halves by (auto using dec_field, dec_no_minus with lia || constructor).
    destruct (dec a) as [|x l] eqn:Ea; [by destruct (dec_nonempty a)|]. rewrite <- Ea.
    rewrite parse_uint_dec by (unfold u64_max in *; lia). cbn [mbind option_bind].
    assert (sat_sub n 1 = n - 1) as -> by (unfold sat_sub; lia).
    rewrite (proj2 (Z.ltb_ge _ _)), (proj2 (Z.leb_gt _ _)) by lia. done.
  - intros h a b H. unfold parse_range in H. apply bind_Some in H as (s & _ & H).
    destruct (splitn_byte 2 byte_minus s) as [|sp [|ep rest]]; [done..|]. cbv zeta in H.
    apply bind_Some in H as (start & Hs & H). apply bind_Some in H as (stop & _ & H).
    assert (0 ≤ start).
    { destruct (trim sp); [|by apply parse_uint_bound in Hs as []; unfold u64_max].
      apply bind_Some in Hs as (suffix & _ & [= <-]). unfold sat_sub. lia. }
    destruct (Z.ltb_spec stop start); [done|]. destruct (Z.leb_spec n stop); [done|]. cbn in H.
    injection H as <- <-. lia.
Qed.

(** Suffix ranges are wrong.  [bytes=-k] asks for the last k bytes of the file; the
    code answers with that range only when k is one less than the size of the file. *)
Theorem suffix_range_wrong n k :
  0 < k < n → n ≤ u64_max →
  parse_range (lit "bytes=" ++ [] ++ byte_minus :: dec k) n = Some (n - k, n - 1) ↔ k = n - 1.
Proof.
  intros Hk Hn. rewrite parse_range_halves by (auto using dec_field with lia || constructor || apply not_elem_of_nil).
  destruct (dec k) as [|y l] eqn:Eb; [by destruct (dec_nonempty k)|]. rewrite <- Eb.
  rewrite parse_uint_dec by (unfold u64_max in *; lia). cbn [mbind option_bind].
  assert (sat_sub n k = n - k) as -> by (unfold sat_sub; lia).
  rewrite (proj2 (Z.leb_gt _ _)) by lia. rewrite orb_false_r. split.
  - destruct (Z.ltb_spec k (n - k)); [done|]. intros [=]. lia.
  - intros ->. rewrite (proj2 (Z.ltb_ge _ _)) by lia. done.
Qed.

Module Witness.

(** A file system with one file below the root and a link that leaves it. *)
Definition canon (p : list Z) : option (list (list Z)) :=
  if bool_decide (p = lit "/srv") then Some [lit "srv"]
  else if bool_decide (p = lit "/srv/a.html") then Some [lit "srv"; lit "a.html"]
  else if bool_decide (p = lit "/srv/link") then Some [lit "etc"; lit "passwd"] else None.
Definition isf (p : list Z) : bool := bool_decide (p ∈ [lit "/srv/a.html"; lit "/etc/passwd"]).


Lemma uncanonical_accepted_witness :
  resolve_safe_path canon (lit "/srv") (lit "/gone") (Some [lit "srv"]) = Some (Joined (lit "/srv/gone")).
Proof. apply (uncanonical_accepted canon [lit "srv"] (lit "/gone")); reflexivity. Defined.

Lemma try_files_sound_witness :
  try_files_resolve canon isf [lit "$uri"; lit "=404"] (lit "/a.html") (Some (lit "/srv")) = TFile (lit "/srv/a.html")
  ∧ isf (lit "/srv/a.html") = true.
Proof.
  split; [reflexivity|].
  apply (try_files_sound canon isf [lit "$uri"; lit "=404"] (lit "/a.html") (lit "/srv")). reflexivity.
Defined.

Lemma parse_range_correct_witness :
  parse_range (lit "bytes=" ++ dec 0 ++ byte_minus :: dec 99) 100 = Some (0, 99).
Proof.
  destruct (parse_range_correct 100) as [H _]; [lia|]. apply (H 0 99); unfold u64_max; lia.
Defined.

Lemma suffix_range_wrong_witness :
  parse_range (lit "bytes=" ++ [] ++ byte_minus :: dec 10) 100 = Some (100 - 10, 100 - 1) ↔ 10 = 100 - 1.
Proof. apply (suffix_range_wrong 100 10); unfold u64_max; lia. Defined.

End Witness.
