(* ===== verification/FileHeaders.v ===== *)
(** * Validators and content types of files: [src/middleware/cache.rs]

    ETags, conditional requests, MIME types and default cache policies. *)

From S2P Require Import Prelude RustStr IpAddr Rewrite StaticPath.

(** ** File names *)

(** [Path::extension]: what follows the last dot of the last component, unless
    that dot is its first byte. *)
Definition extension (p : list Z) : option (list Z) :=
  match last (components p) with
  | Some name =>
      if str_eqb name (lit "..") then None
      else match rsplit_once byte_dot name with
           | Some ([], _) | None => None
           | Some (_, ext) => Some ext
           end
  | None => None
  end.

(** ** Tables *)

Definition MIME_MAP : list (list Z * list Z) :=
  (λ p : String.string * String.string, (lit p.1, lit p.2)) <$>
  [("html", "text/html; charset=utf-8"); ("htm", "text/html; charset=utf-8"); ("css", "text/css; charset=utf-8");
   ("js", "application/javascript; charset=utf-8"); ("mjs", "application/javascript; charset=utf-8");
   ("json", "application/json; charset=utf-8"); ("xml", "application/xml; charset=utf-8");
   ("txt", "text/plain; charset=utf-8"); ("png", "image/png"); ("jpg", "image/jpeg"); ("jpeg", "image/jpeg");
   ("gif", "image/gif"); ("webp", "image/webp"); ("svg", "image/svg+xml"); ("ico", "image/x-icon");
   ("woff", "font/woff"); ("woff2", "font/woff2"); ("ttf", "font/ttf"); ("otf", "font/otf");
   ("mp4", "video/mp4"); ("webm", "video/webm"); ("pdf", "application/pdf"); ("zip", "application/zip");
   ("wasm", "application/wasm"); ("avif", "image/avif"); ("mp3", "audio/mpeg"); ("ogg", "audio/ogg");
   ("flac", "audio/flac"); ("ts", "application/typescript; charset=utf-8")]%string.

Definition LONG_CACHE : list (list Z) :=
  lit <$> ["js"; "mjs"; "css"; "woff"; "woff2"; "ttf"; "otf"; "png"; "jpg"; "jpeg"; "gif"; "webp"; "svg"; "ico";
           "wasm"; "avif"; "mp3"; "ogg"; "flac"; "mp4"; "webm"]%string.

Definition NO_CACHE : list (list Z) := [lit "html"; lit "htm"].

(** The extension in lower case, when it fits the buffer of eight bytes. *)
Definition lower_ext (ext : list Z) : option (list Z) :=
  if (length ext <=? 8)%nat then Some (to_ascii_lowercase ext) else None.

(** [mime_type_for] *)
Definition mime_type_for (ext : list Z) : list Z :=
  match (lower ← lower_ext ext; find_first (λ p, str_eqb (fst p) lower) MIME_MAP) with
  | Some (_, mime) => mime
  | None => lit "application/octet-stream"
  end.

(** [default_cache_control] *)
Definition default_cache_control (ext : list Z) : list Z :=
  match lower_ext ext with
  | Some lower =>
      if existsb (str_eqb lower) LONG_CACHE then lit "public, max-age=604800, immutable"
      else if existsb (str_eqb lower) NO_CACHE then lit "no-cache, must-revalidate"
      else lit "public, max-age=3600"
  | None => lit "public, max-age=3600"
  end.

(** ** Validators *)

Definition byte_dquote : Z := 34.

(** [generate_etag]: [W/"size-mtime"] in hexadecimal; sixteen digits hold a
    64-bit number. *)
Definition generate_etag (size modified_secs : Z) : list Z :=
  lit "W/" ++ [byte_dquote] ++ to_hex 16 size ++ [byte_minus] ++ to_hex 16 modified_secs ++ [byte_dquote].

(** [is_cache_valid] *)
Definition is_cache_valid (if_none_match : option (list Z)) (if_modified_since_secs : option Z) (etag : list Z)
    (last_modified_secs : Z) : bool :=
  match if_none_match with
  | Some inm => str_eqb inm etag || str_eqb inm (lit "*")
  | None => match if_modified_since_secs with Some ims => last_modified_secs <=? ims | None => false end
  end.

(** ** Validators identify versions *)

Lemma hex_inj a b : is_u64 a → is_u64 b → to_hex 16 a = to_hex 16 b → a = b.
Proof.
  intros Ha Hb H. unfold is_u64, u64_max in *.
  assert (Hp : ∀ z, 0 ≤ z ≤ 18446744073709551615 → parse_digits 16 u64_max 0 (to_hex 16 z) = Some z).
  { intros z Hz. apply to_hex_parse; unfold u64_max; [lia|lia|]. change (16 ^ Z.of_nat 16) with 18446744073709551616. lia. }
  apply Hp in Ha, Hb. rewrite H in Ha. congruence.
Qed.

Lemma hex_no_minus z : 0 ≤ z → byte_minus ∉ to_hex 16 z.
Proof.
  intros Hz Hin. pose proof (to_hex_digits 16 z Hz) as H. rewrite Forall_forall in H. apply H in Hin as [d Hd]. discriminate.
Qed.

(** The ETag determines size and modification time. *)
Lemma generate_etag_inj s1 m1 s2 m2 :
  is_u64 s1 → is_u64 m1 → is_u64 s2 → is_u64 m2 → generate_etag s1 m1 = generate_etag s2 m2 → s1 = s2 ∧ m1 = m2.
Proof.
  intros Hs1 Hm1 Hs2 Hm2 H. unfold generate_etag in H. do 2 apply app_inv_head in H.
  assert (Hf : ∀ s m, 0 ≤ s → find_byte byte_minus (to_hex 16 s ++ [byte_minus] ++ to_hex 16 m ++ [byte_dquote])
                              = Some (length (to_hex 16 s))).
  { intros s m Hs. apply find_byte_Some. exists (to_hex 16 s), (to_hex 16 m ++ [byte_dquote]).
    split_and!; [done|by apply hex_no_minus|done]. }
  assert (Hl : length (to_hex 16 s1) = length (to_hex 16 s2)).
  { enough (Some (length (to_hex 16 s1)) = Some (length (to_hex 16 s2))) by congruence.
    rewrite <- (Hf s1 m1), <- (Hf s2 m2), H by (unfold is_u64 in *; lia). done. }
  apply app_inj_1 in H as [H1 H2]; [|done]. apply app_inv_head, app_inv_tail in H2.
  split; by apply hex_inj.
Qed.

(** Conditional requests are answered correctly.  The validator a client received for one
    version of a file gets 304 for another version exactly when size and modification time are the
    same; without If-None-Match the date decides, and with neither header the file is always sent. *)
Theorem not_modified_correct size mtime size' mtime' ims :
  is_u64 size → is_u64 mtime → is_u64 size' → is_u64 mtime' →
  (is_cache_valid (Some (generate_etag size mtime)) ims (generate_etag size' mtime') mtime' = true
   ↔ size = size' ∧ mtime = mtime')
  ∧ (∀ since, is_cache_valid None (Some since) (generate_etag size' mtime') mtime' = true ↔ mtime' ≤ since)
  ∧ is_cache_valid None None (generate_etag size' mtime') mtime' = false.
Proof.
  intros H1 H2 H3 H4. split_and!; [|intros since; apply Z.leb_le|done]. unfold is_cache_valid.
  rewrite orb_true_iff, !str_eqb_eq. split; [|intros [-> ->]; by left].
  intros [H|H]; [by apply generate_etag_inj|discriminate].
Qed.

Lemma not_modified_correct_witness :
  is_cache_valid (Some (generate_etag 1024 1700000000)) None (generate_etag 1024 1700000001) 1700000001 ≠ true.
Proof.
  intros H. apply (not_modified_correct 1024 1700000000 1024 1700000001 None) in H as [_ H]; [discriminate|by vm_compute..].
Defined.

