(* ===== verification/StaticFile.v ===== *)
(** * Static files: [src/handler/static_file.rs], [src/handler/static_file/cache.rs],
    [src/handler/static_file/compress.rs]

    The handler for files, with its content cache, its cache of open
    descriptors and the access counter that admits files to the content cache.
    The disk maps paths to directories or inodes; an open descriptor is the
    inode it was opened on. *)

From S2P Require Import Prelude RustStr Headers F32 Compress Rewrite StaticPath FileHeaders Location.

(** ** The caches *)

Definition GZIP_MAX_INLINE : Z := 1048576.
Definition FILE_CACHE_MAX_BYTES : Z := 65536.
Definition MIN_USES_THRESHOLD : Z := 2.
Definition PREAD_INLINE_MAX : Z := 4194304.

Record CacheLimits := mkLimits { file_cache_total_bytes : Z; file_cache_max_entries : Z; fd_cache_max_entries : Z }.

Definition default_limits : CacheLimits := mkLimits 536870912 200000 25000.

(** [init_cache_limits] *)
Definition init_cache_limits (max_entries total_mb : Z) : CacheLimits :=
  mkLimits (Z.max total_mb 16 * 1024 * 1024) (Z.max max_entries 256) (Z.max (max_entries / 8) 256).

Record FileCacheEntry := mkEntry {
  fe_data : list Z;
  fe_gz : option (list Z);
  fe_br : option (list Z);
  fe_zst : option (list Z);
  fe_modified_secs : Z;
  fe_content_type : list Z;
  fe_content_length : list Z;
  fe_etag : list Z;
  fe_last_modified : list Z;
  fe_cache_control : list Z;
}.

Record SfState := mkSf {
  sf_files : gmap (list Z) FileCacheEntry;
  sf_fds : gmap (list Z) nat;
  sf_uses : gmap (list Z) Z;
}.

Definition set_files (m : gmap (list Z) FileCacheEntry) (st : SfState) : SfState := mkSf m (sf_fds st) (sf_uses st).
Definition set_fds (m : gmap (list Z) nat) (st : SfState) : SfState := mkSf (sf_files st) m (sf_uses st).
Definition set_uses (m : gmap (list Z) Z) (st : SfState) : SfState := mkSf (sf_files st) (sf_fds st) m.

(** [make_cache_key]; [cache_get_fast] looks up the same text. *)
Definition make_cache_key (root relative : list Z) : list Z := root ++ [byte_slash] ++ relative.
Definition cache_get_fast (st : SfState) (root relative : list Z) : option FileCacheEntry :=
  sf_files st !! make_cache_key root relative.

(** [access_count_check] *)
Definition access_count_check (key : list Z) (uses : gmap (list Z) Z) : bool * gmap (list Z) Z :=
  let count := default 0 (uses !! key) in
  if MIN_USES_THRESHOLD <=? count then (true, <[key := count]> uses)
  else (MIN_USES_THRESHOLD <=? count + 1, <[key := Z.min 255 (count + 1)]> uses).

(** Removing the first [n] keys in iteration order. *)
Definition remove_first {A} (n : nat) (order : list (list Z)) (m : gmap (list Z) A) : gmap (list Z) A :=
  foldl (λ (m : gmap (list Z) A) k, delete k m) m (take n order).

(** [cleanup_access_counter] *)
Definition cleanup_access_counter (order : list (list Z)) (uses : gmap (list Z) Z) : gmap (list Z) Z :=
  if 500000 <? Z.of_nat (size uses) then remove_first (size uses / 4) order uses else uses.

Definition entry_bytes (e : FileCacheEntry) : Z :=
  Z.of_nat (length (fe_data e)) + Z.of_nat (length (default [] (fe_gz e)))
  + Z.of_nat (length (default [] (fe_br e))) + Z.of_nat (length (default [] (fe_zst e))).

Definition total_bytes (m : gmap (list Z) FileCacheEntry) : Z := map_fold (λ _ e acc, entry_bytes e + acc) 0 m.

(** [cache_insert]; [order] is the order in which the map is visited. *)
Definition cache_insert (lim : CacheLimits) (order : list (list Z)) (key : list Z) (e : FileCacheEntry)
    (m : gmap (list Z) FileCacheEntry) : gmap (list Z) FileCacheEntry :=
  let m := if (file_cache_total_bytes lim <? total_bytes m + Z.of_nat (length (fe_data e)))
              || (file_cache_max_entries lim <=? Z.of_nat (size m))
           then remove_first (Z.to_nat (file_cache_max_entries lim / 4)) order m else m in
  <[key := e]> m.

(** [fd_cache_insert_arc] *)
Definition fd_cache_insert (lim : CacheLimits) (order : list (list Z)) (key : list Z) (fd : nat) (m : gmap (list Z) nat)
  : gmap (list Z) nat :=
  let m := if fd_cache_max_entries lim <=? Z.of_nat (size m)
           then remove_first (Z.to_nat (fd_cache_max_entries lim / 4)) order m else m in
  <[key := fd]> m.

(** The callback of [start_file_cache_watcher] for one changed path. *)
Definition watcher_event (path : list Z) (st : SfState) : SfState := set_files (delete path (sf_files st)) st.

(** ** The disk *)

Inductive node := NDir | NFile (inode : nat).

Record Disk := mkDisk {
  dk_node : list Z → option node;
  dk_content : nat → list Z;
  dk_mtime : nat → Z;                    (* in seconds since the epoch *)
  dk_readable : list Z → bool;
}.

Definition dk_is_file (d : Disk) (p : list Z) : bool := match dk_node d p with Some (NFile _) => true | _ => false end.
Definition dk_size (d : Disk) (ino : nat) : Z := Z.of_nat (length (dk_content d ino)).

(** [fd_cache_get_or_open_arc] *)
Definition fd_cache_get_or_open (d : Disk) (lim : CacheLimits) (order : list (list Z)) (path : list Z) (st : SfState)
  : option nat * SfState :=
  match sf_fds st !! path with
  | Some fd => (Some fd, st)
  | None =>
      match dk_node d path with
      | Some (NFile ino) =>
          if dk_readable d path then (Some ino, set_fds (fd_cache_insert lim order path ino (sf_fds st)) st) else (None, st)
      | _ => (None, st)
      end
  end.

(** ** The handler *)

Section handler.
Context `{L : HeaderLib} (parse_http_date : list Z → option Z) (fmt_http_date : Z → list Z)
  (encoder : coding → Z → list Z → option (list Z)) (canonicalize : list Z → option (list (list Z))).

(** What the handler reads of the request, the site and the location. *)
Record SfRequest := mkSfReq { sq_method : list Z; sq_path : list Z; sq_header : list Z → option (list Z) }.
Record SfConfig := mkSfCfg {
  sg_root : option (list Z);              (* of the location, else of the site *)
  sg_canonical_root : option (list (list Z));   (* of the site *)
  sg_index : list (list Z);
  sg_cache_control : option (list Z);
  sg_compress : SiteCompression;
  sg_global : GlobalCompression;
  sg_limits : CacheLimits;
  sg_file_order : gmap (list Z) FileCacheEntry → list (list Z);
  sg_fd_order : gmap (list Z) nat → list (list Z);
}.

(** Bodies: bytes; a range of an open file; an open file through an encoder. *)
Inductive sf_body := Inline (bs : list Z) | Streamed (fd : nat) (off len : Z) | StreamEncoded (c : coding) (level : Z) (fd : nat) (len : Z).

Record SfResponse := mkSfResp { sr_status : Z; sr_headers : HeaderMap; sr_body : sf_body }.

(** [make_error]: the page text is not modelled. *)
Definition make_error (status : Z) : SfResponse :=
  mkSfResp status (hm_insert (lit "content-type") (lit "text/html; charset=utf-8") hm_empty) (Inline []).
Definition not_modified : SfResponse := mkSfResp 304 hm_empty (Inline []).

(** A header inserted when its value is valid. *)
Definition insert_valid (n v : list Z) (h : HeaderMap) : HeaderMap :=
  match header_value v with Some v => hm_insert n v h | None => h end.
Definition valid_or (v d : list Z) : list Z := match header_value v with Some v => v | None => d end.

Definition ext_of (path : list Z) : list Z := default [] (extension path).
Definition cache_control_of (cfg : SfConfig) (ext : list Z) : list Z := default (default_cache_control ext) (sg_cache_control cfg).

(** [set_file_headers_no_length], [set_file_headers] *)
Definition set_file_headers_no_length (cfg : SfConfig) (path etag : list Z) (modified_secs : Z) (h : HeaderMap) : HeaderMap :=
  let ext := ext_of path in
  let h := insert_valid (lit "content-type") (mime_type_for ext) h in
  let h := insert_valid (lit "etag") etag h in
  let h := insert_valid (lit "last-modified") (fmt_http_date modified_secs) h in
  let h := insert_valid (lit "cache-control") (cache_control_of cfg ext) h in
  hm_insert (lit "accept-ranges") (lit "bytes") h.
Definition set_file_headers (cfg : SfConfig) (path : list Z) (size : Z) (etag : list Z) (modified_secs : Z) (h : HeaderMap)
  : HeaderMap :=
  let ext := ext_of path in
  let h := insert_valid (lit "content-type") (mime_type_for ext) h in
  let h := insert_valid (lit "content-length") (dec size) h in
  let h := insert_valid (lit "etag") etag h in
  let h := insert_valid (lit "last-modified") (fmt_http_date modified_secs) h in
  let h := insert_valid (lit "cache-control") (cache_control_of cfg ext) h in
  hm_insert (lit "accept-ranges") (lit "bytes") h.

Definition content_range (start stop size : Z) : list Z :=
  lit "bytes " ++ dec start ++ [byte_minus] ++ dec stop ++ [byte_slash] ++ dec size.

(** The conditional headers of the request against a validator. *)
Definition client_has (q : SfRequest) (etag : list Z) (modified_secs : Z) : bool :=
  is_cache_valid (sq_header q (lit "if-none-match"))
    (s ← sq_header q (lit "if-modified-since"); parse_http_date s) etag modified_secs.

Definition range_of (q : SfRequest) (size : Z) : option (Z * Z) :=
  s ← sq_header q (lit "range"); parse_range s size.

(** [pick_encoding] *)
Definition pick_encoding (q : SfRequest) (e : FileCacheEntry) : list Z * option coding :=
  let some {A} (o : option A) := match o with Some _ => true | None => false end in
  match pick_best_encoding_sized (sq_header q (lit "accept-encoding")) (some (fe_gz e)) (some (fe_br e)) (some (fe_zst e))
          (Some (Z.of_nat (length (fe_data e)))) with
  | Some Br => match fe_br e with Some b => (b, Some Br) | None => (fe_data e, None) end
  | Some Zstd => match fe_zst e with Some b => (b, Some Zstd) | None => (fe_data e, None) end
  | Some Gzip => match fe_gz e with Some b => (b, Some Gzip) | None => (fe_data e, None) end
  | None => (fe_data e, None)
  end.

(** *** A cached file *)

(** The bytes [start..=end] of a cached file. *)
Definition byte_range (start stop : Z) (data : list Z) : list Z :=
  take (Z.to_nat (stop - start + 1)) (drop (Z.to_nat start) data).

Definition serve_cached_range (e : FileCacheEntry) (start stop : Z) : SfResponse :=
  let size := Z.of_nat (length (fe_data e)) in
  let h := hm_insert (lit "content-type") (fe_content_type e) hm_empty in
  let h := hm_insert (lit "etag") (fe_etag e) h in
  let h := hm_insert (lit "last-modified") (fe_last_modified e) h in
  let h := hm_insert (lit "cache-control") (fe_cache_control e) h in
  let h := hm_insert (lit "accept-ranges") (lit "bytes") h in
  let h := insert_valid (lit "content-length") (dec (stop - start + 1)) h in
  let h := insert_valid (lit "content-range") (content_range start stop size) h in
  mkSfResp 206 h (Inline (byte_range start stop (fe_data e))).

Definition serve_cached_full (q : SfRequest) (e : FileCacheEntry) : SfResponse :=
  let '(body, enc) := pick_encoding q e in
  let h := hm_insert (lit "content-type") (fe_content_type e) hm_empty in
  let h := hm_insert (lit "accept-ranges") (lit "bytes") h in
  let h := match enc with
           | Some _ => hm_insert (lit "vary") (lit "Accept-Encoding")
                         (insert_valid (lit "content-length") (dec (Z.of_nat (length body))) h)
           | None => hm_insert (lit "content-length") (fe_content_length e) h
           end in
  let h := hm_insert (lit "etag") (fe_etag e) h in
  let h := hm_insert (lit "last-modified") (fe_last_modified e) h in
  let h := hm_insert (lit "cache-control") (fe_cache_control e) h in
  let h := match enc with Some c => insert_valid (lit "content-encoding") (coding_name c) h | None => h end in
  mkSfResp 200 h (Inline body).

(** [HeaderValue::to_str] of a cached validator. *)
Definition etag_str (e : FileCacheEntry) : list Z := default [] (header_visible (fe_etag e)).

Definition serve_cached (q : SfRequest) (e : FileCacheEntry) : SfResponse :=
  if client_has q (etag_str e) (fe_modified_secs e) then not_modified
  else match range_of q (Z.of_nat (length (fe_data e))) with
       | Some (start, stop) => serve_cached_range e start stop
       | None => serve_cached_full q e
       end.

(** *** A file on disk *)

(** The file a request names: 403, 404, 403 for a directory without index
    document, or the path and inode of a file. *)
Definition locate (cfg : SfConfig) (d : Disk) (root path : list Z) : Z + list Z * nat :=
  match resolve_safe_path canonicalize root path (sg_canonical_root cfg) with
  | None => inl 403
  | Some r =>
      let file_path := resolved_text r in
      match dk_node d file_path with
      | None => inl 404
      | Some (NFile ino) => inr (file_path, ino)
      | Some NDir =>
          match find_first (dk_is_file d) (path_join file_path <$> sg_index cfg) with
          | None => inl 403
          | Some p => match dk_node d p with Some (NFile ino) => inr (p, ino) | _ => inl 500 end
          end
      end
  end.

Definition already_compressed (ext : list Z) : bool :=
  existsb (str_eqb ext)
    (lit <$> ["gz"; "br"; "zst"; "zip"; "png"; "jpg"; "jpeg"; "gif"; "webp"; "avif"; "mp4"; "webm"; "woff"; "woff2";
              "bin"; "dat"; "raw"; "iso"; "exe"; "dll"; "so"]%string).

Definition compressible_mime (mime : list Z) : bool :=
  starts_with (lit "text/") mime
  || existsb (str_eqb mime)
       (lit <$> ["application/json"; "application/javascript"; "application/x-javascript"; "application/xml";
                 "application/xhtml+xml"; "application/rss+xml"; "application/atom+xml"; "image/svg+xml"]%string).

Definition can_compress (cfg : SfConfig) (ext : list Z) (size : Z) : bool :=
  negb (already_compressed ext) && compressible_mime (mime_type_for ext)
  && (cc_min_length (resolve (sz_compress (sg_compress cfg)) (gz_compress (sg_global cfg))) * 1024 <=? size).

(** The entry built for a small file. *)
Definition make_entry (cfg : SfConfig) (file_path data : list Z) (modified_secs : Z) : FileCacheEntry :=
  let ext := ext_of file_path in
  let size := Z.of_nat (length data) in
  let ef := effective_compress (sg_compress cfg) (sg_global cfg) in
  let can := can_compress cfg ext size && (size <=? GZIP_MAX_INLINE) in
  mkEntry data
    (if ef_gz ef && can then encoder Gzip (encoder_level Gzip ef) data else None)
    (if ef_br ef && can then encoder Br (encoder_level Br ef) data else None)
    (if ef_zst ef && can then encoder Zstd (encoder_level Zstd ef) data else None)
    modified_secs
    (valid_or (mime_type_for ext) (lit "application/octet-stream"))
    (valid_or (dec size) (lit "0"))
    (valid_or (generate_etag size modified_secs) [byte_dquote; byte_dquote])
    (valid_or (fmt_http_date modified_secs) (lit "Thu, 01 Jan 1970 00:00:00 GMT"))
    (valid_or (cache_control_of cfg ext) (lit "public, max-age=3600")).

(** The response for a small file read from disk. *)
Definition serve_fresh (q : SfRequest) (e : FileCacheEntry) : SfResponse :=
  let '(body, enc) := pick_encoding q e in
  let h := hm_insert (lit "content-type") (fe_content_type e) hm_empty in
  let h := hm_insert (lit "accept-ranges") (lit "bytes") h in
  let h := match enc with
           | Some _ => insert_valid (lit "content-length") (dec (Z.of_nat (length body))) h
           | None => hm_insert (lit "content-length") (fe_content_length e) h
           end in
  let h := hm_insert (lit "etag") (fe_etag e) h in
  let h := hm_insert (lit "last-modified") (fe_last_modified e) h in
  let h := hm_insert (lit "cache-control") (fe_cache_control e) h in
  let h := match enc with
           | Some c => hm_insert (lit "vary") (lit "Accept-Encoding") (hm_insert (lit "content-encoding") (coding_name c) h)
           | None => h
           end in
  mkSfResp 200 h (Inline body).

(** Admission to the content cache: under the path of the file, and under the
    text of the request when that differs. *)
Definition cache_admit (cfg : SfConfig) (file_path fast_key : list Z) (e : FileCacheEntry) (st : SfState) : SfState :=
  let '(ok, uses) := access_count_check file_path (sf_uses st) in
  let st := set_uses uses st in
  if ok then
    let m := cache_insert (sg_limits cfg) (sg_file_order cfg (sf_files st)) file_path e (sf_files st) in
    let m := if str_eqb fast_key file_path then m else cache_insert (sg_limits cfg) (sg_file_order cfg m) fast_key e m in
    set_files m st
  else st.

(** [stream_file_response_pread] from the start of the file, and
    [stream_file_response_compressed]. *)
Definition stream_plain (cfg : SfConfig) (file_path : list Z) (size : Z) (etag : list Z) (mtime : Z) (fd : nat) : SfResponse :=
  mkSfResp 200 (set_file_headers cfg file_path size etag mtime hm_empty) (Streamed fd 0 size).
Definition stream_encoded (cfg : SfConfig) (file_path : list Z) (size : Z) (etag : list Z) (mtime : Z) (ef : effective)
    (c : coding) (fd : nat) : SfResponse :=
  let h := set_file_headers_no_length cfg file_path etag mtime hm_empty in
  let h := insert_valid (lit "content-encoding") (coding_name c) h in
  mkSfResp 200 (hm_insert (lit "vary") (lit "Accept-Encoding") h) (StreamEncoded c (encoder_level c ef) fd size).

(** A file over the cache limit: a range, or the whole file, through an encoder
    when that applies. *)
Definition serve_large (cfg : SfConfig) (d : Disk) (q : SfRequest) (file_path : list Z) (ino : nat) (etag : list Z)
    (st : SfState) : SfResponse * SfState :=
  let size := dk_size d ino in
  let mtime := dk_mtime d ino in
  match fd_cache_get_or_open d (sg_limits cfg) (sg_fd_order cfg (sf_fds st)) file_path st with
  | (None, st) => (make_error 500, st)
  | (Some fd, st) =>
      match range_of q size with
      | Some (start, stop) =>
          let len := stop - start + 1 in
          let body := if len <=? PREAD_INLINE_MAX
                      then (if start + len <=? dk_size d fd then Some (Inline (byte_range start stop (dk_content d fd))) else None)
                      else Some (Streamed fd start len) in
          match body with
          | None => (make_error 500, st)
          | Some body =>
              let h := set_file_headers cfg file_path len etag mtime hm_empty in
              (mkSfResp 206 (insert_valid (lit "content-range") (content_range start stop size) h) body, st)
          end
      | None =>
          let ef := effective_compress (sg_compress cfg) (sg_global cfg) in
          let enc := if can_compress cfg (ext_of file_path) size
                     then pick_best_encoding_sized (sq_header q (lit "accept-encoding")) (ef_gz ef) (ef_br ef) (ef_zst ef) (Some size)
                     else None in
          (match enc with
           | None => stream_plain cfg file_path size etag mtime fd
           | Some c => stream_encoded cfg file_path size etag mtime ef c fd
           end, st)
      end
  end.

(** A request the content cache did not answer. *)
Definition serve_disk (cfg : SfConfig) (d : Disk) (q : SfRequest) (root fast_key : list Z) (st : SfState) : SfResponse * SfState :=
  match locate cfg d root (sq_path q) with
  | inl status => (make_error status, st)
  | inr (file_path, ino) =>
      let size := dk_size d ino in
      let etag := generate_etag size (dk_mtime d ino) in
      if client_has q etag (dk_mtime d ino) then (not_modified, st)
      else if size <=? FILE_CACHE_MAX_BYTES then
        if dk_readable d file_path then
          let e := make_entry cfg file_path (dk_content d ino) (dk_mtime d ino) in
          (serve_fresh q e, cache_admit cfg file_path fast_key e st)
        else (make_error 500, st)
      else serve_large cfg d q file_path ino etag st
  end.

(** The HEAD request. *)
Definition serve_head (cfg : SfConfig) (d : Disk) (q : SfRequest) (root : list Z) : SfResponse :=
  match locate cfg d root (sq_path q) with
  | inl status => make_error status
  | inr (file_path, ino) =>
      let size := dk_size d ino in
      let etag := generate_etag size (dk_mtime d ino) in
      if client_has q etag (dk_mtime d ino) then not_modified
      else mkSfResp 200 (set_file_headers cfg file_path size etag (dk_mtime d ino) hm_empty) (Inline [])
  end.

(** [handle_sweety] *)
Definition handle_static (cfg : SfConfig) (d : Disk) (q : SfRequest) (st : SfState) : SfResponse * SfState :=
  match sg_root cfg with
  | None => (make_error 500, st)
  | Some root =>
      if eq_ignore_ascii_case (sq_method q) (lit "HEAD") then (serve_head cfg d q root, st)
      else
        let path_only := before_byte byte_question (sq_path q) in
        if existsb (str_eqb (lit "..")) (split_byte byte_slash path_only) then (make_error 403, st)
        else
          let relative := trim_start_matches (λ b, b =? byte_slash) path_only in
          match cache_get_fast st root relative with
          | Some e => (serve_cached q e, st)
          | None => serve_disk cfg d q root (make_cache_key root relative) st
          end
  end.

End handler.

(** ** The caches are bounded *)

(** An iteration order of a map: its keys, each once. *)
Definition order_of {A} (m : gmap (list Z) A) (order : list (list Z)) : Prop :=
  NoDup order ∧ ∀ k, k ∈ order ↔ is_Some (m !! k).

Lemma order_of_length {A} (m : gmap (list Z) A) order : order_of m order → length order = size m.
Proof.
  intros [Hnd Hin]. rewrite <- (size_dom (D := gset (list Z))). rewrite <- (size_list_to_set (C := gset (list Z)) order Hnd).
  f_equal. apply set_eq. intros k. rewrite elem_of_list_to_set, elem_of_dom. apply Hin.
Qed.

Lemma remove_first_size {A} (m : gmap (list Z) A) (n : nat) (order : list (list Z)) :
  order_of m order → size (remove_first n order m) = (size m - n)%nat.
Proof.
  intros Ho. pose proof (order_of_length m order Ho) as Hlen. destruct Ho as [Hnd Hin]. unfold remove_first.
  assert (H : ∀ ks m, NoDup ks → (∀ k, k ∈ ks → is_Some (m !! k)) →
            size (foldl (λ (m : gmap (list Z) A) k, delete k m) m ks) = (size m - length ks)%nat).
  { clear. induction ks as [|k ks IH]; intros m Hnd Hin; cbn [foldl length]; [lia|].
    apply NoDup_cons in Hnd as [Hk Hnd]. rewrite IH; [|done|].
    - rewrite map_size_delete_Some by (apply Hin; left). lia.
    - intros k' Hk'. rewrite lookup_delete_ne by (intros ->; done). apply Hin. by right. }
  rewrite H.
  2:{ rewrite <- (take_drop n order) in Hnd. by apply NoDup_app in Hnd as (? & _ & _). }
  2:{ intros k (i & Hi & _)%elem_of_take. apply Hin. by eapply list_elem_of_lookup_2. }
  rewrite length_take. lia.
Qed.

(** The entries of a cache after room was made and one was inserted. *)
Lemma insert_bounded {A} (m : gmap (list Z) A) (max : Z) (evict : bool) (order : list (list Z)) (key : list Z) (x : A) :
  4 ≤ max → order_of m order → Z.of_nat (size m) ≤ max → (max ≤ Z.of_nat (size m) → evict = true) →
  Z.of_nat (size (<[key := x]> (if evict then remove_first (Z.to_nat (max / 4)) order m else m))) ≤ max.
Proof.
  intros Hmax Ho Hs He.
  assert (Hi : ∀ m' : gmap (list Z) A, (size (<[key := x]> m') ≤ S (size m'))%nat).
  { intros m'. rewrite map_size_insert. destruct (m' !! key); cbn [id]; lia. }
  pose proof (Hi (if evict then remove_first (Z.to_nat (max / 4)) order m else m)) as Hb. destruct evict.
  - rewrite remove_first_size in Hb by done. assert (1 ≤ max / 4) by (apply Z.div_le_lower_bound; lia).
    set (k := Z.to_nat (max / 4)) in *. assert (1 ≤ k)%nat by lia. lia.
  - destruct (Z.le_gt_cases max (Z.of_nat (size m))) as [Hge|Hlt]; [discriminate (He Hge)|lia].
Qed.

Definition limits_ok (lim : CacheLimits) : Prop := 4 ≤ file_cache_max_entries lim ∧ 4 ≤ fd_cache_max_entries lim.

(** The limits the program installs are always large enough to make room. *)
Lemma init_limits_ok n mb : limits_ok (init_cache_limits n mb).
Proof. unfold limits_ok, init_cache_limits. cbn. lia. Qed.

Definition bounded (lim : CacheLimits) (st : SfState) : Prop :=
  Z.of_nat (size (sf_files st)) ≤ file_cache_max_entries lim ∧ Z.of_nat (size (sf_fds st)) ≤ fd_cache_max_entries lim.

Lemma cache_insert_bounded lim order key e m :
  limits_ok lim → order_of m order → Z.of_nat (size m) ≤ file_cache_max_entries lim →
  Z.of_nat (size (cache_insert lim order key e m)) ≤ file_cache_max_entries lim.
Proof.
  intros [Hl _] Ho Hs. unfold cache_insert. apply insert_bounded; [done|done|done|].
  intros Hge. apply Z.leb_le in Hge. rewrite Hge. apply orb_true_r.
Qed.

Lemma fd_cache_insert_bounded lim order key fd m :
  limits_ok lim → order_of m order → Z.of_nat (size m) ≤ fd_cache_max_entries lim →
  Z.of_nat (size (fd_cache_insert lim order key fd m)) ≤ fd_cache_max_entries lim.
Proof. intros [_ Hl] Ho Hs. unfold fd_cache_insert. apply insert_bounded; [done|done|done|]. apply Z.leb_le. Qed.

Section static_theorems.
Context `{L : HeaderLib} (parse_http_date : list Z → option Z) (fmt_http_date : Z → list Z)
  (encoder : coding → Z → list Z → option (list Z)) (canonicalize : list Z → option (list (list Z))).

Notation handle := (handle_static parse_http_date fmt_http_date encoder canonicalize).
Notation entry := (make_entry fmt_http_date encoder).

Definition orders_ok (cfg : SfConfig) : Prop :=
  (∀ m, order_of m (sg_file_order cfg m)) ∧ ∀ m, order_of m (sg_fd_order cfg m).

Lemma admit_bounded cfg p k e st :
  limits_ok (sg_limits cfg) → orders_ok cfg → bounded (sg_limits cfg) st → bounded (sg_limits cfg) (cache_admit cfg p k e st).
Proof.
  intros Hl [Ho _] [Hf Hd]. unfold cache_admit. destruct (access_count_check p (sf_uses st)) as [ok uses]. destruct ok; [|done].
  cbn [sf_files set_uses]. assert (H1 := cache_insert_bounded (sg_limits cfg) _ p e (sf_files st) Hl (Ho _) Hf).
  destruct (str_eqb k p); split; [exact H1|exact Hd| |exact Hd]. by apply cache_insert_bounded.
Qed.

(** The caches of the static handler stay within their limits.  Whatever order their
    maps are visited in, serving a request never leaves more files in the content cache, or more
    descriptors open, than the configured maxima. *)
Theorem static_caches_bounded cfg d q st resp st' :
  limits_ok (sg_limits cfg) → orders_ok cfg → bounded (sg_limits cfg) st →
  handle cfg d q st = (resp, st') → bounded (sg_limits cfg) st'.
Proof.
  intros Hl Ho Hb. unfold handle_static. destruct (sg_root cfg) as [root|]; [|by intros [= _ <-]].
  destruct (eq_ignore_ascii_case _ _); [by intros [= _ <-]|]. cbv zeta. destruct (existsb _ _); [by intros [= _ <-]|].
  destruct (cache_get_fast _ _ _); [by intros [= _ <-]|]. unfold serve_disk.
  destruct (locate _ _ _ _ _) as [status|[p ino]]; [by intros [= _ <-]|]. cbv zeta.
  destruct (client_has _ _ _ _); [by intros [= _ <-]|]. destruct (_ <=? FILE_CACHE_MAX_BYTES).
  { destruct (dk_readable d p); intros [= _ <-]; [by apply admit_bounded|done]. }
  unfold serve_large. cbv zeta. destruct (fd_cache_get_or_open _ _ _ _ _) as [fd st1] eqn:Efd.
  assert (Hb1 : bounded (sg_limits cfg) st1).
  { unfold fd_cache_get_or_open in Efd. destruct (sf_fds st !! p); [by injection Efd as _ <-|].
    destruct (dk_node d p) as [[|i]|]; try (by injection Efd as _ <-). destruct (dk_readable d p); injection Efd as _ <-; [|done].
    destruct Hb as [Hf Hd]. split; [exact Hf|]. apply fd_cache_insert_bounded; [done|apply Ho|exact Hd]. }
  destruct fd as [fd|]; [|by intros [= _ <-]]. destruct (range_of q _) as [[a b]|].
  - case_match; intros [= _ <-]; exact Hb1.
  - case_match; intros [= _ <-]; exact Hb1.
Qed.

(** ** The cache is transparent *)

(** Responses a client cannot tell apart. *)
Definition same_response (a b : SfResponse) : Prop :=
  sr_status a = sr_status b ∧ sr_body a = sr_body b ∧ ∀ n, hm_get_all (sr_headers a) n = hm_get_all (sr_headers b) n.

Context `{HL : !HeaderLaws L}.

Definition visible_text (v : list Z) : bool := forallb (λ b, (32 <=? b) && (b <=? 126)) v.

Lemma header_visible_text v : visible_text v = true → header_visible v = Some v.
Proof.
  intros H. unfold header_visible, visible_text in *. case_test; [done|].
  match goal with H : forallb _ v = false |- _ => apply not_true_iff_false in H; destruct H end.
  apply forallb_forall. intros b Hb. rewrite forallb_forall in H. rewrite (H b Hb). apply orb_true_r.
Qed.

Lemma field_visible_text v : field v → visible_text v = true.
Proof.
  intros H. apply forallb_forall. intros b Hb%list_elem_of_In. unfold field in H. rewrite Forall_forall in H.
  apply H in Hb. unfold visible in Hb. apply andb_true_iff in Hb as [H1 H2]. apply Z.leb_le in H1. rewrite H2.
  apply andb_true_iff. split; [apply Z.leb_le; lia|done].
Qed.

Lemma etag_visible size mtime : 0 ≤ size → 0 ≤ mtime → visible_text (generate_etag size mtime) = true.
Proof.
  intros Hs Hm. apply field_visible_text. unfold generate_etag.
  repeat apply field_app; try (by apply IpAddr.field_hex); unfold field; repeat constructor.
Qed.

Lemma etag_str_make_entry cfg p data mtime :
  0 ≤ mtime → etag_str (entry cfg p data mtime) = generate_etag (Z.of_nat (length data)) mtime.
Proof.
  intros Hm. unfold etag_str, make_entry, valid_or. cbn [fe_etag].
  assert (Hv := etag_visible (Z.of_nat (length data)) mtime ltac:(lia) Hm).
  rewrite header_value_visible by exact Hv. by rewrite header_visible_text.
Qed.

Lemma serve_cached_fresh q e : same_response (serve_cached_full q e) (serve_fresh q e).
Proof using HL.
  unfold serve_cached_full, serve_fresh. destruct (pick_encoding q e) as [body [c|]]; [|split_and!; try reflexivity].
  split_and!; try reflexivity. intros n. cbn [sr_headers]. unfold insert_valid.
  rewrite (header_value_visible (coding_name c)) by (by destruct c).
  destruct (header_value (dec _)) as [v|]; rewrite !get_all_insert; repeat (case_decide; subst; try done).
Qed.

(** *** The entries of the cache *)

Notation disk_answer := (serve_disk parse_http_date fmt_http_date encoder canonicalize).
Notation find := (locate canonicalize).

(** What the cache is asked for when [path] is requested. *)
Definition relative_of (path : list Z) : list Z := trim_start_matches (λ b, b =? byte_slash) (before_byte byte_question path).
Definition key_of (root path : list Z) : list Z := make_cache_key root (relative_of path).

(** Two requests for the same key name the same file. *)
Lemma locate_key cfg d root path path' : key_of root path = key_of root path' → find cfg d root path = find cfg d root path'.
Proof.
  intros E. unfold key_of, make_cache_key in E. apply app_inv_head in E. injection E as E.
  assert (Hdd : ∀ s, has_dotdot s = has_dotdot (trim_start_matches (λ b, b =? byte_slash) s)).
  { induction s as [|b s IH]; [done|]. cbn [trim_start_matches]. destruct (Z.eqb_spec b byte_slash) as [->|]; [|done].
    rewrite <- IH. unfold has_dotdot. done. }
  assert (Htr : ∀ s, trim_start_matches is_separator s = trim_start_matches is_separator (trim_start_matches (λ b, b =? byte_slash) s)).
  { induction s as [|b s IH]; [done|]. cbn [trim_start_matches]. destruct (Z.eqb_spec b byte_slash) as [->|Hb]; [|done].
    cbn [trim_start_matches]. by rewrite <- IH. }
  unfold relative_of in E. unfold locate, resolve_safe_path. cbv zeta.
  rewrite (Hdd (before_byte byte_question path)), (Hdd (before_byte byte_question path')),
    (Htr (before_byte byte_question path)), (Htr (before_byte byte_question path')), E. done.
Qed.

(** The entry of a small file that can be read. *)
Definition entry_for (cfg : SfConfig) (d : Disk) (root path : list Z) (e : FileCacheEntry) : Prop :=
  ∃ p ino, find cfg d root path = inr (p, ino) ∧ e = entry cfg p (dk_content d ino) (dk_mtime d ino)
    ∧ dk_size d ino ≤ FILE_CACHE_MAX_BYTES ∧ dk_readable d p = true.

(** Whatever the cache answers is the entry of the file on disk. *)
Definition coherent (cfg : SfConfig) (d : Disk) (root : list Z) (st : SfState) : Prop :=
  ∀ path e, sf_files st !! key_of root path = Some e → entry_for cfg d root path e.

(** The file a request finds is also found by a request for the text of its own path. *)
Definition files_name_themselves (cfg : SfConfig) (d : Disk) (root : list Z) : Prop :=
  ∀ path path' p ino, find cfg d root path = inr (p, ino) → key_of root path' = p → find cfg d root path' = inr (p, ino).

Lemma remove_first_lookup {A} (n : nat) (order : list (list Z)) (m : gmap (list Z) A) k x : remove_first n order m !! k = Some x → m !! k = Some x.
Proof.
  unfold remove_first. generalize (take n order). intros ks. revert m. induction ks as [|y ks IH]; intros m; [done|].
  cbn [foldl]. intros [_ H]%IH%lookup_delete_Some. done.
Qed.

Lemma cache_insert_lookup lim order key e m k x :
  cache_insert lim order key e m !! k = Some x → k = key ∧ x = e ∨ m !! k = Some x.
Proof.
  unfold cache_insert. intros [[<- <-]|[_ H]]%lookup_insert_Some; [by left|right]. revert H. case_match; [apply remove_first_lookup|done].
Qed.

Lemma coherent_admit cfg d root path p ino st :
  let e := entry cfg p (dk_content d ino) (dk_mtime d ino) in
  files_name_themselves cfg d root → coherent cfg d root st → find cfg d root path = inr (p, ino) →
  dk_size d ino ≤ FILE_CACHE_MAX_BYTES → dk_readable d p = true →
  coherent cfg d root (cache_admit cfg p (key_of root path) e st).
Proof.
  intros e Hself Hst Hl Hs Hr. unfold cache_admit. destruct (access_count_check p (sf_uses st)) as [ok uses]. destruct ok; [|done].
  assert (He : ∀ path', find cfg d root path' = inr (p, ino) → entry_for cfg d root path' e) by (intros path' H; by exists p, ino).
  assert (H1 : ∀ path' x, cache_insert (sg_limits cfg) (sg_file_order cfg (sf_files st)) p e (sf_files st) !! key_of root path' = Some x →
    entry_for cfg d root path' x).
  { intros path' x [[Hk ->]|Hx]%cache_insert_lookup; [apply He; by eapply Hself|by apply Hst]. }
  intros path' x. cbn [sf_files set_files set_uses]. destruct (str_eqb (key_of root path) p); [by apply H1|].
  intros [[Hk ->]|Hx]%cache_insert_lookup; [|by apply H1]. apply He. by rewrite (locate_key cfg d root path' path).
Qed.

(** Requests, and events of the watcher, which only remove entries. *)
Inductive sf_event := SfAsk (q : SfRequest) | SfChanged (path : list Z).
Definition sf_step (cfg : SfConfig) (d : Disk) (st : SfState) (ev : sf_event) : SfState :=
  match ev with SfAsk q => snd (handle cfg d q st) | SfChanged path => watcher_event path st end.

Lemma coherent_files cfg d root st st' : sf_files st' = sf_files st → coherent cfg d root st → coherent cfg d root st'.
Proof. unfold coherent. by intros ->. Qed.

Lemma fd_cache_files d lim order p st : sf_files (snd (fd_cache_get_or_open d lim order p st)) = sf_files st.
Proof. unfold fd_cache_get_or_open. by repeat case_match. Qed.

Lemma coherent_step cfg d root st ev :
  sg_root cfg = Some root → files_name_themselves cfg d root → coherent cfg d root st → coherent cfg d root (sf_step cfg d st ev).
Proof.
  intros Hroot Hself Hst. destruct ev as [q|path]; cbn [sf_step].
  2: { intros path' e. unfold watcher_event. cbn [sf_files set_files]. intros [_ H]%lookup_delete_Some. by apply Hst. }
  unfold handle_static. rewrite Hroot. destruct (eq_ignore_ascii_case _ _); [done|]. cbv zeta. destruct (existsb _ _); [done|].
  destruct (cache_get_fast _ _ _); [done|]. unfold serve_disk. destruct (find cfg d root (sq_path q)) as [status|[p ino]] eqn:El; [done|].
  cbv zeta. destruct (client_has _ _ _ _); [done|]. destruct (Z.leb_spec (dk_size d ino) FILE_CACHE_MAX_BYTES) as [Hs|Hs].
  - destruct (dk_readable d p) eqn:Er; [|done]. cbn [snd]. by apply (coherent_admit cfg d root (sq_path q)).
  - eapply coherent_files; [|exact Hst]. unfold serve_large. cbv zeta.
    pose proof (fd_cache_files d (sg_limits cfg) (sg_fd_order cfg (sf_fds st)) p st) as Hf.
    destruct (fd_cache_get_or_open _ _ _ _ _) as [[fd|] st1]; cbn [snd] in Hf; [|exact Hf].
    repeat case_match; exact Hf.
Qed.

(** A coherent entry answers as the disk does. *)
Lemma cached_as_disk cfg d q root key st e :
  (∀ ino, 0 ≤ dk_mtime d ino) → sq_header q (lit "range") = None → entry_for cfg d root (sq_path q) e →
  same_response (serve_cached parse_http_date q e) (fst (disk_answer cfg d q root key st)).
Proof using HL.
  intros Hm Hr (p & ino & Hl & -> & Hs & Hrd). unfold serve_disk. rewrite Hl. unfold serve_cached. rewrite etag_str_make_entry by done.
  cbn [fe_modified_secs make_entry fe_data]. fold (dk_size d ino).
  destruct (client_has _ _ _ _); [split_and!; reflexivity|]. apply Z.leb_le in Hs. rewrite Hs, Hrd. cbn [fst].
  unfold range_of. rewrite Hr. apply serve_cached_fresh.
Qed.

(** C9: The content cache is transparent while the files stay as they are.  Start with an empty
    content cache and let any requests of one location come in, ranges, conditions and HEAD included, and
    any events of the file watcher, the files on disk unchanged.  Then the next request, if it has no
    Range header, is answered as it would be with nothing cached: same status, same headers, same body,
    whatever conditional headers and accepted codings it sends.  Paths are assumed stable (a file is
    also found by a request for the text of its own path, as canonical paths are) and modification
    times not before 1970.  A Range is answered only from the cache ([cold_range_ignored]), and a file
    that changes can be served stale ([stale_index_served]). *)
Theorem static_cache_transparent cfg d root st0 evs q :
  sg_root cfg = Some root → sf_files st0 = ∅ → files_name_themselves cfg d root → (∀ ino, 0 ≤ dk_mtime d ino) →
  sq_header q (lit "range") = None →
  let st := foldl (sf_step cfg d) st0 evs in
  same_response (fst (handle cfg d q st)) (fst (handle cfg d q (set_files ∅ st))).
Proof using HL.
  intros Hroot H0 Hself Hm Hr st.
  assert (Hst : coherent cfg d root st).
  { assert (Hc0 : coherent cfg d root st0) by (intros path e; rewrite H0, lookup_empty; done).
    unfold st. clear st H0. revert st0 Hc0. induction evs as [|ev evs IH]; intros st0 Hc0; [done|]. cbn [foldl]. by apply IH, coherent_step. }
  unfold handle_static. rewrite Hroot. destruct (eq_ignore_ascii_case _ _); [split_and!; reflexivity|]. cbv zeta.
  destruct (existsb _ _); [split_and!; reflexivity|]. unfold cache_get_fast at 2. cbn [sf_files set_files]. rewrite lookup_empty.
  destruct (cache_get_fast st root _) as [e|] eqn:Ec.
  - cbn [fst]. apply cached_as_disk; [done|done|]. by apply Hst.
  - unfold serve_disk. destruct (find cfg d root (sq_path q)) as [status|[p ino]]; [split_and!; reflexivity|]. cbv zeta.
    destruct (client_has _ _ _ _); [split_and!; reflexivity|]. destruct (_ <=? FILE_CACHE_MAX_BYTES).
    + destruct (dk_readable d p); split_and!; reflexivity.
    + unfold serve_large. cbv zeta. unfold fd_cache_get_or_open, range_of. cbn [sf_fds set_files]. rewrite Hr.
      destruct (sf_fds st !! p); [split_and!; reflexivity|]. destruct (dk_node d p) as [[|i]|]; try (split_and!; reflexivity).
      destruct (dk_readable d p); split_and!; reflexivity.
Qed.

(** ** What a client receives *)

(** The bytes of a body, given what the open files contain. *)
Definition body_bytes (d : Disk) (b : sf_body) : option (list Z) :=
  match b with
  | Inline bs => Some bs
  | Streamed fd off len => Some (take (Z.to_nat len) (drop (Z.to_nat off) (dk_content d fd)))
  | StreamEncoded _ _ _ _ => None
  end.

Definition plain_get (q : SfRequest) : Prop :=
  eq_ignore_ascii_case (sq_method q) (lit "HEAD") = false ∧ sq_header q (lit "accept-encoding") = None
  ∧ sq_header q (lit "if-none-match") = None ∧ sq_header q (lit "if-modified-since") = None.

Lemma plain_no_condition q etag m : plain_get q → client_has parse_http_date q etag m = false.
Proof. intros (_ & _ & H1 & H2). unfold client_has. by rewrite H1, H2. Qed.

Lemma plain_identity q e : plain_get q → pick_encoding q e = (fe_data e, None).
Proof. intros (_ & H & _). unfold pick_encoding. by rewrite H. Qed.

Lemma dec_value n : 0 ≤ n → header_value (dec n) = Some (dec n).
Proof using HL. intros Hn. apply header_value_visible, field_visible_text, field_digits, dec_digits, Hn. Qed.

Lemma set_file_headers_length cfg p n etag m h :
  0 ≤ n → hm_get_all (set_file_headers fmt_http_date cfg p n etag m h) (lit "content-length") = [dec n].
Proof using HL.
  intros Hn. unfold set_file_headers, insert_valid. rewrite (dec_value n Hn), get_all_insert.
  rewrite decide_False by done. repeat (case_match; [rewrite get_all_insert; rewrite ?decide_False by done|]);
    rewrite ?get_all_insert; by rewrite decide_True.
Qed.

(** A plain GET of a file the caches do not hold returns the file: status 200, its exact
    bytes and its length, whether it is small and sent from memory or large and streamed. *)
Theorem static_get_exact cfg d q root st p ino :
  plain_get q → sq_header q (lit "range") = None → sg_root cfg = Some root →
  existsb (str_eqb (lit "..")) (split_byte byte_slash (before_byte byte_question (sq_path q))) = false →
  cache_get_fast st root (trim_start_matches (λ b, b =? byte_slash) (before_byte byte_question (sq_path q))) = None →
  locate canonicalize cfg d root (sq_path q) = inr (p, ino) → dk_node d p = Some (NFile ino) → dk_readable d p = true →
  (∀ fd, sf_fds st !! p = Some fd → fd = ino) →
  let resp := fst (handle cfg d q st) in
  sr_status resp = 200 ∧ body_bytes d (sr_body resp) = Some (dk_content d ino)
  ∧ hm_get_all (sr_headers resp) (lit "content-length") = [dec (dk_size d ino)].
Proof using HL.
  intros Hq Hrg Hroot Hdd Hc Hl Hn Hrd Hfd. unfold handle_static. rewrite Hroot. pose proof Hq as (Hh & Hae & _).
  rewrite Hh. cbv zeta. rewrite Hdd, Hc. unfold serve_disk. rewrite Hl. cbv zeta.
  rewrite plain_no_condition by done. destruct (Z.leb_spec (dk_size d ino) FILE_CACHE_MAX_BYTES).
  - rewrite Hrd. cbn [fst]. unfold serve_fresh. rewrite plain_identity by done. cbn [sr_status sr_body sr_headers].
    split_and!; [done|done|]. rewrite !get_all_insert. repeat (rewrite decide_False by done). rewrite decide_True by done.
    unfold make_entry, valid_or. cbn [fe_content_length]. fold (dk_size d ino).
    by rewrite dec_value by (unfold dk_size; lia).
  - unfold serve_large. cbv zeta.
    assert (∃ st1, fd_cache_get_or_open d (sg_limits cfg) (sg_fd_order cfg (sf_fds st)) p st = (Some ino, st1)) as [st1 ->].
    { unfold fd_cache_get_or_open. destruct (sf_fds st !! p) as [fd|] eqn:Ef; [rewrite (Hfd fd) by done; eauto|].
      rewrite Hn, Hrd. eauto. }
    unfold range_of. rewrite Hrg. cbn [mbind option_bind].
    assert (pick_best_encoding_sized (sq_header q (lit "accept-encoding")) (ef_gz (effective_compress (sg_compress cfg) (sg_global cfg)))
              (ef_br (effective_compress (sg_compress cfg) (sg_global cfg))) (ef_zst (effective_compress (sg_compress cfg) (sg_global cfg)))
              (Some (dk_size d ino)) = None) as -> by (by rewrite Hae).
    unfold stream_plain. destruct (can_compress _ _ _); cbn [fst sr_status sr_body sr_headers body_bytes];
      (split_and!; [done| |apply set_file_headers_length; unfold dk_size; lia]);
      unfold dk_size; by rewrite Nat2Z.id, drop_0, firstn_all.
Qed.

(** ** Where the caches go wrong *)

(** A change of the file removes the entry under its path, not the one under
    the text of the request: a document found through a directory index or a
    symbolic link is served from the cache whatever the disk holds now. *)
Theorem stale_index_served cfg d' q root st e p :
  let relative := trim_start_matches (λ b, b =? byte_slash) (before_byte byte_question (sq_path q)) in
  sg_root cfg = Some root → eq_ignore_ascii_case (sq_method q) (lit "HEAD") = false →
  existsb (str_eqb (lit "..")) (split_byte byte_slash (before_byte byte_question (sq_path q))) = false →
  sf_files st !! make_cache_key root relative = Some e → p ≠ make_cache_key root relative →
  fst (handle cfg d' q (watcher_event p st)) = serve_cached parse_http_date q e.
Proof.
  intros relative Hroot Hh Hdd He Hp. unfold handle_static. rewrite Hroot, Hh. cbv zeta. rewrite Hdd. fold relative.
  unfold cache_get_fast, watcher_event. cbn [sf_files set_files]. by rewrite lookup_delete_ne, He.
Qed.

(** An open descriptor is reused for ever: after a large file is replaced, the
    old file is sent under the length and validator of the new one. *)
Theorem stale_descriptor_served cfg d q p ino old etag st :
  plain_get q → sq_header q (lit "range") = None → sf_fds st !! p = Some old →
  sr_body (fst (serve_large fmt_http_date cfg d q p ino etag st)) = Streamed old 0 (dk_size d ino).
Proof.
  intros Hq Hr Hold. unfold serve_large. cbv zeta. unfold fd_cache_get_or_open. rewrite Hold. unfold range_of. rewrite Hr.
  cbn [mbind option_bind]. destruct Hq as (_ & Hae & _). rewrite Hae. by destruct (can_compress _ _ _).
Qed.

(** The root of a location is checked against the canonical root of the site:
    a location root outside it makes every existing file forbidden. *)
Theorem location_root_forbidden cfg d root path cr cf :
  sg_canonical_root cfg = Some cr →
  has_dotdot (before_byte byte_question path) = false →
  canonicalize (path_join root (trim_start_matches is_separator (before_byte byte_question path))) = Some cf →
  under cr cf = false →
  locate canonicalize cfg d root path = inl 403.
Proof. intros Hcr Hdd Hcf Hu. unfold locate, resolve_safe_path. cbv zeta. by rewrite Hdd, Hcr, Hcf, Hu. Qed.

(** A Range request for a small file that is not cached yet gets all of it. *)
Theorem cold_range_ignored cfg d q root key st p ino :
  locate canonicalize cfg d root (sq_path q) = inr (p, ino) → dk_size d ino ≤ FILE_CACHE_MAX_BYTES → dk_readable d p = true →
  plain_get q →
  let resp := fst (serve_disk parse_http_date fmt_http_date encoder canonicalize cfg d q root key st) in
  sr_status resp = 200 ∧ sr_body resp = Inline (dk_content d ino).
Proof.
  intros Hl Hs Hrd Hq. unfold serve_disk. rewrite Hl. cbv zeta. rewrite plain_no_condition by done.
  apply Z.leb_le in Hs. rewrite Hs, Hrd. cbn [fst]. unfold serve_fresh. by rewrite plain_identity.
Qed.

End static_theorems.

(** The table of types gives JSON and JavaScript a charset, so the list of
    compressible types never matches them. *)
Example json_never_compressed :
  compressible_mime (mime_type_for (lit "json")) = false ∧ compressible_mime (mime_type_for (lit "js")) = false.
Proof. split; reflexivity. Qed.

Module Witness.

Import Headers.Model.

Definition pd (s : list Z) : option Z := None.
Definition fd (t : Z) : list Z := lit "Thu, 01 Jan 1970 00:00:00 GMT".
Definition enc (c : coding) (level : Z) (b : list Z) : option (list Z) := None.

(** A disk with a directory, an index document and a page. *)
Definition nodes (p : list Z) : option node :=
  if str_eqb p (lit "/srv") then Some NDir
  else if str_eqb p (lit "/srv/index.html") then Some (NFile 0)
  else if str_eqb p (lit "/srv/a.txt") then Some (NFile 1) else None.
Definition disk (v : string) : Disk := mkDisk nodes (λ i, match i with O => lit v | _ => lit "page" end) (λ _, 5) (λ _, true).
Definition canon (p : list Z) : option (list (list Z)) :=
  if str_eqb p (lit "/srv/a.txt") then Some [lit "srv"; lit "a.txt"]
  else if str_eqb p (lit "/srv") || str_eqb p (lit "/srv/") then Some [lit "srv"]
  else if str_eqb p (lit "/other/x") then Some [lit "other"; lit "x"] else None.
Definition keys {A} (m : gmap (list Z) A) : list (list Z) := fst <$> map_to_list m.
Definition cfg : SfConfig :=
  mkSfCfg (Some (lit "/srv")) (Some [lit "srv"]) [lit "index.html"] None
    (mkSC (mkSiteCompress None None None None None None None) None None) (mkGC default_compress false) default_limits keys keys.
Definition get (path : string) : SfRequest := mkSfReq (lit "GET") (lit path) (λ _, None).
Definition empty : SfState := mkSf ∅ ∅ ∅.

Lemma orders : orders_ok cfg.
Proof.
  assert (H : ∀ A (m : gmap (list Z) A), order_of m (keys m)).
  { intros A m. split; [apply NoDup_fst_map_to_list|]. intros k. unfold keys. rewrite list_elem_of_fmap. split.
    - intros ([k' x] & -> & Hin%elem_of_map_to_list). eauto.
    - intros [x Hx]. exists (k, x). by rewrite elem_of_map_to_list. }
  split; apply H.
Qed.

Lemma static_caches_bounded_witness :
  ∃ resp st', handle_static pd fd enc canon cfg (disk "v1") (get "/a.txt") empty = (resp, st')
              ∧ bounded (sg_limits cfg) st'.
Proof.
  destruct (handle_static pd fd enc canon cfg (disk "v1") (get "/a.txt") empty) as [resp st'] eqn:E.
  exists resp, st'. split; [reflexivity|].
  apply (static_caches_bounded pd fd enc canon cfg (disk "v1") (get "/a.txt") empty resp st'); [by vm_compute|exact orders| |exact E].
  by vm_compute.
Defined.

(** The files of the disk under their own names. *)
Lemma disk_names_itself v : files_name_themselves canon cfg (disk v) (lit "/srv").
Proof.
  intros path path' p ino Hl Hk.
  assert (Hn : dk_node (disk v) p = Some (NFile ino)).
  { unfold locate in Hl. destruct (resolve_safe_path _ _ _ _) as [r|]; [|done]. cbv zeta in Hl.
    destruct (dk_node (disk v) (resolved_text r)) as [[|i]|] eqn:En; [|by injection Hl as <- <-|done].
    destruct (find_first _ _) as [q|]; [|done]. destruct (dk_node (disk v) q) as [[|i]|] eqn:Eq; try done. by injection Hl as <- <-. }
  assert (Hp : p = lit "/srv/index.html" ∧ ino = 0%nat ∨ p = lit "/srv/a.txt" ∧ ino = 1%nat).
  { cbn [dk_node disk] in Hn. unfold nodes in Hn. destruct (str_eqb p (lit "/srv")); [done|].
    destruct (str_eqb p (lit "/srv/index.html")) eqn:E1; [apply str_eqb_eq in E1; left; by injection Hn as <-|].
    destruct (str_eqb p (lit "/srv/a.txt")) eqn:E2; [apply str_eqb_eq in E2; right; by injection Hn as <-|done]. }
  destruct Hp as [[-> ->]|[-> ->]]; [rewrite (locate_key canon cfg (disk v) (lit "/srv") path' (lit "/index.html"))
    |rewrite (locate_key canon cfg (disk v) (lit "/srv") path' (lit "/a.txt"))]; [by vm_compute|by rewrite Hk|by vm_compute|by rewrite Hk].
Qed.

(** The second request admits the file to the cache, the third is answered from it. *)
Lemma static_cache_transparent_witness :
  let st := foldl (sf_step pd fd enc canon cfg (disk "v1")) empty [SfAsk (get "/a.txt"); SfAsk (get "/a.txt")] in
  is_Some (sf_files st !! lit "/srv/a.txt")
  ∧ same_response (fst (handle_static pd fd enc canon cfg (disk "v1") (get "//a.txt?x") st))
      (fst (handle_static pd fd enc canon cfg (disk "v1") (get "//a.txt?x") (set_files ∅ st))).
Proof.
  intros st. split; [by vm_compute; eexists|].
  apply (static_cache_transparent pd fd enc canon cfg (disk "v1") (lit "/srv") empty
           [SfAsk (get "/a.txt"); SfAsk (get "/a.txt")] (get "//a.txt?x")).
  - reflexivity.
  - reflexivity.
  - apply disk_names_itself.
  - intros ino. by vm_compute.
  - reflexivity.
Defined.

Lemma static_get_exact_witness :
  let resp := fst (handle_static pd fd enc canon cfg (disk "v1") (get "/a.txt") empty) in
  sr_status resp = 200 ∧ body_bytes (disk "v1") (sr_body resp) = Some (lit "page")
  ∧ hm_get_all (sr_headers resp) (lit "content-length") = [lit "4"].
Proof.
  apply (static_get_exact pd fd enc canon cfg (disk "v1") (get "/a.txt") (lit "/srv") empty (lit "/srv/a.txt") 1%nat);
    try (vm_compute; reflexivity); [by vm_compute|]. intros x. unfold empty. cbn [sf_fds]. by rewrite lookup_empty.
Defined.

(** The index document cached under [/srv/], then changed on disk. *)
Definition cached : SfState :=
  mkSf {[lit "/srv/" := make_entry fd enc cfg (lit "/srv/index.html") (lit "v1") 5]} ∅ ∅.

Lemma stale_index_served_witness :
  sr_body (fst (handle_static pd fd enc canon cfg (disk "v2") (get "/") (watcher_event (lit "/srv/index.html") cached)))
  = Inline (lit "v1").
Proof.
  rewrite (stale_index_served pd fd enc canon cfg (disk "v2") (get "/") (lit "/srv") cached
             (make_entry fd enc cfg (lit "/srv/index.html") (lit "v1") 5) (lit "/srv/index.html"));
    [vm_compute; reflexivity..|discriminate].
Defined.

Lemma stale_descriptor_served_witness :
  sr_body (fst (serve_large fd cfg (disk "v2") (get "/a.txt") (lit "/srv/a.txt") 1 [] (mkSf ∅ {[lit "/srv/a.txt" := 7%nat]} ∅)))
  = Streamed 7 0 4.
Proof.
  apply (stale_descriptor_served fd cfg (disk "v2") (get "/a.txt") (lit "/srv/a.txt") 1 7); by vm_compute.
Defined.

Lemma location_root_forbidden_witness : locate canon cfg (disk "v1") (lit "/other") (lit "/x") = inl 403.
Proof. apply (location_root_forbidden canon cfg (disk "v1") (lit "/other") (lit "/x") [lit "srv"] [lit "other"; lit "x"]); by vm_compute. Defined.

Lemma cold_range_ignored_witness :
  let q := mkSfReq (lit "GET") (lit "/a.txt") (λ n, if str_eqb n (lit "range") then Some (lit "bytes=0-1") else None) in
  sr_status (fst (serve_disk pd fd enc canon cfg (disk "v1") q (lit "/srv") (lit "/srv/a.txt") empty)) = 200
  ∧ sr_body (fst (serve_disk pd fd enc canon cfg (disk "v1") q (lit "/srv") (lit "/srv/a.txt") empty)) = Inline (lit "page").
Proof.
  intros q. apply (cold_range_ignored pd fd enc canon cfg (disk "v1") q (lit "/srv") (lit "/srv/a.txt") empty
           (lit "/srv/a.txt") 1%nat); by vm_compute.
Defined.

End Witness.
