(* ===== verification/VHost.v ===== *)
(** * Virtual hosts: [src/dispatcher/vhost.rs]

    The registry that maps the Host of a request to a site: registration,
    replacement and removal of sites (copy-on-write on an immutable snapshot),
    injection of run-time resources, and lookup.  [str::to_lowercase] is a
    parameter; on ASCII it is the ASCII lower case. *)

From S2P Require Import Prelude RustStr IpAddr AccessControl RealIp Headers LoadBalance Compress ProxyCache Location Rewrite.

(** ** Settings of a site *)

Record CertKeyPair := mkPair { ck_cert : list Z; ck_key : list Z }.

(** [TlsConfig], without the settings of QUIC and of DNS providers. *)
Record TlsConfig := mkTls {
  tls_acme : bool;
  tls_acme_email : option (list Z);
  tls_cert : option (list Z);
  tls_key : option (list Z);
  tls_certs : list CertKeyPair;
  tls_min_version : list Z;
  tls_max_version : list Z;
  tls_renew_days_before : Z;
  tls_acme_provider : list Z;
  tls_acme_challenge : list Z;
  tls_protocols : list (list Z);
}.

(** [FastCgiConfig]: the address; the other settings keep their defaults. *)
Record FastCgiConfig := mkFcgiCfg { fc_socket : option (list Z); fc_host : option (list Z); fc_port : option Z }.

(** The settings [SiteInfo::from_config] takes over unchanged.  The upstream pools a site holds are built from
    [sx_upstreams] by [pool_from_config]; being shared and mutable, they are part of the state of the proxy. *)
Record SiteExtra := mkExtra {
  sx_websocket : bool;
  sx_compression : SiteCompression;          (* [gzip], [gzip_comp_level], [compress] *)
  sx_upstreams : list UpstreamConfig;
  sx_tls : option TlsConfig;
  sx_fastcgi : option FastCgiConfig;
  sx_proxy_cache : option ProxyCacheConfig;
}.

Section vhost.
Context `{L : HeaderLib} {R : Type} (build : list Z → option R) (to_lowercase : list Z → list Z)
  (canonicalize : list Z → option (list (list Z))).

Record HstsConfig := mkHsts { max_age : Z; include_sub_domains : bool; preload : bool }.

(** The fields of [SiteConfig] that the registry and routing use. *)
Record SiteConfig := mkSite {
  sc_name : list Z;
  sc_server_name : list (list Z);
  sc_fallback : bool;
  sc_force_https : bool;
  sc_listen_tls : list Z;
  sc_acme : bool;
  sc_hsts : option HstsConfig;
  sc_root : option (list Z);
  sc_index : list (list Z);
  sc_error_pages : gmap Z (list Z);
  sc_locations : list LocationConfig;
  sc_rewrites : list RewriteRule;
  sc_real_ip : option RealIpConfig;
  sc_extra : SiteExtra;
}.

(** Run-time resources are handles; [None] until injected. *)
Record SiteInfo := mkInfo {
  si_name : list Z;
  si_locations : list (CompiledLocation (R := R));
  si_root : option (list Z);
  si_canonical_root : option (list (list Z));
  si_index : list (list Z);
  si_error_pages : gmap Z (list Z);
  si_rewrites : list (CompiledRewrite (R := R));
  si_real_ip : option CompiledRealIp;
  si_force_https : bool;
  si_listen_tls : list Z;
  si_acme : bool;
  si_hsts_header : option (list Z);
  si_fallback : bool;
  si_hsts : option HstsConfig;
  si_extra : SiteExtra;
  si_access_logger : option Z;
  si_proxy_cache : option Z;
  si_fcgi_cache : option Z;
}.

Definition hsts_header_value (h : HstsConfig) : option (list Z) :=
  if 0 <? max_age h then
    header_value (lit "max-age=" ++ dec (max_age h)
                  ++ (if include_sub_domains h then lit "; includeSubDomains" else [])
                  ++ (if preload h then lit "; preload" else []))
  else None.

(** [SiteInfo::from_config] *)
Definition site_from_config (cfg : SiteConfig) : SiteInfo :=
  mkInfo (sc_name cfg) (site_locations build (bool_decide (is_Some (sc_root cfg))) (sc_locations cfg))
    (sc_root cfg) (sc_root cfg ≫= canonicalize) (sc_index cfg) (sc_error_pages cfg) (omap (compile_rewrite build) (sc_rewrites cfg))
    (match sc_real_ip cfg with Some c => CompiledRealIp_compile c | None => None end)
    (sc_force_https cfg && negb (bool_decide (sc_listen_tls cfg = []))) (sc_listen_tls cfg) (sc_acme cfg)
    (match sc_hsts cfg with Some h => hsts_header_value h | None => None end)
    (sc_fallback cfg) (sc_hsts cfg) (sc_extra cfg) None None None.

Record VHostInner := mkVHost {
  exact : gmap (list Z) SiteInfo;
  wildcard : gmap (list Z) SiteInfo;
  fallback : option SiteInfo;
}.

Definition vhost_empty : VHostInner := mkVHost ∅ ∅ None.

(** One server name of [upsert_site]. *)
Definition insert_name (info : SiteInfo) (m : VHostInner) (server_name : list Z) : VHostInner :=
  if starts_with (lit "*.") server_name
  then mkVHost (exact m) (<[to_lowercase (drop 2 server_name) := info]> (wildcard m)) (fallback m)
  else mkVHost (<[to_lowercase server_name := info]> (exact m)) (wildcard m) (fallback m).

Definition retain_other (name : list Z) (m : gmap (list Z) SiteInfo) : gmap (list Z) SiteInfo :=
  filter (λ kv, si_name (snd kv) ≠ name) m.

(** [upsert_site] *)
Definition upsert_site (old : VHostInner) (cfg : SiteConfig) : VHostInner :=
  let info := site_from_config cfg in
  let m := mkVHost (retain_other (sc_name cfg) (exact old)) (retain_other (sc_name cfg) (wildcard old)) (fallback old) in
  let m := foldl (insert_name info) m (sc_server_name cfg) in
  if sc_fallback cfg then mkVHost (exact m) (wildcard m) (Some info) else m.

(** [from_config] *)
Definition registry_from_config (sites : list SiteConfig) : VHostInner := foldl upsert_site vhost_empty sites.

(** [remove_site] *)
Definition remove_site (old : VHostInner) (name : list Z) : VHostInner :=
  mkVHost (retain_other name (exact old)) (retain_other name (wildcard old))
    (match fallback old with
     | Some d => if str_eqb (si_name d) name then None else Some d
     | None => None
     end).

(** [inject_site_resources]; [order] is the order in which the map of exact
    names is visited. *)
Definition with_resources (l pc fc : option Z) (i : SiteInfo) : SiteInfo :=
  mkInfo (si_name i) (si_locations i) (si_root i) (si_canonical_root i) (si_index i) (si_error_pages i) (si_rewrites i) (si_real_ip i) (si_force_https i) (si_listen_tls i) (si_acme i) (si_hsts_header i)
    (si_fallback i) (si_hsts i) (si_extra i) l pc fc.

(** A registry with what was injected into its sites left out. *)
Definition bare (i : SiteInfo) : SiteInfo := with_resources None None None i.
Definition bare_registry (m : VHostInner) : VHostInner :=
  mkVHost (bare <$> exact m) (bare <$> wildcard m) (bare <$> fallback m).

Definition first_named (name : list Z) (order : list (list Z)) (m : gmap (list Z) SiteInfo) : option SiteInfo :=
  find_first (λ i, str_eqb (si_name i) name) (omap (m !!.) order).

Definition replace_named (name : list Z) (info : SiteInfo) (m : gmap (list Z) SiteInfo) : gmap (list Z) SiteInfo :=
  (λ i, if str_eqb (si_name i) name then info else i) <$> m.

Definition inject_site_resources (old : VHostInner) (order : list (list Z)) (name : list Z) (l pc fc : option Z)
  : VHostInner :=
  match first_named name order (exact old) with
  | None => old
  | Some i =>
      let info := with_resources l pc fc i in
      mkVHost (replace_named name info (exact old)) (replace_named name info (wildcard old))
        (match fallback old with
         | Some f => if str_eqb (si_name f) name then Some info else Some f
         | None => None
         end)
  end.

(** [strip_port] *)
Definition strip_port (host : list Z) : list Z :=
  match (if starts_with (lit "[") host then find_byte 93 host else None) with
  | Some stop => take (S stop) host
  | None =>
      match rfind_byte byte_colon host with
      | Some pos => take pos host
      | None => host
      end
  end.

(** [lookup_inner] *)
Definition lookup_inner (m : VHostInner) (host : list Z) : option SiteInfo :=
  let host_lower := if forallb (λ b, negb (is_ascii_uppercase b)) host then host else to_ascii_lowercase host in
  match exact m !! host_lower with
  | Some s => Some s
  | None =>
      match (match find_byte byte_dot host_lower with
             | Some dot => wildcard m !! drop (S dot) host_lower
             | None => None
             end) with
      | Some s => Some s
      | None => fallback m
      end
  end.

(** [lookup], and [lookup_strict], which is the same *)
Definition vhost_lookup (m : VHostInner) (host : list Z) : option SiteInfo := lookup_inner m (strip_port host).
Definition vhost_lookup_strict (m : VHostInner) (host : list Z) : option SiteInfo := lookup_inner m (strip_port host).

(** [site_count]: sites with an exact name. *)
Definition site_count (m : VHostInner) : nat :=
  size (list_to_set (si_name ∘ snd <$> map_to_list (exact m)) : gset (list Z)).

(** ** The specification: a scan of the configured sites *)

Definition exact_names (cfg : SiteConfig) : list (list Z) :=
  to_lowercase <$> filter (λ n, starts_with (lit "*.") n = false) (sc_server_name cfg).
Definition wildcard_names (cfg : SiteConfig) : list (list Z) :=
  (to_lowercase ∘ drop 2) <$> filter (λ n, starts_with (lit "*.") n = true) (sc_server_name cfg).

Definition last_with (p : SiteConfig → bool) (sites : list SiteConfig) : option SiteConfig := find_first p (rev sites).

Definition spec_lookup (sites : list SiteConfig) (host : list Z) : option SiteConfig :=
  let h := to_ascii_lowercase host in
  match last_with (λ s, bool_decide (h ∈ exact_names s)) sites with
  | Some s => Some s
  | None =>
      match (match find_byte byte_dot h with
             | Some dot => last_with (λ s, bool_decide (drop (S dot) h ∈ wildcard_names s)) sites
             | None => None
             end) with
      | Some s => Some s
      | None => last_with sc_fallback sites
      end
  end.

Lemma insert_names_lookup info names m h :
  exact (foldl (insert_name info) m names) !! h
  = (if bool_decide (h ∈ to_lowercase <$> filter (λ n, starts_with (lit "*.") n = false) names) then Some info else exact m !! h)
  ∧ wildcard (foldl (insert_name info) m names) !! h
    = (if bool_decide (h ∈ (to_lowercase ∘ drop 2) <$> filter (λ n, starts_with (lit "*.") n = true) names)
       then Some info else wildcard m !! h)
  ∧ fallback (foldl (insert_name info) m names) = fallback m.
Proof.
  revert m; induction names as [|n names IH]; intros m; [by rewrite filter_nil|].
  cbn [foldl]. destruct (IH (insert_name info m n)) as (-> & -> & ->). rewrite !filter_cons. unfold insert_name.
  destruct (starts_with (lit "*.") n) eqn:E; cbn [exact wildcard fallback].
  - rewrite (decide_False (P := true = false)), (decide_True (P := true = true)) by done. by rewrite lookup_insert_members.
  - rewrite (decide_False (P := false = true)), (decide_True (P := false = false)) by done. by rewrite lookup_insert_members.
Qed.

Lemma upsert_lookup m cfg h :
  exact (upsert_site m cfg) !! h
  = (if bool_decide (h ∈ exact_names cfg) then Some (site_from_config cfg) else retain_other (sc_name cfg) (exact m) !! h)
  ∧ wildcard (upsert_site m cfg) !! h
    = (if bool_decide (h ∈ wildcard_names cfg) then Some (site_from_config cfg)
       else retain_other (sc_name cfg) (wildcard m) !! h)
  ∧ fallback (upsert_site m cfg) = (if sc_fallback cfg then Some (site_from_config cfg) else fallback m).
Proof.
  unfold upsert_site, exact_names, wildcard_names. cbv zeta.
  set (m0 := mkVHost (retain_other _ _) _ (fallback m)). pose proof (insert_names_lookup (site_from_config cfg) (sc_server_name cfg) m0 h) as H.
  destruct H as (H1 & H2 & H3). destruct (sc_fallback cfg); cbn [exact wildcard fallback]; rewrite ?H1, ?H2, ?H3; done.
Qed.

Lemma last_with_app p a b : last_with p (a ++ [b]) = if p b then Some b else last_with p a.
Proof. unfold last_with. by rewrite rev_app_distr. Qed.

Lemma last_with_elem p sites s : last_with p sites = Some s → s ∈ sites ∧ p s = true.
Proof. intros [H ?]%find_first_elem. split; [|done]. by apply list_elem_of_In, in_rev, list_elem_of_In. Qed.

Lemma retain_other_id (m : gmap (list Z) SiteInfo) name h :
  (∀ i, m !! h = Some i → si_name i ≠ name) → retain_other name m !! h = m !! h.
Proof.
  intros Hn. unfold retain_other. rewrite map_lookup_filter. destruct (m !! h) as [i|] eqn:E; [|done].
  cbn. rewrite option_guard_True; [done|]. cbn. by apply Hn.
Qed.

(** The registry holds, for every name, the last site that lists it. *)
Lemma registry_tables sites h :
  NoDup (sc_name <$> sites) →
  exact (registry_from_config sites) !! h
    = site_from_config <$> last_with (λ s, bool_decide (h ∈ exact_names s)) sites
  ∧ wildcard (registry_from_config sites) !! h
    = site_from_config <$> last_with (λ s, bool_decide (h ∈ wildcard_names s)) sites
  ∧ fallback (registry_from_config sites) = site_from_config <$> last_with sc_fallback sites.
Proof.
  induction sites as [|s sites IH] using rev_ind; intros Hnd.
  { unfold last_with. cbn. by rewrite !lookup_empty. }
  rewrite fmap_app, NoDup_app in Hnd. destruct Hnd as (Hnd & Hs & _). specialize (IH Hnd).
  unfold registry_from_config in *. rewrite foldl_app. cbn [foldl]. rewrite !last_with_app.
  set (m := foldl upsert_site vhost_empty sites) in *. destruct IH as (I1 & I2 & I3).
  assert (Hne : ∀ p i, site_from_config <$> last_with p sites = Some i → si_name i ≠ sc_name s).
  { intros p i (s' & E & ->)%fmap_Some. apply last_with_elem in E as [E _]. intros Heq.
    apply (Hs (sc_name s')); [by apply list_elem_of_fmap_2|]. cbn. change (si_name (site_from_config s')) with (sc_name s') in Heq.
    rewrite Heq. by apply list_elem_of_singleton. }
  destruct (upsert_lookup m s h) as (-> & -> & ->).
  rewrite !retain_other_id, I1, I2, I3.
  - split_and!; case_match; done.
  - intros i Hi. rewrite I2 in Hi. by apply (Hne _ _ Hi).
  - intros i Hi. rewrite I1 in Hi. by apply (Hne _ _ Hi).
Qed.

Lemma host_lower h :
  (if forallb (λ b, negb (is_ascii_uppercase b)) h then h else to_ascii_lowercase h) = to_ascii_lowercase h.
Proof.
  destruct (forallb _ h) eqn:E; [|done]. symmetry. unfold to_ascii_lowercase.
  induction h as [|b h IH]; [done|]. cbn [forallb] in E. apply andb_true_iff in E as [Hb E].
  rewrite fmap_cons, IH by done. unfold byte_lower. by destruct (is_ascii_uppercase b).
Qed.

(** A list of sites in which no two have a name, claim a host or a wildcard, or are the fallback together. *)
Definition conflict_free (cs : list SiteConfig) : Prop :=
  NoDup (sc_name <$> cs)
  ∧ (∀ a b h, a ∈ cs → b ∈ cs → h ∈ exact_names a → h ∈ exact_names b → a = b)
  ∧ (∀ a b h, a ∈ cs → b ∈ cs → h ∈ wildcard_names a → h ∈ wildcard_names b → a = b)
  ∧ (∀ a b, a ∈ cs → b ∈ cs → sc_fallback a = true → sc_fallback b = true → a = b).



Lemma last_with_unique p (cs : list SiteConfig) c :
  c ∈ cs → p c = true → (∀ c', c' ∈ cs → p c' = true → c' = c) → last_with p cs = Some c.
Proof.
  intros Hc Hp Hu. destruct (last_with p cs) as [c'|] eqn:E.
  - apply last_with_elem in E as [H1 H2]. f_equal. by apply Hu.
  - exfalso. unfold last_with in E. apply find_first_None in E. rewrite Forall_forall in E.
    rewrite E in Hp; [done|]. by apply list_elem_of_In, in_rev; rewrite rev_involutive; apply list_elem_of_In.
Qed.

Lemma last_with_none p (cs : list SiteConfig) : last_with p cs = None → ∀ c, c ∈ cs → p c = false.
Proof.
  intros E c Hc. unfold last_with in E. apply find_first_None in E. rewrite Forall_forall in E. apply E.
  by apply list_elem_of_In, in_rev; rewrite rev_involutive; apply list_elem_of_In.
Qed.

Lemma spec_lookup_elem sites host c : spec_lookup sites host = Some c → c ∈ sites.
Proof.
  unfold spec_lookup. cbv zeta. destruct (last_with _ sites) as [x|] eqn:E; [intros [= <-]; by apply last_with_elem in E as []|].
  destruct (match find_byte _ _ with Some _ => _ | None => _ end) as [x|] eqn:E2.
  - intros [= <-]. destruct (find_byte _ _); [by apply last_with_elem in E2 as []|done].
  - intros H. by apply last_with_elem in H as [].
Qed.

Lemma registry_lookup_spec sites host :
  NoDup (sc_name <$> sites) →
  lookup_inner (registry_from_config sites) host = site_from_config <$> spec_lookup sites host.
Proof.
  intros Hnd. unfold lookup_inner, spec_lookup. cbv zeta. rewrite host_lower. set (h := to_ascii_lowercase host).
  destruct (registry_tables sites h Hnd) as (-> & _ & ->).
  destruct (last_with _ sites) as [s|]; [done|]. cbn [fmap option_fmap option_map].
  destruct (find_byte byte_dot h) as [dot|]; [|done].
  destruct (registry_tables sites (drop (S dot) h) Hnd) as (_ & -> & _). by destruct (last_with _ sites).
Qed.

(** C11: The registry answers as a scan of the configuration does.  With distinct
    site names, looking up a host in the registry built from any list of sites gives the
    last site that lists the host (case-insensitively), else the last site with a
    wildcard for what follows its first label, else the last fallback site. *)
Theorem vhost_lookup_correct sites host :
  NoDup (sc_name <$> sites) →
  lookup_inner (registry_from_config sites) host = site_from_config <$> spec_lookup sites host.
Proof. apply registry_lookup_spec. Qed.

(** Neither a port nor the case of letters changes the site.  The lookup of
    [name:port] is that of the name alone in any other spelling, for names without a colon. *)
Theorem lookup_ignores_port_and_case m name name' port :
  byte_colon ∉ port → byte_colon ∉ name' → starts_with (lit "[") name = false → starts_with (lit "[") name' = false →
  name ≠ [] → to_ascii_lowercase name = to_ascii_lowercase name' →
  vhost_lookup m (name ++ [byte_colon] ++ port) = vhost_lookup m name'.
Proof.
  intros Hp Hn' Hb Hb' Hne Hl. unfold vhost_lookup, strip_port. rewrite Hb'.
  assert (starts_with (lit "[") (name ++ [byte_colon] ++ port) = false) as ->.
  { destruct name as [|b name]; [done|]. unfold starts_with in *. change (lit "[") with [91] in *.
    cbn [app strip_prefix] in *. by destruct (91 =? b). }
  change ([byte_colon] ++ port) with (byte_colon :: port). rewrite rfind_byte_app, take_app_length by done. rewrite (proj2 (rfind_byte_None _ _) Hn').
  unfold lookup_inner. cbv zeta. by rewrite !host_lower, Hl.
Qed.

Lemma retain_other_Some name m h i :
  retain_other name m !! h = Some i ↔ m !! h = Some i ∧ si_name i ≠ name.
Proof. unfold retain_other. by rewrite map_lookup_filter_Some. Qed.

(** A removed site is gone and the others stay.  After [remove_site], no host is
    answered by a site of that name, and a host that another site answered by name is still
    answered by it. *)
Theorem remove_site_correct m name host :
  (∀ i, lookup_inner (remove_site m name) host = Some i → si_name i ≠ name)
  ∧ (∀ i, exact m !! to_ascii_lowercase host = Some i → si_name i ≠ name →
          lookup_inner (remove_site m name) host = Some i).
Proof.
  unfold lookup_inner. cbv zeta. rewrite host_lower. set (h := to_ascii_lowercase host).
  cbn [remove_site exact wildcard fallback]. split.
  - intros i. destruct (retain_other name (exact m) !! h) as [j|] eqn:E1.
    { apply retain_other_Some in E1 as [_ ?]. by intros [= <-]. }
    destruct (match find_byte byte_dot h with Some _ => _ | None => None end) as [j|] eqn:E2.
    { destruct (find_byte byte_dot h); [|done]. apply retain_other_Some in E2 as [_ ?]. by intros [= <-]. }
    destruct (fallback m) as [d|]; [|done]. unfold str_eqb. case_bool_decide; [done|]. by intros [= <-].
  - intros i Hi Hn. by rewrite (proj2 (retain_other_Some name (exact m) h i)).
Qed.

(** Replacing a fallback site leaves its old version in place.  When a site that
    was the fallback is updated to one that is not, hosts nobody lists are still answered by
    the old configuration. *)
Theorem stale_fallback_kept m old new host :
  sc_fallback old = true → sc_fallback new = false → sc_name new = sc_name old →
  let m' := upsert_site (upsert_site m old) new in
  exact m' !! to_ascii_lowercase host = None →
  (∀ dot, find_byte byte_dot (to_ascii_lowercase host) = Some dot →
          wildcard m' !! drop (S dot) (to_ascii_lowercase host) = None) →
  lookup_inner m' host = Some (site_from_config old).
Proof.
  intros Hf Hf' Hn m' He Hw. unfold lookup_inner. cbv zeta. rewrite host_lower, He.
  assert (fallback m' = Some (site_from_config old)) as ->.
  { unfold m'. destruct (upsert_lookup (upsert_site m old) new []) as (_ & _ & ->). rewrite Hf'.
    destruct (upsert_lookup m old []) as (_ & _ & ->). by rewrite Hf. }
  destruct (find_byte byte_dot _) as [dot|]; [|done]. by rewrite Hw.
Qed.

(** A site with wildcard names only gets no resources.  Its access log and
    caches are never attached. *)
Theorem inject_skips_wildcard_sites m order name l pc fc :
  (∀ h i, exact m !! h = Some i → si_name i ≠ name) →
  inject_site_resources m order name l pc fc = m.
Proof.
  intros H. unfold inject_site_resources, first_named.
  assert (find_first (λ i, str_eqb (si_name i) name) (omap (exact m !!.) order) = None) as ->; [|done].
  apply find_first_None, Forall_forall. intros i (h & _ & Hh)%list_elem_of_omap.
  unfold str_eqb. apply bool_decide_false. by apply (H h).
Qed.

End vhost.

Module Witness.

Definition extra : SiteExtra := mkExtra true (mkSC (mkSiteCompress None None None None None None None) None None) [] None None None.

Import Headers.Model.

Definition bld (p : list Z) : option unit := None.
Definition canon (p : list Z) : option (list (list Z)) := None.
Definition site (name : string) (hosts : list string) (fb : bool) : SiteConfig :=
  mkSite (lit name) (lit <$> hosts) fb false [] false None None [] ∅ [] [] None extra.
Definition sites : list SiteConfig :=
  [site "a" ["example.com"; "*.example.com"]%string false; site "b" ["www.Example.com"]%string false; site "c" ["x"]%string true].
Notation reg := (registry_from_config bld to_ascii_lowercase canon sites).

Lemma vhost_lookup_correct_witness :
  lookup_inner reg (lit "API.example.com") = Some (site_from_config bld canon (site "a" ["example.com"; "*.example.com"]%string false))
  ∧ lookup_inner reg (lit "WWW.example.com") = Some (site_from_config bld canon (site "b" ["www.Example.com"]%string false)).
Proof.
  split.
  - apply (vhost_lookup_correct bld to_ascii_lowercase canon sites (lit "API.example.com")). apply (bool_decide_unpack _). by vm_compute.
  - apply (vhost_lookup_correct bld to_ascii_lowercase canon sites (lit "WWW.example.com")). apply (bool_decide_unpack _). by vm_compute.
Defined.

Lemma lookup_ignores_port_and_case_witness :
  vhost_lookup reg (lit "Example.COM" ++ [byte_colon] ++ lit "8443") = vhost_lookup reg (lit "example.com").
Proof.
  apply lookup_ignores_port_and_case; [apply (bool_decide_unpack _); by vm_compute..|done|done|done|done].
Defined.

Lemma remove_site_correct_example : lookup_inner (remove_site reg (lit "c")) (lit "unknown") = None.
Proof. by vm_compute. Qed.

Lemma stale_fallback_kept_witness :
  let old := site "s" ["old.test"]%string true in
  lookup_inner (upsert_site bld to_ascii_lowercase canon (upsert_site bld to_ascii_lowercase canon vhost_empty old) (site "s" ["new.test"]%string false))
    (lit "unknown") = Some (site_from_config bld canon old).
Proof. intros old. apply (stale_fallback_kept bld to_ascii_lowercase canon vhost_empty old); [done..|by vm_compute|]. intros dot [=]. Defined.

Lemma inject_skips_wildcard_sites_witness :
  let m := registry_from_config bld to_ascii_lowercase canon [site "w" ["*.example.com"]%string false] in
  inject_site_resources m [] (lit "w") (Some 1) None None = m.
Proof. intros m. apply inject_skips_wildcard_sites. intros h i. assert (exact m = ∅) as -> by reflexivity. by rewrite lookup_empty. Defined.

End Witness.
