(* ===== verification/AuthRequest.v ===== *)
(** * Authorisation sub-requests: [src/handler/auth_request.rs]

    Before the handler of a location with [auth_request] runs, a GET request
    is sent to the authorisation service, and its status decides.  The network
    is a parameter: what a connection to a host and port answers to the
    request written to it. *)

From S2P Require Import Prelude RustStr IpAddr Headers Retry Http1.

(** ** The target *)

(** [reject_ssrf_target]: true when the target is refused. *)
Definition reject_ssrf_target (host : list Z) : bool :=
  match parse_ip host with
  | Some (V4 a) => bool_decide (take 2 (octets4 a) = [169; 254]) || bool_decide (octets4 a = [100; 100; 100; 200])
  | Some (V6 a) =>
      let seg0 := a / 2 ^ 112 in
      (Z.land seg0 65280 =? 64768) || (Z.land seg0 65472 =? 65152)
  | None => false
  end.

Record AuthTarget := mkTarget { at_host : list Z; at_port : Z; at_path : list Z; at_tls : bool }.

(** [parse_auth_url] *)
Definition parse_auth_url (url : list Z) : option AuthTarget :=
  if starts_with (lit "http://") url || starts_with (lit "https://") url then
    let use_tls := starts_with (lit "https://") url in
    let without_scheme := drop (if use_tls then 8 else 7) url in
    let '(authority, path) :=
      match find_byte byte_slash without_scheme with
      | Some idx => (take idx without_scheme, drop idx without_scheme)
      | None => (without_scheme, lit "/")
      end in
    '(host, port) ← match rfind_byte byte_colon authority with
                    | Some colon =>
                        port ← parse_uint u16_max (drop (S colon) authority);
                        Some (take colon authority, port)
                    | None => Some (authority, if use_tls then 443 else 80)
                    end;
    if reject_ssrf_target host then None else Some (mkTarget host port path use_tls)
  else if starts_with (lit "/") url then Some (mkTarget (lit "127.0.0.1") 80 url false)
  else None.

(** ** The request *)

Definition pass_headers : list (list Z) :=
  lit <$> ["cookie"; "authorization"; "accept"; "accept-language"; "x-forwarded-for"; "x-real-ip"; "x-forwarded-proto"]%string.

Definition push_header (req name value : list Z) : list Z := req ++ name ++ lit ": " ++ value ++ CRLF.

(** The request text of [do_auth_request]; [headers] gives the first value of
    a header of the client when it is visible ASCII. *)
Definition auth_head (t : AuthTarget) (headers : list Z → option (list Z)) (client_ip : list Z)
    (extra_headers : list HeaderOverride) : list Z :=
  let req := lit "GET " ++ at_path t ++ lit " HTTP/1.1" ++ CRLF ++ lit "Host: " ++ at_host t ++ CRLF in
  let req := foldl (λ req name, match headers name with Some v => push_header req name v | None => req end)
               req pass_headers in
  let req := foldl (λ req h, push_header req (ho_name h) (replace (lit "$remote_addr") client_ip (ho_value h)))
               req extra_headers in
  let req := push_header req (lit "X-Real-IP") client_ip in
  req ++ lit "X-Auth-Request: 1" ++ CRLF ++ lit "Connection: close" ++ CRLF ++ lit "Content-Length: 0" ++ CRLF ++ CRLF.

(** ** The response *)

Definition AUTH_MAX_LINE_LEN : nat := 8192.
Definition AUTH_MAX_HEADERS : nat := 100.

(** [parse_status_u16] *)
Definition parse_status_u16 (line : list Z) : Z :=
  match split_whitespace line !! 1%nat with
  | Some s => default 500 (parse_uint u16_max s)
  | None => 500
  end.

(** The header loop of [read_auth_response]: every round that goes on has
    read a non-empty line, so the length of the stream bounds the rounds. *)
Fixpoint read_auth_headers (fuel : nat) (headers : list (list Z * list Z)) (s : list Z) (e : stream_end)
  : io (list (list Z * list Z)) :=
  match fuel with
  | O => Done headers
  | S fuel =>
      if (AUTH_MAX_HEADERS <=? length headers)%nat then Done headers
      else match read_line s e with
           | (LineBlocked, _) => Blocked
           | (Line [], _) | (LineErr _ _, _) => Done headers
           | (Line l, s') =>
               if (AUTH_MAX_LINE_LEN <? length l)%nat then read_auth_headers fuel headers s' e
               else match trim l with
                    | [] => Done headers
                    | trimmed =>
                        read_auth_headers fuel
                          (match split_header trimmed with Some kv => headers ++ [kv] | None => headers end) s' e
                    end
           end
  end.

(** [read_auth_response]; only the status line is read under a timeout. *)
Definition read_auth_response (s : list Z) (e : stream_end) : io (Z * list (list Z * list Z)) :=
  match read_line s e with
  | (LineBlocked, _) | (LineErr _ _, _) => Failed
  | (Line line, s') =>
      if (AUTH_MAX_LINE_LEN <? length line)%nat then Failed
      else headers ← read_auth_headers (S (length s')) [] s' e;
           Done (parse_status_u16 line, headers)
  end.

(** ** The check *)

(** What a connection gives: no connection (or no TLS session, or a failed
    write), a TLS handshake or a write that never ends, or the bytes sent back
    and how that side ends. *)
Inductive net_reply := NetFail | NetHang | NetReply (s : list Z) (e : stream_end).

Definition network : Type := list Z → Z → bool → list Z → net_reply.

(** [do_auth_request] *)
Definition do_auth_request (net : network) (auth_url : list Z) (headers : list Z → option (list Z))
    (client_ip : list Z) (extra_headers : list HeaderOverride) : io (Z * list (list Z * list Z)) :=
  match parse_auth_url auth_url with
  | None => Failed
  | Some t =>
      match net (at_host t) (at_port t) (at_tls t) (auth_head t headers client_ip extra_headers) with
      | NetFail => Failed
      | NetHang => Blocked
      | NetReply s e => read_auth_response s e
      end
  end.

Inductive AuthResult := AuthAllow (headers : list (list Z * list Z)) | AuthDeny (status : Z).

(** [check]; [None] when it never returns. *)
Definition check (net : network) (auth_url : list Z) (headers : list Z → option (list Z)) (client_ip : list Z)
    (extra_headers : list HeaderOverride) (failure_status : Z) : option AuthResult :=
  match do_auth_request net auth_url headers client_ip extra_headers with
  | Done (status, resp_headers) =>
      if (200 <=? status) && (status <? 300) then Some (AuthAllow resp_headers) else Some (AuthDeny failure_status)
  | Failed => Some (AuthDeny failure_status)
  | Blocked => None
  end.

(** ** What the check guarantees *)

(** A line read leaves less of the stream. *)
Lemma read_line_shorter s e b l s' : read_line s e = (Line (b :: l), s') → (length s' < length s)%nat.
Proof.
  unfold read_line. destruct (find_byte LF s) as [i|] eqn:Ei.
  - case_test; [|done]. intros [= Hl <-]. rewrite length_drop. destruct s; [done|]. cbn [length]. lia.
  - destruct e; try done. case_test; [|done]. intros [= -> <-]. cbn [length]. lia.
Qed.

(** More fuel than the length of the stream changes nothing: the header loop
    ends by its own tests. *)
Lemma read_auth_headers_fuel f1 f2 hs s e :
  (length s < f1)%nat → (length s < f2)%nat → read_auth_headers f1 hs s e = read_auth_headers f2 hs s e.
Proof.
  revert f2 hs s. induction f1 as [|f1 IH]; intros [|f2] hs s H1 H2; try lia. cbn [read_auth_headers].
  case_test; [done|]. destruct (read_line s e) as [[[|b l]| |] s'] eqn:El; try done.
  apply read_line_shorter in El. case_test; [apply IH; lia|]. case_match; [done|]. apply IH; lia.
Qed.

Lemma parse_auth_url_checked url t : parse_auth_url url = Some t → reject_ssrf_target (at_host t) = false.
Proof.
  unfold parse_auth_url. destruct (starts_with (lit "http://") url || _); [|case_test; [|done]; by intros [= <-]].
  destruct (match find_byte byte_slash _ with Some _ => _ | None => _ end) as [authority path].
  intros ([host port] & _ & H)%bind_Some. destruct (reject_ssrf_target host) eqn:E; [done|]. by injection H as <-.
Qed.

(** C35: Authorisation fails closed.  A request is let through only if a target that passed
    the address check was contacted with the sub-request and answered with a status line whose code
    is 2xx; in every other case in which the check returns, the request is refused with the
    configured status. *)
Theorem auth_fails_closed net url hs ip ex code r :
  check net url hs ip ex code = Some r →
  r = AuthDeny code
  ∨ ∃ t s e line s' rh,
      r = AuthAllow rh ∧ parse_auth_url url = Some t ∧ reject_ssrf_target (at_host t) = false
      ∧ net (at_host t) (at_port t) (at_tls t) (auth_head t hs ip ex) = NetReply s e
      ∧ read_line s e = (Line line, s') ∧ 200 ≤ parse_status_u16 line < 300.
Proof.
  unfold check, do_auth_request. destruct (parse_auth_url url) as [t|] eqn:Et; [|intros [= <-]; by left].
  destruct (net _ _ _ _) as [| |s e] eqn:En; [intros [= <-]; by left|done|].
  unfold read_auth_response. destruct (read_line s e) as [[line|k l|] s'] eqn:El; [|intros [= <-]; by left..].
  case_test; [intros [= <-]; by left|].
  destruct (read_auth_headers _ _ _ _) as [rh| |]; [|intros [= <-]; by left|done]. cbn [mbind io_bind].
  destruct ((200 <=? parse_status_u16 line) && (parse_status_u16 line <? 300)) eqn:Es; intros [= <-]; [right|by left].
  apply andb_true_iff in Es as [?%Z.leb_le ?%Z.ltb_lt].
  exists t, s, e, line, s', rh. split_and!; try done. by eapply parse_auth_url_checked.
Qed.

(** A service that sends its status line and then stays silent makes the check
    wait for ever. *)
Theorem silent_service_hangs net url hs ip ex code t line :
  parse_auth_url url = Some t →
  net (at_host t) (at_port t) (at_tls t) (auth_head t hs ip ex) = NetReply (line ++ CRLF) EndOpen →
  field line → (length line ≤ 8000)%nat →
  check net url hs ip ex code = None.
Proof.
  intros Ht Hn Hl Hlen. unfold check, do_auth_request. rewrite Ht, Hn. unfold read_auth_response.
  unfold CRLF. rewrite (read_line_field line [] EndOpen Hl). case_test; [|done].
  match goal with H : (_ <? _)%nat = true |- _ => apply Nat.ltb_lt in H; rewrite length_app in H end.
  unfold AUTH_MAX_LINE_LEN in *. cbn in *. lia.
Qed.

(** The pushes only extend the text. *)
Lemma push_fold_app {A} (f : list Z → A → list Z) (l : list A) req :
  (∀ req x, ∃ out, f req x = req ++ out) → ∃ out, foldl f req l = req ++ out.
Proof.
  intros Hf. revert req. induction l as [|x l IH]; intros req; [exists []; by rewrite app_nil_r|].
  cbn [foldl]. destruct (Hf req x) as [o1 ->]. destruct (IH (req ++ o1)) as [o2 ->]. exists (o1 ++ o2). by rewrite app_assoc.
Qed.

(** The service sees the X-Real-IP header of the client before the one the
    server adds. *)
Theorem real_ip_header_spoofable t hs ip ex v :
  hs (lit "x-real-ip") = Some v →
  ∃ a b c, auth_head t hs ip ex
           = a ++ (lit "x-real-ip: " ++ v ++ CRLF) ++ b ++ (lit "X-Real-IP: " ++ ip ++ CRLF) ++ c.
Proof.
  intros Hv. unfold auth_head. set (req0 := lit "GET " ++ _).
  change pass_headers with (take 5 pass_headers ++ lit "x-real-ip" :: drop 6 pass_headers).
  rewrite foldl_app. cbn [foldl]. rewrite Hv. set (f := λ req name, match hs name with Some _ => _ | None => req end).
  set (g := λ req h, push_header req (ho_name h) _).
  assert (Hf : ∀ req x, ∃ out, f req x = req ++ out).
  { intros req x. unfold f. destruct (hs x) as [w|]; [by eexists|exists []; by rewrite app_nil_r]. }
  destruct (push_fold_app f (drop 6 pass_headers) (push_header (foldl f req0 (take 5 pass_headers)) (lit "x-real-ip") v) Hf)
    as [o1 ->].
  match goal with |- context[foldl g ?r ex] => destruct (push_fold_app g ex r) as [o2 ->]; [intros; by eexists|] end.
  exists (foldl f req0 (take 5 pass_headers)), (o1 ++ o2), (lit "X-Auth-Request: 1" ++ CRLF ++ lit "Connection: close"
    ++ CRLF ++ lit "Content-Length: 0" ++ CRLF ++ CRLF).
  unfold push_header. rewrite <- !app_assoc. reflexivity.
Qed.

(** A bracketed IPv6 address is not recognised as an address, so the address
    check does not apply to it. *)
Theorem bracketed_address_unchecked h port path :
  byte_slash ∉ h → is_u16 port →
  parse_auth_url (lit "http://[" ++ h ++ lit "]:" ++ dec port ++ byte_slash :: path)
  = Some (mkTarget (lit "[" ++ h ++ lit "]") port (byte_slash :: path) false).
Proof.
  intros Hh Hp. unfold parse_auth_url.
  set (auth := lit "[" ++ h ++ lit "]:" ++ dec port).
  assert (Hdig : field (dec port)) by (apply field_digits, dec_digits; unfold is_u16 in Hp; lia).
  assert (Hu : lit "http://[" ++ h ++ lit "]:" ++ dec port ++ byte_slash :: path = lit "http://" ++ auth ++ byte_slash :: path).
  { unfold auth. rewrite <- !app_assoc. reflexivity. }
  rewrite Hu. rewrite starts_with_app. cbn [orb].
  change (starts_with (lit "https://") (lit "http://" ++ auth ++ byte_slash :: path)) with false. cbn match.
  change (drop 7 (lit "http://" ++ auth ++ byte_slash :: path)) with (auth ++ byte_slash :: path).
  assert (Hn : byte_slash ∉ auth).
  { unfold auth. rewrite !not_elem_of_app. split_and!; [apply (bool_decide_unpack _); by vm_compute|done| |].
    - apply (bool_decide_unpack _); by vm_compute.
    - intros Hin. assert (Hd := dec_digits port ltac:(unfold is_u16 in Hp; lia)). rewrite Forall_forall in Hd.
      apply Hd in Hin. discriminate. }
  assert (find_byte byte_slash (auth ++ byte_slash :: path) = Some (length auth)) as -> by (apply find_byte_Some; eauto).
  rewrite take_app_length, drop_app_length.
  assert (Ha : auth = (lit "[" ++ h ++ lit "]") ++ byte_colon :: dec port) by (unfold auth; rewrite <- !app_assoc; reflexivity).
  rewrite Ha, rfind_byte_app.
  2:{ intros Hin. assert (Hd := dec_digits port ltac:(unfold is_u16 in Hp; lia)). rewrite Forall_forall in Hd.
      apply Hd in Hin. discriminate. }
  rewrite take_app_length, drop_S_length_app, parse_uint_dec by (done || by vm_compute). reflexivity.
Qed.

Module Witness.

Definition net : network := λ _ _ _ _, NetReply (lit "HTTP/1.1 204 ok" ++ CRLF ++ lit "X-User: a" ++ CRLF ++ CRLF) EndOpen.
Definition silent : network := λ _ _ _ _, NetReply (lit "HTTP/1.1" ++ CRLF) EndOpen.

Lemma auth_fails_closed_witness :
  ∃ r, check net (lit "http://auth.internal/check") (λ _, None) (lit "1.2.3.4") [] 401 = Some r
  ∧ r ≠ AuthDeny 401 ∧ reject_ssrf_target (lit "auth.internal") = false.
Proof.
  assert (H : check net (lit "http://auth.internal/check") (λ _, None) (lit "1.2.3.4") [] 401
              = Some (AuthAllow [(lit "X-User", lit "a")])) by (vm_compute; reflexivity).
  eexists. split; [exact H|]. destruct (auth_fails_closed _ _ _ _ _ _ _ H) as [E|(t & s & e & line & s' & rh & E & Ht & Hr & _)];
    [discriminate E|]. split; [discriminate|]. vm_compute in Ht. injection Ht as <-. exact Hr.
Defined.

Lemma silent_service_hangs_witness : check silent (lit "/auth") (λ _, None) (lit "1.2.3.4") [] 401 = None.
Proof.
  apply (silent_service_hangs silent (lit "/auth") (λ _, None) (lit "1.2.3.4") [] 401
           (mkTarget (lit "127.0.0.1") 80 (lit "/auth") false) (lit "HTTP/1.1")); [reflexivity|reflexivity| |].
  - unfold field. repeat constructor.
  - apply Nat.leb_le. vm_compute. reflexivity.
Defined.

Lemma real_ip_header_spoofable_witness :
  ∃ a b c, auth_head (mkTarget (lit "127.0.0.1") 80 (lit "/auth") false)
             (λ n, if str_eqb n (lit "x-real-ip") then Some (lit "9.9.9.9") else None) (lit "1.2.3.4") []
           = a ++ (lit "x-real-ip: " ++ lit "9.9.9.9" ++ CRLF) ++ b ++ (lit "X-Real-IP: " ++ lit "1.2.3.4" ++ CRLF) ++ c.
Proof. apply real_ip_header_spoofable. reflexivity. Defined.

Lemma bracketed_address_unchecked_witness :
  reject_ssrf_target (lit "fd00::1") = true
  ∧ parse_auth_url (lit "http://[" ++ lit "fd00::1" ++ lit "]:" ++ dec 80 ++ byte_slash :: lit "x")
    = Some (mkTarget (lit "[fd00::1]") 80 (lit "/x") false).
Proof.
  split; [vm_compute; reflexivity|]. apply (bracketed_address_unchecked (lit "fd00::1") 80 (lit "x")).
  - apply (bool_decide_unpack _). by vm_compute.
  - by vm_compute.
Defined.

End Witness.
