(* ===== verification/ConnLimit.v ===== *)
(** * Connection limits under concurrency: [src/server/router.rs], [ConnGuard] of [src/server/state.rs]

    The counter of a location with [limit_conn] as atomic steps of concurrent
    requests. *)

From S2P Require Import Prelude RustStr.

(** Where a request stands with the counter of a location with [limit_conn]:
    before [fetch_add], refused but still counted, in the handler, gone. *)
Inductive limit_pc := LBefore | LRefused | LIn | LGone.

#[export] Instance limit_pc_eq_dec : EqDecision limit_pc.
Proof. solve_decision. Defined.

(** The atomic steps of the guard in [multi_site_handler]. *)
Inductive limit_step (limit : Z) : Z * list limit_pc → Z * list limit_pc → Prop :=
| step_enter i count pcs :
    pcs !! i = Some LBefore →
    limit_step limit (count, pcs)
      (wrap64 (count + 1), <[i := if limit <=? count then LRefused else LIn]> pcs)
| step_undo i count pcs :
    pcs !! i = Some LRefused → limit_step limit (count, pcs) (wrap64 (count - 1), <[i := LGone]> pcs)
| step_leave i count pcs :
    pcs !! i = Some LIn → limit_step limit (count, pcs) (wrap64 (count - 1), <[i := LGone]> pcs).

Definition count_pc (p : limit_pc) (pcs : list limit_pc) : Z := Z.of_nat (length (filter (λ x, x = p) pcs)).
Definition is_pc (p x : limit_pc) : Z :=
  match p, x with
  | LBefore, LBefore | LRefused, LRefused | LIn, LIn | LGone, LGone => 1
  | _, _ => 0
  end.

Lemma count_pc_cons p x pcs : count_pc p (x :: pcs) = is_pc p x + count_pc p pcs.
Proof. unfold count_pc. rewrite filter_cons. case_decide; subst; [|destruct p, x; cbn; try done]; destruct p; cbn [length is_pc]; lia. Qed.

Lemma count_pc_insert p pcs i a b :
  pcs !! i = Some a →
  count_pc p (<[i := b]> pcs) = count_pc p pcs - is_pc p a + is_pc p b.
Proof.
  revert i; induction pcs as [|x pcs IH]; intros [|i] H; [done..| |].
  - injection H as ->. change (<[0%nat := b]> (a :: pcs)) with (b :: pcs). rewrite !count_pc_cons. lia.
  - change (<[S i := b]> (x :: pcs)) with (x :: <[i := b]> pcs). rewrite !count_pc_cons, (IH i) by done. lia.
Qed.

Definition limit_inv (limit : Z) (n : nat) (s : Z * list limit_pc) : Prop :=
  length (snd s) = n ∧ fst s = count_pc LIn (snd s) + count_pc LRefused (snd s) ∧ count_pc LIn (snd s) ≤ limit.

Lemma count_pc_le pcs : 0 ≤ count_pc LIn pcs ∧ 0 ≤ count_pc LRefused pcs
  ∧ count_pc LIn pcs + count_pc LRefused pcs + count_pc LBefore pcs ≤ Z.of_nat (length pcs).
Proof.
  induction pcs as [|x pcs IH]; [done|]. rewrite !count_pc_cons. cbn [length].
  destruct x; cbn [is_pc]; lia.
Qed.

Lemma limit_inv_step limit n s s' :
  Z.of_nat n ≤ u64_max → limit_inv limit n s → limit_step limit s s' → limit_inv limit n s'.
Proof.
  intros Hn (Hlen & Hc & Hin) Hs. unfold limit_inv.
  assert (Hw : ∀ z, 0 ≤ z ≤ u64_max → wrap64 z = z) by (intros z Hz; unfold wrap64, u64_max in *; apply Z.mod_small; lia).
  destruct Hs as [i count pcs Hi|i count pcs Hi|i count pcs Hi]; cbn [fst snd] in *; rewrite length_insert;
    pose proof (count_pc_le pcs) as (H1 & H2 & H3);
    pose proof (count_pc_le (<[i := LGone]> pcs)) as (H4 & H5 & H6);
    assert (H7 : 0 ≤ count_pc LBefore (<[i := LGone]> pcs)) by (unfold count_pc; lia);
    rewrite (count_pc_insert LIn pcs i _ LGone Hi) in H4, H6; rewrite (count_pc_insert LRefused pcs i _ LGone Hi) in H5, H6;
    rewrite (count_pc_insert LBefore pcs i _ LGone Hi) in H6, H7; cbn [is_pc] in H4, H5, H6, H7; rewrite length_insert in H6;
    rewrite !(count_pc_insert _ pcs i _ _ Hi); cbn [is_pc].
  - destruct (Z.leb_spec limit count); cbn [is_pc]; rewrite Hw by lia; lia.
  - rewrite Hw by lia. lia.
  - rewrite Hw by lia. lia.
Qed.

(** C29: The connection limit of a location holds under concurrency.  However the atomic steps of
    any number of requests interleave, at most [limit_conn] of them are in the handler at once, the
    counter is exact, and when all have gone it is zero. *)
Theorem limit_conn_respected limit n s :
  0 < limit → Z.of_nat n ≤ u64_max →
  rtc (limit_step limit) (0, replicate n LBefore) s →
  count_pc LIn (snd s) ≤ limit ∧ fst s = count_pc LIn (snd s) + count_pc LRefused (snd s)
  ∧ (Forall (λ p, p = LGone) (snd s) → fst s = 0).
Proof.
  intros Hl Hn Hr. assert (Hinv : limit_inv limit n s).
  { assert (H0 : limit_inv limit n (0, replicate n LBefore)).
    { assert (Hz : ∀ p, p ≠ LBefore → count_pc p (replicate n LBefore) = 0).
      { intros p Hp. unfold count_pc. rewrite filter_none; [done|]. intros x Hx%elem_of_replicate_inv. congruence. }
      split_and!; cbn [fst snd]; [by rewrite length_replicate|rewrite !Hz by done; done|rewrite Hz by done; lia]. }
    clear Hl. revert H0. induction Hr as [|a b c Hab _ IH]; [done|]. intros Ha. by eapply IH, limit_inv_step. }
  destruct Hinv as (_ & Hc & Hin). split_and!; [done|done|]. intros Hall.
  rewrite Hc. assert (Hz : ∀ p, p ≠ LGone → count_pc p (snd s) = 0).
  { intros p Hp. unfold count_pc. rewrite filter_none; [done|]. rewrite Forall_forall in Hall.
    intros x Hx%Hall. congruence. }
  rewrite !Hz by done. done.
Qed.

Module Witness.

Lemma limit_conn_respected_witness :
  let s := (2, [LIn; LRefused]) in
  rtc (limit_step 1) (0, replicate 2 LBefore) s ∧ count_pc LIn (snd s) ≤ 1.
Proof.
  intros s. assert (Hr : rtc (limit_step 1) (0, replicate 2 LBefore) s).
  { eapply rtc_l; [apply (step_enter 1 0); reflexivity|]. eapply rtc_l; [apply (step_enter 1 1); reflexivity|]. apply rtc_refl. }
  split; [exact Hr|]. apply (limit_conn_respected 1 2 s); [lia|by vm_compute|exact Hr].
Defined.

End Witness.
