(* ===== verification/Router.v ===== *)
(** * Request routing: [src/server/router.rs], with [src/server/state.rs],
    [src/middleware/security.rs] and [src/middleware/metrics.rs]

    The path of a request through the server up to its handler: admission,
    host and location, redirects, limits, access control and authorisation,
    in the order of [multi_site_handler], with the counters its guards keep. *)

From S2P Require Import Prelude RustStr IpAddr AccessControl RealIp Headers Http1 Location Rewrite StaticPath FileHeaders VHost AuthRequest.

(** ** Sensitive paths *)

Definition SENSITIVE_SET : list (list Z) :=
  lit <$> [".git"; ".env"; ".env.local"; ".env.production"; ".env.staging"; ".htaccess"; ".htpasswd"; ".ds_store";
           "composer.json"; "composer.lock"; "package.json"; "package-lock.json"; "yarn.lock"; "makefile";
           "dockerfile"; ".dockerignore"; "wp-config.php"; "config.php"; ".ssh"; ".aws"; ".svn"; ".hg"; ".bzr";
           ".npmrc"; ".yarnrc"; "web.config"; ".editorconfig"; ".travis.yml"; "gruntfile.js"; "gulpfile.js";
           "webpack.config.js"; ".gitignore"; ".gitmodules"]%string.

(** [is_sensitive_path] *)
Definition sensitive_segment (segment : list Z) : bool :=
  match segment with
  | [] => false
  | _ => if (128 <? length segment)%nat then false
         else utf8_valid (to_ascii_lowercase segment) && existsb (str_eqb (to_ascii_lowercase segment)) SENSITIVE_SET
  end.

Definition is_sensitive_path (path : list Z) : bool :=
  existsb sensitive_segment (split_byte byte_slash (before_byte byte_question path)).

(** ** Metrics *)

Record GlobalMetrics := mkMetrics {
  total_requests : Z;
  total_errors_5xx : Z;
  total_errors_4xx : Z;
  total_bytes_sent : Z;
  active_ws_connections : Z;
  active_requests : Z;
}.

(** [inc_requests], [dec_active], [record_status], [record_bytes_sent],
    [ws_connected], [ws_disconnected]: relaxed atomic additions, which wrap. *)
Definition inc_requests (m : GlobalMetrics) : GlobalMetrics :=
  mkMetrics (wrap64 (total_requests m + 1)) (total_errors_5xx m) (total_errors_4xx m) (total_bytes_sent m)
    (active_ws_connections m) (wrap64 (active_requests m + 1)).
Definition dec_active (m : GlobalMetrics) : GlobalMetrics :=
  mkMetrics (total_requests m) (total_errors_5xx m) (total_errors_4xx m) (total_bytes_sent m)
    (active_ws_connections m) (wrap64 (active_requests m - 1)).
Definition record_status (status : Z) (m : GlobalMetrics) : GlobalMetrics :=
  if 500 <=? status
  then mkMetrics (total_requests m) (wrap64 (total_errors_5xx m + 1)) (total_errors_4xx m) (total_bytes_sent m)
         (active_ws_connections m) (active_requests m)
  else if 400 <=? status
  then mkMetrics (total_requests m) (total_errors_5xx m) (wrap64 (total_errors_4xx m + 1)) (total_bytes_sent m)
         (active_ws_connections m) (active_requests m)
  else m.
Definition record_bytes_sent (bytes : Z) (m : GlobalMetrics) : GlobalMetrics :=
  mkMetrics (total_requests m) (total_errors_5xx m) (total_errors_4xx m) (wrap64 (total_bytes_sent m + bytes))
    (active_ws_connections m) (active_requests m).
Definition ws_connected (m : GlobalMetrics) : GlobalMetrics :=
  mkMetrics (total_requests m) (total_errors_5xx m) (total_errors_4xx m) (total_bytes_sent m)
    (wrap64 (active_ws_connections m + 1)) (active_requests m).
Definition ws_disconnected (m : GlobalMetrics) : GlobalMetrics :=
  mkMetrics (total_requests m) (total_errors_5xx m) (total_errors_4xx m) (total_bytes_sent m)
    (wrap64 (active_ws_connections m - 1)) (active_requests m).

(** ** Redirects *)

(** [is_safe_redirect_target] *)
Definition scheme_char (b : Z) : bool := is_ascii_alphanumeric b || (b =? 43) || (b =? 45) || (b =? 46).

Definition is_safe_redirect_target (target : list Z) : bool :=
  let trimmed := trim target in
  match trimmed with
  | [] => false
  | _ =>
      if starts_with (lit "//") trimmed then false
      else if starts_with (lit "https://") trimmed || starts_with (lit "http://") trimmed then true
      else match find_byte byte_colon trimmed with
           | Some colon_pos => negb (forallb scheme_char (take colon_pos trimmed))
           | None => true
           end
  end.

(** [parse_return_directive] *)
Definition parse_return_directive (ret request_uri : list Z) : Z * list Z :=
  let ret := trim ret in
  let plain := (301, replace (lit "$request_uri") request_uri ret) in
  match find_byte SP ret with
  | Some space =>
      match parse_uint u16_max (take space ret) with
      | Some code => (code, replace (lit "$request_uri") request_uri (trim (drop (S space) ret)))
      | None => plain
      end
  | None => plain
  end.

(** [make_redirect_resp]: the Location header, if its value is valid. *)
Definition redirect_location `{HeaderLib} (location : list Z) : option (list Z) :=
  header_value (if is_safe_redirect_target location then location else lit "/").

(** ** Hosts *)

(** The host and port of the request. *)
Definition parse_host (host_raw : list Z) : list Z * option Z :=
  if starts_with (lit "[") host_raw then
    match find_byte 93 host_raw with
    | Some stop =>
        (take (S stop) host_raw,
         match strip_prefix (lit ":") (drop (S stop) host_raw) with
         | Some p => parse_uint u16_max p
         | None => None
         end)
    | None => (host_raw, None)
    end
  else match rsplit_once byte_colon host_raw with
       | Some (h, p) => (h, parse_uint u16_max p)
       | None => (host_raw, None)
       end.

(** ** The pipeline *)

Record Request := mkRequest {
  q_method : list Z;
  q_version : list Z;                        (* as written in the log, e.g. HTTP/1.1 *)
  q_authority : option (list Z);
  q_header : list Z → option (list Z);       (* first value of a header, when it is visible ASCII *)
  q_path : list Z;
  q_path_and_query : option (list Z);
  q_is_tls : bool;
  q_peer : IpAddr;
}.

(** An entry handed to the access logger; its duration is left out. *)
Record LogEntry := mkLog {
  le_client_ip : list Z;
  le_method : list Z;
  le_uri : list Z;
  le_http_version : list Z;
  le_status : Z;
  le_bytes_sent : Z;
  le_referer : list Z;
  le_user_agent : list Z;
  le_site : list Z;
}.

(** The shared state the pipeline reads and writes. *)
Record RouterState := mkRouter {
  rs_active : Z;                                       (* [active_connections] *)
  rs_metrics : GlobalMetrics;
  rs_conn_counts : gmap (list Z * nat) Z;              (* per-location counters, by site and identity *)
  rs_meta : MetaCache;
  rs_log : list LogEntry;                              (* sent to the loggers, newest last *)
}.

Definition set_active (n : Z) (st : RouterState) : RouterState :=
  mkRouter n (rs_metrics st) (rs_conn_counts st) (rs_meta st) (rs_log st).
Definition set_metrics (m : GlobalMetrics) (st : RouterState) : RouterState :=
  mkRouter (rs_active st) m (rs_conn_counts st) (rs_meta st) (rs_log st).
Definition set_meta (c : MetaCache) (st : RouterState) : RouterState :=
  mkRouter (rs_active st) (rs_metrics st) (rs_conn_counts st) c (rs_log st).
Definition add_log (e : LogEntry) (st : RouterState) : RouterState :=
  mkRouter (rs_active st) (rs_metrics st) (rs_conn_counts st) (rs_meta st) (rs_log st ++ [e]).
Definition conn_count (key : list Z * nat) (st : RouterState) : Z := default 0 (rs_conn_counts st !! key).
Definition add_conn (key : list Z * nat) (d : Z) (st : RouterState) : RouterState :=
  mkRouter (rs_active st) (rs_metrics st) (<[key := wrap64 (conn_count key st + d)]> (rs_conn_counts st)) (rs_meta st)
    (rs_log st).
Definition count_status (status : Z) (st : RouterState) : RouterState :=
  set_metrics (record_status status (rs_metrics st)) st.

Section pipeline.
Context `{L : HeaderLib} {R : Type} (is_match : R → list Z → bool)
  (captures : R → list Z → option (nat → option (list Z))).

Notation loc_t := (CompiledLocation (R := R)).
Notation site_t := (SiteInfo (R := R)).

Record Response := mkResponse { rp_status : Z; rp_headers : HeaderMap; rp_body : list Z }.

(** How a request is answered. *)
Inductive decision :=
| DPage (status : Z)                                   (* the built-in error page of a status *)
| DAcme (body : list Z)
| DRedirect (status : Z) (location : option (list Z))
| DText (status : Z) (content_type body : list Z)
| DStatus (status : Z)
| DPlugin (resp : Response)                            (* answered by a plugin before its handler *)
| DHandler (loc : loc_t) (path : list Z) (resp : Response)
| DWaiting.                                            (* the authorisation service never answers *)

(** The handlers a request can be given to. *)
Inductive target := ToStatic | ToFastcgi (script : option (list Z)) | ToWebsocket | ToProxy | ToGrpc.

(** Configuration and environment: limits, the registry, pending ACME tokens,
    sites whose certificate is ready, the network, plugins, handlers, the file
    system and the clock. *)
Record Env := mkEnv {
  e_max_connections : Z;
  e_max_body_bytes : Z;
  e_h3_ports : list Z;                                 (* in iteration order *)
  e_registry : VHostInner (R := R);
  e_acme_tokens : list Z → option (list Z);
  e_certs_ready : list Z → bool;
  e_net : network;
  e_plugin_request : list Z → Request → list Z → IpAddr → option Response;
  e_plugin_response : list Z → Response → Response;
  e_custom_handler : list Z → Request → list Z → IpAddr → option Response;
  e_handler : target → site_t → LocationConfig → Request → Response;
  e_error_bytes : Z → list Z;                          (* text of the built-in pages *)
  e_fs : FileSystem;
  e_canonicalize : list Z → option (list (list Z));
  e_read : list Z → option (list Z);
  e_now : Z;
}.

Notation answer := (decision * RouterState)%type.

(** Answering with a status that is counted. *)
Definition page (status : Z) (st : RouterState) : answer := (DPage status, count_status status st).
Definition redirect (status : Z) (location : list Z) (st : RouterState) : answer :=
  (DRedirect status (redirect_location location), count_status status st).

Definition request_uri (q : Request) : list Z := match q_path_and_query q with Some pq => pq | None => q_path q end.

Definition to_status (code : Z) (or_else : Z) : Z := if (100 <=? code) && (code <=? 999) then code else or_else.

Definition acme_token (q : Request) : option (list Z) :=
  if (25 <? length (q_path q))%nat && bool_decide (q_path q !! 1%nat = Some byte_dot)
     && starts_with (lit "/.well-known/acme-challenge/") (q_path q)
  then Some (drop 28 (q_path q)) else None.

(** The address used for access control. *)
Definition effective_client_ip (site : SiteInfo (R := R)) (q : Request) : outcome IpAddr :=
  match si_real_ip site with
  | Some rip =>
      o ← extract_real_ip rip (q_peer q) (q_header q (RealIp.header_name rip));
      Ret (match o with Some ip => ip | None => q_peer q end)
  | None => Ret (q_peer q)
  end.

Definition content_length (q : Request) : option Z :=
  match q_header q (lit "content-length") with Some v => parse_uint u64_max v | None => None end.

Definition https_url (site : SiteInfo (R := R)) (host : list Z) (q : Request) : list Z :=
  let tls_port := if bool_decide (443 ∈ si_listen_tls site) then 443 else default 443 (head (si_listen_tls site)) in
  let host_for_redirect := if tls_port =? 443 then host else host ++ lit ":" ++ dec tls_port in
  lit "https://" ++ host_for_redirect ++ (match q_path_and_query q with Some pq => pq | None => lit "/" end).

(** From the connection limit of the location on. *)
Definition check_ip (loc : CompiledLocation (R := R)) (ip : IpAddr) : outcome bool :=
  match cl_access_rules loc with
  | [] => Ret true
  | rules => a ← check_access rules ip; Ret (bool_decide (a = Allow))
  end.

(** ** Handlers *)

Definition set_handler (h : HandlerType) (c : LocationConfig) : LocationConfig :=
  mkLocation (lc_path c) h (lc_root c) (lc_cache_control c) (lc_return_code c) (lc_return_url c) (lc_return_body c)
    (lc_return_content_type c) (lc_limit_conn c) (lc_access_rules c) (lc_auth_request c) (lc_auth_failure_status c)
    (lc_auth_request_headers c) (lc_try_files c) (lc_upstream c).

Definition fs_is_file (env : Env) (p : list Z) : bool := match e_fs env p with Some m => fm_is_file m | None => false end.

Definition root_of (site : site_t) (cfg : LocationConfig) : option (list Z) :=
  match lc_root cfg with Some r => Some r | None => si_root site end.

(** [make_error_resp] *)
Definition make_error_resp (env : Env) (status : Z) : Response :=
  mkResponse status (hm_insert (lit "content-type") (lit "text/html; charset=utf-8") hm_empty) (e_error_bytes env status).

(** The handler chosen by the location, with [try_files] for FastCGI. *)
Definition run_handler (env : Env) (site : site_t) (cfg : LocationConfig) (q : Request) (path : list Z) (ip : IpAddr)
    (st : RouterState) : Response * RouterState :=
  match lc_handler cfg with
  | Static => (e_handler env ToStatic site cfg q, st)
  | Fastcgi =>
      match lc_try_files cfg with
      | [] => (e_handler env (ToFastcgi None) site cfg q, st)
      | entries =>
          match try_files_resolve (e_canonicalize env) (fs_is_file env) entries (q_path q) (root_of site cfg) with
          | TFile p =>
              if bool_decide (extension p = Some (lit "php")) then (e_handler env (ToFastcgi (Some p)) site cfg q, st)
              else (e_handler env ToStatic site (set_handler Static cfg) q, st)
          | TCode code => (make_error_resp env (to_status code 404), count_status code st)
          | TNotFound => (e_handler env (ToFastcgi None) site cfg q, st)
          end
      end
  | Websocket => (e_handler env ToWebsocket site cfg q, st)
  | ReverseProxy => (e_handler env ToProxy site cfg q, st)
  | Grpc => (e_handler env ToGrpc site cfg q, st)
  | Plugin n =>
      (match e_custom_handler env n q path ip with
       | Some resp => resp
       | None => e_plugin_response env n (mkResponse 200 hm_empty [])
       end, st)
  end.

(** ** The response on its way out *)

(** The configured error page of a response, when there is one to send. *)
Definition custom_error_page (env : Env) (site : site_t) (cfg : LocationConfig) (status : Z) : option Response :=
  if (400 <=? status) && (status <? 600) then
    ep_path ← si_error_pages site !! status;
    root ← root_of site cfg;
    let ep_file := path_join root (trim_start_matches (λ b, b =? byte_slash) ep_path) in
    content ← e_read env ep_file;
    let mime := mime_type_for (default (lit "html") (extension ep_file)) in
    Some (mkResponse status
            (match header_value mime with Some v => hm_insert (lit "content-type") v hm_empty | None => hm_empty end)
            content)
  else None.

(** The port announced for HTTP/3: the one of the request if it has one. *)
Definition alt_svc_port (env : Env) (host_port : option Z) : option Z :=
  match host_port with
  | Some p => if bool_decide (p ∈ e_h3_ports env) then Some p else head (e_h3_ports env)
  | None => head (e_h3_ports env)
  end.

Definition cert_ready (env : Env) (site : site_t) : bool := negb (si_acme site) || e_certs_ready env (si_name site).

(** The headers every handler's response gets. *)
Definition final_headers (env : Env) (site : site_t) (q : Request) (host_port : option Z) (h : HeaderMap) : HeaderMap :=
  let h := match si_hsts_header site with
           | Some v => if q_is_tls q && cert_ready env site then hm_insert (lit "strict-transport-security") v h else h
           | None => h
           end in
  let h := match (if q_is_tls q then alt_svc_port env host_port else None) with
           | Some port =>
               match header_value (lit "h3=" ++ [34] ++ lit ":" ++ dec port ++ [34] ++ lit "; ma=86400") with
               | Some v => hm_insert (lit "alt-svc") v h
               | None => h
               end
           | None => h
           end in
  hm_insert (lit "x-content-type-options") (lit "nosniff") (hm_insert (lit "server") (lit "Sweety") h).

(** [HeaderValue::to_str] *)
Definition header_to_str (v : list Z) : option (list Z) :=
  if forallb (λ b, (b =? 9) || ((32 <=? b) && (b <=? 126))) v then Some v else None.

Definition bytes_sent_of (h : HeaderMap) : Z :=
  default 0 (v ← hm_get h (lit "content-length"); s ← header_to_str v; parse_uint u64_max s).

Definition log_entry (site : site_t) (q : Request) (ip : IpAddr) (status bytes : Z) : LogEntry :=
  mkLog (display_ip ip) (q_method q) (request_uri q) (q_version q) status bytes
    (default (lit "-") (q_header q (lit "referer"))) (default (lit "-") (q_header q (lit "user-agent"))) (si_name site).

(** From the status of the handler's response to the end. *)
Definition finish_response (env : Env) (site : site_t) (cfg : LocationConfig) (q : Request) (host_port : option Z)
    (ip : IpAddr) (resp : Response) (st : RouterState) : Response * RouterState :=
  let st := count_status (rp_status resp) st in
  match custom_error_page env site cfg (rp_status resp) with
  | Some ep => (ep, st)
  | None =>
      let h := final_headers env site q host_port (rp_headers resp) in
      let bytes := bytes_sent_of h in
      let st := if 0 <? bytes then set_metrics (record_bytes_sent bytes (rs_metrics st)) st else st in
      let st := match si_access_logger site with
                | Some _ => add_log (log_entry site q ip (rp_status resp) bytes) st
                | None => st
                end in
      (mkResponse (rp_status resp) h (rp_body resp), st)
  end.

(** From the plugin hook on. *)
Definition handle (env : Env) (site : site_t) (loc : loc_t) (q : Request) (path : list Z) (host_port : option Z)
    (ip : IpAddr) (st : RouterState) : answer :=
  let cfg := cl_config loc in
  match (match lc_handler cfg with Plugin n => e_plugin_request env n q path ip | _ => None end) with
  | Some resp => (DPlugin resp, count_status (rp_status resp) st)
  | None =>
      let '(resp, st) := run_handler env site cfg q path ip st in
      let resp := match lc_handler cfg with Plugin n => e_plugin_response env n resp | _ => resp end in
      let '(resp, st) := finish_response env site cfg q host_port ip resp st in
      (DHandler loc path resp, st)
  end.

(** Access rules and authorisation. *)
Definition admitted (env : Env) (site : site_t) (loc : loc_t) (q : Request) (path : list Z) (host_port : option Z)
    (ip : IpAddr) (st : RouterState) : outcome answer :=
  ok ← check_ip loc ip;
  if negb ok then Ret (page 403 st)
  else
    let cfg := cl_config loc in
    match lc_auth_request cfg with
    | Some url =>
        match check (e_net env) url (q_header q) (display_ip ip) (lc_auth_request_headers cfg) (lc_auth_failure_status cfg) with
        | Some (AuthAllow _) => Ret (handle env site loc q path host_port ip st)
        | Some (AuthDeny code) => Ret (DPage (to_status code 401), count_status code st)
        | None => Ret (DWaiting, st)
        end
    | None => Ret (handle env site loc q path host_port ip st)
    end.

(** A request that never ends keeps what its guards hold. *)
Definition release (d : decision) (free : RouterState → RouterState) (st : RouterState) : RouterState :=
  match d with DWaiting => st | _ => free st end.

(** The per-location limit, whose guard gives the count back at the end. *)
Definition limited (env : Env) (site : site_t) (loc : loc_t) (q : Request) (path : list Z) (host_port : option Z)
    (ip : IpAddr) (st : RouterState) : outcome answer :=
  let key := (si_name site, cl_counter loc) in
  if 0 <? cl_limit_conn loc then
    let cur := conn_count key st in
    let st := add_conn key 1 st in
    if cl_limit_conn loc <=? cur then Ret (page 503 (add_conn key (-1) st))
    else
      '(d, st) ← admitted env site loc q path host_port ip st;
      Ret (d, release d (add_conn key (-1)) st)
  else admitted env site loc q path host_port ip st.

(** The location: body size, [return], then the limits. *)
Definition at_location (env : Env) (site : site_t) (loc : loc_t) (q : Request) (path : list Z) (host_port : option Z)
    (ip : IpAddr) (st : RouterState) : outcome answer :=
  let cfg := cl_config loc in
  if (0 <? e_max_body_bytes env)
     && (match content_length q with Some n => e_max_body_bytes env <? n | None => false end)
  then Ret (page 413 st)
  else
    match lc_return_url cfg, lc_return_body cfg, lc_return_code cfg with
    | Some ret, _, _ =>
        let '(code, url) := parse_return_directive ret (request_uri q) in
        Ret (DRedirect (to_status code 301) (redirect_location url), count_status code st)
    | None, Some body, code =>
        let code := default 200 code in
        let ct := default (lit "text/plain; charset=utf-8") (lc_return_content_type cfg) in
        let ct := match header_value ct with Some v => v | None => lit "text/plain; charset=utf-8" end in
        Ret (DText (to_status code 200) ct body, count_status code st)
    | None, None, Some code => Ret (DStatus (to_status code 200), count_status code st)
    | None, None, None => limited env site loc q path host_port ip st
    end.

(** The site: HTTPS redirect, sensitive paths, rewriting, the location. *)
Definition at_site (env : Env) (site : site_t) (host : list Z) (host_port : option Z) (q : Request) (st : RouterState)
  : outcome answer :=
  ip ← effective_client_ip site q;
  if si_force_https site && negb (q_is_tls q) && cert_ready env site then Ret (redirect 301 (https_url site host q) st)
  else if is_sensitive_path (q_path q) then Ret (page 403 st)
  else
    let '(rewritten, c) := apply_rewrites is_match captures (e_fs env) (e_now env) (si_rewrites site) (q_path q)
                             (si_root site) (rs_meta st) in
    let st := set_meta c st in
    match route_rewritten (q_path q) rewritten with
    | RedirectTo code target => Ret (redirect code target st)
    | RoutePath path =>
        match match_location is_match (si_locations site) path with
        | None => Ret (page 404 st)
        | Some loc => at_location env site loc q path host_port ip st
        end
    end.

(** Within the connection limit: ACME challenges, then the host. *)
Definition dispatch (env : Env) (q : Request) (st : RouterState) : outcome answer :=
  match (match acme_token q with Some t => e_acme_tokens env t | None => None end) with
  | Some body => Ret (DAcme body, count_status 200 st)
  | None =>
      let host_raw := match q_authority q with Some a => a | None => default [] (q_header q (lit "host")) end in
      let '(host, host_port) := parse_host host_raw in
      match lookup_inner (e_registry env) host with
      | None => Ret (page (if q_is_tls q then 421 else 404) st)
      | Some site => at_site env site host host_port q st
      end
  end.

(** [multi_site_handler]; the guards give their counts back when it returns. *)
Definition multi_site_handler (env : Env) (q : Request) (st : RouterState) : outcome answer :=
  let cur := rs_active st in
  let st := set_active (wrap64 (cur + 1)) st in
  let leave st := set_active (wrap64 (rs_active st - 1)) st in
  if (0 <? e_max_connections env) && (e_max_connections env <=? cur) then
    let '(d, st) := page 503 st in Ret (d, leave st)
  else
    '(d, st) ← dispatch env q (set_metrics (inc_requests (rs_metrics st)) st);
    Ret (d, release d (λ st, leave (set_metrics (dec_active (rs_metrics st)) st)) st).

End pipeline.

(** ** What the pipeline guarantees *)

Section pipeline_theorems.
Context `{L : HeaderLib} {R : Type} (is_match : R → list Z → bool)
  (captures : R → list Z → option (nat → option (list Z))).

Notation loc_t := (CompiledLocation (R := R)).

(** A request is within the limits and rules of a location. *)
Record admissible (env : Env (R := R)) (site : SiteInfo (R := R)) (loc : loc_t) (q : Request) (ip : IpAddr) (st : RouterState) : Prop := {
  adm_body : e_max_body_bytes env ≤ 0 ∨ (∀ n, content_length q = Some n → n ≤ e_max_body_bytes env);
  adm_return : lc_return_url (cl_config loc) = None ∧ lc_return_body (cl_config loc) = None ∧ lc_return_code (cl_config loc) = None;
  adm_limit : cl_limit_conn loc ≤ 0 ∨ conn_count (si_name site, cl_counter loc) st < cl_limit_conn loc;
  adm_access : check_ip loc ip = Ret true;
  adm_auth : ∀ url, lc_auth_request (cl_config loc) = Some url →
    ∃ rh, check (e_net env) url (q_header q) (display_ip ip) (lc_auth_request_headers (cl_config loc))
            (lc_auth_failure_status (cl_config loc)) = Some (AuthAllow rh);
}.

(** What handling the response leaves: the response is the handler's, after the
    plugin hook, with the final headers, or the configured error page. *)
Definition handled (env : Env (R := R)) (site : SiteInfo (R := R)) (cfg : LocationConfig) (q : Request)
    (host_port : option Z) (resp : Response) : Prop :=
  (∃ r, custom_error_page env site cfg (rp_status r) = None
        ∧ resp = mkResponse (rp_status r) (final_headers env site q host_port (rp_headers r)) (rp_body r))
  ∨ ∃ status, custom_error_page env site cfg status = Some resp.

Lemma handle_handler env site (loc : loc_t) q path hp ip st loc' path' resp st' :
  handle env site loc q path hp ip st = (DHandler loc' path' resp, st') →
  loc' = loc ∧ path' = path ∧ handled env site (cl_config loc) q hp resp.
Proof.
  unfold handle. cbv zeta. destruct (match lc_handler _ with Plugin _ => _ | _ => None end) as [r|]; [done|].
  destruct (run_handler _ _ _ _ _ _ _) as [r0 st0]. set (r := match lc_handler _ with Plugin _ => _ | _ => _ end).
  unfold finish_response. cbv zeta. destruct (custom_error_page env site (cl_config loc) (rp_status r)) as [ep|] eqn:Ee.
  - intros [= <- <- <- _]. split_and!; [done|done|]. right. by exists (rp_status r).
  - intros [= <- <- <- _]. split_and!; [done|done|]. left. by exists r.
Qed.

Lemma admitted_handler env site (loc : loc_t) q path hp ip st loc' path' resp st' :
  admitted env site loc q path hp ip st = Ret (DHandler loc' path' resp, st') →
  (loc' = loc ∧ path' = path ∧ handled env site (cl_config loc) q hp resp) ∧ check_ip loc ip = Ret true
  ∧ ∀ url, lc_auth_request (cl_config loc) = Some url →
      ∃ rh, check (e_net env) url (q_header q) (display_ip ip) (lc_auth_request_headers (cl_config loc))
              (lc_auth_failure_status (cl_config loc)) = Some (AuthAllow rh).
Proof.
  unfold admitted. cbv zeta. intros (ok & Hok & H)%outcome_bind_ret. rewrite Hok. destruct ok; [|done]. cbn [negb] in H.
  destruct (lc_auth_request (cl_config loc)) as [url|].
  - destruct (check _ _ _ _ _ _) as [[rh|code]|] eqn:Ea; [|done|done]. injection H as H. apply handle_handler in H as (-> & -> & Hh).
    split_and!; [done..|]. intros ? [= <-]. by exists rh.
  - injection H as H. apply handle_handler in H as (-> & -> & Hh). by split_and!.
Qed.

Lemma limited_handler env site (loc : loc_t) q path hp ip st loc' path' resp st' :
  limited env site loc q path hp ip st = Ret (DHandler loc' path' resp, st') →
  (cl_limit_conn loc ≤ 0 ∨ conn_count (si_name site, cl_counter loc) st < cl_limit_conn loc)
  ∧ ∃ st1 st2, admitted env site loc q path hp ip st1 = Ret (DHandler loc' path' resp, st2).
Proof.
  unfold limited. cbv zeta. destruct (Z.ltb_spec 0 (cl_limit_conn loc)); [|intros H0; split; [by left|eauto]].
  destruct (Z.leb_spec (cl_limit_conn loc) (conn_count (si_name site, cl_counter loc) st)); [done|].
  intros ([d st1] & Hd & [= -> _])%outcome_bind_ret. split; [by right|eauto].
Qed.

Lemma at_location_handler env site (loc : loc_t) q path hp ip st loc' path' resp st' :
  at_location env site loc q path hp ip st = Ret (DHandler loc' path' resp, st') →
  (loc' = loc ∧ path' = path ∧ handled env site (cl_config loc) q hp resp) ∧ admissible env site loc q ip st.
Proof.
  unfold at_location. cbv zeta.
  destruct ((0 <? e_max_body_bytes env) && _) eqn:Eb; [done|].
  destruct (lc_return_url (cl_config loc)) eqn:E1; [by destruct (parse_return_directive _ _)|].
  destruct (lc_return_body (cl_config loc)) eqn:E2; [done|].
  destruct (lc_return_code (cl_config loc)) eqn:E3; [done|].
  intros (Hl & st1 & st2 & (Hh & Ha & Hau)%admitted_handler)%limited_handler. split; [exact Hh|].
  split; [|done|done|done|done].
  apply andb_false_iff in Eb as [Eb|Eb]; [left; by apply Z.ltb_ge in Eb|right]. intros n Hn. rewrite Hn in Eb.
  by apply Z.ltb_ge in Eb.
Qed.

(** The host and port a request names. *)
Definition host_of (q : Request) : list Z * option Z :=
  parse_host (match q_authority q with Some a => a | None => default [] (q_header q (lit "host")) end).

Lemma multi_site_handler_inv env q st loc path resp st' :
  multi_site_handler is_match captures env q st = Ret (DHandler loc path resp, st') →
  (0 < e_max_connections env → rs_active st < e_max_connections env)
  ∧ ∃ site st1 st2, lookup_inner (e_registry env) (fst (host_of q)) = Some site
      ∧ at_site is_match captures env site (fst (host_of q)) (snd (host_of q)) q st1 = Ret (DHandler loc path resp, st2)
      ∧ rs_meta st1 = rs_meta st ∧ rs_conn_counts st1 = rs_conn_counts st.
Proof.
  unfold multi_site_handler. cbv zeta.
  destruct ((0 <? e_max_connections env) && (e_max_connections env <=? rs_active st)) eqn:Em; [done|].
  intros ([d st1] & Hd & [= -> _])%outcome_bind_ret. split.
  { intros Hpos. apply andb_false_iff in Em as [Em|Em]; [apply Z.ltb_ge in Em; lia|by apply Z.leb_gt in Em]. }
  unfold dispatch in Hd. destruct (match acme_token q with Some _ => _ | None => _ end); [done|].
  fold (host_of q) in Hd. destruct (host_of q) as [host port]. cbn [fst snd].
  destruct (lookup_inner (e_registry env) host) as [site|]; [|done]. eauto 10.
Qed.

Lemma at_site_inv env site host hp q st loc path resp st' :
  at_site is_match captures env site host hp q st = Ret (DHandler loc path resp, st') →
  ∃ ip st1, effective_client_ip site q = Ret ip
  ∧ (si_force_https site = true → q_is_tls q = true ∨ cert_ready env site = false)
  ∧ is_sensitive_path (q_path q) = false
  ∧ route_rewritten (q_path q) (fst (apply_rewrites is_match captures (e_fs env) (e_now env) (si_rewrites site)
                                       (q_path q) (si_root site) (rs_meta st))) = RoutePath path
  ∧ match_location is_match (si_locations site) path = Some loc
  ∧ handled env site (cl_config loc) q hp resp ∧ admissible env site loc q ip st1
  ∧ rs_conn_counts st1 = rs_conn_counts st.
Proof.
  unfold at_site. intros (ip & Hip & Hd)%outcome_bind_ret.
  destruct (si_force_https site && _ && _) eqn:Ef; [done|].
  destruct (is_sensitive_path (q_path q)) eqn:Es; [done|].
  destruct (apply_rewrites _ _ _ _ _ _ _ _) as [rewritten c] eqn:Er. cbv zeta in Hd.
  destruct (route_rewritten (q_path q) rewritten) as [code target|p] eqn:Ert; [done|].
  destruct (match_location is_match (si_locations site) p) as [l|] eqn:Eml; [|done].
  apply at_location_handler in Hd as ((-> & -> & Hh) & Hadm).
  exists ip, (set_meta c st). split_and!; [done| |done|done|done|done|done|done].
  intros Hfh. rewrite Hfh in Ef. destruct (q_is_tls q); [by left|]. destruct (cert_ready env site); [done|by right].
Qed.

(** C2: A handler runs only for admitted requests.  When the pipeline hands a request to the
    handler of a location, the server-wide connection limit was not reached, the site is the one
    registered for the host, no HTTPS redirect was due, the path is not a sensitive one, the location
    is the one matched for the rewritten path, the announced body is within the limit, no [return]
    applies, the location's connection limit was not reached, the client address passed its access
    rules, and the authorisation service allowed the request. *)
Theorem handler_admission env q st loc path resp st' :
  multi_site_handler is_match captures env q st = Ret (DHandler loc path resp, st') →
  (0 < e_max_connections env → rs_active st < e_max_connections env)
  ∧ ∃ site ip,
      lookup_inner (e_registry env) (fst (host_of q)) = Some site
      ∧ effective_client_ip site q = Ret ip
      ∧ (si_force_https site = true → q_is_tls q = true ∨ si_acme site = true ∧ e_certs_ready env (si_name site) = false)
      ∧ is_sensitive_path (q_path q) = false
      ∧ route_rewritten (q_path q) (fst (apply_rewrites is_match captures (e_fs env) (e_now env) (si_rewrites site)
                                           (q_path q) (si_root site) (rs_meta st))) = RoutePath path
      ∧ match_location is_match (si_locations site) path = Some loc
      ∧ admissible env site loc q ip st.
Proof.
  intros (Hmax & site & st1 & st2 & Hs & Hd & Hm & Hc)%multi_site_handler_inv. split; [exact Hmax|].
  apply at_site_inv in Hd as (ip & st3 & Hip & Hf & Hsen & Hrw & Hml & _ & Hadm & Hc3).
  exists site, ip. rewrite Hm in Hrw. split_and!; try done.
  - intros Hfh. destruct (Hf Hfh) as [?|Hr]; [by left|]. right. unfold cert_ready in Hr.
    destruct (si_acme site); [|done]. by destruct (e_certs_ready env (si_name site)).
  - destruct Hadm as [? ? Hl ? ?]. split; try done. unfold conn_count in *. by rewrite Hc3, Hc in Hl.
Qed.

(** The response of a handler leaves hardened.  Unless a configured error page replaces
    it, it carries exactly one Server header, the fixed one, and nosniff; over TLS with a ready
    certificate it carries the site's HSTS policy, and when an HTTP/3 port is configured it
    announces one of the configured ports, the port of the request if it is one of them. *)
Theorem handler_response_hardened `{!HeaderLaws L} env q st loc path resp st' :
  multi_site_handler is_match captures env q st = Ret (DHandler loc path resp, st') →
  (∃ site status, custom_error_page env site (cl_config loc) status = Some resp)
  ∨ hm_get_all (rp_headers resp) (lit "server") = [lit "Sweety"]
    ∧ hm_get_all (rp_headers resp) (lit "x-content-type-options") = [lit "nosniff"]
    ∧ ∃ site, lookup_inner (e_registry env) (fst (host_of q)) = Some site
      ∧ (∀ v, si_hsts_header site = Some v → q_is_tls q = true → cert_ready env site = true →
           hm_get_all (rp_headers resp) (lit "strict-transport-security") = [v])
      ∧ (∀ p, alt_svc_port env (snd (host_of q)) = Some p → q_is_tls q = true →
           p ∈ e_h3_ports env ∧ (∀ hp, snd (host_of q) = Some hp → hp ∈ e_h3_ports env → p = hp)
           ∧ ∀ v, header_value (lit "h3=" ++ [34] ++ lit ":" ++ dec p ++ [34] ++ lit "; ma=86400") = Some v →
               hm_get_all (rp_headers resp) (lit "alt-svc") = [v]).
Proof.
  intros (_ & site & st1 & st2 & Hs & Hd & _)%multi_site_handler_inv.
  apply at_site_inv in Hd as (ip & st3 & _ & _ & _ & _ & _ & [(r & _ & ->)|(status & Hep)] & _);
    [right|left; by exists site, status].
  unfold final_headers. cbn [rp_headers]. rewrite !get_all_insert. split_and!; [done|done|]. exists site.
  split_and!; [done| |].
  - intros v -> -> ->. cbn [andb]. destruct (alt_svc_port env _) as [p|]; [|by rewrite !get_all_insert].
    destruct (header_value _); by rewrite !get_all_insert.
  - intros p Hp ->. rewrite Hp. split_and!.
    + unfold alt_svc_port in Hp. destruct (snd (host_of q)); [case_bool_decide; [congruence|]|]; by apply head_Some_elem_of.
    + intros hp Hhp Hin. unfold alt_svc_port in Hp. rewrite Hhp, bool_decide_eq_true_2 in Hp by done. congruence.
    + intros v ->. by rewrite !get_all_insert.
Qed.

(** ** Counters *)

Definition counters_ok (st : RouterState) : Prop :=
  0 ≤ rs_active st ≤ u64_max ∧ 0 ≤ active_requests (rs_metrics st) ≤ u64_max
  ∧ ∀ key, 0 ≤ conn_count key st ≤ u64_max.

(** A state with the same counts in use. *)
Definition same_counts (a b : RouterState) : Prop :=
  rs_active a = rs_active b ∧ active_requests (rs_metrics a) = active_requests (rs_metrics b)
  ∧ ∀ key, conn_count key a = conn_count key b.

#[local] Instance same_counts_equiv : Equivalence same_counts.
Proof.
  split; [done|intros a b (? & ? & Hk)|intros a b c (? & ? & Hk) (? & ? & Hk')]; split_and!; try congruence.
Qed.

Lemma count_status_same code st : same_counts (count_status code st) st.
Proof. split_and!; [done| |done]. cbn. unfold record_status. by repeat case_match. Qed.

Lemma run_handler_same env site cfg q path ip st : same_counts (snd (run_handler (R := R) env site cfg q path ip st)) st.
Proof. unfold run_handler. repeat case_match; try reflexivity. apply count_status_same. Qed.

Lemma finish_response_same env site cfg q hp ip resp st :
  same_counts (snd (finish_response (R := R) env site cfg q hp ip resp st)) st.
Proof.
  unfold finish_response. cbv zeta. destruct (custom_error_page _ _ _ _); [apply count_status_same|].
  etransitivity; [|apply (count_status_same (rp_status resp))]. cbn [snd].
  destruct (si_access_logger site), (0 <? _); done.
Qed.

Lemma handle_same env site (loc : loc_t) q path hp ip st : same_counts (snd (handle env site loc q path hp ip st)) st.
Proof.
  unfold handle. cbv zeta. destruct (match lc_handler _ with Plugin _ => _ | _ => None end); [apply count_status_same|].
  pose proof (run_handler_same env site (cl_config loc) q path ip st) as Hr.
  destruct (run_handler _ _ _ _ _ _ _) as [r st1]. cbn [snd] in Hr.
  match goal with |- context[finish_response ?a ?b ?c ?d ?e ?f ?g ?h] =>
    pose proof (finish_response_same a b c d e f g h) as Hf; destruct (finish_response a b c d e f g h) as [r' st2] end.
  by etransitivity.
Qed.

Lemma admitted_same env site (loc : loc_t) q path hp ip st d st' :
  admitted env site loc q path hp ip st = Ret (d, st') → same_counts st' st.
Proof.
  unfold admitted. cbv zeta. intros (ok & _ & H)%outcome_bind_ret. destruct ok; cbn [negb] in H.
  2:{ injection H as _ <-. apply count_status_same. }
  assert (Hf : Ret (handle env site loc q path hp ip st) = Ret (d, st') → same_counts st' st).
  { intros Hf. pose proof (handle_same env site loc q path hp ip st) as Hs. injection Hf as Hf. by rewrite Hf in Hs. }
  destruct (lc_auth_request (cl_config loc)) as [url|]; [|auto].
  destruct (check _ _ _ _ _ _) as [[rh|code]|]; [auto| |]; injection H as _ <-; [apply count_status_same|reflexivity].
Qed.

Lemma add_conn_undo key st st1 :
  (∀ key, 0 ≤ conn_count key st ≤ u64_max) → same_counts st1 (add_conn key 1 st) → same_counts (add_conn key (-1) st1) st.
Proof.
  intros Hok (Ha & Hm & Hc). split_and!; [done|done|]. intros k. unfold add_conn, conn_count in *. cbn [rs_conn_counts] in *.
  pose proof (Hc key) as Hck. pose proof (Hok key) as Hk. pose proof (Hc k) as Hck'.
  rewrite lookup_insert_eq in Hck. cbn [from_option id] in Hck. rewrite Hck.
  destruct (decide (k = key)) as [->|Hne].
  - rewrite lookup_insert_eq. cbn [from_option id]. unfold wrap64, u64_max in *.
    rewrite Zplus_mod_idemp_l. rewrite Z.mod_small; lia.
  - rewrite lookup_insert_ne in Hck' |- * by done. by rewrite Hck'.
Qed.

Lemma release_done (d : decision (R := R)) free st : d ≠ DWaiting → release d free st = free st.
Proof. by destruct d. Qed.

Lemma limited_same env site (loc : loc_t) q path hp ip st d st' :
  (∀ key, 0 ≤ conn_count key st ≤ u64_max) → d ≠ DWaiting →
  limited env site loc q path hp ip st = Ret (d, st') → same_counts st' st.
Proof.
  intros Hok Hw. unfold limited. cbv zeta. destruct (0 <? cl_limit_conn loc); [|apply admitted_same].
  set (key := (si_name site, cl_counter loc)). destruct (cl_limit_conn loc <=? conn_count key st).
  - intros [= _ <-]. etransitivity; [exact (count_status_same 503 (add_conn key (-1) (add_conn key 1 st)))|by apply add_conn_undo].
  - intros ([d1 st1] & Hd & [= <- <-])%outcome_bind_ret. apply admitted_same in Hd. rewrite release_done by done.
    by apply add_conn_undo.
Qed.

Lemma at_location_same env site (loc : loc_t) q path hp ip st d st' :
  (∀ key, 0 ≤ conn_count key st ≤ u64_max) → d ≠ DWaiting →
  at_location env site loc q path hp ip st = Ret (d, st') → same_counts st' st.
Proof.
  intros Hok Hw. unfold at_location. cbv zeta. case_match; [intros [= _ <-]; apply count_status_same|].
  destruct (lc_return_url _); [destruct (parse_return_directive _ _); intros [= _ <-]; apply count_status_same|].
  destruct (lc_return_body _); [intros [= _ <-]; apply count_status_same|].
  destruct (lc_return_code _); [intros [= _ <-]; apply count_status_same|]. by apply limited_same.
Qed.

Lemma at_site_same env site host hp q st d st' :
  (∀ key, 0 ≤ conn_count key st ≤ u64_max) → d ≠ DWaiting →
  at_site is_match captures env site host hp q st = Ret (d, st') → same_counts st' st.
Proof.
  intros Hok Hw. unfold at_site. intros (ip & _ & Hd)%outcome_bind_ret.
  destruct (si_force_https site && _ && _); [injection Hd as _ <-; apply count_status_same|].
  destruct (is_sensitive_path _); [injection Hd as _ <-; apply count_status_same|].
  destruct (apply_rewrites _ _ _ _ _ _ _ _) as [rw c]. cbv zeta in Hd.
  assert (Hm : same_counts (set_meta c st) st) by done.
  destruct (route_rewritten _ rw) as [code target|p].
  { injection Hd as _ <-. etransitivity; [exact (count_status_same code (set_meta c st))|done]. }
  destruct (match_location is_match (si_locations site) p).
  - etransitivity; [|exact Hm]. by eapply at_location_same; [|exact Hw|exact Hd].
  - injection Hd as _ <-. etransitivity; [exact (count_status_same 404 (set_meta c st))|done].
Qed.

Lemma dispatch_same env q st d st' :
  (∀ key, 0 ≤ conn_count key st ≤ u64_max) → d ≠ DWaiting →
  dispatch is_match captures env q st = Ret (d, st') → same_counts st' st.
Proof.
  intros Hok Hw. unfold dispatch. case_match; [intros [= _ <-]; apply count_status_same|].
  destruct (parse_host _) as [host port]. destruct (lookup_inner _ host) as [site|]; [by apply at_site_same|].
  intros [= _ <-]. apply count_status_same.
Qed.

(** Every count taken is given back.  However a request ends (refused, redirected, answered
    or handled), the server-wide connection count, the active-request gauge and every location's
    connection count are afterwards what they were before. *)
Theorem counters_restored env q st d st' :
  counters_ok st → multi_site_handler is_match captures env q st = Ret (d, st') → d ≠ DWaiting → same_counts st' st.
Proof.
  intros (Ha & Hr & Hc) H Hwait. revert H. unfold multi_site_handler. cbv zeta.
  assert (Hw : ∀ z, 0 ≤ z ≤ u64_max → wrap64 (wrap64 (z + 1) - 1) = z).
  { intros z Hz. unfold wrap64, u64_max in *. rewrite Zminus_mod_idemp_l. rewrite Z.mod_small; lia. }
  case_match.
  { intros [= _ <-]. split_and!; cbn [rs_active set_active set_metrics count_status]; [by apply Hw| |done].
    by destruct (count_status_same 503 st) as (_ & ? & _). }
  intros ([d1 st1] & Hd & [= <- <-])%outcome_bind_ret. apply dispatch_same in Hd; [|done|done]. destruct Hd as (H1 & H2 & H3).
  rewrite release_done by done.
  cbn [rs_active set_active set_metrics rs_metrics inc_requests active_requests] in H1, H2.
  split_and!; cbn [rs_active set_active set_metrics rs_metrics dec_active active_requests].
  - rewrite H1. by apply Hw.
  - rewrite H2. by apply Hw.
  - intros key. exact (H3 key).
Qed.

(** A request to a location whose authorisation service stays silent never
    ends, and keeps the location's slot: with [limit_conn] such requests, every
    later one is refused. *)
Theorem silent_auth_blocks_location env site (loc : loc_t) q path hp ip st url :
  let key := (si_name site, cl_counter loc) in
  0 < cl_limit_conn loc → conn_count key st < cl_limit_conn loc → 0 ≤ conn_count key st → cl_limit_conn loc ≤ u64_max →
  check_ip loc ip = Ret true → lc_auth_request (cl_config loc) = Some url →
  check (e_net env) url (q_header q) (display_ip ip) (lc_auth_request_headers (cl_config loc))
    (lc_auth_failure_status (cl_config loc)) = None →
  ∃ st', limited env site loc q path hp ip st = Ret (DWaiting, st') ∧ conn_count key st' = conn_count key st + 1.
Proof.
  intros key Hl Hc Hc0 Hlu Hip Hu Hck. unfold limited. cbv zeta. fold key. apply Z.ltb_lt in Hl as ->.
  destruct (Z.leb_spec (cl_limit_conn loc) (conn_count key st)); [lia|].
  exists (add_conn key 1 st). split.
  - unfold admitted. cbv zeta. rewrite Hip. cbn [mbind outcome_bind negb]. by rewrite Hu, Hck.
  - unfold conn_count, add_conn. cbn [rs_conn_counts]. rewrite lookup_insert_eq. cbn [from_option id].
    unfold wrap64. fold (conn_count key st). rewrite Z.mod_small; [done|]. lia.
Qed.

End pipeline_theorems.

Module Witness.

Import Headers.Model.

Definition bld (p : list Z) : option unit := None.
Definition canon (p : list Z) : option (list (list Z)) := None.
Definition im (r : unit) (s : list Z) : bool := false.
Definition caps (r : unit) (s : list Z) : option (nat → option (list Z)) := None.

Definition api : LocationConfig :=
  mkLocation (lit "/api/") ReverseProxy None None None None None None 2 [mkAccessRule Deny (lit "10.0.0.0/8") 100]
    (Some (lit "/auth")) 401 [] [] (Some (lit "app")).
Definition site : SiteConfig :=
  mkSite (lit "a") [lit "example.com"] false false [] false (Some (mkHsts 600 false false)) (Some (lit "/srv")) [] ∅
    [default_location (lit "/"); api] [] None VHost.Witness.extra.
Definition net : network := λ _ _ _ _, NetReply (lit "HTTP/1.1 200 OK" ++ CRLF ++ CRLF) EndEof.
Definition env : Env :=
  mkEnv 100 1000 [443] (registry_from_config bld to_ascii_lowercase canon [site]) (λ _, None) (λ _, true) net
    (λ _ _ _ _, None) (λ _ r, r) (λ _ _ _ _, None) (λ _ _ _ _, mkResponse 200 hm_empty (lit "hi")) (λ _, [])
    (λ _, None) canon (λ _, None) 0.
Definition req : Request :=
  mkRequest (lit "GET") (lit "HTTP/1.1") None
    (λ n, if str_eqb n (lit "host") then Some (lit "Example.com:8080") else None) (lit "/api/x") (Some (lit "/api/x?y"))
    true (V4 3232235777).
Definition st0 : RouterState :=
  mkRouter 5 (mkMetrics 10 0 0 0 0 5) {[(lit "a", 1%nat) := 1]} (mkMetaCache ∅ 0) [].
Definition loc : CompiledLocation := compile_location bld 1 api.

Definition handled (o : outcome (decision (R := unit) * RouterState)) : option (CompiledLocation (R := unit) * list Z) :=
  match o with Ret (DHandler l p _, _) => Some (l, p) | _ => None end.

Lemma run_handled : handled (multi_site_handler im caps env req st0) = Some (loc, lit "/api/x").
Proof. by vm_compute. Qed.

Lemma run : ∃ resp st', multi_site_handler im caps env req st0 = Ret (DHandler loc (lit "/api/x") resp, st').
Proof.
  pose proof run_handled as H. destruct (multi_site_handler im caps env req st0) as [[[] st']|]; try discriminate H.
  injection H as -> ->. eauto.
Qed.

Lemma found : lookup_inner (e_registry env) (fst (host_of req)) = Some (site_from_config bld canon Witness.site).
Proof. vm_compute. reflexivity. Qed.

Lemma handler_admission_witness : check_ip loc (V4 3232235777) = Ret true ∧ rs_active st0 < 100.
Proof.
  destruct run as (resp & st' & H). destruct (handler_admission im caps env req st0 loc (lit "/api/x") resp st' H) as [Ha Hx].
  split; [|apply Ha; reflexivity]. destruct Hx as (site & ip & Hs & Hip & _ & _ & _ & _ & Hadm).
  destruct Hadm as [_ _ _ Hacc _]. rewrite found in Hs. injection Hs as <-. injection Hip as <-. exact Hacc.
Defined.

Lemma handler_response_hardened_witness :
  ∃ resp st', multi_site_handler im caps env req st0 = Ret (DHandler loc (lit "/api/x") resp, st')
  ∧ hm_get_all (rp_headers resp) (lit "strict-transport-security") = [lit "max-age=600"].
Proof.
  destruct run as (resp & st' & H). exists resp, st'. split; [exact H|].
  destruct (handler_response_hardened im caps env req st0 loc (lit "/api/x") resp st' H)
    as [(s & status & Hep)|(_ & _ & s & Hs & Hh & _)].
  - exfalso. unfold custom_error_page in Hep. case_test; [|discriminate Hep].
    destruct (si_error_pages s !! status); [|discriminate Hep]. cbn [mbind option_bind] in Hep.
    destruct (root_of s (cl_config loc)); discriminate Hep.
  - rewrite found in Hs. injection Hs as <-. apply Hh; vm_compute; reflexivity.
Defined.

Lemma counters_restored_witness :
  ∃ d st', multi_site_handler im caps env req st0 = Ret (d, st') ∧ same_counts st' st0.
Proof.
  destruct run as (resp & st' & H). exists (DHandler loc (lit "/api/x") resp), st'. split; [exact H|].
  apply (counters_restored im caps env req st0 (DHandler loc (lit "/api/x") resp) st'); [|exact H|discriminate].
  split_and!; [by vm_compute..|]. intros key. unfold conn_count, st0. cbn [rs_conn_counts].
  destruct (decide (key = (lit "a", 1%nat))) as [->|Hk]; [by vm_compute|].
  rewrite lookup_singleton_ne by done. by vm_compute.
Defined.

Definition silent_env : Env :=
  mkEnv 0 0 [] (e_registry env) (λ _, None) (λ _, true) (λ _ _ _ _, NetReply (lit "HTTP/1.1" ++ CRLF) EndOpen)
    (λ _ _ _ _, None) (λ _ r, r) (λ _ _ _ _, None) (λ _ _ _ _, mkResponse 200 hm_empty []) (λ _, []) (λ _, None) canon
    (λ _, None) 0.

Lemma silent_auth_blocks_location_witness :
  ∃ st', limited silent_env (site_from_config bld canon site) loc req (lit "/api/x") None (V4 3232235777) st0
         = Ret (DWaiting, st') ∧ conn_count (lit "a", 1%nat) st' = 2.
Proof.
  apply (silent_auth_blocks_location silent_env (site_from_config bld canon site) loc req (lit "/api/x") None
           (V4 3232235777) st0 (lit "/auth")); by vm_compute.
Defined.

End Witness.
