(* ===== verification/WsProxy.v ===== *)
(** * WebSocket proxying: [src/handler/reverse_proxy/ws_proxy.rs]

    The upgrade request, the reader of the upstream's answer and the stream
    that relays both directions.  [BiDirStream::poll_next] is a function of the
    answers its three sources give in that poll: the writer to the upstream,
    the client's body and the reader from the upstream. *)

From S2P Require Import Prelude RustStr Headers ProxyResponse Retry Http1.

(** ** The upgrade request *)

Definition has_header (name : list Z) (extra : list (list Z * list Z)) : bool :=
  existsb (λ kv, eq_ignore_ascii_case (fst kv) name) extra.

(** The generated key: [nanos i] is the clock when byte [i] is made. *)
Definition ws_key_byte (nanos : nat → Z) (i : nat) : Z :=
  Z.lxor (Z.shiftr (nanos i) (Z.of_nat (i mod 8)) mod 256) (wrap32 (Z.of_nat i * 2654435769) mod 256).
Definition ws_key_bytes (nanos : nat → Z) : list Z := ws_key_byte nanos <$> seq 0 16.

Definition upgrade_request (base64 : list Z → list Z) (nanos : nat → Z) (path host : list Z)
    (extra : list (list Z * list Z)) (client_ip : list Z) : list Z :=
  let req := lit "GET " ++ path ++ lit " HTTP/1.1" ++ CRLF ++ lit "Host: " ++ host ++ CRLF in
  let req := foldl (λ req '(k, v), push_safe_header req k v) req extra in
  let req := push_sanitized_value (req ++ lit "X-Real-IP: ") client_ip ++ CRLF in
  let req := push_sanitized_value (req ++ lit "X-Forwarded-For: ") client_ip ++ CRLF in
  let req := if has_header (lit "upgrade") extra then req else req ++ lit "Upgrade: websocket" ++ CRLF in
  let req := if has_header (lit "sec-websocket-key") extra then req
             else req ++ lit "Sec-WebSocket-Key: " ++ base64 (ws_key_bytes nanos) ++ CRLF in
  let req := if has_header (lit "sec-websocket-version") extra then req
             else req ++ lit "Sec-WebSocket-Version: 13" ++ CRLF in
  req ++ lit "Connection: Upgrade" ++ CRLF ++ CRLF.

(** ** The upstream's answer *)

Definition WS_HEAD_BUF : nat := 4096.

(** The read loop of [read_upstream_headers]; a silent upstream meets the
    deadline.  Every read returns a byte, so the buffer's size is enough fuel. *)
Fixpoint ws_read_head (fuel : nat) (sched : nat → nat) (k : nat) (buf s : list Z) (e : stream_end)
  : io (list Z * list Z) :=
  match fuel with
  | O => Failed
  | S fuel =>
      if (WS_HEAD_BUF <=? length buf)%nat then Failed
      else match s with
           | [] =>
               match e with
               | EndOpen => Failed
               | _ => match find_crlfcrlf buf with Some _ => Done (buf, []) | None => Failed end
               end
           | _ =>
               let n := read_len (sched k) (WS_HEAD_BUF - length buf) (length s) in
               let buf := buf ++ take n s in
               match find_crlfcrlf buf with
               | Some _ => Done (buf, drop n s)
               | None => ws_read_head fuel sched (S k) buf (drop n s) e
               end
           end
  end.

(** A header line: the text around its first colon. *)
Definition ws_header_line (line : list Z) : option (list Z * list Z) :=
  i ← find_byte byte_colon line; Some (trim (take i line), trim (drop (S i) line)).

Record ws_head := mkWsHead { wh_status : Z; wh_headers : list (list Z * list Z); wh_prefetched : option (list Z) }.

Definition ws_parse_head (buf : list Z) : option ws_head :=
  p ← find_crlfcrlf buf;
  let head_end := (p + 4)%nat in
  let header_str := if utf8_valid (take head_end buf) then take head_end buf else [] in
  Some (mkWsHead (parse_status_code header_str) (omap ws_header_line (drop 1 (lines header_str)))
          (if (head_end <? length buf)%nat then Some (drop head_end buf) else None)).

(** [read_upstream_headers]: the parsed head and what is left in the stream. *)
Definition read_upstream_headers (sched : nat → nat) (s : list Z) (e : stream_end) : io (ws_head * list Z) :=
  '(buf, rest) ← ws_read_head (S WS_HEAD_BUF) sched 0 [] s e;
  match ws_parse_head buf with Some h => Done (h, rest) | None => Failed end.

(** ** The relay *)

(** The slot of the request body: [take_body_ref] leaves the default, an empty
    body, behind. *)
Inductive request_body := BodyStream | BodyNone.
Definition take_body_ref (slot : request_body) : request_body * request_body := (slot, BodyNone).

Inductive write_answer := Wrote (n : nat) | WriteError | WritePending.
Inductive client_answer := Chunk (b : list Z) | ClientError | ClientEof | ClientPending.
Inductive read_answer := Read (b : list Z) | ReadError | ReadPending.

(** The answers of one poll: the write of pending data, the client's body, the
    write of a fresh chunk, the upstream. *)
Record poll_env := mkEnv { pe_pending : write_answer; pe_client : client_answer; pe_write : write_answer; pe_read : read_answer }.

Record BiDirStream := mkBiDir {
  bd_body : request_body;
  bd_prefetched : option (list Z);
  bd_pending_write : option (list Z);
  bd_client_done : bool;
}.

Definition bidir_new (body : request_body) (prefetched : option (list Z)) : BiDirStream := mkBiDir body prefetched None false.

Definition set_pending (p : option (list Z)) (st : BiDirStream) : BiDirStream :=
  mkBiDir (bd_body st) (bd_prefetched st) p (bd_client_done st).
Definition set_done (st : BiDirStream) : BiDirStream := mkBiDir (bd_body st) (bd_prefetched st) (bd_pending_write st) true.
Definition set_prefetched (p : option (list Z)) (st : BiDirStream) : BiDirStream :=
  mkBiDir (bd_body st) p (bd_pending_write st) (bd_client_done st).

(** Who will wake the task: a source that answered [Pending] in this poll. *)
Inductive waker := OnWrite | OnClient | OnRead.

(** What direction A did in a poll: bytes written upstream, bytes taken from
    the client, whether bytes were lost to a write error, wakers registered. *)
Record effect := mkEffect { ef_written : list Z; ef_taken : list Z; ef_lost : bool; ef_wakers : list waker }.
Definition no_effect : effect := mkEffect [] [] false [].

(** Direction A, first part: data still to be written. *)
Definition flush_pending (w : write_answer) (st : BiDirStream) : effect * BiDirStream :=
  match bd_pending_write st with
  | None => (no_effect, st)
  | Some data =>
      match w with
      | Wrote n =>
          (mkEffect (take n data) [] false [],
           set_pending (if (n =? length data)%nat then None else Some (drop n data)) st)
      | WriteError => (mkEffect [] [] true [], set_pending None (set_done st))
      | WritePending => (mkEffect [] [] false [OnWrite], st)
      end
  end.

(** Direction A, second part: a fresh chunk of the client. *)
Definition forward_chunk (c : client_answer) (w : write_answer) (st : BiDirStream) : effect * BiDirStream :=
  match bd_client_done st, bd_pending_write st with
  | false, None =>
      match (match bd_body st with BodyStream => c | BodyNone => ClientEof end) with
      | Chunk b =>
          match w with
          | Wrote n =>
              (mkEffect (take n b) b false [],
               if (n =? length b)%nat then st else set_pending (Some (drop n b)) st)
          | WriteError => (mkEffect [] b true [], set_done st)
          | WritePending => (mkEffect [] b false [OnWrite], set_pending (Some b) st)
          end
      | ClientError | ClientEof => (no_effect, set_done st)
      | ClientPending => (mkEffect [] [] false [OnClient], st)
      end
  | _, _ => (no_effect, st)
  end.

Inductive poll_result := Item (b : list Z) | End | Pending.

(** Direction B: the result, the bytes read, the wakers. *)
Definition poll_upstream (r : read_answer) (st : BiDirStream) : poll_result * list Z * list waker * BiDirStream :=
  match bd_prefetched st with
  | Some chunk => (Item chunk, [], [], set_prefetched None st)
  | None =>
      match r with
      | Read [] => (End, [], [], st)
      | Read b => (Item b, b, [], st)
      | ReadError => (End, [], [], st)
      | ReadPending => (Pending, [], [OnRead], st)
      end
  end.

(** [BiDirStream::poll_next] *)
Definition poll_next (e : poll_env) (st : BiDirStream) : poll_result * effect * list Z * BiDirStream :=
  let '(f1, st) := flush_pending (pe_pending e) st in
  let '(f2, st) := forward_chunk (pe_client e) (pe_write e) st in
  let '(r, b, ws, st) := poll_upstream (pe_read e) st in
  (r, mkEffect (ef_written f1 ++ ef_written f2) (ef_taken f1 ++ ef_taken f2) (ef_lost f1 || ef_lost f2)
        (ef_wakers f1 ++ ef_wakers f2 ++ ws), b, st).

(** A run of polls up to the end of the stream: what the client received, what
    was read from the upstream, what was written to it, what was taken from the
    client, whether a write failed. *)
Record run := mkRun {
  rn_items : list (list Z);
  rn_read : list Z;
  rn_written : list Z;
  rn_taken : list Z;
  rn_lost : bool;
  rn_state : BiDirStream;
}.

Definition run_nil (st : BiDirStream) : run := mkRun [] [] [] [] false st.
Definition run_cons (r : poll_result) (f : effect) (b : list Z) (rn : run) : run :=
  mkRun (match r with Item x => x :: rn_items rn | _ => rn_items rn end) (b ++ rn_read rn)
    (ef_written f ++ rn_written rn) (ef_taken f ++ rn_taken rn) (ef_lost f || rn_lost rn) (rn_state rn).

Fixpoint relay (es : list poll_env) (st : BiDirStream) : run :=
  match es with
  | [] => run_nil st
  | e :: es =>
      let '(r, f, b, st) := poll_next e st in
      run_cons r f b (match r with End => run_nil st | _ => relay es st end)
  end.

(** ** The handshake *)

Section handshake.
Context `{L : HeaderLib}.

(** The answer to the client: its headers, and the relay when the upstream
    switched protocols.  [client_handshake] is [http_ws::handshake] on the
    client's request: the headers of its 101 response, or a refusal. *)
Record ws_response := mkWsResp { wr_status : Z; wr_headers : HeaderMap; wr_relay : option (BiDirStream * list Z) }.

Definition status_or_502 (c : Z) : Z := if (100 <=? c) && (c <=? 999) then c else 502.

(** [ws_handshake_and_relay] on a connection that took the request; [Failed]
    stands for its errors. *)
Definition ws_handshake_and_relay (sched : nat → nat) (s : list Z) (e : stream_end) (body_slot : request_body)
    (is_h2_ws : bool) (client_handshake : option (list (list Z * list Z)))
    (strip : bool) (cookie_domain redirect_from redirect_to : option (list Z)) : outcome (io ws_response) :=
  match read_upstream_headers sched s e with
  | Done (h, rest) =>
      if negb (wh_status h =? 101) then Ret (Done (mkWsResp (status_or_502 (wh_status h)) hm_empty None))
      else
        let client_body := fst (take_body_ref body_slot) in
        let bidir := bidir_new client_body (wh_prefetched h) in
        let finish status hm :=
          hm ← apply_response_headers hm (wh_headers h) strip cookie_domain redirect_from redirect_to;
          Ret (Done (mkWsResp status hm (Some (bidir, rest)))) in
        if is_h2_ws then finish 200 hm_empty
        else match client_handshake with
             | Some hs => finish 101 (foldl (λ hm '(k, v), hm_insert k v hm) hm_empty hs)
             | None => Ret Failed
             end
  | Failed => Ret Failed
  | Blocked => Ret Blocked
  end.

(** [handle_ws_proxy] *)
Definition handle_ws_proxy (connected : bool) (sched : nat → nat) (s : list Z) (e : stream_end) (body_slot : request_body)
    (is_h2_ws : bool) (client_handshake : option (list (list Z * list Z)))
    (strip : bool) (cookie_domain redirect_from redirect_to : option (list Z)) : outcome (io ws_response) :=
  if connected then
    r ← ws_handshake_and_relay sched s e body_slot is_h2_ws client_handshake strip cookie_domain redirect_from redirect_to;
    Ret (match r with Failed => Done (mkWsResp 502 hm_empty None) | r => r end)
  else Ret (Done (mkWsResp 502 hm_empty None)).

(** The call in [handle_sweety] of [mod.rs]: the body is taken for the request
    before the kind of request is looked at. *)
Definition proxy_websocket (connected : bool) (sched : nat → nat) (s : list Z) (e : stream_end) (body_slot : request_body)
    (is_h2_ws : bool) (client_handshake : option (list (list Z * list Z)))
    (strip : bool) (cookie_domain redirect_from redirect_to : option (list Z)) : outcome (io ws_response) :=
  let '(_, body_slot) := take_body_ref body_slot in
  handle_ws_proxy connected sched s e body_slot is_h2_ws client_handshake strip cookie_domain redirect_from redirect_to.

End handshake.

(** ** The relay is faithful *)

(** Direction A of one poll: what was waiting and what came in is what was
    written and what waits, up to the bytes of a failed write, after which
    nothing more is taken. *)
Definition a_side (st : BiDirStream) (f : effect) (st' : BiDirStream) : Prop :=
  ∃ lost, default [] (bd_pending_write st) ++ ef_taken f
          = ef_written f ++ default [] (bd_pending_write st') ++ lost
          ∧ (ef_lost f = false → lost = [])
          ∧ (ef_lost f = true → bd_client_done st' = true ∧ bd_pending_write st' = None)
          ∧ bd_prefetched st' = bd_prefetched st ∧ bd_body st' = bd_body st.

Lemma flush_pending_side w st f st' : flush_pending w st = (f, st') → a_side st f st' ∧ ef_taken f = []
  ∧ (bd_client_done st = true → bd_pending_write st = None → ef_lost f = false ∧ st' = st).
Proof.
  unfold flush_pending, a_side. destruct st as [body pre [data|] done]; cbn [bd_pending_write].
  - destruct w as [n| |]; intros [= <- <-]; (split; [|split; [done|done]]).
    + exists []. cbn. rewrite !app_nil_r. destruct (Nat.eqb_spec n (length data)) as [->|]; cbn.
      * split_and!; try done. by rewrite firstn_all, app_nil_r.
      * split_and!; try done. by rewrite take_drop.
    + exists data. cbn. rewrite app_nil_r. done.
    + exists []. cbn. by rewrite !app_nil_r.
  - intros [= <- <-]. split_and!; [|done|done]. exists []. done.
Qed.

Lemma forward_chunk_side c w st f st' : forward_chunk c w st = (f, st') → a_side st f st'
  ∧ (bd_client_done st = true → f = no_effect ∧ st' = st).
Proof.
  unfold forward_chunk, a_side. destruct st as [body pre [data|] done]; cbn [bd_pending_write bd_client_done bd_body].
  { destruct done; intros [= <- <-]; (split; [|done]); exists []; cbn; by rewrite !app_nil_r. }
  destruct done; [intros [= <- <-]; split; [by exists []|done]|].
  destruct (match body with BodyStream => c | BodyNone => ClientEof end) as [b| | |];
    [|intros [= <- <-]; split; [by exists []|done]..].
  destruct w as [n| |]; intros [= <- <-]; (split; [|done]).
  - exists []. destruct (Nat.eqb_spec n (length b)) as [->|]; cbn; rewrite ?app_nil_r; split_and!; try done.
    + by rewrite firstn_all.
    + by rewrite take_drop.
  - by exists b.
  - exists []. cbn. by rewrite app_nil_r.
Qed.

Definition finished (st : BiDirStream) : Prop := bd_client_done st = true ∧ bd_pending_write st = None.

Lemma poll_upstream_side r st res b ws st' :
  poll_upstream r st = (res, b, ws, st') →
  (match res with Item x => x | _ => [] end) ++ default [] (bd_prefetched st') = default [] (bd_prefetched st) ++ b
  ∧ bd_client_done st' = bd_client_done st ∧ bd_pending_write st' = bd_pending_write st ∧ bd_body st' = bd_body st.
Proof.
  unfold poll_upstream. destruct st as [body [pre|] p d]; cbn [bd_prefetched].
  - intros [= <- <- <- <-]. done.
  - destruct r as [[|x b']| |]; intros [= <- <- <- <-]; cbn; by rewrite ?app_nil_r.
Qed.

Lemma poll_next_side e st r f b st' :
  poll_next e st = (r, f, b, st') →
  (∃ lost, default [] (bd_pending_write st) ++ ef_taken f = ef_written f ++ default [] (bd_pending_write st') ++ lost
           ∧ (ef_lost f = false → lost = []) ∧ (ef_lost f = true → finished st'))
  ∧ (finished st → ef_written f = [] ∧ ef_taken f = [] ∧ ef_lost f = false ∧ finished st')
  ∧ (match r with Item x => x | _ => [] end) ++ default [] (bd_prefetched st') = default [] (bd_prefetched st) ++ b.
Proof.
  unfold poll_next, finished. destruct (flush_pending _ st) as [f1 st1] eqn:E1.
  destruct (forward_chunk _ _ st1) as [f2 st2] eqn:E2.
  destruct (poll_upstream _ st2) as [[[r' b'] ws] st3] eqn:E3. intros [= <- <- <- <-].
  apply flush_pending_side in E1 as ((l1 & H1 & Hn1 & Hf1 & Hp1 & _) & Ht1 & Hd1).
  apply forward_chunk_side in E2 as ((l2 & H2 & Hn2 & Hf2 & Hp2 & _) & Hd2).
  apply poll_upstream_side in E3 as (H3 & Hc3 & Hw3 & _). cbn [ef_taken ef_written ef_lost]. rewrite Hc3, Hw3.
  rewrite Ht1, app_nil_r in *. split_and!.
  - destruct (ef_lost f1) eqn:El1.
    + destruct (Hf1 eq_refl) as [Hdone Hnone]. destruct (Hd2 Hdone) as [-> ->]. exists l1. cbn.
      rewrite !app_nil_r. split_and!; [done|done|by intros _].
    + rewrite (Hn1 eq_refl), app_nil_r in H1. exists l2. cbn [orb]. split_and!; [|done|done].
      rewrite H1, <- !app_assoc. f_equal. rewrite <- H2. done.
  - intros [Hdone Hnone]. destruct (Hd1 Hdone Hnone) as [-> ->]. destruct (Hd2 Hdone) as [-> ->].
    rewrite Hnone in H1. cbn in H1. symmetry in H1. apply app_nil in H1 as [-> _]. done.
  - rewrite H3, Hp2, Hp1. done.
Qed.

Definition quiet (rn : run) : Prop := rn_written rn = [] ∧ rn_taken rn = [] ∧ rn_lost rn = false ∧ finished (rn_state rn).

Lemma relay_finished es st : finished st → quiet (relay es st).
Proof.
  revert st; induction es as [|e es IH]; intros st Hf; [done|]. cbn [relay].
  destruct (poll_next e st) as [[[r f] b] st1] eqn:E. apply poll_next_side in E as (_ & Hfin & _).
  destruct (Hfin Hf) as (Hw & Ht & Hl & Hf1). unfold quiet, run_cons. cbn [rn_written rn_taken rn_lost rn_state].
  rewrite Hw, Ht, Hl. destruct r; try apply (IH st1 Hf1). done.
Qed.

(** What a run from [st] promises. *)
Definition run_ok (st : BiDirStream) (rn : run) : Prop :=
  concat (rn_items rn) ++ default [] (bd_prefetched (rn_state rn)) = default [] (bd_prefetched st) ++ rn_read rn
  ∧ ∃ lost, default [] (bd_pending_write st) ++ rn_taken rn
            = rn_written rn ++ default [] (bd_pending_write (rn_state rn)) ++ lost
            ∧ (rn_lost rn = false → lost = []).

Lemma run_ok_nil st : run_ok st (run_nil st).
Proof. unfold run_ok. cbn. rewrite app_nil_r. split; [done|]. exists []. by rewrite !app_nil_r. Qed.

Lemma run_ok_cons e st r f b st1 rn :
  poll_next e st = (r, f, b, st1) → run_ok st1 rn → (finished st1 → quiet rn) → run_ok st (run_cons r f b rn).
Proof.
  intros (( l & Hl & Hn & Hfl) & _ & Hb)%poll_next_side (H1 & lost & H2 & H3) Hq.
  unfold run_ok, run_cons. cbn [rn_items rn_read rn_written rn_taken rn_lost rn_state]. split.
  - rewrite (app_assoc (default [] (bd_prefetched st))), <- Hb. clear -H1.
    destruct r; cbn [concat app] in *; rewrite <- ?app_assoc, H1; done.
  - destruct (ef_lost f).
    + destruct (Hq (Hfl eq_refl)) as (-> & -> & _ & [_ ->]). exists l. rewrite !app_nil_r, Hl.
      destruct (Hfl eq_refl) as [_ ->]. done.
    + exists lost. rewrite (Hn eq_refl), app_nil_r in Hl. split; [|done].
      rewrite app_assoc, Hl, <- !app_assoc. f_equal. exact H2.
Qed.

Lemma relay_ok es st : run_ok st (relay es st).
Proof.
  revert st. induction es as [|e es IH]; intros st; [apply run_ok_nil|]. cbn [relay].
  destruct (poll_next e st) as [[[r f] b] st1] eqn:E.
  apply (run_ok_cons e st r f b st1); [done| |]; destruct r; auto using run_ok_nil, relay_finished. by intros.
Qed.

(** C18: The relay is faithful.  Over any sequence of polls, however the writer takes data in parts, holds
    it back or fails, and however the upstream's bytes arrive: the client gets, in order, the bytes
    read with the handshake and then the bytes read since; and the upstream gets, in order, the
    client's bytes, of which only those behind a failed write are lost. *)
Theorem relay_exact es st :
  let rn := relay es st in
  concat (rn_items rn) ++ default [] (bd_prefetched (rn_state rn)) = default [] (bd_prefetched st) ++ rn_read rn
  ∧ ∃ lost, default [] (bd_pending_write st) ++ rn_taken rn
            = rn_written rn ++ default [] (bd_pending_write (rn_state rn)) ++ lost
            ∧ (rn_lost rn = false → lost = []).
Proof. exact (relay_ok es st). Qed.

(** ** The answer of the upstream is read exactly *)

Lemma ws_read_head_exact fuel sched k buf s e p :
  find_crlfcrlf (buf ++ s) = Some p → find_crlfcrlf buf = None → (p + 4 ≤ WS_HEAD_BUF)%nat →
  (WS_HEAD_BUF < length buf + fuel)%nat →
  ∃ buf' rest, ws_read_head fuel sched k buf s e = Done (buf', rest) ∧ buf' ++ rest = buf ++ s ∧ find_crlfcrlf buf' = Some p.
Proof.
  revert k buf s; induction fuel as [|fuel IH]; intros k buf s Hp Hn Hb Hf; cbn [ws_read_head].
  { exfalso. rewrite (find_crlfcrlf_prefix buf s p Hp) in Hn by lia. done. }
  pose proof (find_crlfcrlf_bound _ _ Hp) as Hlen. rewrite length_app in Hlen.
  destruct (Nat.leb_spec WS_HEAD_BUF (length buf)) as [Hfull|Hfull].
  { exfalso. rewrite (find_crlfcrlf_prefix buf s p Hp) in Hn by lia. done. }
  destruct s as [|x s]; [rewrite app_nil_r in Hp; congruence|].
  set (n := read_len _ _ _).
  assert (Hn1 : (1 ≤ n ≤ length (x :: s))%nat).
  { pose proof (read_len_bounds (sched k) (WS_HEAD_BUF - length buf) (length (x :: s))) as H. cbn [length] in *. fold n in H. lia. }
  destruct (find_crlfcrlf (buf ++ take n (x :: s))) as [q|] eqn:Eq.
  - exists (buf ++ take n (x :: s)), (drop n (x :: s)). rewrite <- app_assoc, take_drop. split_and!; [done|done|].
    rewrite Eq. f_equal. apply (find_crlfcrlf_app _ (drop n (x :: s))) in Eq. rewrite <- app_assoc, take_drop in Eq. congruence.
  - destruct (IH (S k) (buf ++ take n (x :: s)) (drop n (x :: s))) as (buf' & rest & H1 & H2 & H3);
      [by rewrite <- app_assoc, take_drop|done|done|rewrite length_app, length_take; lia|].
    exists buf', rest. split_and!; [done| |done]. by rewrite H2, <- app_assoc, take_drop.
Qed.

(** A response head: a text that ends with its first blank line and fits the
    buffer. *)
Definition head_text (head : list Z) : Prop :=
  ∃ p, find_crlfcrlf head = Some p ∧ length head = (p + 4)%nat ∧ (length head ≤ WS_HEAD_BUF)%nat ∧ utf8_valid head = true.

Lemma read_upstream_headers_exact sched head frames e :
  head_text head →
  ∃ h rest, read_upstream_headers sched (head ++ frames) e = Done (h, rest)
    ∧ wh_status h = parse_status_code head ∧ wh_headers h = omap ws_header_line (drop 1 (lines head))
    ∧ default [] (wh_prefetched h) ++ rest = frames.
Proof.
  intros (p & Hp & Hl & Hb & Hu). unfold read_upstream_headers.
  destruct (ws_read_head_exact (S WS_HEAD_BUF) sched 0 [] (head ++ frames) e p) as (buf & rest & -> & Hbuf & Hf);
    [exact (find_crlfcrlf_app _ frames _ Hp)|done|lia|cbn [length]; lia|].
  cbn [mbind io_bind app] in *. unfold ws_parse_head. rewrite Hf. cbn [mbind option_bind].
  pose proof (find_crlfcrlf_bound _ _ Hf) as Hlen.
  assert (Hhead : take (p + 4) buf = head).
  { rewrite <- (take_app_le buf rest) by lia. rewrite Hbuf. by rewrite take_app_length'. }
  rewrite Hhead, Hu. eexists _, rest. split; [reflexivity|]. cbn [wh_status wh_headers wh_prefetched]. split_and!; [done|done|].
  assert (Hd : drop (p + 4) buf ++ rest = frames).
  { rewrite <- (drop_app_le buf rest) by lia. rewrite Hbuf. by rewrite drop_app_length'. }
  destruct (Nat.ltb_spec (p + 4) (length buf)); [done|]. rewrite <- Hd, (drop_ge buf) by lia. done.
Qed.

Lemma relay_prefetched es st : es ≠ [] ∨ bd_prefetched st = None → bd_prefetched (rn_state (relay es st)) = None.
Proof.
  revert st; induction es as [|e es IH]; intros st H; [by destruct H|]. cbn [relay].
  destruct (poll_next e st) as [[[r f] b] st1] eqn:E.
  assert (Hp : bd_prefetched st1 = None).
  { unfold poll_next in E. destruct (flush_pending _ st) as [f1 s1]. destruct (forward_chunk _ _ s1) as [f2 s2].
    destruct (poll_upstream _ s2) as [[[r' b'] ws] s3] eqn:E3. injection E as _ _ _ <-. revert E3. unfold poll_upstream.
    destruct s2 as [body [pre|] pw dn]; cbn [bd_prefetched]; [by intros [= <- <- <- <-]|].
    destruct (pe_read e) as [[|x l]| |]; by intros [= <- <- <- <-]. }
  cbn [rn_state run_cons]. destruct r; auto.
Qed.

Section handshake_theorems.
Context `{L : HeaderLib}.

(** From the handshake on, the client receives exactly what the upstream sends.  When the upstream
    answers with a 101 head and the client's own handshake holds, then under every read schedule the
    client gets the upgrade response, and once the relay has read the rest of the stream, the client
    has exactly the bytes that followed the head, those that came in the same packet as the head
    included. *)
Theorem ws_downstream_exact sched head frames e slot is_h2 hs strip cd rf rt status base m :
  head_text head → parse_status_code head = 101 →
  (if is_h2 : bool then Some (200, hm_empty)
   else (λ hs, (101, foldl (λ hm '(k, v), hm_insert k v hm) hm_empty hs)) <$> hs) = Some (status, base) →
  apply_response_headers base (omap ws_header_line (drop 1 (lines head))) strip cd rf rt = Ret m →
  ∃ bd rest, ws_handshake_and_relay sched (head ++ frames) e slot is_h2 hs strip cd rf rt
             = Ret (Done (mkWsResp status m (Some (bd, rest))))
    ∧ bd_body bd = slot
    ∧ ∀ es, es ≠ [] → rn_read (relay es bd) = rest → concat (rn_items (relay es bd)) = frames.
Proof.
  intros Hh Hs Hbase Hm. unfold ws_handshake_and_relay.
  destruct (read_upstream_headers_exact sched head frames e Hh) as (h & rest & -> & H1 & H2 & H3).
  rewrite H1, Hs. cbn [negb Z.eqb Pos.eqb take_body_ref fst]. rewrite H2.
  exists (bidir_new slot (wh_prefetched h)), rest. split; [|split; [done|]].
  - destruct is_h2; [injection Hbase as <- <-|destruct hs; [|done]; injection Hbase as <- <-]; rewrite Hm; reflexivity.
  - intros es He Hr. destruct (relay_ok es (bidir_new slot (wh_prefetched h))) as [Hi _].
    rewrite relay_prefetched, app_nil_r, Hr in Hi by auto. rewrite Hi. exact H3.
Qed.

(** ** Where it goes wrong *)

(** A proxied WebSocket is deaf.  The handler takes the request body before it looks at the kind of
    request, and the relay takes it again and gets the empty body: whatever the client sends, no byte
    of it is ever written to the upstream. *)
Theorem ws_client_frames_dropped connected sched s e slot is_h2 hs strip cd rf rt r bd rest es :
  proxy_websocket connected sched s e slot is_h2 hs strip cd rf rt = Ret (Done r) →
  wr_relay r = Some (bd, rest) → rn_written (relay es bd) = [] ∧ rn_taken (relay es bd) = [].
Proof.
  intros H Hr. assert (Hbd : ∃ pre, bd = bidir_new BodyNone pre).
  { revert H. unfold proxy_websocket, handle_ws_proxy, ws_handshake_and_relay. cbn [take_body_ref fst].
    destruct connected; [|intros [= <-]; done].
    destruct (read_upstream_headers sched s e) as [[h rest']| |]; [|by intros [= <-]|done].
    destruct (negb _); [by intros [= <-]|].
    destruct is_h2; [|destruct hs as [hs|]; [|by intros [= <-]]];
      (destruct (apply_response_headers _ _ _ _ _ _); [|done]; intros [= <-]; injection Hr as <- _; eauto). }
  destruct Hbd as [pre ->]. destruct es as [|ev es]; [done|]. cbn [relay].
  destruct (poll_next ev _) as [[[r' f] b] st1] eqn:E. revert E. unfold poll_next.
  cbn [flush_pending bidir_new bd_pending_write forward_chunk bd_client_done bd_body set_done].
  destruct (poll_upstream _ _) as [[[r0 b0] ws] s3] eqn:E3. intros [= <- <- <- <-].
  apply poll_upstream_side in E3 as (_ & Hd & Hw & _). cbn [bd_client_done bd_pending_write] in Hd, Hw.
  cbn [rn_written rn_taken run_cons ef_written ef_taken no_effect app].
  destruct r0; try done; by destruct (relay_finished es s3 (conj Hd Hw)) as (-> & -> & _).
Qed.

End handshake_theorems.

(** The relay forgets to wait for the client.  A poll that takes a chunk from the client, writes all of
    it and finds the upstream silent returns [Pending] with a waker for the upstream only: the client's
    next chunk wakes nobody, and stays unread until the upstream happens to send something. *)
Theorem ws_lost_wakeup st b w :
  bd_body st = BodyStream → bd_prefetched st = None → bd_pending_write st = None → bd_client_done st = false →
  poll_next (mkEnv w (Chunk b) (Wrote (length b)) ReadPending) st = (Pending, mkEffect b b false [OnRead], [], st).
Proof.
  destruct st as [body pre p d]. cbn. intros -> -> -> ->. unfold poll_next. cbn. by rewrite Nat.eqb_refl, firstn_all.
Qed.

(** ** The upgrade request is well formed *)

Definition upgrade_lines (key host : list Z) (extra : list (list Z * list Z)) (client_ip : list Z) : list (list Z) :=
  (lit "Host: " ++ host) :: ((λ '(k, v), san k ++ lit ": " ++ san v) <$> extra)
  ++ [lit "X-Real-IP: " ++ san client_ip; lit "X-Forwarded-For: " ++ san client_ip]
  ++ (if has_header (lit "upgrade") extra then [] else [lit "Upgrade: websocket"])
  ++ (if has_header (lit "sec-websocket-key") extra then [] else [lit "Sec-WebSocket-Key: " ++ key])
  ++ (if has_header (lit "sec-websocket-version") extra then [] else [lit "Sec-WebSocket-Version: 13"])
  ++ [lit "Connection: Upgrade"].

Lemma push_headers_lines req extra :
  foldl (λ req '(k, v), push_safe_header req k v) req extra
  = req ++ concat ((λ l, l ++ CRLF) <$> ((λ '(k, v), san k ++ lit ": " ++ san v) <$> extra)).
Proof.
  revert req; induction extra as [|[k v] extra IH]; intros req; cbn [foldl]; [by rewrite app_nil_r|].
  rewrite IH. unfold push_safe_header. rewrite !push_sanitized_app. cbn [fmap list_fmap concat]. by rewrite <- !app_assoc.
Qed.

Lemma upgrade_request_lines base64 nanos path host extra ip :
  upgrade_request base64 nanos path host extra ip
  = render ((lit "GET " ++ path ++ lit " HTTP/1.1") :: upgrade_lines (base64 (ws_key_bytes nanos)) host extra ip).
Proof.
  unfold upgrade_request, upgrade_lines, render. cbv zeta. rewrite push_headers_lines, !push_sanitized_app.
  cbn [fmap list_fmap concat]. rewrite fmap_app, concat_app.
  set (X := concat ((λ l, l ++ CRLF) <$> ((λ '(k, v), san k ++ lit ": " ++ san v) <$> extra))).
  destruct (has_header (lit "upgrade") extra), (has_header (lit "sec-websocket-key") extra),
    (has_header (lit "sec-websocket-version") extra);
    cbn [app fmap list_fmap concat]; repeat rewrite <- app_assoc; cbn [app]; repeat rewrite <- app_assoc; reflexivity.
Qed.

(** The headers an upgrade needs. *)
Definition upgrade_names : list (list Z) :=
  lit <$> ["host"; "upgrade"; "connection"; "sec-websocket-key"; "sec-websocket-version"]%string.

Lemma extra_line_named name extra :
  Forall (λ kv, name_ok (fst kv)) extra → has_header name extra = true →
  Exists (λ l, line_name l = to_ascii_lowercase name) ((λ '(k, v), san k ++ lit ": " ++ san v) <$> extra).
Proof.
  intros Hok (kv & Hin & Hk)%existsb_exists. destruct kv as [k v]. cbn [fst] in Hk.
  apply list_elem_of_In in Hin. rewrite Forall_forall in Hok. destruct (Hok _ Hin) as [Hc Hcol]. cbn [fst] in *.
  apply Exists_exists. exists (san k ++ lit ": " ++ san v). split.
  - apply list_elem_of_fmap. exists (k, v). done.
  - rewrite san_id by done. unfold line_name. change (lit ": " ++ san v) with (byte_colon :: ([SP] ++ san v)).
    rewrite before_colon by done. unfold eq_ignore_ascii_case in Hk. by apply str_eqb_eq in Hk.
Qed.

Lemma lit_line_named (n : list Z) rest : byte_colon ∉ n → line_name (n ++ byte_colon :: rest) = to_ascii_lowercase n.
Proof. intros H. unfold line_name. by rewrite before_colon. Qed.

Lemma upgrade_lines_clean key host extra ip :
  no_crlf host → no_crlf key → Forall (λ l, no_crlf l ∧ l ≠ []) (upgrade_lines key host extra ip).
Proof.
  intros Hh Hk. assert (Hnil : no_crlf []) by (split; apply not_elem_of_nil).
  assert (Hl1 : ∀ l, forallb (λ b, negb ((b =? CR) || (b =? LF))) l = true → l ≠ [] → no_crlf l ∧ l ≠ []).
  { intros l H1 H2. pose proof (no_crlf_lit l [] H1 H2 Hnil) as H. by rewrite app_nil_r in H. }
  unfold upgrade_lines. constructor; [by apply no_crlf_lit|]. rewrite !Forall_app. split_and!.
  - apply Forall_fmap, Forall_forall. intros [k v] _.
    change (no_crlf (san k ++ lit ": " ++ san v) ∧ san k ++ lit ": " ++ san v ≠ []). split.
    + apply no_crlf_app; [apply san_no_crlf|]. apply (no_crlf_lit (lit ": ") (san v)); [done|done|apply san_no_crlf].
    + intros [_ H]%app_nil. discriminate H.
  - repeat (constructor; [apply no_crlf_lit; [done|done|apply san_no_crlf]|]). constructor.
  - case_match; repeat constructor; by apply Hl1.
  - case_match; repeat constructor; by apply no_crlf_lit.
  - case_match; repeat constructor; by apply Hl1.
  - repeat constructor; by apply Hl1.
Qed.

Lemma upgrade_lines_named key host extra ip name :
  Forall (λ kv, name_ok (fst kv)) extra → name ∈ upgrade_names →
  Exists (λ l, line_name l = name) (upgrade_lines key host extra ip).
Proof.
  intros He Hname.
  assert (Hown : ∀ n, has_header n extra = true → to_ascii_lowercase n = n →
    Exists (λ l, line_name l = n) (upgrade_lines key host extra ip)).
  { intros n Hn Hlow. unfold upgrade_lines. apply Exists_cons_tl, Exists_app. left. rewrite <- Hlow. by apply extra_line_named. }
  unfold upgrade_names in Hname. cbn [fmap list_fmap] in Hname.
  repeat (apply elem_of_cons in Hname as [->|Hname]); [| | | | |by apply elem_of_nil in Hname].
  - unfold upgrade_lines. apply Exists_cons_hd. by apply (lit_line_named (lit "Host") ([SP] ++ host)); apply (bool_decide_unpack _).
  - destruct (has_header (lit "upgrade") extra) eqn:E; [by apply Hown|]. unfold upgrade_lines. rewrite E.
    apply Exists_cons_tl. rewrite !Exists_app. right; right; left. by apply Exists_cons_hd.
  - unfold upgrade_lines. apply Exists_cons_tl. rewrite !Exists_app. do 5 right. by apply Exists_cons_hd.
  - destruct (has_header (lit "sec-websocket-key") extra) eqn:E; [by apply Hown|]. unfold upgrade_lines. rewrite E.
    apply Exists_cons_tl. rewrite !Exists_app. do 3 right; left. apply Exists_cons_hd.
    by apply (lit_line_named (lit "Sec-WebSocket-Key") ([SP] ++ key)); apply (bool_decide_unpack _).
  - destruct (has_header (lit "sec-websocket-version") extra) eqn:E; [by apply Hown|]. unfold upgrade_lines. rewrite E.
    apply Exists_cons_tl. rewrite !Exists_app. do 4 right; left. by apply Exists_cons_hd.
Qed.

(** The upgrade request is well formed.  Whatever the client's headers and address contain, the request
    is its line and one clean, non-empty line per header, then the empty line; and every header an
    upgrade needs is there, from the client or supplied. *)
Theorem upgrade_request_safe base64 nanos path host extra ip :
  no_crlf path → no_crlf host → no_crlf (base64 (ws_key_bytes nanos)) → Forall (λ kv, name_ok (fst kv)) extra →
  ∃ lines, upgrade_request base64 nanos path host extra ip = render ((lit "GET " ++ path ++ lit " HTTP/1.1") :: lines)
    ∧ Forall (λ l, no_crlf l ∧ l ≠ []) lines
    ∧ ∀ name, name ∈ upgrade_names → Exists (λ l, line_name l = name) lines.
Proof.
  intros Hp Hh Hk He. exists (upgrade_lines (base64 (ws_key_bytes nanos)) host extra ip).
  split_and!; [apply upgrade_request_lines|by apply upgrade_lines_clean|intros name; by apply upgrade_lines_named].
Qed.

(** ** Witnesses *)

Module Witness.
Import Headers.Model.

Definition head101 : list Z := lit "HTTP/1.1 101 Switching Protocols" ++ CRLF ++ lit "X-Up: 1" ++ CRLF ++ CRLF.
Definition sched (k : nat) : nat := 61%nat.

Lemma head101_text : head_text head101.
Proof. exists 41%nat. split_and!; [by vm_compute|by vm_compute|apply (bool_decide_unpack _); by vm_compute|by vm_compute]. Qed.

Lemma ws_downstream_exact_witness :
  ∃ bd rest, ws_handshake_and_relay sched (head101 ++ lit "frame one, frame two") EndOpen BodyStream true None false None None None
             = Ret (Done (mkWsResp 200 (hm_insert (lit "x-up") (lit "1") hm_empty) (Some (bd, rest))))
    ∧ bd_body bd = BodyStream
    ∧ ∀ es, es ≠ [] → rn_read (relay es bd) = rest → concat (rn_items (relay es bd)) = lit "frame one, frame two".
Proof.
  apply ws_downstream_exact with (base := hm_empty); [exact head101_text|reflexivity|reflexivity|vm_compute; reflexivity].
Defined.

Definition dropped : run :=
  relay [mkEnv WritePending (Chunk (lit "hello")) (Wrote 5) ReadPending] (bidir_new BodyNone None).

Definition relay_of (o : outcome (io ws_response)) : option (BiDirStream * list Z) :=
  match o with Ret (Done r) => wr_relay r | _ => None end.
Notation upgraded := (proxy_websocket true sched head101 EndOpen BodyStream true None false None None None).

Lemma upgraded_relay : relay_of upgraded = Some (bidir_new BodyNone None, []).
Proof. by vm_compute. Qed.

Lemma ws_client_frames_dropped_witness : rn_written dropped = [] ∧ rn_taken dropped = [].
Proof.
  pose proof upgraded_relay as R. destruct upgraded as [[r| |]|] eqn:E; try discriminate R.
  exact (ws_client_frames_dropped true sched head101 EndOpen BodyStream true None false None None None r (bidir_new BodyNone None) []
           [mkEnv WritePending (Chunk (lit "hello")) (Wrote 5) ReadPending] E R).
Defined.

Lemma ws_lost_wakeup_witness :
  poll_next (mkEnv WritePending (Chunk (lit "hi")) (Wrote 2) ReadPending) (bidir_new BodyStream None)
  = (Pending, mkEffect (lit "hi") (lit "hi") false [OnRead], [], bidir_new BodyStream None).
Proof. apply (ws_lost_wakeup (bidir_new BodyStream None) (lit "hi") WritePending); reflexivity. Defined.

Lemma upgrade_request_safe_witness :
  ∃ lines, upgrade_request (λ _, lit "a2V5") (λ _, 5) (lit "/chat") (lit "up") [(lit "X-A", lit "b" ++ CRLF ++ lit "Evil: 1")] (lit "1.2.3.4")
           = render ((lit "GET " ++ lit "/chat" ++ lit " HTTP/1.1") :: lines) ∧ Forall (λ l, no_crlf l ∧ l ≠ []) lines.
Proof.
  destruct (upgrade_request_safe (λ _, lit "a2V5") (λ _, 5) (lit "/chat") (lit "up") [(lit "X-A", lit "b" ++ CRLF ++ lit "Evil: 1")] (lit "1.2.3.4"))
    as (lines & H1 & H2 & _); [split; apply (bool_decide_unpack _); by vm_compute..| |exists lines; split; assumption].
  repeat constructor; apply (bool_decide_unpack _); by vm_compute.
Defined.

End Witness.
