(* ===== verification/WebSocket.v ===== *)
(** * The WebSocket endpoint: [src/handler/websocket.rs]

    The registry of connection counts per site and the handler.  The
    conditional increment is also given as atomic steps of concurrent callers:
    a lookup under the read lock, a compare-and-swap loop on the counter, and
    the first insertion under the write lock. *)

From S2P Require Import Prelude RustStr.

(** ** The registry *)

Definition WsRegistry : Type := gmap (list Z) Z.

(** [WsRegistry::count], [inc], [dec] *)
Definition ws_count (r : WsRegistry) (site : list Z) : Z := default 0 (r !! site).
Definition ws_inc (r : WsRegistry) (site : list Z) : Z * WsRegistry :=
  let c := wrap64 (ws_count r site + 1) in (c, <[site := c]> r).
Definition ws_dec (r : WsRegistry) (site : list Z) : WsRegistry :=
  match r !! site with Some c => <[site := wrap64 (c - 1)]> r | None => r end.

(** [WsRegistry::inc_if_under], run alone *)
Definition inc_if_under (r : WsRegistry) (site : list Z) (max : Z) : bool * WsRegistry :=
  match r !! site with
  | Some cur => if max <=? cur then (false, r) else (true, <[site := cur + 1]> r)
  | None => if max <=? 0 then (false, <[site := 0]> r) else (true, <[site := 1]> r)
  end.

(** Where a caller of [inc_if_under] stands: before the lookup, in the loop,
    before the compare-and-swap with the value it loaded, on its way to the
    write lock, refused, holding a slot, done. *)
Inductive ws_pc := WsStart | WsLoop | WsCas (cur : Z) | WsMissing | WsRefused | WsIn | WsGone.

#[export] Instance ws_pc_eq_dec : EqDecision ws_pc.
Proof. solve_decision. Defined.

(** The atomic steps on the counter of one site; [None] when it has no entry.
    A weak compare-and-swap may fail for no reason. *)
Inductive ws_step (max : Z) : option Z * list ws_pc → option Z * list ws_pc → Prop :=
| ws_found i c pcs : pcs !! i = Some WsStart → ws_step max (Some c, pcs) (Some c, <[i := WsLoop]> pcs)
| ws_absent i pcs : pcs !! i = Some WsStart → ws_step max (None, pcs) (None, <[i := WsMissing]> pcs)
| ws_load i c pcs :
    pcs !! i = Some WsLoop → ws_step max (Some c, pcs) (Some c, <[i := if max <=? c then WsRefused else WsCas c]> pcs)
| ws_cas i c pcs : pcs !! i = Some (WsCas c) → ws_step max (Some c, pcs) (Some (c + 1), <[i := WsIn]> pcs)
| ws_cas_fails i c cur pcs : pcs !! i = Some (WsCas cur) → ws_step max (Some c, pcs) (Some c, <[i := WsLoop]> pcs)
| ws_insert i oc pcs :
    pcs !! i = Some WsMissing →
    ws_step max (oc, pcs)
      (let cur := default 0 oc in
       if max <=? cur then (Some cur, <[i := WsRefused]> pcs) else (Some (cur + 1), <[i := WsIn]> pcs))
| ws_release i c pcs : pcs !! i = Some WsIn → ws_step max (Some c, pcs) (Some (wrap64 (c - 1)), <[i := WsGone]> pcs).

(** ** The handler *)

(** [http_ws::handshake] on a request: accepted, not a GET, or otherwise
    wrong. *)
Inductive handshake := HsOk | HsGetRequired | HsBad.

Record WsRequest := mkWsReq { wq_authority : option (list Z); wq_host : option (list Z); wq_handshake : handshake }.

(** [handle_sweety]: the status and the registry afterwards.  Nothing in the
    program calls [dec]. *)
Definition ws_site_name (q : WsRequest) : list Z :=
  match wq_authority q with
  | Some a => a
  | None => default (lit "_default") (wq_host q)
  end.

Definition ws_handle (max_connections : option Z) (q : WsRequest) (r : WsRegistry) : Z * WsRegistry :=
  let max_conn := default 10000 max_connections in
  let '(ok, r) := if 0 <? max_conn then inc_if_under r (ws_site_name q) max_conn else (true, r) in
  if ok then
    (match wq_handshake q with HsOk => 101 | HsGetRequired => 405 | HsBad => 400 end, r)
  else (503, r).

Fixpoint ws_handle_all (max_connections : option Z) (qs : list WsRequest) (r : WsRegistry) : list Z * WsRegistry :=
  match qs with
  | [] => ([], r)
  | q :: qs =>
      let '(s, r) := ws_handle max_connections q r in
      let '(ss, r) := ws_handle_all max_connections qs r in
      (s :: ss, r)
  end.

(** ** The limit under concurrency *)

Definition holds (p : ws_pc) : Z := match p with WsIn => 1 | _ => 0 end.
Definition holders (pcs : list ws_pc) : Z := foldr (λ p acc, holds p + acc) 0 pcs.

Lemma holders_insert pcs i p p' :
  pcs !! i = Some p → holders (<[i := p']> pcs) = holders pcs - holds p + holds p'.
Proof.
  revert i; induction pcs as [|x pcs IH]; intros [|i] H; [done..| |].
  - injection H as ->. cbn. lia.
  - specialize (IH i H). change (<[S i := p']> (x :: pcs)) with (x :: <[i := p']> pcs).
    unfold holders in *. cbn [foldr]. rewrite IH. lia.
Qed.

Lemma holders_bounds pcs : 0 ≤ holders pcs.
Proof. unfold holders. induction pcs as [|[] pcs IH]; cbn [foldr holds]; lia. Qed.

Lemma holders_start n : holders (replicate n WsStart) = 0.
Proof. induction n as [|n IH]; [done|]. unfold holders in *. cbn [replicate foldr holds]. lia. Qed.

(** The counter is the number of slots held, at most the limit, and a value
    about to be swapped in is below the limit. *)
Definition ws_inv (max : Z) (s : option Z * list ws_pc) : Prop :=
  default 0 (fst s) = holders (snd s) ∧ holders (snd s) ≤ max
  ∧ ∀ i cur, snd s !! i = Some (WsCas cur) → cur < max.

Lemma ws_inv_step max s s' : 0 ≤ max ≤ u64_max → ws_inv max s → ws_step max s s' → ws_inv max s'.
Proof.
  intros Hm (Hc & Hle & Hcas) Hs.
  assert (Hkeep : ∀ (pcs : list ws_pc) i p (j : nat) cur, (∀ (i : nat) cur, pcs !! i = Some (WsCas cur) → cur < max) →
    (∀ c, p = WsCas c → c < max) → <[i := p]> pcs !! j = Some (WsCas cur) → cur < max).
  { intros pcs i p j cur Hall Hp Hj. apply list_lookup_insert_Some in Hj as [(-> & -> & _)|(_ & Hj)]; eauto. }
  destruct Hs as [i c pcs Hi|i pcs Hi|i c pcs Hi|i c pcs Hi|i c cur pcs Hi|i oc pcs Hi|i c pcs Hi];
    cbn [fst snd from_option id] in *; unfold ws_inv; cbn [fst snd].
  - rewrite (holders_insert _ _ _ _ Hi). cbn [holds from_option id]. split_and!; [lia|lia|]. intros j cur. by apply Hkeep.
  - rewrite (holders_insert _ _ _ _ Hi). cbn [holds from_option id]. split_and!; [lia|lia|]. intros j cur. by apply Hkeep.
  - rewrite (holders_insert _ _ _ _ Hi). destruct (Z.leb_spec max c); cbn [holds from_option id];
      (split_and!; [lia|lia|]; intros j cur; apply Hkeep; [done|]; intros ? [= <-]; lia).
  - specialize (Hcas i c Hi) as Hlt. rewrite (holders_insert _ _ _ _ Hi). cbn [holds from_option id].
    split_and!; [lia|lia|]. intros j cur. by apply Hkeep.
  - rewrite (holders_insert _ _ _ _ Hi). cbn [holds from_option id]. split_and!; [lia|lia|]. intros j cur'. by apply Hkeep.
  - destruct (Z.leb_spec max (default 0 oc)); cbn [fst snd from_option id]; rewrite (holders_insert _ _ _ _ Hi); cbn [holds];
      (split_and!; [lia|lia|]; intros j cur; by apply Hkeep).
  - rewrite (holders_insert _ _ _ _ Hi). cbn [holds from_option id]. pose proof (holders_bounds (<[i := WsGone]> pcs)) as Hb.
    rewrite (holders_insert _ _ _ _ Hi) in Hb. cbn [holds] in Hb.
    unfold wrap64, u64_max in *. rewrite Z.mod_small by lia. split_and!; [lia|lia|]. intros j cur. by apply Hkeep.
Qed.

(** The WebSocket limit holds under concurrency.  However the lookups, loads, weak compare-and-swaps,
    first insertions and releases of any number of callers interleave, at most [max] of them hold a slot
    at once, and the counter is exactly the number of slots held. *)
Theorem ws_limit_respected max n s :
  0 ≤ max ≤ u64_max → rtc (ws_step max) (None, replicate n WsStart) s →
  holders (snd s) ≤ max ∧ default 0 (fst s) = holders (snd s).
Proof.
  intros Hm Hr. assert (Hinv : ws_inv max s); [|by destruct Hinv as (? & ? & _)].
  assert (H0 : ws_inv max (None, replicate n WsStart)).
  { unfold ws_inv. cbn [fst snd from_option id]. rewrite holders_start. split_and!; [done|lia|].
    intros i cur H%lookup_replicate_1. by destruct H. }
  revert H0. induction Hr as [|a b c Hab _ IH]; [done|]. intros Ha. by eapply IH, ws_inv_step.
Qed.

(** ** Slots are never returned *)

Lemma ws_handle_spec max q r :
  0 < max → 0 ≤ ws_count r (ws_site_name q) →
  let c := ws_count r (ws_site_name q) in
  let '(s, r') := ws_handle (Some max) q r in
  (s = 503 ↔ max ≤ c) ∧ ws_count r' (ws_site_name q) = if max <=? c then c else c + 1.
Proof.
  intros Hm Hc. cbv zeta. unfold ws_handle, ws_count, WsRegistry in *. cbn [from_option id]. rewrite (proj2 (Z.ltb_lt 0 max)) by lia.
  unfold inc_if_under, WsRegistry. destruct (r !! ws_site_name q) as [c|] eqn:E; cbn [from_option id] in *.
  - destruct (Z.leb_spec max c); cbv beta iota; [rewrite ?E|rewrite lookup_insert_eq]; cbn [from_option id];
      [|destruct (wq_handshake q)]; lia.
  - destruct (Z.leb_spec max 0); [lia|]. cbv beta iota. rewrite lookup_insert_eq. cbn [from_option id].
    destruct (wq_handshake q); lia.
Qed.

(** WebSocket slots leak.  A slot is taken before the handshake is looked at and nothing returns it:
    when requests name one site, the first [max] of them get past the limit, valid handshakes or not,
    and every later request is refused with 503, for ever. *)
Theorem ws_slots_leak max name qs i q s :
  0 < max → Forall (λ q, ws_site_name q = name) qs →
  qs !! i = Some q → fst (ws_handle_all (Some max) qs ∅) !! i = Some s → (s = 503 ↔ max ≤ Z.of_nat i).
Proof.
  intros Hm Hall. assert (Hgen : ∀ r c i q s, ws_count r name = Z.min max c → 0 ≤ c →
    qs !! i = Some q → fst (ws_handle_all (Some max) qs r) !! i = Some s → (s = 503 ↔ max ≤ c + Z.of_nat i)).
  { clear i q s. induction Hall as [|q0 qs Hq _ IH]; intros r c i q s Hr Hc Hi Hs; [done|]. cbn [ws_handle_all] in Hs.
    pose proof (ws_handle_spec max q0 r Hm) as H. rewrite Hq in H. specialize (H ltac:(lia)). cbv zeta in H.
    destruct (ws_handle (Some max) q0 r) as [s0 r0]. destruct H as [H1 H2].
    destruct (ws_handle_all (Some max) qs r0) as [ss r1] eqn:Er. cbn [fst] in Hs.
    destruct i as [|i]; [injection Hs as <-; rewrite H1, Hr; lia|].
    change (qs !! i = Some q) in Hi. change (ss !! i = Some s) in Hs.
    rewrite (IH r0 (c + 1) i q s); [lia| |lia|done|by rewrite Er].
    rewrite H2, Hr. destruct (Z.leb_spec max (Z.min max c)); lia. }
  intros Hi Hs. rewrite (Hgen ∅ 0 i q s); [lia| |lia|done|done]. unfold ws_count, WsRegistry. rewrite lookup_empty. cbn [from_option id]. lia.
Qed.

(** ** Witnesses *)

Module Witness.

Lemma ws_limit_respected_witness :
  let s := (Some 1, [WsIn; WsRefused]) in
  rtc (ws_step 1) (None, replicate 2 WsStart) s ∧ holders (snd s) ≤ 1 ∧ default 0 (fst s) = holders (snd s).
Proof.
  intros s. assert (Hr : rtc (ws_step 1) (None, replicate 2 WsStart) s).
  { eapply rtc_l; [apply (ws_absent 1 0%nat); reflexivity|]. eapply rtc_l; [apply (ws_absent 1 1%nat); reflexivity|].
    eapply rtc_l; [apply (ws_insert 1 0%nat); reflexivity|]. eapply rtc_l; [apply (ws_insert 1 1%nat); reflexivity|]. apply rtc_refl. }
  split; [exact Hr|]. apply (ws_limit_respected 1 2 s); [by vm_compute|exact Hr].
Defined.

Definition bad : WsRequest := mkWsReq None (Some (lit "a.example")) HsBad.

Lemma ws_slots_leak_witness :
  fst (ws_handle_all (Some 2) [bad; bad; bad] ∅) !! 2%nat = Some 503.
Proof.
  destruct (fst (ws_handle_all (Some 2) [bad; bad; bad] ∅) !! 2%nat) as [s|] eqn:E.
  - f_equal. apply (ws_slots_leak 2 (lit "a.example") [bad; bad; bad] 2 bad s); [lia|repeat constructor|reflexivity|exact E|lia].
  - unfold ws_handle_all in E. repeat (destruct (ws_handle _ _ _)). discriminate E.
Defined.

End Witness.
