(* ===== verification/Config.v ===== *)
(** * Configuration: [src/config/expand.rs], [src/config/preset.rs],
    [src/config/loader.rs], [src/config/model/]

    What happens between the parsed text and the running server: expansion of
    short forms, built-in presets, and the checks.  The text formats themselves
    are read by libraries and are not modelled. *)

From S2P Require Import Prelude RustStr Headers RealIp Location Rewrite LoadBalance Compress ProxyCache VHost.

(** ** TLS settings *)

(** The derived [Default]: every field the default of its type. *)
Definition TlsConfig_default : TlsConfig := mkTls false None None None [] [] [] 0 [] [] [].

(** The values serde fills in for fields a file leaves out. *)
Definition TlsConfig_absent (acme : bool) (email : option (list Z)) : TlsConfig :=
  mkTls acme email None None [] (lit "tls1.2") (lit "tls1.3") 30 (lit "letsencrypt") (lit "http01")
    [lit "h3"; lit "h2"; lit "http/1.1"].

(** ** Sites *)

(** [FastCgiConfig::from_addr] *)
Definition fastcgi_from_addr (addr : list Z) : FastCgiConfig :=
  if starts_with [byte_slash] addr then mkFcgiCfg (Some addr) None None
  else match rfind_byte byte_colon addr with
       | Some pos => mkFcgiCfg None (Some (take pos addr)) (Some (default 9000 (parse_uint u16_max (drop (S pos) addr))))
       | None => mkFcgiCfg None (Some addr) (Some 9000)
       end.

Inductive SitePreset := WordPress | Laravel | StaticSite.

(** The fields of [SiteConfig] that expansion, checking and reloading use; [cf_site] holds those
    of the registry, less the ones derived from others. *)
Record SiteFile := mkFile {
  cf_name : list Z;
  cf_server_name : list (list Z);
  cf_listen : list Z;
  cf_listen_tls : list Z;
  cf_root : option (list Z);
  cf_index : list (list Z);
  cf_tls : option TlsConfig;
  cf_fastcgi : option FastCgiConfig;
  cf_upstreams : list UpstreamConfig;
  cf_locations : list LocationConfig;
  cf_rewrites : list RewriteRule;
  cf_hsts : option HstsConfig;
  cf_fallback : bool;
  cf_force_https : bool;
  cf_real_ip : option RealIpConfig;
  cf_error_pages : gmap Z (list Z);
  cf_preset : option SitePreset;
  cf_php_fastcgi : option (list Z);
  cf_acme_email : option (list Z);
  cf_websocket : bool;
  cf_compression : SiteCompression;
  cf_proxy_cache : option ProxyCacheConfig;
}.

Definition set_tls (t : option TlsConfig) (s : SiteFile) : SiteFile :=
  mkFile (cf_name s) (cf_server_name s) (cf_listen s) (cf_listen_tls s) (cf_root s) (cf_index s) t (cf_fastcgi s) (cf_upstreams s)
    (cf_locations s) (cf_rewrites s) (cf_hsts s) (cf_fallback s) (cf_force_https s) (cf_real_ip s) (cf_error_pages s) (cf_preset s)
    (cf_php_fastcgi s) (cf_acme_email s) (cf_websocket s) (cf_compression s) (cf_proxy_cache s).
Definition set_fastcgi (f : option FastCgiConfig) (s : SiteFile) : SiteFile :=
  mkFile (cf_name s) (cf_server_name s) (cf_listen s) (cf_listen_tls s) (cf_root s) (cf_index s) (cf_tls s) f (cf_upstreams s)
    (cf_locations s) (cf_rewrites s) (cf_hsts s) (cf_fallback s) (cf_force_https s) (cf_real_ip s) (cf_error_pages s) (cf_preset s)
    (cf_php_fastcgi s) (cf_acme_email s) (cf_websocket s) (cf_compression s) (cf_proxy_cache s).
Definition set_locations (l : list LocationConfig) (s : SiteFile) : SiteFile :=
  mkFile (cf_name s) (cf_server_name s) (cf_listen s) (cf_listen_tls s) (cf_root s) (cf_index s) (cf_tls s) (cf_fastcgi s) (cf_upstreams s)
    l (cf_rewrites s) (cf_hsts s) (cf_fallback s) (cf_force_https s) (cf_real_ip s) (cf_error_pages s) (cf_preset s)
    (cf_php_fastcgi s) (cf_acme_email s) (cf_websocket s) (cf_compression s) (cf_proxy_cache s).

(** What the registry sees of a site. *)
Definition vhost_site (s : SiteFile) : SiteConfig :=
  mkSite (cf_name s) (cf_server_name s) (cf_fallback s) (cf_force_https s) (cf_listen_tls s)
    (match cf_tls s with Some t => tls_acme t | None => false end) (cf_hsts s) (cf_root s) (cf_index s) (cf_error_pages s)
    (cf_locations s) (cf_rewrites s) (cf_real_ip s)
    (mkExtra (cf_websocket s) (cf_compression s) (cf_upstreams s) (cf_tls s) (cf_fastcgi s) (cf_proxy_cache s)).

(** ** Presets *)

Definition plain (path : string) (h : HandlerType) : LocationConfig :=
  mkLocation (lit path) h None None None None None None 0 [] None 401 [] [] None.
Definition cached (path cc : string) : LocationConfig :=
  mkLocation (lit path) Static None (Some (lit cc)) None None None None 0 [] None 401 [] [] None.
Definition denied (path : string) : LocationConfig :=
  mkLocation (lit path) Static None None (Some 403) None None None 0 [] None 401 [] [] None.
Definition trying (path : string) (h : HandlerType) (entries : list string) : LocationConfig :=
  mkLocation (lit path) h None None None None None None 0 [] None 401 [] (lit <$> entries) None.

(** [wordpress_locations], [laravel_locations], [static_site_locations] *)
Definition wordpress_locations (has_php : bool) : list LocationConfig :=
  [cached "^~ /wp-content/uploads/" "public, max-age=2592000";
   cached "^~ /wp-content/" "public, max-age=604800";
   cached "^~ /wp-includes/" "public, max-age=604800";
   denied "~ /\."; denied "= /xmlrpc.php"]
  ++ (if has_php then [plain "~ \.php$" Fastcgi; trying "/" Fastcgi ["$uri"; "$uri/"; "/index.php"]]
      else [trying "/" Static ["$uri"; "$uri/"; "/index.html"]]).

Definition laravel_locations (has_php : bool) : list LocationConfig :=
  [denied "~ /\."; cached "~ \.(css|js|png|jpg|jpeg|gif|webp|ico|svg|woff2?|ttf)$" "public, max-age=2592000"]
  ++ (if has_php then [plain "~ \.php$" Fastcgi; trying "/" Fastcgi ["$uri"; "$uri/"; "/index.php?$query_string"]] else []).

Definition static_site_locations : list LocationConfig :=
  [denied "~ /\."; cached "~ \.(css|js|png|jpg|jpeg|gif|webp|ico|svg|woff2?|ttf|eot)$" "public, max-age=2592000";
   trying "/" Static ["$uri"; "$uri/"; "/index.html"]].

(** [locations_for_preset] *)
Definition locations_for_preset (p : SitePreset) (has_php : bool) : list LocationConfig :=
  match p with
  | WordPress => wordpress_locations has_php
  | Laravel => laravel_locations has_php
  | StaticSite => static_site_locations
  end.

(** ** Expansion *)

(** [expand_tls_auto], [expand_php_fastcgi], [expand_preset] *)
Definition expand_tls_auto (s : SiteFile) : SiteFile :=
  match cf_tls s, cf_listen_tls s, cf_acme_email s with
  | None, _ :: _, Some email =>
      set_tls (Some (mkTls true (Some email) (tls_cert TlsConfig_default) (tls_key TlsConfig_default) (tls_certs TlsConfig_default)
                       (tls_min_version TlsConfig_default) (tls_max_version TlsConfig_default)
                       (tls_renew_days_before TlsConfig_default) (tls_acme_provider TlsConfig_default)
                       (tls_acme_challenge TlsConfig_default) (tls_protocols TlsConfig_default))) s
  | _, _, _ => s
  end.

Definition expand_php_fastcgi (s : SiteFile) : SiteFile :=
  match cf_fastcgi s, cf_php_fastcgi s with
  | None, Some addr => set_fastcgi (Some (fastcgi_from_addr addr)) s
  | _, _ => s
  end.

Definition expand_preset (s : SiteFile) : SiteFile :=
  match cf_preset s, cf_locations s with
  | Some p, [] => set_locations (locations_for_preset p (bool_decide (is_Some (cf_fastcgi s)))) s
  | _, _ => s
  end.

(** [expand_config] *)
Definition expand_config (sites : list SiteFile) : list SiteFile :=
  (λ s, expand_preset (expand_php_fastcgi (expand_tls_auto s))) <$> sites.

(** ** Checks *)

Inductive config_error := NoName | NoServerName | NoUpstream (path : list Z) | UnknownUpstream (path name : list Z) | NoCertificate.

Definition check_location (upstreams : list (list Z)) (l : LocationConfig) : option config_error :=
  if bool_decide (lc_handler l = ReverseProxy) then
    match lc_upstream l with
    | None => Some (NoUpstream (lc_path l))
    | Some u => if existsb (str_eqb u) upstreams then None else Some (UnknownUpstream (lc_path l) u)
    end
  else None.

Definition check_tls (t : TlsConfig) : option config_error :=
  match tls_acme t, tls_certs t, tls_cert t, tls_key t with
  | false, [], Some _, Some _ => None
  | false, [], _, _ => Some NoCertificate
  | _, _, _, _ => None
  end.

(** The first error of one site, of a list of sites. *)
Fixpoint first_error {A} (f : A → option config_error) (l : list A) : option config_error :=
  match l with
  | [] => None
  | x :: l => match f x with Some e => Some e | None => first_error f l end
  end.

Definition check_site (s : SiteFile) : option config_error :=
  if bool_decide (cf_name s = []) then Some NoName
  else if bool_decide (cf_server_name s = []) then Some NoServerName
  else match first_error (check_location (uc_name <$> cf_upstreams s)) (cf_locations s) with
       | Some e => Some e
       | None => match cf_tls s with Some t => check_tls t | None => None end
       end.

(** [validate_config] *)
Definition validate_config (sites : list SiteFile) : option config_error := first_error check_site sites.

(** [load_config] after parsing *)
Definition load_config (parsed : option (list SiteFile)) : option (list SiteFile) :=
  sites ← parsed;
  let sites := expand_config sites in
  match validate_config sites with None => Some sites | Some _ => None end.

(** [byte_offset_to_line_col]; cutting inside a character panics. *)
Definition byte_offset_to_line_col (content : list Z) (offset : nat) : outcome (nat * nat) :=
  before ← slice_to content (Nat.min offset (length content));
  let ls := lines before in
  Ret (Nat.max (length ls) 1, match last ls with Some l => S (length l) | None => 1%nat end).

(** ** What loading promises *)

(** Well-formed locations, TLS settings and sites. *)
Definition location_ok (upstreams : list (list Z)) (l : LocationConfig) : Prop :=
  lc_handler l = ReverseProxy → ∃ u, lc_upstream l = Some u ∧ u ∈ upstreams.
Definition tls_ok (t : TlsConfig) : Prop :=
  tls_acme t = true ∨ tls_certs t ≠ [] ∨ is_Some (tls_cert t) ∧ is_Some (tls_key t).
Definition site_ok (s : SiteFile) : Prop :=
  cf_name s ≠ [] ∧ cf_server_name s ≠ [] ∧ Forall (location_ok (uc_name <$> cf_upstreams s)) (cf_locations s)
  ∧ (∀ t, cf_tls s = Some t → tls_ok t).

Lemma first_error_None {A} (f : A → option config_error) l : first_error f l = None ↔ Forall (λ x, f x = None) l.
Proof.
  induction l as [|x l IH]; cbn [first_error]; [by split|]. rewrite Forall_cons, <- IH. destruct (f x); naive_solver.
Qed.

Lemma check_location_None ups l : check_location ups l = None ↔ location_ok ups l.
Proof.
  unfold check_location, location_ok. case_bool_decide; [|naive_solver].
  destruct (lc_upstream l) as [u|]; [|split; [done|intros H1; by destruct (H1 H) as (? & ? & _)]].
  assert (Hex : existsb (str_eqb u) ups = true ↔ u ∈ ups).
  { rewrite existsb_exists. split.
    - intros (x & Hx & He%str_eqb_eq). subst. by apply list_elem_of_In.
    - intros Hu. exists u. split; [by apply list_elem_of_In|apply str_eqb_refl]. }
  destruct (existsb _ _) eqn:E; split; try done.
  - intros _ _. exists u. split; [done|]. by apply Hex.
  - intros H1. destruct (H1 H) as (u' & [= <-] & Hu). apply Hex in Hu. congruence.
Qed.

Lemma check_tls_None t : check_tls t = None ↔ tls_ok t.
Proof.
  unfold check_tls, tls_ok.
  destruct (tls_acme t), (tls_certs t) as [|c cs], (tls_cert t), (tls_key t); split; intros H; try done;
    try (by left); try (by right; left); try (right; right; split; eauto; fail);
    destruct H as [?|[?|[[? ?] [? ?]]]]; done.
Qed.

Lemma check_site_None s : check_site s = None ↔ site_ok s.
Proof.
  unfold check_site, site_ok. case_bool_decide as H1; [naive_solver|]. case_bool_decide as H2; [naive_solver|].
  destruct (first_error _ _) as [e|] eqn:E.
  - split; [done|]. intros (_ & _ & H & _). exfalso.
    assert (first_error (check_location (uc_name <$> cf_upstreams s)) (cf_locations s) = None); [|congruence].
    apply first_error_None. eapply Forall_impl; [exact H|]. intros l. by apply check_location_None.
  - apply first_error_None in E.
    assert (Hl : Forall (location_ok (uc_name <$> cf_upstreams s)) (cf_locations s)).
    { eapply Forall_impl; [exact E|]. intros l. by apply check_location_None. }
    destruct (cf_tls s) as [t|]; [|split; [intros _; split_and!; by auto|done]].
    rewrite check_tls_None. split.
    + intros Ht. split_and!; [done..|]. by intros ? [= <-].
    + intros (_ & _ & _ & H). by apply H.
Qed.

Lemma validate_config_None sites : validate_config sites = None ↔ Forall site_ok sites.
Proof. unfold validate_config. rewrite first_error_None. split; intros H; (eapply Forall_impl; [exact H|]); intros s; by apply check_site_None. Qed.

Lemma load_config_ok parsed sites : load_config parsed = Some sites → Forall site_ok sites.
Proof.
  unfold load_config. destruct parsed as [raw|]; cbn [mbind option_bind]; [|done].
  pose proof (validate_config_None (expand_config raw)) as Hv. destruct (validate_config _); [done|]. intros [= <-]. by apply Hv.
Qed.


(** ** Ports are not checked *)

(** A site with other plain ports. *)
Definition set_listen (l : list Z) (s : SiteFile) : SiteFile :=
  mkFile (cf_name s) (cf_server_name s) l (cf_listen_tls s) (cf_root s) (cf_index s) (cf_tls s) (cf_fastcgi s) (cf_upstreams s)
    (cf_locations s) (cf_rewrites s) (cf_hsts s) (cf_fallback s) (cf_force_https s) (cf_real_ip s) (cf_error_pages s) (cf_preset s)
    (cf_php_fastcgi s) (cf_acme_email s) (cf_websocket s) (cf_compression s) (cf_proxy_cache s).

Lemma expand_set_listen l s : expand_preset (expand_php_fastcgi (expand_tls_auto (set_listen l s)))
  = set_listen l (expand_preset (expand_php_fastcgi (expand_tls_auto s))).
Proof.
  destruct s as [n sn li lt ro ix t f up lo re hs fb fh ri ep pr php em]. unfold expand_tls_auto, expand_php_fastcgi, expand_preset. cbn.
  by destruct t, lt, em, f, php, pr, lo.
Qed.

(** Ports play no part in the checks.  Give every site whatever plain ports, the same for all, the TLS
    ports of the site or numbers that are no ports: the configuration is accepted or refused as before,
    with the same error.  The documentation says that conflicts are found, the comments that the ports
    are checked. *)
Theorem ports_unchecked (f : SiteFile → list Z) raw :
  validate_config (expand_config ((λ s, set_listen (f s) s) <$> raw)) = validate_config (expand_config raw).
Proof.
  unfold validate_config, expand_config. induction raw as [|s raw IH]; [done|]. cbn [fmap list_fmap map first_error].
  rewrite expand_set_listen, IH. done.
Qed.

(** ** Expansion *)

Lemma preset_locations_nonempty p php : locations_for_preset p php ≠ [].
Proof. by destruct p. Qed.

(** Settings written out win over short forms, and expanding twice changes nothing.  Expansion keeps
    a TLS section, a FastCGI section and locations that are there; it never touches names, ports or
    upstreams; and it is idempotent. *)
Theorem expand_respects_manual raw :
  expand_config (expand_config raw) = expand_config raw
  ∧ Forall2 (λ s s', (cf_tls s ≠ None → cf_tls s' = cf_tls s) ∧ (cf_fastcgi s ≠ None → cf_fastcgi s' = cf_fastcgi s)
                     ∧ (cf_locations s ≠ [] → cf_locations s' = cf_locations s)
                     ∧ cf_name s' = cf_name s ∧ cf_server_name s' = cf_server_name s ∧ cf_upstreams s' = cf_upstreams s
                     ∧ cf_listen s' = cf_listen s ∧ cf_listen_tls s' = cf_listen_tls s)
      raw (expand_config raw).
Proof.
  unfold expand_config. split.
  - rewrite <- list_fmap_compose. apply list_fmap_ext. intros i s _. cbn [compose].
    destruct s as [n sn li lt ro ix [t|] [f|] up lo re hs fb fh ri ep pr php em];
      unfold expand_tls_auto; cbn [cf_tls cf_listen_tls cf_acme_email];
      [..|destruct lt as [|p lt]; [|destruct em as [em|]]|destruct lt as [|p lt]; [|destruct em as [em|]]];
      unfold expand_php_fastcgi; cbn; try destruct php as [php|];
      unfold expand_preset; cbn; destruct pr as [pr|]; try done; destruct lo as [|l lo]; try done; cbn;
      by destruct (locations_for_preset pr _) eqn:E; [destruct (preset_locations_nonempty _ _ E)|].
  - apply Forall2_fmap_r, Forall_Forall2_diag, Forall_forall. intros s _.
    destruct s as [n sn li lt ro ix t f up lo re hs fb fh ri ep pr php em].
    unfold expand_tls_auto, expand_php_fastcgi, expand_preset. cbn.
    destruct t, lt, em, f, php, pr, lo; cbn; by split_and!.
Qed.

(** ** Where the short forms go wrong *)

(** The short form for certificates is unusable.  [acme_email] on a site with TLS ports and no TLS
    section gives ACME without a certificate authority (the empty provider, where a section would
    default to Let's Encrypt), renewal only after expiry (0 days, where a section would default to 30)
    and no protocols (so neither HTTP/2 nor HTTP/3). *)
Theorem acme_short_form_unusable s email p ports :
  cf_tls s = None → cf_listen_tls s = p :: ports → cf_acme_email s = Some email →
  ∃ t, cf_tls (expand_tls_auto s) = Some t ∧ tls_acme t = true
    ∧ tls_acme_provider t = [] ∧ tls_renew_days_before t = 0 ∧ tls_protocols t = []
    ∧ tls_acme_provider (TlsConfig_absent true (Some email)) = lit "letsencrypt"
    ∧ tls_renew_days_before (TlsConfig_absent true (Some email)) = 30.
Proof. intros Ht Hl He. unfold expand_tls_auto. rewrite Ht, Hl, He. eexists. by split_and!. Qed.

(** The WordPress preset hands out PHP source.  Every path below /wp-content/, PHP files included, goes
    to the static file handler, because the prefix locations come before the one for PHP. *)
Theorem wordpress_serves_php_source {R} (build : list Z → option R) is_match has_root p :
  ∃ cl, match_location is_match (site_locations build has_root (wordpress_locations true)) (lit "/wp-content/" ++ p) = Some cl
        ∧ lc_handler (cl_config cl) = Static ∧ lc_return_code (cl_config cl) = None.
Proof.
  unfold match_location, site_locations. rewrite bool_decide_false by done. cbn [andb].
  set (l := sort_by_key _ _).
  assert (Hl : ∃ a b c rest, l = a :: b :: c :: rest ∧ cl_kind a = KExact (lit "/xmlrpc.php")
    ∧ cl_kind b = KPrefixPriority (lit "/wp-content/uploads/") ∧ lc_handler (cl_config b) = Static ∧ lc_return_code (cl_config b) = None
    ∧ cl_kind c = KPrefixPriority (lit "/wp-content/") ∧ lc_handler (cl_config c) = Static ∧ lc_return_code (cl_config c) = None).
  { eexists _, _, _, _. split; [unfold l; vm_compute; reflexivity|]. by split_and!. }
  destruct Hl as (a & b & c & rest & -> & Ha & Hb & Hb1 & Hb2 & Hc & Hc1 & Hc2). cbn [find_first].
  unfold first_round at 1. rewrite Ha. assert (str_eqb (lit "/xmlrpc.php") (lit "/wp-content/" ++ p) = false) as ->.
  { apply not_true_iff_false. intros H%str_eqb_eq. by vm_compute in H. }
  unfold first_round at 1. rewrite Hb. destruct (starts_with (lit "/wp-content/uploads/") _); [by exists b|].
  unfold first_round at 1. rewrite Hc, starts_with_app. by exists c.
Qed.

(** An error at the first character of a line is reported at the end of the line before. *)
Example line_start_misreported : byte_offset_to_line_col (lit "a = 1" ++ [LF] ++ lit "b") 6 = Ret (1%nat, 6%nat).
Proof. by vm_compute. Qed.

(** ** Witnesses *)

Module Witness.

Definition site (name : string) : SiteFile :=
  mkFile (lit name) [lit "example.com"] [80] [443] (Some (lit "/srv")) [] None None [] [] [] None false true None ∅
    (Some WordPress) (Some (lit "/run/php.sock")) (Some (lit "me@example.com")) true (mkSC (mkSiteCompress None None None None None None None) None None) None.


Lemma acme_short_form_unusable_witness : ∃ t, cf_tls (expand_tls_auto (site "a")) = Some t ∧ tls_acme_provider t = [].
Proof.
  destruct (acme_short_form_unusable (site "a") (lit "me@example.com") 443 []) as (t & H1 & _ & H2 & _); [reflexivity..|].
  exists t. split; assumption.
Defined.

End Witness.
