(* ===== verification/Tls.v ===== *)
(** * Certificates: [src/server/tls.rs], the certificate parts of [src/server/acme.rs],
    the port tables of [src/server/http.rs]

    Which certificate a TLS handshake gets: loading the keys of a site, the
    resolver by server name, and the tables built per port.  A certificate with
    its key is a handle; reading one from disk, making a self-signed one and the
    signature schemes a key supports are parameters. *)

From S2P Require Import Prelude RustStr Headers Compress Location Rewrite VHost Config.

Section tls.
Context {CK : Type} (to_lowercase : list Z → list Z).

(** ** The resolver *)

Record SniInner := mkSni {
  sni_exact : gmap (list Z) (list CK);
  sni_wildcard : gmap (list Z) (list CK);
  sni_fallback : list CK;
}.

Definition sni_empty : SniInner := mkSni ∅ ∅ [].

Definition sni_insert (keys : list CK) (m : SniInner) (name : list Z) : SniInner :=
  match strip_prefix (lit "*.") name with
  | Some suffix => mkSni (sni_exact m) (<[to_lowercase suffix := keys]> (sni_wildcard m)) (sni_fallback m)
  | None => mkSni (<[to_lowercase name := keys]> (sni_exact m)) (sni_wildcard m) (sni_fallback m)
  end.

(** [SniResolver::upsert_site] *)
Definition sni_upsert (names : list (list Z)) (keys : list CK) (m : SniInner) : SniInner :=
  let m := match sni_fallback m with [] => mkSni (sni_exact m) (sni_wildcard m) keys | _ => m end in
  foldl (sni_insert keys) m names.

(** [SniResolver::new] *)
Definition sni_new (certs_map : list (list (list Z) * list CK)) : SniInner :=
  foldl (λ m '(names, keys), sni_upsert names keys m) sni_empty certs_map.

Definition sni_delete (m : SniInner) (name : list Z) : SniInner :=
  match strip_prefix (lit "*.") name with
  | Some suffix => mkSni (sni_exact m) (delete (to_lowercase suffix) (sni_wildcard m)) (sni_fallback m)
  | None => mkSni (delete (to_lowercase name) (sni_exact m)) (sni_wildcard m) (sni_fallback m)
  end.

(** [SniResolver::remove_site]; [first] is the first value of a map in the
    order it is visited. *)
Definition sni_remove (first : gmap (list Z) (list CK) → option (list CK)) (names : list (list Z)) (m : SniInner) : SniInner :=
  let m := foldl sni_delete m names in
  mkSni (sni_exact m) (sni_wildcard m)
    (match first (sni_exact m) with
     | Some ks => ks
     | None => default [] (first (sni_wildcard m))
     end).

(** [SniResolver::lookup] *)
Definition sni_lookup (m : SniInner) (name : list Z) : list CK :=
  let lower := if existsb is_ascii_uppercase name then to_ascii_lowercase name else name in
  match sni_exact m !! lower with
  | Some ks => ks
  | None =>
      match (match find_byte byte_dot lower with
             | Some dot => sni_wildcard m !! drop (S dot) lower
             | None => None
             end) with
      | Some ks => ks
      | None => sni_fallback m
      end
  end.

(** [SniResolver::choose], [resolve] *)
Definition sni_choose {S} (choose_scheme : CK → list S → bool) (candidates : list CK) (schemes : list S) : option CK :=
  match find_first (λ ck, choose_scheme ck schemes) candidates with
  | Some ck => Some ck
  | None => head candidates
  end.

Definition sni_resolve {S} (choose_scheme : CK → list S → bool) (m : SniInner) (server_name : option (list Z)) (schemes : list S)
  : option CK :=
  sni_choose choose_scheme (match server_name with Some n => sni_lookup m n | None => sni_fallback m end) schemes.

(** ** Loading keys *)

(** [primary_domain] *)
Definition primary_domain (names : list (list Z)) : list Z :=
  match find_first (λ d, negb (starts_with (lit "*.") d)) names with
  | Some d => d
  | None => default (lit "localhost") (head names)
  end.

Context (cache_dir : list Z) (exists_file : list Z → bool) (load_key : list Z → list Z → option CK) (self_signed : list Z → option CK).

(** [acme_cert_path], [acme_key_path] *)
Definition acme_cert_path (domain : list Z) : list Z := cache_dir ++ [byte_slash] ++ domain ++ lit ".crt".
Definition acme_key_path (domain : list Z) : list Z := cache_dir ++ [byte_slash] ++ domain ++ lit ".key".

(** [build_certified_keys] *)
Definition build_certified_keys (t : TlsConfig) (names : list (list Z)) : list CK :=
  if tls_acme t then
    let domain := primary_domain names in
    let cert := acme_cert_path domain in
    let key := acme_key_path domain in
    match (if exists_file cert && exists_file key then load_key cert key else None) with
    | Some ck => [ck]
    | None => match self_signed domain with Some ck => [ck] | None => [] end
    end
  else match tls_certs t with
       | [] =>
           match tls_cert t, tls_key t with
           | Some cert, Some key => match load_key cert key with Some ck => [ck] | None => [] end
           | _, _ => []
           end
       | pairs => omap (λ p, load_key (ck_cert p) (ck_key p)) pairs
       end.

(** [build_sni_server_config]: the resolver of one port's sites; [None] when no
    certificate was found. *)
Definition build_resolver (sites : list SiteFile) : option SniInner :=
  let certs_map := omap (λ s, match cf_tls s with
                              | Some t => Some (cf_server_name s, build_certified_keys t (cf_server_name s))
                              | None => None
                              end) sites in
  let certs_map := filter (λ e, snd e ≠ []) certs_map in
  match certs_map with [] => None | _ => Some (sni_new certs_map) end.

End tls.

(** ** Versions and protocols of a port *)

Inductive tls_version := TLS12 | TLS13.

#[export] Instance tls_version_eq_dec : EqDecision tls_version.
Proof. solve_decision. Defined.

Definition tls_sections (sites : list SiteFile) : list TlsConfig := omap cf_tls sites.

(** [resolve_tls_versions] *)
Definition resolve_tls_versions (sites : list SiteFile) : list tls_version :=
  let '(allow_12, allow_13) :=
    foldl (λ '(a12, a13) t,
      (if str_eqb (tls_min_version t) (lit "tls1.3") then false else a12,
       if str_eqb (tls_max_version t) (lit "tls1.2") then false else a13)) (true, true) (tls_sections sites) in
  match allow_12, allow_13 with
  | false, true => [TLS13]
  | true, false => [TLS12]
  | _, _ => [TLS12; TLS13]
  end.

(** The ALPN list of [build_sni_server_config]. *)
Definition alpn_step (alpn : list (list Z)) (p : list Z) : list (list Z) :=
  if str_eqb p (lit "h2") || str_eqb p (lit "http/1.1")
  then (if existsb (str_eqb p) alpn then alpn else alpn ++ [p]) else alpn.

Definition alpn_protocols (sites : list SiteFile) : list (list Z) :=
  match foldl alpn_step [] (concat (tls_protocols <$> tls_sections sites)) with
  | [] => [lit "http/1.1"]
  | alpn => alpn
  end.

(** ** Ports *)

(** [collect_tls_ports_grouped]: the sites of a port, in file order. *)
Definition tls_port_sites (sites : list SiteFile) (port : Z) : list SiteFile :=
  concat ((λ s, match cf_tls s with
                | Some _ => replicate (length (filter (λ p, p = port) (cf_listen_tls s))) s
                | None => []
                end) <$> sites).

(** [collect_http_ports]: sorted, without repetitions. *)
Fixpoint insert_port (p : Z) (l : list Z) : list Z :=
  match l with
  | [] => [p]
  | q :: l' => if p <? q then p :: l else if p =? q then l else q :: insert_port p l'
  end.
Definition collect_http_ports (sites : list SiteFile) : list Z :=
  foldr insert_port [] (concat (cf_listen <$> sites)).

(** [collect_h3_ports]: the first site with HTTP/3 on each port. *)
Definition h3_step (acc : list (Z * SiteFile)) (sp : SiteFile * Z) : list (Z * SiteFile) :=
  if existsb (λ e, fst e =? snd sp) acc then acc else acc ++ [(snd sp, fst sp)].
Definition collect_h3_ports (sites : list SiteFile) : list (Z * SiteFile) :=
  foldl h3_step [] (concat ((λ s,
    match cf_tls s with
    | Some t => if existsb (str_eqb (lit "h3")) (tls_protocols t) then (s,.) <$> cf_listen_tls s else []
    | None => []
    end) <$> sites)).

(** ** Renewal *)

(** [cert_needs_renewal] for a certificate that can be parsed; [Z.quot] is the
    division of machine integers. *)
Definition cert_needs_renewal (not_after now renew_days_before : Z) : bool :=
  Z.quot (not_after - now) 86400 <? renew_days_before.

(** The domains of a site that can be applied for. *)
Definition acme_domains (t : TlsConfig) (names : list (list Z)) : list (list Z) :=
  if str_eqb (tls_acme_challenge t) (lit "dns01") then names else filter (λ d, starts_with (lit "*.") d = false) names.

Definition LETS_ENCRYPT_PROD : list Z := lit "https://acme-v02.api.letsencrypt.org/directory".
Definition LETS_ENCRYPT_STAGING : list Z := lit "https://acme-staging-v02.api.letsencrypt.org/directory".
Definition ZEROSSL : list Z := lit "https://acme.zerossl.com/v2/DV90".
Definition LITESSL : list Z := lit "https://acme.litessl.com/acme/v2/directory".

(** [resolve_directory_url] *)
Definition resolve_directory_url (provider : list Z) : list Z :=
  if str_eqb provider (lit "letsencrypt") then LETS_ENCRYPT_PROD
  else if str_eqb provider (lit "letsencrypt_staging") then LETS_ENCRYPT_STAGING
  else if str_eqb provider (lit "zerossl") then ZEROSSL
  else if str_eqb provider (lit "litessl") then LITESSL
  else provider.

Inductive save_reach := NothingSaved | CertSaved | BothSaved.

Section acme.
Context {CK : Type} (to_lowercase : list Z → list Z) (cache_dir : list Z)
  (parse_pem : list Z → list Z → option CK) (not_after_of : list Z → option Z).

Notation resolver := (SniInner (CK := CK)).

Record AcmeWorld := mkAcme {
  aw_ready : gset (list Z);                        (* [ACME_CERTS_READY], by site name *)
  aw_files : gmap (list Z) (list Z);
  aw_resolvers : gmap Z resolver;
}.

(** Reading a certificate and its key from disk. *)
Definition file_exists (fs : gmap (list Z) (list Z)) (p : list Z) : bool := bool_decide (is_Some (fs !! p)).
Definition load_pair (fs : gmap (list Z) (list Z)) (cert key : list Z) : option CK :=
  c ← fs !! cert; k ← fs !! key; parse_pem c k.

(** [cert_needs_renewal] on a file: one that cannot be read or parsed is
    renewed. *)
Definition file_needs_renewal (fs : gmap (list Z) (list Z)) (cert : list Z) (now renew_days : Z) : bool :=
  match (c ← fs !! cert; not_after_of c) with
  | Some not_after => cert_needs_renewal not_after now renew_days
  | None => true
  end.

(** [reload_acme_cert_in_resolvers], the part for TLS. *)
Definition reload_acme_cert (fs : gmap (list Z) (list Z)) (cert key : list Z) (names : list (list Z)) (rs : gmap Z resolver)
  : gmap Z resolver :=
  match load_pair fs cert key with
  | Some ck => sni_upsert to_lowercase names [ck] <$> rs
  | None => rs
  end.

(** The waits between attempts, in seconds. *)
Definition BACKOFF : list Z := [60; 300; 1800; 7200].

(** The retries after a failed application: the result and the waits made.
    [attempt k] is the answer to the [k]-th application. *)
Fixpoint acme_retry (can_retry : bool) (steps : list Z) (attempt : nat → option (list Z * list Z)) (k : nat)
  : option (list Z * list Z) * list Z :=
  match steps with
  | [] => (None, [])
  | w :: steps =>
      if can_retry then
        match attempt k with
        | Some r => (Some r, [w])
        | None => let '(r, ws) := acme_retry can_retry steps attempt (S k) in (r, w :: ws)
        end
      else (None, [w])
  end.

Definition acme_apply (can_retry : bool) (attempt : nat → option (list Z * list Z)) : option (list Z * list Z) * list Z :=
  match attempt 0%nat with
  | Some r => (Some r, [])
  | None => acme_retry can_retry BACKOFF attempt 1
  end.

(** [save_cert_files]: the certificate is written before the key, and either
    write, or making the directory, can fail.  [true] when both are written. *)
Definition save_cert_files (how : save_reach) (cert key c k : list Z) (fs : gmap (list Z) (list Z)) : bool * gmap (list Z) (list Z) :=
  match how with
  | NothingSaved => (false, fs)
  | CertSaved => (false, <[cert := c]> fs)
  | BothSaved => (true, <[key := k]> (<[cert := c]> fs))
  end.

(** One site of [acme_renewal_loop]; [save] tells how far writing the files
    comes. *)
Definition acme_site (now : Z) (has_dns_provider : bool) (save : save_reach) (attempt : nat → option (list Z * list Z)) (s : SiteFile)
    (w : AcmeWorld) : AcmeWorld * list Z :=
  match cf_tls s with
  | Some t =>
      if negb (tls_acme t) then (w, [])
      else
        let use_dns01 := str_eqb (tls_acme_challenge t) (lit "dns01") in
        match acme_domains t (cf_server_name s) with
        | [] => (w, [])
        | domains =>
            let primary := primary_domain domains in
            let cert := acme_cert_path cache_dir primary in
            let key := acme_key_path cache_dir primary in
            if file_exists (aw_files w) cert && negb (file_needs_renewal (aw_files w) cert now (tls_renew_days_before t))
            then (mkAcme ({[cf_name s]} ∪ aw_ready w) (aw_files w) (aw_resolvers w), [])
            else
              let attempt := if use_dns01 && negb has_dns_provider then λ _, None else attempt in
              let '(r, waits) := acme_apply (negb use_dns01 || has_dns_provider) attempt in
              match r with
              | Some (c, k) =>
                  let '(ok, fs) := save_cert_files save cert key c k (aw_files w) in
                  if (ok : bool) then
                    (mkAcme ({[cf_name s]} ∪ aw_ready w) fs
                       (reload_acme_cert fs cert key (cf_server_name s) (aw_resolvers w)), waits)
                  else (mkAcme (aw_ready w) fs (aw_resolvers w), waits)
              | None => (w, waits)
              end
        end
  | None => (w, [])
  end.

End acme.

(** ** Which certificate a name gets *)

Section sni_theorems.
Context {CK : Type} (to_lowercase : list Z → list Z).

Notation names_exact := (λ names, to_lowercase <$> filter (λ n, starts_with (lit "*.") n = false) names).
Notation names_wildcard := (λ names, (to_lowercase ∘ drop 2) <$> filter (λ n, starts_with (lit "*.") n = true) names).

Lemma strip_star n : strip_prefix (lit "*.") n = if starts_with (lit "*.") n then Some (drop 2 n) else None.
Proof.
  unfold starts_with. destruct (strip_prefix (lit "*.") n) as [r|] eqn:E; [|done]. cbn.
  by apply strip_prefix_Some in E as ->.
Qed.

Lemma sni_insert_lookup (keys : list CK) names m h :
  sni_exact (foldl (sni_insert to_lowercase keys) m names) !! h
    = (if bool_decide (h ∈ names_exact names) then Some keys else sni_exact m !! h)
  ∧ sni_wildcard (foldl (sni_insert to_lowercase keys) m names) !! h
    = (if bool_decide (h ∈ names_wildcard names) then Some keys else sni_wildcard m !! h)
  ∧ sni_fallback (foldl (sni_insert to_lowercase keys) m names) = sni_fallback m.
Proof.
  revert m; induction names as [|n names IH]; intros m; [by rewrite filter_nil|].
  cbn [foldl]. destruct (IH (sni_insert to_lowercase keys m n)) as (-> & -> & ->). rewrite !filter_cons. unfold sni_insert.
  rewrite strip_star. destruct (starts_with (lit "*.") n) eqn:E; cbn [sni_exact sni_wildcard sni_fallback].
  - rewrite (decide_False (P := true = false)), (decide_True (P := true = true)) by done. by rewrite lookup_insert_members.
  - rewrite (decide_False (P := false = true)), (decide_True (P := false = false)) by done. by rewrite lookup_insert_members.
Qed.

Lemma sni_upsert_lookup names (keys : list CK) m h :
  sni_exact (sni_upsert to_lowercase names keys m) !! h
    = (if bool_decide (h ∈ names_exact names) then Some keys else sni_exact m !! h)
  ∧ sni_wildcard (sni_upsert to_lowercase names keys m) !! h
    = (if bool_decide (h ∈ names_wildcard names) then Some keys else sni_wildcard m !! h)
  ∧ sni_fallback (sni_upsert to_lowercase names keys m) = match sni_fallback m with [] => keys | _ => sni_fallback m end.
Proof. unfold sni_upsert. destruct (sni_insert_lookup keys names (match sni_fallback m with [] => mkSni (sni_exact m) (sni_wildcard m) keys | _ => m end) h) as (-> & -> & ->). by destruct m as [e w [|f fb]]. Qed.

(** The last entry that satisfies a test. *)
Definition last_entry (p : list (list Z) → bool) (l : list (list (list Z) * list CK)) : option (list CK) :=
  snd <$> find_first (λ e, p (fst e)) (rev l).

Lemma last_entry_app p l e : last_entry p (l ++ [e]) = if p (fst e) then Some (snd e) else last_entry p l.
Proof. unfold last_entry. rewrite rev_app_distr. cbn [rev app find_first]. by destruct (p (fst e)). Qed.

Lemma sni_new_tables (l : list (list (list Z) * list CK)) h :
  sni_exact (sni_new to_lowercase l) !! h = last_entry (λ names, bool_decide (h ∈ names_exact names)) l
  ∧ sni_wildcard (sni_new to_lowercase l) !! h = last_entry (λ names, bool_decide (h ∈ names_wildcard names)) l
  ∧ sni_fallback (sni_new to_lowercase l) = default [] (find_first (λ ks, negb (bool_decide (ks = []))) (snd <$> l)).
Proof.
  unfold sni_new. induction l as [|[names keys] l IH] using rev_ind; [unfold last_entry; cbn; by rewrite !lookup_empty|].
  rewrite foldl_app. cbn [foldl]. destruct IH as (I1 & I2 & I3). rewrite !last_entry_app. cbn [fst snd].
  destruct (sni_upsert_lookup names keys (foldl (λ m '(names, keys), sni_upsert to_lowercase names keys m) sni_empty l) h) as (-> & -> & ->).
  rewrite I1, I2, I3. split_and!; [done..|]. rewrite fmap_app, find_first_app. cbn [fmap list_fmap find_first snd].
  destruct (find_first _ (snd <$> l)) as [ks|] eqn:E; cbn [default from_option id].
  - apply find_first_elem in E as [_ E]. by destruct ks.
  - by destruct keys.
Qed.

Lemma sni_lower name : (if existsb is_ascii_uppercase name then to_ascii_lowercase name else name) = to_ascii_lowercase name.
Proof.
  rewrite <- (host_lower name), <- negb_existsb. by destruct (existsb _ _).
Qed.

End sni_theorems.

(** ** Every handshake gets a certificate *)

Section handshake_theorems.
Context {CK : Type} (to_lowercase : list Z → list Z) (cache_dir : list Z) (exists_file : list Z → bool)
  (load_key : list Z → list Z → option CK) (self_signed : list Z → option CK).

Lemma sni_lookup_nonempty (l : list (list (list Z) * list CK)) name :
  Forall (λ e, snd e ≠ []) l → l ≠ [] → sni_lookup (sni_new to_lowercase l) name ≠ [] ∧ sni_fallback (sni_new to_lowercase l) ≠ [].
Proof.
  intros Hall Hne.
  assert (Hlast : ∀ p ks, last_entry p l = Some ks → ks ≠ []).
  { intros p ks. unfold last_entry. intros (e & [He _]%find_first_elem & ->)%fmap_Some. rewrite Forall_forall in Hall.
    apply Hall. by apply list_elem_of_In, in_rev, list_elem_of_In. }
  assert (Hfb : sni_fallback (sni_new to_lowercase l) ≠ []).
  { destruct (sni_new_tables to_lowercase l []) as (_ & _ & ->). destruct l as [|e l]; [done|]. cbn [fmap list_fmap find_first].
    apply Forall_cons in Hall as [He _]. destruct (snd e); [done|]. by rewrite bool_decide_false. }
  split; [|done]. unfold sni_lookup. cbv zeta. set (lower := if existsb _ name then _ else _).
  destruct (sni_exact _ !! lower) as [ks|] eqn:E1.
  { destruct (sni_new_tables to_lowercase l lower) as (H1 & _). rewrite H1 in E1. by eapply Hlast. }
  destruct (find_byte byte_dot lower) as [d|]; [|done].
  destruct (sni_wildcard _ !! drop (S d) lower) as [ks|] eqn:E2; [|done].
  destruct (sni_new_tables to_lowercase l (drop (S d) lower)) as (_ & H2 & _). rewrite H2 in E2. by eapply Hlast.
Qed.

(** The sites of a port, and what the resolver is built from. *)
Lemma tls_port_sites_elem sites port s :
  s ∈ tls_port_sites sites port ↔ s ∈ sites ∧ is_Some (cf_tls s) ∧ port ∈ cf_listen_tls s.
Proof.
  unfold tls_port_sites. rewrite list_elem_of_In, in_concat. setoid_rewrite <- list_elem_of_In. split.
  - intros (l & (x & -> & Hx)%list_elem_of_fmap & Hs). destruct (cf_tls x) as [t|] eqn:Et; [|by apply elem_of_nil in Hs].
    apply elem_of_replicate in Hs as [-> Hn]. split_and!; [done|by rewrite Et|].
    destruct (filter (λ p, p = port) (cf_listen_tls x)) as [|q ps] eqn:Ef; [done|].
    assert (Hq : q ∈ filter (λ p, p = port) (cf_listen_tls x)) by (rewrite Ef; by left).
    by apply list_elem_of_filter in Hq as [-> ?].
  - intros (Hs & [t Ht] & Hp). eexists. split; [by apply list_elem_of_fmap_2|]. rewrite Ht. apply elem_of_replicate. split; [done|].
    assert (Hq : port ∈ filter (λ p, p = port) (cf_listen_tls s)) by (by apply list_elem_of_filter).
    intros E. apply length_zero_iff_nil in E. rewrite E in Hq. by apply elem_of_nil in Hq.
Qed.

Definition port_entries (sites : list SiteFile) (port : Z) : list (list (list Z) * list CK) :=
  filter (λ e, snd e ≠ []) (omap (λ s, match cf_tls s with
    | Some t => Some (cf_server_name s, build_certified_keys cache_dir exists_file load_key self_signed t (cf_server_name s))
    | None => None end) (tls_port_sites sites port)).

Lemma port_entries_elem sites port e :
  e ∈ port_entries sites port ↔ ∃ s t, s ∈ sites ∧ cf_tls s = Some t ∧ port ∈ cf_listen_tls s ∧ snd e ≠ []
    ∧ e = (cf_server_name s, build_certified_keys cache_dir exists_file load_key self_signed t (cf_server_name s)).
Proof.
  unfold port_entries. rewrite list_elem_of_filter, list_elem_of_omap. setoid_rewrite tls_port_sites_elem. split.
  - intros (Hne & s & (Hs & [t Ht] & Hp) & E). rewrite Ht in E. injection E as <-. by exists s, t.
  - intros (s & t & Hs & Ht & Hp & Hne & ->). split; [done|]. exists s. split; [|by rewrite Ht]. split_and!; [done|by rewrite Ht|done].
Qed.

Lemma last_entry_unique (p : list (list Z) → bool) (l : list (list (list Z) * list CK)) e :
  e ∈ l → p (fst e) = true → (∀ e', e' ∈ l → p (fst e') = true → snd e' = snd e) → last_entry p l = Some (snd e).
Proof.
  intros He Hp Hu. unfold last_entry. destruct (find_first _ (rev l)) as [e'|] eqn:E; cbn.
  - apply find_first_elem in E as [Hin Hp']. f_equal. apply Hu; [|done]. by apply list_elem_of_In, in_rev, list_elem_of_In.
  - apply find_first_None in E. rewrite Forall_forall in E. rewrite E in Hp; [done|].
    apply list_elem_of_In. rewrite <- in_rev. by apply list_elem_of_In.
Qed.

(** Two sites the registry cannot tell apart have the same keys. *)
Lemma same_site_keys (a b : SiteFile) ta tb :
  vhost_site a = vhost_site b → cf_tls a = Some ta → cf_tls b = Some tb →
  build_certified_keys cache_dir exists_file load_key self_signed ta (cf_server_name a)
  = build_certified_keys cache_dir exists_file load_key self_signed tb (cf_server_name b).
Proof.
  intros E Ha Hb. assert (cf_server_name a = cf_server_name b) as -> by exact (f_equal sc_server_name E).
  assert (Ht : cf_tls a = cf_tls b) by exact (f_equal (sx_tls ∘ sc_extra) E). congruence.
Qed.

Section agreement.
Context `{L : HeaderLib} {R : Type} (build : list Z → option R) (canonicalize : list Z → option (list (list Z))).
Notation names_exact names := (to_lowercase <$> filter (λ n, starts_with (lit "*.") n = false) names).
Notation names_wildcard names := ((to_lowercase ∘ drop 2) <$> filter (λ n, starts_with (lit "*.") n = true) names).

(** A site the registry answers with is the one the configuration gives. *)
Lemma answering_site sites host s :
  NoDup (sc_name <$> (vhost_site <$> sites)) → s ∈ sites →
  lookup_inner (registry_from_config build to_lowercase canonicalize (vhost_site <$> sites)) host
    = Some (site_from_config build canonicalize (vhost_site s)) →
  spec_lookup to_lowercase (vhost_site <$> sites) host = Some (vhost_site s).
Proof.
  intros Hnd Hs. rewrite registry_lookup_spec by done. intros (c & Hc & E)%fmap_Some. rewrite Hc. f_equal.
  apply (NoDup_fmap_unique sc_name (vhost_site <$> sites)); [done| |by apply list_elem_of_fmap_2|].
  - eapply spec_lookup_elem, Hc.
  - exact (eq_sym (f_equal si_name E)).
Qed.

(** C14: The certificate and the site agree.  The registry holds all sites of a configuration without conflicts
    (distinct site names, no host or wildcard claimed twice), and a TLS port has the resolver built from
    the sites that list it, those whose keys could be loaded.  When the registry answers a host with a
    site because that site lists the host by name or by wildcard, and the site listens on the port with
    TLS and has a key, then the port has a resolver, and a client that names the host in its handshake,
    in whatever case it spells it, gets the keys of that very site.  (A host answered by a fallback
    site, or by a site that is not on the port or has no key, gets the certificate of another site.) *)
Theorem sni_agrees_with_vhost sites port host s t :
  let h := to_ascii_lowercase host in
  let keys := build_certified_keys cache_dir exists_file load_key self_signed t (cf_server_name s) in
  conflict_free to_lowercase (vhost_site <$> sites) → s ∈ sites →
  lookup_inner (registry_from_config build to_lowercase canonicalize (vhost_site <$> sites)) host
    = Some (site_from_config build canonicalize (vhost_site s)) →
  (h ∈ exact_names to_lowercase (vhost_site s)
   ∨ ∃ d, find_byte byte_dot h = Some d ∧ drop (S d) h ∈ wildcard_names to_lowercase (vhost_site s)) →
  cf_tls s = Some t → port ∈ cf_listen_tls s → keys ≠ [] →
  ∃ m, build_resolver to_lowercase cache_dir exists_file load_key self_signed (tls_port_sites sites port) = Some m
    ∧ sni_lookup m host = keys.
Proof.
  intros h keys (Hnd & Hex & Hwi & _) Hs Hreg Hname Ht Hp Hk.
  apply answering_site in Hreg; [|done|done].
  assert (Hin : (cf_server_name s, keys) ∈ port_entries sites port) by (apply port_entries_elem; by exists s, t).
  exists (sni_new to_lowercase (port_entries sites port)). split.
  { unfold build_resolver. cbv zeta. fold (port_entries sites port). destruct (port_entries sites port); [by apply elem_of_nil in Hin|done]. }
  unfold sni_lookup. cbv zeta. rewrite sni_lower. fold h.
  assert (Htable : ∀ (N : list (list Z) → list (list Z)) k, k ∈ N (cf_server_name s) →
    (∀ s', s' ∈ sites → k ∈ N (cf_server_name s') → vhost_site s' = vhost_site s) →
    last_entry (λ names, bool_decide (k ∈ N names)) (port_entries sites port) = Some keys).
  { intros N k Hks Hu. apply (last_entry_unique _ _ (cf_server_name s, keys) Hin); [by apply bool_decide_true|].
    intros e' (s' & t' & Hs' & Ht' & _ & _ & ->)%port_entries_elem Hk'%bool_decide_eq_true. cbn [fst snd] in *.
    apply same_site_keys; [by apply Hu|done|done]. }
  destruct (decide (h ∈ names_exact (cf_server_name s))) as [Hh|Hh].
  - destruct (sni_new_tables to_lowercase (port_entries sites port) h) as (-> & _). rewrite (Htable (λ names, names_exact names) h Hh); [done|].
    intros s' Hs' Hh'. by apply (Hex _ _ h); [apply list_elem_of_fmap_2..| |].
  - destruct Hname as [?|(d & Hd & Hw)]; [done|].
    assert (last_entry (λ names, bool_decide (h ∈ names_exact names)) (port_entries sites port) = None) as E1.
    { unfold spec_lookup in Hreg. cbv zeta in Hreg. fold h in Hreg. destruct (last_with _ _) as [c|] eqn:El in Hreg.
      - injection Hreg as ->. apply last_with_elem in El as [_ El%bool_decide_eq_true]. done.
      - unfold last_entry. apply fmap_None, find_first_None, Forall_forall. intros e He%list_elem_of_In%in_rev%list_elem_of_In.
        apply port_entries_elem in He as (s' & t' & Hs' & _ & _ & _ & ->). cbn [fst].
        apply (last_with_none _ _ El (vhost_site s')). by apply list_elem_of_fmap_2. }
    destruct (sni_new_tables to_lowercase (port_entries sites port) h) as (-> & _). rewrite E1, Hd.
    assert (sni_wildcard (sni_new to_lowercase (port_entries sites port)) !! drop (S d) h = Some keys) as ->; [|done].
    destruct (sni_new_tables to_lowercase (port_entries sites port) (drop (S d) h)) as (_ & -> & _).
    apply (Htable (λ names, names_wildcard names) (drop (S d) h) Hw).
    intros s' Hs' Hh'. by apply (Hwi _ _ (drop (S d) h)); [apply list_elem_of_fmap_2..| |].
Qed.

End agreement.

(** Every handshake gets a certificate.  When a port could be opened at all, every client is answered
    with some certificate, whatever name it asks for or none and whatever signature schemes it offers;
    and one the client can verify is preferred when the chosen site has one. *)
Theorem handshake_has_certificate {S} (choose : CK → list S → bool) sites m name schemes :
  build_resolver to_lowercase cache_dir exists_file load_key self_signed sites = Some m →
  ∃ ck, sni_resolve choose m name schemes = Some ck
    ∧ (Exists (λ c, choose c schemes = true) (match name with Some n => sni_lookup m n | None => sni_fallback m end) →
       choose ck schemes = true).
Proof.
  unfold build_resolver. set (l := filter _ (omap _ sites)). intros Hm.
  assert (Hl : Forall (λ e : list (list Z) * list CK, snd e ≠ []) l).
  { apply Forall_forall. intros e He. by apply list_elem_of_filter in He as [? _]. }
  assert (Hm' : l ≠ [] ∧ m = sni_new to_lowercase l) by (destruct l; [done|]; by injection Hm as <-).
  destruct Hm' as [Hne ->]. clear Hm.
  assert (Hc : match name with Some n => sni_lookup (sni_new to_lowercase l) n | None => sni_fallback (sni_new to_lowercase l) end ≠ [])
    by (destruct name as [n|]; [apply (sni_lookup_nonempty l n)|apply (sni_lookup_nonempty l [])]; done).
  unfold sni_resolve. set (cands := match name with Some n => _ | None => _ end) in *. clearbody cands.
  unfold sni_choose. destruct (find_first _ cands) as [ck|] eqn:E.
  - exists ck. split; [done|]. intros _. by apply find_first_elem in E as [_ ?].
  - destruct cands as [|ck cands]; [done|]. exists ck. split; [done|]. intros Hex. apply find_first_None in E.
    apply Exists_exists in Hex as (c & Hc1 & Hc2). rewrite Forall_forall in E. by rewrite E in Hc2.
Qed.

End handshake_theorems.

(** ** Renewal *)

(** A certificate that is kept lasts.  With a threshold of [d >= 1] days, a certificate that is not
    renewed is valid for at least [d] more days; with a threshold of 0 it may have expired already, by
    up to a day. *)
Theorem kept_certificate_lasts not_after now d :
  cert_needs_renewal not_after now d = false →
  (1 ≤ d → now + d * 86400 ≤ not_after) ∧ (d = 0 → now - 86400 < not_after)
  ∧ cert_needs_renewal (now - 86399) now 0 = false.
Proof.
  unfold cert_needs_renewal. intros H%Z.ltb_ge. split_and!.
  - intros Hd. assert (0 ≤ not_after - now).
    { destruct (Z.le_gt_cases 0 (not_after - now)) as [|Hn]; [done|].
      assert (Z.quot (not_after - now) 86400 ≤ 0) by (apply Z.quot_le_upper_bound; lia). lia. }
    pose proof (Z.mul_quot_le (not_after - now) 86400). lia.
  - intros ->. destruct (Z.le_gt_cases (not_after - now) (-86400)) as [Hn|]; [|lia].
    assert (Z.quot (not_after - now) 86400 ≤ -1); [|lia].
    rewrite <- (Z.opp_involutive (not_after - now)), Z.quot_opp_l by lia.
    assert (1 ≤ Z.quot (- (not_after - now)) 86400) by (apply Z.quot_le_lower_bound; lia). lia.
  - replace (now - 86399 - now) with (-86399) by lia. by vm_compute.
Qed.

Lemma primary_domain_filter names :
  filter (λ d, starts_with (lit "*.") d = false) names ≠ [] →
  primary_domain (filter (λ d, starts_with (lit "*.") d = false) names) = primary_domain names.
Proof.
  intros Hne. unfold primary_domain.
  assert (E : find_first (λ d, negb (starts_with (lit "*.") d)) (filter (λ d, starts_with (lit "*.") d = false) names)
              = find_first (λ d, negb (starts_with (lit "*.") d)) names).
  { clear Hne. induction names as [|n names IH]; [done|]. rewrite filter_cons. destruct (starts_with (lit "*.") n) eqn:En.
    - rewrite decide_False by done. cbn [find_first]. by rewrite En.
    - rewrite decide_True by done. cbn [find_first]. by rewrite En. }
  rewrite E. destruct (find_first _ names) as [d|] eqn:Ef; [done|]. exfalso. apply Hne, filter_none.
  intros d Hd. apply find_first_None in Ef. rewrite Forall_forall in Ef. specialize (Ef d Hd). by destruct (starts_with _ d).
Qed.

Lemma primary_domain_acme t names : acme_domains t names ≠ [] → primary_domain (acme_domains t names) = primary_domain names.
Proof. unfold acme_domains. case_match; [done|]. apply primary_domain_filter. Qed.

Lemma crt_key_differ (dir d : list Z) : acme_cert_path dir d ≠ acme_key_path dir d.
Proof. unfold acme_cert_path, acme_key_path. intros H. do 3 apply (inj _) in H. by vm_compute in H. Qed.

Section acme_theorems.
Context {CK : Type} (to_lowercase : list Z → list Z) (cache_dir : list Z)
  (parse_pem : list Z → list Z → option CK) (not_after_of : list Z → option Z) (self_signed : list Z → option CK).

Notation keys_of fs := (build_certified_keys cache_dir (file_exists fs) (load_pair parse_pem fs) self_signed).

(** A renewed certificate takes effect everywhere.  When an application succeeds, the certificate is
    saved where a restart will look for it, the site counts as ready, and every resolver answers the
    site's plain names with the new certificate at once. *)
Theorem acme_renewal_takes_effect now dns attempt s w w' waits t c k ck :
  cf_tls s = Some t → tls_acme t = true → acme_domains t (cf_server_name s) ≠ [] →
  file_needs_renewal not_after_of (aw_files w) (acme_cert_path cache_dir (primary_domain (cf_server_name s))) now (tls_renew_days_before t) = true →
  fst (acme_apply (negb (str_eqb (tls_acme_challenge t) (lit "dns01")) || dns)
         (if str_eqb (tls_acme_challenge t) (lit "dns01") && negb dns then λ _, None else attempt)) = Some (c, k) →
  parse_pem c k = Some ck →
  acme_site to_lowercase cache_dir parse_pem not_after_of now dns BothSaved attempt s w = (w', waits) →
  keys_of (aw_files w') t (cf_server_name s) = [ck] ∧ cf_name s ∈ aw_ready w'
  ∧ ∀ port r', aw_resolvers w' !! port = Some r' → ∀ n, n ∈ cf_server_name s → starts_with (lit "*.") n = false →
      to_lowercase n = to_ascii_lowercase n → sni_lookup r' n = [ck].
Proof.
  intros Ht Ha Hd Hr Happly Hp. unfold acme_site. rewrite Ht, Ha. cbn [negb].
  destruct (acme_domains t (cf_server_name s)) as [|d0 ds] eqn:Ed; [done|]. rewrite <- Ed in *.
  rewrite primary_domain_acme by done. set (prim := primary_domain (cf_server_name s)) in *.
  rewrite Hr. cbn [negb]. rewrite andb_false_r. destruct (acme_apply _ _) as [r ws]. cbn [fst] in Happly. subst r.
  intros [= <- <-]. cbn [aw_files aw_ready aw_resolvers].
  set (cert := acme_cert_path cache_dir prim). set (key := acme_key_path cache_dir prim).
  set (fs := <[key := k]> (<[cert := c]> (aw_files w))).
  assert (Hne : cert ≠ key) by apply crt_key_differ.
  assert (Hk : fs !! key = Some k) by apply lookup_insert_eq.
  assert (Hc : fs !! cert = Some c) by (unfold fs; rewrite lookup_insert_ne by done; apply lookup_insert_eq).
  assert (Hload : load_pair parse_pem fs cert key = Some ck) by (unfold load_pair; rewrite Hc, Hk; exact Hp).
  split_and!.
  - unfold build_certified_keys. rewrite Ha. fold prim cert key. unfold file_exists.
    rewrite !bool_decide_true by (rewrite ?Hc, ?Hk; eauto). cbn [andb]. by rewrite Hload.
  - apply elem_of_union_l. by apply elem_of_singleton.
  - intros port r' Hport n Hn Hstar Hlow. unfold reload_acme_cert in Hport. rewrite Hload in Hport.
    rewrite lookup_fmap in Hport. apply fmap_Some in Hport as (r & _ & ->). unfold sni_lookup. cbv zeta. rewrite sni_lower.
    destruct (sni_upsert_lookup to_lowercase (cf_server_name s) [ck] r (to_ascii_lowercase n)) as (-> & _ & _).
    rewrite bool_decide_true; [done|]. apply list_elem_of_fmap. exists n. split; [done|]. by apply list_elem_of_filter.
Qed.

(** A failed application changes nothing, and gives up.  When every application fails, certificates,
    resolvers and the set of ready sites stay as they were, after at most four waits of at most 9360
    seconds in all. *)
Theorem acme_failure_keeps_certificate now dns save s w w' waits :
  acme_site to_lowercase cache_dir parse_pem not_after_of now dns save (λ _, None) s w = (w', waits) →
  aw_files w' = aw_files w ∧ aw_resolvers w' = aw_resolvers w ∧ aw_ready w ⊆ aw_ready w'
  ∧ (length waits ≤ 4)%nat ∧ foldr Z.add 0 waits ≤ 9360.
Proof using Type.
  clear self_signed.
  unfold acme_site. destruct (cf_tls s) as [t|]; [|intros [= <- <-]; by split_and!; cbn; try lia].
  destruct (negb (tls_acme t)); [intros [= <- <-]; split_and!; cbn; done || lia|].
  destruct (acme_domains t _) as [|d ds]; [intros [= <- <-]; split_and!; cbn; done || lia|].
  destruct (_ && _); [intros [= <- <-]; split_and!; cbn; try lia; set_solver|].
  assert (Hif : (if str_eqb (tls_acme_challenge t) (lit "dns01") && negb dns then λ _ : nat, None else λ _, None)
                = (λ _ : nat, None (A := list Z * list Z))) by (by destruct (_ && _)).
  rewrite Hif. unfold acme_apply. destruct (negb _ || dns); vm_compute acme_retry; intros [= <- <-]; split_and!; cbn; done || lia.
Qed.

(** A certificate saved without its key is kept.  When the new certificate can
    be written and the key cannot, the disk holds the new certificate with the
    old key, and that is the pair a restart loads; the next checks find the
    certificate fresh, apply for nothing and count the site as ready. *)
Theorem half_saved_kept now dns attempt s w w' waits t c k old_key not_after now' dns' save' attempt' :
  cf_tls s = Some t → tls_acme t = true → acme_domains t (cf_server_name s) ≠ [] →
  let cert := acme_cert_path cache_dir (primary_domain (cf_server_name s)) in
  let key := acme_key_path cache_dir (primary_domain (cf_server_name s)) in
  file_needs_renewal not_after_of (aw_files w) cert now (tls_renew_days_before t) = true →
  fst (acme_apply (negb (str_eqb (tls_acme_challenge t) (lit "dns01")) || dns)
         (if str_eqb (tls_acme_challenge t) (lit "dns01") && negb dns then λ _, None else attempt)) = Some (c, k) →
  aw_files w !! key = Some old_key → not_after_of c = Some not_after →
  cert_needs_renewal not_after now' (tls_renew_days_before t) = false →
  acme_site to_lowercase cache_dir parse_pem not_after_of now dns CertSaved attempt s w = (w', waits) →
  load_pair parse_pem (aw_files w') cert key = parse_pem c old_key
  ∧ acme_site to_lowercase cache_dir parse_pem not_after_of now' dns' save' attempt' s w'
    = (mkAcme ({[cf_name s]} ∪ aw_ready w') (aw_files w') (aw_resolvers w'), []).
Proof using Type.
  clear self_signed. intros Ht Ha Hd cert key Hr Happly Hkey Hna Hfresh Hsite.
  assert (Hne : cert ≠ key) by apply crt_key_differ.
  assert (Hw' : w' = mkAcme (aw_ready w) (<[cert := c]> (aw_files w)) (aw_resolvers w)).
  { revert Hsite. unfold acme_site. rewrite Ht, Ha. cbn [negb]. destruct (acme_domains t (cf_server_name s)) as [|d0 ds] eqn:Ed; [done|].
    rewrite <- Ed in *. rewrite primary_domain_acme by done. fold cert key. rewrite Hr. cbn [negb]. rewrite andb_false_r.
    destruct (acme_apply _ _) as [r ws]. cbn [fst] in Happly. subst r. by intros [= <- _]. }
  subst w'. cbn [aw_files aw_ready aw_resolvers]. split.
  - unfold load_pair. by rewrite lookup_insert_eq, lookup_insert_ne, Hkey.
  - unfold acme_site. rewrite Ht, Ha. cbn [negb]. destruct (acme_domains t (cf_server_name s)) as [|d0 ds] eqn:Ed; [done|].
    rewrite <- Ed in *. rewrite primary_domain_acme by done. fold cert key. cbn [aw_files].
    unfold file_exists, file_needs_renewal. rewrite lookup_insert_eq, bool_decide_true by eauto. cbn [mbind option_bind]. by rewrite Hna, Hfresh.
Qed.

End acme_theorems.

(** ** Witnesses *)

Module Witness.
Import Headers.Model.

Definition tls (acme : bool) (cert : string) : TlsConfig :=
  mkTls acme None (Some (lit cert)) (Some (lit "k")) [] (lit "tls1.2") (lit "tls1.3") 30 (lit "letsencrypt") (lit "http01") [lit "h2"].
Definition site (name : string) (hosts : list string) (t : TlsConfig) : SiteFile :=
  mkFile (lit name) (lit <$> hosts) [80] [443] None [] (Some t) None [] [] [] None false false None ∅ None None None true (mkSC (mkSiteCompress None None None None None None None) None None) None.
Definition a : SiteFile := site "a" ["a.test"; "*.a.test"]%string (tls false "a.pem").
Definition b : SiteFile := site "b" ["www.A.test"]%string (tls false "b.pem").

Definition load (cert key : list Z) : option (list Z) := Some cert.

Definition bld (p : list Z) : option unit := None.
Definition canon (p : list Z) : option (list (list Z)) := None.

Lemma tls_sites_conflict_free : conflict_free to_ascii_lowercase (vhost_site <$> [a; b]).
Proof.
  split_and!; [apply (bool_decide_unpack _); by vm_compute| | |]; intros x y; intros; cbn [fmap list_fmap] in *;
    repeat match goal with H : _ ∈ _ :: _ |- _ => apply elem_of_cons in H as [->|H] | H : _ ∈ [] |- _ => by apply elem_of_nil in H end;
    try done; repeat match goal with H : _ ∈ _ |- _ => vm_compute in H end;
    repeat match goal with H : list_elem_of _ _ |- _ => inversion H; clear H; subst | H : _ ∈ _ |- _ => inversion H; clear H; subst end.
Qed.

(** Site [a] answers the host by its wildcard; the port has the certificates of both sites. *)
Lemma sni_agrees_with_vhost_witness :
  ∃ m, build_resolver to_ascii_lowercase (lit "/c") (λ _, true) load (λ _, None) (tls_port_sites [a; b] 443) = Some m
    ∧ sni_lookup m (lit "API.a.test") = [lit "a.pem"].
Proof.
  apply (sni_agrees_with_vhost to_ascii_lowercase (lit "/c") (λ _, true) load (λ _, None) bld canon
           [a; b] 443 (lit "API.a.test") a (tls false "a.pem")).
  - exact tls_sites_conflict_free.
  - by left.
  - reflexivity.
  - right. exists 3%nat. split; [reflexivity|]. apply (bool_decide_unpack _). by vm_compute.
  - reflexivity.
  - by left.
  - discriminate.
Defined.

Lemma handshake_has_certificate_witness :
  ∃ ck, sni_resolve (λ c (ss : list nat), bool_decide (c = lit "a.pem")) (sni_new to_ascii_lowercase [(lit <$> ["a.test"; "*.a.test"]%string, [lit "a.pem"])])
          (Some (lit "other")) [] = Some ck.
Proof.
  destruct (handshake_has_certificate to_ascii_lowercase (lit "/c") (λ _, true) load (λ _, None)
              (λ c (ss : list nat), bool_decide (c = lit "a.pem")) [a]
              (sni_new to_ascii_lowercase [(lit <$> ["a.test"; "*.a.test"]%string, [lit "a.pem"])]) (Some (lit "other")) []) as (ck & H & _);
    [reflexivity|exists ck; exact H].
Defined.

Lemma kept_certificate_lasts_witness :
  cert_needs_renewal 3000000 100000 30 = false ∧ 100000 + 30 * 86400 ≤ 3000000.
Proof. split; [reflexivity|]. apply (kept_certificate_lasts 3000000 100000 30); [reflexivity|lia]. Defined.

Definition acme_a : SiteFile := site "a" ["*.a.test"; "a.test"]%string (tls true "x").
Definition world : AcmeWorld (CK := list Z) := mkAcme ∅ ∅ {[443 := sni_empty]}.
Definition pem (c k : list Z) : option (list Z) := Some c.
Definition issued (k : nat) : option (list Z * list Z) := match k with O => None | _ => Some (lit "CERT", lit "KEY") end.

Lemma acme_renewal_takes_effect_witness :
  ∃ w' waits, acme_site to_ascii_lowercase (lit "/c") pem (λ _, None) 0 false BothSaved issued acme_a world = (w', waits)
    ∧ waits = [60] ∧ cf_name acme_a ∈ aw_ready w'
    ∧ build_certified_keys (lit "/c") (file_exists (aw_files w')) (load_pair pem (aw_files w')) (λ _, None) (tls true "x") (cf_server_name acme_a)
      = [lit "CERT"].
Proof.
  destruct (acme_site to_ascii_lowercase (lit "/c") pem (λ _, None) 0 false BothSaved issued acme_a world) as [w' waits] eqn:E.
  exists w', waits. split; [reflexivity|]. split; [assert (Hw : waits = snd (w', waits)) by reflexivity; rewrite Hw, <- E; reflexivity|].
  destruct (acme_renewal_takes_effect to_ascii_lowercase (lit "/c") pem (λ _, None) (λ _, None) 0 false issued acme_a world w' waits
              (tls true "x") (lit "CERT") (lit "KEY") (lit "CERT")) as (H1 & H2 & _);
    [reflexivity|reflexivity|discriminate|reflexivity|reflexivity|reflexivity|exact E|]. split; assumption.
Defined.

Definition old_world : AcmeWorld (CK := list Z) :=
  mkAcme ∅ {[acme_key_path (lit "/c") (lit "a.test") := lit "OLD"]} ∅.

Lemma half_saved_kept_witness :
  load_pair pem (aw_files (fst (acme_site to_ascii_lowercase (lit "/c") pem (λ _, Some 9000000) 0 false CertSaved issued acme_a old_world)))
    (acme_cert_path (lit "/c") (lit "a.test")) (acme_key_path (lit "/c") (lit "a.test")) = pem (lit "CERT") (lit "OLD").
Proof.
  destruct (acme_site to_ascii_lowercase (lit "/c") pem (λ _, Some 9000000) 0 false CertSaved issued acme_a old_world) as [w' waits] eqn:E.
  refine (proj1 (half_saved_kept to_ascii_lowercase (lit "/c") pem (λ _, Some 9000000) 0 false issued acme_a old_world w' waits
    (tls true "x") (lit "CERT") (lit "KEY") (lit "OLD") 9000000 0 false BothSaved (λ _, None) _ _ _ _ _ _ _ _ E));
    [reflexivity|reflexivity|discriminate|reflexivity|reflexivity|reflexivity|reflexivity|reflexivity].
Defined.

Lemma acme_failure_keeps_certificate_witness :
  ∃ w' waits, acme_site to_ascii_lowercase (lit "/c") pem (λ _, None) 0 false BothSaved (λ _, None) acme_a world = (w', waits)
    ∧ aw_files w' = ∅ ∧ foldr Z.add 0 waits ≤ 9360.
Proof.
  destruct (acme_site to_ascii_lowercase (lit "/c") pem (λ _, None) 0 false BothSaved (λ _, None) acme_a world) as [w' waits] eqn:E.
  exists w', waits. split; [reflexivity|].
  destruct (acme_failure_keeps_certificate to_ascii_lowercase (lit "/c") pem (λ _, None) 0 false BothSaved acme_a world w' waits E) as (H1 & _ & _ & _ & H2).
  split; [exact H1|exact H2].
Defined.

End Witness.
