(* ===== verification/HotReload.v ===== *)
(** * Reloading the configuration: [src/config/hot_reload.rs]

    A change of the configuration file is checked in three stages and then
    applied as a difference: sites that went are removed, sites that came or
    changed are registered again, certificates follow.  The order in which hash
    sets are visited is a parameter, and so is the serialisation sites are
    compared by, which may fail ([toml::to_string(..).ok()]).  Certificate files
    can change between the check of a configuration and the loading of its
    keys: [check_keys] is what the check finds, [certified_keys] what is loaded. *)

From S2P Require Import Prelude RustStr Headers Compress Location Rewrite VHost Config Tls.

Section reload.
Context `{L : HeaderLib} {R : Type} (build : list Z → option R) (to_lowercase : list Z → list Z)
  (canonicalize : list Z → option (list (list Z))).
Context {CK : Type} (first : gmap (list Z) (list CK) → option (list CK)).
Context (certified_keys check_keys : TlsConfig → list (list Z) → list CK).
Context (ser : SiteFile → option (list Z)) (ser_tls : option TlsConfig → option (list Z)).
Context (order : gset (list Z) → list (list Z)).

Notation registry := (VHostInner (R := R)).
Notation resolver := (SniInner (CK := CK)).

(** [HotReloadContext], with the file-status cache that a reload clears. *)
Record ReloadCtx := mkCtx {
  hr_registry : registry;
  hr_resolvers : gmap Z resolver;
  hr_cfg : list SiteFile;
  hr_meta : MetaCache;
}.

Definition site_map (sites : list SiteFile) : gmap (list Z) SiteFile :=
  foldl (λ m s, <[cf_name s := s]> m) ∅ sites.

(** [site_changed], [tls_changed] *)
Definition site_changed (a b : SiteFile) : bool := negb (bool_decide (ser a = ser b)).
Definition tls_changed (a b : SiteFile) : bool := negb (bool_decide (ser_tls (cf_tls a) = ser_tls (cf_tls b))).

(** [upsert_site_to_resolvers], [remove_site_from_resolvers] *)
Definition upsert_site_to_resolvers (s : SiteFile) (rs : gmap Z resolver) : gmap Z resolver :=
  match cf_tls s with
  | None => rs
  | Some t =>
      match certified_keys t (cf_server_name s) with
      | [] => rs
      | keys => foldl (λ (rs : gmap Z resolver) port,
                  match rs !! port with
                  | Some r => <[port := sni_upsert to_lowercase (cf_server_name s) keys r]> rs
                  | None => rs
                  end) rs (cf_listen_tls s)
      end
  end.

Definition remove_site_from_resolvers (s : SiteFile) (rs : gmap Z resolver) : gmap Z resolver :=
  sni_remove to_lowercase first (cf_server_name s) <$> rs.

Definition update (reg : registry) (rs : gmap Z resolver) (c : ReloadCtx) : ReloadCtx := mkCtx reg rs (hr_cfg c) (hr_meta c).

(** The three loops of [apply_diff]. *)
Definition drop_site (old : gmap (list Z) SiteFile) (c : ReloadCtx) (name : list Z) : ReloadCtx :=
  match old !! name with
  | Some s => update (remove_site (hr_registry c) name) (remove_site_from_resolvers s (hr_resolvers c)) c
  | None => c
  end.

Definition add_site (new : gmap (list Z) SiteFile) (c : ReloadCtx) (name : list Z) : ReloadCtx :=
  match new !! name with
  | Some s => update (upsert_site build to_lowercase canonicalize (hr_registry c) (vhost_site s)) (upsert_site_to_resolvers s (hr_resolvers c)) c
  | None => c
  end.

Definition change_site (old new : gmap (list Z) SiteFile) (c : ReloadCtx) (name : list Z) : ReloadCtx :=
  match old !! name, new !! name with
  | Some o, Some s =>
      if site_changed o s then
        update (upsert_site build to_lowercase canonicalize (hr_registry c) (vhost_site s))
          (if tls_changed o s then upsert_site_to_resolvers s (remove_site_from_resolvers o (hr_resolvers c)) else hr_resolvers c) c
      else c
  | _, _ => c
  end.

(** [apply_diff] *)
Definition apply_diff (old new : list SiteFile) (c : ReloadCtx) : ReloadCtx :=
  let c := mkCtx (hr_registry c) (hr_resolvers c) new (clear_meta_cache (hr_meta c)) in
  let om := site_map old in
  let nm := site_map new in
  let c := foldl (drop_site om) c (order (dom om ∖ dom nm)) in
  let c := foldl (add_site nm) c (order (dom nm ∖ dom om)) in
  foldl (change_site om nm) c (order (dom om ∩ dom nm)).

(** ** The stages before *)

(** [preflight_tls] *)
Definition preflight_site (s : SiteFile) : bool :=
  match cf_tls s with
  | None => true
  | Some t =>
      tls_acme t ||
      ((match tls_cert t, tls_key t with
        | None, None => true
        | _, _ => negb (bool_decide (check_keys t (cf_server_name s) = []))
        end)
       && forallb (λ p, negb (bool_decide (check_keys
            (mkTls false (tls_acme_email t) (Some (ck_cert p)) (Some (ck_key p)) [] (tls_min_version t) (tls_max_version t)
               (tls_renew_days_before t) (tls_acme_provider t) (tls_acme_challenge t) (tls_protocols t)) (cf_server_name s) = [])))
          (tls_certs t))
  end.

Definition preflight_tls (sites : list SiteFile) : bool := forallb preflight_site sites.

(** What the watcher saw: the last event of a burst was a removal; whether the
    file is there; what parsing gives. *)
Record file_event := mkEvent { ev_removed : bool; ev_exists : bool; ev_parsed : option (list SiteFile) }.

(** One turn of [watch_loop]; the configuration it compares with is the active
    one. *)
Definition reload_event (c : ReloadCtx) (e : file_event) : ReloadCtx :=
  if ev_removed e || negb (ev_exists e) then c
  else match load_config (ev_parsed e) with
       | None => c
       | Some new =>
           match validate_config new with
           | Some _ => c
           | None => if preflight_tls new then apply_diff (hr_cfg c) new c else c
           end
       end.

End reload.

(** ** Sites by name *)

Lemma site_map_lookup sites n s :
  NoDup (cf_name <$> sites) → site_map sites !! n = Some s ↔ s ∈ sites ∧ cf_name s = n.
Proof.
  unfold site_map. induction sites as [|x sites IH] using rev_ind; [intros _; cbn; rewrite lookup_empty; split; [done|intros [H _]; by apply elem_of_nil in H]|].
  rewrite fmap_app, NoDup_app, foldl_app. cbn [fmap list_fmap foldl]. intros (Hnd & Hdis & _).
  rewrite elem_of_app, list_elem_of_singleton. destruct (decide (n = cf_name x)) as [->|Hne].
  - rewrite lookup_insert_eq. split; [intros [= <-]; auto|]. intros [[Hs| ->] Hn]; [|done].
    exfalso. apply (Hdis (cf_name s)); [by apply list_elem_of_fmap_2|]. rewrite Hn. by apply list_elem_of_singleton.
  - rewrite lookup_insert_ne, IH by done. split; [tauto|]. intros [[Hs| ->] Hn]; [auto|congruence].
Qed.

Lemma elem_of_dom_site_map sites n : NoDup (cf_name <$> sites) → n ∈ dom (site_map sites) ↔ n ∈ cf_name <$> sites.
Proof.
  intros Hnd. rewrite elem_of_dom, list_elem_of_fmap. split.
  - intros [s Hs]. apply site_map_lookup in Hs as [Hs <-]; [|done]. by exists s.
  - intros (s & -> & Hs). exists s. by apply site_map_lookup.
Qed.

Lemma unique_name sites (a b : SiteFile) : NoDup (cf_name <$> sites) → a ∈ sites → b ∈ sites → cf_name a = cf_name b → a = b.
Proof.
  intros Hnd Ha Hb Hab. eapply (inj Some). transitivity (site_map sites !! cf_name a); [symmetry|]; apply site_map_lookup; auto.
Qed.

Lemma names_vhost (sites : list SiteFile) : sc_name <$> (vhost_site <$> sites) = cf_name <$> sites.
Proof. by rewrite <- list_fmap_compose. Qed.

(** ** Reloading is starting afresh *)

Section correct.
Context `{L : HeaderLib} {R : Type} (build : list Z → option R) (to_lowercase : list Z → list Z)
  (canonicalize : list Z → option (list (list Z))).

Notation registry := (VHostInner (R := R)).
Notation info_t := (SiteInfo (R := R)).
Notation info := (site_from_config build canonicalize).
Notation upsert := (upsert_site build to_lowercase canonicalize).

(** The operations a reload performs on the registry. *)
Inductive reg_op := ORemove (name : list Z) | OUpsert (cfg : SiteConfig).
Definition op_name (o : reg_op) : list Z := match o with ORemove n => n | OUpsert c => sc_name c end.
Definition run_op (m : registry) (o : reg_op) : registry :=
  match o with ORemove n => remove_site m n | OUpsert c => upsert m c end.

(** Operations neither look at what is attached to sites nor attach anything. *)
Lemma retain_other_bare (name : list Z) (t : gmap (list Z) info_t) : retain_other name (bare <$> t) = bare <$> retain_other name t.
Proof. unfold retain_other. by rewrite map_filter_fmap. Qed.

Lemma bare_upsert (m : registry) c : bare_registry (upsert m c) = upsert (bare_registry m) c.
Proof.
  unfold upsert_site. cbn [exact wildcard fallback bare_registry]. rewrite !retain_other_bare. cbv zeta.
  set (m0 := mkVHost (retain_other (sc_name c) (exact m)) (retain_other (sc_name c) (wildcard m)) (fallback m)).
  change (mkVHost (bare <$> retain_other (sc_name c) (exact m)) (bare <$> retain_other (sc_name c) (wildcard m))
            (bare <$> fallback m)) with (bare_registry m0).
  assert (E : ∀ ns m1, foldl (insert_name to_lowercase (info c)) (bare_registry m1) ns
                       = bare_registry (foldl (insert_name to_lowercase (info c)) m1 ns)).
  { induction ns as [|n ns IH]; intros m1; [done|]. cbn [foldl]. rewrite <- IH. f_equal. unfold insert_name, bare_registry.
    destruct (starts_with _ n); cbn [exact wildcard fallback]; by rewrite fmap_insert. }
  rewrite E. by destruct (sc_fallback c).
Qed.

Lemma bare_ops ops (m : registry) : bare_registry (foldl run_op m ops) = foldl run_op (bare_registry m) ops.
Proof.
  revert m; induction ops as [|o ops IH]; intros m; [done|]. cbn [foldl]. rewrite IH. f_equal. destruct o as [n|c]; [|apply bare_upsert].
  cbn [run_op]. unfold remove_site, bare_registry. cbn [exact wildcard fallback]. rewrite !retain_other_bare. f_equal.
  destruct (fallback m) as [i|]; [|done]. cbn [fmap option_fmap option_map]. change (si_name (bare i)) with (si_name i).
  by destruct (str_eqb (si_name i) n).
Qed.

Lemma bare_lookup (m : registry) host : lookup_inner (bare_registry m) host = bare <$> lookup_inner m host.
Proof.
  unfold lookup_inner. cbn [exact wildcard fallback bare_registry]. cbv zeta. rewrite lookup_fmap.
  destruct (exact m !! _); [done|]. cbn [fmap option_fmap option_map]. destruct (find_byte _ _) as [d|]; [|done].
  rewrite lookup_fmap. by destruct (wildcard m !! _).
Qed.

(** A table of the registry: a sub-map and the names a site has in it. *)
Record table (T : registry → gmap (list Z) info_t) (N : SiteConfig → list (list Z)) : Prop := {
  table_upsert : ∀ m c h, T (upsert m c) !! h = if bool_decide (h ∈ N c) then Some (info c) else retain_other (sc_name c) (T m) !! h;
  table_remove : ∀ m n h, T (remove_site m n) !! h = retain_other n (T m) !! h;
}.

Lemma exact_table : table exact (exact_names to_lowercase).
Proof. split; [|done]. intros m c h. apply (upsert_lookup build to_lowercase canonicalize m c h). Qed.
Lemma wildcard_table : table wildcard (wildcard_names to_lowercase).
Proof. split; [|done]. intros m c h. apply (upsert_lookup build to_lowercase canonicalize m c h). Qed.

Section one_table.
Context (T : registry → gmap (list Z) info_t) (N : SiteConfig → list (list Z)) (HT : table T N).

(** Where an entry comes from. *)
Lemma ops_sound ops m h i :
  T (foldl run_op m ops) !! h = Some i →
  (∃ c, OUpsert c ∈ ops ∧ h ∈ N c ∧ i = info c) ∨ T m !! h = Some i ∧ si_name i ∉ op_name <$> ops.
Proof using HT.
  induction ops as [|o ops IH] using rev_ind; [intros H; right; split; [done|apply not_elem_of_nil]|].
  rewrite foldl_app, fmap_app. cbn [foldl fmap list_fmap]. intros H.
  assert (Hret : retain_other (op_name o) (T (foldl run_op m ops)) !! h = Some i →
    (∃ c, OUpsert c ∈ ops ++ [o] ∧ h ∈ N c ∧ i = info c) ∨ T m !! h = Some i ∧ si_name i ∉ (op_name <$> ops) ++ [op_name o]).
  { intros [H1 H2]%retain_other_Some. destruct (IH H1) as [(c & Hc & Hh & ->)|[Hm Hn]].
    - left. exists c. split_and!; [apply elem_of_app; by left|done|done].
    - right. split; [done|]. rewrite not_elem_of_app, list_elem_of_singleton. done. }
  destruct o as [n|c]; cbn [run_op op_name] in *.
  - rewrite (table_remove _ _ HT) in H. auto.
  - rewrite (table_upsert _ _ HT) in H. case_bool_decide; [|auto].
    injection H as <-. left. exists c. split_and!; [apply elem_of_app; right; by apply list_elem_of_singleton|done|done].
Qed.

(** A registered site keeps its names when no other claims them. *)
Lemma ops_upserted ops m h c :
  NoDup (op_name <$> ops) → OUpsert c ∈ ops → h ∈ N c → (∀ c', OUpsert c' ∈ ops → h ∈ N c' → c' = c) →
  T (foldl run_op m ops) !! h = Some (info c).
Proof using HT.
  induction ops as [|o ops IH] using rev_ind; [intros _ H; by apply elem_of_nil in H|].
  rewrite foldl_app, fmap_app. cbn [foldl fmap list_fmap]. intros (Hnd & Hdis & _)%NoDup_app Hin Hh Huniq.
  apply elem_of_app in Hin as [Hin'|<-%list_elem_of_singleton].
  2: { cbn [run_op]. rewrite (table_upsert _ _ HT). by rewrite bool_decide_true. }
  assert (Hname : sc_name c ≠ op_name o).
  { intros E. apply (Hdis (sc_name c)); [|rewrite E; by apply list_elem_of_singleton].
    apply list_elem_of_fmap. by exists (OUpsert c). }
  assert (HI : T (foldl run_op m ops) !! h = Some (info c)).
  { apply IH; [done..|]. intros c' Hc'. apply Huniq, elem_of_app. by left. }
  destruct o as [n|c']; cbn [run_op op_name] in *.
  - rewrite (table_remove _ _ HT). by apply retain_other_Some.
  - rewrite (table_upsert _ _ HT). case_bool_decide as Hb; [|by apply retain_other_Some].
    assert (c' = c) as ->; [|done]. apply Huniq; [|done]. apply elem_of_app. right. by apply list_elem_of_singleton.
Qed.

(** An untouched site keeps its names when no other claims them. *)
Lemma ops_untouched ops m h i :
  T m !! h = Some i → si_name i ∉ op_name <$> ops → (∀ c, OUpsert c ∈ ops → h ∉ N c) → T (foldl run_op m ops) !! h = Some i.
Proof using HT.
  induction ops as [|o ops IH] using rev_ind; [done|].
  rewrite foldl_app, fmap_app. cbn [foldl fmap list_fmap]. rewrite not_elem_of_app, list_elem_of_singleton.
  intros Hm [Hn1 Hn2] Hc. assert (HI : T (foldl run_op m ops) !! h = Some i).
  { apply IH; [done..|]. intros c Hin. apply Hc, elem_of_app. by left. }
  assert (Hret : retain_other (op_name o) (T (foldl run_op m ops)) !! h = Some i) by (by apply retain_other_Some).
  destruct o as [n|c]; cbn [run_op op_name] in *.
  - by rewrite (table_remove _ _ HT).
  - rewrite (table_upsert _ _ HT), bool_decide_false; [done|]. apply Hc, elem_of_app. right. by apply list_elem_of_singleton.
Qed.

End one_table.

(** The fallback: an update that is no fallback leaves it, a removal of its
    site clears it. *)
Lemma fallback_op m o :
  fallback (run_op m o) = match o with
                          | OUpsert c => if sc_fallback c then Some (info c) else fallback m
                          | ORemove n => match fallback m with
                                         | Some i => if str_eqb (si_name i) n then None else Some i
                                         | None => None
                                         end
                          end.
Proof. destruct o as [n|c]; [done|]. apply (upsert_lookup build to_lowercase canonicalize m c []). Qed.

Lemma fallback_sound ops m i :
  fallback (foldl run_op m ops) = Some i →
  (∃ c, OUpsert c ∈ ops ∧ sc_fallback c = true) ∨ fallback m = Some i ∧ ORemove (si_name i) ∉ ops.
Proof.
  induction ops as [|o ops IH] using rev_ind; [intros H; right; split; [done|apply not_elem_of_nil]|].
  rewrite foldl_app. cbn [foldl]. rewrite fallback_op. intros H.
  assert (Hret : fallback (foldl run_op m ops) = Some i → o ≠ ORemove (si_name i) →
    (∃ c, OUpsert c ∈ ops ++ [o] ∧ sc_fallback c = true) ∨ fallback m = Some i ∧ ORemove (si_name i) ∉ ops ++ [o]).
  { intros H1 Ho. destruct (IH H1) as [(c & Hc & Hf)|[Hm Hn]].
    - left. exists c. split; [apply elem_of_app; by left|done].
    - right. split; [done|]. rewrite not_elem_of_app, list_elem_of_singleton. split; [done|congruence]. }
  destruct o as [n|c].
  - destruct (fallback (foldl run_op m ops)) as [j|]; [|done]. destruct (str_eqb (si_name j) n) eqn:E; [done|].
    injection H as ->. apply Hret; [done|]. intros [= ->]. by rewrite str_eqb_refl in E.
  - destruct (sc_fallback c) eqn:Ef; [|by apply Hret]. left. exists c. split; [|done].
    apply elem_of_app. right. by apply list_elem_of_singleton.
Qed.

Lemma fallback_kept ops m i :
  fallback m = Some i → ORemove (si_name i) ∉ ops → (∀ c, OUpsert c ∈ ops → sc_fallback c = true → info c = i) →
  fallback (foldl run_op m ops) = Some i.
Proof.
  induction ops as [|o ops IH] using rev_ind; [done|].
  rewrite foldl_app, not_elem_of_app, list_elem_of_singleton. cbn [foldl]. intros Hm [Hr1 Hr2] Hc. rewrite fallback_op.
  assert (HI : fallback (foldl run_op m ops) = Some i).
  { apply IH; [done..|]. intros c Hin. apply Hc, elem_of_app. by left. }
  rewrite HI. destruct o as [n|c].
  - destruct (str_eqb (si_name i) n) eqn:E; [|done]. apply str_eqb_eq in E. congruence.
  - destruct (sc_fallback c) eqn:Ef; [|done]. f_equal. apply Hc; [|done]. apply elem_of_app. right. by apply list_elem_of_singleton.
Qed.

Lemma fallback_upserted ops m c :
  NoDup (op_name <$> ops) → OUpsert c ∈ ops → sc_fallback c = true → (∀ c', OUpsert c' ∈ ops → sc_fallback c' = true → c' = c) →
  fallback (foldl run_op m ops) = Some (info c).
Proof.
  induction ops as [|o ops IH] using rev_ind; [intros _ H; by apply elem_of_nil in H|].
  rewrite foldl_app, fmap_app. cbn [foldl fmap list_fmap]. intros (Hnd & Hdis & _)%NoDup_app Hin Hf Huniq. rewrite fallback_op.
  apply elem_of_app in Hin as [Hin'|<-%list_elem_of_singleton]; [|by rewrite Hf].
  assert (HI : fallback (foldl run_op m ops) = Some (info c)).
  { apply IH; [done..|]. intros c' Hc'. apply Huniq, elem_of_app. by left. }
  rewrite HI. destruct o as [n|c'].
  - destruct (str_eqb _ n) eqn:E; [|done]. apply str_eqb_eq in E. exfalso. apply (Hdis n); [|by apply list_elem_of_singleton].
    apply list_elem_of_fmap. exists (OUpsert c). done.
  - destruct (sc_fallback c') eqn:Ef; [|done]. do 2 f_equal. apply Huniq; [|done]. apply elem_of_app. right. by apply list_elem_of_singleton.
Qed.

(** *** Sequences of operations that turn one configuration into another *)

Notation conflict_free := (conflict_free to_lowercase).

Record reload_ops (old new : list SiteConfig) (ops : list reg_op) : Prop := {
  ro_nodup : NoDup (op_name <$> ops);
  ro_upsert : ∀ c, OUpsert c ∈ ops → c ∈ new;
  ro_new : ∀ c, c ∈ new → OUpsert c ∈ ops ∨ c ∈ old ∧ sc_name c ∉ op_name <$> ops;
  ro_old : ∀ c, c ∈ old → sc_name c ∉ op_name <$> ops → c ∈ new;
  ro_gone : ∀ c, c ∈ old → sc_name c ∉ sc_name <$> new → ORemove (sc_name c) ∈ ops;
}.

Lemma table_reloaded T N old new ops h :
  table T N →
  (∀ cs, NoDup (sc_name <$> cs) →
     T (registry_from_config build to_lowercase canonicalize cs) !! h = info <$> last_with (λ c, bool_decide (h ∈ N c)) cs) →
  NoDup (sc_name <$> old) → NoDup (sc_name <$> new) →
  (∀ a b, a ∈ old → b ∈ old → h ∈ N a → h ∈ N b → a = b) → (∀ a b, a ∈ new → b ∈ new → h ∈ N a → h ∈ N b → a = b) →
  reload_ops old new ops →
  T (foldl run_op (registry_from_config build to_lowercase canonicalize old) ops) !! h
  = T (registry_from_config build to_lowercase canonicalize new) !! h.
Proof.
  intros HT Hreg Ho Hn Huo Hun [Hnd Hup Hnew Hold _]. rewrite (Hreg new Hn).
  destruct (last_with _ new) as [c|] eqn:E; cbn [fmap option_fmap option_map].
  - apply last_with_elem in E as [Hc Hh%bool_decide_eq_true]. destruct (Hnew c Hc) as [Hu|[Hco Hname]].
    + apply (ops_upserted T N HT); [done..|]. intros c' Hc' Hh'. apply Hun; auto.
    + apply (ops_untouched T N HT).
      * rewrite (Hreg old Ho), (last_with_unique _ old c); [done|done|by apply bool_decide_true|].
        intros c' Hc' Hh'%bool_decide_eq_true. by apply Huo.
      * exact Hname.
      * intros c' Hc' Hh'. assert (c' = c) as -> by (apply Hun; auto). apply Hname, list_elem_of_fmap. by exists (OUpsert c).
  - destruct (T _ !! h) as [i|] eqn:Ei; [|done]. exfalso.
    assert (Hno : ∀ c, c ∈ new → h ∉ N c) by (intros c Hc; apply (last_with_none _ _ E) in Hc; by apply bool_decide_eq_false in Hc).
    apply (ops_sound T N HT) in Ei as [(c & Hc & Hh & _)|[Hm Hname]]; [by apply (Hno c); auto|].
    rewrite (Hreg old Ho) in Hm. apply fmap_Some in Hm as (c & [Hc Hh%bool_decide_eq_true]%last_with_elem & ->).
    apply (Hno c); [|done]. by apply Hold.
Qed.

Lemma fallback_reloaded old new ops :
  NoDup (sc_name <$> old) → NoDup (sc_name <$> new) →
  (∀ a b, a ∈ old → b ∈ old → sc_fallback a = true → sc_fallback b = true → a = b) →
  (∀ a b, a ∈ new → b ∈ new → sc_fallback a = true → sc_fallback b = true → a = b) →
  (∀ a, a ∈ old → sc_fallback a = true → sc_name a ∈ sc_name <$> new → Exists (λ b, sc_fallback b = true) new) →
  reload_ops old new ops →
  fallback (foldl run_op (registry_from_config build to_lowercase canonicalize old) ops)
  = fallback (registry_from_config build to_lowercase canonicalize new).
Proof.
  intros Ho Hn Huo Hun Hkeep [Hnd Hup Hnew Hold Hgone].
  assert (Hreg : ∀ cs, NoDup (sc_name <$> cs) → fallback (registry_from_config build to_lowercase canonicalize cs) = info <$> last_with sc_fallback cs)
    by (intros cs Hcs; apply (registry_tables build to_lowercase canonicalize cs [] Hcs)).
  rewrite (Hreg new Hn). destruct (last_with _ new) as [c|] eqn:E; cbn [fmap option_fmap option_map].
  - apply last_with_elem in E as [Hc Hf]. destruct (Hnew c Hc) as [Hu|[Hco Hname]].
    + apply fallback_upserted; [done..|]. intros c' Hc' Hf'. apply Hun; auto.
    + apply fallback_kept.
      * rewrite (Hreg old Ho), (last_with_unique _ old c); [done|done|done|]. intros c' Hc' Hf'. by apply Huo.
      * intros Hr. apply Hname, list_elem_of_fmap. by exists (ORemove (sc_name c)).
      * intros c' Hc' Hf'. f_equal. apply Hun; auto.
  - assert (Hno : ∀ c, c ∈ new → sc_fallback c = false) by (by apply last_with_none).
    destruct (fallback (foldl _ _ _)) as [i|] eqn:Ei; [|done]. exfalso.
    apply fallback_sound in Ei as [(c & Hc & Hf)|[Hm Hr]]; [rewrite Hno in Hf by auto; done|].
    rewrite (Hreg old Ho) in Hm. apply fmap_Some in Hm as (c & [Hc Hf]%last_with_elem & ->).
    assert (Hin : sc_name c ∈ sc_name <$> new).
    { destruct (decide (sc_name c ∈ sc_name <$> new)) as [|Hout]; [done|]. exfalso. by apply Hr, Hgone. }
    specialize (Hkeep c Hc Hf Hin). apply Exists_exists in Hkeep as (b & Hb & Hfb). by rewrite Hno in Hfb.
Qed.

(** After a reload the registry is the one of a fresh start, so reloads can follow one another. *)
Lemma reloaded_registry old new ops :
  conflict_free old → conflict_free new →
  (∀ a, a ∈ old → sc_fallback a = true → sc_name a ∈ sc_name <$> new → Exists (λ b, sc_fallback b = true) new) →
  reload_ops old new ops →
  foldl run_op (registry_from_config build to_lowercase canonicalize old) ops = registry_from_config build to_lowercase canonicalize new.
Proof.
  intros (Ho & Ho1 & Ho2 & Ho3) (Hn & Hn1 & Hn2 & Hn3) Hkeep Hops.
  assert (He : exact (foldl run_op (registry_from_config build to_lowercase canonicalize old) ops)
               = exact (registry_from_config build to_lowercase canonicalize new)).
  { apply map_eq. intros h. apply (table_reloaded exact (exact_names to_lowercase) old new ops h exact_table); [|eauto..].
    intros cs Hcs. by apply registry_tables. }
  assert (Hw : wildcard (foldl run_op (registry_from_config build to_lowercase canonicalize old) ops)
               = wildcard (registry_from_config build to_lowercase canonicalize new)).
  { apply map_eq. intros h. apply (table_reloaded wildcard (wildcard_names to_lowercase) old new ops h wildcard_table); [|eauto..].
    intros cs Hcs. by apply registry_tables. }
  pose proof (fallback_reloaded old new ops Ho Hn Ho3 Hn3 Hkeep Hops) as Hf.
  destruct (foldl _ _ _), (registry_from_config _ _ _ new). cbn in *. by subst.
Qed.

(** *** The operations of [apply_diff] *)

Context {CK : Type} (first : gmap (list Z) (list CK) → option (list CK)).
Context (certified_keys check_keys : TlsConfig → list (list Z) → list CK).
Context (ser : SiteFile → option (list Z)) (ser_tls : option TlsConfig → option (list Z)).
Context (order : gset (list Z) → list (list Z)).

Notation diff := (apply_diff build to_lowercase canonicalize first certified_keys ser ser_tls order).

Definition remove_op (om : gmap (list Z) SiteFile) (n : list Z) : option reg_op :=
  match om !! n with Some _ => Some (ORemove n) | None => None end.
Definition add_op (nm : gmap (list Z) SiteFile) (n : list Z) : option reg_op := (λ s, OUpsert (vhost_site s)) <$> nm !! n.
Definition change_op (om nm : gmap (list Z) SiteFile) (n : list Z) : option reg_op :=
  match om !! n, nm !! n with
  | Some o, Some s => if site_changed ser o s then Some (OUpsert (vhost_site s)) else None
  | _, _ => None
  end.

Definition diff_ops (old new : list SiteFile) : list reg_op :=
  let om := site_map old in
  let nm := site_map new in
  omap (remove_op om) (order (dom om ∖ dom nm)) ++ omap (add_op nm) (order (dom nm ∖ dom om))
  ++ omap (change_op om nm) (order (dom om ∩ dom nm)).

Lemma foldl_registry {X} (step : ReloadCtx (R := R) (CK := CK) → X → ReloadCtx) (g : X → option reg_op) (l : list X) c :
  (∀ c x, hr_registry (step c x) = match g x with Some o => run_op (hr_registry c) o | None => hr_registry c end) →
  hr_registry (foldl step c l) = foldl run_op (hr_registry c) (omap g l).
Proof.
  intros H. revert c; induction l as [|x l IH]; intros c; [done|]. cbn [foldl omap list_omap]. rewrite IH, H.
  by destruct (g x).
Qed.

Lemma apply_diff_registry old new c :
  hr_registry (diff old new c) = foldl run_op (hr_registry c) (diff_ops old new).
Proof.
  unfold apply_diff, diff_ops. cbv zeta. rewrite !foldl_app.
  rewrite (foldl_registry _ (change_op (site_map old) (site_map new))), (foldl_registry _ (add_op (site_map new))),
    (foldl_registry _ (remove_op (site_map old))); [done|..]; clear; intros c n.
  - unfold drop_site, remove_op. by destruct (site_map old !! n).
  - unfold add_site, add_op. by destruct (site_map new !! n).
  - unfold change_site, change_op. destruct (site_map old !! n), (site_map new !! n); try done. by destruct (site_changed ser _ _).
Qed.

Lemma omap_names (g : list Z → option reg_op) l :
  (∀ n o, g n = Some o → op_name o = n) → NoDup l →
  NoDup (op_name <$> omap g l) ∧ ∀ n, n ∈ op_name <$> omap g l → n ∈ l.
Proof.
  intros Hg Hnd. induction Hnd as [|x l Hx Hnd [IH1 IH2]]; [split; [constructor|done]|]. cbn [omap list_omap].
  destruct (g x) as [o|] eqn:E.
  - rewrite fmap_cons, (Hg x o E). split.
    + constructor; [|done]. intros H. by apply Hx, IH2.
    + intros n [->|H]%elem_of_cons; [by left|right; auto].
  - split; [done|]. intros n H. right. auto.
Qed.

Context (order_elements : ∀ X, order X ≡ₚ elements X).

Lemma elem_of_order X n : n ∈ order X ↔ n ∈ X.
Proof using order_elements. by rewrite order_elements, elem_of_elements. Qed.
Lemma NoDup_order X : NoDup (order X).
Proof using order_elements. rewrite order_elements. apply NoDup_elements. Qed.

Section one_reload.
Context (old new : list SiteFile) (Hold : NoDup (cf_name <$> old)) (Hnew : NoDup (cf_name <$> new))
  (Hser : ∀ a b, a ∈ old → b ∈ new → ser a = ser b → vhost_site a = vhost_site b).

Lemma op_names_of n o :
  (remove_op (site_map old) n = Some o → op_name o = n)
  ∧ (add_op (site_map new) n = Some o → op_name o = n) ∧ (change_op (site_map old) (site_map new) n = Some o → op_name o = n).
Proof using Hnew.
  split_and!.
  - unfold remove_op. destruct (site_map old !! n); [by intros [= <-]|done].
  - unfold add_op. intros (s & Hs & ->)%fmap_Some. by apply site_map_lookup in Hs as [_ ?].
  - unfold change_op. destruct (site_map old !! n) as [a|]; [|done]. destruct (site_map new !! n) as [s|] eqn:E; [|done].
    destruct (site_changed ser a s); [|done]. intros [= <-]. by apply site_map_lookup in E as [_ ?].
Qed.

Lemma diff_ops_nodup : NoDup (op_name <$> diff_ops old new).
Proof using order_elements Hold Hnew.
  clear Hser.
  unfold diff_ops. cbv zeta. rewrite !fmap_app.
  destruct (omap_names (remove_op (site_map old)) (order (dom (site_map old) ∖ dom (site_map new)))) as [H1 I1];
    [intros n o; apply (op_names_of n o)|apply NoDup_order|].
  destruct (omap_names (add_op (site_map new)) (order (dom (site_map new) ∖ dom (site_map old)))) as [H2 I2];
    [intros n o; apply (proj1 (proj2 (op_names_of n o)))|apply NoDup_order|].
  destruct (omap_names (change_op (site_map old) (site_map new)) (order (dom (site_map old) ∩ dom (site_map new)))) as [H3 I3];
    [intros n o; apply (proj2 (proj2 (op_names_of n o)))|apply NoDup_order|].
  apply NoDup_app. split_and!; [done| |apply NoDup_app; split_and!; [done| |done]].
  - intros n Hn%I1. rewrite elem_of_order in Hn. rewrite elem_of_app. intros [Hn'%I2|Hn'%I3]; rewrite elem_of_order in Hn'; set_solver.
  - intros n Hn%I2 Hn'%I3. rewrite elem_of_order in Hn, Hn'. set_solver.
Qed.

Lemma diff_ops_upserts c :
  OUpsert c ∈ diff_ops old new ↔ ∃ s, s ∈ new ∧ c = vhost_site s
    ∧ ∀ o, o ∈ old → cf_name o = cf_name s → site_changed ser o s = true.
Proof using order_elements Hold Hnew.
  clear Hser.
  unfold diff_ops. cbv zeta. rewrite !elem_of_app, !list_elem_of_omap. split.
  - intros [(n & _ & Hn)|[(n & Hin & Hn)|(n & Hin & Hn)]].
    + unfold remove_op in Hn. by destruct (site_map old !! n).
    + unfold add_op in Hn. apply fmap_Some in Hn as (s & Hs & [= ->]). apply site_map_lookup in Hs as [Hs Hname]; [|done].
      exists s. split_and!; [done..|]. intros o Ho Hon. exfalso. rewrite elem_of_order in Hin.
      apply elem_of_difference in Hin as [_ Hin]. apply Hin, elem_of_dom. exists o. apply site_map_lookup; [done|]. by rewrite Hon.
    + unfold change_op in Hn. destruct (site_map old !! n) as [o|] eqn:Eo; [|done]. destruct (site_map new !! n) as [s|] eqn:Es; [|done].
      destruct (site_changed ser o s) eqn:Ec; [|done]. injection Hn as <-. apply site_map_lookup in Es as [Hs Hname]; [|done].
      exists s. split_and!; [done..|]. intros o' Ho' Hon.
      assert (E : site_map old !! n = Some o') by (apply site_map_lookup; [done|]; by rewrite Hon). rewrite Eo in E. by injection E as <-.
  - intros (s & Hs & -> & Hch). assert (En : site_map new !! cf_name s = Some s) by (by apply site_map_lookup).
    right. destruct (site_map old !! cf_name s) as [o|] eqn:Eo.
    + right. exists (cf_name s). split; [apply elem_of_order, elem_of_intersection; split; apply elem_of_dom; eauto|].
      unfold change_op. rewrite Eo, En. apply site_map_lookup in Eo as [Ho Hon]; [|done]. by rewrite Hch.
    + left. exists (cf_name s). split; [apply elem_of_order, elem_of_difference; split; [apply elem_of_dom; eauto|by apply not_elem_of_dom]|].
      unfold add_op. by rewrite En.
Qed.

Lemma diff_ops_removes n : ORemove n ∈ diff_ops old new ↔ n ∈ cf_name <$> old ∧ n ∉ cf_name <$> new.
Proof using order_elements Hold Hnew.
  clear Hser.
  unfold diff_ops. cbv zeta. rewrite !elem_of_app, !list_elem_of_omap. split.
  - intros [(n' & Hin & Hn)|[(n' & _ & Hn)|(n' & _ & Hn)]].
    + unfold remove_op in Hn. destruct (site_map old !! n'); [|done]. injection Hn as ->. rewrite elem_of_order, elem_of_difference in Hin.
      by rewrite !elem_of_dom_site_map in Hin by done.
    + unfold add_op in Hn. by apply fmap_Some in Hn as (? & _ & ?).
    + unfold change_op in Hn. repeat (case_match; try done).
  - intros [Ho Hn]. left. exists n. split; [rewrite elem_of_order, elem_of_difference, !elem_of_dom_site_map by done; done|].
    unfold remove_op. rewrite <- elem_of_dom_site_map, elem_of_dom in Ho by done. destruct Ho as [s ->]. done.
Qed.

Lemma unchanged_same o s : o ∈ old → s ∈ new → site_changed ser o s = false → vhost_site o = vhost_site s.
Proof using Hser. intros Ho Hs Hc. apply Hser; [done..|]. unfold site_changed in Hc. by case_bool_decide. Qed.

(** A pair of versions of a site that differ is registered again; one that does
    not is left alone. *)
Lemma diff_ops_changed o s :
  o ∈ old → s ∈ new → cf_name o = cf_name s → OUpsert (vhost_site s) ∈ diff_ops old new ∨ site_changed ser o s = false.
Proof using order_elements Hold Hnew Hser.
  intros Ho Hs Hn. destruct (site_changed ser o s) eqn:Ec; [|by right]. left. apply diff_ops_upserts. exists s.
  split_and!; [done..|]. intros o' Ho' Hn'. by rewrite (unique_name old o' o) by (done || congruence).
Qed.

Lemma diff_ops_new c :
  c ∈ vhost_site <$> new → OUpsert c ∈ diff_ops old new ∨ c ∈ vhost_site <$> old ∧ sc_name c ∉ op_name <$> diff_ops old new.
Proof using order_elements Hold Hnew Hser.
  intros (s & -> & Hs)%list_elem_of_fmap. destruct (site_map old !! cf_name s) as [o|] eqn:Eo.
  - apply site_map_lookup in Eo as [Ho Hon]; [|done]. destruct (diff_ops_changed o s) as [Hu|Hc]; [done..|by left|]. right.
    split; [rewrite <- (unchanged_same o s) by done; by apply list_elem_of_fmap_2|]. intros (op & Hop & Hin)%list_elem_of_fmap.
    destruct op as [n|c]; cbn [op_name] in Hop; change (sc_name (vhost_site s)) with (cf_name s) in Hop.
    + apply diff_ops_removes in Hin as [_ Hin]. apply Hin. rewrite <- Hop. by apply list_elem_of_fmap_2.
    + apply diff_ops_upserts in Hin as (s' & Hs' & -> & Hch). change (cf_name s = cf_name s') in Hop.
      assert (s' = s) as -> by (apply (unique_name new); done || congruence). by rewrite (Hch o) in Hc by (done || congruence).
  - left. apply diff_ops_upserts. exists s. split_and!; [done..|]. intros o Ho Hon. exfalso.
    assert (site_map old !! cf_name s = Some o); [by apply site_map_lookup|congruence].
Qed.

Lemma diff_ops_old c : c ∈ vhost_site <$> old → sc_name c ∉ op_name <$> diff_ops old new → c ∈ vhost_site <$> new.
Proof using order_elements Hold Hnew Hser.
  intros (o & -> & Ho)%list_elem_of_fmap Hn. change (sc_name (vhost_site o)) with (cf_name o) in Hn.
  destruct (site_map new !! cf_name o) as [s|] eqn:Es.
  - apply site_map_lookup in Es as [Hs Hsn]; [|done]. destruct (diff_ops_changed o s) as [Hu|Hc]; [done..| |].
    + exfalso. apply Hn, list_elem_of_fmap. by exists (OUpsert (vhost_site s)).
    + rewrite (unchanged_same o s) by done. by apply list_elem_of_fmap_2.
  - exfalso. apply Hn, list_elem_of_fmap. exists (ORemove (cf_name o)). split; [done|]. apply diff_ops_removes.
    split; [by apply list_elem_of_fmap_2|]. rewrite <- elem_of_dom_site_map by done. by apply not_elem_of_dom.
Qed.

Lemma diff_reload_ops : reload_ops (vhost_site <$> old) (vhost_site <$> new) (diff_ops old new).
Proof using order_elements Hold Hnew Hser.
  split; [apply diff_ops_nodup| |apply diff_ops_new|apply diff_ops_old|].
  - intros c (s & Hs & -> & _)%diff_ops_upserts. by apply list_elem_of_fmap_2.
  - intros c (o & -> & Ho)%list_elem_of_fmap Hn. apply diff_ops_removes. rewrite names_vhost in Hn.
    split; [by apply (list_elem_of_fmap_2 cf_name)|done].
Qed.

End one_reload.

(** What a reload from one configuration to the next assumes of them: site names are distinct, no host,
    wildcard or fallback is claimed twice, configurations that are written alike are alike, and a
    fallback site that stays leaves a fallback. *)
Definition reloadable (old new : list SiteFile) : Prop :=
  conflict_free (vhost_site <$> old) ∧ conflict_free (vhost_site <$> new)
  ∧ (∀ a b, a ∈ old → b ∈ new → ser a = ser b → vhost_site a = vhost_site b)
  ∧ (∀ a, a ∈ old → cf_fallback a = true → cf_name a ∈ cf_name <$> new → Exists (λ b, cf_fallback b = true) new).

Lemma reload_registry old new c :
  reloadable old new → bare_registry (hr_registry c) = registry_from_config build to_lowercase canonicalize (vhost_site <$> old) →
  bare_registry (hr_registry (diff old new c)) = registry_from_config build to_lowercase canonicalize (vhost_site <$> new).
Proof using order_elements.
  intros (Ho & Hn & Hser & Hfb) Hreg. rewrite apply_diff_registry, bare_ops, Hreg. apply reloaded_registry; [done..| |].
  - intros a' (a & -> & Ha)%list_elem_of_fmap Hf Hin. rewrite names_vhost in Hin.
    apply Exists_fmap. apply (Hfb a Ha Hf Hin).
  - apply diff_reload_ops; [..|done]; [destruct Ho as [Ho _]|destruct Hn as [Hn _]]; by rewrite names_vhost in *.
Qed.

(** C3: Reloading is starting afresh.  A server runs with the registry of the old configuration, with
    whatever logs and caches attached to its sites.  When the old and the new configuration each have
    distinct site names and no host, wildcard or fallback claimed twice, sites that are written alike
    are alike, and a fallback site that stays leaves a fallback, then after a reload every host is
    answered by the site, with all its settings, that a server started with the new configuration
    answers it by, whatever order the sites are visited in; hosts may move between sites.  The logs and
    caches attached to the sites are left out of the comparison: a site that came or changed has none
    ([reload_drops_resources]). *)
Theorem reload_is_fresh_start old new c host :
  reloadable old new →
  bare_registry (hr_registry c) = registry_from_config build to_lowercase canonicalize (vhost_site <$> old) →
  bare <$> lookup_inner (hr_registry (diff old new c)) host
  = lookup_inner (registry_from_config build to_lowercase canonicalize (vhost_site <$> new)) host.
Proof using order_elements. intros Hre Hreg. by rewrite <- bare_lookup, (reload_registry old new). Qed.

(** A site that cannot be written as TOML is never reloaded.  The comparison turns a failure to
    serialise into the same value on both sides: when the old and the new version of a site both fail,
    its registration stays the old one, whatever changed in it. *)
Theorem unwritable_site_not_reloaded o s c :
  cf_name o = cf_name s → ser o = None → ser s = None → hr_registry (diff [o] [s] c) = hr_registry c.
Proof using order_elements.
  intros Hn Ho Hs. rewrite apply_diff_registry.
  assert (H : diff_ops [o] [s] = []); [|by rewrite H].
  destruct (diff_ops [o] [s]) as [|op ops] eqn:E; [done|exfalso].
  assert (Hin : op ∈ diff_ops [o] [s]) by (rewrite E; by left).
  destruct op as [n|cfg].
  - apply diff_ops_removes in Hin as [H1 H2]; [|apply NoDup_singleton..].
    cbn in H1, H2. rewrite Hn in H1. by apply H2.
  - apply diff_ops_upserts in Hin as (x & Hx & -> & Hc); [|apply NoDup_singleton..].
    apply list_elem_of_singleton in Hx as ->.
    specialize (Hc o ltac:(by left) Hn). unfold site_changed in Hc. by rewrite Ho, Hs, bool_decide_true in Hc.
Qed.

(** A reload drops what was attached to a site.  Whatever access log and caches a site had been given
    at start-up, after a reload that adds or changes the site, the hosts it lists are answered without
    an access log, without a proxy cache and without a FastCGI cache. *)
Theorem reload_drops_resources old new c s h :
  conflict_free (vhost_site <$> new) → NoDup (cf_name <$> old) → s ∈ new →
  (∀ o, o ∈ old → cf_name o = cf_name s → site_changed ser o s = true) →
  h ∈ exact_names to_lowercase (vhost_site s) →
  ∃ i, exact (hr_registry (diff old new c)) !! h = Some i ∧ si_name i = cf_name s
    ∧ si_access_logger i = None ∧ si_proxy_cache i = None ∧ si_fcgi_cache i = None.
Proof using order_elements.
  intros (Hn & Hu & _) Ho Hs Hch Hh. rewrite names_vhost in Hn. exists (info (vhost_site s)). split; [|done].
  rewrite apply_diff_registry. apply (ops_upserted exact (exact_names to_lowercase) exact_table).
  - by apply diff_ops_nodup.
  - apply diff_ops_upserts; [done..|]. by exists s.
  - exact Hh.
  - intros c' Hc' Hh'. apply diff_ops_upserts in Hc' as (s' & Hs' & -> & _); [|done..].
    apply (Hu _ _ h); [by apply list_elem_of_fmap_2..|done|done].
Qed.

Lemma foldl_resolvers_same {X} (step : ReloadCtx (R := R) (CK := CK) → X → ReloadCtx) (l : list X) c :
  (∀ c x, x ∈ l → hr_resolvers (step c x) = hr_resolvers c) → hr_resolvers (foldl step c l) = hr_resolvers c.
Proof.
  revert c; induction l as [|x l IH]; intros c H; [done|]. cbn [foldl]. rewrite IH; [by apply H; left|].
  intros c' y Hy. apply H. by right.
Qed.

(** A reload forgets certificates for new names.  When no site comes or goes and no TLS section
    changes, the certificate tables stay as they are: server names added to a site, or TLS ports, get no
    certificate of that site until a restart. *)
Theorem reload_keeps_certificates old new c :
  dom (site_map old) = dom (site_map new) →
  (∀ n o s, site_map old !! n = Some o → site_map new !! n = Some s → ser_tls (cf_tls o) = ser_tls (cf_tls s)) →
  hr_resolvers (diff old new c) = hr_resolvers c.
Proof using order_elements.
  intros Hdom Htls. unfold apply_diff. cbv zeta. rewrite Hdom, difference_diag_L.
  assert (Hnil : order (∅ : gset (list Z)) = []) by (apply Permutation_nil_r; rewrite order_elements; by rewrite elements_empty).
  rewrite Hnil. cbn [foldl]. rewrite foldl_resolvers_same; [done|]. intros c' n _. unfold change_site.
  destruct (site_map old !! n) as [o|] eqn:Eo; [|done]. destruct (site_map new !! n) as [s|] eqn:Es; [|done].
  destruct (site_changed ser o s); [|done]. cbn [update hr_resolvers]. unfold tls_changed.
  by rewrite (bool_decide_true (ser_tls (cf_tls o) = ser_tls (cf_tls s))) by (by apply (Htls n)).
Qed.

Notation turn := (reload_event build to_lowercase canonicalize first certified_keys check_keys ser ser_tls order).

Lemma apply_diff_cfg old new c : hr_cfg (diff old new c) = new.
Proof.
  unfold apply_diff. cbv zeta.
  assert (Hf : ∀ X (step : ReloadCtx (R := R) (CK := CK) → X → ReloadCtx) l c,
    (∀ c x, hr_cfg (step c x) = hr_cfg c) → hr_cfg (foldl step c l) = hr_cfg c).
  { intros X step l. induction l as [|x l IH]; intros c0 H; [done|]. cbn [foldl]. by rewrite IH, H. }
  rewrite !Hf; [done|..]; intros c0 n; unfold drop_site, add_site, change_site; repeat case_match; done.
Qed.

(** C27: The active configuration is always valid.  Whatever happens to the configuration file (saved with
    errors, deleted, naming certificates that do not load), an event that fails a check changes nothing
    at all, and the configuration in force passes every check. *)
Theorem active_config_valid c events :
  Forall site_ok (hr_cfg c) → preflight_tls check_keys (hr_cfg c) = true →
  let c' := foldl turn c events in
  Forall site_ok (hr_cfg c') ∧ preflight_tls check_keys (hr_cfg c') = true
  ∧ ∀ e, (ev_removed e = true ∨ ev_exists e = false ∨ load_config (ev_parsed e) = None
          ∨ (∀ new, load_config (ev_parsed e) = Some new → preflight_tls check_keys new = false)) → turn c' e = c'.
Proof.
  intros Hok Hpre. cbv zeta. split_and!.
  1,2: revert c Hok Hpre; induction events as [|e events IH]; intros c Hok Hpre; [done|]; cbn [foldl]; apply IH;
    unfold reload_event; (case_match; [done|]); destruct (load_config (ev_parsed e)) as [new|] eqn:El; try done;
    destruct (validate_config new); try done; destruct (preflight_tls check_keys new) eqn:Ep; try done; rewrite apply_diff_cfg; try done;
    apply load_config_ok in El; done.
  intros e He. unfold reload_event. destruct He as [->|[->|[->|He]]]; [done|by rewrite orb_true_r|by destruct (_ || _)|].
  destruct (_ || _); [done|]. destruct (load_config (ev_parsed e)) as [new|]; [|done]. destruct (validate_config new); [done|].
  by rewrite He.
Qed.

End correct.

(** ** Witnesses *)

Module Witness.
Import Headers.Model.

Definition bld (p : list Z) : option unit := None.
Definition canon (p : list Z) : option (list (list Z)) := None.
Definition fst_val (m : gmap (list Z) (list Z)) : option (list Z) := snd <$> head (map_to_list m).
Definition keys (t : TlsConfig) (names : list (list Z)) : list Z := [7].
Definition ser (s : SiteFile) : option (list Z) := Some (cf_name s ++ concat (cf_server_name s)).
Definition ser_tls (t : option TlsConfig) : option (list Z) := t ≫= tls_cert.

Definition site (name : string) (hosts : list string) : SiteFile :=
  mkFile (lit name) (lit <$> hosts) [80] [443] None [] None None [] [] [] None false false None ∅ None None None true (mkSC (mkSiteCompress None None None None None None None) None None) None.
Definition old : list SiteFile := [site "a" ["a.test"]%string; site "b" ["b.test"]%string].
Definition new : list SiteFile := [site "a" ["a.test"; "b.test"]%string; site "c" ["*.c.test"]%string].

Notation reg := (registry_from_config bld to_ascii_lowercase canon).
Definition ctx : ReloadCtx (CK := Z) := mkCtx (reg (vhost_site <$> old)) ∅ old (mkMetaCache ∅ 0).
Notation after := (apply_diff bld to_ascii_lowercase canon fst_val keys ser ser_tls elements old new ctx).

(** Case analysis on membership in literal lists. *)
Ltac members := repeat match goal with
  | H : _ ∈ [] |- _ => by apply elem_of_nil in H
  | H : _ ∈ _ :: _ |- _ => let E := fresh in apply elem_of_cons in H as [E|H]; [first [discriminate E | rewrite E in * | idtac]; try clear E|]
  end.

Lemma old_conflict_free : conflict_free to_ascii_lowercase (vhost_site <$> old).
Proof.
  split_and!; [apply (bool_decide_unpack _); by vm_compute| | |]; intros a b; intros; cbn [old fmap list_fmap] in *; members; try done;
    repeat match goal with H : _ ∈ _ |- _ => vm_compute in H end;
    repeat match goal with H : list_elem_of _ _ |- _ => inversion H; clear H; subst | H : _ ∈ _ |- _ => inversion H; clear H; subst end.
Qed.

Lemma new_conflict_free : conflict_free to_ascii_lowercase (vhost_site <$> new).
Proof.
  split_and!; [apply (bool_decide_unpack _); by vm_compute| | |]; intros a b; intros; cbn [new fmap list_fmap] in *; members; try done;
    repeat match goal with H : _ ∈ _ |- _ => vm_compute in H end;
    repeat match goal with H : list_elem_of _ _ |- _ => inversion H; clear H; subst | H : _ ∈ _ |- _ => inversion H; clear H; subst end.
Qed.

(** The access log of site [a] is attached when the reload comes. *)
Definition running : ReloadCtx (CK := Z) :=
  mkCtx (inject_site_resources (reg (vhost_site <$> old)) [lit "a.test"] (lit "a") (Some 1) None None) ∅ old (mkMetaCache ∅ 0).

Lemma reload_is_fresh_start_witness :
  bare <$> lookup_inner (hr_registry (apply_diff bld to_ascii_lowercase canon fst_val keys ser ser_tls elements old new running)) (lit "b.test") = lookup_inner (reg (vhost_site <$> new)) (lit "b.test").
Proof.
  apply (reload_is_fresh_start bld to_ascii_lowercase canon fst_val keys ser ser_tls elements (λ X, reflexivity _) old new running (lit "b.test"));
    [split_and!; [exact old_conflict_free|exact new_conflict_free| |]|by vm_compute].
  - intros a b Ha Hb He. unfold old, new in *. members; vm_compute in He; discriminate He.
  - intros a Ha Hf. unfold old in *. members; discriminate Hf.
Defined.

Lemma reload_drops_resources_witness :
  ∃ i, exact (hr_registry after) !! lit "a.test" = Some i ∧ si_access_logger i = None.
Proof.
  destruct (reload_drops_resources bld to_ascii_lowercase canon fst_val keys ser ser_tls elements (λ X, reflexivity _) old new ctx
              (site "a" ["a.test"; "b.test"]%string) (lit "a.test")) as (i & H1 & _ & H2 & _).
  - exact new_conflict_free.
  - apply (bool_decide_unpack _). by vm_compute.
  - by left.
  - intros o Ho Hn. unfold old in Ho. members; [by vm_compute|vm_compute in Hn; discriminate Hn].
  - apply (bool_decide_unpack _). by vm_compute.
  - exists i. split; assumption.
Defined.

Definition renamed : list SiteFile := [site "a" ["a.test"; "new.test"]%string; site "b" ["b.test"]%string].

Lemma reload_keeps_certificates_witness :
  hr_resolvers (apply_diff bld to_ascii_lowercase canon fst_val keys ser ser_tls elements old renamed ctx) = ∅.
Proof.
  apply (reload_keeps_certificates bld to_ascii_lowercase canon fst_val keys ser ser_tls elements (λ X, reflexivity _) old renamed ctx).
  - by vm_compute.
  - intros n o s Ho Hs. apply site_map_lookup in Ho as [Ho _]; [|apply (bool_decide_unpack _); by vm_compute].
    apply site_map_lookup in Hs as [Hs _]; [|apply (bool_decide_unpack _); by vm_compute]. unfold old, renamed in *. members; reflexivity.
Defined.

Lemma active_config_valid_witness :
  Forall site_ok (hr_cfg (foldl (reload_event bld to_ascii_lowercase canon fst_val keys keys ser ser_tls elements) ctx
    [mkEvent false true (Some new); mkEvent true false None; mkEvent false true None])).
Proof.
  apply (active_config_valid bld to_ascii_lowercase canon fst_val keys keys ser ser_tls elements ctx
    [mkEvent false true (Some new); mkEvent true false None; mkEvent false true None]); [|reflexivity].
  repeat constructor; done.
Defined.

End Witness.
