(* ===== verification/Json.v ===== *)
(** * The configuration tree

    JSON values as [serde_json] holds them (objects are ordered maps), and the
    operations of src/admin_api/handlers/config.rs on them: navigation by path
    segments, the edits of POST, PUT, PATCH and DELETE, and the search for a
    node by its identifier.  A mutable borrow of a node is the node with the
    function that puts a new value in its place. *)

From S2P Require Import Prelude RustStr.

(** ** Values *)

Inductive Number := PosInt (n : Z) | NegInt (n : Z) | Float (bits : Z).

Inductive Value :=
| JNull
| JBool (b : bool)
| JNumber (n : Number)
| JString (s : list Z)
| JArray (l : list Value)
| JObject (m : list (list Z * Value)).

(** [BTreeMap]: members in the order of their keys. *)
Fixpoint key_lt (a b : list Z) : bool :=
  match a, b with
  | _, [] => false
  | [], _ :: _ => true
  | x :: a, y :: b => (x <? y) || (x =? y) && key_lt a b
  end.

Fixpoint obj_get (k : list Z) (m : list (list Z * Value)) : option Value :=
  match m with
  | [] => None
  | (k', v) :: m => if str_eqb k k' then Some v else obj_get k m
  end.

Fixpoint obj_insert (k : list Z) (v : Value) (m : list (list Z * Value)) : list (list Z * Value) :=
  match m with
  | [] => [(k, v)]
  | (k', v') :: m =>
      if str_eqb k k' then (k, v) :: m
      else if key_lt k k' then (k, v) :: (k', v') :: m
      else (k', v') :: obj_insert k v m
  end.

Fixpoint obj_remove (k : list Z) (m : list (list Z * Value)) : option (list (list Z * Value)) :=
  match m with
  | [] => None
  | (k', v) :: m => if str_eqb k k' then Some m else cons (k', v) <$> obj_remove k m
  end.

(** Writing through [get_mut]. *)
Fixpoint obj_set (k : list Z) (v : Value) (m : list (list Z * Value)) : list (list Z * Value) :=
  match m with
  | [] => []
  | (k', v') :: m => if str_eqb k k' then (k', v) :: m else (k', v') :: obj_set k v m
  end.

(** ** Navigation *)

Definition arr_get (seg : list Z) (l : list Value) : option (nat * Value) :=
  match parse_uint usize_max seg with
  | Some i => if i <? Z.of_nat (length l) then (λ v, (Z.to_nat i, v)) <$> l !! Z.to_nat i else None
  | None => None
  end.

Fixpoint json_navigate (root : Value) (segments : list (list Z)) : option Value :=
  match segments with
  | [] => Some root
  | seg :: segments =>
      if bool_decide (seg = []) then json_navigate root segments
      else match root with
           | JObject m => match obj_get seg m with Some v => json_navigate v segments | None => None end
           | JArray l => match arr_get seg l with Some (_, v) => json_navigate v segments | None => None end
           | _ => None
           end
  end.

Fixpoint json_navigate_mut (root : Value) (segments : list (list Z)) : option (Value * (Value → Value)) :=
  match segments with
  | [] => Some (root, λ x, x)
  | seg :: segments =>
      if bool_decide (seg = []) then json_navigate_mut root segments
      else match root with
           | JObject m =>
               match obj_get seg m with
               | Some v => '(t, put) ← json_navigate_mut v segments; Some (t, λ x, JObject (obj_set seg (put x) m))
               | None => None
               end
           | JArray l =>
               match arr_get seg l with
               | Some (i, v) => '(t, put) ← json_navigate_mut v segments; Some (t, λ x, JArray (<[i := put x]> l))
               | None => None
               end
           | _ => None
           end
  end.

(** ** Edits *)

Inductive tree_error := BadIndex | OutOfBounds | KeyExists | NotContainer | NotPresent | NoSuchKey.

Definition post_edit (value target : Value) : result Value tree_error :=
  match target, value with
  | JArray l, _ => Ok (JArray (l ++ [value]))
  | JObject m, JObject kvs => Ok (JObject (foldl (λ m '(k, v), obj_insert k v m) m kvs))
  | _, _ => Ok value
  end.

Definition put_edit (value : Value) (last : list Z) (parent : Value) : result Value tree_error :=
  match parent with
  | JArray l =>
      match parse_uint usize_max last with
      | None => Err BadIndex
      | Some i => if Z.of_nat (length l) <? i then Err OutOfBounds
                  else Ok (JArray (take (Z.to_nat i) l ++ value :: drop (Z.to_nat i) l))
      end
  | JObject m =>
      match obj_get last m with
      | Some _ => Err KeyExists
      | None => Ok (JObject (obj_insert last value m))
      end
  | _ => Err NotContainer
  end.

Definition patch_edit (value target : Value) : result Value tree_error :=
  match target with JNull => Err NotPresent | _ => Ok value end.

Definition delete_edit (last : list Z) (parent : Value) : result Value tree_error :=
  match parent with
  | JObject m => match obj_remove last m with Some m' => Ok (JObject m') | None => Err NoSuchKey end
  | JArray l =>
      match parse_uint usize_max last with
      | None => Err BadIndex
      | Some i => if Z.of_nat (length l) <=? i then Err OutOfBounds else Ok (JArray (delete (Z.to_nat i) l))
      end
  | _ => Err NotContainer
  end.

(** ** Search by identifier *)

Definition has_id (id : list Z) (v : Value) : bool :=
  match v with
  | JObject m => match obj_get (lit "@id") m with Some (JString s) => str_eqb s id | _ => false end
  | _ => false
  end.

Fixpoint find_by_id (id : list Z) (v : Value) : option Value :=
  if has_id id v then Some v
  else match v with
       | JObject m =>
           (fix go m := match m with
                        | [] => None
                        | (_, x) :: m => match find_by_id id x with Some r => Some r | None => go m end
                        end) m
       | JArray l =>
           (fix go l := match l with
                        | [] => None
                        | x :: l => match find_by_id id x with Some r => Some r | None => go l end
                        end) l
       | _ => None
       end.

(** ** Members *)

Lemma obj_get_insert k v m : obj_get k (obj_insert k v m) = Some v.
Proof.
  induction m as [|[k' v'] m IH]; cbn [obj_insert obj_get]; [by rewrite str_eqb_refl|].
  destruct (str_eqb k k') eqn:E; [cbn [obj_get]; by rewrite str_eqb_refl|].
  destruct (key_lt k k'); cbn [obj_get]; [by rewrite str_eqb_refl|by rewrite E].
Qed.

Lemma obj_get_insert_ne k k' v m : k' ≠ k → obj_get k' (obj_insert k v m) = obj_get k' m.
Proof.
  intros Hne. assert (E : str_eqb k' k = false) by (apply not_true_is_false; by rewrite str_eqb_eq).
  induction m as [|[j w] m IH]; cbn [obj_insert obj_get]; [by rewrite E|].
  destruct (str_eqb k j) eqn:Ej.
  - apply str_eqb_eq in Ej as <-. cbn [obj_get]. by rewrite E.
  - destruct (key_lt k j); cbn [obj_get]; rewrite ?E; [done|]. by rewrite IH.
Qed.

Lemma obj_remove_insert k v m : obj_get k m = None → obj_remove k (obj_insert k v m) = Some m.
Proof.
  induction m as [|[j w] m IH]; cbn [obj_insert obj_get obj_remove]; [by rewrite str_eqb_refl|].
  destruct (str_eqb k j) eqn:Ej; [done|]. intros Hm.
  destruct (key_lt k j); cbn [obj_remove]; [by rewrite str_eqb_refl|]. by rewrite Ej, IH.
Qed.

Lemma obj_get_set k v w m : obj_get k m = Some w → obj_get k (obj_set k v m) = Some v.
Proof.
  induction m as [|[j u] m IH]; cbn [obj_set obj_get]; [done|].
  destruct (str_eqb k j) eqn:E; cbn [obj_get]; rewrite E; [done|exact IH].
Qed.

Lemma obj_get_set_ne k k' v m : k' ≠ k → obj_get k' (obj_set k v m) = obj_get k' m.
Proof.
  intros Hne. induction m as [|[j u] m IH]; cbn [obj_set obj_get]; [done|].
  destruct (str_eqb k j) eqn:E; cbn [obj_get]; [|by rewrite IH].
  apply str_eqb_eq in E as <-. by destruct (str_eqb k' k) eqn:E'; [apply str_eqb_eq in E'|].
Qed.

Lemma obj_set_get k v m : obj_get k m = Some v → obj_set k v m = m.
Proof.
  induction m as [|[j u] m IH]; cbn [obj_set obj_get]; [done|].
  destruct (str_eqb k j) eqn:E; [by intros [= ->]|]. intros H. by rewrite IH.
Qed.

Lemma arr_get_Some seg l i v :
  arr_get seg l = Some (i, v) →
  l !! i = Some v ∧ ∃ z, parse_uint usize_max seg = Some z ∧ Z.to_nat z = i ∧ z < Z.of_nat (length l).
Proof.
  unfold arr_get. destruct (parse_uint usize_max seg) as [z|]; [|done]. destruct (z <? _) eqn:E; [|done].
  destruct (l !! Z.to_nat z) eqn:El; intros [= <- <-]. split; [done|]. exists z. split_and!; [done|done|lia].
Qed.

Lemma arr_get_insert seg l i v x : arr_get seg l = Some (i, v) → arr_get seg (<[i := x]> l) = Some (i, x).
Proof.
  intros (Hl & z & Hz & Hi & Hlt)%arr_get_Some. unfold arr_get. rewrite Hz, length_insert.
  rewrite (proj2 (Z.ltb_lt _ _) Hlt), Hi, list_lookup_insert_eq; [done|]. by apply lookup_lt_Some in Hl.
Qed.

(** ** A borrowed node is a lens *)

Lemma mut_navigate root segs t put :
  json_navigate_mut root segs = Some (t, put) →
  json_navigate root segs = Some t ∧ put t = root ∧ ∀ x rest, json_navigate (put x) (segs ++ rest) = json_navigate x rest.
Proof.
  revert root t put. induction segs as [|seg segs IH]; intros root t put; [by intros [= <- <-]|].
  cbn [json_navigate_mut json_navigate app]. case_bool_decide as Hs; [apply IH|].
  destruct root as [| | | |l|m]; try done.
  - destruct (arr_get seg l) as [[i v]|] eqn:Ea; [|done]. destruct (json_navigate_mut v segs) as [[t' p]|] eqn:En; [|done].
    intros [= <- <-]. destruct (IH _ _ _ En) as (H1 & H2 & H3). split_and!; [done| |].
    + rewrite H2. f_equal. apply list_insert_id. by apply arr_get_Some in Ea as [? _].
    + intros x rest. by rewrite (arr_get_insert _ _ _ _ _ Ea).
  - destruct (obj_get seg m) as [v|] eqn:Eg; [|done]. destruct (json_navigate_mut v segs) as [[t' p]|] eqn:En; [|done].
    intros [= <- <-]. destruct (IH _ _ _ En) as (H1 & H2 & H3). split_and!; [done| |].
    + rewrite H2. f_equal. by apply obj_set_get.
    + intros x rest. by rewrite (obj_get_set _ _ _ _ Eg).
Qed.

Lemma navigate_mut root segs t :
  json_navigate root segs = Some t → ∃ put, json_navigate_mut root segs = Some (t, put).
Proof.
  revert root. induction segs as [|seg segs IH]; intros root; cbn [json_navigate json_navigate_mut]; [intros [= <-]; by eexists|].
  case_bool_decide; [apply IH|]. destruct root as [| | | |l|m]; try done.
  - destruct (arr_get seg l) as [[i v]|]; [|done]. intros [put ->]%IH. by eexists.
  - destruct (obj_get seg m) as [v|]; [|done]. intros [put ->]%IH. by eexists.
Qed.

(** *** Paths that lead apart *)

Definition same_step (p q : list Z) : bool :=
  str_eqb p q || match parse_uint usize_max p, parse_uint usize_max q with Some i, Some j => i =? j | _, _ => false end.

Fixpoint diverge (a b : list (list Z)) : Prop :=
  match a, b with
  | [] :: a, _ => diverge a b
  | p :: a, q :: b => q ≠ [] ∧ (same_step p q = false ∨ p = q ∧ diverge a b)
  | _, _ => False
  end.

Lemma navigate_put_other root segs other t put x :
  json_navigate_mut root segs = Some (t, put) → diverge segs other →
  json_navigate (put x) other = json_navigate root other.
Proof.
  revert root other t put. induction segs as [|seg segs IH]; intros root other t put; [by destruct other|].
  cbn [json_navigate_mut]. destruct seg as [|c seg]; [rewrite bool_decide_true by done; apply IH|].
  rewrite bool_decide_false by done. destruct other as [|q other]; [done|]. cbn [diverge].
  intros Hm [Hq Hd]. cbn [json_navigate]. rewrite (bool_decide_false (q = [])) by done.
  destruct root as [| | | |l|m]; try done.
  - destruct (arr_get (c :: seg) l) as [[i v]|] eqn:Ea; [|done]. destruct (json_navigate_mut v segs) as [[t' p]|] eqn:En; [|done].
    injection Hm as <- <-. destruct Hd as [Hd|[<- Hd]].
    + apply arr_get_Some in Ea as (Hl & z & Hz & Hi & Hlt). unfold same_step in Hd. apply orb_false_iff in Hd as [_ Hd].
      rewrite Hz in Hd. unfold arr_get. destruct (parse_uint usize_max q) as [j|] eqn:Ej; [|done]. rewrite length_insert.
      destruct (j <? _) eqn:Ej'; [|done]. apply parse_uint_bound in Hz, Ej; [|done..].
      rewrite list_lookup_insert_ne by lia. done.
    + rewrite Ea, (arr_get_insert _ _ _ _ _ Ea). by eapply IH.
  - destruct (obj_get (c :: seg) m) as [v|] eqn:Eg; [|done]. destruct (json_navigate_mut v segs) as [[t' p]|] eqn:En; [|done].
    injection Hm as <- <-. destruct Hd as [Hd|[<- Hd]].
    + rewrite obj_get_set_ne; [done|]. intros ->. unfold same_step in Hd. by rewrite str_eqb_refl in Hd.
    + rewrite Eg, (obj_get_set _ _ _ _ Eg). by eapply IH.
Qed.

(** ** Edits are exact *)

Lemma usize_index seg i : parse_uint usize_max seg = Some i → 0 ≤ i.
Proof. intros H. apply parse_uint_bound in H; [lia|done]. Qed.

Lemma put_edit_reads value last parent parent' :
  put_edit value last parent = Ok parent' → last ≠ [] → json_navigate parent' [last] = Some value.
Proof.
  intros H Hl. destruct parent as [| | | |l|m]; try done; cbn [put_edit] in H.
  - destruct (parse_uint usize_max last) as [i|] eqn:Ei; [|done]. destruct (_ <? i) eqn:El; [done|]. injection H as <-.
    pose proof (usize_index _ _ Ei). cbn [json_navigate]. rewrite bool_decide_false by done.
    unfold arr_get. rewrite Ei, length_app, length_take. cbn [length]. rewrite length_drop.
    rewrite (proj2 (Z.ltb_lt _ _)) by lia.
    rewrite lookup_app_r, length_take, Nat.min_l, Nat.sub_diag by (rewrite ?length_take; lia). done.
  - destruct (obj_get last m) eqn:Eg; [done|]. injection H as <-. cbn [json_navigate]. rewrite bool_decide_false by done.
    by rewrite obj_get_insert.
Qed.

Lemma delete_insert_at {A} (l : list A) i x : (i ≤ length l)%nat → delete i (take i l ++ x :: drop i l) = l.
Proof.
  intros H. rewrite delete_take_drop, take_app_le, take_take, Nat.min_id by (rewrite length_take; lia).
  rewrite drop_app_ge, length_take, Nat.min_l by (rewrite ?length_take; lia).
  replace (S i - i)%nat with 1%nat by lia. cbn [drop]. by rewrite drop_0, take_drop.
Qed.

Lemma delete_put_edit value last parent parent' :
  put_edit value last parent = Ok parent' → delete_edit last parent' = Ok parent.
Proof.
  intros H. destruct parent as [| | | |l|m]; try done; cbn [put_edit] in H.
  - destruct (parse_uint usize_max last) as [i|] eqn:Ei; [|done]. destruct (_ <? i) eqn:El; [done|]. injection H as <-.
    pose proof (usize_index _ _ Ei). cbn [delete_edit].
    rewrite Ei, length_app, length_take. cbn [length]. rewrite length_drop, (proj2 (Z.leb_gt _ _)) by lia.
    by rewrite delete_insert_at by lia.
  - destruct (obj_get last m) eqn:Eg; [done|]. injection H as <-. cbn [delete_edit]. by rewrite obj_remove_insert.
Qed.

(** Creating a node is exact.  After a successful PUT the value is found under its path, every path
    that leads elsewhere reads as before, and deleting the node again restores the tree. *)
Theorem put_exact root parent_segs parent put value last parent' :
  json_navigate_mut root parent_segs = Some (parent, put) → put_edit value last parent = Ok parent' → last ≠ [] →
  json_navigate (put parent') (parent_segs ++ [last]) = Some value
  ∧ (∀ other, diverge parent_segs other → json_navigate (put parent') other = json_navigate root other)
  ∧ ∃ put', json_navigate_mut (put parent') parent_segs = Some (parent', put') ∧ delete_edit last parent' = Ok parent.
Proof.
  intros Hm Hp Hl. destruct (mut_navigate _ _ _ _ Hm) as (H1 & H2 & H3). split_and!.
  - rewrite H3. by eapply put_edit_reads.
  - intros other Hd. by eapply navigate_put_other.
  - pose proof (H3 parent' []) as Hn. rewrite app_nil_r in Hn. destruct (navigate_mut _ _ _ Hn) as [put' Hput'].
    exists put'. split; [done|]. by eapply delete_put_edit.
Qed.

(** A path with a trailing slash names the empty key: PUT then creates a member with an empty name,
    which no configuration field reads, and which no path can name again. *)
Theorem trailing_slash_creates_empty_key value m v' :
  put_edit value [] (JObject m) = Ok v' → v' = JObject (obj_insert [] value m) ∧ json_navigate v' [[]] = Some v'.
Proof. cbn [put_edit]. destruct (obj_get [] m); [done|]. by intros [= <-]. Qed.

(** Merging by POST: members of the body replace or join those of the
    object, all others stay. *)
Lemma post_merge m kvs k :
  NoDup (fst <$> kvs) →
  obj_get k (foldl (λ m '(k, v), obj_insert k v m) m kvs) = match obj_get k kvs with Some v => Some v | None => obj_get k m end.
Proof.
  revert m. induction kvs as [|[j w] kvs IH]; intros m; cbn [foldl obj_get fmap list_fmap]; [done|].
  intros [Hj Hnd]%NoDup_cons. rewrite IH by done. destruct (str_eqb k j) eqn:E.
  - apply str_eqb_eq in E as ->. rewrite obj_get_insert. destruct (obj_get j kvs) eqn:Eg; [|done]. exfalso. apply Hj.
    clear -Eg. induction kvs as [|[i u] kvs IH]; [done|]. cbn [obj_get] in Eg. destruct (str_eqb j i) eqn:Ei.
    + apply str_eqb_eq in Ei as ->. apply list_elem_of_here.
    + apply list_elem_of_further. auto.
  - rewrite obj_get_insert_ne; [done|]. intros ->. by rewrite str_eqb_refl in E.
Qed.

(** ** The search finds the first node in document order *)

Section value_ind.
Context (P : Value → Prop) (Hnull : P JNull) (Hbool : ∀ b, P (JBool b)) (Hnum : ∀ n, P (JNumber n)) (Hstr : ∀ s, P (JString s))
  (Harr : ∀ l, Forall P l → P (JArray l)) (Hobj : ∀ m, Forall (λ kv, P (snd kv)) m → P (JObject m)).

Fixpoint value_ind (v : Value) : P v :=
  match v with
  | JNull => Hnull
  | JBool b => Hbool b
  | JNumber n => Hnum n
  | JString s => Hstr s
  | JArray l => Harr l ((fix go l := match l return Forall P l with
                                     | [] => @List.Forall_nil _ _
                                     | x :: l => @List.Forall_cons _ _ _ _ (value_ind x) (go l)
                                     end) l)
  | JObject m => Hobj m ((fix go m := match m return Forall (λ kv, P (snd kv)) m with
                                      | [] => @List.Forall_nil _ _
                                      | kv :: m => @List.Forall_cons _ _ _ _ (value_ind (snd kv)) (go m)
                                      end) m)
  end.
End value_ind.

(** The nodes of a value in document order. *)
Fixpoint json_nodes (v : Value) : list Value :=
  v :: match v with
       | JArray l => concat (map json_nodes l)
       | JObject m => concat (map (λ kv, json_nodes (snd kv)) m)
       | _ => []
       end.

(** The search by identifier returns the first node, in document order, that is an object with that
    identifier, and nothing exactly when there is none. *)
Theorem find_by_id_first id v : find_by_id id v = find_first (has_id id) (json_nodes v).
Proof.
  induction v as [|b|n|s|l IH|m IH] using value_ind; try done.
  - cbn [find_by_id json_nodes find_first has_id]. induction IH as [|x l Hx _ IHl]; [done|].
    cbn [map concat]. rewrite find_first_app, <- Hx. destruct (find_by_id id x); [done|exact IHl].
  - cbn [find_by_id json_nodes find_first]. destruct (has_id id (JObject m)); [done|]. clear -IH.
    induction IH as [|[k x] m Hx _ IHm]; [done|]. cbn [map concat snd] in *.
    rewrite find_first_app, <- Hx. destruct (find_by_id id x); [done|exact IHm].
Qed.

(** ** Witnesses *)

Module Witness.

Definition tree : Value :=
  JObject [(lit "global", JObject [(lit "gzip", JBool true)]);
           (lit "sites", JArray [JObject [(lit "@id", JString (lit "a"))]; JObject [(lit "@id", JString (lit "b"))]])].
Definition site_c : Value := JObject [(lit "@id", JString (lit "c"))].

Lemma put_exact_witness :
  ∃ parent put, json_navigate_mut tree [lit "sites"] = Some (parent, put)
    ∧ ∃ parent', put_edit site_c (lit "1") parent = Ok parent'
    ∧ json_navigate (put parent') [lit "sites"; lit "1"] = Some site_c
    ∧ json_navigate (put parent') [lit "global"; lit "gzip"] = Some (JBool true).
Proof.
  do 2 eexists. split; [reflexivity|]. eexists. split; [reflexivity|].
  edestruct (put_exact tree [lit "sites"]) with (value := site_c) (last := lit "1") as (H1 & H2 & _); [reflexivity|reflexivity|discriminate|split; [exact H1|]].
  rewrite H2; [reflexivity|]. split; [discriminate|left; reflexivity].
Defined.

Lemma trailing_slash_creates_empty_key_witness :
  put_edit (JBool true) [] (JObject []) = Ok (JObject [([], JBool true)]) ∧ json_navigate (JObject [([], JBool true)]) [[]] = Some (JObject [([], JBool true)]).
Proof. split; [reflexivity|]. apply (trailing_slash_creates_empty_key (JBool true) []). reflexivity. Defined.

Example find_b : find_by_id (lit "b") tree = Some (JObject [(lit "@id", JString (lit "b"))]).
Proof. reflexivity. Qed.

End Witness.
