(* ===== verification/AdminServer.v ===== *)
(** * The server of the admin interface

    src/admin_api/server.rs and the helpers of src/admin_api/util.rs: the
    request reader with its limits, the bearer token, and the response text.
    The route behind it is an argument here; AdminRoutes.v supplies it. *)

From S2P Require Import Prelude RustStr Retry Http1.

(** ** Responses *)

Definition status_text (status : Z) : list Z :=
  if status =? 200 then lit "OK" else if status =? 201 then lit "Created" else if status =? 204 then lit "No Content"
  else if status =? 400 then lit "Bad Request" else if status =? 401 then lit "Unauthorized" else if status =? 403 then lit "Forbidden"
  else if status =? 404 then lit "Not Found" else if status =? 405 then lit "Method Not Allowed"
  else if status =? 500 then lit "Internal Server Error" else lit "Unknown".

Definition build_response (status : Z) (body content_type : list Z) : list Z :=
  lit "HTTP/1.1 " ++ dec status ++ [SP] ++ status_text status ++ CRLF
  ++ lit "Content-Type: " ++ content_type ++ CRLF
  ++ lit "Content-Length: " ++ dec (Z.of_nat (length body)) ++ CRLF
  ++ lit "Connection: close" ++ CRLF ++ CRLF ++ body.

Definition json_response (status : Z) (body : list Z) : list Z :=
  build_response status body (lit "application/json; charset=utf-8").

Definition cors_preflight_response : list Z :=
  lit "HTTP/1.1 204 No Content" ++ CRLF ++ lit "Content-Length: 0" ++ CRLF ++ lit "Connection: close" ++ CRLF ++ CRLF.

(** ** Paths and queries *)

Definition query_pair (pair : list Z) : option (list Z * list Z) :=
  let '(k, v) := match find_byte 61 pair with Some i => (take i pair, drop (S i) pair) | None => (pair, []) end in
  if bool_decide (k = []) then None else Some (k, v).

(** Collecting into a [HashMap]: the last value of a key stays. *)
Definition parse_query (qs : list Z) : gmap (list Z) (list Z) :=
  foldl (λ q pair, match query_pair pair with Some (k, v) => <[k := v]> q | None => q end) ∅ (split_byte 38 qs).

Definition parse_path_query (raw : list Z) : list Z * gmap (list Z) (list Z) :=
  match find_byte byte_question raw with
  | Some pos => (take pos raw, parse_query (drop (S pos) raw))
  | None => (raw, ∅)
  end.

Definition hex_val (b : Z) : Z :=
  if (48 <=? b) && (b <=? 57) then b - 48
  else if (97 <=? b) && (b <=? 102) then b - 97 + 10
  else if (65 <=? b) && (b <=? 70) then b - 65 + 10
  else 0.

(** [val as char] of a byte from 0x80 on is two bytes of the result. *)
Fixpoint urldecode (s : list Z) : list Z :=
  match s with
  | [] => []
  | b :: s1 =>
      if b =? 37 then
        match s1 with
        | [] => push_char 0
        | [hi] => push_char (hex_val hi * 16)
        | hi :: lo :: s3 => push_char (hex_val hi * 16 + hex_val lo) ++ urldecode s3
        end
      else (if b =? byte_plus then [SP] else push_char b) ++ urldecode s1
  end.

Definition format_duration (secs : Z) : list Z :=
  let days := secs / 86400 in
  let hours := (secs mod 86400) / 3600 in
  let mins := (secs mod 3600) / 60 in
  let s := secs mod 60 in
  if 0 <? days then dec days ++ lit "d " ++ dec hours ++ lit "h " ++ dec mins ++ lit "m " ++ dec s ++ lit "s"
  else if 0 <? hours then dec hours ++ lit "h " ++ dec mins ++ lit "m " ++ dec s ++ lit "s"
  else if 0 <? mins then dec mins ++ lit "m " ++ dec s ++ lit "s"
  else dec s ++ lit "s".

(** ** Requests *)

Record ParsedRequest := mkAdminReq {
  pr_method : list Z;
  pr_path : list Z;
  pr_query : gmap (list Z) (list Z);
  pr_headers : gmap (list Z) (list Z);
  pr_body : list Z;
}.

Definition should_save (q : ParsedRequest) : bool :=
  match pr_query q !! lit "save" with Some v => str_eqb v (lit "true") || str_eqb v (lit "1") | None => false end.

Record RouteResponse := mkRoute { rr_status : Z; rr_body : list Z; rr_content_type : list Z }.

Fixpoint xor_diff (diff : Z) (a b : list Z) : Z :=
  match a, b with
  | x :: a, y :: b => xor_diff (Z.lor diff (Z.lxor x y)) a b
  | _, _ => diff
  end.

Definition constant_time_eq (a b : list Z) : bool :=
  if negb (length a =? length b)%nat then false else xor_diff 0 a b =? 0.

Definition MAX_ADMIN_LINE : nat := 8192.
Definition MAX_ADMIN_HEADERS : nat := 128.
Definition MAX_ADMIN_BODY : Z := 65536.

(** Refusals, each with its status and message. *)
Inductive refusal :=
| BadVersion | TooManyHeaders | HeaderTooLong | NoTransferEncoding | DuplicateLength | BodyTooLarge | NoToken | BadToken.

Definition refusal_status (r : refusal) : Z :=
  match r with
  | BadVersion | NoTransferEncoding | DuplicateLength => 400
  | TooManyHeaders | HeaderTooLong => 431
  | BodyTooLarge => 413
  | NoToken => 403
  | BadToken => 401
  end.

Definition refusal_message (r : refusal) : list Z :=
  match r with
  | BadVersion => lit "Unsupported HTTP version"
  | TooManyHeaders => lit "Too many headers"
  | HeaderTooLong => lit "Header line too long"
  | NoTransferEncoding => lit "Transfer-Encoding not supported by admin API"
  | DuplicateLength => lit "Duplicate Content-Length header"
  | BodyTooLarge => lit "Request body too large (max 64KB)"
  | NoToken => lit "Admin API token not configured, access denied"
  | BadToken => lit "Unauthorized"
  end.

(** What reading a part of the request leads to: go on, answer with an error
    and close, or close without an answer. *)
Inductive admin_step (A : Type) := Go (a : A) | Refuse (r : refusal) | Close.
Arguments Go {A} a.
Arguments Refuse {A} r.
Arguments Close {A}.

Section server.
Context (to_lowercase : list Z → list Z).

Definition admin_header (line : list Z) : option (list Z * list Z) :=
  let t := trim line in
  match find_byte byte_colon t with
  | Some i => Some (to_lowercase (trim (take i t)), trim (drop (S i) t))
  | None => None
  end.

(** The header loop; [room] is how many more headers are accepted. *)
Fixpoint read_admin_headers (room : nat) (has_content_length : bool) (headers : gmap (list Z) (list Z))
    (s : list Z) (e : stream_end) : io (admin_step (gmap (list Z) (list Z) * list Z)) :=
  match read_line s e with
  | (LineBlocked, _) => Blocked
  | (LineErr _ _, _) => Failed
  | (Line line, s') =>
      if bool_decide (trim line = []) then Done (Go (headers, s'))
      else match room with
           | O => Done (Refuse TooManyHeaders)
           | S room =>
               if (MAX_ADMIN_LINE <? length line)%nat then Done (Refuse HeaderTooLong)
               else match admin_header line with
                    | None => read_admin_headers room has_content_length headers s' e
                    | Some (key, v) =>
                        if str_eqb key (lit "transfer-encoding") then Done (Refuse NoTransferEncoding)
                        else if str_eqb key (lit "content-length") then
                          if has_content_length then Done (Refuse DuplicateLength)
                          else read_admin_headers room true (<[key := v]> headers) s' e
                        else read_admin_headers room has_content_length (<[key := v]> headers) s' e
                    end
           end
  end.

Definition admin_content_length (headers : gmap (list Z) (list Z)) : Z :=
  default 0 (headers !! lit "content-length" ≫= parse_uint usize_max).

(** [read_exact] *)
Definition read_admin_body (n : nat) (s : list Z) (e : stream_end) : io (list Z) :=
  if (n <=? length s)%nat then Done (take n s) else match e with EndOpen => Blocked | _ => Failed end.

(** [handle_request] up to the check of the token. *)
Definition read_request (s : list Z) (e : stream_end) : io (admin_step ParsedRequest) :=
  match read_line s e with
  | (LineBlocked, _) => Blocked
  | (LineErr _ _, _) => Failed
  | (Line request_line, s1) =>
      if (MAX_ADMIN_LINE <? length request_line)%nat then Done Close
      else match splitn_byte 3 SP (trim request_line) with
           | [method; raw_path; http_version] =>
               if negb (starts_with (lit "HTTP/1.") http_version) then Done (Refuse BadVersion)
               else
                 let '(path, query) := parse_path_query raw_path in
                 r ← read_admin_headers MAX_ADMIN_HEADERS false ∅ s1 e;
                 match r with
                 | Close => Done Close
                 | Refuse why => Done (Refuse why)
                 | Go (headers, s2) =>
                     let content_len := admin_content_length headers in
                     if MAX_ADMIN_BODY <? content_len then Done (Refuse BodyTooLarge)
                     else body ← read_admin_body (Z.to_nat content_len) s2 e;
                          Done (Go (mkAdminReq method path query headers body))
                 end
           | _ => Done Close
           end
  end.

Definition no_auth_paths : list (list Z) :=
  [lit "/api/health"; lit "/health"; lit "/api/version"; lit "/api/doc"; lit "/metrics"].

(** The check of the token: [None] lets the request pass. *)
Definition check_token (token : list Z) (q : ParsedRequest) : option refusal :=
  if existsb (str_eqb (pr_path q)) no_auth_paths then None
  else if bool_decide (token = []) then Some NoToken
  else
    let auth := default [] (pr_headers q !! lit "authorization") in
    let expected := lit "Bearer " ++ token in
    if negb (length auth =? length expected)%nat || negb (constant_time_eq auth expected) then Some BadToken else None.

(** [handle_request]: the bytes written, and the state of the server
    afterwards.  [err_json] wraps a message in an object. *)
Context {C : Type} (err_json : list Z → list Z) (route : ParsedRequest → C → RouteResponse * C).

Definition refuse (r : refusal) : list Z := json_response (refusal_status r) (err_json (refusal_message r)).

Definition handle_request (token : list Z) (s : list Z) (e : stream_end) (c : C) : io (list Z * C) :=
  r ← read_request s e;
  match r with
  | Close => Done ([], c)
  | Refuse why => Done (refuse why, c)
  | Go q =>
      if str_eqb (pr_method q) (lit "OPTIONS") then Done (cors_preflight_response, c)
      else match check_token token q with
           | Some why => Done (refuse why, c)
           | None => let '(rr, c') := route q c in
                     Done (build_response (rr_status rr) (rr_body rr) (rr_content_type rr), c')
           end
  end.

End server.

(** ** The token *)

Lemma xor_diff_zero diff a b : length a = length b → xor_diff diff a b = 0 ↔ diff = 0 ∧ a = b.
Proof.
  revert diff b. induction a as [|x a IH]; intros diff [|y b] Hl; try done; cbn [xor_diff].
  - naive_solver.
  - injection Hl as Hl. rewrite (IH _ _ Hl), Z.lor_eq_0_iff, Z.lxor_eq_0_iff. naive_solver.
Qed.

Lemma constant_time_eq_correct a b : constant_time_eq a b = true ↔ a = b.
Proof.
  unfold constant_time_eq. destruct (length a =? length b)%nat eqn:E; cbn [negb].
  - apply Nat.eqb_eq in E. rewrite Z.eqb_eq, xor_diff_zero by done. naive_solver.
  - apply Nat.eqb_neq in E. split; [done|]. by intros ->.
Qed.

Lemma check_token_passes token q :
  check_token token q = None ↔
  pr_path q ∈ no_auth_paths ∨ token ≠ [] ∧ pr_headers q !! lit "authorization" = Some (lit "Bearer " ++ token).
Proof.
  unfold check_token. destruct (existsb (str_eqb (pr_path q)) no_auth_paths) eqn:E.
  { apply existsb_exists in E as (p & Hp & ->%str_eqb_eq). split; [|done]. left. by apply list_elem_of_In. }
  assert (Hn : pr_path q ∉ no_auth_paths).
  { intros Hin. apply not_true_iff_false in E. apply E, existsb_exists. exists (pr_path q).
    split; [by apply list_elem_of_In|apply str_eqb_refl]. }
  case_bool_decide as Ht; [naive_solver|].
  destruct (pr_headers q !! lit "authorization") as [auth|]; cbn [from_option id].
  - destruct (negb _ || negb (constant_time_eq auth _)) eqn:Ec.
    + split; [done|]. intros [?|[_ [= ->]]]; [done|]. rewrite Nat.eqb_refl in Ec. cbn [negb orb] in Ec.
      by rewrite (proj2 (constant_time_eq_correct _ _) eq_refl) in Ec.
    + apply orb_false_iff in Ec as [_ Ec%negb_false_iff%constant_time_eq_correct]. subst auth. split; [|done]. by right.
  - split; [by cbn|]. by intros [?|[_ ?]].
Qed.

(** ** Limits *)

Section theorems.
Context (to_lowercase : list Z → list Z).

Lemma read_admin_headers_bounds room cl hs s e hs' s' :
  read_admin_headers to_lowercase room cl hs s e = Done (Go (hs', s')) →
  hs !! lit "transfer-encoding" = None →
  hs' !! lit "transfer-encoding" = None ∧ (size hs' ≤ size hs + room)%nat.
Proof.
  revert cl hs s. induction room as [|room IH]; intros cl hs s; cbn [read_admin_headers];
    destruct (read_line s e) as [[line| |] s1]; try done; case_bool_decide as Hblank.
  - intros [= <- <-] ?. split; [done|lia].
  - done.
  - intros [= <- <-] ?. split; [done|lia].
  - case_test; [done|]. destruct (admin_header to_lowercase line) as [[k v]|].
    + assert (Hins : k ≠ lit "transfer-encoding" → hs !! lit "transfer-encoding" = None →
                <[k := v]> hs !! lit "transfer-encoding" = None ∧ (size (<[k := v]> hs) ≤ size hs + 1)%nat).
      { intros Hk Hh. split; [by rewrite lookup_insert_ne|].
        destruct (hs !! k) eqn:Ek; [rewrite map_size_insert_Some by (by rewrite Ek)|rewrite map_size_insert_None by done]; lia. }
      destruct (str_eqb k (lit "transfer-encoding")) eqn:Ek; [done|].
      assert (Hk : k ≠ lit "transfer-encoding") by (intros ->; by rewrite str_eqb_refl in Ek).
      destruct (str_eqb k (lit "content-length")); [destruct cl; [done|]|];
        intros H Hh; destruct (Hins Hk Hh) as [H1 H2]; destruct (IH _ _ _ H H1); (split; [done|lia]).
    + intros H Hh. destruct (IH _ _ _ H Hh). split; [done|lia].
Qed.

Lemma read_request_bounds s e q :
  read_request to_lowercase s e = Done (Go q) →
  Z.of_nat (length (pr_body q)) ≤ MAX_ADMIN_BODY ∧ (size (pr_headers q) ≤ MAX_ADMIN_HEADERS)%nat
  ∧ pr_headers q !! lit "transfer-encoding" = None
  ∧ Z.of_nat (length (pr_body q)) = admin_content_length (pr_headers q).
Proof.
  unfold read_request. destruct (read_line s e) as [[line| |] s1]; try done. case_test; [done|].
  destruct (splitn_byte 3 SP (trim line)) as [|m [|rp [|v [|]]]]; try done. case_test; [done|].
  destruct (parse_path_query rp) as [path query]. cbn [mbind io_bind].
  destruct (read_admin_headers to_lowercase MAX_ADMIN_HEADERS false ∅ s1 e) as [[[hs s2]|why|]| |] eqn:Eh; try done.
  cbn [mbind io_bind]. cbv zeta. destruct (MAX_ADMIN_BODY <? admin_content_length hs) eqn:Eb; [done|]. unfold read_admin_body.
  destruct (Z.to_nat _ <=? length s2)%nat eqn:El; [|by destruct e]. intros [= <-]. cbn [pr_body pr_headers].
  apply read_admin_headers_bounds in Eh as [H1 H2]; [|apply lookup_empty]. rewrite map_size_empty in H2.
  assert (0 ≤ admin_content_length hs).
  { unfold admin_content_length. destruct (hs !! _ ≫= _) as [n|] eqn:En; cbn [from_option id]; [|lia].
    apply bind_Some in En as (t & _ & Hn%parse_uint_bound); [lia|done]. }
  apply Nat.leb_le in El. zbool. rewrite length_take. split_and!; [lia|lia|done|lia].
Qed.

Context {C : Type} (err_json : list Z → list Z) (route : ParsedRequest → C → RouteResponse * C).

(** Only checked requests act.  Whatever bytes a client sends, the state of the server changes only
    through a request that names one of the five open paths or carries the configured token, which is
    not empty; its body is as long as announced and within 64 KB, it has at most 128 headers, and it is
    not chunked. *)
Theorem admin_request_checked token s e c out c' :
  handle_request to_lowercase err_json route token s e c = Done (out, c') → c' ≠ c →
  ∃ q, read_request to_lowercase s e = Done (Go q) ∧ snd (route q c) = c'
    ∧ (pr_path q ∈ no_auth_paths ∨ token ≠ [] ∧ pr_headers q !! lit "authorization" = Some (lit "Bearer " ++ token))
    ∧ Z.of_nat (length (pr_body q)) = admin_content_length (pr_headers q)
    ∧ Z.of_nat (length (pr_body q)) ≤ MAX_ADMIN_BODY ∧ (size (pr_headers q) ≤ MAX_ADMIN_HEADERS)%nat
    ∧ pr_headers q !! lit "transfer-encoding" = None.
Proof.
  unfold handle_request. destruct (read_request to_lowercase s e) as [[q|why|]| |] eqn:Er; cbn [mbind io_bind]; try done;
    [|intros [= <- <-]; done..].
  case_test; [by intros [= <- <-]|]. destruct (check_token token q) eqn:Et; [by intros [= <- <-]|].
  apply check_token_passes in Et. destruct (route q c) as [rr c1] eqn:Ec. intros [= <- <-] _.
  destruct (read_request_bounds _ _ _ Er) as (H1 & H2 & H3 & H4). exists q. rewrite Ec. done.
Qed.

(** The limits come too late for memory: a client that sends no line feed keeps the connection open
    and every byte it sends is buffered, without a limit and without a token. *)
Theorem admin_line_unbounded token s c :
  LF ∉ s → handle_request to_lowercase err_json route token s EndOpen c = Blocked.
Proof. intros H. unfold handle_request, read_request, read_line. by rewrite (proj2 (find_byte_None LF s) H). Qed.

(** ** Requests are read as they are written *)

Definition head_lines (hs : list (list Z * list Z)) : list Z := concat ((λ '(k, v), k ++ lit ": " ++ v ++ CRLF) <$> hs).

Definition plain_header (kv : list Z * list Z) : Prop :=
  name_clean (fst kv) ∧ clean (snd kv) ∧ (length (fst kv) + length (snd kv) + 4 ≤ MAX_ADMIN_LINE)%nat
  ∧ to_lowercase (fst kv) ≠ lit "transfer-encoding".

Definition is_length (kv : list Z * list Z) : bool := str_eqb (to_lowercase (fst kv)) (lit "content-length").
Definition lengths (hs : list (list Z * list Z)) : nat := length (List.filter is_length hs).

Lemma admin_header_line k v :
  name_clean k → clean v → trim (k ++ lit ": " ++ v ++ CRLF) = k ++ lit ": " ++ v
  ∧ admin_header to_lowercase (k ++ lit ": " ++ v ++ CRLF) = Some (to_lowercase k, v).
Proof.
  intros Hk Hv. pose proof (header_line_clean _ _ Hk Hv) as Hl. destruct (trim_clean_crlf _ Hl) as [Ht _].
  rewrite <- !app_assoc in Ht. split; [done|]. unfold admin_header. rewrite Ht. destruct Hk as (Hk & Hne & Hc).
  change (k ++ lit ": " ++ v) with (k ++ byte_colon :: ([SP] ++ v)).
  assert (find_byte byte_colon (k ++ byte_colon :: ([SP] ++ v)) = Some (length k)) as -> by (apply find_byte_Some; eauto).
  rewrite take_app_length, drop_S_length_app, trim_visible by done.
  assert (trim ([SP] ++ v) = trim v) as -> by reflexivity. by rewrite (proj2 (trim_clean_crlf v Hv)).
Qed.

Lemma read_admin_headers_text hs : ∀ room (cl : bool) m rest e,
  Forall plain_header hs → (length hs ≤ room)%nat → (lengths hs + (if cl then 1 else 0) ≤ 1)%nat →
  read_admin_headers to_lowercase room cl m (head_lines hs ++ CRLF ++ rest) e
  = Done (Go (foldl (λ m '(k, v), <[to_lowercase k := v]> m) m hs, rest)).
Proof.
  induction hs as [|[k v] hs IH]; intros room cl m rest e Hp Hr Hl.
  { change (head_lines [] ++ CRLF ++ rest) with ([] ++ CRLF ++ rest).
    destruct room; cbn [read_admin_headers]; rewrite read_line_ascii by (done || apply not_elem_of_nil);
      by rewrite bool_decide_true. }
  apply Forall_cons in Hp as [(Hk & Hv & Hlen & Hte) Hp]. cbn [fst snd] in *. cbn [length] in Hr.
  destruct room as [|room]; [lia|]. destruct (admin_header_line k v Hk Hv) as [Ht Ha].
  assert (E : head_lines ((k, v) :: hs) ++ CRLF ++ rest = (k ++ lit ": " ++ v) ++ CRLF ++ (head_lines hs ++ CRLF ++ rest)).
  { unfold head_lines. cbn [fmap list_fmap concat]. by rewrite <- !app_assoc. }
  rewrite E. cbn [read_admin_headers]. pose proof (header_line_clean _ _ Hk Hv) as (Hasc & Hlf & _).
  rewrite read_line_ascii by done. rewrite <- !app_assoc, Ht, Ha.
  rewrite bool_decide_false by (destruct Hk as (_ & Hne & _); by destruct k).
  rewrite (proj2 (Nat.ltb_ge _ _)) by (rewrite !length_app; cbn [length]; change (length (lit ": ")) with 2%nat; change (length CRLF) with 2%nat; lia).
  destruct (str_eqb (to_lowercase k) (lit "transfer-encoding")) eqn:Ete; [by apply str_eqb_eq in Ete|].
  unfold lengths in *. cbn [List.filter] in Hl. unfold is_length at 1 in Hl. cbn [fst] in Hl. cbn [foldl].
  destruct (str_eqb (to_lowercase k) (lit "content-length")); cbn [length] in Hl.
  - destruct cl; [lia|]. apply IH; [done|lia|]. lia.
  - apply IH; [done|lia|]. lia.
Qed.

(** A request as a client writes it. *)
Definition versioned_text (version method path : list Z) (hs : list (list Z * list Z)) (body : list Z) : list Z :=
  (method ++ [SP] ++ path ++ [SP] ++ version) ++ CRLF ++ head_lines hs ++ CRLF ++ body.
Definition request_text (method path : list Z) (hs : list (list Z * list Z)) (body : list Z) : list Z :=
  versioned_text (lit "HTTP/1.1") method path hs body.

Lemma request_line_clean version method path :
  field version → version ≠ [] → field method → method ≠ [] → field path → clean (method ++ [SP] ++ path ++ [SP] ++ version).
Proof.
  intros Hv Hvne Hm Hne Hp. split_and!.
  - by rewrite !is_ascii_app, (field_ascii method), (field_ascii path), (field_ascii version).
  - rewrite !not_elem_of_app. split_and!; [by apply field_no_lf|apply (bool_decide_unpack _); by vm_compute|by apply field_no_lf| |by apply field_no_lf].
    apply (bool_decide_unpack _). by vm_compute.
  - destruct method as [|a method]; [done|]. destruct version as [|v0 version _] using rev_ind; [done|].
    exists a, (method ++ [SP] ++ path ++ [SP] ++ version), v0.
    apply Forall_cons in Hm as [? _]. apply Forall_app in Hv as [_ [? _]%Forall_cons].
    split_and!; [done|done|]. right. cbn [app]. rewrite <- !app_assoc. cbn [app]. by rewrite <- !app_assoc.
Qed.

Lemma read_versioned version method path hs body rest e m :
  field version → starts_with (lit "HTTP/1.") version = true →
  field method → method ≠ [] → field path → (length version + length method + length path + 4 ≤ MAX_ADMIN_LINE)%nat →
  Forall plain_header hs → (length hs ≤ MAX_ADMIN_HEADERS)%nat → (lengths hs ≤ 1)%nat →
  m = foldl (λ m '(k, v), <[to_lowercase k := v]> m) (∅ : gmap (list Z) (list Z)) hs →
  admin_content_length m = Z.of_nat (length body) → Z.of_nat (length body) ≤ MAX_ADMIN_BODY →
  read_request to_lowercase (versioned_text version method path hs body ++ rest) e
  = Done (Go (mkAdminReq method (fst (parse_path_query path)) (snd (parse_path_query path)) m body)).
Proof.
  intros Hver Hsw Hm Hne Hp Hlen Hhs Hn Hcl -> Hlength Hbody. unfold read_request, versioned_text.
  assert (Hclean : clean (method ++ [SP] ++ path ++ [SP] ++ version)) by (apply request_line_clean; try done; by intros ->).
  rewrite <- !(app_assoc _ _ rest), <- !app_assoc. pose proof Hclean as (Hasc & Hlf & _).
  replace (method ++ [SP] ++ path ++ [SP] ++ version ++ CRLF ++ head_lines hs ++ CRLF ++ body ++ rest)
    with ((method ++ [SP] ++ path ++ [SP] ++ version) ++ CRLF ++ (head_lines hs ++ CRLF ++ body ++ rest)) by (by rewrite <- !app_assoc).
  rewrite read_line_ascii by done. rewrite (proj1 (trim_clean_crlf _ Hclean)).
  rewrite (proj2 (Nat.ltb_ge _ _)) by (rewrite !length_app; change (length CRLF) with 2%nat; cbn [length]; lia).
  change (method ++ [SP] ++ path ++ [SP] ++ version) with (method ++ SP :: (path ++ SP :: version)).
  rewrite !splitn_byte_app by (by apply field_no_sp). cbn [splitn_byte]. rewrite Hsw. cbn [negb].
  destruct (parse_path_query path) as [p q]. cbn [fst snd].
  rewrite read_admin_headers_text by (done || lia). cbn [mbind io_bind]. rewrite Hlength.
  rewrite (proj2 (Z.ltb_ge _ _)) by lia. unfold read_admin_body. rewrite Nat2Z.id.
  rewrite (proj2 (Nat.leb_le _ _)) by (rewrite length_app; lia). by rewrite take_app_length.
Qed.

(** A request is read as it was written: method, path, query, headers under their lower-case names
    and body are recovered, and nothing behind the body is touched. *)
Theorem admin_request_read method path hs body rest e m :
  field method → method ≠ [] → field path → (length method + length path + 12 ≤ MAX_ADMIN_LINE)%nat →
  Forall plain_header hs → (length hs ≤ MAX_ADMIN_HEADERS)%nat → (lengths hs ≤ 1)%nat →
  m = foldl (λ m '(k, v), <[to_lowercase k := v]> m) (∅ : gmap (list Z) (list Z)) hs →
  admin_content_length m = Z.of_nat (length body) → Z.of_nat (length body) ≤ MAX_ADMIN_BODY →
  read_request to_lowercase (request_text method path hs body ++ rest) e
  = Done (Go (mkAdminReq method (fst (parse_path_query path)) (snd (parse_path_query path)) m body)).
Proof.
  intros Hm Hne Hp Hlen. apply read_versioned; [by repeat constructor|done|done|done|done|]. change (length (lit "HTTP/1.1")) with 8%nat. lia.
Qed.

End theorems.

(** ** Percent encoding *)

Definition hex_digit (d : Z) : Z := if d <? 10 then 48 + d else 55 + d.
Definition percent_byte (b : Z) : list Z :=
  if is_ascii_alphanumeric b || (b =? byte_dot) || (b =? byte_minus) then [b] else [37; hex_digit (b / 16); hex_digit (b mod 16)].
Definition percent_encode (s : list Z) : list Z := concat (percent_byte <$> s).

Lemma hex_val_digit d : 0 ≤ d < 16 → hex_val (hex_digit d) = d.
Proof. intros H. unfold hex_val, hex_digit. repeat case_test; zbool; lia. Qed.

Lemma urldecode_byte b s : 0 ≤ b < 256 → urldecode (percent_byte b ++ s) = push_char b ++ urldecode s.
Proof.
  intros H. unfold percent_byte. destruct (is_ascii_alphanumeric b || _ || _) eqn:E.
  - cbn [app urldecode].
    assert (b ≠ 37 ∧ b ≠ byte_plus) as [H1 H2].
    { unfold is_ascii_alphanumeric, is_ascii_uppercase, is_ascii_lowercase, is_ascii_digit, byte_dot, byte_minus, byte_plus in *. lia. }
    by rewrite (proj2 (Z.eqb_neq _ _) H1), (proj2 (Z.eqb_neq _ _) H2).
  - cbn [app urldecode]. rewrite Z.eqb_refl, !hex_val_digit by (split; [apply Z.div_pos || apply Z.mod_pos_bound|apply Z.div_lt_upper_bound || apply Z.mod_pos_bound]; lia).
    do 2 f_equal. rewrite Z.mul_comm. symmetry. by apply Z.div_mod.
Qed.

(** Names survive encoding: decoding a percent-encoded ASCII text gives the text, whatever
    characters it has. *)
Theorem urldecode_roundtrip s : is_ascii s = true → urldecode (percent_encode s) = s.
Proof.
  induction s as [|b s IH]; [done|]. rewrite is_ascii_cons. intros [Hb Hs]%andb_true_iff.
  unfold percent_encode in *. cbn [fmap list_fmap concat]. rewrite urldecode_byte by (zbool; lia). rewrite IH by done.
  unfold push_char. by rewrite (proj2 (Z.ltb_lt _ _)) by (zbool; lia).
Qed.

(** Other texts do not: a byte from 0x80 on comes back as two. *)
Theorem urldecode_garbles b : 128 ≤ b < 256 → urldecode (percent_encode [b]) = [192 + b / 64; 128 + b mod 64].
Proof.
  intros H. unfold percent_encode. cbn [fmap list_fmap concat]. rewrite urldecode_byte by lia.
  unfold push_char. by rewrite (proj2 (Z.ltb_ge _ _)) by lia.
Qed.

(** ** Witnesses *)

Module Witness.

Definition set_state (q : ParsedRequest) (c : Z) : RouteResponse * Z := (mkRoute 200 [] [], c + 1).
Definition headers : list (list Z * list Z) :=
  [(lit "Authorization", lit "Bearer secret"); (lit "Content-Length", lit "2")].
Definition text : list Z := request_text (lit "POST") (lit "/load?save=true") headers (lit "{}").

Lemma plain_headers : Forall (plain_header to_ascii_lowercase) headers.
Proof.
  repeat constructor; cbn [fst snd].
  all: try (apply (bool_decide_unpack _); by vm_compute).
  all: try (by vm_compute).
  - exists 66, (lit "earer secre"), 116. split_and!; [done|done|by right].
  - exists 50, [], 50. split_and!; [done|done|by left].
Qed.

Lemma admin_request_read_witness :
  ∃ m, read_request to_ascii_lowercase (text ++ []) EndOpen
       = Done (Go (mkAdminReq (lit "POST") (lit "/load") (snd (parse_path_query (lit "/load?save=true"))) m (lit "{}")))
    ∧ m !! lit "authorization" = Some (lit "Bearer secret").
Proof.
  eexists. split; [|shelve].
  refine (admin_request_read to_ascii_lowercase (lit "POST") (lit "/load?save=true") headers (lit "{}") [] EndOpen _ _ _ _ _ plain_headers _ _ eq_refl _ _);
    try (apply (bool_decide_unpack _); by vm_compute); try (by vm_compute).
  Unshelve. by vm_compute.
Defined.

Lemma admin_request_checked_witness :
  ∃ q, read_request to_ascii_lowercase text EndOpen = Done (Go q)
    ∧ (pr_path q ∈ no_auth_paths ∨ lit "secret" ≠ [] ∧ pr_headers q !! lit "authorization" = Some (lit "Bearer secret")).
Proof.
  assert (E : ∃ out, handle_request to_ascii_lowercase (λ m, m) set_state (lit "secret") text EndOpen 0 = Done (out, 1)).
  { eexists. vm_compute. reflexivity. }
  destruct E as [out E].
  destruct (admin_request_checked to_ascii_lowercase (λ m, m) set_state (lit "secret") text EndOpen 0 out 1 E ltac:(discriminate))
    as (q & H1 & _ & H2 & _). exists q. split; [exact H1|exact H2].
Defined.

Lemma admin_line_unbounded_witness :
  handle_request to_ascii_lowercase (λ m, m) set_state (lit "secret") (lit "GET /") EndOpen 0 = Blocked.
Proof. apply admin_line_unbounded. apply (bool_decide_unpack _). by vm_compute. Defined.

Lemma urldecode_roundtrip_witness : urldecode (percent_encode (lit "10.0.0.1:80 +%")) = lit "10.0.0.1:80 +%".
Proof. apply urldecode_roundtrip. reflexivity. Defined.

Lemma urldecode_garbles_witness : urldecode (percent_encode [233]) = [195; 169].
Proof. apply (urldecode_garbles 233). lia. Defined.

Example duration : format_duration 90061 = lit "1d 1h 1m 1s".
Proof. reflexivity. Qed.

End Witness.
