(* ===== verification/AdminConfig.v ===== *)
(** * Changing the configuration through the admin interface

    src/admin_api/handlers/config.rs with the site and certificate endpoints
    that change the same state: loading a configuration, editing its tree,
    saving, reloading, deleting a site.  The serialisers are parameters; so are
    the order in which the registry's map is visited and the outcome of writing
    a file, which can fail after the file was truncated. *)

From S2P Require Import Prelude RustStr Headers Compress Location VHost Config Tls HotReload Json AdminServer.

(** [std::fs::write] creates or truncates the file and then writes: it can fail
    before it touches the file, or after some bytes of the new content. *)
Inductive write_result := Written | NotOpened | CutShort (n : nat).

Definition fs_write (r : write_result) (p text : list Z) (files : gmap (list Z) (list Z)) : bool * gmap (list Z) (list Z) :=
  match r with
  | Written => (true, <[p := text]> files)
  | NotOpened => (false, files)
  | CutShort n => (false, <[p := take n text]> files)
  end.

Section admin.
Context `{L : HeaderLib} {R : Type} (build : list Z → option R) (to_lowercase : list Z → list Z)
  (canonicalize : list Z → option (list (list Z))).
Context {CK G : Type} (global_default : G).

Notation registry := (VHostInner (R := R)).
Notation info_t := (SiteInfo (R := R)).

Record AppConfig := mkApp { ac_global : G; ac_sites : list SiteFile }.

(** [serde_json] and [toml] on configurations, the text of a file by its
    extension, how writing a file goes, and the tuning of HTTP/3. *)
Context (to_value : AppConfig → option Value) (from_value : Value → option AppConfig) (parse_value : list Z → option Value)
  (parse_config : list Z → option AppConfig) (to_toml : AppConfig → option (list Z))
  (parse_file : list Z → list Z → option AppConfig) (disk_write : list Z → write_result) (max_handlers : TlsConfig → Z)
  (values : gmap (list Z) info_t → list info_t).

Record AdminContext := mkAdmin {
  ad_registry : registry;
  ad_cfg : AppConfig;
  ad_resolvers : gmap Z (SniInner (CK := CK));
  ad_path : option (list Z);
  ad_files : gmap (list Z) (list Z);
  ad_h3_max : Z;
}.

Inductive reply_body := BOk | BErr | BTree (e : tree_error) | BValue (v : Value) | BTest (sites : option nat).
Notation reply := (Z * reply_body)%type.

(** [VHostRegistry::all_sites]: the sites in the table of exact names.  Sites
    are told apart by their pointer there; the entries of one name all share
    one. *)
Fixpoint first_per_name (seen : list (list Z)) (l : list info_t) : list info_t :=
  match l with
  | [] => []
  | i :: l => if bool_decide (si_name i ∈ seen) then first_per_name seen l else i :: first_per_name (si_name i :: seen) l
  end.

Definition all_sites (m : registry) : list info_t := first_per_name [] (values (exact m)).

(** ** Applying a configuration *)

Definition h3_handlers (sites : list SiteFile) : Z :=
  default 0 (head (max_handlers <$> filter (λ t, lit "h3" ∈ tls_protocols t) (omap cf_tls sites))).

Definition apply_registry (m : registry) (sites : list SiteFile) : registry :=
  let new_names := cf_name <$> sites in
  let m := foldl (λ m n, if bool_decide (n ∈ new_names) then m else remove_site m n) m (si_name <$> all_sites m) in
  foldl (λ m s, upsert_site build to_lowercase canonicalize m (vhost_site s)) m sites.

(** [apply_config]; no branch of it fails. *)
Definition apply_config (c : AdminContext) (new : AppConfig) : result AdminContext unit :=
  Ok (mkAdmin (apply_registry (ad_registry c) (ac_sites new)) new (ad_resolvers c) (ad_path c) (ad_files c)
        (h3_handlers (ac_sites new))).

Definition rollback (c : AdminContext) (old : AppConfig) : AdminContext :=
  mkAdmin (foldl (λ m s, upsert_site build to_lowercase canonicalize m (vhost_site s)) (ad_registry c) (ac_sites old)) old
    (ad_resolvers c) (ad_path c) (ad_files c) (ad_h3_max c).

Definition set_files (fs : gmap (list Z) (list Z)) (c : AdminContext) : AdminContext :=
  mkAdmin (ad_registry c) (ad_cfg c) (ad_resolvers c) (ad_path c) fs (ad_h3_max c).

Definition save_config_to_disk (c : AdminContext) : AdminContext :=
  match ad_path c with
  | None => c
  | Some p => match to_toml (ad_cfg c) with
              | Some text => set_files (snd (fs_write (disk_write p) p text (ad_files c))) c
              | None => c
              end
  end.

(** ** Handlers *)

Definition saving (q : ParsedRequest) (c : AdminContext) : AdminContext := if should_save q then save_config_to_disk c else c.

Definition route_load (q : ParsedRequest) (c : AdminContext) : reply * AdminContext :=
  match parse_config (pr_body q) with
  | None => ((400, BErr), c)
  | Some new => match apply_config c new with
                | Ok c' => ((200, BOk), saving q c')
                | Err _ => ((400, BErr), rollback c (ad_cfg c))
                end
  end.

(** The part of [config_tree_mutate] that reads the configuration and works
    out the new one. *)
Definition tree_new (segments : list (list Z)) (edit : Value → result Value tree_error) (c : AdminContext) : result AppConfig reply :=
  match to_value (ad_cfg c) with
  | None => Err (500, BErr)
  | Some root =>
      match json_navigate_mut root segments with
      | None => Err (404, BErr)
      | Some (target, put) =>
          match edit target with
          | Err e => Err (400, BTree e)
          | Ok target' => match from_value (put target') with Some new => Ok new | None => Err (400, BErr) end
          end
      end
  end.

(** The part that makes it the configuration in force. *)
Definition tree_apply (q : ParsedRequest) (old new : AppConfig) (c : AdminContext) : reply * AdminContext :=
  match apply_config c new with
  | Ok c' => ((200, BOk), saving q c')
  | Err _ => ((500, BErr), rollback c old)
  end.

Definition config_tree_mutate (q : ParsedRequest) (segments : list (list Z)) (edit : Value → result Value tree_error)
    (c : AdminContext) : reply * AdminContext :=
  match tree_new segments edit c with
  | Err r => (r, c)
  | Ok new => tree_apply q (ad_cfg c) new c
  end.

Definition tree_segments (path : list Z) : list (list Z) :=
  let p := default [] (strip_prefix (lit "/config") path) in
  let p := default p (strip_prefix [byte_slash] p) in
  if bool_decide (p = []) then [] else split_byte byte_slash p.

Definition split_last (segments : list (list Z)) : option (list (list Z) * list Z) :=
  match rev segments with [] => None | last :: front => Some (rev front, last) end.

Definition with_value (q : ParsedRequest) (c : AdminContext) (k : Value → reply * AdminContext) : reply * AdminContext :=
  match parse_value (pr_body q) with Some v => k v | None => ((400, BErr), c) end.

Definition route_config_tree (q : ParsedRequest) (c : AdminContext) : reply * AdminContext :=
  let segments := tree_segments (pr_path q) in
  let m := pr_method q in
  if str_eqb m (lit "GET") then
    (match to_value (ad_cfg c) with
     | None => (500, BErr)
     | Some root => match json_navigate root segments with Some sub => (200, BValue sub) | None => (404, BErr) end
     end, c)
  else if str_eqb m (lit "POST") then with_value q c (λ v, config_tree_mutate q segments (post_edit v) c)
  else if str_eqb m (lit "PUT") then
    with_value q c (λ v, match split_last segments with
                         | None => ((400, BErr), c)
                         | Some (parent, last) => config_tree_mutate q parent (put_edit v last) c
                         end)
  else if str_eqb m (lit "PATCH") then with_value q c (λ v, config_tree_mutate q segments (patch_edit v) c)
  else if str_eqb m (lit "DELETE") then
    match split_last segments with
    | None => match apply_config c (mkApp global_default []) with
              | Ok c' => ((200, BOk), c')
              | Err _ => ((500, BErr), c)
              end
    | Some (parent, last) => config_tree_mutate q parent (delete_edit last) c
    end
  else ((405, BErr), c).

Definition route_config_save (c : AdminContext) : reply * AdminContext :=
  match ad_path c with
  | None => ((400, BErr), c)
  | Some p => match to_toml (ad_cfg c) with
              | Some text => let '(ok, files) := fs_write (disk_write p) p text (ad_files c) in
                             (if ok then (200, BOk) else (500, BErr), set_files files c)
              | None => ((500, BErr), c)
              end
  end.

(** [load_config] of a file *)
Definition load_file (fs : gmap (list Z) (list Z)) (p : list Z) : option AppConfig :=
  text ← fs !! p; cfg ← parse_file p text; sites ← load_config (Some (ac_sites cfg)); Some (mkApp (ac_global cfg) sites).

Definition route_config_reload (c : AdminContext) : reply * AdminContext :=
  match ad_path c with
  | None => ((400, BErr), c)
  | Some p => match load_file (ad_files c) p with
              | None => ((400, BErr), c)
              | Some new => match apply_config c new with
                            | Ok c' => ((200, BOk), c')
                            | Err _ => ((500, BErr), rollback c (ad_cfg c))
                            end
              end
  end.

Definition route_config_test (c : AdminContext) : reply :=
  match ad_path c with
  | None => (400, BErr)
  | Some p => (200, BTest ((λ cfg, length (ac_sites cfg)) <$> load_file (ad_files c) p))
  end.

Definition route_id_lookup (q : ParsedRequest) (c : AdminContext) : reply :=
  if negb (str_eqb (pr_method q) (lit "GET")) then (405, BErr)
  else
    let rest := drop 4 (pr_path q) in
    let '(id, sub_path) := match find_byte byte_slash rest with Some i => (take i rest, drop (S i) rest) | None => (rest, []) end in
    match to_value (ad_cfg c) with
    | None => (500, BErr)
    | Some root =>
        match find_by_id id root with
        | None => (404, BErr)
        | Some node =>
            if bool_decide (sub_path = []) then (200, BValue node)
            else match json_navigate node (split_byte byte_slash sub_path) with Some sub => (200, BValue sub) | None => (404, BErr) end
        end
    end.

(** [route_site_delete] *)
Definition route_site_delete (name : list Z) (c : AdminContext) : reply * AdminContext :=
  if existsb (λ s, str_eqb (si_name s) name) (all_sites (ad_registry c))
  then ((200, BOk), mkAdmin (remove_site (ad_registry c) name) (ad_cfg c) (ad_resolvers c) (ad_path c) (ad_files c) (ad_h3_max c))
  else ((404, BErr), c).

(** [route_certs_reload] *)
Definition route_certs_reload (c : AdminContext) : reply * AdminContext :=
  let '((status, body), c') := route_config_reload c in
  if status =? 200 then ((200, BOk), c') else ((status, body), c').

End admin.

(** ** The sites the registry lists *)

Section sites.
Context {R : Type}.

Lemma first_per_name_names seen (l : list (SiteInfo (R := R))) n :
  n ∈ si_name <$> first_per_name seen l ↔ n ∈ si_name <$> l ∧ n ∉ seen.
Proof.
  revert seen. induction l as [|i l IH]; intros seen; cbn [first_per_name fmap list_fmap]; [split; [by intros ?%not_elem_of_nil|by intros [?%not_elem_of_nil _]]|].
  case_bool_decide as Hs; cbn [fmap list_fmap]; rewrite ?elem_of_cons, IH, ?not_elem_of_cons; [naive_solver|].
  destruct (decide (n = si_name i)) as [->|]; naive_solver.
Qed.

Lemma first_per_name_nodup seen (l : list (SiteInfo (R := R))) : NoDup (si_name <$> first_per_name seen l).
Proof.
  revert seen. induction l as [|i l IH]; intros seen; cbn [first_per_name]; [constructor|].
  case_bool_decide; [apply IH|]. cbn [fmap list_fmap]. constructor; [|apply IH].
  rewrite first_per_name_names, not_elem_of_cons. naive_solver.
Qed.

Context (values : gmap (list Z) (SiteInfo (R := R)) → list (SiteInfo (R := R))).
Context (values_spec : ∀ m i, i ∈ values m ↔ ∃ h, m !! h = Some i).

Lemma all_sites_names m n : n ∈ si_name <$> all_sites values m ↔ ∃ h i, exact m !! h = Some i ∧ si_name i = n.
Proof.
  unfold all_sites. rewrite first_per_name_names, list_elem_of_fmap. setoid_rewrite values_spec. split.
  - intros [(i & -> & h & Hi) _]. eauto.
  - intros (h & i & Hi & <-). split; [eauto|apply not_elem_of_nil].
Qed.

End sites.

(** ** Theorems *)

Section admin_theorems.
Context `{L : HeaderLib} {R : Type} (build : list Z → option R) (to_lowercase : list Z → list Z)
  (canonicalize : list Z → option (list (list Z))).
Context {CK G : Type} (global_default : G).
Notation app := (AppConfig (G := G)).
Context (to_value : app → option Value) (from_value : Value → option app) (parse_value : list Z → option Value)
  (parse_config : list Z → option app) (to_toml : app → option (list Z))
  (parse_file : list Z → list Z → option app) (disk_write : list Z → write_result) (max_handlers : TlsConfig → Z)
  (values : gmap (list Z) (SiteInfo (R := R)) → list (SiteInfo (R := R))).

Notation ctx := (AdminContext (R := R) (CK := CK) (G := G)).
Notation tree := (route_config_tree build to_lowercase canonicalize global_default to_value from_value parse_value to_toml disk_write max_handlers values).
Notation mutate := (config_tree_mutate build to_lowercase canonicalize to_value from_value to_toml disk_write max_handlers values).
Notation load := (route_load build to_lowercase canonicalize parse_config to_toml disk_write max_handlers values).
Notation reload := (route_config_reload build to_lowercase canonicalize parse_file max_handlers values).
Notation certs := (route_certs_reload build to_lowercase canonicalize parse_file max_handlers values).
Notation apply := (apply_registry build to_lowercase canonicalize values).
Notation fresh sites := (registry_from_config build to_lowercase canonicalize (vhost_site <$> sites)).

(** *** Failures *)

Lemma mutate_failure q segs edit (c : ctx) r c' : mutate q segs edit c = (r, c') → fst r ≠ 200 → c' = c.
Proof. unfold config_tree_mutate. destruct (tree_new _ _ _ _ _); [|by intros [= <- <-]]. by intros [= <- <-]. Qed.

Lemma tree_failure q (c : ctx) r c' : tree q c = (r, c') → fst r ≠ 200 → c' = c.
Proof.
  unfold route_config_tree, with_value. cbv zeta.
  repeat first [case_match; [..|] | case_match]; try (by intros [= <- <-]); try (apply mutate_failure).
Qed.

Lemma save_failure (c c' : ctx) r :
  route_config_save to_toml disk_write c = (r, c') → fst r ≠ 200 →
  c' = c
  ∨ route_config_save to_toml disk_write c = (r, c')
    ∧ ∃ p text n, ad_path c = Some p ∧ to_toml (ad_cfg c) = Some text ∧ disk_write p = CutShort n
      ∧ c' = set_files (<[p := take n text]> (ad_files c)) c.
Proof.
  intros H Hr. pose proof H as H0. revert H. unfold route_config_save.
  destruct (ad_path c) as [p|] eqn:Ep; [|intros [= <- <-]; by left].
  destruct (to_toml (ad_cfg c)) as [text|] eqn:Et; [|intros [= <- <-]; by left].
  destruct (disk_write p) as [| |n] eqn:Ew; cbn [fs_write]; intros [= <- <-]; [done|left; by destruct c|right].
  split; [done|]. by exists p, text, n.
Qed.

(** C39: A refused change leaves the server as it was.  Whatever a request to the configuration endpoints
    asks for, an answer other than 200 means that the registry, the configuration in force, the
    certificates and the files are what they were, with one exception: saving the configuration can fail
    after the file was truncated, and then, and only then, the configuration file, and nothing else, is
    left with the first part of the new text.  No branch of [apply_config] fails, so that the code's
    rollbacks are never needed: the answers in question come from before it. *)
Theorem admin_failure_keeps_state q name (c c' : ctx) r :
  (tree q c = (r, c') ∨ load q c = (r, c') ∨ reload c = (r, c') ∨ certs c = (r, c')
   ∨ route_config_save to_toml disk_write c = (r, c') ∨ route_site_delete values name c = (r, c')) →
  fst r ≠ 200 →
  c' = c
  ∨ route_config_save to_toml disk_write c = (r, c')
    ∧ ∃ p text n, ad_path c = Some p ∧ to_toml (ad_cfg c) = Some text ∧ disk_write p = CutShort n
      ∧ c' = set_files (<[p := take n text]> (ad_files c)) c.
Proof.
  assert (Hre : ∀ r c', reload c = (r, c') → fst r ≠ 200 → c' = c).
  { intros r0 c0. unfold route_config_reload. repeat case_match; by intros [= <- <-]. }
  intros [H|[H|[H|[H|[H|H]]]]] Hr; [left..|by apply save_failure|left].
  - by eapply tree_failure.
  - revert H Hr. unfold route_load. case_match; by intros [= <- <-].
  - by eapply Hre.
  - revert H Hr. unfold route_certs_reload. destruct (reload c) as [[st b] c1] eqn:E. case_test; [by intros [= <- <-]|].
    intros [= <- <-]. apply (Hre _ _ eq_refl).
  - revert H Hr. unfold route_site_delete. case_match; by intros [= <- <-].
Qed.

(** A failed save is not reported.  A configuration posted with save=true is answered with 200 whatever
    became of the file: when the write fails half way the file holds the first part of the text. *)
Theorem failed_save_reported_as_success (c : ctx) q new p text n :
  parse_config (pr_body q) = Some new → should_save q = true → ad_path c = Some p → to_toml new = Some text →
  disk_write p = CutShort n →
  fst (fst (load q c)) = 200 ∧ ad_files (snd (load q c)) !! p = Some (take n text).
Proof.
  intros Hp Hq Hpath Ht Hw. unfold route_load, apply_config. rewrite Hp. cbn [fst snd]. split; [done|].
  unfold saving, save_config_to_disk. rewrite Hq. cbn [ad_path ad_cfg]. rewrite Hpath, Ht, Hw. cbn. apply lookup_insert_eq.
Qed.

(** *** Certificates *)

Lemma saving_resolvers q (c : ctx) : ad_resolvers (saving to_toml disk_write q c) = ad_resolvers c.
Proof. unfold saving, save_config_to_disk. by repeat case_match. Qed.

(** Nothing reloads a certificate.  The endpoint for reloading certificates, like every other
    configuration endpoint, answers 200 and leaves the certificate tables of all ports as they are. *)
Theorem certs_reload_reloads_nothing q (c : ctx) :
  ad_resolvers (snd (certs c)) = ad_resolvers c ∧ ad_resolvers (snd (load q c)) = ad_resolvers c
  ∧ ad_resolvers (snd (tree q c)) = ad_resolvers c.
Proof.
  assert (Hm : ∀ segs edit, ad_resolvers (snd (mutate q segs edit c)) = ad_resolvers c).
  { intros segs edit. unfold config_tree_mutate. destruct (tree_new _ _ _ _ _); [|done]. unfold tree_apply, apply_config. cbn [snd]. by rewrite saving_resolvers. }
  split_and!.
  - unfold route_certs_reload, route_config_reload. destruct (ad_path c) as [p|]; [destruct (load_file parse_file (ad_files c) p)|]; done.
  - unfold route_load, apply_config. case_match; [|done]. cbn [snd]. by rewrite saving_resolvers.
  - unfold route_config_tree, with_value. cbv zeta. repeat case_match; try done; try apply Hm. unfold apply_config in *. by simplify_eq.
Qed.

(** *** Edits *)

Lemma tree_new_ok segs edit (c : ctx) new :
  tree_new to_value from_value segs edit c = Ok new →
  ∃ root target put target', to_value (ad_cfg c) = Some root ∧ json_navigate_mut root segs = Some (target, put)
    ∧ edit target = Ok target' ∧ from_value (put target') = Some new.
Proof.
  unfold tree_new. destruct (to_value (ad_cfg c)) as [root|]; [|done].
  destruct (json_navigate_mut root segs) as [[t put]|] eqn:En; [|done]. destruct (edit t) as [t'|] eqn:Ee; [|done].
  destruct (from_value (put t')) as [n|] eqn:E; [|done]. intros [= <-]. by exists root, t, put, t'.
Qed.

Lemma saving_cfg q (c : ctx) : ad_cfg (saving to_toml disk_write q c) = ad_cfg c ∧ ad_registry (saving to_toml disk_write q c) = ad_registry c.
Proof. unfold saving, save_config_to_disk. by repeat case_match. Qed.

Lemma mutate_ok q segs edit (c : ctx) r c' :
  mutate q segs edit c = (r, c') → fst r = 200 →
  ∃ root target put target', to_value (ad_cfg c) = Some root ∧ json_navigate_mut root segs = Some (target, put)
    ∧ edit target = Ok target' ∧ from_value (put target') = Some (ad_cfg c')
    ∧ ad_registry c' = apply (ad_registry c) (ac_sites (ad_cfg c')).
Proof.
  unfold config_tree_mutate. destruct (tree_new _ _ _ _ _) as [new|e] eqn:E.
  - intros [= <- <-] _. destruct (tree_new_ok _ _ _ _ E) as (root & t & put & t' & H1 & H2 & H3 & H4).
    exists root, t, put, t'. destruct (saving_cfg q (mkAdmin (apply (ad_registry c) (ac_sites new)) new (ad_resolvers c) (ad_path c) (ad_files c)
        (h3_handlers max_handlers (ac_sites new)))) as [-> ->]. done.
  - intros [= <- <-]. unfold tree_new in E. repeat case_match; simplify_eq/=; done.
Qed.

(** Creating a node through the interface is exact.  When PUT of a path answers 200, the configuration
    in force is read from a tree in which the path holds the value of the request and every path that
    leads elsewhere holds what the old configuration had. *)
Theorem admin_put_exact q (c c' : ctx) r parent last :
  pr_method q = lit "PUT" → split_last (tree_segments (pr_path q)) = Some (parent, last) → last ≠ [] →
  tree q c = (r, c') → fst r = 200 →
  ∃ root root' v, to_value (ad_cfg c) = Some root ∧ parse_value (pr_body q) = Some v ∧ from_value root' = Some (ad_cfg c')
    ∧ json_navigate root' (parent ++ [last]) = Some v
    ∧ (∀ other, diverge parent other → json_navigate root' other = json_navigate root other)
    ∧ ad_registry c' = apply (ad_registry c) (ac_sites (ad_cfg c')).
Proof.
  intros Hm Hs Hl. unfold route_config_tree. rewrite Hm, Hs. unfold with_value.
  change (str_eqb (lit "PUT") (lit "GET")) with false. change (str_eqb (lit "PUT") (lit "POST")) with false.
  change (str_eqb (lit "PUT") (lit "PUT")) with true. cbv iota zeta.
  destruct (parse_value (pr_body q)) as [v|]; [|by intros [= <- <-]].
  intros H H200. destruct (mutate_ok _ _ _ _ _ _ H H200) as (root & t & put & t' & H1 & H2 & H3 & H4 & H5).
  destruct (put_exact _ _ _ _ _ _ _ H2 H3 Hl) as (P1 & P2 & _). exists root, (put t'), v. done.
Qed.

(** Two edits at once lose one.  Edits read the configuration, work out a new one and store it without
    a lock: when two begin on the same state, the second to finish wins and no trace of the first is
    left in the configuration. *)
Theorem concurrent_edits_lose_one q1 q2 (c c1 c2 : ctx) segs1 segs2 edit1 edit2 new1 new2 r1 r2 :
  tree_new to_value from_value segs1 edit1 c = Ok new1 → tree_new to_value from_value segs2 edit2 c = Ok new2 →
  tree_apply build to_lowercase canonicalize to_toml disk_write max_handlers values q1 (ad_cfg c) new1 c = (r1, c1) →
  tree_apply build to_lowercase canonicalize to_toml disk_write max_handlers values q2 (ad_cfg c) new2 c1 = (r2, c2) →
  fst r1 = 200 ∧ fst r2 = 200 ∧ ad_cfg c2 = new2.
Proof.
  intros _ _. unfold tree_apply. intros [= <- <-] [= <- <-]. split_and!; [done..|].
  apply (saving_cfg q2 (mkAdmin _ new2 _ _ _ _)).
Qed.

(** *** Loading *)

(** Loading through the interface checks nothing.  A configuration that the loader of the
    configuration file would reject is accepted and put into force; and when it is saved as well, the
    file can no longer be loaded: the next reload and the next start fail. *)
Theorem admin_load_unchecked q (c : ctx) new p text :
  parse_config (pr_body q) = Some new → load_config (Some (ac_sites new)) = None → should_save q = true →
  ad_path c = Some p → disk_write p = Written → to_toml new = Some text → parse_file p text = Some new →
  let '(r, c') := load q c in
  fst r = 200 ∧ ad_cfg c' = new ∧ load_file parse_file (ad_files c') p = None.
Proof.
  intros Hp Hl Hs Hpath Hw Ht Hf. unfold route_load, apply_config. rewrite Hp. unfold saving. rewrite Hs.
  unfold save_config_to_disk. cbn [ad_path ad_cfg]. rewrite Hpath, Ht, Hw. cbn. split_and!; [done..|].
  unfold load_file. rewrite lookup_insert_eq. cbn [mbind option_bind]. rewrite Hf. cbn [mbind option_bind]. by rewrite Hl.
Qed.

(** Saving and reloading is the identity.  A configuration that came from the loader, saved and
    reloaded, is in force again as it was, provided the text format gives back what was written. *)
Theorem admin_save_reload (c : ctx) raw p text :
  ad_path c = Some p → disk_write p = Written → to_toml (ad_cfg c) = Some text → parse_file p text = Some (ad_cfg c) →
  load_config (Some raw) = Some (ac_sites (ad_cfg c)) →
  let '(r1, c1) := route_config_save to_toml disk_write c in
  let '(r2, c2) := reload c1 in
  fst r1 = 200 ∧ fst r2 = 200 ∧ ad_cfg c2 = ad_cfg c.
Proof.
  intros Hpath Hw Ht Hf Hl. unfold route_config_save. rewrite Hpath, Ht, Hw. cbn [fs_write].
  unfold route_config_reload, set_files. cbn [ad_path ad_files]. rewrite Hpath. unfold load_file. rewrite lookup_insert_eq.
  cbn [mbind option_bind]. rewrite Hf. cbn [mbind option_bind].
  assert (E : load_config (Some (ac_sites (ad_cfg c))) = Some (ac_sites (ad_cfg c))).
  { unfold load_config in *. cbn [mbind option_bind] in *. destruct (validate_config (expand_config raw)) eqn:Ev; [done|].
    injection Hl as <-. rewrite (proj1 (expand_respects_manual raw)). by rewrite Ev. }
  rewrite E. cbn. split_and!; [done..|]. by destruct (ad_cfg c).
Qed.

(** *** Sites *)

Context (values_spec : ∀ m i, i ∈ values m ↔ ∃ h, m !! h = Some i).

(** The operations of [apply_registry]. *)
Definition apply_ops (m : VHostInner (R := R)) (sites : list SiteFile) : list reg_op :=
  (ORemove <$> filter (λ n, n ∉ cf_name <$> sites) (si_name <$> all_sites values m)) ++ (OUpsert <$> (vhost_site <$> sites)).

Lemma apply_registry_ops m sites :
  apply m sites = foldl (run_op build to_lowercase canonicalize) m (apply_ops m sites).
Proof.
  unfold apply_registry, apply_ops. rewrite foldl_app. cbv zeta.
  assert (E : ∀ names m', foldl (λ m n, if bool_decide (n ∈ cf_name <$> sites) then m else remove_site m n) m' names
            = foldl (run_op build to_lowercase canonicalize) m' (ORemove <$> filter (λ n, n ∉ cf_name <$> sites) names)).
  { induction names as [|n names IH]; intros m'; [done|]. cbn [foldl]. rewrite filter_cons.
    destruct (decide (n ∉ cf_name <$> sites)) as [Hn|Hn].
    - rewrite bool_decide_false by done. cbn [fmap list_fmap foldl run_op]. apply IH.
    - rewrite bool_decide_true; [apply IH|]. destruct (decide (n ∈ cf_name <$> sites)); [done|]. by destruct Hn. }
  rewrite E. generalize (foldl (run_op build to_lowercase canonicalize) m (ORemove <$> filter (λ n, n ∉ cf_name <$> sites) (si_name <$> all_sites values m))).
  clear E. induction sites as [|s sites IH]; intros m'; [done|]. cbn [foldl fmap list_fmap run_op]. apply IH.
Qed.

Lemma apply_ops_names m sites :
  op_name <$> apply_ops m sites = filter (λ n, n ∉ cf_name <$> sites) (si_name <$> all_sites values m) ++ (cf_name <$> sites).
Proof.
  unfold apply_ops. rewrite fmap_app, <- !list_fmap_compose. f_equal. by apply list_fmap_id.
Qed.

Lemma apply_ops_nodup m sites : NoDup (cf_name <$> sites) → NoDup (op_name <$> apply_ops m sites).
Proof.
  intros Hn. rewrite apply_ops_names. apply NoDup_app. split_and!; [apply NoDup_filter, first_per_name_nodup| |done].
  intros n [H _]%list_elem_of_filter. done.
Qed.

(** C15: Applying a configuration is starting afresh with it.  When the registry is that of the old
    configuration, with whatever logs and caches attached, both configurations have distinct site names
    and claim no host, wildcard or fallback twice, every site that goes has a plain name
    ([wildcard_site_survives]), and a fallback site that stays leaves a fallback, then a configuration
    posted to /load is answered with 200, and every host is answered afterwards by the site, with all its
    settings, that a server started with that configuration as it stands answers it by.  As it stands:
    /load neither expands nor checks it as the loader of a file does ([admin_load_unchecked]), and logs
    and caches, which a start attaches, are attached to none of its sites. *)
Theorem admin_apply_is_fresh_start (c : ctx) old q new c' r host :
  conflict_free to_lowercase (vhost_site <$> old) → conflict_free to_lowercase (vhost_site <$> ac_sites new) →
  bare_registry (ad_registry c) = fresh old → parse_config (pr_body q) = Some new →
  (∀ a, a ∈ old → cf_name a ∉ cf_name <$> ac_sites new → exact_names to_lowercase (vhost_site a) ≠ []) →
  (∀ a, a ∈ old → cf_fallback a = true → cf_name a ∈ cf_name <$> ac_sites new → Exists (λ b, cf_fallback b = true) (ac_sites new)) →
  route_load build to_lowercase canonicalize parse_config to_toml disk_write max_handlers values q c = (r, c') →
  fst r = 200 ∧ bare <$> lookup_inner (ad_registry c') host = lookup_inner (fresh (ac_sites new)) host.
Proof using values_spec.
  intros Ho Hn Hreg Hp Hex Hfb. unfold route_load, apply_config. rewrite Hp. intros [= <- <-]. split; [done|].
  rewrite (proj2 (saving_cfg _ _)). cbn [ad_registry]. rewrite apply_registry_ops, <- bare_lookup, bare_ops, Hreg.
  pose proof Hn as (Hnn & _). pose proof Ho as (Hno & Hox & _). rewrite names_vhost in Hnn.
  assert (Hgone : ∀ a, a ∈ old → cf_name a ∉ cf_name <$> ac_sites new → cf_name a ∈ si_name <$> all_sites values (ad_registry c)).
  { intros a Ha Hout. specialize (Hex a Ha Hout). destruct (exact_names to_lowercase (vhost_site a)) as [|h hs] eqn:Eh; [done|].
    assert (Hh : h ∈ exact_names to_lowercase (vhost_site a)) by (rewrite Eh; apply list_elem_of_here).
    assert (Hx : exact (bare_registry (ad_registry c)) !! h = Some (site_from_config build canonicalize (vhost_site a))).
    2: { cbn [exact bare_registry] in Hx. rewrite lookup_fmap in Hx. destruct (exact (ad_registry c) !! h) as [j|] eqn:Ej; [|done].
         apply (all_sites_names values values_spec). exists h, j. split; [done|].
         by apply (f_equal (fmap si_name)) in Hx; injection Hx. }
    rewrite Hreg, (proj1 (registry_tables build to_lowercase canonicalize (vhost_site <$> old) h Hno)).
    rewrite (last_with_unique _ _ (vhost_site a)); [done|by apply list_elem_of_fmap_2|by apply bool_decide_true|].
    intros b Hb Hhb%bool_decide_eq_true. by apply (Hox b (vhost_site a) h Hb (list_elem_of_fmap_2 _ _ _ Ha)). }
  apply (f_equal (λ m, lookup_inner m host)), reloaded_registry; [done..| |].
  - intros a' (a & -> & Ha)%list_elem_of_fmap Hf Hin. rewrite names_vhost in Hin. apply Exists_fmap. by apply (Hfb a).
  - split.
    + by apply apply_ops_nodup.
    + intros x [Hx|Hx]%elem_of_app; [by apply list_elem_of_fmap in Hx as (? & ? & _)|].
      by apply list_elem_of_fmap in Hx as (y & [= ->] & Hy).
    + intros x Hx. left. apply elem_of_app. right. by apply list_elem_of_fmap_2.
    + intros a' (a & -> & Ha)%list_elem_of_fmap. rewrite apply_ops_names, not_elem_of_app. intros [H1 H2]. exfalso. apply H1.
      apply list_elem_of_filter. split; [done|]. by apply Hgone.
    + intros a' (a & -> & Ha)%list_elem_of_fmap. rewrite names_vhost. intros Hout. apply elem_of_app. left.
      apply list_elem_of_fmap_2, list_elem_of_filter. split; [done|]. by apply Hgone.
Qed.

(** Sites with wildcard names only cannot be taken out of service.  Whatever configuration is put into
    force, the empty one included, a site that is known by wildcards only and is not in it goes on
    answering their hosts; and it cannot be deleted by name either. *)
Theorem wildcard_site_survives (c : ctx) i d sites :
  wildcard (ad_registry c) !! d = Some i →
  (∀ h j, exact (ad_registry c) !! h = Some j → si_name j ≠ si_name i) →
  si_name i ∉ cf_name <$> sites → (∀ s, s ∈ sites → d ∉ wildcard_names to_lowercase (vhost_site s)) →
  wildcard (apply (ad_registry c) sites) !! d = Some i ∧ route_site_delete values (si_name i) c = ((404, BErr), c).
Proof using values_spec.
  intros Hw Hx Hn Hs.
  assert (Hnot : si_name i ∉ si_name <$> all_sites values (ad_registry c)).
  { rewrite (all_sites_names values values_spec). intros (h & j & Hj & E). by apply (Hx h j). }
  split.
  - rewrite apply_registry_ops. apply (ops_untouched build to_lowercase canonicalize wildcard (wildcard_names to_lowercase) (wildcard_table _ _ _)).
    + done.
    + rewrite apply_ops_names, not_elem_of_app. split; [|done]. intros [_ H]%list_elem_of_filter. done.
    + intros a [Ha|Ha]%elem_of_app; [by apply list_elem_of_fmap in Ha as (? & ? & _)|].
      apply list_elem_of_fmap in Ha as (? & [= <-] & (s & -> & Hin)%list_elem_of_fmap). by apply Hs.
  - unfold route_site_delete. destruct (existsb _ _) eqn:E; [|done]. exfalso.
    apply existsb_exists in E as (j & Hj & E%str_eqb_eq). apply Hnot. rewrite <- E. apply list_elem_of_fmap_2. by apply list_elem_of_In.
Qed.

(** A deleted site comes back.  Deleting a site takes it out of the registry and leaves it in the
    configuration, so the next successful edit of anything registers it again. *)
Theorem deleted_site_returns name (c c1 c2 : ctx) r1 r2 q segs edit s h :
  route_site_delete values name c = (r1, c1) → mutate q segs edit c1 = (r2, c2) → fst r2 = 200 →
  s ∈ ac_sites (ad_cfg c2) → cf_name s = name → NoDup (cf_name <$> ac_sites (ad_cfg c2)) →
  h ∈ exact_names to_lowercase (vhost_site s) →
  (∀ s', s' ∈ ac_sites (ad_cfg c2) → h ∈ exact_names to_lowercase (vhost_site s') → s' = s) →
  ad_cfg c1 = ad_cfg c ∧ exact (ad_registry c2) !! h = Some (site_from_config build canonicalize (vhost_site s)).
Proof.
  intros Hd Hm H200 Hs Hname Hnd Hh Hu. split.
  { revert Hd. unfold route_site_delete. case_match; by intros [= <- <-]. }
  destruct (mutate_ok _ _ _ _ _ _ Hm H200) as (_ & _ & _ & _ & _ & _ & _ & _ & ->). rewrite apply_registry_ops.
  apply (ops_upserted build to_lowercase canonicalize exact (exact_names to_lowercase) (exact_table _ _ _)).
  - by apply apply_ops_nodup.
  - apply elem_of_app. right. by do 2 apply list_elem_of_fmap_2.
  - done.
  - intros a [Ha|Ha]%elem_of_app; [by apply list_elem_of_fmap in Ha as (? & ? & _)|].
    apply list_elem_of_fmap in Ha as (? & [= <-] & (s' & -> & Hin)%list_elem_of_fmap). intros Hh'. by rewrite (Hu s').
Qed.

End admin_theorems.

(** ** Witnesses *)

Module Witness.
Import Headers.Model HotReload.Witness.

Definition vals (m : gmap (list Z) (SiteInfo (R := unit))) : list (SiteInfo (R := unit)) := snd <$> map_to_list m.
Lemma vals_spec m i : i ∈ vals m ↔ ∃ h, m !! h = Some i.
Proof.
  unfold vals. rewrite list_elem_of_fmap. split.
  - intros ([h j] & -> & H%elem_of_map_to_list). by exists h.
  - intros [h H]. exists (h, i). split; [done|]. by apply elem_of_map_to_list.
Qed.

(** A configuration is written as the list of its site names. *)
Definition named (v : Value) : option SiteFile :=
  match v with
  | JString n => Some (mkFile n [n] [80] [443] None [] None None [] [] [] None false false None ∅ None None None true (mkSC (mkSiteCompress None None None None None None None) None None) None)
  | _ => None
  end.
Notation app := (AppConfig (G := unit)).
Definition to_val (c : app) : option Value := Some (JArray (JString ∘ cf_name <$> ac_sites c)).
Definition from_val (v : Value) : option app := match v with JArray l => Some (mkApp tt (omap named l)) | _ => None end.
Definition p_value (b : list Z) : option Value := Some (JString b).
Definition p_config (b : list Z) : option app := Some (mkApp tt (if bool_decide (b = lit "bad") then [site "x" []] else new)).
Definition toml (c : app) : option (list Z) := Some (join [LF] (cf_name <$> ac_sites c)).
Definition p_file (p t : list Z) : option app := Some (mkApp tt (if bool_decide (t = lit "x") then [site "x" []] else old)).
Definition writable (p : list Z) : write_result := Written.
Definition handlers (t : TlsConfig) : Z := 0.

Definition admin (sites : list SiteFile) : AdminContext (CK := Z) := mkAdmin (reg (vhost_site <$> sites)) (mkApp tt sites) ∅ (Some (lit "c.toml")) ∅ 0.
Definition req (m p b : string) : ParsedRequest := mkAdminReq (lit m) (fst (parse_path_query (lit p))) (snd (parse_path_query (lit p))) ∅ (lit b).

Notation tree := (route_config_tree bld to_ascii_lowercase canon tt to_val from_val p_value toml writable handlers vals).
Notation load := (route_load bld to_ascii_lowercase canon p_config toml writable handlers vals).
Notation reload := (route_config_reload bld to_ascii_lowercase canon p_file handlers vals).
Notation certs := (route_certs_reload bld to_ascii_lowercase canon p_file handlers vals).

(** A disk that takes one byte of the text. *)
Lemma admin_failure_keeps_state_witness :
  let c' := snd (route_config_save toml (λ _, CutShort 1) (admin old)) in
  fst (fst (route_config_save toml (λ _, CutShort 1) (admin old))) = 500 ∧ ad_files c' ≠ ad_files (admin old)
  ∧ ∃ p text n, ad_path (admin old) = Some p ∧ toml (ad_cfg (admin old)) = Some text
      ∧ c' = set_files (<[p := take n text]> (ad_files (admin old))) (admin old).
Proof.
  destruct (route_config_save toml (λ _, CutShort 1) (admin old)) as [r c'] eqn:E.
  assert (Hr : fst r = 500) by (by rewrite <- (f_equal (fst ∘ fst) E : _ = fst r); vm_compute).
  assert (Hf : ad_files c' ≠ ad_files (admin old)) by (rewrite <- (f_equal (ad_files ∘ snd) E : _ = ad_files c'); vm_compute; discriminate).
  cbn [fst snd]. split; [exact Hr|]. split; [exact Hf|].
  destruct (admin_failure_keeps_state bld to_ascii_lowercase canon tt to_val from_val p_value p_config toml p_file (λ _, CutShort 1) handlers vals
           (req "POST" "/config/save" "") [] (admin old) c' r) as [->|(_ & p & text & n & H1 & H2 & _ & H4)].
  - do 4 right. left. exact E.
  - rewrite Hr. discriminate.
  - by destruct Hf.
  - exists p, text, n. split_and!; assumption.
Defined.

Lemma admin_put_exact_witness :
  ∃ root root' v, to_val (mkApp tt old) = Some root ∧ p_value (lit "z") = Some v
    ∧ json_navigate root' ([] ++ [lit "1"]) = Some v.
Proof.
  destruct (tree (req "PUT" "/config/1" "z") (admin old)) as [r c'] eqn:E.
  assert (Hr : fst (fst (tree (req "PUT" "/config/1" "z") (admin old))) = 200) by (by vm_compute). rewrite E in Hr; cbn [fst] in Hr.
  destruct (admin_put_exact bld to_ascii_lowercase canon tt to_val from_val p_value toml writable handlers vals
              (req "PUT" "/config/1" "z") (admin old) c' r [] (lit "1")) as (root & root' & v & H1 & H2 & _ & H3 & _);
    [reflexivity|reflexivity|discriminate|exact E|exact Hr|]. exists root, root', v. split; [exact H1|split; [exact H2|exact H3]].
Defined.

Lemma admin_load_unchecked_witness :
  let '(r, c') := load (req "POST" "/load?save=1" "bad") (admin old) in
  fst r = 200 ∧ ad_cfg c' = mkApp tt [site "x" []] ∧ load_file p_file (ad_files c') (lit "c.toml") = None.
Proof.
  apply (admin_load_unchecked bld to_ascii_lowercase canon p_config toml p_file writable handlers vals
           (req "POST" "/load?save=1" "bad") (admin old) (mkApp tt [site "x" []]) (lit "c.toml") (lit "x")); reflexivity.
Defined.

Lemma admin_save_reload_witness :
  let '(r1, c1) := route_config_save toml writable (admin old) in
  let '(r2, c2) := reload c1 in fst r1 = 200 ∧ fst r2 = 200 ∧ ad_cfg c2 = ad_cfg (admin old).
Proof.
  apply (admin_save_reload bld to_ascii_lowercase canon toml p_file writable handlers vals (admin old) old (lit "c.toml")
           (lit "a" ++ [LF] ++ lit "b")); reflexivity.
Defined.

Lemma admin_apply_is_fresh_start_witness :
  ∃ r c', load (req "POST" "/load" "new") (admin old) = (r, c') ∧ fst r = 200
    ∧ bare <$> lookup_inner (ad_registry c') (lit "b.test") = lookup_inner (reg (vhost_site <$> new)) (lit "b.test").
Proof.
  destruct (load (req "POST" "/load" "new") (admin old)) as [r c'] eqn:E. exists r, c'. split; [reflexivity|].
  apply (admin_apply_is_fresh_start bld to_ascii_lowercase canon p_config toml writable handlers vals vals_spec
           (admin old) old (req "POST" "/load" "new") (mkApp tt new) c' r (lit "b.test"));
    [exact old_conflict_free|exact new_conflict_free|by vm_compute|reflexivity| | |exact E].
  - intros a Ha _. unfold old in Ha. members; discriminate.
  - intros a Ha Hf. unfold old in Ha. members; discriminate Hf.
Defined.

Definition wild : list SiteFile := [site "w" ["*.w.test"]%string].

Lemma wildcard_site_survives_witness :
  ∃ i, wildcard (apply_registry bld to_ascii_lowercase canon vals (ad_registry (admin wild)) []) !! lit "w.test" = Some i
    ∧ route_site_delete vals (si_name i) (admin wild) = ((404, BErr), admin wild).
Proof.
  exists (site_from_config bld canon (vhost_site (site "w" ["*.w.test"]%string))).
  apply (wildcard_site_survives bld to_ascii_lowercase canon vals vals_spec (admin wild) _ (lit "w.test") []).
  - reflexivity.
  - intros h j Hj. assert (E : exact (ad_registry (admin wild)) = ∅) by reflexivity. rewrite E, lookup_empty in Hj. discriminate Hj.
  - apply not_elem_of_nil.
  - intros s Hs. by apply not_elem_of_nil in Hs.
Defined.

Lemma deleted_site_returns_witness :
  ∃ c1 c2, snd (route_site_delete vals (lit "a") (admin old)) = c1
    ∧ snd (config_tree_mutate bld to_ascii_lowercase canon to_val from_val toml writable handlers vals
             (req "PUT" "/config/1" "z") [] (put_edit (JString (lit "z")) (lit "1")) c1) = c2
    ∧ is_Some (exact (ad_registry c2) !! lit "a").
Proof.
  do 2 eexists. split; [reflexivity|]. split; [reflexivity|].
  destruct (route_site_delete vals (lit "a") (admin old)) as [r1 c1] eqn:E1. cbn [snd].
  destruct (config_tree_mutate bld to_ascii_lowercase canon to_val from_val toml writable handlers vals
             (req "PUT" "/config/1" "z") [] (put_edit (JString (lit "z")) (lit "1")) c1) as [r2 c2] eqn:E2. cbn [snd].
  assert (Hc : ac_sites (ad_cfg c2) = omap named [JString (lit "a"); JString (lit "z"); JString (lit "b")] ∧ fst r2 = 200).
  { pose proof (f_equal snd E1) as Hs. cbn [snd] in Hs. subst c1.
    split; [change c2 with (snd (r2, c2))|change r2 with (fst (r2, c2))]; rewrite <- E2; by vm_compute. }
  destruct Hc as [Hc Hr].
  destruct (deleted_site_returns bld to_ascii_lowercase canon to_val from_val toml writable handlers vals (lit "a") (admin old) c1 c2 r1 r2
              (req "PUT" "/config/1" "z") [] (put_edit (JString (lit "z")) (lit "1"))
              (mkFile (lit "a") [lit "a"] [80] [443] None [] None None [] [] [] None false false None ∅ None None None true (mkSC (mkSiteCompress None None None None None None None) None None) None) (lit "a") E1 E2 Hr)
    as [_ H]; [| | | | |rewrite H; by eexists].
  - rewrite Hc. by left.
  - reflexivity.
  - rewrite Hc. apply (bool_decide_unpack _). by vm_compute.
  - apply (bool_decide_unpack _). by vm_compute.
  - rewrite Hc. cbn [omap list_omap named]. intros s' Hs'. clear -Hs'. members; [done|..]; intros Hh; exfalso; revert Hh;
      apply (bool_decide_unpack _); by vm_compute.
Defined.

End Witness.
