(* ===== verification/AdminRoutes.v ===== *)
(** * The routes of the admin interface

    src/admin_api/router.rs with the endpoints of handlers/upstreams.rs,
    handlers/runtime.rs and handlers/system.rs that act on the server: which
    endpoint a request reaches, what the node commands, the listings, the cache
    and the certificate endpoints do, and the whole interface behind the
    request reader of AdminServer.v. *)

From S2P Require Import Prelude RustStr Http1 CircuitBreaker LoadBalance Headers ProxyCache Location VHost Config Tls HotReload Json AdminServer AdminConfig.

(** ** Dispatch *)

Inductive endpoint :=
| ELoad | ESave | EReload | ETest | ETree | EId | EAdapt | ECaddy | EMetrics
| EHealth | EVersion | ESystem | EDoc | EStop | EDebug | EStats
| ESites | ESite (name : list Z) | ESiteDelete (name : list Z)
| EUpstreams | EUpstream (name : list Z) | ENode (name addr action : list Z)
| ECerts | ECertsReload | ERenew | ECacheStats | EPurge | EConnections | EPlugins | ELogGet | ELogSet
| ENotFound.

Definition is_route (m p : list Z) (method path : string) : bool := str_eqb m (lit method) && str_eqb p (lit path).

(** The rest of [p] behind [prefix], when it is one segment. *)
Definition one_segment (prefix : string) (p : list Z) : option (list Z) :=
  match strip_prefix (lit prefix) p with
  | Some rest => if negb (bool_decide (rest = [])) && negb (existsb (λ b, b =? byte_slash) rest) then Some rest else None
  | None => None
  end.

(** The path of [route_upstream_node_action]. *)
Definition node_path (p : list Z) : option (list Z * list Z * list Z) :=
  rest ← strip_prefix (lit "/api/upstreams/") p;
  i ← find_sub (lit "/nodes/") rest;
  '(addr, action) ← rsplit_once byte_slash (drop (i + 7) rest);
  Some (take i rest, urldecode addr, action).

Definition route_endpoint (m p : list Z) : endpoint :=
  if is_route m p "POST" "/load" then ELoad
  else if is_route m p "POST" "/config/save" then ESave
  else if is_route m p "POST" "/config/reload" then EReload
  else if is_route m p "POST" "/config/test" then ETest
  else if str_eqb p (lit "/config") || str_eqb p (lit "/config/") || starts_with (lit "/config/") p then ETree
  else if starts_with (lit "/id/") p then EId
  else if is_route m p "POST" "/adapt" then EAdapt
  else if is_route m p "GET" "/reverse_proxy/upstreams" then ECaddy
  else if is_route m p "GET" "/metrics" then EMetrics
  else if is_route m p "GET" "/api/health" || is_route m p "GET" "/health" then EHealth
  else if is_route m p "GET" "/api/version" then EVersion
  else if is_route m p "GET" "/api/system" then ESystem
  else if is_route m p "GET" "/api/doc" then EDoc
  else if is_route m p "POST" "/api/stop" then EStop
  else if is_route m p "GET" "/api/debug" then EDebug
  else if is_route m p "GET" "/api/stats" then EStats
  else if is_route m p "GET" "/api/sites" then ESites
  else
    match (if str_eqb m (lit "GET") then one_segment "/api/sites/" p else None) with
    | Some n => ESite n
    | None =>
    match (if str_eqb m (lit "DELETE") then one_segment "/api/sites/" p else None) with
    | Some n => ESiteDelete n
    | None =>
    if is_route m p "GET" "/api/upstreams" then EUpstreams
    else
    match (if str_eqb m (lit "GET") then one_segment "/api/upstreams/" p else None) with
    | Some n => EUpstream n
    | None =>
    match (if (str_eqb m (lit "POST") || str_eqb m (lit "PUT")) && starts_with (lit "/api/upstreams/") p then node_path p else None) with
    | Some (n, a, x) => ENode n a x
    | None =>
    if is_route m p "GET" "/api/certs" then ECerts
    else if is_route m p "POST" "/api/certs/reload" then ECertsReload
    else if str_eqb m (lit "POST") && (str_eqb p (lit "/api/certs/acme/renew") || starts_with (lit "/api/certs/acme/renew?") p) then ERenew
    else if is_route m p "GET" "/api/cache/stats" then ECacheStats
    else if is_route m p "POST" "/api/cache/purge" then EPurge
    else if is_route m p "GET" "/api/connections" then EConnections
    else if is_route m p "GET" "/api/plugins" then EPlugins
    else if is_route m p "GET" "/api/logs/level" then ELogGet
    else if is_route m p "PUT" "/api/logs/level" then ELogSet
    else ENotFound
    end end end end.

(** ** Upstream nodes *)

(** The sites of the registry with their upstream groups. *)
Notation groups := (list (list Z * gmap (list Z) UpstreamPool)).

Inductive node_change := NEnable | NDisable | NWeight (w : Z).

Definition json_u64 (v : Value) : option Z := match v with JNumber (PosInt n) => Some n | _ => None end.
Definition json_member (k : list Z) (v : Value) : option Value := match v with JObject m => obj_get k m | _ => None end.

Definition json_weight (v : Value) : option Z := json_member (lit "weight") v ≫= json_u64.

(** What the action and the method ask for; [None] when they do not fit. *)
Definition node_command (parse_value : list Z → option Value) (q : ParsedRequest) (action : list Z) : option (result node_change unit) :=
  if str_eqb action (lit "enable") && str_eqb (pr_method q) (lit "POST") then Some (Ok NEnable)
  else if str_eqb action (lit "disable") && str_eqb (pr_method q) (lit "POST") then Some (Ok NDisable)
  else if str_eqb action (lit "weight") && str_eqb (pr_method q) (lit "PUT") then
    match parse_value (pr_body q) ≫= json_weight with
    | Some w => Some (Ok (NWeight w))
    | None => Some (Err tt)
    end
  else None.

Definition set_weight (w : Z) (n : NodeState) : NodeState :=
  mkNode (addr n) w (healthy n) (active_connections n) (fail_count n) (tls n) (tls_sni n) (tls_insecure n)
    (upstream_host n) (http2 n) (send_proxy_protocol n) (circuit_breaker n).

(** [w as u32] keeps the low bits. *)
Definition change_node (ch : node_change) (n : NodeState) : NodeState :=
  match ch with
  | NEnable => mark_healthy n
  | NDisable => mark_unhealthy n
  | NWeight w => set_weight (wrap32 w) n
  end.

Definition is_node (a : list Z) (n : NodeState) : bool := str_eqb (addr_as_str (LoadBalance.addr n)) a.

Fixpoint change_first (p : NodeState → bool) (f : NodeState → NodeState) (ns : list NodeState) : list NodeState :=
  match ns with
  | [] => []
  | n :: ns => if p n then f n :: ns else n :: change_first p f ns
  end.

(** The first site that has the group. *)
Fixpoint route_upstream_node_action (parse_value : list Z → option Value) (q : ParsedRequest) (name a action : list Z)
    (gs : groups) : Z * groups :=
  match gs with
  | [] => (404, [])
  | (site, pools) :: gs' =>
      match pools !! name with
      | None => let '(st, gs'') := route_upstream_node_action parse_value q name a action gs' in (st, (site, pools) :: gs'')
      | Some pool =>
          if existsb (is_node a) (nodes pool) then
            match node_command parse_value q action with
            | Some (Ok ch) => (200, (site, <[name := set_nodes (change_first (is_node a) (change_node ch) (nodes pool)) pool]> pools) :: gs')
            | Some (Err _) => (400, gs)
            | None => (404, gs)
            end
          else (404, gs)
      end
  end.

(** A listing asks every node it shows whether it is available. *)
Definition probe_pool (now : Z) (p : UpstreamPool) : UpstreamPool := set_nodes (snd (scan_all now (nodes p))) p.

Fixpoint route_upstreams_list (now : Z) (seen : gset (list Z)) (gs : groups) : groups :=
  match gs with
  | [] => []
  | (site, pools) :: gs =>
      (site, map_imap (λ k p, Some (if bool_decide (k ∈ seen) then p else probe_pool now p)) pools)
      :: route_upstreams_list now (seen ∪ dom pools) gs
  end.

Fixpoint route_upstream_detail (now : Z) (name : list Z) (gs : groups) : Z * groups :=
  match gs with
  | [] => (404, [])
  | (site, pools) :: gs' =>
      match pools !! name with
      | Some p => (200, (site, <[name := probe_pool now p]> pools) :: gs')
      | None => let '(st, gs'') := route_upstream_detail now name gs' in (st, (site, pools) :: gs'')
      end
  end.

(** ** Running an endpoint *)

Section routes.
Context `{L : HeaderLib} {R : Type} (build : list Z → option R) (to_lowercase : list Z → list Z)
  (canonicalize : list Z → option (list (list Z))).
Context {CK G : Type} (global_default : G).
Notation app := (AppConfig (G := G)).
Context (to_value : app → option Value) (from_value : Value → option app) (parse_value : list Z → option Value)
  (parse_config : list Z → option app) (to_toml : app → option (list Z))
  (parse_file : list Z → list Z → option app) (disk_write : list Z → write_result) (max_handlers : TlsConfig → Z)
  (values : gmap (list Z) (SiteInfo (R := R)) → list (SiteInfo (R := R))).

(** Work an endpoint starts in the background. *)
Inductive admin_task := TStop | TRenew (site : option (list Z)).

Record AdminState := mkState {
  as_ctx : AdminContext (R := R) (CK := CK) (G := G);
  as_groups : groups;
  as_caches : gmap Z ProxyCache;
  as_tasks : list admin_task;
}.

(** [route_cache_purge]: the caches of the listed sites. *)
Definition purge_handle (h : option Z) (caches : gmap Z ProxyCache) : gmap Z ProxyCache :=
  match h with Some k => alter purge_all k caches | None => caches end.
Definition route_cache_purge (sites : list (SiteInfo (R := R))) (caches : gmap Z ProxyCache) : gmap Z ProxyCache :=
  foldl (λ caches s, purge_handle (si_fcgi_cache s) (purge_handle (si_proxy_cache s) caches)) caches sites.

(** [route_certs_acme_renew] *)
Definition renewable (filter_name : option (list Z)) (s : SiteFile) : bool :=
  match cf_tls s with Some t => tls_acme t | None => false end
  && match filter_name with Some n => str_eqb (cf_name s) n | None => true end.
Definition route_certs_acme_renew (q : ParsedRequest) (st : AdminState) : Z * AdminState :=
  let site_filter := pr_query q !! lit "site" in
  if existsb (renewable site_filter) (ac_sites (ad_cfg (as_ctx st)))
  then (202, mkState (as_ctx st) (as_groups st) (as_caches st) (as_tasks st ++ [TRenew site_filter]))
  else (404, st).

(** [route_log_level_set]: a valid level is answered with success. *)
Definition route_log_level_set (q : ParsedRequest) : Z :=
  match parse_value (pr_body q) ≫= json_member (lit "level") with
  | Some (JString level) =>
      if existsb (str_eqb level) [lit "error"; lit "warn"; lit "info"; lit "debug"; lit "trace"] then 200 else 400
  | _ => 400
  end.

(** The groups of the registry after a change of it, the time, the endpoints
    that only read, and the text of an answer. *)
Context (regroup : AdminContext (R := R) (CK := CK) (G := G) → groups) (now : Z)
  (view : endpoint → ParsedRequest → AdminState → RouteResponse) (answer : Z → reply_body → RouteResponse).

Definition changed (r : (Z * reply_body) * AdminContext (R := R) (CK := CK) (G := G)) (st : AdminState) : RouteResponse * AdminState :=
  let '((status, body), c') := r in
  (answer status body, mkState c' (if status =? 200 then regroup c' else as_groups st) (as_caches st) (as_tasks st)).

Definition set_groups (gs : groups) (st : AdminState) : AdminState := mkState (as_ctx st) gs (as_caches st) (as_tasks st).

(** [route] *)
Definition route (q : ParsedRequest) (st : AdminState) : RouteResponse * AdminState :=
  let c := as_ctx st in
  let ep := route_endpoint (pr_method q) (pr_path q) in
  match ep with
  | ELoad => changed (route_load build to_lowercase canonicalize parse_config to_toml disk_write max_handlers values q c) st
  | ETree => changed (route_config_tree build to_lowercase canonicalize global_default to_value from_value parse_value to_toml disk_write max_handlers values q c) st
  | EReload => changed (route_config_reload build to_lowercase canonicalize parse_file max_handlers values c) st
  | ECertsReload => changed (route_certs_reload build to_lowercase canonicalize parse_file max_handlers values c) st
  | ESiteDelete n => changed (route_site_delete values n c) st
  | ESave => let '((status, body), c') := route_config_save to_toml disk_write c in
             (answer status body, mkState c' (as_groups st) (as_caches st) (as_tasks st))
  | ENode n a x => let '(status, gs) := route_upstream_node_action parse_value q n a x (as_groups st) in (answer status BOk, set_groups gs st)
  | EUpstreams => (view ep q st, set_groups (route_upstreams_list now ∅ (as_groups st)) st)
  | EUpstream n => let '(status, gs) := route_upstream_detail now n (as_groups st) in (view ep q st, set_groups gs st)
  | EPurge => (answer 200 BOk, mkState c (as_groups st) (route_cache_purge (all_sites values (ad_registry c)) (as_caches st)) (as_tasks st))
  | ERenew => let '(status, st') := route_certs_acme_renew q st in (answer status BOk, st')
  | EStop => (answer 200 BOk, mkState c (as_groups st) (as_caches st) (as_tasks st ++ [TStop]))
  | ELogSet => (answer (route_log_level_set q) BOk, st)
  | _ => (view ep q st, st)
  end.

Lemma one_segment_other prefix p : starts_with (lit prefix) p = false → one_segment prefix p = None.
Proof. unfold one_segment, starts_with. by destruct (strip_prefix (lit prefix) p). Qed.

(** The open paths only read. *)
Lemma open_paths_read m p :
  p ∈ no_auth_paths → route_endpoint m p ∈ [EHealth; EVersion; EDoc; EMetrics; ENotFound].
Proof.
  intros Hp. unfold route_endpoint, is_route, no_auth_paths in *.
  repeat (apply elem_of_cons in Hp as [->|Hp]; [destruct (str_eqb m (lit "GET")), (str_eqb m (lit "POST")), (str_eqb m (lit "PUT")), (str_eqb m (lit "DELETE"));
    vm_compute; repeat (first [by left|right])|]).
  by apply not_elem_of_nil in Hp.
Qed.

Lemma acts_with_token err_json token s e st out st' :
  handle_request to_lowercase err_json route token s e st = Done (out, st') →
  st' = st ∨ token ≠ [] ∧ ∃ q, read_request to_lowercase s e = Done (Go q)
    ∧ pr_headers q !! lit "authorization" = Some (lit "Bearer " ++ token) ∧ snd (route q st) = st'.
Proof.
  unfold handle_request. destruct (read_request to_lowercase s e) as [[q|why|]| |] eqn:Er; cbn [mbind io_bind]; try done;
    [|intros [= <- <-]; by left..].
  case_test; [intros [= <- <-]; by left|]. destruct (check_token token q) eqn:Et; [intros [= <- <-]; by left|].
  apply check_token_passes in Et as [Hp|[Ht Ha]].
  - apply (open_paths_read (pr_method q)) in Hp. unfold route.
    repeat (apply elem_of_cons in Hp as [->|Hp]; [intros [= <- <-]; by left|]). by apply not_elem_of_nil in Hp.
  - destruct (route q st) as [rr st1] eqn:Ec. intros [= <- <-]. right. split; [done|]. exists q. by rewrite Ec.
Qed.

(** C4: Nothing acts without the configured token.  Let a token be configured.  Whatever bytes arrive
    on a connection to the admin interface, if anything of the server is different afterwards (registry,
    configuration, files, nodes, caches, background work), then the bytes were a readable request whose
    Authorization header was exactly "Bearer " and the token, and the difference is what the route of
    that request does.  The case of an empty token, where the code and the documentation disagree, is
    [empty_token_refuses]. *)
Theorem admin_acts_with_token_only err_json token s e st out st' :
  token ≠ [] → handle_request to_lowercase err_json route token s e st = Done (out, st') → st' ≠ st →
  ∃ q, read_request to_lowercase s e = Done (Go q) ∧ pr_headers q !! lit "authorization" = Some (lit "Bearer " ++ token)
    ∧ snd (route q st) = st'.
Proof. intros _ [?|[_ ?]]%acts_with_token ?; done. Qed.

(** An empty token closes the interface.  The comments and the documentation say that an empty token
    switches authentication off; the code refuses: with an empty token a readable request (other than
    OPTIONS) for any path that is not one of the open ones is answered with the refusal (status 403), and no bytes whatever
    change the server. *)
Theorem empty_token_refuses err_json s e st out st' :
  handle_request to_lowercase err_json route [] s e st = Done (out, st') →
  st' = st ∧ (∀ q, read_request to_lowercase s e = Done (Go q) → pr_path q ∉ no_auth_paths →
    pr_method q ≠ lit "OPTIONS" → out = refuse err_json NoToken).
Proof.
  intros H. split; [by apply acts_with_token in H as [?|[? _]]|]. intros q Hq Hp Hm. revert H. unfold handle_request. rewrite Hq. cbn [mbind io_bind].
  destruct (str_eqb (pr_method q) (lit "OPTIONS")) eqn:Eo; [by apply str_eqb_eq in Eo|]. unfold check_token.
  destruct (existsb (str_eqb (pr_path q)) no_auth_paths) eqn:E; [|by intros [= <- _]].
  apply existsb_exists in E as (p & Hin & Hpe%str_eqb_eq). destruct Hp. rewrite Hpe. by apply list_elem_of_In.
Qed.

(** *** The listener *)

(** A connection to the admin interface: what it sends, or [None] when accepting it fails. *)
Notation connection := (option (list Z * stream_end)).

(** One turn of the loop of [start]: the request is handled, an error is logged. *)
Definition serve_connection (err_json : list Z → list Z) (token : list Z) (st : AdminState) (c : connection) : AdminState :=
  match c with
  | Some (s, e) => match handle_request to_lowercase err_json route token s e st with Done (_, st') => st' | Failed | Blocked => st end
  | None => st
  end.

(** [start] of admin_api/server.rs over the connections of a run; it ends at once if the address
    cannot be bound. *)
Definition start (err_json : list Z → list Z) (bind_ok : bool) (token : list Z) (conns : list connection) (st : AdminState) : option AdminState :=
  if bind_ok then Some (foldl (serve_connection err_json token) st conns) else None.

(** A connection that carries the token. *)
Definition authorised (token : list Z) (c : connection) : bool :=
  match c with
  | Some (s, e) =>
      match read_request to_lowercase s e with
      | Done (Go q) => negb (str_eqb token []) && bool_decide (pr_headers q !! lit "authorization" = Some (lit "Bearer " ++ token))
      | _ => false
      end
  | None => false
  end.

(** Over any run of the listener the connections without the token are invisible: leaving all of them
    out gives the same server. *)
Theorem unauthorised_invisible err_json bind_ok token conns st :
  start err_json bind_ok token conns st = start err_json bind_ok token (List.filter (authorised token) conns) st.
Proof.
  unfold start. destruct bind_ok; [f_equal|done]. revert st. induction conns as [|c conns IH]; intros st; [done|]. cbn [foldl List.filter].
  destruct (authorised token c) eqn:Ea; cbn [foldl]; [apply IH|]. rewrite <- IH. f_equal. clear IH.
  destruct c as [[s e]|]; [|done]. cbn [serve_connection].
  destruct (handle_request to_lowercase err_json route token s e st) as [[out st']| |] eqn:E; try done.
  apply acts_with_token in E as [->|(Ht & q & Hq & Hh & _)]; [done|exfalso]. cbn [authorised] in Ea. rewrite Hq, Hh in Ea.
  rewrite bool_decide_true, andb_true_r in Ea by done. apply negb_false_iff, str_eqb_eq in Ea. done.
Qed.

End routes.

(** ** Node commands *)

Lemma change_first_insert p f ns :
  existsb p ns = true →
  ∃ j n, ns !! j = Some n ∧ p n = true ∧ (∀ k m, (k < j)%nat → ns !! k = Some m → p m = false) ∧ change_first p f ns = <[j := f n]> ns.
Proof.
  induction ns as [|n ns IH]; [done|]. cbn [existsb change_first]. destruct (p n) eqn:E.
  - intros _. exists 0%nat, n. split_and!; [done|done|lia|done].
  - cbn [orb]. intros (j & m & H1 & H2 & H3 & ->)%IH. exists (S j), m. split_and!; [done|done| |done].
    intros [|k] m' Hk Hl; [by injection Hl as <-|]. apply (H3 k); [lia|done].
Qed.

(** A node command changes one node.  An answer of 200 means that exactly one node, the first of that
    address in the named group of the first site that has the group, was enabled, disabled or given the
    weight; any other answer means that no node changed. *)
Theorem node_action_exact pv q name a action gs st gs' :
  route_upstream_node_action pv q name a action gs = (st, gs') →
  if st =? 200 then
    ∃ i site pools pool j n ch, gs !! i = Some (site, pools) ∧ pools !! name = Some pool
      ∧ (∀ k s ps, (k < i)%nat → gs !! k = Some (s, ps) → ps !! name = None)
      ∧ nodes pool !! j = Some n ∧ addr_as_str (LoadBalance.addr n) = a ∧ node_command pv q action = Some (Ok ch)
      ∧ gs' = <[i := (site, <[name := set_nodes (<[j := change_node ch n]> (nodes pool)) pool]> pools)]> gs
  else gs' = gs.
Proof.
  revert gs'. induction gs as [|[site pools] gs IH]; intros gs'; cbn [route_upstream_node_action]; [by intros [= <- <-]|].
  destruct (pools !! name) as [pool|] eqn:Ep.
  - destruct (existsb (is_node a) (nodes pool)) eqn:Ex; [|by intros [= <- <-]].
    destruct (node_command pv q action) as [[ch|]|] eqn:Ec; [|by intros [= <- <-]..].
    destruct (change_first_insert _ (change_node ch) _ Ex) as (j & n & Hj & Hn%str_eqb_eq & _ & ->). intros [= <- <-].
    exists 0%nat, site, pools, pool, j, n, ch. split_and!; [done|done|lia|done..].
  - destruct (route_upstream_node_action pv q name a action gs) as [st1 gs1] eqn:Er. intros [= <- <-].
    specialize (IH gs1 eq_refl). destruct (st1 =? 200); [|by f_equal].
    destruct IH as (i & s & ps & pool & j & n & ch & H1 & H2 & H3 & H4 & H5 & H6 & ->).
    exists (S i), s, ps, pool, j, n, ch. split_and!; [done|done| |done..].
    intros [|k] s' ps' Hk Hl; [by injection Hl as <- <-|]. apply (H3 k s' ps'); [lia|done].
Qed.

(** ** Listings *)

Lemma upstreams_list_lookup now gs : ∀ seen i site pools name p,
  gs !! i = Some (site, pools) → pools !! name = Some p → name ∉ seen →
  (∀ k s ps, (k < i)%nat → gs !! k = Some (s, ps) → ps !! name = None) →
  ∃ pools', route_upstreams_list now seen gs !! i = Some (site, pools') ∧ pools' !! name = Some (probe_pool now p).
Proof.
  induction gs as [|[s0 ps0] gs IH]; intros seen [|i] site pools name p Hi Hp Hs Hk; try done; cbn [route_upstreams_list].
  - injection Hi as -> ->. eexists. split; [reflexivity|]. rewrite map_lookup_imap, Hp. cbn [mbind option_bind].
    by rewrite bool_decide_false.
  - apply (IH (seen ∪ dom ps0) i site pools name p); [done|done| |].
    + rewrite not_elem_of_union, not_elem_of_dom. split; [done|]. by apply (Hk 0%nat s0 ps0); [lia|].
    + intros k s ps Hlt Hl. apply (Hk (S k) s ps); [lia|done].
Qed.

(** Looking at the upstreams takes a node out of service.  Listing them asks every node whether it is
    available, which uses up the probe of a breaker whose timeout has passed: afterwards no request is
    sent to the node while any other node of the group is in order. *)
Theorem listing_starves_node now gs i site pools name p j n :
  gs !! i = Some (site, pools) → pools !! name = Some p → nodes p !! j = Some n → probe_due now n →
  (∀ k s ps, (k < i)%nat → gs !! k = Some (s, ps) → ps !! name = None) →
  ∃ pools' p', route_upstreams_list now ∅ gs !! i = Some (site, pools') ∧ pools' !! name = Some p'
    ∧ ∀ now' ip k m r p'', nodes p' !! k = Some m → breaker_in CB_CLOSED m → pick now' ip p' = Ret (r, p'') → r ≠ Some j.
Proof.
  intros Hi Hp Hj Hd Hk. destruct (upstreams_list_lookup now gs ∅ i site pools name p Hi Hp (not_elem_of_empty _) Hk) as (pools' & H1 & H2).
  exists pools', (probe_pool now p). split_and!; [done|done|]. intros now' ip k m r p'' Hm Hc Hpick.
  apply probe_due_admitted in Hd as (n' & Ha & Hh). pose proof (scan_all_lookup now _ _ _ Hj) as [_ Hs]. rewrite Ha in Hs. cbn [snd] in Hs.
  pose proof (scan_all_half_open now' (nodes (probe_pool now p)) j n' Hs Hh) as [_ Hh'].
  pose proof (scan_all_lookup now' _ _ _ Hm) as [Hck _]. rewrite closed_admitted in Hck by done.
  eapply pick_skips_half_open in Hpick as [? _]; eauto.
Qed.

(** ** Caches *)

Lemma alter_purged k caches j c :
  (alter purge_all k caches : gmap Z ProxyCache) !! j = Some c →
  mem c = ∅ ∧ j = k ∨ caches !! j = Some c.
Proof.
  destruct (decide (j = k)) as [->|Hne].
  - rewrite lookup_alter_eq. intros (c0 & Hc & ->)%fmap_Some. by left.
  - rewrite lookup_alter_ne by done. by right.
Qed.

Lemma purge_keeps_empty {R} (sites : list (SiteInfo (R := R))) caches j :
  (∀ c, caches !! j = Some c → mem c = ∅) → ∀ c, route_cache_purge sites caches !! j = Some c → mem c = ∅.
Proof.
  unfold route_cache_purge. revert caches. induction sites as [|s sites IH]; intros caches H; [done|]. cbn [foldl]. apply IH.
  assert (Hp : ∀ h (m : gmap Z ProxyCache), (∀ c, m !! j = Some c → mem c = ∅) → ∀ c, purge_handle h m !! j = Some c → mem c = ∅).
  { intros [k|] m Hm c; [|apply Hm]. intros [[? _]|?]%alter_purged; eauto. }
  intros c. do 2 apply Hp; done.
Qed.

(** Purging empties the caches of every listed site. *)
Theorem purge_empties {R} (sites : list (SiteInfo (R := R))) caches s k c :
  s ∈ sites → si_proxy_cache s = Some k ∨ si_fcgi_cache s = Some k →
  route_cache_purge sites caches !! k = Some c → mem c = ∅.
Proof.
  intros Hs Hk. unfold route_cache_purge. apply list_elem_of_split in Hs as (l1 & l2 & ->). rewrite foldl_app. cbn [foldl].
  apply purge_keeps_empty. intros d. set (m := foldl _ caches l1).
  assert (Hp : ∀ h (m : gmap Z ProxyCache) d, purge_handle h m !! k = Some d → (mem d = ∅ ∨ h ≠ Some k ∧ m !! k = Some d)).
  { intros [x|] m0 d0; [|naive_solver]. cbn [purge_handle]. destruct (decide (x = k)) as [->|Hx].
    - rewrite lookup_alter_eq. intros (c0 & _ & ->)%fmap_Some. by left.
    - rewrite lookup_alter_ne by done. right. split; [congruence|done]. }
  intros [?|[H1 H2]]%Hp; [done|]. apply Hp in H2 as [?|[H3 _]]; [done|]. by destruct Hk.
Qed.

(** ** Witnesses *)

Module Witness.
Import LoadBalance.Witness.

Definition ask (m b : string) : ParsedRequest := mkAdminReq (lit m) [] ∅ ∅ (lit b).
Definition grp (s : LoadBalanceStrategy) (ns : list NodeState) : groups := [(lit "site", {[ lit "up" := pool s 0 ns ]})].

Definition address : list Z := addr_as_str (LoadBalance.addr (node 2 5 CB_CLOSED)).

Lemma node_action_exact_witness :
  ∃ gs', route_upstream_node_action (λ _, None) (ask "POST" "") (lit "up") address (lit "disable") (grp RoundRobin three) = (200, gs')
    ∧ ∃ i site pools pool j n ch, grp RoundRobin three !! i = Some (site, pools) ∧ pools !! lit "up" = Some pool
        ∧ gs' = <[i := (site, <[lit "up" := set_nodes (<[j := change_node ch n]> (nodes pool)) pool]> pools)]> (grp RoundRobin three).
Proof.
  eexists. split; [reflexivity|].
  destruct (node_action_exact (λ _, None) (ask "POST" "") (lit "up") address (lit "disable") (grp RoundRobin three) 200 _ eq_refl)
    as (i & site & pools & pl & j & n & ch & H1 & H2 & _ & _ & _ & _ & H3).
  exists i, site, pools, pl, j, n, ch. split; [exact H1|]. split; [exact H2|exact H3].
Defined.

Lemma listing_starves_node_witness :
  ∃ pools' p', route_upstreams_list 1000 ∅ (grp RoundRobin three) !! 0%nat = Some (lit "site", pools') ∧ pools' !! lit "up" = Some p'
    ∧ ∀ now' ip k m r p'', nodes p' !! k = Some m → breaker_in CB_CLOSED m → pick now' ip p' = Ret (r, p'') → r ≠ Some 1%nat.
Proof.
  eapply (listing_starves_node 1000 (grp RoundRobin three) 0 (lit "site") {[ lit "up" := pool RoundRobin 0 three ]} (lit "up")
           (pool RoundRobin 0 three) 1 (node 1 1 CB_OPEN)).
  - reflexivity.
  - apply lookup_singleton_eq.
  - reflexivity.
  - split; [reflexivity|]. eexists. split; [reflexivity|]. split; [reflexivity|]. by vm_compute.
  - intros k s ps Hk. exfalso. lia.
Defined.

(** Weights are accepted up to 32 bits and added without care: two nodes of
    the greatest weight stop the server at the next request. *)
Example greatest_weights_panic :
  pick 20 None (pool Weighted 0 (set_weight (wrap32 4294967295) <$> [node 2 5 CB_CLOSED; node 3 1 CB_CLOSED])) = Panic.
Proof. by vm_compute. Qed.

(** A weight of 2^32 is stored as 0. *)
Example weight_truncated : LoadBalance.weight (change_node (NWeight 4294967296) (node 2 5 CB_CLOSED)) = 0.
Proof. reflexivity. Qed.

Section stop.
Import Headers.Model HotReload.Witness AdminConfig.Witness.

Definition state : AdminState (R := unit) (CK := Z) (G := unit) := mkState (admin old) [] ∅ [].
Definition handler : ParsedRequest → AdminState (R := unit) (CK := Z) (G := unit) → RouteResponse * AdminState :=
  route bld to_ascii_lowercase canon tt to_val from_val p_value p_config toml p_file writable handlers vals
    (λ _, []) 0 (λ _ _ _, mkRoute 200 [] []) (λ st _, mkRoute st [] []).
Definition stop_text : list Z :=
  request_text (lit "POST") (lit "/api/stop") [(lit "Authorization", lit "Bearer secret")] [].
Definition reply_of (r : io (list Z * AdminState (R := unit) (CK := Z) (G := unit))) : option (list admin_task) :=
  match r with Done (_, st) => Some (as_tasks st) | _ => None end.

Lemma admin_acts_with_token_only_witness :
  ∃ q, read_request to_ascii_lowercase stop_text EndOpen = Done (Go q)
    ∧ pr_headers q !! lit "authorization" = Some (lit "Bearer secret").
Proof.
  assert (Ht : reply_of (handle_request to_ascii_lowercase (λ m, m) handler (lit "secret") stop_text EndOpen state) = Some [TStop])
    by (by vm_compute).
  destruct (handle_request to_ascii_lowercase (λ m, m) handler (lit "secret") stop_text EndOpen state) as [[out st']| |] eqn:E; try discriminate Ht.
  injection Ht as Ht. destruct (admin_acts_with_token_only bld to_ascii_lowercase canon tt to_val from_val p_value p_config toml p_file writable handlers vals
    (λ _, []) 0 (λ _ _ _, mkRoute 200 [] []) (λ st _, mkRoute st [] []) (λ m, m) (lit "secret") stop_text EndOpen state out st')
    as (q & H2 & H3 & _); [discriminate|exact E|intros ->; discriminate Ht|]. exists q. split; [exact H2|exact H3].
Defined.

(** The same command when no token is configured. *)
Lemma empty_token_refuses_witness :
  ∃ out, handle_request to_ascii_lowercase (λ m, m) handler [] stop_text EndOpen state = Done (out, state)
    ∧ out = refuse (λ m, m) NoToken.
Proof.
  destruct (handle_request to_ascii_lowercase (λ m, m) handler [] stop_text EndOpen state) as [[out st']| |] eqn:E; [|by vm_compute in E..].
  destruct (empty_token_refuses bld to_ascii_lowercase canon tt to_val from_val p_value p_config toml p_file writable handlers vals
    (λ _, []) 0 (λ _ _ _, mkRoute 200 [] []) (λ st _, mkRoute st [] []) (λ m, m) stop_text EndOpen state out st' E) as [-> H].
  exists out. split; [done|]. destruct (read_request to_ascii_lowercase stop_text EndOpen) as [[q| |]| |] eqn:Er; [|by vm_compute in Er..].
  apply (H q eq_refl).
  - assert (Hp : pr_path q = lit "/api/stop") by (vm_compute in Er; injection Er as <-; reflexivity). rewrite Hp.
    intros Hin%list_elem_of_In. vm_compute in Hin. intuition discriminate.
  - assert (Hp : pr_method q = lit "POST") by (vm_compute in Er; injection Er as <-; reflexivity). by rewrite Hp.
Defined.

End stop.

End Witness.
