(* ===== verification/Monitor.v ===== *)
(** * Request records and their analysis

    src/monitor/collector.rs and src/monitor/analyzer.rs: the ring buffer of the
    most recent requests, and the report made of them.  Indexing outside the
    buffer and overflowing sums end the process; floating-point quotients and
    the order in which a hash map is visited are parameters. *)

From S2P Require Import Prelude RustStr.

(** ** The ring buffer *)

Record RingBuffer (A : Type) := mkRing { rb_buf : list (option A); rb_head : nat; rb_len : nat; rb_capacity : nat }.
Arguments mkRing {A}.
Arguments rb_buf {A}.
Arguments rb_head {A}.
Arguments rb_len {A}.
Arguments rb_capacity {A}.

Definition ring_new {A} (capacity : nat) : RingBuffer A := mkRing (replicate capacity None) 0 0 capacity.

(** [push]: the index is checked; a remainder by zero is never reached. *)
Definition ring_push {A} (x : A) (r : RingBuffer A) : outcome (RingBuffer A) :=
  if (rb_head r <? length (rb_buf r))%nat then
    Ret (mkRing (<[rb_head r := Some x]> (rb_buf r)) ((rb_head r + 1) mod rb_capacity r)
           (if (rb_len r <? rb_capacity r)%nat then rb_len r + 1 else rb_len r) (rb_capacity r))%nat
  else Panic.

Definition ring_start {A} (r : RingBuffer A) : nat := if (rb_len r <? rb_capacity r)%nat then 0%nat else rb_head r.

(** [all]: oldest first; empty slots are skipped. *)
Definition ring_all {A} (r : RingBuffer A) : list A :=
  if (rb_len r =? 0)%nat then []
  else omap (λ i, match rb_buf r !! ((ring_start r + i) mod rb_capacity r)%nat with Some o => o | None => None end) (seq 0 (rb_len r)).

Fixpoint ring_push_all {A} (xs : list A) (r : RingBuffer A) : outcome (RingBuffer A) :=
  match xs with [] => Ret r | x :: xs => r' ← ring_push x r; ring_push_all xs r' end.

(** *** What the buffer holds *)

Definition ring_holds {A} (xs : list A) (r : RingBuffer A) : Prop :=
  let c := rb_capacity r in
  (0 < c)%nat ∧ length (rb_buf r) = c ∧ rb_head r = (length xs mod c)%nat ∧ rb_len r = Nat.min (length xs) c
  ∧ ∀ j x, (length xs - rb_len r ≤ j)%nat → xs !! j = Some x → rb_buf r !! (j mod c)%nat = Some (Some x).

Lemma ring_new_holds {A} c : (0 < c)%nat → ring_holds (A := A) [] (ring_new c).
Proof.
  intros H. split_and!; cbn [ring_new rb_capacity rb_buf rb_head rb_len length]; [done|apply length_replicate| |lia|done].
  symmetry. apply Nat.mod_small. lia.
Qed.

Lemma mod_apart c j n : (0 < c → j < n → n < j + c → j mod c ≠ n mod c)%nat.
Proof.
  intros Hc H1 H2 E. pose proof (Nat.div_mod_eq j c). pose proof (Nat.div_mod_eq n c).
  destruct (Nat.eq_dec (j / c)%nat (n / c)%nat) as [Eq|Ne]; [rewrite Eq in *; lia|].
  assert (j / c < n / c)%nat by (pose proof (Nat.Div0.div_le_mono j n c ltac:(lia)); lia). nia.
Qed.

Lemma ring_push_holds {A} xs (x : A) r :
  ring_holds xs r → ∃ r', ring_push x r = Ret r' ∧ ring_holds (xs ++ [x]) r' ∧ rb_capacity r' = rb_capacity r.
Proof.
  intros (Hc & Hb & Hh & Hl & Hx). unfold ring_push.
  assert (Hlt : (rb_head r < rb_capacity r)%nat) by (rewrite Hh; apply Nat.mod_upper_bound; lia).
  rewrite (proj2 (Nat.ltb_lt _ _)) by lia. eexists. split; [reflexivity|]. split; [|done].
  split_and!; cbn [rb_capacity rb_buf rb_head rb_len]; [done|by rewrite length_insert| | |].
  - rewrite Hh, length_app. cbn [length]. by rewrite Nat.Div0.add_mod_idemp_l.
  - rewrite Hl, length_app. cbn [length]. destruct (Nat.ltb_spec (Nat.min (length xs) (rb_capacity r)) (rb_capacity r)); lia.
  - intros j y Hj Hy. rewrite length_app in Hj. cbn [length] in Hj.
    assert (Hjn : (j ≤ length xs)%nat) by (apply lookup_lt_Some in Hy; rewrite length_app in Hy; cbn [length] in Hy; lia).
    destruct (Nat.eq_dec j (length xs)) as [->|Hne].
    + rewrite lookup_app_r, Nat.sub_diag in Hy by done. injection Hy as ->. rewrite Hh. apply list_lookup_insert_eq. lia.
    + rewrite lookup_app_l in Hy by lia. rewrite list_lookup_insert_ne.
      * apply Hx; [|done]. destruct (Nat.ltb_spec (rb_len r) (rb_capacity r)); lia.
      * rewrite Hh. intros E. symmetry in E. revert E. apply mod_apart; [done|lia|].
        destruct (Nat.ltb_spec (rb_len r) (rb_capacity r)); lia.
Qed.

Lemma ring_all_holds {A} (xs : list A) r : ring_holds xs r → ring_all r = drop (length xs - rb_capacity r) xs.
Proof.
  intros (Hc & Hb & Hh & Hl & Hx). unfold ring_all.
  destruct (rb_len r =? 0)%nat eqn:E0.
  { apply Nat.eqb_eq in E0. destruct xs; [done|]. cbn [length] in Hl. lia. }
  assert (Hget : ∀ i, (i < rb_len r)%nat →
    (match rb_buf r !! ((ring_start r + i) mod rb_capacity r)%nat with Some o => o | None => None end) = xs !! (length xs - rb_len r + i)%nat).
  { intros i Hi. assert (Hs : is_Some (xs !! (length xs - rb_len r + i)%nat)) by (apply lookup_lt_is_Some; lia).
    destruct Hs as [x Ex]. rewrite Ex.
    assert (Em : ((ring_start r + i) mod rb_capacity r = (length xs - rb_len r + i) mod rb_capacity r)%nat).
    { unfold ring_start. destruct (Nat.ltb_spec (rb_len r) (rb_capacity r)).
      - replace (length xs - rb_len r)%nat with 0%nat by lia. done.
      - rewrite Hh, Nat.Div0.add_mod_idemp_l. rewrite Hl, Nat.min_r by lia.
        replace (length xs + i)%nat with (length xs - rb_capacity r + i + 1 * rb_capacity r)%nat by lia. by rewrite Nat.Div0.mod_add. }
    rewrite Em. by rewrite (Hx (length xs - rb_len r + i)%nat x) by (done || lia). }
  replace (length xs - rb_capacity r)%nat with (length xs - rb_len r)%nat by lia.
  assert (Hsum : (length xs - rb_len r + rb_len r = length xs)%nat) by lia. clear E0.
  clear Hx Hl Hh Hb Hc. set (d := (length xs - rb_len r)%nat) in *. set (n := rb_len r) in *. clearbody d n.
  set (f := λ i, _).
  assert (Hf : ∀ i, (i < n)%nat → f i = xs !! (d + i)%nat) by exact Hget. clearbody f. clear Hget.
  assert (G : ∀ k m, (k + m = n)%nat → omap f (seq k m) = drop (d + k) xs).
  { intros k m. revert k. induction m as [|m IH]; intros k Hk; cbn [seq omap list_omap].
    - symmetry. apply drop_ge. lia.
    - rewrite Hf by lia. destruct (xs !! (d + k)%nat) as [x|] eqn:Ex; [|apply lookup_ge_None in Ex; lia].
      rewrite (drop_S _ _ _ Ex). f_equal. rewrite (IH (S k)) by lia. by rewrite Nat.add_succ_r. }
  rewrite (G 0%nat n) by lia. by rewrite Nat.add_0_r.
Qed.

(** The ring buffer is a queue of bounded memory.  However many records are pushed into a buffer of
    positive capacity, no push fails, and the buffer holds exactly the most recent ones, as many as fit,
    oldest first. *)
Theorem ring_buffer_recent {A} c (xs : list A) :
  (0 < c)%nat →
  ∃ r, ring_push_all xs (ring_new c) = Ret r ∧ ring_all r = drop (length xs - c) xs ∧ rb_len r = Nat.min (length xs) c.
Proof.
  intros Hc.
  assert (G : ∀ (done_ todo : list A) r, ring_holds done_ r → rb_capacity r = c →
    ∃ r', ring_push_all todo r = Ret r' ∧ ring_holds (done_ ++ todo) r' ∧ rb_capacity r' = c).
  { intros done_ todo. revert done_. induction todo as [|x todo IH]; intros done_ r Hr Hcap; cbn [ring_push_all].
    - exists r. by rewrite app_nil_r.
    - destruct (ring_push_holds done_ x r Hr) as (r1 & -> & H1 & H2). cbn [mbind outcome_bind].
      destruct (IH (done_ ++ [x]) r1 H1) as (r' & H3 & H4 & H5); [congruence|]. exists r'. by rewrite <- app_assoc in H4. }
  destruct (G [] xs (ring_new c) (ring_new_holds c Hc) eq_refl) as (r & H1 & H2 & H3). exists r.
  split_and!; [done| |]; [rewrite (ring_all_holds _ _ H2), H3; done|]. destruct H2 as (_ & _ & _ & H2 & _). by rewrite H2, H3.
Qed.

(** A buffer of capacity zero fails at the first record. *)
Theorem ring_buffer_zero {A} (x : A) xs : ring_push_all (x :: xs) (ring_new 0) = Panic.
Proof. done. Qed.

(** ** The analysis *)

Record RequestRecord := mkRecord {
  rq_timestamp : Z;
  rq_site : list Z;
  rq_path : list Z;
  rq_method : list Z;
  rq_status : Z;
  rq_duration : Z;               (* [as_millis], a u128 *)
  rq_bytes : Z;
  rq_client : list Z;
}.

Record SlowRequest := mkSlow {
  sl_path : list Z; sl_method : list Z; sl_status : Z; sl_duration_ms : Z; sl_client : list Z; sl_timestamp : Z;
}.

Definition dur_ms (r : RequestRecord) : Z := wrap64 (rq_duration r).
Definition slow_of (r : RequestRecord) : SlowRequest :=
  mkSlow (rq_path r) (rq_method r) (rq_status r) (dur_ms r) (rq_client r) (rq_timestamp r).

(** The running totals of the loop. *)
Record totals := mkTotals {
  to_duration : Z; to_bytes : Z; to_paths : gmap (list Z) Z; to_statuses : gmap Z Z; to_slow : list SlowRequest; to_5xx : Z;
}.

Definition tally `{Countable K} (k : K) (m : gmap K Z) : gmap K Z := <[k := default 0 (m !! k) + 1]> m.

Definition analyze_step (threshold : Z) (t : totals) (r : RequestRecord) : outcome totals :=
  d ← checked_add u64_max (to_duration t) (dur_ms r);
  b ← checked_add u64_max (to_bytes t) (rq_bytes r);
  Ret (mkTotals d b (tally (rq_path r) (to_paths t)) (tally (rq_status r) (to_statuses t))
         (if threshold <=? dur_ms r then to_slow t ++ [slow_of r] else to_slow t)
         (if 500 <=? rq_status r then to_5xx t + 1 else to_5xx t)).

Fixpoint analyze_loop (threshold : Z) (t : totals) (rs : list RequestRecord) : outcome totals :=
  match rs with [] => Ret t | r :: rs => t' ← analyze_step threshold t r; analyze_loop threshold t' rs end.

Section analysis.
Context {F : Type} (fzero : F) (fdiv : Z → Z → F) (order : gmap (list Z) Z → list (list Z * Z)).

Record AnalysisReport := mkReport {
  ar_total : Z; ar_avg : F; ar_slow : list SlowRequest; ar_hot : list (list Z * Z); ar_statuses : gmap Z Z; ar_bytes : Z; ar_rate_5xx : F;
}.

Definition analyze (records : list RequestRecord) (top_n : nat) (threshold : Z) : outcome AnalysisReport :=
  match records with
  | [] => Ret (mkReport 0 fzero [] [] ∅ 0 fzero)
  | _ =>
      let total := Z.of_nat (length records) in
      t ← analyze_loop threshold (mkTotals 0 0 ∅ ∅ [] 0) records;
      Ret (mkReport total (fdiv (to_duration t) total) (take top_n (sort_by_key (λ s, - sl_duration_ms s) (to_slow t)))
             (take top_n (sort_by_key (λ pc, - snd pc) (order (to_paths t)))) (to_statuses t) (to_bytes t) (fdiv (to_5xx t) total))
  end.

(** *** Specification *)

Definition count {A} (p : A → bool) (l : list A) : Z := Z.of_nat (length (List.filter p l)).
Definition total (f : RequestRecord → Z) (rs : list RequestRecord) : Z := foldr (λ r acc, f r + acc) 0 rs.

Lemma count_snoc {A} (p : A → bool) l x : count p (l ++ [x]) = count p l + if p x then 1 else 0.
Proof. unfold count. rewrite List.filter_app, length_app. cbn [List.filter]. destruct (p x); cbn [length]; lia. Qed.

Lemma total_snoc f rs r : total f (rs ++ [r]) = total f rs + f r.
Proof. unfold total. induction rs as [|q rs IH]; cbn [app foldr] in *; lia. Qed.

Definition totals_of (threshold : Z) (rs : list RequestRecord) (t : totals) : Prop :=
  to_duration t = total dur_ms rs ∧ to_bytes t = total rq_bytes rs
  ∧ (∀ p, default 0 (to_paths t !! p) = count (λ r, str_eqb (rq_path r) p) rs)
  ∧ (∀ p k, to_paths t !! p = Some k → 0 < k)
  ∧ (∀ c, default 0 (to_statuses t !! c) = count (λ r, rq_status r =? c) rs)
  ∧ to_slow t = slow_of <$> List.filter (λ r, threshold <=? dur_ms r) rs
  ∧ to_5xx t = count (λ r, 500 <=? rq_status r) rs.

Lemma tally_default `{Countable K} (k j : K) (m : gmap K Z) :
  default 0 (tally k m !! j) = default 0 (m !! j) + if bool_decide (k = j) then 1 else 0.
Proof.
  unfold tally. destruct (decide (k = j)) as [->|Hne].
  - by rewrite lookup_insert_eq, bool_decide_true.
  - rewrite lookup_insert_ne, bool_decide_false by done. lia.
Qed.

Lemma step_totals threshold rs t r :
  totals_of threshold rs t → total dur_ms (rs ++ [r]) ≤ u64_max → total rq_bytes (rs ++ [r]) ≤ u64_max →
  ∃ t', analyze_step threshold t r = Ret t' ∧ totals_of threshold (rs ++ [r]) t'.
Proof.
  intros (H1 & H2 & H3 & H4 & H5 & H6 & H7) Hd Hb. rewrite total_snoc in Hd, Hb.
  unfold analyze_step, checked_add. rewrite H1, H2, (proj2 (Z.leb_le (total dur_ms rs + _) _)), (proj2 (Z.leb_le (total rq_bytes rs + _) _)) by lia. cbn [mbind outcome_bind].
  eexists. split; [reflexivity|]. split_and!; cbn [to_duration to_bytes to_paths to_statuses to_slow to_5xx];
    [by rewrite total_snoc|by rewrite total_snoc|..].
  - intros p. by rewrite tally_default, H3, count_snoc.
  - intros p k. unfold tally. destruct (decide (rq_path r = p)) as [->|Hne].
    + rewrite lookup_insert_eq. intros [= <-]. specialize (H4 p). destruct (to_paths t !! p) as [k|]; cbn [from_option id]; [|lia].
      specialize (H4 k eq_refl). lia.
    + rewrite lookup_insert_ne by done. apply H4.
  - intros c. rewrite tally_default, H5, count_snoc. f_equal.
    destruct (decide (rq_status r = c)) as [->|Hne]; [by rewrite bool_decide_true, Z.eqb_refl|].
    by rewrite bool_decide_false, (proj2 (Z.eqb_neq _ _)).
  - rewrite List.filter_app, fmap_app, H6. cbn [List.filter]. destruct (threshold <=? dur_ms r); [done|by rewrite app_nil_r].
  - rewrite count_snoc, H7. destruct (500 <=? rq_status r); lia.
Qed.

Lemma loop_totals threshold rs : ∀ rs0 t,
  totals_of threshold rs0 t → Forall (λ r, 0 ≤ rq_bytes r) rs →
  total dur_ms (rs0 ++ rs) ≤ u64_max → total rq_bytes (rs0 ++ rs) ≤ u64_max →
  ∃ t', analyze_loop threshold t rs = Ret t' ∧ totals_of threshold (rs0 ++ rs) t'.
Proof.
  induction rs as [|r rs IH]; intros rs0 t Ht Hf Hd Hb; cbn [analyze_loop]; [exists t; by rewrite app_nil_r|].
  apply Forall_cons in Hf as [Hr Hf].
  assert (Hpos : 0 ≤ total dur_ms rs ∧ 0 ≤ total rq_bytes rs).
  { clear -Hf. unfold total. induction Hf as [|q rs Hq _ IH]; cbn [foldr]; [lia|].
    assert (0 ≤ dur_ms q) by (by apply Z.mod_pos_bound). lia. }
  assert (Hsplit : ∀ f, total f (rs0 ++ r :: rs) = total f (rs0 ++ [r]) + total f rs).
  { intros f. rewrite total_snoc. unfold total. clear. induction rs0 as [|q rs0 IH]; cbn [app foldr]; lia. }
  rewrite Hsplit in Hd, Hb. destruct (step_totals threshold rs0 t r Ht) as (t1 & -> & H1); [lia|lia|]. cbn [mbind outcome_bind].
  destruct (IH (rs0 ++ [r]) t1 H1 Hf) as (t' & H2 & H3); [rewrite <- app_assoc; cbn [app]; rewrite Hsplit; lia..|].
  exists t'. by rewrite <- app_assoc in H3.
Qed.

(** The first elements of a sorted list come before the others. *)
Lemma top_of_sorted {A} (key : A → Z) n l x y :
  x ∈ take n (sort_by_key key l) → y ∈ l → y ∉ take n (sort_by_key key l) → key x ≤ key y.
Proof.
  intros [i Hi]%list_elem_of_lookup Hy Hn. apply lookup_take_Some in Hi as [Hi Hlt].
  rewrite <- (sort_by_key_perm key l) in Hy. apply list_elem_of_lookup in Hy as [j Hj].
  destruct (decide (j < n)%nat) as [Hjn|Hjn]; [|apply (sort_by_key_sorted key l i j x y); [lia|done|done]].
  exfalso. apply Hn. apply list_elem_of_lookup. exists j. by rewrite lookup_take_lt.
Qed.

Context (order_spec : ∀ m, order m ≡ₚ map_to_list m).

(** The report is exact.  Totals and the distribution of statuses count every record; the hottest paths
    are listed with their true counts, and no path left out is hotter; the slow requests are the slowest
    of those over the threshold, in order, and none left out is slower. *)
Theorem analyze_correct records top_n threshold :
  Forall (λ r, 0 ≤ rq_bytes r) records → total dur_ms records ≤ u64_max → total rq_bytes records ≤ u64_max →
  ∃ rep, analyze records top_n threshold = Ret rep
    ∧ ar_total rep = Z.of_nat (length records) ∧ ar_bytes rep = total rq_bytes records
    ∧ (∀ c, default 0 (ar_statuses rep !! c) = count (λ r, rq_status r =? c) records)
    ∧ (∀ p k, (p, k) ∈ ar_hot rep → k = count (λ r, str_eqb (rq_path r) p) records)
    ∧ (∀ p k r, (p, k) ∈ ar_hot rep → r ∈ records → rq_path r ∉ (fst <$> ar_hot rep) →
         count (λ r', str_eqb (rq_path r') (rq_path r)) records ≤ k)
    ∧ (∀ s, s ∈ ar_slow rep → ∃ r, r ∈ records ∧ s = slow_of r ∧ threshold ≤ dur_ms r)
    ∧ (∀ s r, s ∈ ar_slow rep → r ∈ records → threshold ≤ dur_ms r → slow_of r ∉ ar_slow rep → dur_ms r ≤ sl_duration_ms s).
Proof using order_spec.
  intros Hf Hd Hb. destruct records as [|r0 rs]; [exists (mkReport 0 fzero [] [] ∅ 0 fzero)|].
  { cbn [analyze]. split_and!; try done.
    all: intros; exfalso; match goal with H : _ ∈ _ |- _ => by apply not_elem_of_nil in H end. }
  set (records := r0 :: rs) in *.
  destruct (loop_totals threshold records [] (mkTotals 0 0 ∅ ∅ [] 0)) as (t & Hl & H1 & H2 & H3 & H4 & H5 & H6 & H7); [|done..|].
  { split_and!; try done; intros; by rewrite lookup_empty in *. }
  cbn [app] in *. unfold analyze, records. cbv zeta. fold records. rewrite Hl. cbn [mbind outcome_bind].
  eexists. split; [reflexivity|]. cbn [ar_total ar_bytes ar_statuses ar_hot ar_slow].
  assert (Hhot : ∀ p k, (p, k) ∈ order (to_paths t) ↔ to_paths t !! p = Some k).
  { intros p k. rewrite (order_spec (to_paths t)). apply elem_of_map_to_list. }
  assert (Hslow : ∀ s, s ∈ to_slow t ↔ ∃ r, r ∈ records ∧ s = slow_of r ∧ threshold ≤ dur_ms r).
  { intros s. rewrite H6, list_elem_of_fmap. setoid_rewrite list_elem_of_In. setoid_rewrite filter_In. setoid_rewrite Z.leb_le. naive_solver. }
  split_and!; [done|done|done|..].
  - intros p k Hin. apply elem_of_take in Hin as (i & Hi & _). apply list_elem_of_lookup_2 in Hi. rewrite sort_by_key_perm in Hi.
    apply Hhot in Hi. rewrite <- H3, Hi. done.
  - intros p k r Hin Hr Hout. rewrite <- H3. destruct (to_paths t !! rq_path r) as [k'|] eqn:E; cbn [from_option id].
    + assert (Hle : - snd (p, k) ≤ - snd (rq_path r, k')); [|cbn [snd] in Hle; lia].
      apply (top_of_sorted (λ pc : list Z * Z, - snd pc) top_n (order (to_paths t))); [done|by apply Hhot|].
      intros Hin'. apply Hout. apply list_elem_of_fmap. by exists (rq_path r, k').
    + apply elem_of_take in Hin as (i & Hi & _). apply list_elem_of_lookup_2 in Hi. rewrite sort_by_key_perm in Hi.
      apply Hhot, H4 in Hi. lia.
  - intros s Hin. apply elem_of_take in Hin as (i & Hi & _). apply list_elem_of_lookup_2 in Hi. rewrite sort_by_key_perm in Hi.
    by apply Hslow.
  - intros s r Hin Hr Ht Hout.
    assert (Hle : - sl_duration_ms s ≤ - sl_duration_ms (slow_of r)); [|cbn [slow_of sl_duration_ms] in Hle; lia].
    apply (top_of_sorted (λ s, - sl_duration_ms s) top_n (to_slow t)); [done| |done]. apply Hslow. eauto.
Qed.

End analysis.

(** ** Witnesses *)

Module Witness.

Lemma ring_buffer_recent_witness :
  ∃ r, ring_push_all [1; 2; 3; 4; 5] (ring_new 3) = Ret r ∧ ring_all r = [3; 4; 5] ∧ rb_len r = 3%nat.
Proof. apply (ring_buffer_recent 3 [1; 2; 3; 4; 5]). lia. Defined.

Definition rec (p : string) (st d : Z) : RequestRecord := mkRecord 0 [] (lit p) (lit "GET") st d 10 [].
Definition records : list RequestRecord := [rec "/a" 200 5; rec "/b" 500 70; rec "/a" 404 90].

Lemma analyze_correct_witness :
  ∃ rep, analyze (0, 0) (λ a b, (a, b)) map_to_list records 1 50 = Ret rep ∧ ar_total rep = 3 ∧ ar_bytes rep = 30.
Proof.
  destruct (analyze_correct (0, 0) (λ a b, (a, b)) map_to_list (λ m, reflexivity _) records 1 50) as (rep & H1 & H2 & H3 & _);
    [repeat constructor; discriminate|by vm_compute|by vm_compute|]. exists rep. split; [exact H1|]. split; [exact H2|exact H3].
Defined.

End Witness.
