(* ===== verification/AccessLog.v ===== *)
(** * The access log: src/middleware/access_log.rs

    The line of a request in each format, with the escaping of what clients
    send, and the way of a line to the file: the bounded channel, the writer
    thread and its buffered file.  Times and the JSON text are parameters. *)

From S2P Require Import Prelude RustStr Http1 Router.

(** ** Formats *)

Inductive LogFormat := Json | Combined | Custom (tmpl : list Z).

Definition LogFormat_from_str (s : list Z) : LogFormat :=
  let t := to_ascii_lowercase (trim s) in
  if str_eqb t (lit "combined") then Combined else if str_eqb t (lit "json") then Json else Custom t.

Definition QUOTE : Z := 34.

(** [b as char] encodes a byte of 0x80 and above as two. *)
Definition sanitize_byte (b : Z) : list Z :=
  if b =? LF then [byte_backslash; 110] else if b =? CR then [byte_backslash; 114]
  else if b =? QUOTE then [byte_backslash; QUOTE] else push_char b.

Definition dangerous (b : Z) : bool := (b =? LF) || (b =? CR) || (b =? QUOTE).

Definition sanitize_log_field (s : list Z) : list Z :=
  if negb (existsb dangerous s) then s else concat (sanitize_byte <$> s).

Definition format_combined (time : list Z) (duration : Z) (e : LogEntry) : list Z :=
  le_client_ip e ++ lit " - - [" ++ time ++ lit "] " ++ [QUOTE] ++ le_method e ++ [SP] ++ sanitize_log_field (le_uri e) ++ [SP]
  ++ le_http_version e ++ [QUOTE; SP] ++ dec (le_status e) ++ [SP] ++ dec (le_bytes_sent e) ++ [SP; QUOTE]
  ++ sanitize_log_field (le_referer e) ++ [QUOTE; SP; QUOTE] ++ sanitize_log_field (le_user_agent e) ++ [QUOTE; SP] ++ dec duration ++ lit "ms".

(** The replacements of a template, in their order. *)
Definition variables (time : list Z) (duration : Z) (e : LogEntry) : list (list Z * list Z) :=
  [(lit "$remote_addr", le_client_ip e); (lit "$method", le_method e); (lit "$uri", sanitize_log_field (le_uri e));
   (lit "$http_version", le_http_version e); (lit "$status", dec (le_status e)); (lit "$bytes_sent", dec (le_bytes_sent e));
   (lit "$http_referer", sanitize_log_field (le_referer e)); (lit "$http_user_agent", sanitize_log_field (le_user_agent e));
   (lit "$duration_ms", dec duration); (lit "$time_local", time); (lit "$site", le_site e)].

Definition format_custom (tmpl time : list Z) (duration : Z) (e : LogEntry) : list Z :=
  foldl (λ t '(pat, to), replace pat to t) tmpl (variables time duration e).

Definition format_entry (json : Z → LogEntry → list Z) (time : list Z) (format : LogFormat) (duration : Z) (e : LogEntry) : list Z :=
  match format with
  | Json => json duration e
  | Combined => format_combined time duration e
  | Custom tmpl => format_custom tmpl time duration e
  end.

(** ** The writer *)

(** [BufWriter]: the file and what waits in memory. *)
Definition LOG_BUFFER : nat := 262144.
Record buf_writer := mkBuf { bw_file : list Z; bw_buf : list Z }.

Definition bw_flush (w : buf_writer) : buf_writer := mkBuf (bw_file w ++ bw_buf w) [].
Definition bw_write (data : list Z) (w : buf_writer) : buf_writer :=
  let w := if (LOG_BUFFER <? length (bw_buf w) + length data)%nat then bw_flush w else w in
  if (LOG_BUFFER <=? length data)%nat then mkBuf (bw_file w ++ data) (bw_buf w) else mkBuf (bw_file w) (bw_buf w ++ data).

Definition FLUSH_EVERY : nat := 1024.
Definition LOG_CHANNEL : nat := 4096.

Record log_state := mkLogState { ls_queue : list (list Z); ls_writer : buf_writer; ls_pending : nat }.

(** One line of [writer_thread]: [writeln] writes the text and the line feed. *)
Definition write_line (line : list Z) (st : log_state) : log_state :=
  let w := bw_write [LF] (bw_write line (ls_writer st)) in
  if (FLUSH_EVERY <=? ls_pending st + 1)%nat then mkLogState (ls_queue st) (bw_flush w) 0
  else mkLogState (ls_queue st) w (ls_pending st + 1).

(** What can happen: a request sends its line, the thread receives one, a
    second passes with nothing to receive. *)
Inductive log_event := Send (line : list Z) | Recv | Timeout.

Definition log_step (st : log_state) (ev : log_event) : log_state :=
  match ev with
  | Send line => if (length (ls_queue st) <? LOG_CHANNEL)%nat then mkLogState (ls_queue st ++ [line]) (ls_writer st) (ls_pending st) else st
  | Recv => match ls_queue st with [] => st | line :: q => write_line line (mkLogState q (ls_writer st) (ls_pending st)) end
  | Timeout => match ls_queue st with
               | [] => if (0 <? ls_pending st)%nat then mkLogState [] (bw_flush (ls_writer st)) 0 else st
               | _ => st
               end
  end.

(** The end: when all senders are gone the thread takes what is left, then
    flushes. *)
Definition log_close (st : log_state) : list Z :=
  let st := foldl (λ st line, write_line line st) (mkLogState [] (ls_writer st) (ls_pending st)) (ls_queue st) in
  bw_file (bw_flush (ls_writer st)).

Definition log_start (file : list Z) : log_state := mkLogState [] (mkBuf file []) 0.

(** The lines that got into the channel. *)
Fixpoint accepted (st : log_state) (evs : list log_event) : list (list Z) :=
  match evs with
  | [] => []
  | ev :: evs =>
      match ev with
      | Send line => if (length (ls_queue st) <? LOG_CHANNEL)%nat then [line] else []
      | _ => []
      end ++ accepted (log_step st ev) evs
  end.

(** *** Nothing accepted is lost *)

Definition text (ls : list (list Z)) : list Z := concat ((λ l : list Z, l ++ [LF]) <$> ls).

Lemma text_app a b : text (a ++ b) = text a ++ text b.
Proof. unfold text. by rewrite fmap_app, concat_app. Qed.

Definition contents (w : buf_writer) : list Z := bw_file w ++ bw_buf w.

Lemma contents_flush w : contents (bw_flush w) = contents w.
Proof. unfold contents, bw_flush. cbn. by rewrite app_nil_r. Qed.

Lemma contents_write data w : contents (bw_write data w) = contents w ++ data.
Proof.
  unfold bw_write. cbv zeta. destruct (Nat.ltb_spec LOG_BUFFER (length (bw_buf w) + length data)) as [Hf|Hf];
    destruct (Nat.leb_spec LOG_BUFFER (length data)) as [Hd|Hd]; unfold contents; cbn [bw_flush bw_file bw_buf app].
  - by rewrite app_nil_r.
  - done.
  - destruct (bw_buf w) as [|b bs]; [by rewrite !app_nil_r|]. cbn [length] in Hf. lia.
  - by rewrite app_assoc.
Qed.

(** What the log holds: written and buffered, then waiting in the channel. *)
Definition log_text (st : log_state) : list Z := contents (ls_writer st) ++ text (ls_queue st).

Lemma write_line_contents line st :
  contents (ls_writer (write_line line st)) = contents (ls_writer st) ++ line ++ [LF] ∧ ls_queue (write_line line st) = ls_queue st
  ∧ (ls_pending (write_line line st) < FLUSH_EVERY)%nat.
Proof.
  unfold write_line. cbv zeta. destruct (Nat.leb_spec FLUSH_EVERY (ls_pending st + 1)); cbn [ls_writer ls_queue ls_pending].
  - rewrite contents_flush, !contents_write, app_assoc. split_and!; [done|done|]. unfold FLUSH_EVERY. lia.
  - rewrite !contents_write, app_assoc. split_and!; [done|done|lia].
Qed.

Lemma log_step_text st ev : log_text (log_step st ev) = log_text st ++ text (accepted st [ev]).
Proof.
  unfold log_text. destruct ev as [line| |]; cbn [log_step accepted app].
  - case_test; cbn [ls_queue ls_writer app]; rewrite ?text_app; [by rewrite <- app_assoc|by rewrite app_nil_r].
  - rewrite app_nil_r. destruct (ls_queue st) as [|line q] eqn:Eq; [by rewrite Eq|].
    destruct (write_line_contents line (mkLogState q (ls_writer st) (ls_pending st))) as (-> & -> & _). cbn [ls_writer ls_queue].
    unfold text. cbn [fmap list_fmap concat]. by rewrite <- !app_assoc.
  - rewrite app_nil_r. destruct (ls_queue st) as [|line q] eqn:Eq; [|by rewrite Eq].
    case_test; cbn [ls_writer ls_queue]; [by rewrite contents_flush|by rewrite Eq].
Qed.

Lemma log_run_text st evs : log_text (foldl log_step st evs) = log_text st ++ text (accepted st evs).
Proof.
  revert st. induction evs as [|ev evs IH]; intros st; cbn [foldl accepted]; [by rewrite app_nil_r|].
  rewrite IH, log_step_text, <- app_assoc. f_equal. rewrite <- text_app. f_equal. f_equal. cbn [accepted]. by rewrite app_nil_r.
Qed.

Lemma log_close_text st : log_close st = log_text st.
Proof.
  unfold log_close, log_text. cbv zeta. cbn [bw_flush bw_file]. set (st0 := mkLogState [] (ls_writer st) (ls_pending st)).
  change (ls_writer st) with (ls_writer st0). clearbody st0. revert st0. generalize (ls_queue st) as q. clear st.
  induction q as [|line q IH]; intros st0; cbn [foldl]; [by rewrite app_nil_r|].
  rewrite IH. destruct (write_line_contents line st0) as (-> & _ & _). unfold text. cbn [fmap list_fmap concat].
  by rewrite <- !app_assoc.
Qed.

Definition sent (evs : list log_event) : list (list Z) := omap (λ ev, match ev with Send line => Some line | _ => None end) evs.

(** The log is complete.  However sending, receiving and pauses follow each other, when the thread ends
    the file holds what it held before and then, in the order they were sent, exactly the lines that
    found room in the channel; they are all the lines sent if the channel was never full. *)
Theorem log_complete file evs :
  log_close (foldl log_step (log_start file) evs) = file ++ text (accepted (log_start file) evs)
  ∧ ((∀ k, (length (ls_queue (foldl log_step (log_start file) (take k evs))) < LOG_CHANNEL)%nat) →
     accepted (log_start file) evs = sent evs).
Proof.
  rewrite log_close_text, log_run_text.
  assert (E0 : log_text (log_start file) = file) by (unfold log_text, contents, log_start; cbn; by rewrite !app_nil_r).
  rewrite E0. split; [done|]. generalize (log_start file) as st. clear E0 file.
  induction evs as [|ev evs IH]; intros st H; [done|]. cbn [accepted]. rewrite (IH (log_step st ev)).
  - pose proof (H 0%nat) as H0. cbn [take foldl] in H0. destruct ev; cbn [sent omap list_omap app]; [|done..].
    by rewrite (proj2 (Nat.ltb_lt _ _) H0).
  - intros k. apply (H (S k)).
Qed.

(** Unflushed lines are counted. *)
Definition counted (st : log_state) : Prop := (ls_pending st < FLUSH_EVERY)%nat ∧ (ls_pending st = 0%nat → bw_buf (ls_writer st) = []).

Lemma write_line_counted line st : counted (write_line line st).
Proof.
  split; [apply write_line_contents|]. unfold write_line. cbv zeta. case_test; cbn [ls_pending ls_writer]; [done|lia].
Qed.

Lemma log_step_counted st ev : counted st → counted (log_step st ev).
Proof.
  intros H. destruct ev as [line| |]; cbn [log_step].
  - by case_test.
  - destruct (ls_queue st); [done|apply write_line_counted].
  - destruct (ls_queue st); [|done]. case_test; [|done]. split; [cbn; unfold FLUSH_EVERY; lia|done].
Qed.

(** Little is ever unwritten.  At every moment fewer than 1024 lines have been taken from the channel
    without having been flushed, and after a second without a line all of them are in the file. *)
Theorem log_flushed_in_time file evs :
  let st := foldl log_step (log_start file) evs in
  (ls_pending st < FLUSH_EVERY)%nat
  ∧ (ls_queue st = [] → bw_file (ls_writer (log_step st Timeout)) = file ++ text (accepted (log_start file) evs)).
Proof.
  intros st. assert (Hc : counted st).
  { unfold st. clear st. assert (H : counted (log_start file)) by (split; [cbn; unfold FLUSH_EVERY; lia|done]).
    revert H. generalize (log_start file) as st0. induction evs as [|ev evs IH]; intros st0 H; [done|]. by apply IH, log_step_counted. }
  split; [apply Hc|]. intros Hq. pose proof (log_run_text (log_start file) evs) as E. fold st in E. unfold log_text in E.
  rewrite Hq in E. change (text []) with (@nil Z) in E. rewrite app_nil_r in E.
  assert (E0 : contents (ls_writer (log_start file)) ++ text (ls_queue (log_start file)) = file).
  { unfold contents, log_start. cbn. by rewrite !app_nil_r. }
  rewrite E0 in E. rewrite <- E. cbn [log_step]. rewrite Hq. destruct Hc as [_ Hc].
  destruct (Nat.ltb_spec 0 (ls_pending st)); [done|]. unfold contents. rewrite Hc by lia. by rewrite app_nil_r.
Qed.

(** ** Lines *)

Definition one_line (s : list Z) : Prop := CR ∉ s ∧ LF ∉ s.

Lemma one_line_app a b : one_line (a ++ b) ↔ one_line a ∧ one_line b.
Proof. unfold one_line. rewrite !not_elem_of_app. naive_solver. Qed.

Lemma one_line_digits z : 0 ≤ z → one_line (dec z).
Proof. intros H. pose proof (field_digits _ (dec_digits z H)) as Hf. split; [by apply field_no_cr|by apply field_no_lf]. Qed.

Lemma sanitize_byte_safe b x : 0 ≤ b → x ∈ sanitize_byte b → x ≠ CR ∧ x ≠ LF ∧ (x = QUOTE → b = QUOTE).
Proof.
  intros Hb. unfold sanitize_byte, push_char. repeat case_test; zbool;
    repeat (intros [->|Hx]%elem_of_cons; [|revert Hx]); try (by intros ?%not_elem_of_nil);
    unfold CR, LF, QUOTE, byte_backslash in *; Z.to_euclidean_division_equations; lia.
Qed.

Lemma sanitize_one_line s : Forall (λ b, 0 ≤ b) s → one_line (sanitize_log_field s).
Proof.
  intros Hs. unfold sanitize_log_field. destruct (existsb dangerous s) eqn:E; cbn [negb].
  - assert (H : ∀ x, x ∈ concat (sanitize_byte <$> s) → x ≠ CR ∧ x ≠ LF).
    { intros x Hx%list_elem_of_In. apply in_concat in Hx as (t & Ht & Hx%list_elem_of_In).
      apply list_elem_of_In, list_elem_of_fmap in Ht as (b & -> & Hb).
      rewrite Forall_forall in Hs. specialize (Hs b Hb). apply sanitize_byte_safe in Hx; naive_solver. }
    split; intros Hin; by apply H in Hin as [? ?].
  - split; intros Hin; apply not_true_iff_false in E; apply E, existsb_exists;
      (eexists; split; [by apply list_elem_of_In|]); reflexivity.
Qed.

Lemma replace_bytes pat to s b : b ∈ replace pat to s → b ∈ s ∨ b ∈ to.
Proof.
  destruct pat as [|c pat]; cbn [replace].
  - induction s as [|x s IH]; cbn [replace_empty]; [by right|]. case_test; rewrite ?elem_of_app, !elem_of_cons; naive_solver.
  - generalize 0%nat. induction s as [|x s IH]; intros k; cbn [replace_go]; [by left|]. destruct k as [|k].
    + case_test; [rewrite elem_of_app|rewrite elem_of_cons]; rewrite elem_of_cons; naive_solver.
    + rewrite elem_of_cons. intros [?|?]%IH; auto.
Qed.

Lemma replace_one_line pat to s : one_line to → one_line s → one_line (replace pat to s).
Proof. intros [? ?] [? ?]. split; intros [?|?]%replace_bytes; done. Qed.

(** What the server itself puts into a line. *)
Definition entry_ok (time : list Z) (duration : Z) (e : LogEntry) : Prop :=
  one_line (le_client_ip e) ∧ one_line (le_method e) ∧ one_line (le_http_version e) ∧ one_line (le_site e) ∧ one_line time
  ∧ 0 ≤ le_status e ∧ 0 ≤ le_bytes_sent e ∧ 0 ≤ duration
  ∧ Forall (λ b, 0 ≤ b) (le_uri e) ∧ Forall (λ b, 0 ≤ b) (le_referer e) ∧ Forall (λ b, 0 ≤ b) (le_user_agent e).

(** A client cannot forge log lines.  Whatever address, referrer and user agent a request has, its entry
    is a single line, in the Combined format and in every custom format. *)
Theorem log_entry_one_line json time duration e format :
  entry_ok time duration e → format ≠ Json → (∀ tmpl, format = Custom tmpl → one_line tmpl) →
  one_line (format_entry json time format duration e).
Proof.
  intros (H1 & H2 & H3 & H4 & H5 & H6 & H7 & H8 & H9 & H10 & H11) Hj Hc.
  pose proof (sanitize_one_line _ H9). pose proof (sanitize_one_line _ H10). pose proof (sanitize_one_line _ H11).
  pose proof (one_line_digits _ H6). pose proof (one_line_digits _ H7). pose proof (one_line_digits _ H8).
  destruct format as [| |tmpl]; [done| |].
  - cbn [format_entry]. unfold format_combined. rewrite !one_line_app. split_and!; try done.
    all: split; apply (bool_decide_unpack _); by vm_compute.
  - cbn [format_entry]. unfold format_custom, variables. specialize (Hc tmpl eq_refl). cbn [foldl].
    by repeat apply replace_one_line.
Qed.

(** *** Reading a line back *)

(** A quoted field as readers of the format take it: up to the first quote
    that no backslash escapes. *)
Fixpoint read_quoted (s : list Z) : option (list Z * list Z) :=
  match s with
  | [] => None
  | b :: s1 =>
      if b =? QUOTE then Some ([], s1)
      else if b =? byte_backslash then
        match s1 with [] => None | c :: s2 => (λ '(f, r), (b :: c :: f, r)) <$> read_quoted s2 end
      else (λ '(f, r), (b :: f, r)) <$> read_quoted s1
  end.

Lemma read_quoted_plain s rest : QUOTE ∉ s → byte_backslash ∉ s → read_quoted (s ++ QUOTE :: rest) = Some (s, rest).
Proof.
  induction s as [|b s IH]; [done|]. rewrite !not_elem_of_cons. intros [H1 H1'] [H2 H2']. cbn [app read_quoted].
  rewrite (proj2 (Z.eqb_neq _ _)) by done. rewrite (proj2 (Z.eqb_neq _ _)) by done. by rewrite IH.
Qed.

Lemma read_quoted_bytes s rest :
  Forall (λ b, 0 ≤ b) s → byte_backslash ∉ s →
  read_quoted (concat (sanitize_byte <$> s) ++ QUOTE :: rest) = Some (concat (sanitize_byte <$> s), rest).
Proof.
  induction s as [|b s IH]; [done|]. intros [Hb Hs]%Forall_cons [Hn Hns]%not_elem_of_cons. specialize (IH Hs Hns).
  cbn [fmap list_fmap concat]. rewrite <- app_assoc.
  assert (G : ∀ p, QUOTE ∉ p → byte_backslash ∉ p → ∀ t f r, read_quoted t = Some (f, r) → read_quoted (p ++ t) = Some (p ++ f, r)).
  { clear. induction p as [|x p IH]; intros H1 H2 t f r Ht; [done|]. apply not_elem_of_cons in H1 as [H1 H1'], H2 as [H2 H2'].
    cbn [app read_quoted]. rewrite (proj2 (Z.eqb_neq _ _)) by done. rewrite (proj2 (Z.eqb_neq _ _)) by done.
    by rewrite (IH H1' H2' t f r Ht). }
  revert IH. generalize (concat (sanitize_byte <$> s)) as tail. intros tail IH.
  unfold sanitize_byte. repeat case_test; zbool; try (cbn [app read_quoted]; change (byte_backslash =? QUOTE) with false;
    change (byte_backslash =? byte_backslash) with true; cbv iota; by rewrite IH).
  apply G; [..|done]; unfold push_char; case_test; zbool; rewrite ?not_elem_of_cons;
    (split_and!; try apply not_elem_of_nil); unfold QUOTE, byte_backslash in *; Z.to_euclidean_division_equations; lia.
Qed.

(** A quoted field is read back as it was written, quotes and line breaks included, as long as the client
    sent no backslash. *)
Theorem log_field_delimited s rest :
  Forall (λ b, 0 ≤ b) s → byte_backslash ∉ s →
  read_quoted (sanitize_log_field s ++ [QUOTE] ++ rest) = Some (sanitize_log_field s, rest).
Proof.
  intros Hs Hb. unfold sanitize_log_field. destruct (existsb dangerous s) eqn:E; cbn [negb app].
  - by apply read_quoted_bytes.
  - apply read_quoted_plain; [|done]. intros Hin. apply not_true_iff_false in E. apply E, existsb_exists.
    exists QUOTE. split; [by apply list_elem_of_In|done].
Qed.

(** Backslashes are not escaped: a field that ends in one hides its closing quote, and the reader takes
    what follows as part of the field, up to the next quote. *)
Theorem log_field_backslash s next rest :
  QUOTE ∉ s → byte_backslash ∉ s → one_line s → QUOTE ∉ next → byte_backslash ∉ next →
  read_quoted (sanitize_log_field (s ++ [byte_backslash]) ++ [QUOTE] ++ next ++ [QUOTE] ++ rest)
  = Some (s ++ [byte_backslash; QUOTE] ++ next, rest).
Proof.
  intros Hq Hb [Hc Hl] Hnq Hnb.
  assert (E : sanitize_log_field (s ++ [byte_backslash]) = s ++ [byte_backslash]).
  { unfold sanitize_log_field. destruct (existsb dangerous (s ++ [byte_backslash])) eqn:E; [|done]. exfalso.
    apply existsb_exists in E as (x & Hx%list_elem_of_In & Hd). apply elem_of_app in Hx as [Hx| ->%list_elem_of_singleton]; [|done].
    unfold dangerous in Hd. zbool; subst; done. }
  rewrite E, <- app_assoc. clear E. induction s as [|b s IH]; cbn [app read_quoted].
  - change (byte_backslash =? QUOTE) with false. change (byte_backslash =? byte_backslash) with true. cbv iota.
    by rewrite read_quoted_plain.
  - apply not_elem_of_cons in Hq as [? ?], Hb as [? ?], Hc as [? ?], Hl as [? ?].
    rewrite (proj2 (Z.eqb_neq _ _)) by done. rewrite (proj2 (Z.eqb_neq _ _)) by done.
    cbn [app] in IH. by rewrite IH.
Qed.

(** ** Witnesses *)

Module Witness.

Definition entry (uri ua : list Z) : LogEntry := mkLog (lit "1.2.3.4") (lit "GET") uri (lit "HTTP/1.1") 200 5 [] ua (lit "a").
Definition evil : list Z := lit "/x" ++ [QUOTE; LF] ++ lit "9.9.9.9 - -".

Lemma log_entry_one_line_witness :
  one_line (format_entry (λ _ _, []) (lit "now") Combined 3 (entry evil (lit "ua"))).
Proof.
  apply log_entry_one_line; [|discriminate|discriminate].
  split_and!; try (split; apply (bool_decide_unpack _); by vm_compute); try (by vm_compute).
  all: apply (bool_decide_unpack _); by vm_compute.
Defined.

Lemma log_field_delimited_witness : read_quoted (sanitize_log_field evil ++ [QUOTE] ++ lit " rest") = Some (sanitize_log_field evil, lit " rest").
Proof. apply log_field_delimited; apply (bool_decide_unpack _); by vm_compute. Defined.

Lemma log_field_backslash_witness :
  read_quoted (sanitize_log_field (lit "ref" ++ [byte_backslash]) ++ [QUOTE] ++ [SP] ++ [QUOTE] ++ lit "agent")
  = Some (lit "ref" ++ [byte_backslash; QUOTE] ++ [SP], lit "agent").
Proof. apply log_field_backslash; try split; apply (bool_decide_unpack _); by vm_compute. Defined.

(** Templates lose their case, and what is put in for a variable is itself
    searched for variables. *)
Example template_lowered : LogFormat_from_str (lit "ID=$site") = Custom (lit "id=$site").
Proof. by vm_compute. Qed.
Example value_expanded :
  format_custom (lit "$uri") (lit "now") 3 (entry (lit "/$http_user_agent") (lit "secret")) = lit "/secret".
Proof. by vm_compute. Qed.

End Witness.
