(* ===== verification/H2Upstream.v ===== *)
(** * HTTP/2 upstreams

    [src/handler/reverse_proxy/upstream_h2.rs] and [forward_request_h2] of
    [src/handler/reverse_proxy/mod.rs]: the pool of connections of a node, the
    registry of pools, the request sent on a stream, and the relay of the
    response.  The h2 crate is a parameter: whether a connection takes another
    stream ([ready]), the outcome of opening one ([connect]), and what a stream
    answers to a request ([exchange]). *)

From S2P Require Import Prelude RustStr Retry Headers CircuitBreaker LoadBalance ProxyResponse Http1 Streaming Forward ProxyHandler.

(** ** The pool of one node *)

(** [SendRequest::ready] on a connection: a sender, an error because the
    connection is gone, or waiting until the peer allows another stream. *)
Inductive readiness := Ready | Dead | Busy.

#[export] Instance readiness_eq_dec : EqDecision readiness.
Proof. solve_decision. Defined.

(** Connections are named by numbers. *)
Record H2NodePool := mkH2Pool {
  h2_addr : UpstreamAddr;
  h2_use_tls : bool;
  h2_tls_sni : list Z;
  h2_tls_insecure : bool;
  h2_max_conns : Z;
  h2_connect_timeout : Z;
  h2_conns : list Z;
}.

(** [H2NodePool::new] *)
Definition h2_new (addr : UpstreamAddr) (use_tls : bool) (tls_sni : list Z) (tls_insecure : bool)
    (max_conns connect_timeout_secs : Z) : H2NodePool :=
  mkH2Pool addr use_tls tls_sni tls_insecure (Z.max max_conns 1)
    (if 0 <? connect_timeout_secs then connect_timeout_secs else 10) [].

Definition set_conns (cs : list Z) (p : H2NodePool) : H2NodePool :=
  mkH2Pool (h2_addr p) (h2_use_tls p) (h2_tls_sni p) (h2_tls_insecure p) (h2_max_conns p) (h2_connect_timeout p) cs.

(** The loop over the connections of the pool; [Failed] when all are gone. *)
Fixpoint first_ready (ready : Z → readiness) (conns : list Z) : io Z :=
  match conns with
  | [] => Failed
  | c :: conns => match ready c with Ready => Done c | Dead => first_ready ready conns | Busy => Blocked end
  end.

(** [ready] of one connection. *)
Definition await_ready (r : readiness) (c : Z) : io Z :=
  match r with Ready => Done c | Dead => Failed | Busy => Blocked end.

(** [get_sender]; [ready'] answers the calls made after the loop.  A caller
    that waits does so with the lock of the pool. *)
Definition get_sender (ready ready' : Z → readiness) (connect : io Z) (p : H2NodePool) : io Z * H2NodePool :=
  match first_ready ready (h2_conns p) with
  | Done c => (Done c, p)
  | Blocked => (Blocked, p)
  | Failed =>
      if Z.of_nat (length (h2_conns p)) <? h2_max_conns p then
        match connect with
        | Done c => (await_ready (ready' c) c, set_conns (h2_conns p ++ [c]) p)
        | Failed => (Failed, p)
        | Blocked => (Blocked, p)
        end
      else
        match h2_conns p with
        | c :: _ => (await_ready (ready' c) c, p)
        | [] => (Failed, p)
        end
  end.

(** ** The registry of pools *)

Definition h2_key (use_tls : bool) (addr : UpstreamAddr) : list Z :=
  (if use_tls then lit "tls" else lit "plain") ++ lit ":" ++ addr_as_str addr.

(** [get_or_create] *)
Definition get_or_create (addr : UpstreamAddr) (use_tls : bool) (tls_sni : list Z) (tls_insecure : bool)
    (max_conns connect_timeout_secs : Z) (pools : gmap (list Z) H2NodePool) : H2NodePool * gmap (list Z) H2NodePool :=
  match pools !! h2_key use_tls addr with
  | Some p => (p, pools)
  | None => let p := h2_new addr use_tls tls_sni tls_insecure max_conns connect_timeout_secs in
            (p, <[h2_key use_tls addr := p]> pools)
  end.

(** ** Sending a request *)

(** The body is collected to its end, or to the first error; there is no limit
    and no timeout. *)
Fixpoint collect_body (items : list body_item) : io (list Z) :=
  match items with
  | [] | BodyError :: _ => Done []
  | BodyTimeout :: _ => Blocked
  | BodyChunk bs :: items => rest ← collect_body items; Done (bs ++ rest)
  end.

(** What a stream delivers after the head of the response. *)
Inductive recv_event := RecvData (bs : list Z) | RecvError | RecvTimeout.

(** The task that relays the body; [client i] tells whether the client still
    takes the [i]-th item. *)
Fixpoint h2_relay (client : nat → bool) (i : nat) (evs : list recv_event) : list stream_item :=
  match evs with
  | [] => []
  | RecvData bs :: evs => if client i then Piece bs :: h2_relay client (S i) evs else []
  | (RecvError | RecvTimeout) :: _ => if client i then [ItemError] else []
  end.

Section forwarding.
Context `{L : HeaderLib}.

(** What goes on the wire: the head with END_STREAM, then the data. *)
Record h2_request {U : Type} := mkH2Req {
  hq_method : list Z;
  hq_uri : U;
  hq_headers : HeaderMap;
  hq_end_stream : bool;
  hq_data : option (list Z);
}.

(** The response parts, header values as bytes, and the rest of the stream. *)
Record h2_answer := mkAnswer {
  ha_status : Z;
  ha_headers : list (list Z * list Z);
  ha_body : list recv_event;
}.

Definition add_h2_header (m : HeaderMap) (kv : list Z * list Z) : HeaderMap :=
  let '(k, v) := kv in
  if is_hop_by_hop k then m
  else if eq_ignore_ascii_case k (lit "content-length") then m
  else match header_name k, header_value v with
       | Some name, Some val => hm_append name val m
       | _, _ => m
       end.

(** [builder.header]: a value that is not valid makes the whole request fail. *)
Definition builder_header (name v : list Z) (m : option HeaderMap) : option HeaderMap :=
  match m, header_value v with Some m, Some w => Some (hm_append name w m) | _, _ => None end.

Definition h2_headers (extra : list (list Z * list Z)) (client_ip scheme : list Z) : option HeaderMap :=
  builder_header (lit "x-forwarded-proto") scheme
    (builder_header (lit "x-forwarded-for") client_ip
      (builder_header (lit "x-real-ip") client_ip (Some (foldl add_h2_header hm_empty extra)))).

Context {U : Type} (parse_uri : list Z → option U) (to_str : list Z → option (list Z))
  (exchange : Z → h2_request (U := U) → io h2_answer).

(** The URI, with the host replaced when the text does not parse. *)
Definition h2_uri (host path : list Z) : outcome U :=
  match parse_uri (lit "https://" ++ host ++ path) with
  | Some u => Ret u
  | None => match parse_uri (lit "https://localhost" ++ path) with Some u => Ret u | None => Panic end
  end.

(** The request of [send]. *)
Definition h2_build (method : list Z) (uri : U) (m : HeaderMap) (body : option (list Z)) : h2_request :=
  let data := match body with Some (b :: bs) => Some (b :: bs) | _ => None end in
  mkH2Req _ method uri m (bool_decide (data = None)) data.

(** Turning the answer into the client's response. *)
Definition h2_respond (client : nat → bool) (strip_cookie_secure : bool)
    (cookie_domain redirect_from redirect_to : option (list Z)) (a : h2_answer) : forwarded :=
  let hs := omap (λ '(k, v), (λ w, (k, w)) <$> to_str v) (ha_headers a) in
  let st := status_or_ok (ha_status a) in
  match apply_response_headers hm_empty hs strip_cookie_secure cookie_domain redirect_from redirect_to with
  | Panic => FwPanic
  | Ret m =>
      if no_body_status st then FwOk (mkResp _ st [] m) None
      else
        let m := hm_remove (lit "transfer-encoding") m in
        let m := match find_first (λ kv, str_eqb (fst kv) (lit "content-length")) (ha_headers a) with
                 | Some (_, v) => hm_insert (lit "content-length") v m
                 | None => m
                 end in
        FwStream st m (h2_relay client 0 (ha_body a))
  end.

(** [forward_request_h2] *)
Definition forward_request_h2 (ready ready' : Z → readiness) (connect : io Z) (client : nat → bool)
    (method path host : list Z) (extra : list (list Z * list Z)) (client_ip scheme : list Z)
    (body : list body_item) (strip_cookie_secure : bool) (cookie_domain redirect_from redirect_to : option (list Z))
    (p : H2NodePool) : forwarded * H2NodePool * list h2_request :=
  match h2_uri host path with
  | Panic => (FwPanic, p, [])
  | Ret uri =>
      match collect_body body with
      | Blocked => (FwBlocked, p, [])
      | Failed => (FwErr None, p, [])
      | Done bs =>
          match h2_headers extra client_ip scheme with
          | None => (FwErr None, p, [])
          | Some m =>
              let '(sender, p') := get_sender ready ready' connect p in
              match sender with
              | Failed => (FwErr None, p', [])
              | Blocked => (FwBlocked, p', [])
              | Done c =>
                  let q := h2_build method uri m (match bs with [] => None | _ => Some bs end) in
                  (match exchange c q with
                   | Done a => h2_respond client strip_cookie_secure cookie_domain redirect_from redirect_to a
                   | Failed => FwErr None
                   | Blocked => FwBlocked
                   end, p', [q])
              end
          end
      end
  end.

End forwarding.

(** The branch of [handle_sweety] for a node that speaks HTTP/2: the request is
    counted on the node while it is forwarded, and its outcome recorded. *)
Definition handle_h2 `{HeaderLib} (now later : Z) (client_ip : list Z) (fw : nat → forwarded) (p : UpstreamPool)
  : outcome (option forwarded * UpstreamPool) :=
  '(r, p) ← pick now (Some client_ip) p;
  match r with
  | None => Ret (None, p)
  | Some i =>
      let p := update_node i (active_add 1) p in
      match fw i with
      | FwPanic => Panic
      | FwBlocked => Ret (Some FwBlocked, p)
      | FwErr e => p ← node_fails later i p; Ret (Some (FwErr e), update_node i (active_add (-1)) p)
      | f => Ret (Some f, update_node i (active_add (-1)) (update_node i (node_record_success later) p))
      end
  end.

(** ** The pool *)

(** One call of [get_sender], with any answers of the library. *)
Inductive pool_step : H2NodePool → H2NodePool → Prop :=
| pool_call ready ready' connect p : pool_step p (snd (get_sender ready ready' connect p)).

Lemma get_sender_conns ready ready' connect p :
  let p' := snd (get_sender ready ready' connect p) in
  h2_max_conns p' = h2_max_conns p ∧
  (h2_conns p' = h2_conns p ∨
   ∃ c, connect = Done c ∧ h2_conns p' = h2_conns p ++ [c] ∧ first_ready ready (h2_conns p) = Failed
        ∧ Z.of_nat (length (h2_conns p)) < h2_max_conns p).
Proof.
  unfold get_sender. destruct (first_ready ready (h2_conns p)); cbn; [by eauto| |by eauto].
  destruct (Z.ltb_spec (Z.of_nat (length (h2_conns p))) (h2_max_conns p)); [|destruct (h2_conns p) eqn:E; cbn; rewrite ?E; by auto].
  destruct connect as [c| |]; cbn; [|by eauto|by eauto]. split; [done|]. right. exists c. by repeat split.
Qed.

Lemma first_ready_failed ready cs : first_ready ready cs = Failed ↔ Forall (λ c, ready c = Dead) cs.
Proof.
  induction cs as [|c cs IH]; cbn; [by split; [constructor|]|]. rewrite Forall_cons.
  destruct (ready c) eqn:E; [split; [done|by intros [? _]]| |split; [done|by intros [? _]]]. rewrite IH. naive_solver.
Qed.

Lemma first_ready_done ready cs c : first_ready ready cs = Done c → c ∈ cs ∧ ready c = Ready.
Proof.
  induction cs as [|x cs IH]; cbn; [done|]. destruct (ready x) eqn:E; [intros [= ->]| |done]; set_solver.
Qed.

(** The pool stays within its limit, and a sender it hands out belongs to a
    connection of the pool that takes the stream.  Over any sequence of calls
    with any behaviour of the network, at most [max_conns] connections are
    opened (at least one is allowed), and none is opened while one of the pool
    is usable. *)
Theorem h2_pool_sound a t sni ins n secs p ready ready' connect r p' :
  rtc pool_step (h2_new a t sni ins n secs) p →
  get_sender ready ready' connect p = (r, p') →
  Z.of_nat (length (h2_conns p')) ≤ Z.max n 1 ∧
  (∀ c, r = Done c → c ∈ h2_conns p' ∧ (ready c = Ready ∨ ready' c = Ready)) ∧
  (h2_conns p' ≠ h2_conns p → Forall (λ c, ready c = Dead) (h2_conns p) ∧ ∃ c, h2_conns p' = h2_conns p ++ [c]).
Proof.
  intros Hr Hg.
  assert (Hb : h2_max_conns p = Z.max n 1 ∧ Z.of_nat (length (h2_conns p)) ≤ Z.max n 1).
  { apply (rtc_ind_r (R := pool_step) (λ q, h2_max_conns q = Z.max n 1 ∧ Z.of_nat (length (h2_conns q)) ≤ Z.max n 1)
      (h2_new a t sni ins n secs)); [cbn; lia| |done].
    intros q q' _ [rd rd' cn q0] [Hm Hl]. destruct (get_sender_conns rd rd' cn q0) as [-> [->|(c & _ & -> & _ & Hlt)]]; [done|].
    rewrite length_app. cbn. lia. }
  destruct Hb as [Hm Hl]. pose proof (get_sender_conns ready ready' connect p) as Hc. rewrite Hg in Hc. cbn in Hc.
  destruct Hc as [_ Hc]. split_and!.
  - destruct Hc as [->|(c & _ & -> & _ & Hlt)]; [done|]. rewrite length_app. cbn. lia.
  - intros c ->. revert Hg. unfold get_sender. destruct (first_ready ready (h2_conns p)) as [x| |] eqn:E; [|case_test|done].
    + intros [= <- <-]. apply first_ready_done in E as [? ?]. auto.
    + destruct connect as [x| |]; [|done|done]. unfold await_ready. destruct (ready' x) eqn:Ex; [|done|done].
      intros [= <- <-]. cbn. split; [set_solver|by right].
    + destruct (h2_conns p) as [|x cs] eqn:Ec; [done|]. unfold await_ready. destruct (ready' x) eqn:Ex; [|done|done].
      intros [= <- <-]. rewrite Ec. split; [set_solver|by right].
  - intros Hne. destruct Hc as [?|(c & _ & -> & Hf & _)]; [done|]. split; [by apply first_ready_failed|eauto].
Qed.

(** A pool of lost connections is lost for good.  Connections that are gone
    are never taken out of the pool: once it is full of them every request
    fails, for ever, however healthy the upstream is again. *)
Theorem h2_dead_pool_stuck (dead : list Z) calls p :
  h2_conns p ≠ [] →
  h2_max_conns p ≤ Z.of_nat (length (h2_conns p)) →
  (∀ c, c ∈ h2_conns p → c ∈ dead) →
  Forall (λ '(ready, ready', _), ∀ c, c ∈ dead → ready c = Dead ∧ ready' c = Dead) calls →
  foldl (λ '(rs, p) '(ready, ready', connect), let '(r, p') := get_sender ready ready' connect p in (rs ++ [r], p')) ([], p) calls
    = (replicate (length calls) Failed, p).
Proof.
  intros Hne Hfull Hdead. induction calls as [|[[ready ready'] connect] calls IH] using rev_ind; [done|].
  rewrite Forall_app, Forall_singleton. intros [Hall Hlast]. rewrite foldl_snoc, IH by done.
  assert (Hf : first_ready ready (h2_conns p) = Failed).
  { apply first_ready_failed, Forall_forall. intros c Hc. by apply Hlast, Hdead. }
  unfold get_sender. rewrite Hf. case_test; [lia|]. destruct (h2_conns p) as [|c cs]; [done|].
  destruct (Hlast c) as [_ ->]; [by apply Hdead; left|]. cbn.
  by rewrite length_app, Nat.add_comm, <- replicate_S_end.
Qed.

(** One busy connection stops the node.  While the first connection of the
    pool is alive but has no stream to spare, every request waits for it, with
    the lock of the pool; no other connection is tried and none is opened. *)
Theorem h2_busy_connection_blocks ready ready' connect p c cs :
  h2_conns p = c :: cs → ready c = Busy → get_sender ready ready' connect p = (Blocked, p).
Proof. intros Hc Hb. unfold get_sender. rewrite Hc. cbn. by rewrite Hb. Qed.

(** Nodes share a pool by address only.  A second node with the same address
    gets the pool made for the first, with the SNI and the certificate check
    of the first: a node that asks for verified certificates is served
    without verification. *)
Theorem h2_pool_ignores_settings a sni sni' ins ins' n n' secs secs' pools p p' pools1 pools2 :
  pools !! h2_key true a = None →
  get_or_create a true sni ins n secs pools = (p, pools1) →
  get_or_create a true sni' ins' n' secs' pools1 = (p', pools2) →
  p' = p ∧ pools2 = pools1 ∧ h2_tls_sni p' = sni ∧ h2_tls_insecure p' = ins.
Proof.
  intros Hn. unfold get_or_create. rewrite Hn. intros [= <- <-]. rewrite lookup_insert_eq. by intros [= <- <-].
Qed.

(** ** Requests and responses *)

Definition intact (items : list body_item) : Prop := Forall (λ i, ∃ bs, i = BodyChunk bs) items.

Lemma collect_body_intact items : intact items → collect_body items = Done (body_data items).
Proof.
  induction 1 as [|i items [bs ->] _ IH]; [done|]. cbn [collect_body body_data]. by rewrite IH.
Qed.

Section forward_facts.
Context `{L : HeaderLib} `{!HeaderLaws L}.

Lemma add_h2_header_hop extra m n :
  is_hop_by_hop n = true → hm_get_all (foldl add_h2_header m extra) (to_ascii_lowercase n) = hm_get_all m (to_ascii_lowercase n).
Proof.
  intros Hn. revert m. induction extra as [|[k v] extra IH]; intros m; [done|]. cbn [foldl]. rewrite IH. unfold add_h2_header.
  destruct (is_hop_by_hop k) eqn:Ek; [done|]. case_test; [done|].
  destruct (header_name k) as [name|] eqn:En; [|done]. destruct (header_value v); [|done].
  apply header_name_lower in En as ->. rewrite get_all_append, decide_False; [done|].
  intros E'. rewrite (is_hop_by_hop_case _ _ E') in Hn. congruence.
Qed.

(** The values of a header the client sent, in order, when they are legal. *)
Definition sent_values (n : list Z) (extra : list (list Z * list Z)) : list (list Z) :=
  omap (λ '(k, v), match header_name k with
                   | Some name => if bool_decide (name = n) then header_value v else None
                   | None => None end) extra.

Lemma add_h2_header_other extra m n :
  is_hop_by_hop n = false → n = to_ascii_lowercase n → n ≠ lit "content-length" →
  hm_get_all (foldl add_h2_header m extra) n = hm_get_all m n ++ sent_values n extra.
Proof.
  intros Hn Hl Hc. revert m. induction extra as [|[k v] extra IH]; intros m; [by rewrite app_nil_r|].
  cbn [foldl]. rewrite IH. unfold sent_values. cbn [omap list_omap].
  assert (Hk : ∀ name, header_name k = Some name → name = n → is_hop_by_hop k = false ∧ eq_ignore_ascii_case k (lit "content-length") = false).
  { intros name En ->. apply header_name_lower in En. split.
    - rewrite <- Hn. apply is_hop_by_hop_case. congruence.
    - apply eq_ignore_false. by rewrite <- En. }
  unfold add_h2_header. destruct (header_name k) as [name|] eqn:En.
  - destruct (decide (name = n)) as [->|Hne].
    + destruct (Hk n eq_refl eq_refl) as [-> ->]. rewrite bool_decide_true by done.
      destruct (header_value v) as [w|]; [|done]. rewrite get_all_append, decide_True by done. by rewrite <- app_assoc.
    + rewrite bool_decide_false by done. destruct (is_hop_by_hop k); [done|]. case_test; [done|].
      destruct (header_value v); [|done]. by rewrite get_all_append, decide_False.
  - by destruct (is_hop_by_hop k), (eq_ignore_ascii_case k (lit "content-length")).
Qed.

Lemma h2_headers_get extra ip scheme m n :
  h2_headers extra ip scheme = Some m →
  n ≠ lit "x-real-ip" → n ≠ lit "x-forwarded-for" → n ≠ lit "x-forwarded-proto" →
  hm_get_all m n = hm_get_all (foldl add_h2_header hm_empty extra) n.
Proof.
  unfold h2_headers, builder_header. destruct (header_value ip), (header_value scheme); try done.
  intros [= <-] H1 H2 H3. by rewrite !get_all_append, !decide_False.
Qed.

(** What a stream of the upstream carries before its first error. *)
Fixpoint stream_data (evs : list recv_event) : list Z :=
  match evs with RecvData bs :: evs => bs ++ stream_data evs | _ => [] end.
Definition stream_ended (evs : list recv_event) : Prop := Forall (λ e, ∃ bs, e = RecvData bs) evs.

(** C36: A response is relayed exactly, and never silently cut.  The client gets
    the status of the upstream, Content-Length as the upstream gave it, no
    Transfer-Encoding, and as long as it reads on, the bytes up to the end or
    the first error of the stream; the relay reports a failure if and only if
    the stream failed. *)
Theorem h2_response_exact to_str client st cd rf rt a status m items :
  (∀ i, client i = true) →
  h2_respond to_str client st cd rf rt a = FwStream status m items →
  status = status_or_ok (ha_status a) ∧ no_body_status status = false ∧
  delivered items = stream_data (ha_body a) ∧
  (failed items = false ↔ stream_ended (ha_body a)) ∧
  hm_get_all m (lit "transfer-encoding") = [] ∧
  hm_get m (lit "content-length") = snd <$> find_first (λ kv, str_eqb (fst kv) (lit "content-length")) (ha_headers a).
Proof.
  intros Hc. unfold h2_respond. destruct (apply_response_headers _ _ _ _ _ _) as [m0|] eqn:Em; [|done].
  destruct (no_body_status (status_or_ok (ha_status a))) eqn:En; [done|]. intros [= <- <- <-].
  split_and!; [done|done| | | |].
  - generalize 0%nat. induction (ha_body a) as [|[bs| |] evs IH]; intros i; cbn [h2_relay stream_data]; try done; rewrite ?Hc; [|done|done].
    unfold delivered in *. cbn. by rewrite IH.
  - generalize 0%nat. unfold stream_ended. induction (ha_body a) as [|[bs| |] evs IH]; intros i; cbn [h2_relay]; rewrite ?Hc; [done| | |].
    + rewrite Forall_cons. cbn. rewrite (IH (S i)). naive_solver.
    + rewrite Forall_cons. cbn. naive_solver.
    + rewrite Forall_cons. cbn. naive_solver.
  - destruct (find_first _ _) as [[k v]|]; rewrite ?get_all_insert, ?decide_False by (by vm_compute); by rewrite get_all_remove, decide_True.
  - destruct (find_first _ _) as [[k v]|]; [by rewrite hm_get_insert|]. cbn [fmap option_fmap option_map]. unfold hm_get.
    rewrite get_all_remove, decide_False by (by vm_compute).
    pose proof (hop_by_hop_stripped _ _ _ _ _ _ _ (lit "content-length") eq_refl Em) as Hs.
    rewrite to_ascii_lowercase_id in Hs by done. by rewrite Hs, get_all_empty.
Qed.

Context {U : Type} (parse_uri : list Z → option U) (to_str : list Z → option (list Z))
  (exchange : Z → h2_request (U := U) → io h2_answer).

(** What reaches an HTTP/2 upstream is the client's request: at most one is
    sent; it has the method, and for every end-to-end header that the proxy
    does not add itself the client's values in order; no hop-by-hop header and
    no Content-Length; and, when the body arrived whole, exactly its bytes. *)
Theorem h2_request_faithful ready ready' connect client method path host extra ip scheme body st cd rf rt p f p' qs :
  intact body →
  forward_request_h2 parse_uri to_str exchange ready ready' connect client method path host extra ip scheme body st cd rf rt p = (f, p', qs) →
  (length qs ≤ 1)%nat ∧
  ∀ q, q ∈ qs →
    hq_method q = method ∧
    default [] (hq_data q) = body_data body ∧
    (hq_end_stream q = true ↔ hq_data q = None) ∧
    (∀ n, is_hop_by_hop n = true → hm_get_all (hq_headers q) (to_ascii_lowercase n) = []) ∧
    (∀ n, is_hop_by_hop n = false → n = to_ascii_lowercase n →
       n ≠ lit "x-real-ip" → n ≠ lit "x-forwarded-for" → n ≠ lit "x-forwarded-proto" →
       hm_get_all (hq_headers q) n = sent_values n extra).
Proof.
  intros Hb. unfold forward_request_h2. destruct (h2_uri parse_uri host path) as [u|]; [|intros [= <- <- <-]; set_solver by lia].
  rewrite (collect_body_intact _ Hb). destruct (h2_headers extra ip scheme) as [m|] eqn:Em; [|intros [= <- <- <-]; set_solver by lia].
  destruct (get_sender ready ready' connect p) as [[c| |] p1]; [|intros [= <- <- <-]; set_solver by lia..].
  intros [= <- <- <-]. split; [cbn; lia|]. intros q ->%list_elem_of_singleton. unfold h2_build. cbn.
  split_and!; [done|by destruct (body_data body)|by rewrite bool_decide_eq_true| |].
  - intros n Hn. rewrite (h2_headers_get _ _ _ _ _ Em), add_h2_header_hop, get_all_empty; [done|done|..];
      intros E; by rewrite (is_hop_by_hop_case n (to_ascii_lowercase n)), E in Hn by (by rewrite to_ascii_lowercase_idemp).
  - intros n Hn Hl H1 H2 H3. rewrite (h2_headers_get _ _ _ _ _ Em), add_h2_header_other, get_all_empty; try done.
    intros ->. by vm_compute in Hn.
Qed.

(** A request body that breaks off is sent on as complete.  When the client's
    body fails after some chunks, the upstream receives the bytes so far with
    the end of the stream, and no length that would contradict them. *)
Theorem h2_truncated_request_accepted ready ready' connect client method path host extra ip scheme chunks rest st cd rf rt p f p' qs :
  intact chunks →
  forward_request_h2 parse_uri to_str exchange ready ready' connect client method path host extra ip scheme
    (chunks ++ BodyError :: rest) st cd rf rt p = (f, p', qs) →
  forward_request_h2 parse_uri to_str exchange ready ready' connect client method path host extra ip scheme
    chunks st cd rf rt p = (f, p', qs).
Proof.
  intros Hb. unfold forward_request_h2. rewrite (collect_body_intact _ Hb).
  replace (collect_body (chunks ++ BodyError :: rest)) with (Done (body_data chunks)); [done|].
  induction Hb as [|i items [bs ->] _ IH]; [done|]. cbn [app collect_body body_data]. by rewrite <- IH.
Qed.

End forward_facts.

(** ** The counters of the nodes *)

(** A request to an HTTP/2 node that ends leaves the connection counters of
    every node as they were. *)
Theorem h2_counters_balanced `{HeaderLib} now later ip fw p r p' :
  Forall is_u32 (actives (nodes p)) →
  r ≠ Some FwBlocked →
  handle_h2 now later ip fw p = Ret (r, p') →
  actives (nodes p') = actives (nodes p).
Proof.
  intros Hu Hnb. unfold handle_h2. intros ([r0 p0] & Hp & Hh)%outcome_bind_ret. apply pick_actives in Hp. rewrite <- Hp in *.
  destruct r0 as [i|]; [|by injection Hh as <- <-].
  destruct (fw i) as [resp store|s m items|e| |]; [..|done].
  - injection Hh as <- <-. rewrite update_active, update_node_actives, update_active by apply record_success_active. by apply bump_cancel.
  - injection Hh as <- <-. rewrite update_active, update_node_actives, update_active by apply record_success_active. by apply bump_cancel.
  - apply outcome_bind_ret in Hh as (p1 & H1 & [= <- <-]). apply node_fails_actives in H1.
    rewrite update_active, H1, update_active. by apply bump_cancel.
  - by injection Hh as <- <-.
Qed.

(** ** Witnesses *)

Module H2Witness.
Import Headers.Model.

Definition node_addr : UpstreamAddr := Tcp (lit "10.0.0.1:443").
Definition fresh : H2NodePool := h2_new node_addr true (lit "a") false 2 0.
Definition all (r : readiness) (c : Z) : readiness := r.
Definition full : H2NodePool := snd (get_sender (all Dead) (all Ready) (Done 2) (snd (get_sender (all Dead) (all Ready) (Done 1) fresh))).

Lemma full_reachable : rtc pool_step (h2_new node_addr true (lit "a") false 2 0) full.
Proof.
  eapply rtc_l; [apply (pool_call (all Dead) (all Ready) (Done 1))|].
  eapply rtc_l; [apply (pool_call (all Dead) (all Ready) (Done 2))|]. apply rtc_refl.
Defined.

Lemma h2_pool_sound_witness :
  h2_conns full = [1; 2] ∧ Z.of_nat (length (h2_conns (snd (get_sender (all Dead) (all Dead) (Done 3) full)))) ≤ Z.max 2 1.
Proof.
  split; [done|]. apply (h2_pool_sound node_addr true (lit "a") false 2 0 full (all Dead) (all Dead) (Done 3) Failed full full_reachable).
  vm_compute. reflexivity.
Defined.

Lemma h2_dead_pool_stuck_witness :
  foldl (λ '(rs, p) '(ready, ready', connect), let '(r, p') := get_sender ready ready' connect p in (rs ++ [r], p')) ([], full)
    [(all Dead, all Dead, Done 7); (all Dead, all Dead, Done 8)] = ([Failed; Failed], full).
Proof.
  apply (h2_dead_pool_stuck [1; 2]); [done|done| |].
  - intros c Hc. exact Hc.
  - repeat constructor; done.
Defined.

Lemma h2_busy_connection_blocks_witness : get_sender (all Busy) (all Ready) (Done 9) full = (Blocked, full).
Proof. apply (h2_busy_connection_blocks _ _ _ _ 1 [2]); reflexivity. Defined.

Lemma h2_pool_ignores_settings_witness :
  h2_tls_insecure (fst (get_or_create node_addr true (lit "b") false 8 0 (snd (get_or_create node_addr true (lit "a") true 8 0 ∅)))) = true.
Proof.
  eapply (h2_pool_ignores_settings node_addr (lit "a") (lit "b") true false 8 8 0 0 ∅); reflexivity.
Defined.

Definition answer : h2_answer := mkAnswer 200 [(lit "content-length", lit "5"); (lit "connection", lit "x")] [RecvData (lit "hel"); RecvData (lit "lo")].
Definition run (body : list body_item) :=
  forward_request_h2 (λ u : list Z, Some u) Some (λ _ _, Done answer) (all Ready) (all Ready) (Done 5) (λ _, true)
    (lit "POST") (lit "/p") (lit "h") [(lit "Accept", lit "a"); (lit "TE", lit "b")] (lit "1.2.3.4") (lit "http") body false None None None full.

Lemma h2_request_faithful_witness :
  (∀ q, q ∈ snd (run [BodyChunk (lit "x"); BodyChunk (lit "y")]) → default [] (hq_data q) = lit "xy").
Proof.
  intros q Hq.
  apply (h2_request_faithful (λ u : list Z, Some u) Some (λ _ _, Done answer) (all Ready) (all Ready) (Done 5) (λ _, true)
    (lit "POST") (lit "/p") (lit "h") [(lit "Accept", lit "a"); (lit "TE", lit "b")] (lit "1.2.3.4") (lit "http")
    [BodyChunk (lit "x"); BodyChunk (lit "y")] false None None None full (fst (fst (run [BodyChunk (lit "x"); BodyChunk (lit "y")])))
    full (snd (run [BodyChunk (lit "x"); BodyChunk (lit "y")]))); [repeat constructor; by eexists|reflexivity|exact Hq].
Defined.

Lemma h2_response_exact_witness :
  ∃ m, h2_respond Some (λ _, true) false None None None answer = FwStream 200 m [Piece (lit "hel"); Piece (lit "lo")]
    ∧ hm_get m (lit "content-length") = Some (lit "5").
Proof.
  eexists. split; [reflexivity|].
  eapply (h2_response_exact Some (λ _, true) false None None None answer); [done|reflexivity].
Defined.

Lemma h2_truncated_request_accepted_witness : run [BodyChunk (lit "x")] = run [BodyChunk (lit "x"); BodyError].
Proof.
  apply (h2_truncated_request_accepted (λ u : list Z, Some u) Some (λ _ _, Done answer) (all Ready) (all Ready) (Done 5) (λ _, true)
    (lit "POST") (lit "/p") (lit "h") [(lit "Accept", lit "a"); (lit "TE", lit "b")] (lit "1.2.3.4") (lit "http")
    [BodyChunk (lit "x")] [] false None None None full _ _ _); [repeat constructor; by eexists|reflexivity].
Defined.

Definition one_node : UpstreamPool := LoadBalance.Witness.pool RoundRobin 0 [LoadBalance.Witness.node 1 0 CB_CLOSED].

Lemma h2_counters_balanced_witness :
  ∃ p', handle_h2 0 0 (lit "1.2.3.4") (λ _, FwErr None) one_node = Ret (Some (FwErr None), p') ∧ actives (nodes p') = actives (nodes one_node).
Proof.
  eexists. split; [vm_compute; reflexivity|].
  apply (h2_counters_balanced 0 0 (lit "1.2.3.4") (λ _, FwErr None) one_node (Some (FwErr None))); [repeat constructor; done|done|vm_compute; reflexivity].
Defined.

End H2Witness.
