(* ===== verification/Grpc.v ===== *)
(** * The gRPC handler: [src/handler/grpc.rs]

    A gRPC request is collected whole, sent to a node of the upstream group
    over HTTP/1.1 with [forward_request] of Forward.v, and its response given
    the headers gRPC clients look for.  The network of a node is given by the
    idle connection of the pool and the outcomes of connecting. *)

From S2P Require Import Prelude RustStr Retry Headers CircuitBreaker LoadBalance ProxyResponse Http1 Streaming Forward ProxyHandler.

(** ** Requests *)

Record grpc_request := mkGrpc {
  g_method : list Z;
  g_path : list Z;
  g_authority : option (list Z);
  g_scheme : list Z;
  g_headers : list req_header;
  g_body : list body_item;
}.

(** [headers().get(name)] with [to_str]. *)
Definition first_header (name : list Z) (hs : list req_header) : option (list Z) :=
  match find_first (λ h, eq_ignore_ascii_case (fst h) name) hs with Some (_, v) => v | None => None end.

Definition grpc_host (g : grpc_request) (n : NodeState) : list Z :=
  match upstream_host n with
  | Some h => h
  | None => match g_authority g with
            | Some a => a
            | None => default [] (first_header (lit "host") (g_headers g))
            end
  end.

Definition GRPC_SKIPPED : list (list Z) :=
  [lit "host"; lit "connection"; lit "proxy-connection"; lit "transfer-encoding"; lit "te"; lit "trailer"].

Definition grpc_header (h : req_header) : option (list Z * list Z) :=
  let '(name, v) := h in
  if existsb (eq_ignore_ascii_case name) GRPC_SKIPPED then None
  else match v with Some val => Some (name, val) | None => None end.

Definition is_grpc_type (kv : list Z * list Z) : bool :=
  eq_ignore_ascii_case (fst kv) (lit "content-type") && contains (lit "application/grpc") (snd kv).

Definition grpc_headers (g : grpc_request) (client_ip host : list Z) (overrides : list HeaderOverride) : list (list Z * list Z) :=
  let hs := omap grpc_header (g_headers g) in
  let hs := if existsb is_grpc_type hs then hs else hs ++ [(lit "Content-Type", lit "application/grpc")] in
  proxy_set_headers client_ip host (g_scheme g) (g_path g) overrides hs.

(** The body, up to its end or the first error; [None] when it is longer than
    [max_body], which 0 switches off. *)
Fixpoint grpc_collect (max_body : Z) (acc : list Z) (items : list body_item) : io (option (list Z)) :=
  match items with
  | [] | BodyError :: _ => Done (Some acc)
  | BodyTimeout :: _ => Blocked
  | BodyChunk bs :: items =>
      let acc := acc ++ bs in
      if (0 <? max_body) && (max_body <? Z.of_nat (length acc)) then Done None
      else grpc_collect max_body acc items
  end.

Definition announced_length (g : grpc_request) : Z :=
  match first_header (lit "content-length") (g_headers g) with
  | Some v => default 0 (parse_uint usize_max v)
  | None => 0
  end.

(** ** Responses *)

Section handler.
Context `{L : HeaderLib}.

Definition contains_key (n : list Z) (m : HeaderMap) : bool := negb (bool_decide (hm_get_all m n = [])).

Definition insert_checked (n v : list Z) (m : HeaderMap) : HeaderMap :=
  match header_value v with Some w => hm_insert n w m | None => m end.

(** [grpc_error] *)
Definition grpc_error (http_status grpc_status : Z) (msg : list Z) : WebResponse :=
  let m := hm_insert (lit "content-type") (lit "application/grpc") hm_empty in
  let m := insert_checked (lit "grpc-status") (dec grpc_status) m in
  mkResp _ http_status [] (match msg with [] => m | _ => insert_checked (lit "grpc-message") msg m end).

(** What is added to the response of the upstream. *)
Definition grpc_finish (m : HeaderMap) : HeaderMap :=
  let m := if contains_key (lit "content-type") m then m else hm_insert (lit "content-type") (lit "application/grpc") m in
  if contains_key (lit "grpc-status") m then m else insert_checked (lit "grpc-status") (lit "0") m.

(** ** The handler *)

(** A success resets the count of failures, the third failure in a row takes
    the node out; the circuit breaker is not told. *)
Definition grpc_ok_node (n : NodeState) : NodeState := set_health (healthy n) 0 n.
Definition grpc_failed_node (n : NodeState) : NodeState :=
  let n := set_health (healthy n) (wrap32 (fail_count n + 1)) n in
  if 3 <=? fail_count n then mark_unhealthy n else n.

Context {R : Type} (build : list Z → option R) (replace_all : R → list Z → list Z → list Z).

(** The arguments of [forward_request]. *)
Definition grpc_req (g : grpc_request) (client_ip host : list Z) (hs : list (list Z * list Z)) : Req :=
  mkReq (g_method g) (g_path g) host hs client_ip (g_scheme g) false None None None 60 true (λ _, true).

Inductive grpc_reply := GResp (r : WebResponse) | GStream (status : Z) (m : HeaderMap) (items : list stream_item) | GBlocked.

(** [handle_sweety]; [texts] are the three messages of its errors. *)
Definition handle_grpc (now : Z) (client_ip : list Z) (max_body : Z) (overrides : list HeaderOverride)
    (text : Z → list Z) (idle : nat → option Conn) (connect : nat → nat → result Conn ProxyError)
    (g : grpc_request) (upstream : option (list Z)) (pools : gmap (list Z) UpstreamPool)
  : outcome (grpc_reply * gmap (list Z) UpstreamPool * list (list Z)) :=
  match upstream with
  | None => Ret (GResp (grpc_error 500 13 (text 0)), pools, [])
  | Some name =>
      match pools !! name with
      | None => Ret (GResp (grpc_error 500 13 (text 1)), pools, [])
      | Some p =>
          '(r, p) ← pick now (Some client_ip) p;
          let put p := <[name := p]> pools in
          match r ≫= λ i, (λ n, (i, n)) <$> nodes p !! i with
          | None => Ret (GResp (grpc_error 502 14 (text 2)), put p, [])
          | Some (i, n) =>
              let host := grpc_host g n in
              let hs := grpc_headers g client_ip host overrides in
              if (0 <? max_body) && (max_body <? announced_length g)
              then Ret (GResp (grpc_error 400 8 (lit "request body too large")), put p, [])
              else
                match grpc_collect max_body [] (g_body g) with
                | Blocked => Ret (GBlocked, put p, [])
                | Failed | Done None => Ret (GResp (grpc_error 400 8 (lit "request body too large")), put p, [])
                | Done (Some body) =>
                    let counted := update_node i (active_add 1) p in
                    let '(written, f, _) :=
                      forward_request build replace_all (grpc_req g client_ip host hs) [] None (idle i) (connect i) [BodyChunk body] in
                    let ended := update_node i (active_add (-1)) counted in
                    match f with
                    | FwPanic => Panic
                    | FwBlocked => Ret (GBlocked, put counted, written)
                    | FwOk resp _ =>
                        Ret (GResp (mkResp _ (w_status resp) (w_body resp) (grpc_finish (w_headers resp))),
                             put (update_node i grpc_ok_node ended), written)
                    | FwStream st m items => Ret (GStream st (grpc_finish m) items, put (update_node i grpc_ok_node ended), written)
                    | FwErr _ => Ret (GResp (grpc_error 502 14 (text 3)), put (update_node i grpc_failed_node ended), written)
                    end
                end
          end
      end
  end.

End handler.

(** ** What is sent *)

Lemma values_of_nil name : values_of name [] = [].
Proof. done. Qed.

Lemma values_of_cons name k v hs :
  values_of name ((k, v) :: hs) = if eq_ignore_ascii_case k name then v :: values_of name hs else values_of name hs.
Proof.
  unfold values_of. rewrite filter_cons. cbn [fst]. destruct (eq_ignore_ascii_case k name); [by rewrite decide_True|by rewrite decide_False].
Qed.

Lemma values_of_app name hs hs' : values_of name (hs ++ hs') = values_of name hs ++ values_of name hs'.
Proof. unfold values_of. by rewrite filter_app, fmap_app. Qed.

Lemma skipped_case k k' :
  to_ascii_lowercase k = to_ascii_lowercase k' →
  existsb (eq_ignore_ascii_case k) GRPC_SKIPPED = existsb (eq_ignore_ascii_case k') GRPC_SKIPPED.
Proof. intros E. unfold eq_ignore_ascii_case. by rewrite E. Qed.

(** The client's values of a header. *)
Definition client_values (name : list Z) (hs : list req_header) : list (list Z) :=
  omap (λ h, if eq_ignore_ascii_case (fst h) name then snd h else None) hs.

Lemma kept_values name hs :
  values_of name (omap grpc_header hs) =
    if existsb (eq_ignore_ascii_case name) GRPC_SKIPPED then [] else client_values name hs.
Proof.
  unfold client_values. induction hs as [|[k v] hs IH]; [by destruct (existsb _ _)|]. cbn [omap list_omap grpc_header fst snd].
  destruct (eq_ignore_ascii_case k name) eqn:E.
  - rewrite (skipped_case k name) by (by apply eq_ignore_true). destruct (existsb (eq_ignore_ascii_case name) GRPC_SKIPPED); [done|].
    destruct v as [v|]; [|done]. rewrite values_of_cons, E, IH. done.
  - destruct (existsb (eq_ignore_ascii_case k) GRPC_SKIPPED); [done|]. destruct v; [|done]. by rewrite values_of_cons, E, IH.
Qed.

(** The request reaches the upstream as gRPC and without connection headers.
    Unless the configuration sets it: a connection-level header has no value;
    every other header has the client's values, in order; and Content-Type
    names gRPC, added if the client's did not. *)
Theorem grpc_headers_sent g ip host overrides name :
  last_override name overrides = None →
  values_of name (grpc_headers g ip host overrides) =
    (if existsb (eq_ignore_ascii_case name) GRPC_SKIPPED then []
     else client_values name (g_headers g)
          ++ (if eq_ignore_ascii_case name (lit "content-type")
                 && negb (existsb (contains (lit "application/grpc")) (client_values (lit "content-type") (g_headers g)))
              then [lit "application/grpc"] else [])).
Proof.
  intros Hn. unfold grpc_headers. rewrite proxy_set_headers_override, Hn.
  set (hs := omap grpc_header (g_headers g)).
  assert (Hct : existsb is_grpc_type hs = existsb (contains (lit "application/grpc")) (client_values (lit "content-type") (g_headers g))).
  { transitivity (existsb (contains (lit "application/grpc")) (values_of (lit "content-type") hs)).
    - clear. induction hs as [|[k v] hs IH]; [done|]. rewrite values_of_cons. cbn [existsb]. rewrite IH. unfold is_grpc_type at 1. cbn [fst snd].
      by destruct (eq_ignore_ascii_case k (lit "content-type")).
    - unfold hs. rewrite kept_values. done. }
  rewrite Hct. destruct (existsb (contains _) _); cbn [negb]; rewrite ?andb_false_r, ?andb_true_r, ?values_of_app, ?app_nil_r.
  { apply kept_values. }
  unfold hs. rewrite kept_values, values_of_cons, values_of_nil.
  replace (eq_ignore_ascii_case (lit "Content-Type") name) with (eq_ignore_ascii_case name (lit "content-type")).
  - destruct (existsb (eq_ignore_ascii_case name) GRPC_SKIPPED) eqn:Es; [|done].
    destruct (eq_ignore_ascii_case name (lit "content-type")) eqn:E; [|done].
    apply eq_ignore_true in E. by rewrite (skipped_case _ _ E) in Es.
  - apply eq_true_iff_eq. rewrite !eq_ignore_true. split; intros H; [by rewrite H|by rewrite <- H].
Qed.

Lemma grpc_collect_intact max acc items :
  0 < max → Forall (λ i, ∃ bs, i = BodyChunk bs) items → max < Z.of_nat (length (acc ++ body_data items)) →
  Z.of_nat (length acc) ≤ max → grpc_collect max acc items = Done None.
Proof.
  intros Hm Hi. revert acc. induction Hi as [|i items [bs ->] _ IH]; intros acc Hl Ha; cbn [body_data grpc_collect] in *.
  { rewrite app_nil_r in Hl. lia. }
  rewrite (proj2 (Z.ltb_lt 0 max)) by done. cbn [andb]. destruct (Z.ltb_spec max (Z.of_nat (length (acc ++ bs)))); [done|].
  apply IH; [by rewrite <- app_assoc|done].
Qed.

Section facts.
Context `{L : HeaderLib} `{!HeaderLaws L}.

Lemma insert_checked_other n v m n' : n' ≠ n → hm_get_all (insert_checked n v m) n' = hm_get_all m n'.
Proof. intros Hne. unfold insert_checked. destruct (header_value v); [|done]. by rewrite get_all_insert, decide_False. Qed.

Lemma insert_checked_digits n z m : 0 ≤ z → hm_get_all (insert_checked n (dec z) m) n = [dec z].
Proof.
  intros Hz. unfold insert_checked. rewrite header_value_visible; [by rewrite get_all_insert, decide_True|].
  pose proof (dec_digits z Hz) as Hd. apply forallb_forall. intros b Hb%list_elem_of_In.
  rewrite Forall_forall in Hd. specialize (Hd b Hb). unfold is_ascii_digit in Hd. lia.
Qed.

(** A response says what it is: Content-Type, and one grpc-status. *)
Definition grpc_marked (status : Z) (m : HeaderMap) : Prop :=
  hm_get_all m (lit "content-type") = [lit "application/grpc"] ∧ hm_get_all m (lit "grpc-status") = [dec status].

Lemma grpc_error_marked s z msg : 0 ≤ z → grpc_marked z (w_headers (grpc_error s z msg)).
Proof.
  intros Hz. unfold grpc_error, grpc_marked. cbn [w_headers].
  assert (H : ∀ m, match msg with [] => m | _ => insert_checked (lit "grpc-message") msg m end
    = m ∨ match msg with [] => m | _ => insert_checked (lit "grpc-message") msg m end = insert_checked (lit "grpc-message") msg m)
    by (intros m; destruct msg; auto).
  edestruct H as [-> | ->]; rewrite ?insert_checked_other by (by vm_compute);
    rewrite insert_checked_digits, ?insert_checked_other by (done || by vm_compute); by rewrite get_all_insert, decide_True.
Qed.

Lemma contains_key_false n m : contains_key n m = false ↔ hm_get_all m n = [].
Proof. unfold contains_key. rewrite negb_false_iff. apply bool_decide_eq_true. Qed.

Lemma insert_if_absent_get n v m :
  hm_get_all (if contains_key n m then m else hm_insert n v m) n = match hm_get_all m n with [] => [v] | l => l end.
Proof.
  destruct (contains_key n m) eqn:E.
  - destruct (hm_get_all m n) eqn:Eg; [|done]. apply contains_key_false in Eg. congruence.
  - apply contains_key_false in E. rewrite E. by rewrite get_all_insert, decide_True.
Qed.

(** The headers of the upstream are kept, and the two that gRPC needs are
    there. *)
Lemma grpc_finish_get m n :
  hm_get_all (grpc_finish m) n =
    match hm_get_all m n with
    | [] => if decide (n = lit "content-type") then [lit "application/grpc"] else if decide (n = lit "grpc-status") then [lit "0"] else []
    | l => l
    end.
Proof.
  unfold grpc_finish. set (m1 := if contains_key (lit "content-type") m then _ else _).
  assert (H1 : ∀ n, n ≠ lit "content-type" → hm_get_all m1 n = hm_get_all m n).
  { intros n' Hne. unfold m1. destruct (contains_key _ m); [done|]. by rewrite get_all_insert, decide_False. }
  assert (Hv : insert_checked (lit "grpc-status") (lit "0") m1 = hm_insert (lit "grpc-status") (lit "0") m1).
  { unfold insert_checked. by rewrite header_value_visible. }
  rewrite Hv. clear Hv. destruct (decide (n = lit "content-type")) as [->|Hc].
  - assert (Hm1 : hm_get_all m1 (lit "content-type") = match hm_get_all m (lit "content-type") with [] => [lit "application/grpc"] | l => l end)
      by apply insert_if_absent_get.
    destruct (contains_key _ m1); rewrite ?get_all_insert, ?decide_False by (by vm_compute); done.
  - destruct (decide (n = lit "grpc-status")) as [->|Hs].
    + rewrite insert_if_absent_get, H1 by done. done.
    + rewrite <- (H1 n Hc). destruct (contains_key _ m1); [|rewrite get_all_insert, decide_False by done]; by destruct (hm_get_all m1 n).
Qed.

Context {R : Type} (build : list Z → option R) (replace_all : R → list Z → list Z → list Z).

(** Every answer is a gRPC answer: it has a Content-Type and a grpc-status,
    whether it comes from an upstream or from an error of the proxy. *)
Theorem grpc_answers_marked now ip max ov text idle connect g up pools r pools' w :
  handle_grpc build replace_all now ip max ov text idle connect g up pools = Ret (GResp r, pools', w) →
  hm_get (w_headers r) (lit "content-type") ≠ None ∧ hm_get (w_headers r) (lit "grpc-status") ≠ None.
Proof.
  assert (Hm : ∀ z m, grpc_marked z m → hm_get m (lit "content-type") ≠ None ∧ hm_get m (lit "grpc-status") ≠ None).
  { intros z m [H1 H2]. unfold hm_get. by rewrite H1, H2. }
  unfold handle_grpc. destruct up as [name|]; [|intros [= <- _ _]; by eapply Hm, grpc_error_marked].
  destruct (pools !! name) as [p|]; [|intros [= <- _ _]; by eapply Hm, grpc_error_marked].
  intros ([r0 p0] & _ & H)%outcome_bind_ret. destruct (r0 ≫= _) as [[i n]|]; [|injection H as <- _ _; by eapply Hm, grpc_error_marked].
  case_test; [injection H as <- _ _; by eapply Hm, grpc_error_marked|].
  destruct (grpc_collect max [] (g_body g)) as [[body|]| |]; [|injection H as <- _ _; by eapply Hm, grpc_error_marked|injection H as <- _ _; by eapply Hm, grpc_error_marked|done].
  destruct (forward_request _ _ _ _ _ _ _ _) as [[w0 f] re]. destruct f; try done; injection H as <- _ _.
  - cbn [w_headers]. unfold hm_get. rewrite !grpc_finish_get.
    destruct (hm_get_all _ (lit "content-type")), (hm_get_all _ (lit "grpc-status")); done.
  - by eapply Hm, grpc_error_marked.
Qed.

(** A body over the limit never reaches an upstream: nothing is written, and
    no node is blamed. *)
Theorem grpc_limit_enforced now ip max ov text idle connect g up pools reply pools' w :
  0 < max → Forall (λ i, ∃ bs, i = BodyChunk bs) (g_body g) → max < Z.of_nat (length (body_data (g_body g))) →
  handle_grpc build replace_all now ip max ov text idle connect g up pools = Ret (reply, pools', w) →
  w = [] ∧ ∃ s z msg, reply = GResp (grpc_error s z msg) ∧ 400 ≤ s.
Proof.
  intros Hm Hi Hl. unfold handle_grpc. destruct up as [name|]; [|intros [= <- _ <-]; split; [done|eexists _, _, _; by split; [reflexivity|]]].
  destruct (pools !! name) as [p|]; [|intros [= <- _ <-]; split; [done|eexists _, _, _; by split; [reflexivity|]]].
  intros ([r0 p0] & _ & H)%outcome_bind_ret.
  destruct (r0 ≫= _) as [[i n]|]; [|injection H as <- _ <-; split; [done|eexists _, _, _; by split; [reflexivity|]]].
  rewrite (grpc_collect_intact max [] (g_body g)) in H by (done || cbn; lia).
  case_test; injection H as <- _ <-; (split; [done|eexists _, _, _; by split; [reflexivity|]]).
Qed.

Lemma grpc_outcome_node i f p :
  (∀ n, circuit_breaker (f n) = circuit_breaker n) → circuit_breaker <$> nodes (update_node i f p) = circuit_breaker <$> nodes p.
Proof.
  intros Hf. unfold update_node. cbn [nodes set_nodes]. apply list_eq. intros j. rewrite !list_lookup_fmap.
  destruct (decide (j = i)) as [->|Hne]; [|by rewrite list_lookup_alter_ne].
  rewrite list_lookup_alter_eq. destruct (nodes p !! i); [|done]. cbn. by rewrite Hf.
Qed.

Lemma grpc_failed_breaker n : circuit_breaker (grpc_failed_node n) = circuit_breaker n.
Proof. unfold grpc_failed_node. by case_test. Qed.
Lemma grpc_failed_active n : active_connections (grpc_failed_node n) = active_connections n.
Proof. unfold grpc_failed_node. by case_test. Qed.

(** What a handled request leaves of its group, from the state after the
    node was chosen. *)
Lemma handle_grpc_pool now ip max ov text idle connect g name p r p1 pools reply pools' w :
  pools !! name = Some p → pick now (Some ip) p = Ret (r, p1) →
  handle_grpc build replace_all now ip max ov text idle connect g (Some name) pools = Ret (reply, pools', w) →
  ∃ p', pools' = <[name := p']> pools ∧ circuit_breaker <$> nodes p' = circuit_breaker <$> nodes p1
    ∧ (Forall is_u32 (actives (nodes p1)) → reply ≠ GBlocked → actives (nodes p') = actives (nodes p1)).
Proof.
  intros Hp Hk. unfold handle_grpc. rewrite Hp, Hk. cbn [mbind outcome_bind]. intros H.
  assert (Hsame : ∃ p', <[name := p1]> pools = <[name := p']> pools ∧ circuit_breaker <$> nodes p' = circuit_breaker <$> nodes p1
    ∧ (Forall is_u32 (actives (nodes p1)) → reply ≠ GBlocked → actives (nodes p') = actives (nodes p1))) by eauto.
  destruct (r ≫= _) as [[i n]|]; [|by injection H as <- <- <-].
  case_test; [by injection H as <- <- <-|].
  destruct (grpc_collect max [] (g_body g)) as [[body|]| |]; [|by injection H as <- <- <-..].
  destruct (forward_request _ _ _ _ _ _ _ _) as [[w0 f] re].
  assert (Hgo : ∀ h, (∀ n, circuit_breaker (h n) = circuit_breaker n) → (∀ n, active_connections (h n) = active_connections n) →
    let p' := update_node i h (update_node i (active_add (-1)) (update_node i (active_add 1) p1)) in
    circuit_breaker <$> nodes p' = circuit_breaker <$> nodes p1 ∧ (Forall is_u32 (actives (nodes p1)) → actives (nodes p') = actives (nodes p1))).
  { intros h Hc Ha. cbn zeta. split; [by rewrite !grpc_outcome_node|].
    intros Hu. rewrite update_node_actives, !update_active by done. by apply bump_cancel. }
  destruct f; [| | | |done]; injection H as <- <- <-; eexists; (split; [reflexivity|]).
  - destruct (Hgo grpc_ok_node); auto.
  - destruct (Hgo grpc_ok_node); auto.
  - destruct (Hgo grpc_failed_node grpc_failed_breaker grpc_failed_active); auto.
  - split; [by rewrite grpc_outcome_node|done].
Qed.

(** A request that ends leaves the connection counters of every group as they
    were, however it ends. *)
Theorem grpc_counters_balanced now ip max ov text idle connect g name p pools reply pools' w :
  pools !! name = Some p → Forall is_u32 (actives (nodes p)) → reply ≠ GBlocked →
  handle_grpc build replace_all now ip max ov text idle connect g (Some name) pools = Ret (reply, pools', w) →
  ∃ p', pools' = <[name := p']> pools ∧ actives (nodes p') = actives (nodes p).
Proof.
  intros Hp Hu Hr H. destruct (pick now (Some ip) p) as [[r p1]|] eqn:Hk.
  - pose proof (pick_actives _ _ _ _ _ Hk) as Ha.
    destruct (handle_grpc_pool _ _ _ _ _ _ _ _ _ _ _ _ _ _ _ _ Hp Hk H) as (p' & -> & _ & Hact). exists p'. split; [done|].
    rewrite <- Ha. apply Hact; [by rewrite Ha|done].
  - unfold handle_grpc in H. by rewrite Hp, Hk in H.
Qed.

(** The circuit breaker never learns how a gRPC request ended.  Its state
    afterwards is the one the choice of the node left: a breaker that is half
    open stays so after any number of successes, and with it the node gets no
    request while others serve; failures never open a closed one. *)
Theorem grpc_probe_unreported now ip max ov text idle connect g name p i p1 n pools reply pools' w :
  pools !! name = Some p → pick now (Some ip) p = Ret (Some i, p1) →
  nodes p1 !! i = Some n →
  handle_grpc build replace_all now ip max ov text idle connect g (Some name) pools = Ret (reply, pools', w) →
  ∃ p' n', pools' !! name = Some p' ∧ nodes p' !! i = Some n' ∧ circuit_breaker n' = circuit_breaker n.
Proof.
  intros Hp Hk Hn H. destruct (handle_grpc_pool _ _ _ _ _ _ _ _ _ _ _ _ _ _ _ _ Hp Hk H) as (p' & -> & Hc & _).
  assert (Hi : circuit_breaker <$> nodes p' !! i = Some (circuit_breaker n)).
  { rewrite <- list_lookup_fmap, Hc, list_lookup_fmap, Hn. done. }
  destruct (nodes p' !! i) as [n'|] eqn:E; [|done]. injection Hi as Hi.
  exists p', n'. by rewrite lookup_insert_eq.
Qed.

(** An HTTP error of the upstream is reported to gRPC as success: a response
    without grpc-status, a 503 page for instance, is given grpc-status 0. *)
Theorem grpc_error_masked now ip max ov text idle connect g name pools p p1 i n body w0 resp store re :
  pools !! name = Some p → pick now (Some ip) p = Ret (Some i, p1) → nodes p1 !! i = Some n →
  (0 <? max) && (max <? announced_length g) = false → grpc_collect max [] (g_body g) = Done (Some body) →
  forward_request build replace_all (grpc_req g ip (grpc_host g n) (grpc_headers g ip (grpc_host g n) ov)) [] None (idle i) (connect i) [BodyChunk body]
    = (w0, FwOk resp store, re) →
  hm_get_all (w_headers resp) (lit "grpc-status") = [] →
  ∃ r pools', handle_grpc build replace_all now ip max ov text idle connect g (Some name) pools = Ret (GResp r, pools', w0)
    ∧ w_status r = w_status resp ∧ hm_get_all (w_headers r) (lit "grpc-status") = [lit "0"].
Proof.
  intros Hp Hk Hn Hlen Hb Hf Hs. unfold handle_grpc. rewrite Hp, Hk. cbn [mbind outcome_bind option_bind]. rewrite Hn.
  cbn [fmap option_fmap option_map]. rewrite Hlen, Hb, Hf. eexists _, _. split; [reflexivity|]. split; [done|].
  cbn [w_headers]. by rewrite grpc_finish_get, Hs.
Qed.

End facts.

(** ** Witnesses *)

Module GrpcWitness.
Import Headers.Model.

Definition bld (p : list Z) : option unit := None.
Definition rall (r : unit) (t s : list Z) : list Z := t.
Definition call (cl : string) (body : list body_item) : grpc_request :=
  mkGrpc (lit "POST") (lit "/svc/M") (Some (lit "h")) (lit "http")
    [(lit "content-length", Some (lit cl)); (lit "TE", Some (lit "trailers"))] body.
Definition texts (k : Z) : list Z := lit "error".
Definition conn (answer : string) : Conn :=
  mkConn HeadOk (λ _, true) (lit answer ++ CRLF ++ lit "Content-Length: 0" ++ CRLF ++ CRLF) EndOpen (λ _, 2%nat) 0.
Definition net (answer : string) (i : nat) : option Conn := Some (conn answer).
Definition refuse (i k : nat) : result Conn ProxyError := Err (ConnReset []).
Definition pools (ns : list NodeState) : gmap (list Z) UpstreamPool := {[ lit "up" := LoadBalance.Witness.pool RoundRobin 0 ns ]}.
Definition open_node : NodeState := LoadBalance.Witness.node 1 0 CB_HALF_OPEN.
Definition run (now max : Z) (answer : string) (g : grpc_request) (ns : list NodeState) :=
  handle_grpc bld rall now (lit "1.2.3.4") max [] texts (net answer) refuse g (Some (lit "up")) (pools ns).

Lemma grpc_headers_sent_witness :
  values_of (lit "content-type") (grpc_headers (call "2" []) (lit "1.2.3.4") (lit "h") []) = [lit "application/grpc"].
Proof. rewrite (grpc_headers_sent (call "2" []) (lit "1.2.3.4") (lit "h") [] (lit "content-type")); reflexivity. Defined.

Definition reply_status (r : outcome (grpc_reply * gmap (list Z) UpstreamPool * list (list Z))) : option (Z * option (list Z)) :=
  match r with Ret (GResp r, _, _) => Some (w_status r, hm_get (w_headers r) (lit "grpc-status")) | _ => None end.

Lemma grpc_answers_marked_witness :
  match run 0 0 "HTTP/1.1 200 OK" (call "2" [BodyChunk (lit "hi")]) [LoadBalance.Witness.node 1 0 CB_CLOSED] with
  | Ret (GResp r, _, _) => hm_get (w_headers r) (lit "content-type") ≠ None ∧ hm_get (w_headers r) (lit "grpc-status") ≠ None
  | _ => False
  end.
Proof.
  destruct (run _ _ _ _ _) as [[[[r|s m items|] ps] w]|] eqn:E; try (apply (f_equal reply_status) in E; vm_compute in E; discriminate E).
  exact (grpc_answers_marked bld rall _ _ _ _ _ _ _ _ _ _ r ps w E).
Defined.

Lemma grpc_limit_enforced_witness :
  match run 0 1 "HTTP/1.1 200 OK" (call "1" [BodyChunk (lit "h"); BodyChunk (lit "i")]) [LoadBalance.Witness.node 1 0 CB_CLOSED] with
  | Ret (_, _, w) => w = []
  | Panic => False
  end.
Proof.
  destruct (run _ _ _ _ _) as [[[r ps] w]|] eqn:E; [|apply (f_equal reply_status) in E; vm_compute in E; discriminate E].
  apply (grpc_limit_enforced bld rall 0 (lit "1.2.3.4") 1 [] texts (net "HTTP/1.1 200 OK") refuse
    (call "1" [BodyChunk (lit "h"); BodyChunk (lit "i")]) (Some (lit "up")) (pools [LoadBalance.Witness.node 1 0 CB_CLOSED]) r ps w);
    [done|repeat constructor; by eexists|vm_compute; reflexivity|exact E].
Defined.

Lemma grpc_counters_balanced_witness :
  match run 0 0 "HTTP/1.1 200 OK" (call "2" [BodyChunk (lit "hi")]) [LoadBalance.Witness.node 1 5 CB_CLOSED] with
  | Ret (GResp _, ps, _) => ∃ p', ps = <[lit "up" := p']> (pools [LoadBalance.Witness.node 1 5 CB_CLOSED]) ∧ actives (nodes p') = actives [LoadBalance.Witness.node 1 5 CB_CLOSED]
  | _ => False
  end.
Proof.
  destruct (run _ _ _ _ _) as [[[[r|s m items|] ps] w]|] eqn:E; try (apply (f_equal reply_status) in E; vm_compute in E; discriminate E).
  unfold run in E. eapply (grpc_counters_balanced bld rall _ _ _ _ _ _ _ _ (lit "up") (LoadBalance.Witness.pool RoundRobin 0 [LoadBalance.Witness.node 1 5 CB_CLOSED]));
    [| | |exact E]; [reflexivity|repeat constructor; done|done].
Defined.

(** The only node of a group with its breaker half open: the request succeeds,
    and the breaker stays half open. *)
Lemma grpc_probe_unreported_witness :
  reply_status (run 1000 0 "HTTP/1.1 200 OK" (call "2" [BodyChunk (lit "hi")]) [open_node]) = Some (200, Some (lit "0")) ∧
  match run 1000 0 "HTTP/1.1 200 OK" (call "2" [BodyChunk (lit "hi")]) [open_node] with
  | Ret (_, ps, _) => ∃ p' n', ps !! lit "up" = Some p' ∧ nodes p' !! 0%nat = Some n' ∧ cb_state <$> circuit_breaker n' = Some CB_HALF_OPEN
  | Panic => False
  end.
Proof.
  split; [vm_compute; reflexivity|].
  destruct (run _ _ _ _ _) as [[[r ps] w]|] eqn:E; [|apply (f_equal reply_status) in E; vm_compute in E; discriminate E].
  unfold run in E. edestruct (grpc_probe_unreported bld rall) as (p' & n' & H1 & H2 & H3); [| | |exact E|].
  - reflexivity.
  - vm_compute. reflexivity.
  - reflexivity.
  - exists p', n'. split; [exact H1|]. split; [exact H2|]. rewrite H3. reflexivity.
Defined.

Definition busy := call "2" [BodyChunk (lit "hi")].
Definition fwd :=
  forward_request bld rall (grpc_req busy (lit "1.2.3.4") (lit "h") (grpc_headers busy (lit "1.2.3.4") (lit "h") [])) [] None
    (net "HTTP/1.1 503 Busy" 0) (refuse 0) [BodyChunk (lit "hi")].
Definition fwd_resp : WebResponse := match snd (fst fwd) with FwOk r _ => r | _ => mkResp _ 0 [] hm_empty end.
Definition fwd_store := match snd (fst fwd) with FwOk _ st => st | _ => None end.

Lemma fwd_eq : fwd = (fst (fst fwd), FwOk fwd_resp fwd_store, snd fwd).
Proof.
  assert (Hok : match snd (fst fwd) with FwOk _ _ => true | _ => false end = true) by (by vm_compute).
  unfold fwd_resp, fwd_store. destruct fwd as [[w f] re]. destruct f; [done|discriminate Hok..].
Defined.
Lemma fwd_status : w_status fwd_resp = 503.
Proof. by vm_compute. Defined.
Lemma fwd_unmarked : hm_get_all (w_headers fwd_resp) (lit "grpc-status") = [].
Proof. by vm_compute. Defined.
Lemma picked : pick 0 (Some (lit "1.2.3.4")) (LoadBalance.Witness.pool RoundRobin 0 [LoadBalance.Witness.node 1 0 CB_CLOSED])
  = Ret (Some 0%nat, LoadBalance.Witness.pool RoundRobin 1 [LoadBalance.Witness.node 1 0 CB_CLOSED]).
Proof. by vm_compute. Defined.

Lemma grpc_error_masked_witness :
  ∃ r ps, run 0 0 "HTTP/1.1 503 Busy" busy [LoadBalance.Witness.node 1 0 CB_CLOSED] = Ret (GResp r, ps, fst (fst fwd))
    ∧ w_status r = 503 ∧ hm_get_all (w_headers r) (lit "grpc-status") = [lit "0"].
Proof.
  rewrite <- fwd_status.
  apply (grpc_error_masked bld rall 0 (lit "1.2.3.4") 0 [] texts (net "HTTP/1.1 503 Busy") refuse
    busy (lit "up") (pools [LoadBalance.Witness.node 1 0 CB_CLOSED]) _ _ _ _ (lit "hi") _ fwd_resp fwd_store (snd fwd) eq_refl picked eq_refl eq_refl eq_refl fwd_eq fwd_unmarked).
Defined.

End GrpcWitness.
