(* ===== verification/F64.v ===== *)
(** * Double-precision numbers

    What the rate limiter uses of [f64]: finite numbers that are not negative,
    as integer multiples of [2^-1074], with the rounding of IEEE 754 (to
    nearest, ties to even).  The results stay below [2^128] there, so overflow
    to infinity does not arise. *)

From S2P Require Import Prelude RustStr F32.

Definition f64 : Type := Z.
Definition F64_SCALE : Z := 2 ^ 1074.

(** [num / den] (in units of [2^-1074]) rounded to 53 significant bits. *)
Definition round53 (num den : Z) : f64 :=
  let k := Z.max 0 (Z.log2 (num / den) - 52) in
  round_half_even num (den * 2 ^ k) * 2 ^ k.

Definition f64_of_u64 (n : Z) : f64 := round53 (n * F64_SCALE) 1.
Definition f64_add (a b : f64) : f64 := round53 (a + b) 1.
(** Subtraction of a smaller number. *)
Definition f64_sub (a b : f64) : f64 := round53 (a - b) 1.
Definition f64_mul (a b : f64) : f64 := round53 (a * b) F64_SCALE.
Definition f64_div (a b : f64) : f64 := round53 (a * F64_SCALE) b.
Definition f64_min (a b : f64) : f64 := Z.min a b.
Definition f64_ceil (a : f64) : f64 := - ((- a) / F64_SCALE) * F64_SCALE.
(** [as u64] saturates. *)
Definition f64_to_u64 (a : f64) : Z := Z.min u64_max (a / F64_SCALE).

(** [Duration::as_secs_f64] of a number of nanoseconds. *)
Definition NANOS_PER_SEC : Z := 1000000000.
Definition as_secs_f64 (nanos : Z) : f64 :=
  f64_add (f64_of_u64 (nanos / NANOS_PER_SEC)) (f64_div (f64_of_u64 (nanos mod NANOS_PER_SEC)) (f64_of_u64 NANOS_PER_SEC)).

(** ** Rounding *)

Lemma round_half_even_bounds n d : 0 < d → n - d ≤ 2 * (round_half_even n d * d) - n ≤ n + d ∧ n / d ≤ round_half_even n d ≤ n / d + 1.
Proof.
  intros Hd. unfold round_half_even. pose proof (Z.div_mod n d ltac:(lia)). pose proof (Z.mod_pos_bound n d Hd).
  repeat case_test; zsolve; split; nia.
Qed.

Lemma round_half_even_exact m d : 0 < d → round_half_even (m * d) d = m.
Proof.
  intros Hd. unfold round_half_even. rewrite Z.div_mul, Z.mod_mul by lia. by rewrite (proj2 (Z.ltb_lt _ _)) by lia.
Qed.

Lemma round_half_even_mono n d n' d' :
  0 < d → 0 < d' → n * d' ≤ n' * d → round_half_even n d ≤ round_half_even n' d'.
Proof.
  intros Hd Hd' Hle. unfold round_half_even.
  pose proof (Z.div_mod n d ltac:(lia)). pose proof (Z.mod_pos_bound n d Hd).
  pose proof (Z.div_mod n' d' ltac:(lia)). pose proof (Z.mod_pos_bound n' d' Hd').
  set (q := n / d) in *. set (r := n mod d) in *. set (q' := n' / d') in *. set (r' := n' mod d') in *.
  assert (Hq : q ≤ q').
  { apply Z.nlt_ge. intros Hlt. assert (n * d' < n * d'); [|lia].
    apply Z.le_lt_trans with (n' * d); [done|]. apply Z.lt_le_trans with ((q' + 1) * d' * d); [apply Z.mul_lt_mono_pos_r; lia|].
    replace ((q' + 1) * d' * d) with ((q' + 1) * d * d') by lia. apply Z.mul_le_mono_nonneg_r; [lia|]. nia. }
  destruct (Z.eq_dec q q') as [E|Hne]; [|repeat case_test; lia].
  rewrite <- E in *. assert (Hr : r * d' ≤ r' * d) by nia.
  repeat case_test; zsolve; nia.
Qed.

Notation k_of n d := (Z.max 0 (Z.log2 (n / d) - 52)).

(** The numbers a double can hold. *)
Definition representable (x : Z) : Prop := ∃ m j, 0 ≤ m ≤ 2 ^ 53 ∧ 0 ≤ j ∧ x = m * 2 ^ j.

Lemma round53_mantissa n d : 0 ≤ n → 0 < d → 0 ≤ round_half_even n (d * 2 ^ k_of n d) ≤ 2 ^ 53.
Proof.
  intros Hn Hd. set (k := k_of n d). assert (Hp : 0 < 2 ^ k) by (apply Z.pow_pos_nonneg; lia).
  assert (HD : 0 < d * 2 ^ k) by lia. split.
  - rewrite <- (round_half_even_exact 0 (d * 2 ^ k)) by done. apply round_half_even_mono; nia.
  - rewrite <- (round_half_even_exact (2 ^ 53) (d * 2 ^ k)) by done. apply round_half_even_mono; [done|done|].
    apply Z.mul_le_mono_nonneg_r; [lia|].
    assert (Hq : n / d < 2 ^ (53 + k)).
    { destruct (Z.le_gt_cases (n / d) 0); [pose proof (Z.pow_pos_nonneg 2 (53 + k)); lia|].
      apply Z.log2_lt_pow2; [lia|]. lia. }
    pose proof (Z.div_mod n d ltac:(lia)). pose proof (Z.mod_pos_bound n d Hd).
    replace (2 ^ 53 * (d * 2 ^ k)) with (d * 2 ^ (53 + k)) by (rewrite Z.pow_add_r by lia; lia). nia.
Qed.

Lemma round53_lower n d : 0 ≤ n → 0 < d → 0 < k_of n d → 2 ^ (52 + k_of n d) ≤ round53 n d.
Proof.
  intros Hn Hd Hk. unfold round53. set (k := k_of n d) in *. assert (Hp : 0 < 2 ^ k) by (apply Z.pow_pos_nonneg; lia).
  rewrite Z.pow_add_r by lia. apply Z.mul_le_mono_nonneg_r; [lia|].
  rewrite <- (round_half_even_exact (2 ^ 52) (d * 2 ^ k)) by lia. apply round_half_even_mono; [lia|lia|].
  apply Z.mul_le_mono_nonneg_r; [lia|].
  assert (Hq : 2 ^ (52 + k) ≤ n / d).
  { replace (52 + k) with (Z.log2 (n / d)) by lia. apply Z.log2_spec.
    destruct (Z.le_gt_cases (n / d) 0) as [H0|H0]; [|lia]. pose proof (Z.log2_nonpos _ H0). subst k. lia. }
  pose proof (Z.div_mod n d ltac:(lia)). pose proof (Z.mod_pos_bound n d Hd).
  replace (2 ^ 52 * (d * 2 ^ k)) with (d * 2 ^ (52 + k)) by (rewrite Z.pow_add_r by lia; lia). nia.
Qed.

Lemma round53_representable n d : 0 ≤ n → 0 < d → representable (round53 n d).
Proof. intros Hn Hd. exists (round_half_even n (d * 2 ^ k_of n d)), (k_of n d). split; [by apply round53_mantissa|]. split; [lia|done]. Qed.

Lemma quotient_mono n d n' d' : 0 ≤ n → 0 < d → 0 < d' → n * d' ≤ n' * d → n / d ≤ n' / d'.
Proof.
  intros Hn Hd Hd' Hle. rewrite <- (Z.div_mul_cancel_r n d d') by lia. rewrite <- (Z.div_mul_cancel_r n' d' d) by lia.
  rewrite (Z.mul_comm d' d). apply Z.div_le_mono; nia.
Qed.

(** Rounding is monotone. *)
Lemma round53_mono n d n' d' : 0 ≤ n → 0 < d → 0 < d' → n * d' ≤ n' * d → round53 n d ≤ round53 n' d'.
Proof.
  intros Hn Hd Hd' Hle. assert (Hn' : 0 ≤ n') by nia.
  assert (Hk : k_of n d ≤ k_of n' d').
  { pose proof (Z.log2_le_mono _ _ (quotient_mono _ _ _ _ Hn Hd Hd' Hle)). lia. }
  destruct (Z.eq_dec (k_of n d) (k_of n' d')) as [E|Hne].
  - unfold round53. rewrite <- E. assert (Hp : 0 < 2 ^ k_of n d) by (apply Z.pow_pos_nonneg; lia).
    apply Z.mul_le_mono_nonneg_r; [lia|]. apply round_half_even_mono; nia.
  - apply Z.le_trans with (2 ^ (52 + k_of n' d')); [|apply round53_lower; lia].
    apply Z.le_trans with (2 ^ 53 * 2 ^ k_of n d).
    + unfold round53. apply Z.mul_le_mono_nonneg_r; [apply Z.pow_nonneg; lia|]. by apply round53_mantissa.
    + rewrite <- Z.pow_add_r by lia. apply Z.pow_le_mono_r; lia.
Qed.

(** A number that can be held is not changed. *)
Lemma round53_exact x : representable x → round53 x 1 = x.
Proof.
  intros (m & j & Hm & Hj & ->). unfold round53. rewrite Z.div_1_r. set (k := Z.max 0 (Z.log2 (m * 2 ^ j) - 52)).
  assert (Hp : 0 < 2 ^ j) by (apply Z.pow_pos_nonneg; lia).
  assert (Hdiv : ∃ a, m * 2 ^ j = a * 2 ^ k).
  { destruct (Z.eq_dec m 0) as [->|Hm0]; [by exists 0|]. destruct (Z.eq_dec m (2 ^ 53)) as [->|Hlt].
    - unfold k. rewrite <- Z.pow_add_r, Z.log2_pow2 by lia. exists (2 ^ 52). rewrite <- Z.pow_add_r by lia. f_equal. lia.
    - destruct (Z.le_gt_cases k j) as [Hkj|Hkj].
      + exists (m * 2 ^ (j - k)). rewrite <- Z.mul_assoc, <- Z.pow_add_r by lia. do 2 f_equal. lia.
      + assert (Hl : Z.log2 (m * 2 ^ j) < 53 + j).
        { apply Z.log2_lt_pow2; [nia|]. rewrite Z.pow_add_r by lia. nia. }
        lia. }
  destruct Hdiv as [a ->]. rewrite Z.mul_1_l, round_half_even_exact; [done|]. apply Z.pow_pos_nonneg; lia.
Qed.

Lemma round53_le n d x : 0 ≤ n → 0 < d → representable x → n ≤ x * d → round53 n d ≤ x.
Proof. intros Hn Hd Hx Hle. rewrite <- (round53_exact x Hx). apply round53_mono; lia. Qed.
Lemma round53_ge n d x : 0 ≤ x → 0 < d → representable x → x * d ≤ n → x ≤ round53 n d.
Proof. intros Hn Hd Hx Hle. rewrite <- (round53_exact x Hx) at 1. apply round53_mono; lia. Qed.

(** Rounding adds at most one part in [2^53]. *)
Lemma round53_upper n d :
  0 ≤ n → 0 < d → d = 1 ∨ 2 ^ 53 * d ≤ n → round53 n d * d * 2 ^ 53 ≤ n * (2 ^ 53 + 1).
Proof.
  intros Hn Hd Hbig. destruct (Z.eq_dec (k_of n d) 0) as [Hk|Hk].
  - destruct Hbig as [->|Hbig].
    + unfold round53. rewrite Hk. change (2 ^ 0) with 1. rewrite !Z.mul_1_r.
      replace (round_half_even n 1) with n; [lia|]. rewrite <- (round_half_even_exact n 1) at 1 by lia. by rewrite Z.mul_1_r.
    + exfalso. assert (2 ^ 53 ≤ n / d) by (apply Z.div_le_lower_bound; lia).
      assert (53 ≤ Z.log2 (n / d)) by (apply Z.log2_le_pow2; lia). lia.
  - assert (Hq : 2 ^ (52 + k_of n d) ≤ n / d).
    { replace (52 + k_of n d) with (Z.log2 (n / d)) by lia. apply Z.log2_spec.
      destruct (Z.le_gt_cases (n / d) 0) as [H0|H0]; [|lia]. rewrite (Z.log2_nonpos _ H0) in Hk. lia. }
    unfold round53. set (k := k_of n d) in *. assert (Hp : 0 < 2 ^ k) by (apply Z.pow_pos_nonneg; lia).
    pose proof (round_half_even_bounds n (d * 2 ^ k) ltac:(lia)) as [[_ Hu] _].
    assert (HD : d * 2 ^ k * 2 ^ 52 ≤ n).
    { rewrite Z.pow_add_r in Hq by lia. pose proof (Z.div_mod n d ltac:(lia)). pose proof (Z.mod_pos_bound n d Hd). nia. }
    replace (round_half_even n (d * 2 ^ k) * 2 ^ k * d) with (round_half_even n (d * 2 ^ k) * (d * 2 ^ k)) by lia.
    set (a := round_half_even n (d * 2 ^ k) * (d * 2 ^ k)) in *. set (D := d * 2 ^ k) in *. lia.
Qed.

(** ** Operations *)

Lemma scale_pos : 0 < F64_SCALE.
Proof. done. Qed.
Lemma scale_big : 2 ^ 100 ≤ F64_SCALE.
Proof. by apply Z.leb_le. Qed.
#[global] Opaque F64_SCALE.

Lemma representable_int n : 0 ≤ n ≤ 2 ^ 53 → representable (n * F64_SCALE).
Proof. intros Hn. exists n, 1074. done. Qed.

Lemma f64_of_u64_exact n : 0 ≤ n ≤ 2 ^ 53 → f64_of_u64 n = n * F64_SCALE.
Proof. intros Hn. by apply round53_exact, representable_int. Qed.

Lemma round53_0 d : 0 < d → round53 0 d = 0.
Proof.
  intros Hd. pose proof (round_half_even_exact 0 d Hd) as H. unfold round53. rewrite Z.div_0_l by lia.
  change (Z.max 0 (Z.log2 0 - 52)) with 0. change (2 ^ 0) with 1. by rewrite !Z.mul_1_r.
Qed.

Lemma round53_nonneg n d : 0 ≤ n → 0 < d → 0 ≤ round53 n d.
Proof. intros Hn Hd. rewrite <- (round53_0 1) by lia. apply round53_mono; lia. Qed.

(** The fraction of a second. *)
Lemma frac_upper f : 0 ≤ f < NANOS_PER_SEC →
  let x := f64_div (f64_of_u64 f) (f64_of_u64 NANOS_PER_SEC) in
  0 ≤ x ∧ x * NANOS_PER_SEC * 2 ^ 53 ≤ f * F64_SCALE * (2 ^ 53 + 1).
Proof.
  intros Hf x. unfold NANOS_PER_SEC in *. pose proof scale_pos as Hs. pose proof scale_big as Hb.
  unfold x, f64_div. rewrite !f64_of_u64_exact by lia. split; [apply round53_nonneg; nia|].
  destruct (Z.eq_dec f 0) as [->|Hf0]; [replace (0 * F64_SCALE * F64_SCALE) with 0 by lia; rewrite round53_0 by lia; lia|].
  assert (H : round53 (f * F64_SCALE * F64_SCALE) (1000000000 * F64_SCALE) * (1000000000 * F64_SCALE) * 2 ^ 53
              ≤ f * F64_SCALE * F64_SCALE * (2 ^ 53 + 1)).
  { apply round53_upper; [nia|lia|]. right. nia. }
  nia.
Qed.

(** Durations in seconds: exact up to two roundings, and at least one for a
    second or more. *)
Lemma as_secs_upper ns : 0 ≤ ns < 2 ^ 53 * NANOS_PER_SEC →
  0 ≤ as_secs_f64 ns ∧ as_secs_f64 ns * NANOS_PER_SEC * (2 ^ 53 * 2 ^ 53) ≤ ns * F64_SCALE * ((2 ^ 53 + 1) * (2 ^ 53 + 1)).
Proof.
  intros Hns. pose proof (Z.div_mod ns NANOS_PER_SEC ltac:(done)) as Hdm. pose proof (Z.mod_pos_bound ns NANOS_PER_SEC ltac:(done)) as Hm.
  set (q := ns / NANOS_PER_SEC) in *. set (r := ns mod NANOS_PER_SEC) in *.
  assert (Hq : 0 ≤ q < 2 ^ 53) by (unfold NANOS_PER_SEC in *; lia).
  unfold as_secs_f64. fold q r. destruct (frac_upper r Hm) as [Hx0 Hx].
  set (x := f64_div (f64_of_u64 r) (f64_of_u64 NANOS_PER_SEC)) in *. rewrite (f64_of_u64_exact q) by lia. pose proof scale_pos.
  unfold f64_add. split; [apply round53_nonneg; nia|].
  pose proof (round53_upper (q * F64_SCALE + x) 1 ltac:(nia) ltac:(lia) (or_introl eq_refl)) as Hu. rewrite Z.mul_1_r in Hu.
  set (y := round53 (q * F64_SCALE + x) 1) in *. unfold NANOS_PER_SEC in *.
  assert (H1 : (q * F64_SCALE + x) * 1000000000 * 2 ^ 53 ≤ ns * F64_SCALE * (2 ^ 53 + 1)) by nia. lia.
Qed.

Lemma as_secs_one ns : NANOS_PER_SEC ≤ ns < 2 ^ 53 * NANOS_PER_SEC → F64_SCALE ≤ as_secs_f64 ns.
Proof.
  intros Hns. pose proof (Z.div_mod ns NANOS_PER_SEC ltac:(done)) as Hdm. pose proof (Z.mod_pos_bound ns NANOS_PER_SEC ltac:(done)) as Hm.
  unfold as_secs_f64. destruct (frac_upper _ Hm) as [Hx0 _]. unfold NANOS_PER_SEC in *.
  rewrite (f64_of_u64_exact (ns / 1000000000)) by lia. pose proof scale_pos.
  assert (Hq : 1 * F64_SCALE ≤ ns / 1000000000 * F64_SCALE) by (apply Z.mul_le_mono_nonneg_r; lia).
  apply round53_ge; [lia|lia| |lia]. rewrite <- (Z.mul_1_l F64_SCALE). apply representable_int. lia.
Qed.

Lemma as_secs_normal ns : 1 ≤ ns < 2 ^ 53 * NANOS_PER_SEC → 2 ^ 53 ≤ as_secs_f64 ns.
Proof.
  intros Hns. pose proof (Z.div_mod ns NANOS_PER_SEC ltac:(done)) as Hdm. pose proof (Z.mod_pos_bound ns NANOS_PER_SEC ltac:(done)) as Hm.
  unfold as_secs_f64. destruct (frac_upper _ Hm) as [Hx0 _]. pose proof scale_pos. pose proof scale_big. unfold NANOS_PER_SEC in *.
  rewrite (f64_of_u64_exact (ns / 1000000000)) by lia.
  assert (Hr : representable (2 ^ 53)) by (exists (2 ^ 53), 0; lia).
  apply round53_ge; [lia|lia|done|]. destruct (Z.eq_dec (ns / 1000000000) 0) as [E|E].
  - assert (2 ^ 53 ≤ f64_div (f64_of_u64 (ns mod 1000000000)) (f64_of_u64 1000000000)); [|lia].
    unfold f64_div. rewrite !f64_of_u64_exact by lia. apply round53_ge; [lia|lia|done|]. nia.
  - nia.
Qed.

Lemma as_secs_0 : as_secs_f64 0 = 0.
Proof.
  unfold as_secs_f64, f64_add, f64_div. rewrite !f64_of_u64_exact by done.
  pose proof scale_pos. change (0 / NANOS_PER_SEC) with 0. change (0 mod NANOS_PER_SEC) with 0.
  replace (0 * F64_SCALE * F64_SCALE) with 0 by lia. rewrite (round53_0 (NANOS_PER_SEC * _)) by (unfold NANOS_PER_SEC; lia).
  by rewrite Z.mul_0_l, round53_0.
Qed.

(** Taking one from a number of at least one is exact. *)
Lemma f64_sub_one z : representable z → F64_SCALE ≤ z ≤ 2 ^ 53 * F64_SCALE →
  f64_sub z F64_SCALE = z - F64_SCALE ∧ representable (z - F64_SCALE).
Proof.
  intros (m & j & Hm & Hj & ->) Hz. enough (Hr : representable (m * 2 ^ j - F64_SCALE)) by (split; [by apply round53_exact|done]).
  assert (Hs : F64_SCALE = 2 ^ 1074) by done. destruct (Z.le_gt_cases j 1074) as [Hle|Hgt].
  - assert (E : F64_SCALE = 2 ^ (1074 - j) * 2 ^ j) by (rewrite <- Z.pow_add_r, Hs by lia; f_equal; lia).
    assert (0 < 2 ^ j) by (apply Z.pow_pos_nonneg; lia). assert (0 < 2 ^ (1074 - j)) by (apply Z.pow_pos_nonneg; lia).
    exists (m - 2 ^ (1074 - j)), j. rewrite E in *. split; [nia|]. split; [done|lia].
  - assert (E : 2 ^ j = 2 ^ (j - 1074) * F64_SCALE) by (rewrite Hs, <- Z.pow_add_r by lia; f_equal; lia).
    pose proof scale_pos. rewrite E in *. exists (m * 2 ^ (j - 1074) - 1), 1074. rewrite <- Hs. split; [nia|]. split; [done|lia].
Qed.

#[global] Opaque round53.
