(* ===== verification/RateLimit.v ===== *)
(** * Rate limits: [src/middleware/rate_limit.rs]

    Token buckets in double-precision arithmetic, the 256 shards of the table
    for client addresses, the keys of the other dimensions, and the rules of a
    site.  Times are nanoseconds; regular expressions are a parameter. *)

From S2P Require Import Prelude RustStr IpAddr F32 F64.

(** ** Token buckets *)

Record TokenBucket := mkBucket {
  tb_tokens : f64;
  tb_last_refill : Z;
  tb_rate : f64;
  tb_capacity : f64;
}.

(** [TokenBucket::new] *)
Definition bucket_new (now rate burst : Z) : TokenBucket :=
  let cap := if burst =? 0 then f64_of_u64 rate else f64_of_u64 burst in
  mkBucket cap now (f64_of_u64 rate) cap.

(** [refill]; [duration_since] is 0 for a later instant. *)
Definition refill (now : Z) (b : TokenBucket) : TokenBucket :=
  let elapsed := as_secs_f64 (sat_sub now (tb_last_refill b)) in
  mkBucket (f64_min (f64_add (tb_tokens b) (f64_mul elapsed (tb_rate b))) (tb_capacity b)) now (tb_rate b) (tb_capacity b).

(** [try_acquire_nodelay] *)
Definition try_acquire (now : Z) (nodelay : bool) (b : TokenBucket) : result unit f64 * TokenBucket :=
  let b := refill now b in
  if f64_of_u64 1 <=? tb_tokens b
  then (Ok tt, mkBucket (f64_sub (tb_tokens b) (f64_of_u64 1)) (tb_last_refill b) (tb_rate b) (tb_capacity b))
  else
    let wait := if 0 <? tb_rate b then f64_div (f64_sub (f64_of_u64 1) (tb_tokens b)) (tb_rate b) else f64_of_u64 1 in
    (Err (if nodelay then f64_ceil wait else wait), b).

(** ** Buckets by client address *)

Definition FNV_OFFSET : Z := 2166136261.
Definition FNV_PRIME : Z := 16777619.

Definition fnv (bytes : list Z) : Z := foldl (λ h b, Z.lxor (wrap32 (h * FNV_PRIME)) b) FNV_OFFSET bytes.

Definition ip_to_u32 (ip : list Z) : Z :=
  match parse_ip ip with
  | Some (V4 a) => a
  | Some (V6 a) => fnv (octets16 a)
  | None => fnv ip
  end.

Definition IP_SHARDS : nat := 256.

Notation table := (gmap Z TokenBucket).

Definition shards_new : list table := replicate IP_SHARDS ∅.

Definition shard_idx (ip_int : Z) : nat := Z.to_nat (Z.land ip_int 255).

(** The bucket of a key, made on first use. *)
Definition bucket_entry `{Countable K} (now rate burst : Z) (nodelay : bool) (k : K) (m : gmap K TokenBucket)
  : result unit f64 * gmap K TokenBucket :=
  let '(r, b) := try_acquire now nodelay (default (bucket_new now rate burst) (m !! k)) in (r, <[k := b]> m).

(** [IpBucketShards::check] *)
Definition shards_check (now : Z) (ip : list Z) (rate burst : Z) (nodelay : bool) (shards : list table)
  : outcome (result unit f64 * list table) :=
  let ip_int := ip_to_u32 ip in
  match shards !! shard_idx ip_int with
  | None => Panic
  | Some m => let '(r, m') := bucket_entry now rate burst nodelay ip_int m in Ret (r, <[shard_idx ip_int := m']> shards)
  end.

(** [retain] of the buckets used within [idle_secs]. *)
Definition retain_recent `{Countable K} (now idle_secs : Z) (m : gmap K TokenBucket) : gmap K TokenBucket :=
  filter (λ kb, sat_sub now (tb_last_refill (snd kb)) < idle_secs * NANOS_PER_SEC) m.

Definition shards_cleanup (now idle_secs : Z) (shards : list table) : list table := retain_recent now idle_secs <$> shards.

(** ** Limiters *)

Inductive RateLimitDimension := DIp | DPath | DHeader | DUserAgent | DIpPath.

Record RateLimitRule := mkRule {
  rl_dimension : RateLimitDimension;
  rl_rate : Z;
  rl_burst : Z;
  rl_nodelay : bool;
  rl_path_pattern : option (list Z);
  rl_header_name : option (list Z);
}.

Inductive RateLimitResult := Allow | Deny (retry_after_secs : Z).

Definition retry_after (wait : f64) : Z := Z.max (f64_to_u64 (f64_ceil wait)) 1.

Definition to_result (r : result unit f64) : RateLimitResult := match r with Ok _ => Allow | Err w => Deny (retry_after w) end.

Section limiter.
Context {RE : Type} (compile : list Z → option RE) (is_match : RE → list Z → bool).

Record RateLimiter := mkLimiter {
  lm_rule : RateLimitRule;
  lm_path_regex : option RE;
  lm_ip_shards : option (list table);
  lm_buckets : gmap (list Z) TokenBucket;
}.

(** [RateLimiter::new] *)
Definition limiter_new (rule : RateLimitRule) : RateLimiter :=
  mkLimiter rule (rl_path_pattern rule ≫= compile)
    (match rl_dimension rule with DIp => Some shards_new | _ => None end) ∅.

(** A request: the client, the path, the headers in the order the map gives
    them, and the user agent. *)
Record rl_request := mkRlReq {
  rq_ip : list Z;
  rq_path : list Z;
  rq_headers : list (list Z * list Z);
  rq_agent : list Z;
}.

Definition path_excluded (l : RateLimiter) (q : rl_request) : bool :=
  match lm_path_regex l with Some re => negb (is_match re (rq_path q)) | None => false end.

(** [build_key] *)
Definition build_key (l : RateLimiter) (q : rl_request) : option (list Z) :=
  match rl_dimension (lm_rule l) with
  | DIp => Some (rq_ip q)
  | DIpPath => if path_excluded l q then None else Some (rq_ip q ++ lit ":" ++ rq_path q)
  | DPath => if path_excluded l q then None else Some (lit "path:" ++ rq_path q)
  | DHeader =>
      match rl_header_name (lm_rule l) with
      | Some name => (λ kv : list Z * list Z, lit "hdr:" ++ name ++ lit ":" ++ snd kv) <$>
                       find_first (λ kv, eq_ignore_ascii_case (fst kv) name) (rq_headers q)
      | None => None
      end
  | DUserAgent => match rq_agent q with [] => None | a => Some (lit "ua:" ++ a) end
  end.

(** [check] *)
Definition limiter_check (now : Z) (q : rl_request) (l : RateLimiter) : outcome (RateLimitResult * RateLimiter) :=
  let rule := lm_rule l in
  match lm_ip_shards l with
  | Some shards =>
      '(r, shards') ← shards_check now (rq_ip q) (rl_rate rule) (rl_burst rule) (rl_nodelay rule) shards;
      Ret (to_result r, mkLimiter rule (lm_path_regex l) (Some shards') (lm_buckets l))
  | None =>
      match build_key l q with
      | None => Ret (Allow, l)
      | Some key =>
          let '(r, m) := bucket_entry now (rl_rate rule) (rl_burst rule) (rl_nodelay rule) key (lm_buckets l) in
          Ret (to_result r, mkLimiter rule (lm_path_regex l) None m)
      end
  end.

(** [cleanup_expired] *)
Definition cleanup_expired (now idle_secs : Z) (l : RateLimiter) : RateLimiter :=
  mkLimiter (lm_rule l) (lm_path_regex l) (shards_cleanup now idle_secs <$> lm_ip_shards l) (retain_recent now idle_secs (lm_buckets l)).

(** [SiteRateLimiter]: the rules in order, up to the first that denies. *)
Definition from_rules (rules : list RateLimitRule) : list RateLimiter := limiter_new <$> rules.

Fixpoint check_all (now : Z) (q : rl_request) (ls : list RateLimiter) : outcome (RateLimitResult * list RateLimiter) :=
  match ls with
  | [] => Ret (Allow, [])
  | l :: ls =>
      '(r, l') ← limiter_check now q l;
      match r with
      | Deny s => Ret (Deny s, l' :: ls)
      | Allow => '(r, ls') ← check_all now q ls; Ret (r, l' :: ls')
      end
  end.

End limiter.

(** ** The bucket over time *)

(** Requests at the given instants: how many are let through. *)
Fixpoint acquire_all (nodelay : bool) (ts : list Z) (b : TokenBucket) : Z * TokenBucket :=
  match ts with
  | [] => (0, b)
  | t :: ts =>
      let '(r, b1) := try_acquire t nodelay b in
      let '(n, b2) := acquire_all nodelay ts b1 in
      ((match r with Ok _ => 1 | Err _ => 0 end) + n, b2)
  end.

Definition capacity_of (rate burst : Z) : Z := if burst =? 0 then rate else burst.

(** Instants that do not go back, within the range of a double. *)
Fixpoint instants (t0 : Z) (ts : list Z) : Prop :=
  match ts with [] => True | t :: ts => t0 ≤ t < t0 + 2 ^ 53 * NANOS_PER_SEC ∧ instants t ts end.

Definition bucket_ok (rate cap : Z) (b : TokenBucket) : Prop :=
  tb_rate b = rate * F64_SCALE ∧ tb_capacity b = cap * F64_SCALE ∧
  representable (tb_tokens b) ∧ 0 ≤ tb_tokens b ≤ cap * F64_SCALE.

Section bucket.
Context (rate cap : Z) (Hrate : 0 ≤ rate ≤ 2 ^ 53) (Hcap : 0 ≤ cap ≤ 2 ^ 53).

Lemma one_exact : f64_of_u64 1 = F64_SCALE.
Proof. by rewrite f64_of_u64_exact, Z.mul_1_l. Qed.

Lemma refill_ok now b : bucket_ok rate cap b → tb_last_refill b ≤ now < tb_last_refill b + 2 ^ 53 * NANOS_PER_SEC → bucket_ok rate cap (refill now b).
Proof using Hrate Hcap.
  intros (Hr & Hc & Hp & Ht) Hnow. unfold refill, bucket_ok. cbn. rewrite Hr, Hc. pose proof scale_pos.
  set (el := as_secs_f64 _). assert (Hel : 0 ≤ el) by (apply as_secs_upper; unfold sat_sub; lia).
  unfold f64_min, f64_add, f64_mul. set (x := round53 (el * (rate * F64_SCALE)) F64_SCALE).
  assert (Hx : 0 ≤ x) by (apply round53_nonneg; nia).
  assert (Hs : 0 ≤ round53 (tb_tokens b + x) 1) by (apply round53_nonneg; lia).
  split_and!; [done|done| |lia|lia].
  destruct (Z.min_spec (round53 (tb_tokens b + x) 1) (cap * F64_SCALE)) as [[_ ->]|[_ ->]];
    [apply round53_representable; lia|by apply representable_int].
Qed.

Lemma try_acquire_ok now nodelay b :
  bucket_ok rate cap b → tb_last_refill b ≤ now < tb_last_refill b + 2 ^ 53 * NANOS_PER_SEC →
  bucket_ok rate cap (snd (try_acquire now nodelay b)) ∧ tb_last_refill (snd (try_acquire now nodelay b)) = now ∧
  tb_tokens (snd (try_acquire now nodelay b)) =
    tb_tokens (refill now b) - (match fst (try_acquire now nodelay b) with Ok _ => F64_SCALE | Err _ => 0 end).
Proof using Hrate Hcap.
  intros Hb Hnow. pose proof (refill_ok now b Hb Hnow) as (Hr & Hc & Hp & Ht). pose proof scale_pos.
  unfold try_acquire. rewrite one_exact. destruct (Z.leb_spec F64_SCALE (tb_tokens (refill now b))); cbn [fst snd].
  - assert (Hmax : cap * F64_SCALE ≤ 2 ^ 53 * F64_SCALE) by (apply Z.mul_le_mono_nonneg_r; lia).
    destruct (f64_sub_one (tb_tokens (refill now b)) Hp ltac:(lia)) as [-> Hp'].
    split; [|done]. split; [done|]. split; [done|]. split; [done|]. cbn [tb_tokens]. lia.
  - split; [done|]. split; [done|]. lia.
Qed.

(** One step of the account: what is taken is covered by what was there, the
    tokens of the elapsed time, and the roundings. *)
Lemma refill_upper now b :
  bucket_ok rate cap b → tb_last_refill b ≤ now < tb_last_refill b + 2 ^ 53 * NANOS_PER_SEC →
  tb_tokens (refill now b) * (NANOS_PER_SEC * 2 ^ 53)
    ≤ tb_tokens b * (NANOS_PER_SEC * 2 ^ 53)
      + rate * (now - tb_last_refill b) * F64_SCALE * (2 ^ 53 + 4) + cap * F64_SCALE * NANOS_PER_SEC.
Proof using Hrate Hcap.
  intros (Hr & Hc & Hp & Ht) Hnow. unfold refill. cbn [tb_tokens]. rewrite Hr, Hc. pose proof scale_pos as Hs. pose proof scale_big as Hbig.
  replace (sat_sub now (tb_last_refill b)) with (now - tb_last_refill b) by (unfold sat_sub; lia).
  set (dt := now - tb_last_refill b) in *. set (el := as_secs_f64 dt).
  destruct (as_secs_upper dt ltac:(lia)) as [Hel Hu]. fold el in Hel, Hu.
  unfold f64_min, f64_add, f64_mul. set (x := round53 (el * (rate * F64_SCALE)) F64_SCALE).
  assert (Hx0 : 0 ≤ x) by (apply round53_nonneg; nia).
  assert (Hx : x * 2 ^ 53 ≤ el * rate * (2 ^ 53 + 1)).
  { destruct (Z.eq_dec (el * rate) 0) as [E|E].
    - unfold x. replace (el * (rate * F64_SCALE)) with 0 by lia. rewrite round53_0 by lia. lia.
    - assert (Hn : 2 ^ 53 ≤ el).
      { apply as_secs_normal. destruct (Z.eq_dec dt 0) as [E0|]; [|lia]. unfold el in E. rewrite E0, as_secs_0 in E. lia. }
      assert (Hr1 : 1 ≤ rate) by (destruct (Z.eq_dec rate 0) as [E1|]; [rewrite E1 in E; lia|lia]).
      assert (Hn' : 2 ^ 53 * F64_SCALE ≤ el * rate * F64_SCALE) by (apply Z.mul_le_mono_nonneg_r; nia).
      pose proof (round53_upper (el * (rate * F64_SCALE)) F64_SCALE ltac:(lia) Hs ltac:(right; lia)) as H. fold x in H.
      apply (Zmult_le_reg_r _ _ F64_SCALE); [lia|]. lia. }
  assert (Hx2 : x * (NANOS_PER_SEC * 2 ^ 53) ≤ rate * dt * F64_SCALE * (2 ^ 53 + 4)).
  { assert (H1 : x * 2 ^ 53 * (NANOS_PER_SEC * (2 ^ 53 * 2 ^ 53)) ≤ rate * dt * F64_SCALE * ((2 ^ 53 + 1) * (2 ^ 53 + 1) * (2 ^ 53 + 1))).
    { etrans; [apply Z.mul_le_mono_nonneg_r; [unfold NANOS_PER_SEC; lia|exact Hx]|].
      replace (el * rate * (2 ^ 53 + 1) * (NANOS_PER_SEC * (2 ^ 53 * 2 ^ 53)))
        with (el * NANOS_PER_SEC * (2 ^ 53 * 2 ^ 53) * (rate * (2 ^ 53 + 1))) by lia.
      etrans; [apply Z.mul_le_mono_nonneg_r; [lia|exact Hu]|]. lia. }
    assert (H2 : 0 ≤ rate * dt * F64_SCALE) by nia. set (w := rate * dt * F64_SCALE) in *. unfold NANOS_PER_SEC in *. lia. }
  set (y := tb_tokens b + x) in *.
  assert (Hy : round53 y 1 * 2 ^ 53 ≤ y * (2 ^ 53 + 1)).
  { pose proof (round53_upper y 1 ltac:(lia) ltac:(lia) (or_introl eq_refl)) as H. by rewrite Z.mul_1_r in H. }
  assert (Hm : Z.min (round53 y 1) (cap * F64_SCALE) * 2 ^ 53 ≤ y * 2 ^ 53 + cap * F64_SCALE) by lia.
  unfold NANOS_PER_SEC in *. lia.
Qed.

Lemma acquire_all_upper nodelay ts b :
  bucket_ok rate cap b → instants (tb_last_refill b) ts →
  fst (acquire_all nodelay ts b) * F64_SCALE * (NANOS_PER_SEC * 2 ^ 53)
    ≤ tb_tokens b * (NANOS_PER_SEC * 2 ^ 53)
      + rate * (default (tb_last_refill b) (last ts) - tb_last_refill b) * F64_SCALE * (2 ^ 53 + 4)
      + Z.of_nat (length ts) * (cap * F64_SCALE * NANOS_PER_SEC).
Proof using Hrate Hcap.
  revert b. induction ts as [|t ts IH]; intros b Hb Hts; cbn [instants acquire_all] in *.
  { destruct Hb as (_ & _ & _ & Ht). cbn. unfold NANOS_PER_SEC. lia. }
  destruct Hts as [Ht Hts]. pose proof (try_acquire_ok t nodelay b Hb Ht) as (Hb1 & Hl1 & Htok).
  pose proof (refill_upper t b Hb Ht) as Hstep.
  destruct (try_acquire t nodelay b) as [r b1]. cbn [fst snd] in *. rewrite <- Hl1 in Hts. specialize (IH b1 Hb1 Hts). rewrite Hl1 in IH.
  destruct (acquire_all nodelay ts b1) as [n b2]. cbn [fst] in *.
  assert (Hlast : last (t :: ts) = Some (default t (last ts))) by (rewrite last_cons; by destruct (last ts)).
  rewrite Hlast. cbn [default from_option id length]. rewrite Nat2Z.inj_succ.
  set (tl := default t (last ts)) in *.
  assert (Hlin : rate * (tl - tb_last_refill b) * F64_SCALE * (2 ^ 53 + 4)
    = rate * (tl - t) * F64_SCALE * (2 ^ 53 + 4) + rate * (t - tb_last_refill b) * F64_SCALE * (2 ^ 53 + 4)) by ring.
  rewrite Hlin. rewrite Htok in IH. destruct r; unfold NANOS_PER_SEC in *; lia.
Qed.

End bucket.

Lemma bucket_new_ok now rate burst :
  0 ≤ rate ≤ 2 ^ 53 → 0 ≤ burst ≤ 2 ^ 53 → bucket_ok rate (capacity_of rate burst) (bucket_new now rate burst).
Proof.
  intros Hr Hb. unfold bucket_new, bucket_ok, capacity_of. cbn. pose proof scale_pos.
  destruct (Z.eqb_spec burst 0); rewrite !f64_of_u64_exact by lia; split_and!; try done; try (by apply representable_int); nia.
Qed.

(** C24: The rate is kept, rounding included.  However requests arrive, over a time
    of [T] nanoseconds a bucket lets through at most its capacity and [rate]
    per second, but for an excess of one part in [2^51] of the latter and of
    [capacity / 2^53] per request, which double-precision arithmetic costs. *)
Theorem rate_respected t0 rate burst nodelay ts :
  0 ≤ rate ≤ 2 ^ 53 → 0 ≤ burst ≤ 2 ^ 53 → instants t0 ts →
  fst (acquire_all nodelay ts (bucket_new t0 rate burst)) * (NANOS_PER_SEC * 2 ^ 53)
    ≤ capacity_of rate burst * (NANOS_PER_SEC * 2 ^ 53)
      + rate * (default t0 (last ts) - t0) * (2 ^ 53 + 4)
      + Z.of_nat (length ts) * (capacity_of rate burst * NANOS_PER_SEC).
Proof.
  intros Hr Hb Hts. set (cap := capacity_of rate burst).
  assert (Hc : 0 ≤ cap ≤ 2 ^ 53) by (unfold cap, capacity_of; destruct (burst =? 0); lia).
  pose proof (bucket_new_ok t0 rate burst Hr Hb) as Hok.
  pose proof (acquire_all_upper rate cap Hr Hc nodelay ts _ Hok Hts) as H.
  destruct Hok as (_ & _ & _ & Ht). fold cap in Ht. cbn [tb_last_refill bucket_new] in H. pose proof scale_pos.
  set (A := fst _) in *. set (T := rate * _) in *. set (N := Z.of_nat _) in *. unfold NANOS_PER_SEC in *.
  apply (Zmult_le_reg_r _ _ F64_SCALE); [lia|]. nia.
Qed.

Lemma refill_now b cap rate : bucket_ok rate cap b → tb_tokens (refill (tb_last_refill b) b) = tb_tokens b.
Proof.
  intros (Hr & Hc & Hp & Ht). unfold refill. cbn [tb_tokens]. unfold sat_sub. rewrite Z.sub_diag. cbn [Z.max].
  change (Z.max 0 0) with 0. rewrite as_secs_0. unfold f64_mul. rewrite Z.mul_0_l, round53_0 by apply scale_pos.
  unfold f64_add. rewrite Z.add_0_r, round53_exact by done. unfold f64_min. lia.
Qed.

(** The burst is exact: of requests that arrive at one instant to a fresh
    bucket, exactly the first [capacity] are let through. *)
Theorem burst_exact t0 rate burst nodelay n :
  0 ≤ rate ≤ 2 ^ 53 → 0 ≤ burst ≤ 2 ^ 53 →
  fst (acquire_all nodelay (replicate n t0) (bucket_new t0 rate burst)) = Z.min (Z.of_nat n) (capacity_of rate burst).
Proof.
  intros Hr Hb. set (cap := capacity_of rate burst).
  assert (Hc : 0 ≤ cap ≤ 2 ^ 53) by (unfold cap, capacity_of; destruct (burst =? 0); lia). pose proof scale_pos as Hs.
  assert (Hgen : ∀ j b, bucket_ok rate cap b → tb_last_refill b = t0 → tb_tokens b = j * F64_SCALE →
    fst (acquire_all nodelay (replicate n t0) b) = Z.min (Z.of_nat n) j).
  { induction n as [|n IH]; intros j b Hok Ht Htok; cbn [replicate acquire_all].
    { cbn. destruct Hok as (_ & _ & _ & H0). rewrite Htok in H0. nia. }
    pose proof (try_acquire_ok rate cap Hr Hc t0 nodelay b Hok ltac:(unfold NANOS_PER_SEC; lia)) as (Hok1 & Hl1 & Htok1).
    pose proof (refill_now b cap rate Hok) as Hn. rewrite Ht in Hn.
    assert (Hj : 0 ≤ j) by (destruct Hok as (_ & _ & _ & H0); rewrite Htok in H0; nia).
    assert (Hr1 : (∃ u, fst (try_acquire t0 nodelay b) = Ok u) ∧ 1 ≤ j ∨ (∃ w, fst (try_acquire t0 nodelay b) = Err w) ∧ j = 0).
    { unfold try_acquire. rewrite Hn, Htok, one_exact. destruct (Z.leb_spec F64_SCALE (j * F64_SCALE)); cbn [fst]; [left|right]; (split; [eauto|nia]). }
    destruct (try_acquire t0 nodelay b) as [r b1]. cbn [fst snd] in *. rewrite Hn, Htok in Htok1.
    destruct Hr1 as [[[u ->] Hj1]|[[w ->] ->]].
    - specialize (IH (j - 1) b1 Hok1 Hl1 ltac:(lia)). destruct (acquire_all _ _ b1). cbn [fst] in *. lia.
    - specialize (IH 0 b1 Hok1 Hl1 ltac:(lia)). destruct (acquire_all _ _ b1). cbn [fst] in *. lia. }
  apply Hgen; [by apply bucket_new_ok|done|].
  unfold bucket_new, cap, capacity_of. cbn. destruct (Z.eqb_spec burst 0); rewrite f64_of_u64_exact by lia; done.
Qed.

(** C28: A refused client is told the truth.  For a bucket in order (as [bucket_new] makes it and every
    request leaves it) with a rate and a capacity of 1 to 2^53, a request that is refused is told to come
    back after one second, and a request that finds the bucket as the refusal left it, because no other
    request used it in between, one second or more after the refusal (and less than 2^53 seconds, on a
    clock that does not go back) is let through. *)
Theorem retry_after_honest rate cap now nodelay b w b' later :
  1 ≤ rate ≤ 2 ^ 53 → 1 ≤ cap ≤ 2 ^ 53 → bucket_ok rate cap b →
  tb_last_refill b ≤ now < tb_last_refill b + 2 ^ 53 * NANOS_PER_SEC →
  try_acquire now nodelay b = (Err w, b') →
  now + retry_after w * NANOS_PER_SEC ≤ later < now + 2 ^ 53 * NANOS_PER_SEC →
  retry_after w = 1 ∧ fst (try_acquire later nodelay b') = Ok tt.
Proof.
  intros Hr Hc Hok Hnow Hacq Hlater. pose proof scale_pos as Hs. assert (H1 : representable F64_SCALE).
  { rewrite <- (Z.mul_1_l F64_SCALE). apply representable_int. lia. }
  pose proof (try_acquire_ok rate cap ltac:(lia) ltac:(lia) now nodelay b Hok Hnow) as (Hok' & Hl' & _). rewrite Hacq in Hok', Hl'. cbn [snd] in *.
  assert (Hw : retry_after w = 1).
  { revert Hacq. unfold try_acquire. rewrite one_exact. pose proof (refill_ok rate cap ltac:(lia) ltac:(lia) now b Hok Hnow) as (Hrr & _ & _ & Htt).
    set (rb := refill now b) in *. clearbody rb.
    destruct (Z.leb_spec F64_SCALE (tb_tokens rb)); [done|]. intros [= Hw <-]. rewrite Hrr in Hw.
    rewrite (proj2 (Z.ltb_lt 0 (rate * F64_SCALE))) in Hw by nia.
    set (s := f64_sub F64_SCALE (tb_tokens rb)) in *.
    assert (Hs1 : 0 ≤ s ≤ F64_SCALE) by (split; [apply round53_nonneg; lia|apply round53_le; lia || done]).
    set (x := f64_div s (rate * F64_SCALE)) in *.
    assert (Hx : 0 ≤ x ≤ F64_SCALE) by (split; [apply round53_nonneg; nia|apply round53_le; [nia|nia|done|nia]]).
    assert (Hcl : ∀ y, 0 ≤ y ≤ F64_SCALE → 0 ≤ f64_ceil y ≤ F64_SCALE ∧ f64_ceil y / F64_SCALE ≤ 1).
    { intros y Hy. unfold f64_ceil. assert (Hq : -1 ≤ (- y) / F64_SCALE ≤ 0).
      { split; [apply Z.div_le_lower_bound; lia|apply Z.div_le_upper_bound; lia]. }
      rewrite Z.div_mul by lia. split; nia. }
    assert (Hwb : 0 ≤ w ≤ F64_SCALE) by (rewrite <- Hw; destruct nodelay; [apply Hcl; done|done]).
    unfold retry_after, f64_to_u64. destruct (Hcl w Hwb) as [_ Hle]. unfold u64_max. lia. }
  split; [done|]. rewrite Hw in Hlater. unfold try_acquire. rewrite one_exact.
  assert (Ht : F64_SCALE ≤ tb_tokens (refill later b')); [|by rewrite (proj2 (Z.leb_le _ _) Ht)].
  destruct Hok' as (Hrr & Hcc & _ & Htt). unfold refill. cbn [tb_tokens]. rewrite Hrr, Hcc, Hl'.
  replace (sat_sub later now) with (later - now) by (unfold sat_sub, NANOS_PER_SEC in *; lia).
  pose proof (as_secs_one (later - now) ltac:(lia)) as Hel. set (el := as_secs_f64 (later - now)) in *.
  unfold f64_min, f64_add, f64_mul. apply Z.min_glb; [|rewrite <- (Z.mul_1_l F64_SCALE) at 1; apply Z.mul_le_mono_nonneg_r; lia].
  apply round53_ge; [lia|lia|done|]. assert (F64_SCALE ≤ round53 (el * (rate * F64_SCALE)) F64_SCALE); [|lia].
  apply round53_ge; [lia|lia|done|]. apply Z.mul_le_mono_nonneg; [lia|done|lia|].
  rewrite <- (Z.mul_1_l F64_SCALE) at 1. apply Z.mul_le_mono_nonneg_r; lia.
Qed.

(** ** The shards *)

Lemma shard_idx_lt k : (shard_idx k < IP_SHARDS)%nat.
Proof.
  unfold shard_idx, IP_SHARDS. change 255 with (Z.ones 8). rewrite Z.land_ones by lia. pose proof (Z.mod_pos_bound k (2 ^ 8)). lia.
Qed.

(** The shards hold a table: the bucket of an address is in its shard. *)
Definition shards_hold (shards : list table) (m : table) : Prop :=
  length shards = IP_SHARDS ∧ ∀ k, m !! k = shards !! shard_idx k ≫= λ s : table, s !! k.

Lemma shards_hold_lookup shards m k : shards_hold shards m → ∃ s, shards !! shard_idx k = Some s ∧ s !! k = m !! k.
Proof.
  intros [Hlen Hm]. destruct (lookup_lt_is_Some_2 shards (shard_idx k)) as [s Hs]; [rewrite Hlen; apply shard_idx_lt|].
  exists s. split; [done|]. by rewrite Hm, Hs.
Qed.

(** A run of checks on the shards, and on one table. *)
Fixpoint shards_run (rate burst : Z) (nodelay : bool) (reqs : list (Z * list Z)) (shards : list table)
  : outcome (list RateLimitResult * list table) :=
  match reqs with
  | [] => Ret ([], shards)
  | (now, ip) :: reqs =>
      '(r, s) ← shards_check now ip rate burst nodelay shards;
      '(rs, s) ← shards_run rate burst nodelay reqs s;
      Ret (to_result r :: rs, s)
  end.
Fixpoint table_run (rate burst : Z) (nodelay : bool) (reqs : list (Z * list Z)) (m : table) : list RateLimitResult * table :=
  match reqs with
  | [] => ([], m)
  | (now, ip) :: reqs =>
      let '(r, m) := bucket_entry now rate burst nodelay (ip_to_u32 ip) m in
      let '(rs, m) := table_run rate burst nodelay reqs m in (to_result r :: rs, m)
  end.

(** 256 shards are one table.  Over any sequence of requests the sharded table
    never fails, answers as one map from addresses to buckets would, and holds
    the same buckets. *)
Theorem shards_refine rate burst nodelay reqs shards m :
  shards_hold shards m →
  ∃ shards', shards_run rate burst nodelay reqs shards = Ret (fst (table_run rate burst nodelay reqs m), shards')
    ∧ shards_hold shards' (snd (table_run rate burst nodelay reqs m)).
Proof.
  revert shards m. induction reqs as [|[now ip] reqs IH]; intros shards m Hh; cbn [shards_run table_run]; [by exists shards|].
  destruct (shards_hold_lookup shards m (ip_to_u32 ip) Hh) as (s & Hs & Hk). unfold shards_check. rewrite Hs.
  unfold bucket_entry. rewrite Hk. destruct (try_acquire _ _ _) as [r b]. cbn [mbind outcome_bind].
  set (i := shard_idx (ip_to_u32 ip)) in *. destruct Hh as [Hlen Hm].
  destruct (IH (<[i := <[ip_to_u32 ip := b]> s]> shards) (<[ip_to_u32 ip := b]> m)) as (shards' & -> & Hh').
  { split; [by rewrite length_insert|]. intros k. destruct (decide (shard_idx k = i)) as [E|E].
    - rewrite E, list_lookup_insert_eq by (by eapply lookup_lt_Some). cbn. destruct (decide (k = ip_to_u32 ip)) as [->|Hne].
      + by rewrite !lookup_insert_eq.
      + rewrite !lookup_insert_ne by done. by rewrite Hm, E, Hs.
    - rewrite list_lookup_insert_ne by done. rewrite lookup_insert_ne; [by rewrite Hm|]. intros Heq. apply E. by rewrite <- Heq. }
  cbn [mbind outcome_bind]. destruct (table_run _ _ _ _ _) as [rs m']. cbn [fst snd] in *. by exists shards'.
Qed.

Lemma shards_new_hold : shards_hold shards_new ∅.
Proof.
  split; [done|]. intros k. rewrite lookup_empty. unfold shards_new. rewrite lookup_replicate_2 by apply shard_idx_lt. cbn. by rewrite lookup_empty.
Qed.

(** Requests from other addresses do not spend a client's tokens. *)
Theorem ipv4_isolated rate burst nodelay reqs m ip a :
  parse_ip ip = Some (V4 a) →
  Forall (λ '(_, ip'), ∃ a', parse_ip ip' = Some (V4 a') ∧ a' ≠ a) reqs →
  snd (table_run rate burst nodelay reqs m) !! ip_to_u32 ip = m !! ip_to_u32 ip.
Proof.
  intros Ha Hreqs. assert (Hip : ip_to_u32 ip = a) by (unfold ip_to_u32; by rewrite Ha). rewrite Hip. revert m.
  induction Hreqs as [|[now ip'] reqs (a' & Ha' & Hne) _ IH]; intros m; [done|]. cbn [table_run].
  unfold bucket_entry. assert (Hip' : ip_to_u32 ip' = a') by (unfold ip_to_u32; by rewrite Ha'). rewrite Hip'.
  destruct (try_acquire _ _ _) as [r b]. specialize (IH (<[a' := b]> m)). destruct (table_run _ _ _ _ _). cbn [snd] in *.
  by rewrite IH, lookup_insert_ne.
Qed.

(** An IPv6 client and an IPv4 client can share a bucket.  The 128-bit address
    is reduced to 32 bits that are also the number of an IPv4 address: traffic
    from one spends the tokens of the other. *)
Theorem ipv6_spends_ipv4_tokens ip6 a6 ip4 m now rate burst nodelay r m' :
  parse_ip ip6 = Some (V6 a6) → parse_ip ip4 = Some (V4 (fnv (octets16 a6))) →
  bucket_entry now rate burst nodelay (ip_to_u32 ip6) m = (r, m') →
  ∃ b, m' !! ip_to_u32 ip4 = Some b ∧ b = snd (try_acquire now nodelay (default (bucket_new now rate burst) (m !! ip_to_u32 ip4))).
Proof.
  intros H6 H4 He. assert (E : ip_to_u32 ip4 = ip_to_u32 ip6) by (unfold ip_to_u32; by rewrite H6, H4). rewrite E.
  unfold bucket_entry in He. destruct (try_acquire _ _ _) as [r0 b]. injection He as <- <-. exists b. by rewrite lookup_insert_eq.
Qed.

(** ** Limiters *)

(** Clients and paths do not share a bucket in the combined dimension: a key
    determines the address, which has no slash, and the path, which starts
    with one. *)
Theorem ip_path_key_injective ip path ip' path' :
  byte_slash ∉ ip → byte_slash ∉ ip' →
  ip ++ lit ":" ++ byte_slash :: path = ip' ++ lit ":" ++ byte_slash :: path' → ip = ip' ∧ path = path'.
Proof.
  revert ip'. induction ip as [|c ip IH]; intros [|c' ip'] H H' E.
  - cbn in E. by injection E as ->.
  - exfalso. injection E as <- E. destruct ip' as [|c'' ip'].
    + cbn in E. by injection E.
    + injection E as <- E. apply H'. set_solver.
  - exfalso. injection E as -> E. destruct ip as [|c'' ip].
    + cbn in E. by injection E.
    + injection E as -> E. apply H. set_solver.
  - injection E as <- E. destruct (IH ip') as [-> ->]; [set_solver|set_solver|done|done].
Qed.

Section limiter_facts.
Context {RE : Type} (compile : list Z → option RE) (is_match : RE → list Z → bool).

(** A request passes a site exactly when every rule, asked in turn, lets it
    through; at the first refusal the later rules are left as they were. *)
Theorem check_all_first_denial now q ls r ls' :
  check_all is_match now q ls = Ret (r, ls') →
  match r with
  | Allow => Forall2 (λ l l', limiter_check is_match now q l = Ret (Allow, l')) ls ls'
  | Deny s => ∃ k pre pre' l l',
      ls = pre ++ l :: drop (S k) ls ∧ ls' = pre' ++ l' :: drop (S k) ls ∧ length pre = k
      ∧ Forall2 (λ l l', limiter_check is_match now q l = Ret (Allow, l')) pre pre'
      ∧ limiter_check is_match now q l = Ret (Deny s, l')
  end.
Proof.
  revert r ls'. induction ls as [|l ls IH]; intros r ls'; cbn [check_all]; [intros [= <- <-]; constructor|].
  intros ([r1 l1] & H1 & H)%outcome_bind_ret. destruct r1 as [|s].
  - apply outcome_bind_ret in H as ([r2 ls2] & H2 & [= <- <-]). specialize (IH _ _ H2). destruct r2 as [|s].
    + by constructor.
    + destruct IH as (k & pre & pre' & x & x' & E & -> & Hk & Hf & Hx). exists (S k), (l :: pre), (l1 :: pre'), x, x'.
      split_and!; [cbn; by f_equal|done|cbn; by f_equal|by constructor|done].
  - injection H as <- <-. exists 0%nat, [], [], l, l1. by repeat split.
Qed.

(** Cleaning up gives tokens away: a bucket that has been idle is dropped and
    made anew at full capacity, however little would have been refilled. *)
Theorem cleanup_restores_burst (now idle rate burst : Z) (nodelay : bool) (m : gmap (list Z) TokenBucket) (k : list Z) b :
  m !! k = Some b → idle * NANOS_PER_SEC ≤ sat_sub now (tb_last_refill b) →
  fst (bucket_entry now rate burst nodelay k (retain_recent now idle m)) = fst (try_acquire now nodelay (bucket_new now rate burst)).
Proof.
  intros Hk Hidle. unfold bucket_entry. assert (Hn : retain_recent now idle m !! k = None).
  { unfold retain_recent. apply map_lookup_filter_None. right. intros b' Hb'. rewrite Hk in Hb'. injection Hb' as <-. cbn. lia. }
  rewrite Hn. cbn [default from_option]. by destruct (try_acquire _ _ _).
Qed.

(** A path pattern that does not compile widens its rule to every path. *)
Theorem bad_pattern_limits_all rule p q :
  rl_dimension rule = DPath → rl_path_pattern rule = Some p → compile p = None →
  build_key is_match (limiter_new compile rule) q = Some (lit "path:" ++ rq_path q).
Proof. intros Hd Hp Hc. unfold build_key, path_excluded. cbn. by rewrite Hd, Hp; cbn; rewrite Hc. Qed.

End limiter_facts.

(** ** Witnesses *)

Module RateWitness.

Definition sec (n : Z) : Z := n * NANOS_PER_SEC.

Lemma rate_respected_witness :
  fst (acquire_all true [sec 0; sec 0; sec 0; sec 1; sec 1] (bucket_new 0 1 2)) = 3 ∧
  3 * (NANOS_PER_SEC * 2 ^ 53) ≤ 2 * (NANOS_PER_SEC * 2 ^ 53) + 1 * (sec 1 - 0) * (2 ^ 53 + 4) + 5 * (2 * NANOS_PER_SEC).
Proof.
  assert (E : fst (acquire_all true [sec 0; sec 0; sec 0; sec 1; sec 1] (bucket_new 0 1 2)) = 3) by (by vm_compute).
  split; [exact E|]. rewrite <- E at 1.
  apply (rate_respected 0 1 2 true [sec 0; sec 0; sec 0; sec 1; sec 1]); [lia|lia|].
  repeat split; vm_compute; congruence.
Defined.

Lemma burst_exact_witness : fst (acquire_all false (replicate 7 5) (bucket_new 5 10 3)) = 3.
Proof. apply (burst_exact 5 10 3 false 7); lia. Defined.

Definition empty_bucket : TokenBucket := snd (acquire_all true [0] (bucket_new 0 1 1)).
Definition wait_of (r : result unit f64) : f64 := match r with Err w => w | Ok _ => 0 end.
Definition denied : f64 := wait_of (fst (try_acquire 0 true empty_bucket)).

Lemma empty_ok : bucket_ok 1 1 empty_bucket.
Proof.
  split; [by vm_compute|]. split; [by vm_compute|]. split; [|split; vm_compute; congruence].
  exists 0, 0. split; [lia|]. split; [lia|by vm_compute].
Defined.
Lemma empty_denied : try_acquire 0 true empty_bucket = (Err denied, empty_bucket).
Proof. by vm_compute. Defined.

Lemma retry_after_honest_witness : retry_after denied = 1 ∧ fst (try_acquire (sec 1) true empty_bucket) = Ok tt.
Proof.
  assert (E : retry_after denied = 1) by (by vm_compute).
  apply (retry_after_honest 1 1 0 true empty_bucket denied empty_bucket (sec 1)); [lia|lia|exact empty_ok| |exact empty_denied|].
  - split; vm_compute; congruence.
  - rewrite E. split; vm_compute; congruence.
Defined.

Lemma shards_refine_witness :
  ∃ shards', shards_run 1 1 true [(0, lit "1.2.3.4")] shards_new = Ret ([Allow], shards').
Proof.
  destruct (shards_refine 1 1 true [(0, lit "1.2.3.4")] shards_new ∅ shards_new_hold) as (s & H & _).
  exists s. rewrite H. by do 2 f_equal.
Defined.

Lemma ipv4_isolated_witness :
  snd (table_run 1 1 true [(0, lit "1.2.3.4"); (0, lit "1.2.3.5")] ∅) !! ip_to_u32 (lit "9.9.9.9") = None.
Proof.
  rewrite (ipv4_isolated 1 1 true [(0, lit "1.2.3.4"); (0, lit "1.2.3.5")] ∅ (lit "9.9.9.9") 151587081).
  - by vm_compute.
  - by vm_compute.
  - repeat constructor.
    + exists 16909060. split; [by vm_compute|done].
    + exists 16909061. split; [by vm_compute|done].
Defined.

(** The IPv6 loopback address shares its bucket with an IPv4 address. *)
Lemma ipv6_spends_ipv4_tokens_witness :
  ∃ b, snd (bucket_entry 0 1 1 true (ip_to_u32 (lit "::1")) ∅) !! ip_to_u32 (display_v4 (fnv (octets16 1))) = Some b ∧ tb_tokens b = 0.
Proof.
  destruct (ipv6_spends_ipv4_tokens (lit "::1") 1 (display_v4 (fnv (octets16 1))) ∅ 0 1 1 true
    (fst (bucket_entry 0 1 1 true (ip_to_u32 (lit "::1")) ∅)) (snd (bucket_entry 0 1 1 true (ip_to_u32 (lit "::1")) ∅))) as (b & H1 & H2).
  - by vm_compute.
  - by vm_compute.
  - by destruct (bucket_entry 0 1 1 true (ip_to_u32 (lit "::1")) ∅).
  - exists b. split; [exact H1|]. rewrite H2. by vm_compute.
Defined.

Lemma ip_path_key_injective_witness : lit "::1" = lit "::1" ∧ lit "a" = lit "a".
Proof.
  apply (ip_path_key_injective (lit "::1") (lit "a") (lit "::1") (lit "a"));
    [apply (bool_decide_unpack _); by vm_compute|apply (bool_decide_unpack _); by vm_compute|done].
Defined.

Definition rule (d : RateLimitDimension) (rate : Z) : RateLimitRule := mkRule d rate 0 true (Some (lit "(")) None.
Definition comp (p : list Z) : option unit := None.
Definition mat (r : unit) (s : list Z) : bool := true.
Definition q : rl_request := mkRlReq (lit "1.2.3.4") (lit "/a") [] (lit "ua").
Definition limited : outcome (RateLimitResult * list RateLimiter) := check_all mat 0 q (from_rules comp [rule DPath 1; rule DUserAgent 0; rule DPath 5]).
Definition rules_of (o : outcome (RateLimitResult * list RateLimiter)) : list (RateLimiter (RE := unit)) := match o with Ret (_, ls) => ls | Panic => [] end.
Definition limited_ls : list RateLimiter := rules_of limited.

Lemma check_all_first_denial_witness :
  ∃ l l', limiter_check mat 0 q l = Ret (Deny 1, l') ∧ l' ∈ limited_ls.
Proof.
  destruct (check_all_first_denial mat 0 q (from_rules comp [rule DPath 1; rule DUserAgent 0; rule DPath 5]) (Deny 1) limited_ls) as (k & pre & pre' & l & l' & _ & E & _ & _ & H).
  - by vm_compute.
  - exists l, l'. split; [exact H|]. rewrite E. apply elem_of_app. right. left.
Defined.

Definition spent : gmap (list Z) TokenBucket := {[ lit "k" := mkBucket 0 0 (F64_SCALE) (1000 * F64_SCALE) ]}.
Lemma cleanup_restores_burst_witness :
  fst (bucket_entry (sec 60) 1 1000 true (lit "k") (retain_recent (sec 60) 60 spent)) = fst (try_acquire (sec 60) true (bucket_new (sec 60) 1 1000)).
Proof. eapply (cleanup_restores_burst (sec 60) 60 1 1000 true spent (lit "k")); [reflexivity|vm_compute; congruence]. Defined.

Lemma bad_pattern_limits_all_witness : build_key mat (limiter_new comp (rule DPath 1)) q = Some (lit "path:/a").
Proof. apply (bad_pattern_limits_all comp mat (rule DPath 1) (lit "(")); reflexivity. Defined.

End RateWitness.
