(* ===== verification/Cli.v ===== *)
(** * The command line: [src/cmd/reload.rs] and [src/cmd/daemon.rs]

    What [sweety reload] sends to the admin interface and how it reads the
    answer, and what [sweety stop] does with the process of the PID file. *)

From S2P Require Import Prelude RustStr Http1 Headers ProxyCache LoadBalance VHost Config Tls HotReload Json AdminServer AdminConfig AdminRoutes.

(** ** [sweety reload] *)

Definition reload_url (admin_listen : list Z) : list Z := lit "http://" ++ admin_listen ++ lit "/api/config/reload".

(** [http_post]: where it connects and what it writes. *)
Definition http_post (url token : list Z) : list Z * list Z :=
  let url := default url (strip_prefix (lit "http://") url) in
  let '(host_port, path) := match find_byte byte_slash url with
                            | Some i => (take i url, drop (S i) url)
                            | None => (url, lit "api/v1/reload")
                            end in
  let path := lit "/" ++ path in
  let auth := match token with [] => [] | _ => lit "Authorization: Bearer " ++ token ++ CRLF end in
  (host_port,
   lit "POST " ++ path ++ lit " HTTP/1.0" ++ CRLF ++ lit "Host: " ++ host_port ++ CRLF ++ lit "Content-Length: 0" ++ CRLF ++ auth ++ CRLF).

(** The answer counts as success. *)
Definition http_post_ok (resp : list Z) : bool :=
  starts_with (lit "HTTP/1") resp && (contains (lit "200") resp || contains (lit "204") resp).

(** [cmd_reload]: [None] when no admin interface is configured. *)
Definition cmd_reload (admin_listen token : list Z) : option (list Z * list Z) :=
  match admin_listen with [] => None | _ => Some (http_post (reload_url admin_listen) token) end.

(** ** [sweety stop] *)

Inductive signal := SIGTERM | SIGKILL.
Inductive stop_action := Kill (pid : Z) (s : signal) | RemovePidFile.
Inductive stop_end := Stopped | Killed | NotRunning | StopError.

(** [pid as libc::pid_t] *)
Definition as_pid_t (pid : Z) : Z := if pid <? 2 ^ 31 then pid else pid - 2 ^ 32.

(** The wait for the process: after every sleep, whether it is alive and how
    many milliseconds have passed. *)
Fixpoint wait_exit (checks : list (bool * Z)) : option bool :=
  match checks with
  | [] => None
  | (alive, elapsed) :: checks => if negb alive then Some true else if 5000 <=? elapsed then Some false else wait_exit checks
  end.

(** The outcome of the first [kill]. *)
Inductive kill_result := KillOk | NoSuchProcess | KillFailed.

(** [cmd_stop]; [None] while it still waits after all [checks]. *)
Definition cmd_stop (pid_file : option (list Z)) (kill : Z → kill_result) (checks : list (bool * Z))
  : option (stop_end * list stop_action) :=
  match pid_file with
  | None => Some (StopError, [])
  | Some text =>
      match parse_uint u32_max (trim text) with
      | None => Some (StopError, [])
      | Some pid =>
          let pid_t := as_pid_t pid in
          match kill pid_t with
          | NoSuchProcess => Some (NotRunning, [Kill pid_t SIGTERM; RemovePidFile])
          | KillFailed => Some (StopError, [Kill pid_t SIGTERM])
          | KillOk =>
              match wait_exit checks with
              | None => None
              | Some true => Some (Stopped, [Kill pid_t SIGTERM; RemovePidFile])
              | Some false => Some (Killed, [Kill pid_t SIGTERM; Kill pid_t SIGKILL; RemovePidFile])
              end
          end
      end
  end.

(** ** The wait *)

Lemma wait_exit_some checks : (∃ k c, checks !! k = Some c ∧ (fst c = false ∨ 5000 ≤ snd c)) → is_Some (wait_exit checks).
Proof.
  intros (k & c & Hk & Hc). revert k Hk. induction checks as [|[alive el] checks IH]; intros k Hk; [done|]. cbn [wait_exit].
  destruct alive; [|by eexists]. cbn [negb]. destruct (Z.leb_spec 5000 el); [by eexists|].
  destruct k as [|k]; [|by apply (IH k)]. injection Hk as <-. cbn in Hc. destruct Hc; [done|lia].
Qed.

Lemma wait_exit_false checks : wait_exit checks = Some false →
  ∃ k el, checks !! k = Some (true, el) ∧ 5000 ≤ el ∧ ∀ j, (j ≤ k)%nat → fst <$> checks !! j = Some true.
Proof.
  induction checks as [|[alive el] checks IH]; cbn [wait_exit]; [done|]. destruct alive; [|done]. cbn [negb].
  destruct (Z.leb_spec 5000 el) as [Hel|Hel].
  - intros _. exists 0%nat, el. split; [done|]. split; [done|]. intros j Hj. by replace j with 0%nat by lia.
  - intros (k & e & Hk & He & Hall)%IH. exists (S k), e. split; [done|]. split; [done|]. intros [|j] Hj; [done|]. apply Hall. lia.
Qed.

(** [sweety stop] ends, and kills only what does not stop.  With a sleep of at
    least 100 ms before each check, fifty checks are enough for any process;
    SIGKILL is sent only after the process was alive at every check for five
    seconds; and whenever the process is gone the PID file is removed. *)
Theorem stop_terminates text kill checks :
  (∀ k c, checks !! k = Some c → 100 * (Z.of_nat k + 1) ≤ snd c) → (50 ≤ length checks)%nat →
  ∃ how acts, cmd_stop (Some text) kill checks = Some (how, acts)
    ∧ (how = Killed → ∃ k el, checks !! k = Some (true, el) ∧ 5000 ≤ el ∧ ∀ j, (j ≤ k)%nat → fst <$> checks !! j = Some true)
    ∧ (how ≠ StopError ↔ RemovePidFile ∈ acts).
Proof.
  intros Hclock Hlen. unfold cmd_stop. destruct (parse_uint u32_max (trim text)) as [pid|].
  - destruct (kill (as_pid_t pid)).
    + assert (Hw : is_Some (wait_exit checks)).
      { apply wait_exit_some. destruct (lookup_lt_is_Some_2 checks 49) as [c Hc]; [lia|]. exists 49%nat, c.
        split; [done|]. right. specialize (Hclock _ _ Hc). lia. }
      destruct Hw as [[] Hw]; rewrite Hw; eexists _, _; (split; [reflexivity|]); (split; [|set_solver]); [done|]. intros _. by apply wait_exit_false.
    + eexists _, _. split; [reflexivity|]. split; [done|set_solver].
    + eexists _, _. split; [reflexivity|]. split; [done|set_solver].
  - eexists _, _. split; [reflexivity|]. split; [done|set_solver].
Qed.

(** A damaged PID file can signal every process.  The number is read as an
    unsigned one and used as a signed one: one of 2^31 or more addresses a
    process group, and 4294967295 all processes the caller may signal. *)
Theorem stop_signals_group text pid kill checks how acts :
  parse_uint u32_max (trim text) = Some pid → 2 ^ 31 ≤ pid →
  cmd_stop (Some text) kill checks = Some (how, acts) →
  Kill (pid - 2 ^ 32) SIGTERM ∈ acts ∧ pid - 2 ^ 32 < 0.
Proof.
  intros Hp Hpid. unfold cmd_stop, as_pid_t. rewrite Hp. apply parse_uint_bound in Hp as Hb; [|done].
  rewrite (proj2 (Z.ltb_ge _ _)) by lia. intros H. split; [|unfold u32_max in *; lia].
  destruct (kill _); [destruct (wait_exit checks) as [[]|]; [..|done]| |]; injection H as <- <-; set_solver.
Qed.

(** ** Reloading *)

(** The answer is searched for digits, not parsed: a refusal whose text has
    200 anywhere, its Content-Length for instance, is reported as success. *)
Theorem reload_failure_reported_as_success status content_type body :
  length body = 200%nat → http_post_ok (build_response status body content_type) = true.
Proof.
  intros Hb. unfold build_response, http_post_ok. rewrite Hb. change (dec (Z.of_nat 200)) with (lit "200").
  apply andb_true_intro. split; [reflexivity|]. apply orb_true_intro. left.
  assert (Hc : ∀ a b, contains (lit "200") b = true → contains (lit "200") (a ++ b) = true).
  { intros a b Hcb. induction a as [|x a IH]; [done|]. cbn [Datatypes.app contains]. rewrite IH. apply orb_true_r. }
  do 9 apply Hc. reflexivity.
Qed.

Section reload.
Context `{L : HeaderLib} {R : Type} (build : list Z → option R) (to_lowercase : list Z → list Z)
  (canonicalize : list Z → option (list (list Z))).
Context {CK G : Type} (global_default : G).
Notation app := (AppConfig (G := G)).
Context (to_value : app → option Value) (from_value : Value → option app) (parse_value : list Z → option Value)
  (parse_config : list Z → option app) (to_toml : app → option (list Z))
  (parse_file : list Z → list Z → option app) (disk_write : list Z → write_result) (max_handlers : TlsConfig → Z)
  (values : gmap (list Z) (SiteInfo (R := R)) → list (SiteInfo (R := R))).
Context (regroup : AdminContext (R := R) (CK := CK) (G := G) → groups) (now : Z)
  (view : endpoint → ParsedRequest → AdminState (R := R) (CK := CK) (G := G) → RouteResponse) (answer : Z → reply_body → RouteResponse).

Notation server := (route build to_lowercase canonicalize global_default to_value from_value parse_value parse_config to_toml
  parse_file disk_write max_handlers values regroup now view answer).

(** The headers of the request. *)
Definition reload_headers (listen token : list Z) : list (list Z * list Z) :=
  [(lit "Host", listen); (lit "Content-Length", lit "0")]
  ++ match token with [] => [] | _ => [(lit "Authorization", lit "Bearer " ++ token)] end.

Lemma http_post_text listen token :
  byte_slash ∉ listen →
  http_post (reload_url listen) token = (listen, versioned_text (lit "HTTP/1.0") (lit "POST") (lit "/api/config/reload") (reload_headers listen token) []).
Proof.
  intros Hl. unfold http_post, reload_url. rewrite strip_prefix_app. cbn [default from_option id].
  change (lit "/api/config/reload") with (byte_slash :: lit "api/config/reload").
  assert (find_byte byte_slash (listen ++ byte_slash :: lit "api/config/reload") = Some (length listen)) as -> by (apply find_byte_Some; eauto).
  rewrite take_app_length, drop_S_length_app.
  f_equal. unfold versioned_text, head_lines, reload_headers. destruct token; unfold fmap; cbn [Datatypes.app list_fmap concat]; rewrite ?app_nil_r; repeat (rewrite <- ?app_assoc; cbn [Datatypes.app]); reflexivity.
Qed.

Lemma name_clean_bool k :
  forallb visible k && negb (existsb (λ b, b =? byte_colon) k) = true → k ≠ [] → name_clean k.
Proof.
  intros [Hv Hc]%andb_prop Hne. split; [by apply Forall_forall; intros b Hb; apply (proj1 (forallb_forall _ _) Hv), list_elem_of_In|].
  split; [done|]. intros Hin. apply negb_true_iff, not_true_iff_false in Hc. apply Hc, existsb_exists.
  exists byte_colon. split; [by apply list_elem_of_In|done].
Qed.

Lemma reload_header_plain k v :
  (∀ s, is_ascii s = true → to_lowercase s = to_ascii_lowercase s) →
  forallb visible k && negb (existsb (λ b, b =? byte_colon) k) && is_ascii k
    && negb (str_eqb (to_ascii_lowercase k) (lit "transfer-encoding")) = true →
  k ≠ [] → clean v → (length k + length v + 4 ≤ MAX_ADMIN_LINE)%nat → plain_header to_lowercase (k, v).
Proof.
  intros Hlow [[Hk Ha]%andb_prop Hne]%andb_prop Hk0 Hv Hlen. split; [by apply name_clean_bool|]. split; [done|]. split; [done|].
  cbn [fst]. rewrite Hlow by done. intros E. by rewrite E in Hne.
Qed.

Lemma admin_line_room : (2000 ≤ MAX_ADMIN_LINE)%nat.
Proof. apply Nat.leb_le. by vm_compute. Qed.

Lemma reload_headers_plain listen token :
  (∀ s, is_ascii s = true → to_lowercase s = to_ascii_lowercase s) →
  clean listen → (token = [] ∨ clean (lit "Bearer " ++ token)) → (length listen ≤ 1000)%nat → (length token ≤ 1000)%nat →
  Forall (plain_header to_lowercase) (reload_headers listen token).
Proof.
  intros Hlow Hcl Htok Hll Hlt. pose proof admin_line_room. unfold reload_headers. apply Forall_app. split; [apply Forall_cons; split; [|apply Forall_cons; split; [|constructor]]|].
  - apply reload_header_plain; [done|done|done|done|]. change (length (lit "Host")) with 4%nat. lia.
  - apply reload_header_plain; [done|done|done| |change (length (lit "Content-Length")) with 14%nat; change (length (lit "0")) with 1%nat; lia].
    split; [done|]. split; [apply (bool_decide_unpack _); by vm_compute|]. exists 48, [], 48. split_and!; [done|done|by left].
  - destruct token as [|b token]; constructor; [|constructor]. destruct Htok as [?|Htok]; [done|].
    apply reload_header_plain; [done|done|done|done|]. rewrite length_app.
    change (length (lit "Authorization")) with 13%nat. change (length (lit "Bearer ")) with 7%nat. cbn [length] in *. lia.
Qed.

Lemma reload_request_read listen token :
  (∀ s, is_ascii s = true → to_lowercase s = to_ascii_lowercase s) →
  byte_slash ∉ listen → clean listen → (token = [] ∨ clean (lit "Bearer " ++ token)) →
  (length listen ≤ 1000)%nat → (length token ≤ 1000)%nat →
  ∃ m, read_request to_lowercase (snd (http_post (reload_url listen) token)) EndOpen
       = Done (Go (mkAdminReq (lit "POST") (lit "/api/config/reload") ∅ m [])).
Proof.
  intros Hlow Hsl Hcl Htok Hll Hlt. rewrite http_post_text by done. cbn [snd].
  set (m := foldl (λ m '(k, v), <[to_lowercase k := v]> m) (∅ : gmap (list Z) (list Z)) (reload_headers listen token)).
  exists m. rewrite <- (app_nil_r (versioned_text _ _ _ _ _)).
  rewrite (read_versioned to_lowercase (lit "HTTP/1.0") (lit "POST") (lit "/api/config/reload") (reload_headers listen token) [] [] EndOpen m);
    [reflexivity|by repeat constructor|done|by repeat constructor|done|by repeat constructor|by apply (bool_decide_unpack _); vm_compute
    |by apply reload_headers_plain| | |reflexivity| |done].
  - unfold reload_headers, MAX_ADMIN_HEADERS. destruct token; cbn; lia.
  - unfold lengths, is_length, reload_headers. destruct token; cbn [Datatypes.app List.filter fst]; rewrite !Hlow by done; vm_compute; lia.
  - unfold admin_content_length, m, reload_headers. destruct token; cbn [Datatypes.app foldl]; rewrite !Hlow by done.
    + by rewrite lookup_insert_eq.
    + rewrite lookup_insert_ne by (by vm_compute). by rewrite lookup_insert_eq.
Qed.

(** The reload command never reloads.  Its request is well formed and carries
    the token, but names a path the admin interface does not have (it serves
    /config/reload): the server answers without any change, whatever its
    state and configuration. *)
Theorem cli_reload_ignored listen token err_json st :
  (∀ s, is_ascii s = true → to_lowercase s = to_ascii_lowercase s) →
  byte_slash ∉ listen → clean listen → (token = [] ∨ clean (lit "Bearer " ++ token)) →
  (length listen ≤ 1000)%nat → (length token ≤ 1000)%nat →
  route_endpoint (lit "POST") (lit "/config/reload") = EReload ∧
  ∃ out, handle_request to_lowercase err_json server token (snd (http_post (reload_url listen) token)) EndOpen st = Done (out, st).
Proof.
  intros Hlow Hsl Hcl Htok Hll Hlt. split; [reflexivity|]. unfold handle_request.
  destruct (reload_request_read listen token) as [m Hm]; [done..|]. rewrite Hm.
  cbn [mbind io_bind pr_method]. change (str_eqb (lit "POST") (lit "OPTIONS")) with false. cbv iota.
  destruct (check_token token _); [by eexists|]. unfold route at 1. cbn [pr_method pr_path].
  change (route_endpoint (lit "POST") (lit "/api/config/reload")) with ENotFound. cbv iota beta zeta. by eexists.
Qed.

End reload.

Module CliWitness.
Import Headers.Model HotReload.Witness AdminConfig.Witness AdminRoutes.Witness.

(** A process that never stops, checked every 100 ms. *)
Definition stubborn : list (bool * Z) := (λ k, (true, 100 * (Z.of_nat k + 1))) <$> seq 0 50.

Lemma stop_terminates_witness :
  ∃ how acts, cmd_stop (Some (lit "77")) (λ _, KillOk) stubborn = Some (how, acts) ∧ (how ≠ StopError ↔ RemovePidFile ∈ acts).
Proof.
  destruct (stop_terminates (lit "77") (λ _, KillOk) stubborn) as (how & acts & H1 & _ & H2).
  - intros k c Hk. apply list_lookup_fmap_Some in Hk as (j & -> & Hj). apply lookup_seq in Hj as [-> _]. cbn [snd]. lia.
  - by vm_compute.
  - by exists how, acts.
Defined.

Lemma stop_signals_group_witness :
  ∃ acts, cmd_stop (Some (lit "4294967295")) (λ _, KillOk) [(false, 100)] = Some (Stopped, acts) ∧ Kill (-1) SIGTERM ∈ acts.
Proof.
  eexists. split; [reflexivity|].
  exact (proj1 (stop_signals_group (lit "4294967295") 4294967295 (λ _, KillOk) [(false, 100)] Stopped _ eq_refl ltac:(by vm_compute) eq_refl)).
Defined.

Lemma reload_failure_reported_as_success_witness :
  http_post_ok (build_response 404 (replicate 200 120) (lit "application/json")) = true.
Proof. apply reload_failure_reported_as_success. reflexivity. Defined.

Lemma cli_reload_ignored_witness :
  ∃ out, handle_request to_ascii_lowercase (λ m, m) handler (lit "secret")
           (snd (http_post (reload_url (lit "127.0.0.1:9000")) (lit "secret"))) EndOpen state = Done (out, state).
Proof.
  refine (proj2 (cli_reload_ignored bld to_ascii_lowercase canon tt to_val from_val p_value p_config toml p_file writable handlers vals
    (λ _, []) 0 (λ _ _ _, mkRoute 200 [] []) (λ st _, mkRoute st [] []) (lit "127.0.0.1:9000") (lit "secret") (λ m, m) state _ _ _ _ _ _)).
  - done.
  - apply (bool_decide_unpack _); by vm_compute.
  - split; [done|]. split; [apply (bool_decide_unpack _); by vm_compute|]. exists 49, (lit "27.0.0.1:900"), 48. split_and!; [done|done|by right].
  - right. split; [done|]. split; [apply (bool_decide_unpack _); by vm_compute|]. exists 66, (lit "earer secre"), 116. split_and!; [done|done|by right].
  - apply Nat.leb_le. by vm_compute.
  - apply Nat.leb_le. by vm_compute.
Defined.

End CliWitness.
