(* ===== verification/Dns01.v ===== *)
(** * DNS-01 records: [src/server/dns01.rs]

    The TXT record of an ACME challenge, set and removed through Cloudflare,
    Aliyun or a script.  The network is a function [send] that answers a
    request in a state of the outside world; a request either fails or has a
    status and, when it could be read, a body. *)

From S2P Require Import Prelude RustStr Json.

(** ** Names *)

(** [trim_start_matches("*.")] *)
Fixpoint trim_wildcards (s : list Z) : list Z :=
  match s with
  | a :: b :: s' => if (a =? 42) && (b =? byte_dot) then trim_wildcards s' else s
  | _ => s
  end.

Definition acme_challenge_domain (domain : list Z) : list Z := lit "_acme-challenge." ++ trim_wildcards domain.

(** The root domain a record is looked up under: its last two labels. *)
Definition root_domain (record_name : list Z) : list Z :=
  let parts := split_byte byte_dot record_name in
  let n := length parts in
  if (2 <=? n)%nat then nth (n - 2) parts [] ++ [byte_dot] ++ nth (n - 1) parts [] else record_name.

Definition split_rr_domain (record_name : list Z) : option (list Z * list Z) :=
  match splitn_byte 2 byte_dot record_name with
  | [a; b] =>
      let parts := split_byte byte_dot record_name in
      let n := length parts in
      if (3 <=? n)%nat then Some (join [byte_dot] (take (n - 2) parts), nth (n - 2) parts [] ++ [byte_dot] ++ nth (n - 1) parts [])
      else Some (a, b)
  | _ => None
  end.

(** ** Signed queries *)

Definition unreserved (b : Z) : bool :=
  is_ascii_alphanumeric b || (b =? 45) || (b =? 95) || (b =? 46) || (b =? 126).
Definition hex_upper (d : Z) : Z := if d <? 10 then 48 + d else 55 + d.
Definition encode_byte (b : Z) : list Z := if unreserved b then [b] else [37; hex_upper (b / 16); hex_upper (b mod 16)].
Definition url_encode (s : list Z) : list Z := s ≫= encode_byte.

Notation param := (list Z * list Z)%type.

(** [sort_by_key] with the order of strings: stable. *)
Fixpoint insert_param (x : param) (l : list param) : list param :=
  match l with
  | [] => [x]
  | y :: l' => if key_lt (fst y) (fst x) then y :: insert_param x l' else x :: l
  end.
Definition sort_params (l : list param) : list param := foldr insert_param [] l.

Definition encode_param (p : param) : list Z := url_encode (fst p) ++ [61] ++ url_encode (snd p).
Definition canonical (l : list param) : list Z := join [38] (encode_param <$> l).
Definition string_to_sign (query : list Z) : list Z := lit "GET&" ++ url_encode (lit "/") ++ [38] ++ url_encode query.

Definition common_params (access_key_id timestamp nonce : list Z) : list param :=
  [(lit "Format", lit "JSON"); (lit "Version", lit "2015-01-09"); (lit "AccessKeyId", access_key_id);
   (lit "SignatureMethod", lit "HMAC-SHA1"); (lit "Timestamp", timestamp); (lit "SignatureVersion", lit "1.0");
   (lit "SignatureNonce", nonce)].

(** ** Requests *)

Record ApiReq := mkApi { a_method : list Z; a_url : list Z; a_token : option (list Z); a_body : option Value }.

(** Steps that change the world and may fail. *)
Definition api (W A : Type) : Type := W → option A * W.

#[export] Instance api_ret {W} : MRet (api W) := λ A a w, (Some a, w).
#[export] Instance api_bind {W} : MBind (api W) := λ A B f m w,
  let '(r, w) := m w in match r with Some a => f a w | None => (None, w) end.

Definition fail {W A} : api W A := λ w, (None, w).
Definition lift {W A} (o : option A) : api W A := λ w, (o, w).
(** A result that is dropped: [.ok()]. *)
Definition dropped {W A} (m : api W A) : api W unit := λ w, (Some tt, snd (m w)).

(** [Value] indexed by a name or a position: [Null] where there is nothing. *)
Definition at_key (k : list Z) (v : Value) : Value := match v with JObject m => default JNull (obj_get k m) | _ => JNull end.
Definition at_pos (i : nat) (v : Value) : Value := match v with JArray l => default JNull (l !! i) | _ => JNull end.
Definition as_str (v : Value) : option (list Z) := match v with JString s => Some s | _ => None end.
Definition as_array (v : Value) : list Value := match v with JArray l => l | _ => [] end.

Inductive DnsProviderConfig :=
| Cloudflare (api_token : list Z) (zone_id : option (list Z))
| Aliyun (access_key_id access_key_secret : list Z)
| Shell (set_script : list Z) (del_script : option (list Z)).

Section providers.
Context {W : Type} (client_ok : bool) (send : ApiReq → W → option (Z * option (list Z)) * W)
  (run_script : list Z → list (list Z) → W → option bool * W) (parse_json : list Z → option Value)
  (sign : list Z → list Z → list Z) (stamp : W → list Z * list Z).

Definition reqwest_client : api W unit := lift (if client_ok then Some tt else None).

(** A request whose answer is read as JSON. *)
Definition send_json (q : ApiReq) : api W Value :=
  r ← send q; text ← lift (snd r); lift (parse_json text).

(** *** Cloudflare *)

Definition CLOUDFLARE : list Z := lit "https://api.cloudflare.com/client/v4/zones".

Definition zone_request (api_token record_name : list Z) : ApiReq :=
  mkApi (lit "GET") (CLOUDFLARE ++ lit "?name=" ++ root_domain record_name) (Some api_token) None.
Definition list_request (api_token zone record_name : list Z) : ApiReq :=
  mkApi (lit "GET") (CLOUDFLARE ++ lit "/" ++ zone ++ lit "/dns_records?type=TXT&name=" ++ record_name) (Some api_token) None.
Definition delete_request (api_token zone id : list Z) : ApiReq :=
  mkApi (lit "DELETE") (CLOUDFLARE ++ lit "/" ++ zone ++ lit "/dns_records/" ++ id) (Some api_token) None.
Definition create_body (record_name txt_value : list Z) : Value :=
  JObject (obj_insert (lit "type") (JString (lit "TXT")) (obj_insert (lit "name") (JString record_name)
    (obj_insert (lit "content") (JString txt_value) (obj_insert (lit "ttl") (JNumber (PosInt 60)) [])))).
Definition create_request (api_token zone record_name txt_value : list Z) : ApiReq :=
  mkApi (lit "POST") (CLOUDFLARE ++ lit "/" ++ zone ++ lit "/dns_records") (Some api_token) (Some (create_body record_name txt_value)).

Definition cloudflare_get_zone_id (api_token record_name : list Z) : api W (list Z) :=
  json ← send_json (zone_request api_token record_name);
  lift (as_str (at_key (lit "id") (at_pos 0 (at_key (lit "result") json)))).

(** The loop over the records found. *)
Fixpoint delete_records (api_token zone : list Z) (records : list Value) : api W unit :=
  match records with
  | [] => mret tt
  | r :: records =>
      match as_str (at_key (lit "id") r) with
      | Some id => _ ← send (delete_request api_token zone id); delete_records api_token zone records
      | None => delete_records api_token zone records
      end
  end.

Definition cloudflare_del_txt_by_name (api_token zone record_name : list Z) : api W unit :=
  json ← send_json (list_request api_token zone record_name);
  delete_records api_token zone (as_array (at_key (lit "result") json)).

Definition cloudflare_zone (api_token : list Z) (zone_id : option (list Z)) (record_name : list Z) : api W (list Z) :=
  match zone_id with Some z => mret z | None => cloudflare_get_zone_id api_token record_name end.

Definition is_success (status : Z) : bool := (200 <=? status) && (status <? 300).

Definition cloudflare_set_txt (api_token : list Z) (zone_id : option (list Z)) (record_name txt_value : list Z) : api W unit :=
  _ ← reqwest_client;
  zone ← cloudflare_zone api_token zone_id record_name;
  _ ← dropped (cloudflare_del_txt_by_name api_token zone record_name);
  r ← send (create_request api_token zone record_name txt_value);
  if is_success (fst r) then mret tt else fail.

Definition cloudflare_del_txt (api_token : list Z) (zone_id : option (list Z)) (record_name : list Z) : api W unit :=
  _ ← reqwest_client;
  zone ← cloudflare_zone api_token zone_id record_name;
  cloudflare_del_txt_by_name api_token zone record_name.

(** *** Aliyun *)

Definition aliyun_url (access_key_id access_key_secret timestamp nonce : list Z) (params : list param) : list Z :=
  let query := canonical (sort_params (common_params access_key_id timestamp nonce ++ params)) in
  let signature := sign (access_key_secret ++ lit "&") (string_to_sign query) in
  lit "https://alidns.aliyuncs.com/?" ++ query ++ lit "&Signature=" ++ url_encode signature.

Definition aliyun_request (access_key_id access_key_secret : list Z) (params : list param) : api W (list Z) := λ w,
  let '(timestamp, nonce) := stamp w in
  (_ ← reqwest_client;
   r ← send (mkApi (lit "GET") (aliyun_url access_key_id access_key_secret timestamp nonce params) None None);
   lift (snd r)) w.

Definition find_params (domain rr : list Z) : list param :=
  [(lit "Action", lit "DescribeDomainRecords"); (lit "DomainName", domain); (lit "RRKeyWord", rr); (lit "Type", lit "TXT")].
Definition add_params (domain rr txt_value : list Z) : list param :=
  [(lit "Action", lit "AddDomainRecord"); (lit "DomainName", domain); (lit "RR", rr); (lit "Type", lit "TXT");
   (lit "Value", txt_value); (lit "TTL", lit "60")].
Definition remove_params (record_id : list Z) : list param :=
  [(lit "Action", lit "DeleteDomainRecord"); (lit "RecordId", record_id)].

Fixpoint aliyun_delete_records (access_key_id access_key_secret : list Z) (records : list Value) : api W unit :=
  match records with
  | [] => mret tt
  | r :: records =>
      match as_str (at_key (lit "RecordId") r) with
      | Some id => _ ← dropped (aliyun_request access_key_id access_key_secret (remove_params id));
                   aliyun_delete_records access_key_id access_key_secret records
      | None => aliyun_delete_records access_key_id access_key_secret records
      end
  end.

Definition aliyun_del_txt (access_key_id access_key_secret record_name : list Z) : api W unit :=
  rd ← lift (split_rr_domain record_name);
  text ← aliyun_request access_key_id access_key_secret (find_params (snd rd) (fst rd));
  json ← lift (parse_json text);
  aliyun_delete_records access_key_id access_key_secret (as_array (at_key (lit "Record") (at_key (lit "DomainRecords") json))).

Definition aliyun_set_txt (access_key_id access_key_secret record_name txt_value : list Z) : api W unit :=
  _ ← dropped (aliyun_del_txt access_key_id access_key_secret record_name);
  rd ← lift (split_rr_domain record_name);
  _ ← aliyun_request access_key_id access_key_secret (add_params (snd rd) (fst rd) txt_value);
  mret tt.

(** *** Scripts, and the choice of the provider *)

Definition shell_run (script : list Z) (args : list (list Z)) : api W unit :=
  ok ← run_script script args; if (ok : bool) then mret tt else fail.

Definition set_dns01_record (provider : DnsProviderConfig) (domain txt_value : list Z) : api W unit :=
  let name := acme_challenge_domain domain in
  match provider with
  | Cloudflare token zone => cloudflare_set_txt token zone name txt_value
  | Aliyun id secret => aliyun_set_txt id secret name txt_value
  | Shell set_script _ => shell_run set_script [name; txt_value]
  end.

Definition delete_dns01_record (provider : DnsProviderConfig) (domain : list Z) : api W unit :=
  let name := acme_challenge_domain domain in
  match provider with
  | Cloudflare token zone => cloudflare_del_txt token zone name
  | Aliyun id secret => aliyun_del_txt id secret name
  | Shell _ (Some script) => shell_run script [name]
  | Shell _ None => mret tt
  end.

End providers.

(** ** Names *)

Lemma trim_wildcards_wild d : trim_wildcards (lit "*." ++ d) = trim_wildcards d.
Proof. reflexivity. Qed.

Lemma trim_wildcards_plain d : starts_with (lit "*.") d = false → trim_wildcards d = d.
Proof.
  destruct d as [|a [|b d]]; [done|done|]. cbn [trim_wildcards]. intros H.
  destruct ((a =? 42) && (b =? byte_dot)) eqn:E; [|done]. exfalso. zbool; subst. by rewrite (starts_with_app (lit "*.") d : starts_with (lit "*.") (42 :: byte_dot :: d) = true) in H.
Qed.

Lemma join_split c s : join [c] (split_byte c s) = s.
Proof.
  unfold split_byte. induction s as [|b s IH]; [done|]. cbn [split_on].
  destruct (Z.eqb_spec b c) as [->|Hb].
  - destruct (split_on _ s) as [|p ps] eqn:E; [by destruct (split_on_nonempty (λ b, b =? c) s)|].
    change (join [c] ([] :: p :: ps)) with (c :: join [c] (p :: ps)). by rewrite IH.
  - destruct (split_on _ s) as [|p ps] eqn:E; [by destruct (split_on_nonempty (λ b, b =? c) s)|].
    transitivity (b :: join [c] (p :: ps)); [by destruct ps|by rewrite IH].
Qed.

Lemma join_snoc sep l x : l ≠ [] → join sep (l ++ [x]) = join sep l ++ sep ++ x.
Proof.
  induction l as [|y [|z l] IH]; intros Hl; [done|done|].
  change (join sep ((y :: z :: l) ++ [x])) with (y ++ sep ++ join sep ((z :: l) ++ [x])). rewrite IH by done.
  change (join sep (y :: z :: l)) with (y ++ sep ++ join sep (z :: l)). by rewrite <- !app_assoc.
Qed.

Lemma last_two (l : list (list Z)) : (2 ≤ length l)%nat →
  l = take (length l - 2) l ++ [nth (length l - 2) l []; nth (length l - 1) l []].
Proof.
  intros Hl. rewrite <- (take_drop (length l - 2) l) at 1. f_equal.
  assert (Hd : length (drop (length l - 2) l) = 2%nat) by (rewrite length_drop; lia).
  destruct (drop (length l - 2) l) as [|a [|b [|? ?]]] eqn:E; try done.
  assert (Ha : l !! (length l - 2)%nat = Some a) by (by rewrite <- (Nat.add_0_r (length l - 2)), <- lookup_drop, E).
  assert (Hb : l !! (length l - 1)%nat = Some b)
    by (replace (length l - 1)%nat with (length l - 2 + 1)%nat by lia; by rewrite <- lookup_drop, E).
  by rewrite (nth_lookup_Some _ _ _ _ Ha), (nth_lookup_Some _ _ _ _ Hb).
Qed.

(** A challenge name is divided without loss: every name with a dot, so every
    challenge name, is split into a host part and a zone that put together
    again give the name; the zone is its last two labels when it has three. *)
Theorem split_rr_domain_exact domain :
  ∃ rr zone, split_rr_domain (acme_challenge_domain domain) = Some (rr, zone)
    ∧ rr ++ [byte_dot] ++ zone = acme_challenge_domain domain
    ∧ ((3 ≤ length (split_byte byte_dot (acme_challenge_domain domain)))%nat → zone = root_domain (acme_challenge_domain domain)).
Proof.
  unfold split_rr_domain, root_domain. set (name := acme_challenge_domain domain).
  change name with (lit "_acme-challenge" ++ byte_dot :: trim_wildcards domain) at 1.
  rewrite splitn_byte_app by (apply (bool_decide_unpack _); by vm_compute). cbn [splitn_byte].
  set (parts := split_byte byte_dot name). destruct (3 <=? length parts)%nat eqn:E3.
  - apply Nat.leb_le in E3. rewrite (proj2 (Nat.leb_le 2 _)) by lia. eexists _, _. split; [reflexivity|]. split; [|done].
    transitivity (join [byte_dot] ((take (length parts - 2) parts ++ [nth (length parts - 2) parts []]) ++ [nth (length parts - 1) parts []])).
    + rewrite join_snoc by (by destruct (take _ parts)). rewrite join_snoc; [by rewrite <- !app_assoc|].
      intros Hn%(f_equal length). rewrite length_take in Hn. cbn [length] in Hn. lia.
    + rewrite <- app_assoc. cbn [Datatypes.app]. rewrite <- (last_two parts) by lia. apply join_split.
  - apply Nat.leb_gt in E3. eexists _, _. split; [reflexivity|]. split; [done|lia].
Qed.

(** ** Queries *)

(** The decoding of RFC 3986. *)
Definition unhex (c : Z) : Z := if c <? 58 then c - 48 else c - 55.
Fixpoint pct_decode (s : list Z) : list Z :=
  match s with
  | 37 :: h :: l :: s => (16 * unhex h + unhex l) :: pct_decode s
  | b :: s => b :: pct_decode s
  | [] => []
  end.

Lemma unhex_upper d : 0 ≤ d < 16 → unhex (hex_upper d) = d.
Proof. unfold unhex, hex_upper. intros H. destruct (Z.ltb_spec d 10); case_test; zbool; lia. Qed.

Lemma pct_decode_plain b s : b ≠ 37 → pct_decode (b :: s) = b :: pct_decode s.
Proof. intros Hb. cbn [pct_decode]. repeat (case_match; try done). Qed.

Lemma unreserved_ne b : unreserved b = true → b ≠ 37 ∧ b ≠ 38 ∧ b ≠ 61.
Proof.
  unfold unreserved, is_ascii_alphanumeric, is_ascii_lowercase, is_ascii_uppercase, is_ascii_digit. intros H.
  split_and!; intros ->; by vm_compute in H.
Qed.

Lemma pct_decode_encode s r : Forall is_u8 s → pct_decode (url_encode s ++ r) = s ++ pct_decode r.
Proof.
  unfold url_encode. induction 1 as [|b s Hb Hs IH]; [done|].
  change ((b :: s) ≫= encode_byte) with (encode_byte b ++ (s ≫= encode_byte)). rewrite <- app_assoc. unfold encode_byte at 1.
  destruct (unreserved b) eqn:E.
  - cbn [Datatypes.app]. rewrite pct_decode_plain by (by apply unreserved_ne). by rewrite IH.
  - cbn [Datatypes.app pct_decode]. rewrite IH. f_equal. unfold is_u8, u8_max in Hb.
    assert (0 ≤ b / 16 < 16) by (split; [apply Z.div_pos|apply Z.div_lt_upper_bound]; lia).
    assert (0 ≤ b mod 16 < 16) by (apply Z.mod_pos_bound; lia).
    rewrite !unhex_upper by done. pose proof (Z.div_mod b 16 ltac:(lia)). lia.
Qed.

Lemma hex_upper_ne d c : 0 ≤ d < 16 → c < 48 ∨ 57 < c < 65 → hex_upper d ≠ c.
Proof. unfold hex_upper. intros H Hc. case_test; zbool; lia. Qed.

Lemma url_encode_clean s c : Forall is_u8 s → c = 38 ∨ c = 61 → c ∉ url_encode s.
Proof.
  intros Hs Hc Hin. unfold url_encode in Hin. apply list_elem_of_bind in Hin as (b & Hin & Hb).
  pose proof (proj1 (Forall_forall _ _) Hs b Hb) as Hu. unfold is_u8, u8_max in Hu. unfold encode_byte in Hin.
  destruct (unreserved b) eqn:E.
  - apply list_elem_of_singleton in Hin as ->. apply unreserved_ne in E. naive_solver.
  - assert (0 ≤ b / 16 < 16) by (split; [apply Z.div_pos|apply Z.div_lt_upper_bound]; lia).
    assert (0 ≤ b mod 16 < 16) by (apply Z.mod_pos_bound; lia).
    apply elem_of_cons in Hin as [->|Hin]; [naive_solver lia|].
    apply elem_of_cons in Hin as [Hx|Hin]; [symmetry in Hx; revert Hx; apply hex_upper_ne; [done|lia]|].
    apply list_elem_of_singleton in Hin. symmetry in Hin. revert Hin. apply hex_upper_ne; [done|lia].
Qed.

(** The reading of a query, for the statements. *)
Definition decode_param (s : list Z) : param :=
  match find_byte 61 s with Some i => (pct_decode (take i s), pct_decode (drop (S i) s)) | None => (pct_decode s, []) end.
Definition decode_query (q : list Z) : list param := decode_param <$> split_byte 38 q.

Definition bytes_param (p : param) : Prop := Forall is_u8 (fst p) ∧ Forall is_u8 (snd p).

Lemma url_decode_encode s : Forall is_u8 s → pct_decode (url_encode s) = s.
Proof. intros Hs. rewrite <- (app_nil_r (url_encode s)), pct_decode_encode by done. apply app_nil_r. Qed.

Lemma decode_encode_param p : bytes_param p → decode_param (encode_param p) = p.
Proof.
  destruct p as [k v]. intros [Hk Hv]. cbn [fst snd] in *. unfold decode_param, encode_param. cbn [fst snd].
  change (url_encode k ++ [61] ++ url_encode v) with (url_encode k ++ 61 :: url_encode v).
  assert (find_byte 61 (url_encode k ++ 61 :: url_encode v) = Some (length (url_encode k))) as ->.
  { apply find_byte_Some. eexists _, _. split; [done|]. split; [|done]. apply url_encode_clean; auto. }
  by rewrite take_app_length, drop_S_length_app, !url_decode_encode.
Qed.

Lemma encode_param_no_amp p : bytes_param p → 38 ∉ encode_param p.
Proof.
  intros [Hk Hv]. unfold encode_param. rewrite !not_elem_of_app. split_and!; [by apply url_encode_clean; auto| |by apply url_encode_clean; auto].
  apply (bool_decide_unpack _); by vm_compute.
Qed.

(** What is sent is what is meant: the query decodes to the parameters. *)
Lemma decode_canonical l : l ≠ [] → Forall bytes_param l → decode_query (canonical l) = l.
Proof.
  unfold decode_query, canonical. induction l as [|p [|q l] IH]; intros Hne Hl; [done| |].
  - cbn [fmap list_fmap join]. rewrite Forall_singleton in Hl. unfold split_byte. rewrite split_on_none.
    + cbn. by rewrite decode_encode_param.
    + apply Forall_forall. intros b Hb. apply Z.eqb_neq. intros ->. by apply (encode_param_no_amp p).
  - apply Forall_cons in Hl as [Hp Hl]. specialize (IH ltac:(done) Hl).
    change (join [38] (encode_param <$> p :: q :: l)) with (encode_param p ++ 38 :: join [38] (encode_param <$> q :: l)).
    unfold split_byte in *. rewrite split_on_app_sep; [|apply Forall_forall; intros b Hb; apply Z.eqb_neq; intros ->; by apply (encode_param_no_amp p)|done].
    cbn [fmap list_fmap]. rewrite decode_encode_param by done. f_equal. exact IH.
Qed.

Lemma url_encode_bytes s : Forall is_u8 s → Forall is_u8 (url_encode s).
Proof.
  intros Hs. unfold url_encode. induction Hs as [|b s Hb Hs IH]; [constructor|].
  change ((b :: s) ≫= encode_byte) with (encode_byte b ++ (s ≫= encode_byte)). apply Forall_app. split; [|done].
  unfold encode_byte. destruct (unreserved b); [by rewrite Forall_singleton|]. unfold is_u8, u8_max in *.
  assert (0 ≤ b / 16 < 16) by (split; [apply Z.div_pos|apply Z.div_lt_upper_bound]; lia).
  assert (0 ≤ b mod 16 < 16) by (apply Z.mod_pos_bound; lia).
  assert (Hh : ∀ d, 0 ≤ d < 16 → 0 ≤ hex_upper d ≤ 255) by (intros d Hd; unfold hex_upper; case_match; lia).
  repeat (apply Forall_cons; split); [lia|by apply Hh|by apply Hh|constructor].
Qed.

Lemma canonical_bytes l : Forall bytes_param l → Forall is_u8 (canonical l).
Proof.
  unfold canonical. induction 1 as [|p l [Hk Hv] Hl IH]; [constructor|].
  assert (Hp : Forall is_u8 (encode_param p)).
  { unfold encode_param. rewrite !Forall_app, Forall_singleton. split_and!; [by apply url_encode_bytes|done|by apply url_encode_bytes]. }
  destruct l as [|q l]; [done|].
  change (join [38] (encode_param <$> p :: q :: l)) with (encode_param p ++ [38] ++ join [38] (encode_param <$> q :: l)).
  rewrite !Forall_app, Forall_singleton. by split_and!.
Qed.

Lemma insert_param_perm x l : insert_param x l ≡ₚ x :: l.
Proof. induction l as [|y l IH]; cbn [insert_param]; [done|]. case_match; [rewrite IH; constructor|done]. Qed.

Lemma sort_params_perm l : sort_params l ≡ₚ l.
Proof. induction l as [|x l IH]; cbn [sort_params foldr]; [done|]. by rewrite insert_param_perm; constructor. Qed.

Lemma common_bytes id ts nonce params : Forall is_u8 id → Forall is_u8 ts → Forall is_u8 nonce → Forall bytes_param params →
  Forall bytes_param (sort_params (common_params id ts nonce ++ params)).
Proof.
  intros Hi Ht Hn Hp. rewrite sort_params_perm. apply Forall_app. split; [|done].
  assert (Hlit : ∀ s, bool_decide (Forall is_u8 (lit s)) = true → Forall is_u8 (lit s)) by (intros s; apply bool_decide_eq_true).
  repeat (apply Forall_cons; split); [..|constructor]; split; cbn [fst snd]; try done; by apply Hlit.
Qed.

(** The signature covers the whole request: the query that is sent decodes to
    the parameters, sorted; and two requests with the same string to sign
    carry the same parameters, key, time and nonce included. *)
Theorem aliyun_signature_binds id ts nonce params id' ts' nonce' params' :
  Forall is_u8 id → Forall is_u8 ts → Forall is_u8 nonce → Forall bytes_param params →
  Forall is_u8 id' → Forall is_u8 ts' → Forall is_u8 nonce' → Forall bytes_param params' →
  let all := sort_params (common_params id ts nonce ++ params) in
  let all' := sort_params (common_params id' ts' nonce' ++ params') in
  decode_query (canonical all) = all ∧
  (string_to_sign (canonical all) = string_to_sign (canonical all') → common_params id ts nonce ++ params ≡ₚ common_params id' ts' nonce' ++ params').
Proof.
  intros Hi Ht Hn Hp Hi' Ht' Hn' Hp' all all'.
  assert (Hne : all ≠ []) by (intros E; apply (f_equal length) in E; unfold all in E; rewrite sort_params_perm in E; done).
  assert (Hne' : all' ≠ []) by (intros E; apply (f_equal length) in E; unfold all' in E; rewrite sort_params_perm in E; done).
  assert (Hb : Forall bytes_param all) by (by apply common_bytes). assert (Hb' : Forall bytes_param all') by (by apply common_bytes).
  split; [by apply decode_canonical|]. intros E. unfold string_to_sign in E. do 3 apply (inj _) in E.
  rewrite <- (sort_params_perm (common_params id ts nonce ++ params)), <- (sort_params_perm (common_params id' ts' nonce' ++ params')).
  fold all all'. rewrite <- (decode_canonical all), <- (decode_canonical all') by done.
  apply (f_equal pct_decode) in E. rewrite !url_decode_encode in E by (by apply canonical_bytes). by rewrite E.
Qed.

(** ** Cloudflare *)

Definition ids_of (json : Value) : list (list Z) := omap (λ r, as_str (at_key (lit "id") r)) (as_array (at_key (lit "result") json)).

(** What the API of Cloudflare promises about the TXT records of a zone, by
    their identifiers: the query lists the records of a name, and creating and
    deleting do what they say. *)
Class CloudflareApi {W : Type} (send : ApiReq → W → option (Z * option (list Z)) * W) (parse_json : list Z → option Value)
    (token zone : list Z) (records : W → gmap (list Z) (list Z * list Z)) : Prop := {
  cf_listing w name : ∃ text json, send (list_request token zone name) w = (Some (200, Some text), w)
    ∧ parse_json text = Some json ∧ ∀ id, id ∈ ids_of json ↔ ∃ v, records w !! id = Some (name, v);
  cf_deleting w id : ∃ r w', send (delete_request token zone id) w = (Some r, w') ∧ records w' = delete id (records w);
  cf_creating w name v : ∃ id body w', send (create_request token zone name v) w = (Some (200, body), w')
    ∧ records w !! id = None ∧ records w' = <[id := (name, v)]> (records w);
}.

Section cloudflare.
Context {W : Type} (send : ApiReq → W → option (Z * option (list Z)) * W) (run_script : list Z → list (list Z) → W → option bool * W)
  (parse_json : list Z → option Value) (sign : list Z → list Z → list Z) (stamp : W → list Z * list Z)
  (token zone : list Z) (records : W → gmap (list Z) (list Z * list Z)) `{CF : !CloudflareApi send parse_json token zone records}.

Lemma delete_records_all rs w : ∃ w', delete_records send token zone rs w = (Some tt, w')
  ∧ ∀ id, records w' !! id = if bool_decide (id ∈ omap (λ r, as_str (at_key (lit "id") r)) rs) then None else records w !! id.
Proof.
  revert w. induction rs as [|r rs IH]; intros w; cbn [delete_records omap list_omap].
  { exists w. split; [done|]. intros id. by rewrite bool_decide_eq_false_2 by (apply not_elem_of_nil). }
  destruct (as_str (at_key (lit "id") r)) as [i|]; [|apply IH].
  destruct (cf_deleting w i) as (a & w1 & Hs & Hd). destruct (IH w1) as (w' & Hr & Hl). exists w'.
  split; [by unfold mbind, api_bind; rewrite Hs|]. intros id. rewrite Hl, Hd.
  destruct (decide (i = id)) as [->|Hne].
  - rewrite lookup_delete_eq, (bool_decide_eq_true_2 (id ∈ id :: _)) by (by left). by case_bool_decide.
  - rewrite lookup_delete_ne by done. erewrite bool_decide_ext; [reflexivity|]. rewrite elem_of_cons. naive_solver.
Qed.

Lemma del_by_name_exact w name : ∃ w', cloudflare_del_txt_by_name send parse_json token zone name w = (Some tt, w')
  ∧ ∀ id n v, records w' !! id = Some (n, v) ↔ n ≠ name ∧ records w !! id = Some (n, v).
Proof.
  destruct (cf_listing w name) as (text & json & Hs & Hp & Hids).
  destruct (delete_records_all (as_array (at_key (lit "result") json)) w) as (w' & Hr & Hl). exists w'. split.
  - unfold cloudflare_del_txt_by_name, send_json, mbind, api_bind, lift. rewrite Hs. cbn [snd]. by rewrite Hp.
  - intros id n v. rewrite Hl. fold (ids_of json). case_bool_decide as Hid; rewrite Hids in Hid; naive_solver.
Qed.

(** A record is set exactly.  After [set_dns01_record] the zone has one TXT
    record of the challenge name, with the value, and every record of another
    name is as it was; so records set for a name before are gone. *)
Theorem cloudflare_set_exact domain txt w :
  ∃ id w', set_dns01_record true send run_script parse_json sign stamp (Cloudflare token (Some zone)) domain txt w = (Some tt, w')
    ∧ (∀ i v, records w' !! i = Some (acme_challenge_domain domain, v) ↔ i = id ∧ v = txt)
    ∧ ∀ i n v, n ≠ acme_challenge_domain domain → (records w' !! i = Some (n, v) ↔ records w !! i = Some (n, v)).
Proof.
  cbn [set_dns01_record]. set (name := acme_challenge_domain domain).
  destruct (del_by_name_exact w name) as (w1 & Hd & Hr). destruct (cf_creating w1 name txt) as (id & body & w' & Hs & Hnew & Hw').
  exists id, w'. split; [|split].
  - unfold cloudflare_set_txt, cloudflare_zone, dropped, mbind, api_bind, reqwest_client, lift. cbn [mret api_ret]. rewrite Hd. cbn [snd].
    by rewrite Hs.
  - intros i v. rewrite Hw'. destruct (decide (id = i)) as [->|Hne]; [rewrite lookup_insert_eq|rewrite lookup_insert_ne, Hr by done]; naive_solver.
  - intros i n v Hn. rewrite Hw'. destruct (decide (id = i)) as [->|Hne].
    + rewrite lookup_insert_eq. split; [naive_solver|]. intros H. assert (H1 : records w1 !! i = Some (n, v)) by (by apply Hr). congruence.
    + rewrite lookup_insert_ne, Hr by done. naive_solver.
Qed.

(** After [delete_dns01_record] no TXT record of the challenge name is left
    and no other record is touched. *)
Theorem cloudflare_delete_exact domain w :
  ∃ w', delete_dns01_record true send run_script parse_json sign stamp (Cloudflare token (Some zone)) domain w = (Some tt, w')
    ∧ ∀ i n v, records w' !! i = Some (n, v) ↔ n ≠ acme_challenge_domain domain ∧ records w !! i = Some (n, v).
Proof.
  destruct (del_by_name_exact w (acme_challenge_domain domain)) as (w1 & Hd & Hr). exists w1. split; [|done].
  cbn [delete_dns01_record]. unfold cloudflare_del_txt, cloudflare_zone, mbind, api_bind, reqwest_client, lift. cbn [mret api_ret]. by rewrite Hd.
Qed.

End cloudflare.

(** ** Aliyun *)

Section aliyun.
Context {W : Type} (send : ApiReq → W → option (Z * option (list Z)) * W) (run_script : list Z → list (list Z) → W → option bool * W)
  (parse_json : list Z → option Value) (sign : list Z → list Z → list Z) (stamp : W → list Z * list Z).

(** A refusal is taken for success.  The answer to [AddDomainRecord] is not
    looked at: whatever status and text the API gives, the record counts as
    set, although nothing was created. *)
Theorem aliyun_refusal_ignored id secret domain txt w :
  (∀ q w, ∃ status text w', send q w = (Some (status, Some text), w')) →
  fst (set_dns01_record true send run_script parse_json sign stamp (Aliyun id secret) domain txt w) = Some tt.
Proof.
  intros Hs. cbn [set_dns01_record]. unfold aliyun_set_txt, dropped, mbind, api_bind.
  destruct (split_rr_domain_exact domain) as (rr & z & Hrr & _).
  destruct (aliyun_del_txt _ _ _ _ _ _ _ _ w) as [r w1]. cbn [snd]. rewrite Hrr. cbn [lift].
  unfold aliyun_request, mbind, api_bind. destruct (stamp w1) as [ts nonce]. cbn [reqwest_client lift].
  match goal with |- context [send ?q w1] => destruct (Hs q w1) as (st & t & w2 & ->) end. done.
Qed.

End aliyun.

(** ** A Cloudflare zone *)

Module DnsWitness.

Definition zone_state := gmap (list Z) (list Z * list Z).
Definition token : list Z := lit "t".
Definition zone : list Z := lit "z".

Definition ids_json (ids : list (list Z)) : Value :=
  JObject [(lit "result", JArray ((λ i, JObject [(lit "id", JString i)]) <$> ids))].
Definition read_ids (text : list Z) : option Value :=
  match text with [Zpos p] => ids_json <$> decode p | _ => None end.
Definition write_ids (ids : list (list Z)) : list Z := [Zpos (encode ids)].

Definition ids_named (name : list Z) (w : zone_state) : list (list Z) :=
  fst <$> filter (λ kv, kv.2.1 = name) (map_to_list w).

Definition serve (q : ApiReq) (w : zone_state) : option (Z * option (list Z)) * zone_state :=
  match a_body q with
  | Some b =>
      match at_key (lit "name") b, at_key (lit "content") b with
      | JString n, JString v => (Some (200, None), <[fresh (dom w) := (n, v)]> w)
      | _, _ => (Some (400, None), w)
      end
  | None =>
      if str_eqb (a_method q) (lit "DELETE")
      then match strip_prefix (a_url (delete_request token zone [])) (a_url q) with
           | Some id => (Some (200, None), delete id w)
           | None => (Some (404, None), w)
           end
      else match strip_prefix (a_url (list_request token zone [])) (a_url q) with
           | Some n => (Some (200, Some (write_ids (ids_named n w))), w)
           | None => (Some (404, None), w)
           end
  end.

Lemma ids_of_json ids : ids_of (ids_json ids) = ids.
Proof. unfold ids_of, ids_json. cbn [at_key obj_get]. rewrite str_eqb_refl. cbn. induction ids as [|i ids IH]; [done|]. cbn. by f_equal. Qed.

#[export] Instance zone_cloudflare : CloudflareApi serve read_ids token zone id.
Proof.
  split.
  - intros w name. exists (write_ids (ids_named name w)), (ids_json (ids_named name w)). split_and!.
    + unfold serve, list_request. cbn [a_body a_method a_url]. change (str_eqb (lit "GET") (lit "DELETE")) with false. cbv iota.
      rewrite !app_assoc, !app_nil_r, strip_prefix_app. done.
    + unfold read_ids, write_ids. by rewrite decode_encode.
    + intros i. rewrite ids_of_json. unfold ids_named. rewrite list_elem_of_fmap. split.
      * intros ([k [n v]] & -> & [Hn Hk]%list_elem_of_filter). cbn in Hn. subst n. apply elem_of_map_to_list in Hk. by exists v.
      * intros [v Hv]. exists (i, (name, v)). split; [done|]. apply list_elem_of_filter. split; [done|]. by apply elem_of_map_to_list.
  - intros w i. eexists _, _. split; [|done]. unfold serve, delete_request. cbn [a_body a_method a_url]. rewrite str_eqb_refl.
    rewrite !app_assoc, !app_nil_r, strip_prefix_app. done.
  - intros w n v. exists (fresh (dom w)). eexists None, _. split; [reflexivity|]. split; [|done].
    apply not_elem_of_dom, is_fresh.
Qed.

Definition scripts (s : list Z) (args : list (list Z)) (w : zone_state) : option bool * zone_state := (Some true, w).
Definition no_sign (k m : list Z) : list Z := [].
Definition no_stamp (w : zone_state) : list Z * list Z := ([], []).

Lemma cloudflare_set_exact_witness :
  ∃ id' w', set_dns01_record true serve scripts read_ids no_sign no_stamp (Cloudflare token (Some zone)) (lit "a.test") (lit "v") ∅ = (Some tt, w')
    ∧ w' !! id' = Some (lit "_acme-challenge.a.test", lit "v").
Proof.
  destruct (cloudflare_set_exact serve scripts read_ids no_sign no_stamp token zone id (lit "a.test") (lit "v") ∅) as (i & w' & Hs & Hr & _).
  exists i, w'. split; [exact Hs|]. by apply Hr.
Defined.

Lemma cloudflare_delete_exact_witness :
  ∃ w', delete_dns01_record true serve scripts read_ids no_sign no_stamp (Cloudflare token (Some zone)) (lit "a.test") ∅ = (Some tt, w').
Proof.
  destruct (cloudflare_delete_exact serve scripts read_ids no_sign no_stamp token zone id (lit "a.test") ∅) as (w' & Hs & _). by exists w'.
Defined.

Lemma aliyun_signature_binds_witness :
  decode_query (canonical (sort_params (common_params (lit "id") (lit "t") (lit "n") ++ remove_params (lit "1"))))
  = sort_params (common_params (lit "id") (lit "t") (lit "n") ++ remove_params (lit "1")).
Proof.
  refine (proj1 (aliyun_signature_binds (lit "id") (lit "t") (lit "n") (remove_params (lit "1"))
    (lit "id") (lit "t") (lit "n") (remove_params (lit "1")) _ _ _ _ _ _ _ _));
    apply (bool_decide_unpack _); by vm_compute.
Defined.

(** An API that refuses everything. *)
Definition refusing (q : ApiReq) (w : unit) : option (Z * option (list Z)) * unit := (Some (403, Some []), w).

Lemma aliyun_refusal_ignored_witness :
  fst (set_dns01_record true refusing (λ _ _ w, (None, w)) (λ _, None) no_sign (λ _, ([], [])) (Aliyun [] []) (lit "a.test") [] tt) = Some tt.
Proof. apply (aliyun_refusal_ignored refusing). intros q []. by eexists _, _, _. Defined.

(** Public suffixes of two labels are taken for the zone itself. *)
Example public_suffix_zone :
  split_rr_domain (acme_challenge_domain (lit "example.co.uk")) = Some (lit "_acme-challenge.example", lit "co.uk")
  ∧ root_domain (acme_challenge_domain (lit "example.co.uk")) = lit "co.uk".
Proof. split; reflexivity. Qed.

End DnsWitness.
