(* ===== verification/AcmeOrder.v ===== *)
(** * Applying for a certificate: the order parts of [src/server/acme.rs]

    Accounts and their cache, the two ways to prove control of a name, the
    wait for an order, and the immediate renewal.  The certificate authority
    is given by its answers: the authorizations of an order, the results of
    refreshing it, and the outcome of issuing. *)

From S2P Require Import Prelude RustStr IpAddr RealIp AccessControl Headers Json ConnLimit VHost Location Config Tls Router Dns01.

(** ** The certificate authority *)

Inductive authz_status := AValid | APending | AOther.
Record challenge := mkChallenge {
  c_token : list Z;
  c_key_auth : list Z;
  c_dns_value : list Z;
  c_ready : bool;                         (* [set_ready] succeeds *)
}.
Record authz := mkAuthz {
  az_status : authz_status;
  az_domain : list Z;
  az_http01 : option challenge;
  az_dns01 : option challenge;
}.
Inductive order_status := OPending | OReady | OProcessing | OValid | OInvalid.

(** One refresh of an order: its status and whether it reports an error, with
    the milliseconds that have passed when the deadline is looked at. *)
Record refresh := mkRefresh { rf_state : option (order_status * bool); rf_elapsed : Z }.

Notation tokens := (gmap (list Z) (list Z)).

(** ** HTTP-01 *)

(** The loop over the authorizations: the tokens published, or [None] when it
    gives up; the store; and, for every challenge announced as ready, its
    token with the store at that moment. *)
Fixpoint http01_authorize (l : list (option authz)) (pushed : list (list Z)) (st : tokens)
  : option (list (list Z)) * tokens * list (list Z * tokens) :=
  match l with
  | [] => (Some pushed, st, [])
  | None :: _ => (None, st, [])
  | Some a :: l =>
      match az_status a with
      | AValid => http01_authorize l pushed st
      | AOther => (None, st, [])
      | APending =>
          match az_http01 a with
          | None => (None, st, [])
          | Some c =>
              match c_token c with
              | [] => http01_authorize l pushed st
              | _ =>
                  let st := <[c_token c := c_key_auth c]> st in
                  if c_ready c then
                    let '(r, st', told) := http01_authorize l (pushed ++ [c_token c]) st in
                    (r, st', (c_token c, st) :: told)
                  else (None, st, [(c_token c, st)])
              end
          end
      end
  end.

(** How the wait for the order ends: [PollFailed true] when the tokens were
    removed before the error is returned. *)
Inductive poll_end := PollReady | PollFailed (cleaned : bool).

Definition POLL_TIMEOUT : Z := 300000.
Definition FIRST_DELAY : Z := 3000.
(** [min(poll_delay.mul_f32(1.5), 10 s)], in milliseconds: exact on the delays
    that occur, 3, 4.5, 6.75 and 10 seconds. *)
Definition next_delay (delay : Z) : Z := Z.min (delay * 3 / 2) 10000.

(** [None] while it still waits after all [answers]; a delay is slept before
    every refresh. *)
Fixpoint poll_order (answers : list refresh) (delay : Z) : option poll_end :=
  match answers with
  | [] => None
  | a :: answers =>
      match rf_state a with
      | None => Some (PollFailed false)
      | Some (_, true) => Some (PollFailed true)
      | Some (OReady, _) | Some (OValid, _) => Some PollReady
      | Some (OInvalid, _) => Some (PollFailed true)
      | Some (_, _) => if POLL_TIMEOUT <? rf_elapsed a then Some (PollFailed true) else poll_order answers (next_delay delay)
      end
  end.

Definition remove_tokens (ts : list (list Z)) (st : tokens) : tokens := foldl (λ st t, delete t st) st ts.

(** ** Accounts *)

Section account.
Context {W A : Type} (client_send : ApiReq → W → option (Z * option (list Z)) * W) (parse_json : list Z → option Value)
  (decode_url decode_std : list Z → option (list Z))
  (restore : list Z → option A) (create : list Z → list Z → option (list Z * list Z) → W → option (A * list Z) * W).

Notation files := (gmap (list Z) (list Z)).

Definition eab_url (provider : list Z) : list Z :=
  if str_eqb provider (lit "zerossl") then lit "https://api.zerossl.com/acme/eab-credentials-email"
  else lit "https://www.bt.cn/api/v3/litessl/eab".

(** The credentials of an external account: a key identifier and a key. *)
Definition read_eab (kid hmac : Value) : option (list Z * list Z) :=
  k ← as_str kid; h ← as_str hmac;
  key ← match decode_url h with Some b => Some b | None => decode_std h end;
  Some (k, key).

Definition fetch_eab (provider email : list Z) : api W (option (list Z * list Z)) :=
  let ask := mkApi (lit "POST") (eab_url provider) None (Some (JObject [(lit "email", JString email)])) in
  if str_eqb provider (lit "zerossl") then
    v ← send_json client_send parse_json ask;
    lift (Some <$> read_eab (at_key (lit "eab_kid") v) (at_key (lit "eab_hmac_key") v))
  else if str_eqb provider (lit "litessl") then
    v ← send_json client_send parse_json ask;
    let d := at_key (lit "data") (at_key (lit "res") v) in
    lift (Some <$> read_eab (at_key (lit "eab_kid") d) (at_key (lit "eab_mac_key") d))
  else mret None.

Definition replace_byte (c d : Z) (s : list Z) : list Z := (λ b, if b =? c then d else b) <$> s.
Definition byte_underscore : Z := 95.

(** The file of the credentials. *)
Definition creds_path (cache_dir provider email : list Z) : list Z :=
  cache_dir ++ [byte_slash]
  ++ replace_byte byte_colon byte_underscore (replace_byte byte_slash byte_underscore provider) ++ lit "_"
  ++ replace_byte byte_dot byte_underscore (replace_byte 64 byte_underscore email) ++ lit ".json".

(** [load_or_create_account]; [dir_ok] and [write_ok] tell whether the cache
    directory can be made and the file written. *)
Definition load_or_create_account (dir_ok write_ok : bool) (cache_dir provider email url : list Z) (s : files * W)
  : option A * (files * W) :=
  let '(fs, w) := s in
  if negb dir_ok then (None, s)
  else
    let path := creds_path cache_dir provider email in
    match fs !! path with
    | Some json => (restore json, s)
    | None =>
        match fetch_eab provider email w with
        | (None, w) => (None, (fs, w))
        | (Some eab, w) =>
            match create (lit "mailto:" ++ email) url eab w with
            | (None, w) => (None, (fs, w))
            | (Some (a, json), w) => if write_ok then (Some a, (<[path := json]> fs, w)) else (None, (fs, w))
            end
        end
    end.

End account.

(** ** Orders *)

Record ca {A : Type} := mkCa {
  ca_order : A → list (list Z) → option (list (option authz));
  ca_polls : list refresh;
  ca_poll_ready : option order_status;
  ca_key : option (list Z);               (* [finalize] *)
  ca_cert : option (list Z);              (* [poll_certificate] *)
}.
Arguments ca : clear implicits.
Arguments mkCa {A}.

Inductive order_end := Issued (cert key : list Z) | OrderFailed | Waiting.

(** [finalize] and [poll_certificate]. *)
Definition issue {A} (c : ca A) : order_end :=
  match ca_key c with
  | None => OrderFailed
  | Some k => match ca_cert c with Some cert => Issued cert k | None => OrderFailed end
  end.

(** [request_acme_cert] with the account at hand. *)
Definition http01_order {A} (c : ca A) (a : A) (domains : list (list Z)) (st : tokens) : order_end * tokens :=
  match ca_order c a domains with
  | None => (OrderFailed, st)
  | Some l =>
      let '(r, st, _) := http01_authorize l [] st in
      match r with
      | None => (OrderFailed, st)
      | Some [] => (OrderFailed, st)
      | Some ts =>
          match poll_order (ca_polls c) FIRST_DELAY with
          | None => (Waiting, st)
          | Some (PollFailed false) => (OrderFailed, st)
          | Some (PollFailed true) => (OrderFailed, remove_tokens ts st)
          | Some PollReady => (issue c, remove_tokens ts st)
          end
      end
  end.

Definition request_acme_cert {A S} (c : ca A) (account : S → option A * S) (domains : list (list Z)) (s : S) (st : tokens)
  : order_end * S * tokens :=
  match domains with
  | [] => (OrderFailed, s, st)
  | _ =>
      match account s with
      | (None, s) => (OrderFailed, s, st)
      | (Some a, s) => let '(r, st) := http01_order c a domains st in (r, s, st)
      end
  end.

(** ** DNS-01 *)

Section dns01.
Context {A W : Type} (set_record : list Z → list Z → api W unit) (delete_record : list Z → api W unit).

(** The loop over the authorizations: the records to clean up. *)
Fixpoint dns01_authorize (l : list (option authz)) (done : list (list Z)) : api W (list (list Z)) :=
  match l with
  | [] => mret done
  | None :: _ => fail
  | Some a :: l =>
      match az_status a with
      | AValid => dns01_authorize l done
      | AOther => fail
      | APending =>
          match az_dns01 a with
          | None => fail
          | Some c =>
              _ ← set_record (az_domain a) (c_dns_value c);
              if c_ready c then dns01_authorize l (done ++ [az_domain a]) else fail
          end
      end
  end.

Fixpoint dns01_cleanup (l : list (list Z)) : api W unit :=
  match l with
  | [] => mret tt
  | d :: l => _ ← dropped (delete_record d); dns01_cleanup l
  end.

(** [request_acme_cert_dns01] with the account at hand. *)
Definition dns01_order (c : ca A) (a : A) (domains : list (list Z)) (w : W) : order_end * W :=
  match ca_order c a domains with
  | None => (OrderFailed, w)
  | Some l =>
      match dns01_authorize l [] w with
      | (None, w) => (OrderFailed, w)
      | (Some records, w) =>
          match ca_poll_ready c with
          | None => (OrderFailed, w)
          | Some status =>
              let '(_, w) := dns01_cleanup records w in
              match status with
              | OReady => (issue c, w)
              | _ => (OrderFailed, w)
              end
          end
      end
  end.

Definition request_acme_cert_dns01 {S} (c : ca A) (account : S → option A * S) (domains : list (list Z)) (s : S) (w : W)
  : order_end * S * W :=
  match domains with
  | [] => (OrderFailed, s, w)
  | _ =>
      match account s with
      | (None, s) => (OrderFailed, s, w)
      | (Some a, s) => let '(r, w) := dns01_order c a domains w in (r, s, w)
      end
  end.

End dns01.

(** ** Renewal on request *)

Section renew.
Context {CK : Type} (to_lowercase : list Z → list Z) (cache_dir : list Z) (parse_pem : list Z → list Z → option CK).

Notation world := (AcmeWorld (CK := CK)).

Inductive renewal_error := NoEmail | NoDomains | SaveFailed | ApplyFailed.

(** One site of [acme_renew_now]: what it adds to the three results.
    [attempt] is the answer to the application for it. *)
Definition renew_site (has_dns_provider : bool) (save : save_reach) (attempt : option (list Z * list Z)) (s : SiteFile) (w : world)
  : (nat * nat * list renewal_error) * world :=
  match cf_tls s with
  | None => ((0, 1, [])%nat, w)
  | Some t =>
      if negb (tls_acme t) then ((0, 1, [])%nat, w)
      else match tls_acme_email t with
           | None => ((0, 0, [NoEmail])%nat, w)
           | Some _ =>
               match acme_domains t (cf_server_name s) with
               | [] => ((0, 0, [NoDomains])%nat, w)
               | domains =>
                   let primary := primary_domain domains in
                   let cert := acme_cert_path cache_dir primary in
                   let key := acme_key_path cache_dir primary in
                   let use_dns01 := str_eqb (tls_acme_challenge t) (lit "dns01") in
                   match (if use_dns01 && negb has_dns_provider then None else attempt) with
                   | None => ((0, 0, [ApplyFailed])%nat, w)
                   | Some (c, k) =>
                       let '(ok, fs) := save_cert_files save cert key c k (aw_files w) in
                       if (ok : bool) then
                         ((1, 0, [])%nat, mkAcme (aw_ready w) fs
                            (reload_acme_cert to_lowercase parse_pem fs cert key (cf_server_name s) (aw_resolvers w)))
                       else ((0, 0, [SaveFailed])%nat, mkAcme (aw_ready w) fs (aw_resolvers w))
                   end
               end
           end
  end.

(** The sites a request is about. *)
Definition renew_selected (filter_name : option (list Z)) (s : SiteFile) : bool :=
  match filter_name with Some n => str_eqb (cf_name s) n | None => true end.

Fixpoint acme_renew_now (dns : SiteFile → bool) (save : SiteFile → save_reach)
    (attempt : SiteFile → option (list Z * list Z)) (filter_name : option (list Z))
    (sites : list SiteFile) (w : world) : (nat * nat * list renewal_error) * world :=
  match sites with
  | [] => ((0, 0, [])%nat, w)
  | s :: sites =>
      if renew_selected filter_name s then
        let '(t, k, es, w) := renew_site (dns s) (save s) (attempt s) s w in
        let '(t', k', es', w) := acme_renew_now dns save attempt filter_name sites w in
        ((t + t', k + k', es ++ es')%nat, w)
      else acme_renew_now dns save attempt filter_name sites w
  end.

End renew.

(** ** HTTP-01: what the authority can fetch *)

(** The challenges that are announced. *)
Definition pending_challenges (l : list (option authz)) : list challenge :=
  omap (λ o, a ← o; match az_status a with APending => az_http01 a | _ => None end) l.

Lemma http01_told l pushed st r st' told t snap :
  http01_authorize l pushed st = (r, st', told) → (t, snap) ∈ told →
  ∃ c, c ∈ pending_challenges l ∧ c_token c = t ∧ snap !! t = Some (c_key_auth c).
Proof.
  revert pushed st r st' told. induction l as [|[a|] l IH]; intros pushed st r st' told; cbn [http01_authorize pending_challenges omap list_omap mbind option_bind].
  - by intros [= <- <- <-] ?%elem_of_nil.
  - destruct (az_status a) eqn:Es; [by apply IH| |by intros [= <- <- <-] ?%elem_of_nil].
    destruct (az_http01 a) as [c|]; [|by intros [= <- <- <-] ?%elem_of_nil].
    destruct (c_token c) as [|b bs] eqn:Et.
    { intros H1 H2. destruct (IH _ _ _ _ _ H1 H2) as (c' & Hc & Hrest). exists c'. split; [by right|done]. }
    rewrite <- Et. destruct (c_ready c).
    + destruct (http01_authorize l _ _) as [[r1 st1] told1] eqn:E. intros [= <- <- <-] [H|H]%elem_of_cons.
      * injection H as -> ->. exists c. split; [by left|]. split; [done|]. apply lookup_insert_eq.
      * destruct (IH _ _ _ _ _ E H) as (c' & Hc & Hrest). exists c'. split; [by right|done].
    + intros [= <- <- <-] H%list_elem_of_singleton. injection H as -> ->. exists c. split; [by left|]. split; [done|]. apply lookup_insert_eq.
  - by intros [= <- <- <-] ?%elem_of_nil.
Qed.

(** Several tokens put into the store. *)
Definition publish (cs : list challenge) (st : tokens) : tokens := foldl (λ m c, <[c_token c := c_key_auth c]> m) st cs.

(** The tokens of the announced challenges are in the store when the loop is
    over. *)
Lemma http01_published l pushed st ts st' told :
  http01_authorize l pushed st = (Some ts, st', told) →
  ∃ cs, Forall (λ c, c ∈ pending_challenges l ∧ c_token c ≠ []) cs ∧ ts = pushed ++ (c_token <$> cs)
    ∧ st' = publish cs st
    ∧ (∀ c, c ∈ pending_challenges l → c_token c ≠ [] → c ∈ cs).
Proof.
  revert pushed st told. induction l as [|[a|] l IH]; intros pushed st told; cbn [http01_authorize pending_challenges omap list_omap mbind option_bind].
  - intros [= <- <- <-]. exists []. split_and!; [constructor|by rewrite app_nil_r|done|by intros c ?%elem_of_nil].
  - destruct (az_status a) eqn:Es; [by apply IH| |done].
    destruct (az_http01 a) as [c|]; [|done]. fold (pending_challenges l).
    destruct (c_token c) as [|b bs] eqn:Et.
    { intros (cs & H1 & H2 & H3 & H4)%IH. exists cs. split_and!; [|done|done|].
      - eapply Forall_impl; [exact H1|]. intros c' [Hc Hn]. split; [by right|done].
      - intros c' [->|Hc]%elem_of_cons Hn; [done|by apply H4]. }
    rewrite <- Et. destruct (c_ready c); [|done].
    destruct (http01_authorize l _ _) as [[r1 st1] told1] eqn:E. intros [= -> <- <-].
    apply IH in E as (cs & H1 & H2 & H3 & H4). exists (c :: cs). split_and!.
    + constructor; [split; [by left|by rewrite Et]|]. eapply Forall_impl; [exact H1|]. intros c' [Hc Hn]. split; [by right|done].
    + rewrite H2. by rewrite <- app_assoc.
    + exact H3.
    + intros c' [->|Hc]%elem_of_cons Hn; [by left|right; by apply H4].
  - done.
Qed.

Lemma publish_lookup cs st t k :
  t ∈ c_token <$> cs → (∀ c, c ∈ cs → c_token c = t → c_key_auth c = k) → publish cs st !! t = Some k.
Proof.
  induction cs as [|c cs IH] using rev_ind; intros Ht Hk; [by apply elem_of_nil in Ht|].
  unfold publish. rewrite foldl_app. cbn [foldl]. fold (publish cs st). destruct (decide (c_token c = t)) as [E|Hne].
  - rewrite E, lookup_insert_eq. f_equal. apply Hk; [|done]. apply elem_of_app. right. by left.
  - rewrite lookup_insert_ne by done. apply IH.
    + rewrite fmap_app in Ht. apply elem_of_app in Ht as [Ht|Ht]; [done|]. by apply list_elem_of_singleton in Ht.
    + intros c' Hc'. apply Hk. apply elem_of_app. by left.
Qed.

Lemma published_key l st ts st' told c :
  http01_authorize l [] st = (Some ts, st', told) → NoDup (c_token <$> pending_challenges l) →
  c ∈ pending_challenges l → c_token c ≠ [] → st' !! c_token c = Some (c_key_auth c).
Proof.
  intros H Hnd Hc Hne. apply http01_published in H as (cs & Hcs & _ & -> & Hall).
  assert (Hinj : ∀ c', c' ∈ pending_challenges l → c_token c' = c_token c → c' = c).
  { intros c' Hc' E. apply list_elem_of_lookup in Hc as [i Hi]. apply list_elem_of_lookup in Hc' as [j Hj].
    assert (i = j) as <-; [|congruence]. eapply (NoDup_lookup _ i j (c_token c)); [exact Hnd|..]; rewrite list_lookup_fmap; [by rewrite Hi|by rewrite Hj; cbn; rewrite E]. }
  apply publish_lookup; [by apply list_elem_of_fmap; exists c; split; [|apply Hall]|].
  intros c' Hc' E. rewrite (Hinj c'); [done|by apply (proj1 (Forall_forall _ _) Hcs)|done].
Qed.

Section served.
Context `{L : HeaderLib} {R : Type} (is_match : R → list Z → bool) (captures : R → list Z → option (nat → option (list Z))).

Lemma challenge_request (env : Env (R := R)) (q : Request) (rst : RouterState) (st : tokens) (t body : list Z) :
  e_acme_tokens env = (λ t, st !! t) → q_path q = lit "/.well-known/acme-challenge/" ++ t → st !! t = Some body →
  dispatch is_match captures env q rst = Ret (DAcme body, count_status 200 rst).
Proof.
  intros He Hq Ht. unfold dispatch, acme_token. rewrite Hq, length_app, starts_with_app.
  assert (E : (25 <? length (lit "/.well-known/acme-challenge/") + length t)%nat = true) by (apply Nat.ltb_lt; vm_compute length at 1; lia).
  rewrite E. change (drop 28 (lit "/.well-known/acme-challenge/" ++ t)) with t.
  rewrite (bool_decide_eq_true_2 (_ = _)) by reflexivity. cbn [andb]. by rewrite He, Ht.
Qed.

(** C22: The authority finds every challenge answered.  When a challenge is
    announced as ready, and as long as the order is waited for, a request for
    its well-known path, on any host, is answered with its key authorization,
    before any site, redirect or rule is looked at. *)
Theorem http01_validation_answered l st ts st' told :
  http01_authorize l [] st = (Some ts, st', told) → NoDup (c_token <$> pending_challenges l) →
  (∀ t snap (env : Env (R := R)) (q : Request) (rst : RouterState), (t, snap) ∈ told → e_acme_tokens env = (λ t, snap !! t) →
     q_path q = lit "/.well-known/acme-challenge/" ++ t →
     ∃ c, c ∈ pending_challenges l ∧ c_token c = t
       ∧ dispatch is_match captures env q rst = Ret (DAcme (c_key_auth c), count_status 200 rst))
  ∧ (∀ c (env : Env (R := R)) (q : Request) (rst : RouterState), c ∈ pending_challenges l → c_token c ≠ [] → e_acme_tokens env = (λ t, st' !! t) →
     q_path q = lit "/.well-known/acme-challenge/" ++ c_token c →
     dispatch is_match captures env q rst = Ret (DAcme (c_key_auth c), count_status 200 rst)).
Proof.
  intros H Hnd. split.
  - intros t snap env q rst Hin He Hq. destruct (http01_told _ _ _ _ _ _ _ _ H Hin) as (c & Hc & Ht & Hl).
    exists c. split; [done|]. split; [done|]. by apply (challenge_request env q rst snap t).
  - intros c env q rst Hc Hne He Hq. apply (challenge_request env q rst st' (c_token c)); [done|done|].
    by eapply published_key.
Qed.

End served.

(** ** HTTP-01: what is left in the store *)

Lemma remove_tokens_lookup ts st t : remove_tokens ts st !! t = if bool_decide (t ∈ ts) then None else st !! t.
Proof.
  unfold remove_tokens. revert st. induction ts as [|x ts IH]; intros st; cbn [foldl].
  { by rewrite bool_decide_eq_false_2 by (apply not_elem_of_nil). }
  rewrite IH. destruct (decide (x = t)) as [->|Hne].
  - rewrite lookup_delete_eq, (bool_decide_eq_true_2 (t ∈ t :: _)) by (by left). by case_bool_decide.
  - rewrite lookup_delete_ne by done. erewrite bool_decide_ext; [reflexivity|]. rewrite elem_of_cons. naive_solver.
Qed.

Lemma publish_other cs st t : t ∉ c_token <$> cs → publish cs st !! t = st !! t.
Proof.
  induction cs as [|c cs IH] using rev_ind; intros Ht; [done|]. unfold publish. rewrite foldl_app. cbn [foldl]. fold (publish cs st).
  rewrite fmap_app, not_elem_of_app in Ht. destruct Ht as [H1 H2]. rewrite lookup_insert_ne; [by apply IH|].
  intros E. apply H2. rewrite <- E. by left.
Qed.

(** An order leaves the store clean.  When the certificate is issued, or the
    order ends in a status the authority reported, every token published for
    it is gone and every other token is as it was. *)
Theorem http01_store_restored {A} (c : ca A) a domains st r st' l :
  ca_order c a domains = Some l → http01_order c a domains st = (r, st') →
  (∃ cert key, r = Issued cert key) ∨ (∃ ts st1 told, http01_authorize l [] st = (Some ts, st1, told))
    ∧ poll_order (ca_polls c) FIRST_DELAY = Some (PollFailed true) →
  ∀ t, (st' !! t = None ∧ ∃ ch, ch ∈ pending_challenges l ∧ c_token ch = t) ∨ st' !! t = st !! t.
Proof.
  intros Hl. unfold http01_order. rewrite Hl. destruct (http01_authorize l [] st) as [[o st1] told] eqn:E.
  intros H Hend t. assert (Hst : ∃ ts, o = Some ts ∧ (st' = remove_tokens ts st1 ∨ ts = [] ∧ st' = st1)).
  { destruct o as [[|t0 ts]|]; [exists []; split; [done|right; split; [done|congruence]]| |].
    - exists (t0 :: ts). split; [done|]. left. destruct (poll_order (ca_polls c) FIRST_DELAY) as [[|[]]|]; try congruence; exfalso.
      + destruct Hend as [(cert & key & ->)|[_ [=]]]. discriminate H.
      + destruct Hend as [(cert & key & ->)|[_ [=]]]. discriminate H.
    - exfalso. destruct Hend as [(cert & key & ->)|[(ts & st2 & told2 & [=]) _]]. discriminate H. }
  destruct Hst as (ts & -> & Hst). apply http01_published in E as (cs & Hcs & Hts & -> & _). cbn [Datatypes.app] in Hts. subst ts.
  assert (Hcase : st' = remove_tokens (c_token <$> cs) (publish cs st)) by (by destruct Hst as [->|[-> ->]]).
  rewrite Hcase, remove_tokens_lookup. case_bool_decide as Ht.
  - left. split; [done|]. apply list_elem_of_fmap in Ht as (ch & -> & Hch). exists ch. split; [|done].
    by apply (proj1 (Forall_forall _ _) Hcs).
  - right. by apply publish_other.
Qed.

(** A refresh that fails leaves the tokens of the order in the store. *)
Theorem http01_tokens_leak {A} (c : ca A) a domains st l ts st1 told :
  ca_order c a domains = Some l → http01_authorize l [] st = (Some ts, st1, told) → ts ≠ [] →
  poll_order (ca_polls c) FIRST_DELAY = Some (PollFailed false) →
  http01_order c a domains st = (OrderFailed, st1) ∧ ∀ t, t ∈ ts → is_Some (st1 !! t).
Proof.
  intros Hl Ha Hne Hp. unfold http01_order. rewrite Hl, Ha. destruct ts as [|t0 ts]; [done|]. rewrite Hp. split; [done|].
  apply http01_published in Ha as (cs & _ & Hts & -> & _). cbn [Datatypes.app] in Hts. rewrite Hts. intros t Ht.
  destruct (publish cs st !! t) as [v|] eqn:E; [by eexists|]. exfalso. clear Hts Hp Hne Hl. revert E.
  induction cs as [|c0 cs IH] using rev_ind; [by apply elem_of_nil in Ht|]. unfold publish. rewrite foldl_app. cbn [foldl]. fold (publish cs st).
  destruct (decide (c_token c0 = t)) as [->|Hne]; [by rewrite lookup_insert_eq|]. rewrite lookup_insert_ne by done. apply IH.
  rewrite fmap_app in Ht. apply elem_of_app in Ht as [Ht|Ht]; [done|]. by apply list_elem_of_singleton in Ht.
Qed.

(** An order whose names are all authorized already fails: there is no
    challenge left to answer, and that is reported as an error. *)
Theorem http01_authorized_order_fails {A} (c : ca A) a domains st l :
  ca_order c a domains = Some l → Forall (λ o, ∃ z, o = Some z ∧ az_status z = AValid) l →
  http01_order c a domains st = (OrderFailed, st).
Proof.
  intros Hl Hv. unfold http01_order. rewrite Hl.
  assert (E : http01_authorize l [] st = (Some [], st, [])).
  { clear Hl. induction Hv as [|o l (z & -> & Hz) Hv IH]; [done|]. cbn [http01_authorize]. by rewrite Hz. }
  by rewrite E.
Qed.

(** ** The wait *)

(** Every refresh comes at least its delay after the one before, the first
    one after the first delay. *)
Fixpoint on_time (now delay : Z) (answers : list refresh) : Prop :=
  match answers with
  | [] => True
  | a :: answers => now + delay ≤ rf_elapsed a ∧ on_time (rf_elapsed a) (next_delay delay) answers
  end.

(** The wait ends if the delay and the time so far leave no room for all
    answers; [n] refreshes at the longest delay take [10000 n]. *)
Lemma poll_order_ends answers now delay :
  on_time now delay answers → 10000 ≤ delay → POLL_TIMEOUT < now + 10000 * Z.of_nat (length answers) → answers ≠ [] →
  is_Some (poll_order answers delay).
Proof.
  revert now delay. induction answers as [|a answers IH]; intros now delay Hon Hd Hlen Hne; [done|].
  cbn [poll_order on_time length] in *. destruct Hon as [Hnow Hon].
  assert (Hgo : is_Some (if POLL_TIMEOUT <? rf_elapsed a then Some (PollFailed true) else poll_order answers (next_delay delay))).
  { destruct (Z.ltb_spec POLL_TIMEOUT (rf_elapsed a)); [by eexists|]. apply (IH (rf_elapsed a)); [done| |lia|].
    - unfold next_delay. apply Z.min_glb; [|lia]. apply Z.div_le_lower_bound; lia.
    - intros ->. cbn [length] in Hlen. lia. }
  destruct (rf_state a) as [[[] []]|]; (exact Hgo || by eexists).
Qed.

Lemma poll_order_step a answers delay now :
  on_time now delay (a :: answers) → is_Some (poll_order (a :: answers) delay) ∨
  rf_elapsed a ≤ POLL_TIMEOUT ∧ on_time (rf_elapsed a) (next_delay delay) answers ∧ now + delay ≤ rf_elapsed a
  ∧ poll_order (a :: answers) delay = poll_order answers (next_delay delay).
Proof.
  intros [Hnow Hon]. cbn [poll_order]. destruct (Z.ltb_spec POLL_TIMEOUT (rf_elapsed a));
    destruct (rf_state a) as [[[] []]|]; try (left; by eexists); right; by split_and!.
Qed.

(** The wait for an order ends: with the delays of the code, thirty-two
    refreshes are enough, whatever the authority answers. *)
Theorem poll_order_terminates answers :
  on_time 0 FIRST_DELAY answers → (32 ≤ length answers)%nat → is_Some (poll_order answers FIRST_DELAY).
Proof.
  intros Hon Hlen. unfold FIRST_DELAY in *.
  destruct answers as [|a1 [|a2 [|a3 answers]]]; cbn [length] in Hlen; [lia..|].
  destruct (poll_order_step _ _ _ _ Hon) as [?|(_ & Hon1 & H1 & ->)]; [done|].
  destruct (poll_order_step _ _ _ _ Hon1) as [?|(_ & Hon2 & H2 & ->)]; [done|].
  destruct (poll_order_step _ _ _ _ Hon2) as [?|(_ & Hon3 & H3 & ->)]; [done|].
  change (next_delay (next_delay (next_delay 3000))) with 10000 in *.
  change (next_delay (next_delay 3000)) with 6750 in *. change (next_delay 3000) with 4500 in *.
  apply (poll_order_ends _ (rf_elapsed a3)); [done|done| |].
  - unfold POLL_TIMEOUT. lia.
  - intros ->. cbn [length] in Hlen. lia.
Qed.

(** ** DNS-01 with Cloudflare *)

Section dns01_cloudflare.
Context {A W : Type} (send : ApiReq → W → option (Z * option (list Z)) * W) (run_script : list Z → list (list Z) → W → option bool * W)
  (parse_json : list Z → option Value) (sign : list Z → list Z → list Z) (stamp : W → list Z * list Z)
  (token zone : list Z) (records : W → gmap (list Z) (list Z * list Z)) `{CF : !CloudflareApi send parse_json token zone records}.

Notation set_record := (set_dns01_record true send run_script parse_json sign stamp (Cloudflare token (Some zone))).
Notation delete_record := (delete_dns01_record true send run_script parse_json sign stamp (Cloudflare token (Some zone))).

(** The names of the records an order sets. *)
Definition pending_names (l : list (option authz)) : list (list Z) :=
  omap (λ o, a ← o; match az_status a with APending => Some (az_domain a) | _ => None end) l.

Lemma dns01_authorize_zone l done w ds w' :
  dns01_authorize set_record l done w = (Some ds, w') →
  ds = done ++ pending_names l
  ∧ ∀ i n v, n ∉ acme_challenge_domain <$> pending_names l → (records w' !! i = Some (n, v) ↔ records w !! i = Some (n, v)).
Proof.
  revert done w. induction l as [|[a|] l IH]; intros done w; cbn [dns01_authorize pending_names omap list_omap mbind option_bind].
  - intros [= <- <-]. by rewrite app_nil_r.
  - fold (pending_names l). destruct (az_status a); [by apply IH| |done]. destruct (az_dns01 a) as [c|]; [|done].
    unfold mbind, api_bind. destruct (cloudflare_set_exact send run_script parse_json sign stamp token zone records (az_domain a) (c_dns_value c) w)
      as (id & w1 & -> & _ & Hother). destruct (c_ready c); [|done].
    intros [-> Hz]%IH. rewrite <- app_assoc. split; [done|]. intros i n v Hn. cbn [fmap list_fmap] in Hn.
    apply not_elem_of_cons in Hn as [Hn Hns]. rewrite Hz by done. by apply Hother.
  - done.
Qed.

Lemma dns01_cleanup_zone ds w :
  ∃ w', dns01_cleanup delete_record ds w = (Some tt, w')
    ∧ ∀ i n v, records w' !! i = Some (n, v) ↔ n ∉ acme_challenge_domain <$> ds ∧ records w !! i = Some (n, v).
Proof.
  revert w. induction ds as [|d ds IH]; intros w; cbn [dns01_cleanup].
  { exists w. split; [done|]. intros i n v. split; [|naive_solver]. intros H. split; [apply not_elem_of_nil|done]. }
  destruct (cloudflare_delete_exact send run_script parse_json sign stamp token zone records d w) as (w1 & Hd & Hr).
  destruct (IH w1) as (w' & Hc & Hz). exists w'. unfold mbind, api_bind, dropped. rewrite Hd. cbn [snd]. split; [done|].
  intros i n v. rewrite Hz, Hr. cbn [fmap list_fmap]. rewrite not_elem_of_cons. naive_solver.
Qed.

(** An order leaves the zone clean.  Once the authority has told the status of
    the order, no record of a challenge name is left and every other record is
    as it was, whatever that status and the later steps are. *)
Theorem dns01_zone_restored (c : ca A) a domains w r w' l ds w1 status :
  ca_order c a domains = Some l → dns01_authorize set_record l [] w = (Some ds, w1) → ca_poll_ready c = Some status →
  dns01_order set_record delete_record c a domains w = (r, w') →
  ∀ i n v, records w' !! i = Some (n, v) ↔ n ∉ acme_challenge_domain <$> pending_names l ∧ records w !! i = Some (n, v).
Proof.
  intros Hl Ha Hs. unfold dns01_order. rewrite Hl, Ha, Hs. apply dns01_authorize_zone in Ha as [-> Hz]. cbn [Datatypes.app].
  destruct (dns01_cleanup_zone (pending_names l) w1) as (w2 & -> & Hc). intros H i n v.
  assert (w' = w2) as -> by (by destruct status; injection H).
  rewrite Hc. split; intros [Hn Hi]; (split; [done|]); by apply (Hz i n v Hn).
Qed.

(** A name and its wildcard cannot be proved together.  Both challenges use
    the same record name, and setting the second record removes the first: when
    the authority starts to validate, the first value is gone. *)
Theorem dns01_wildcard_loses_first d a1 a2 c1 c2 w ds w' :
  az_status a1 = APending → az_status a2 = APending → az_dns01 a1 = Some c1 → az_dns01 a2 = Some c2 →
  az_domain a1 = d → az_domain a2 = lit "*." ++ d → c_dns_value c1 ≠ c_dns_value c2 →
  dns01_authorize set_record [Some a1; Some a2] [] w = (Some ds, w') →
  ∀ i, records w' !! i ≠ Some (acme_challenge_domain d, c_dns_value c1).
Proof.
  intros Hp1 Hp2 Hc1 Hc2 Hd1 Hd2 Hne. cbn [dns01_authorize]. rewrite Hp1, Hp2, Hc1, Hc2, Hd1, Hd2. unfold mbind, api_bind.
  destruct (cloudflare_set_exact send run_script parse_json sign stamp token zone records d (c_dns_value c1) w) as (i1 & w1 & -> & _).
  destruct (c_ready c1); [|done].
  destruct (cloudflare_set_exact send run_script parse_json sign stamp token zone records (lit "*." ++ d) (c_dns_value c2) w1)
    as (i2 & w2 & -> & Hset & _).
  destruct (c_ready c2); [|done]. intros [= _ <-] i Hi. apply Hset in Hi as [_ Hv]. done.
Qed.

End dns01_cloudflare.

(** A wait that fails leaves the records in the zone: the cleanup is not
    reached. *)
Theorem dns01_records_leak {A W} (set_record : list Z → list Z → api W unit) delete_record (c : ca A) a domains w l ds w1 :
  ca_order c a domains = Some l → dns01_authorize set_record l [] w = (Some ds, w1) → ca_poll_ready c = None →
  dns01_order set_record delete_record c a domains w = (OrderFailed, w1).
Proof. intros Hl Ha Hs. unfold dns01_order. by rewrite Hl, Ha, Hs. Qed.

(** ** Accounts *)

Section accounts.
Context {W A : Type} (send : ApiReq → W → option (Z * option (list Z)) * W) (parse_json : list Z → option Value)
  (decode_url decode_std : list Z → option (list Z))
  (restore : list Z → option A) (create : list Z → list Z → option (list Z * list Z) → W → option (A * list Z) * W).
Hypothesis restores : ∀ contact url eab w a json w', create contact url eab w = (Some (a, json), w') → restore json = Some a.

(** An account is created once.  After the first use of a provider and an
    address, every later use finds the same account in the cache, without a
    request and without writing. *)
Theorem account_created_once dir provider email url s a s' write_ok :
  load_or_create_account send parse_json decode_url decode_std restore create true true dir provider email url s = (Some a, s') →
  load_or_create_account send parse_json decode_url decode_std restore create true write_ok dir provider email url s' = (Some a, s').
Proof using restores.
  destruct s as [fs w]. unfold load_or_create_account. cbn [negb].
  destruct (fs !! creds_path dir provider email) as [json|] eqn:E.
  - intros [= Hr <-]. by rewrite E, Hr.
  - destruct (fetch_eab _ _ _ _ _ _ w) as [[eab|] w1]; [|done].
    destruct (create _ _ _ _) as [[[a' json]|] w2] eqn:Ec; [|done]. intros [= <- <-].
    rewrite lookup_insert_eq. by rewrite (restores _ _ _ _ _ _ _ Ec).
Qed.

End accounts.

(** ** Renewal on request *)

Section renewals.
Context {CK : Type} (to_lowercase : list Z → list Z) (cache_dir : list Z) (parse_pem : list Z → list Z → option CK).

Lemma renew_site_counts dns save attempt s (w : AcmeWorld (CK := CK)) t k es w' :
  renew_site to_lowercase cache_dir parse_pem dns save attempt s w = ((t, k, es), w') →
  (t + k + length es = 1)%nat ∧ aw_ready w' = aw_ready w ∧ (attempt = None → w' = w).
Proof.
  unfold renew_site, save_cert_files.
  repeat (case_match; simplify_eq/=; try (intros [= <- <- <- <-]; split_and!; done)).
Qed.

(** Every selected site is accounted for: it is renewed, skipped for having no
    automatic certificate, or named in an error; and a site whose application
    fails loses nothing. *)
Theorem renew_now_accounted dns save attempt f sites (w : AcmeWorld (CK := CK)) t k es w' :
  acme_renew_now to_lowercase cache_dir parse_pem dns save attempt f sites w = ((t, k, es), w') →
  (t + k + length es = length (List.filter (renew_selected f) sites))%nat
  ∧ ((∀ s, s ∈ sites → attempt s = None) → w' = w ∧ t = 0%nat).
Proof.
  revert w t k es w'. induction sites as [|s sites IH]; intros w t k es w'; cbn [acme_renew_now List.filter]; [by intros [= <- <- <- <-]|].
  destruct (renew_selected f s).
  - destruct (renew_site _ _ _ _ _ _ s w) as [[[t1 k1] es1] w1] eqn:E1.
    destruct (acme_renew_now _ _ _ _ _ _ f sites w1) as [[[t2 k2] es2] w2] eqn:E2. intros [= <- <- <- <-].
    destruct (renew_site_counts _ _ _ _ _ _ _ _ _ E1) as (H1 & _ & H1w). destruct (IH _ _ _ _ _ E2) as [H2 H2w].
    split; [rewrite length_app; cbn [length]; lia|]. intros Hall.
    destruct H2w as [-> ->]; [intros s' Hs'; apply Hall; by right|]. rewrite H1w by (apply Hall; by left). split; [done|].
    assert (Hn : attempt s = None) by (apply Hall; by left). revert E1. rewrite Hn. unfold renew_site.
    repeat (case_match; simplify_eq/=; try (intros [= <- <- <- <-]; lia)).
  - intros H. destruct (IH _ _ _ _ _ H) as [H2 H2w]. split; [done|]. intros Hall. apply H2w. intros s' Hs'. apply Hall. by right.
Qed.

(** A certificate obtained on request does not count.  The renewal never marks
    a site as ready, so a site waiting for its first certificate goes on
    without its redirect to HTTPS and its HSTS header. *)
Theorem renew_now_not_ready dns save attempt f sites (w : AcmeWorld (CK := CK)) r w' :
  acme_renew_now to_lowercase cache_dir parse_pem dns save attempt f sites w = (r, w') → aw_ready w' = aw_ready w.
Proof.
  revert w r w'. induction sites as [|s sites IH]; intros w r w'; cbn [acme_renew_now]; [by intros [= <- <-]|].
  destruct (renew_selected f s); [|by apply IH].
  destruct (renew_site _ _ _ _ _ _ s w) as [[[t1 k1] es1] w1] eqn:E1.
  destruct (acme_renew_now _ _ _ _ _ _ f sites w1) as [[[t2 k2] es2] w2] eqn:E2. intros [= <- <-].
  rewrite (IH _ _ _ E2). by apply renew_site_counts in E1 as (_ & -> & _).
Qed.

End renewals.

Module AcmeWitness.
Import Headers.Model.

Definition ch (t : string) : challenge := mkChallenge (lit t) (lit t ++ lit ".key") (lit t ++ lit ".dns") true.
Definition az (d t : string) : option authz := Some (mkAuthz APending (lit d) (Some (ch t)) (Some (ch t))).
Definition two : list (option authz) := [az "a.test" "t1"; az "b.test" "t2"].
Definition authorized : list (option authz) := [Some (mkAuthz AValid (lit "a.test") None None)].

Definition steady (s : order_status) (n : nat) : list refresh := (λ k, mkRefresh (Some (s, false)) (10000 * (Z.of_nat k + 1))) <$> seq 0 n.
Definition authority (l : list (option authz)) (polls : list refresh) (ready : option order_status) : ca unit :=
  mkCa (λ _ _, Some l) polls ready (Some (lit "KEY")) (Some (lit "CERT")).

Definition env_with (st : tokens) : Env (R := unit) :=
  let e := Router.Witness.env in
  mkEnv (e_max_connections e) (e_max_body_bytes e) (e_h3_ports e) (e_registry e) (λ t, st !! t) (e_certs_ready e) (e_net e)
    (e_plugin_request e) (e_plugin_response e) (e_custom_handler e) (e_handler e) (e_error_bytes e) (e_fs e) (e_canonicalize e) (e_read e) (e_now e).
Definition validation (t : string) : Request :=
  let q := Router.Witness.req in
  mkRequest (q_method q) (q_version q) (q_authority q) (q_header q) (lit "/.well-known/acme-challenge/" ++ lit t) None false (q_peer q).

Lemma two_tokens : NoDup (c_token <$> pending_challenges two).
Proof. apply (bool_decide_unpack _). by vm_compute. Qed.

Lemma two_published : fst (fst (http01_authorize two [] ∅)) = Some (lit <$> ["t1"; "t2"]%string).
Proof. by vm_compute. Qed.

Lemma http01_validation_answered_witness :
  ∃ ts st' told, http01_authorize two [] ∅ = (Some ts, st', told)
    ∧ dispatch Router.Witness.im Router.Witness.caps (env_with st') (validation "t1") Router.Witness.st0
      = Ret (DAcme (lit "t1.key"), count_status 200 Router.Witness.st0).
Proof.
  pose proof two_published as Hp. destruct (http01_authorize two [] ∅) as [[[ts|] st'] told] eqn:E; [|discriminate Hp].
  exists ts, st', told. split; [reflexivity|].
  refine (proj2 (http01_validation_answered Router.Witness.im Router.Witness.caps two ∅ ts st' told E two_tokens)
            (ch "t1") (env_with st') (validation "t1") Router.Witness.st0 _ _ _ _); [by left|discriminate|reflexivity|reflexivity].
Defined.

Lemma http01_store_restored_witness :
  ∃ st', http01_order (authority two (steady OReady 1) None) tt [] ∅ = (Issued (lit "CERT") (lit "KEY"), st')
    ∧ ∀ t, (st' !! t = None ∧ ∃ c, c ∈ pending_challenges two ∧ c_token c = t) ∨ st' !! t = (∅ : tokens) !! t.
Proof.
  assert (Hr : fst (http01_order (authority two (steady OReady 1) None) tt [] ∅) = Issued (lit "CERT") (lit "KEY")) by (by vm_compute).
  destruct (http01_order (authority two (steady OReady 1) None) tt [] ∅) as [r st'] eqn:E. cbn [fst] in Hr. subst r.
  exists st'. split; [reflexivity|].
  refine (http01_store_restored (authority two (steady OReady 1) None) tt [] ∅ (Issued (lit "CERT") (lit "KEY")) st' two eq_refl E _).
  left. by exists (lit "CERT"), (lit "KEY").
Defined.

Lemma http01_tokens_leak_witness :
  ∃ st', http01_order (authority two [mkRefresh None 3000] None) tt [] ∅ = (OrderFailed, st') ∧ is_Some (st' !! lit "t1").
Proof.
  pose proof two_published as Hp. destruct (http01_authorize two [] ∅) as [[[ts|] st'] told] eqn:E; [|discriminate Hp].
  injection Hp as ->. exists st'.
  destruct (http01_tokens_leak (authority two [mkRefresh None 3000] None) tt [] ∅ two _ st' told eq_refl E) as [H1 H2];
    [discriminate|reflexivity|]. split; [exact H1|]. apply H2. by left.
Defined.

Lemma http01_authorized_order_fails_witness :
  http01_order (authority authorized [] None) tt [lit "a.test"] ∅ = (OrderFailed, ∅).
Proof.
  apply (http01_authorized_order_fails (authority authorized [] None) tt [lit "a.test"] ∅ authorized); [reflexivity|].
  repeat constructor. by eexists.
Defined.

Lemma steady_on_time s n k now delay :
  now ≤ 10000 * Z.of_nat k → delay ≤ 10000 → on_time now delay ((λ k, mkRefresh (Some (s, false)) (10000 * (Z.of_nat k + 1))) <$> seq k n).
Proof.
  revert k now delay. induction n as [|n IH]; intros k now delay Hn Hd; [done|]. cbn [seq fmap list_fmap on_time rf_elapsed].
  split; [lia|]. apply IH; [lia|]. unfold next_delay. lia.
Qed.

Lemma poll_order_terminates_witness : is_Some (poll_order (steady OPending 32) FIRST_DELAY).
Proof.
  apply (poll_order_terminates (steady OPending 32)); [|apply Nat.leb_le; by vm_compute].
  by apply steady_on_time.
Defined.

Import DnsWitness.

Lemma dns01_zone_restored_witness :
  ∃ r w', dns01_order (set_dns01_record true serve scripts read_ids no_sign no_stamp (Cloudflare token (Some zone)))
            (delete_dns01_record true serve scripts read_ids no_sign no_stamp (Cloudflare token (Some zone)))
            (authority two [] (Some OReady)) tt [] ∅ = (r, w')
    ∧ ∀ i n v, w' !! i = Some (n, v) ↔ n ∉ acme_challenge_domain <$> pending_names two ∧ (∅ : zone_state) !! i = Some (n, v).
Proof.
  set (sr := set_dns01_record true serve scripts read_ids no_sign no_stamp (Cloudflare token (Some zone))).
  destruct (dns01_authorize sr two [] ∅) as [[ds|] w1] eqn:Ea.
  - destruct (dns01_order sr (delete_dns01_record true serve scripts read_ids no_sign no_stamp (Cloudflare token (Some zone)))
                (authority two [] (Some OReady)) tt [] ∅) as [r w'] eqn:E.
    exists r, w'. split; [reflexivity|].
    exact (dns01_zone_restored serve scripts read_ids no_sign no_stamp token zone id (authority two [] (Some OReady)) tt [] ∅ r w' two ds w1 OReady
             eq_refl Ea eq_refl E).
  - exfalso. assert (H : fst (dns01_authorize sr two [] ∅) = Some [lit "a.test"; lit "b.test"]) by (by vm_compute). rewrite Ea in H. discriminate H.
Defined.

Definition wild : list (option authz) := [az "a.test" "t1"; az "*.a.test" "t2"].

Lemma dns01_wildcard_loses_first_witness :
  ∃ ds w', dns01_authorize (set_dns01_record true serve scripts read_ids no_sign no_stamp (Cloudflare token (Some zone))) wild [] ∅ = (Some ds, w')
    ∧ ∀ i, w' !! i ≠ Some (acme_challenge_domain (lit "a.test"), c_dns_value (ch "t1")).
Proof.
  set (sr := set_dns01_record true serve scripts read_ids no_sign no_stamp (Cloudflare token (Some zone))).
  destruct (dns01_authorize sr wild [] ∅) as [[ds|] w1] eqn:Ea.
  - exists ds, w1. split; [reflexivity|].
    refine (dns01_wildcard_loses_first serve scripts read_ids no_sign no_stamp token zone id (lit "a.test") _ _ (ch "t1") (ch "t2") ∅ ds w1
              _ _ _ _ _ _ _ Ea); try reflexivity. discriminate.
  - exfalso. assert (H : fst (dns01_authorize sr wild [] ∅) = Some [lit "a.test"; lit "*.a.test"]) by (by vm_compute). rewrite Ea in H. discriminate H.
Defined.

Lemma dns01_records_leak_witness :
  dns01_order (λ d v w, (Some tt, d :: w)) (λ d w, (Some tt, w)) (authority two [] None) tt [] [] = (OrderFailed, [lit "b.test"; lit "a.test"]).
Proof. apply (dns01_records_leak (λ d v (w : list (list Z)), (Some tt, d :: w)) _ (authority two [] None) tt [] [] two (lit <$> ["a.test"; "b.test"]%string)); reflexivity. Defined.

Definition creating (contact url : list Z) (eab : option (list Z * list Z)) (w : nat) : option (list Z * list Z) * nat := (Some (contact, contact), S w).

Lemma account_created_once_witness :
  ∃ s', load_or_create_account (λ _ (w : nat), (None, w)) (λ _, None) (λ _, None) (λ _, None) (λ j, Some j) creating true true
          (lit "/c") (lit "letsencrypt") (lit "a@b.c") [] (∅, 0%nat) = (Some (lit "mailto:a@b.c"), s')
    ∧ snd s' = 1%nat
    ∧ load_or_create_account (λ _ (w : nat), (None, w)) (λ _, None) (λ _, None) (λ _, None) (λ j, Some j) creating true false
          (lit "/c") (lit "letsencrypt") (lit "a@b.c") [] s' = (Some (lit "mailto:a@b.c"), s').
Proof.
  eexists. split; [reflexivity|]. split; [reflexivity|].
  apply (account_created_once (λ _ (w : nat), (None, w)) (λ _, None) (λ _, None) (λ _, None) (λ j, Some j) creating) with (s := (∅, 0%nat)).
  - intros contact url eab w a json w'. by intros [= <- <- _].
  - reflexivity.
Defined.

(** Two addresses that differ in a dot and an underscore share an account. *)
Example account_files_collide :
  creds_path (lit "/c") (lit "letsencrypt") (lit "a.b@c.test") = creds_path (lit "/c") (lit "letsencrypt") (lit "a_b@c.test").
Proof. reflexivity. Qed.

Definition acme_tls : TlsConfig :=
  mkTls true (Some (lit "a@b.c")) None None [] (lit "tls1.2") (lit "tls1.3") 30 (lit "letsencrypt") (lit "http01") [].
Definition acme_site : SiteFile := Tls.Witness.site "a" ["a.test"]%string acme_tls.
Definition run (attempt : option (list Z * list Z)) :=
  acme_renew_now to_ascii_lowercase (lit "/c") Tls.Witness.pem (λ _, false) (λ _, BothSaved) (λ _, attempt) None [acme_site] Tls.Witness.world.

Lemma renew_now_accounted_witness : ∃ t k es w', run None = ((t, k, es), w') ∧ (t + k + length es = 1)%nat ∧ w' = Tls.Witness.world.
Proof.
  destruct (run None) as [[[t k] es] w'] eqn:E. exists t, k, es, w'. split; [reflexivity|].
  destruct (renew_now_accounted _ _ _ _ _ _ _ _ _ _ _ _ _ E) as [H1 H2]. split; [exact H1|]. by apply H2.
Defined.

Lemma renew_now_not_ready_witness : ∃ r w', run (Some (lit "C", lit "K")) = (r, w') ∧ aw_ready w' = ∅.
Proof.
  destruct (run (Some (lit "C", lit "K"))) as [r w'] eqn:E. exists r, w'. split; [reflexivity|].
  exact (renew_now_not_ready _ _ _ _ _ _ _ _ _ _ _ E).
Defined.

End AcmeWitness.
