(* ===== verification/Startup.v ===== *)
(** * Starting the server: [SweetyServer::run] in [src/server/http.rs]

    How the parts are put together: the registry with the run-time resources
    of its sites, the certificates of every TLS port, the ports that are bound
    and the background tasks.  Binding, the log writers, the caches and the
    QUIC settings are given by their outcomes. *)

From Stdlib Require Import Sorted.
From S2P Require Import Prelude RustStr Headers AccessLog Location VHost Config Tls HotReload AdminConfig.

(** ** Configuration *)

(** The fields of [UpstreamConfig] and [HealthCheckConfig] used here. *)
Record HealthCheck := mkHealth { hc_enabled : bool; hc_path : list Z; hc_interval : Z }.
Record UpstreamStart := mkUpStart { us_name : list Z; us_health : option HealthCheck; us_nodes : nat }.

(** A site, with the settings that matter only when the server starts; [CC] is
    the configuration of a response cache. *)
Record SiteStart {CC : Type} := mkSiteStart {
  ss_file : SiteFile;
  ss_access_log : option (list Z);
  ss_access_log_format : option (list Z);
  ss_proxy_cache : option CC;
  ss_fcgi_cache : option CC;
  ss_proxy_protocol : bool;
  ss_upstreams : list UpstreamStart;
}.
Arguments SiteStart : clear implicits.
Arguments mkSiteStart {CC}.

Record GlobalStart := mkGlobal {
  g_worker_threads : Z;
  g_worker_connections : Z;
  g_max_connections : Z;
  g_keepalive_timeout : Z;
  g_client_max_body_size : Z;
  g_open_file_cache_max : Z;
  g_open_file_cache_total_mb : Z;
  g_h2_max_concurrent_streams : Z;
  g_h2_max_pending_per_conn : Z;
  g_h2_max_concurrent_reset_streams : Z;
  g_h2_max_frame_size : Z;
  g_h2_max_requests_per_conn : Z;
  g_admin_listen : list Z;
}.

(** ** Sizes and times *)

Definition pool_idle (worker_connections : Z) : Z := Z.min (Z.max (worker_connections / 128) 8) 256.
Definition worker_count (parallelism : option Z) (worker_threads : Z) : Z :=
  if worker_threads =? 0 then default 4 parallelism else worker_threads.
Definition ka_timeout (keepalive_timeout : Z) : Z := if keepalive_timeout =? 0 then 60 else keepalive_timeout.
Definition max_body_bytes (client_max_body_size : Z) : outcome Z :=
  let kb := client_max_body_size * 1024 in
  if kb <=? u64_max then (let b := kb * 1024 in if b <=? u64_max then Ret b else Panic) else Panic.

(** The limits of HTTP/2 given to the engine; the number of pending requests is
    left at its default when it is 0. *)
Record H2Settings := mkH2Settings { h2_streams : Z; h2_pending : option Z; h2_resets : Z; h2_frame : Z; h2_requests : Z }.
Definition h2_settings (g : GlobalStart) : H2Settings :=
  mkH2Settings (g_h2_max_concurrent_streams g) (if 0 <? g_h2_max_pending_per_conn g then Some (g_h2_max_pending_per_conn g) else None)
    (g_h2_max_concurrent_reset_streams g) (g_h2_max_frame_size g) (g_h2_max_requests_per_conn g).

(** ** Ports *)

Inductive bind_req := BindHttp (port : Z) | BindTls (port : Z) | BindH3 (port : Z).

#[export] Instance bind_req_eq_dec : EqDecision bind_req.
Proof. solve_decision. Defined.

(** The ports of [collect_tls_ports_grouped], in the order of the map. *)
Definition tls_ports (sites : list SiteFile) : list Z :=
  foldr insert_port [] (concat (cf_listen_tls <$> filter (λ s, is_Some (cf_tls s)) sites)).

(** Each request is bound in turn; the first that fails ends the start. *)
Fixpoint bind_all (can_bind : list bind_req → bind_req → bool) (done todo : list bind_req) : option (list bind_req) :=
  match todo with
  | [] => Some done
  | b :: todo => if can_bind done b then bind_all can_bind (done ++ [b]) todo else None
  end.

(** The ports that expect a PROXY header. *)
Definition pp_ports {CC} (sites : list (SiteStart CC)) : gset Z :=
  list_to_set (concat ((λ s, cf_listen (ss_file s) ++ cf_listen_tls (ss_file s)) <$> filter (λ s, ss_proxy_protocol s = true) sites)).

(** ** Tasks *)

Inductive task :=
| THealth (site upstream path : list Z) (interval : Z)   (* the pool: its site and its name *)
| TAcme
| TWatchFiles (roots : list (list Z))
| THotReload (path : list Z)
| TAdmin (listen : list Z).

Section startup.
Context `{L : HeaderLib} {R CK CC : Type} (build : list Z → option R) (to_lowercase : list Z → list Z) (canonicalize : list Z → option (list (list Z))).
Context (cache_dir : list Z) (exists_file : list Z → bool) (load_key : list Z → list Z → option CK) (self_signed : list Z → option CK).
Context (open_log : list Z → LogFormat → option Z) (new_cache : CC → Z).
Context (order : gmap (list Z) (SiteInfo (R := R)) → list (list Z)) (max_handlers : TlsConfig → Z).

Notation registry := (VHostInner (R := R)).
Notation site_start := (SiteStart CC).

(** *** Certificates *)

Definition port_resolver (sites : list SiteFile) (port : Z) : option (SniInner (CK := CK)) :=
  build_resolver to_lowercase cache_dir exists_file load_key self_signed (tls_port_sites sites port).

(** The first step: the resolvers, and the ports whose certificates could be
    loaded. *)
Definition tls_step (sites : list SiteFile) (acc : gmap Z (SniInner (CK := CK)) * list Z) (port : Z) : gmap Z (SniInner (CK := CK)) * list Z :=
  match port_resolver sites port with
  | Some r => (<[port := r]> (fst acc), snd acc ++ [port])
  | None => acc
  end.
Definition build_tls (sites : list SiteFile) : gmap Z (SniInner (CK := CK)) * list Z :=
  foldl (tls_step sites) (∅, []) (tls_ports sites).

(** *** Resources *)

Definition site_logger (s : site_start) : option Z :=
  match ss_access_log s with
  | Some path => open_log path (match ss_access_log_format s with Some f => LogFormat_from_str f | None => Combined end)
  | None => None
  end.

Definition inject_step (m : registry) (s : site_start) : registry :=
  inject_site_resources m (order (exact m)) (cf_name (ss_file s)) (site_logger s) (new_cache <$> ss_proxy_cache s) (new_cache <$> ss_fcgi_cache s).
Definition build_registry (sites : list site_start) : registry :=
  foldl inject_step (registry_from_config build to_lowercase canonicalize (vhost_site ∘ ss_file <$> sites)) sites.

Definition any_access_log (sites : list site_start) : bool := existsb (λ s, bool_decide (is_Some (ss_access_log s))) sites.

(** *** Health checks *)

(** The pools a site of the registry holds: those of the configured site of
    its name. *)
Definition holds_pool (sites : list site_start) (i : SiteInfo (R := R)) (upstream : list Z) : bool :=
  existsb (λ s, str_eqb (cf_name (ss_file s)) (si_name i) && existsb (λ u, str_eqb (us_name u) upstream) (ss_upstreams s)) sites.

Definition health_task (sites : list site_start) (m : registry) (s : site_start) (u : UpstreamStart) : option task :=
  match us_health u with
  | Some hc =>
      if negb (hc_enabled hc) || (us_nodes u =? 0)%nat then None
      else match head (omap (vhost_lookup m) (cf_server_name (ss_file s))) with
           | Some i => if holds_pool sites i (us_name u) then Some (THealth (si_name i) (us_name u) (hc_path hc) (hc_interval hc)) else None
           | None => None
           end
  | None => None
  end.
Definition health_tasks (sites : list site_start) (m : registry) : list task :=
  concat ((λ s, omap (health_task sites m s) (ss_upstreams s)) <$> sites).

(** *** The whole *)

Definition acme_tasks (sites : list SiteFile) : list task :=
  if existsb (λ s, match cf_tls s with Some t => tls_acme t | None => false end) sites then [TAcme] else [].

(** The roots that are watched; [visit] is the order of the set. *)
Definition watched_roots (visit : gset (list Z) → list (list Z)) (sites : list SiteFile) : list (list Z) :=
  filter (λ p, exists_file p = true) (visit (list_to_set (omap cf_root sites))).

Record Started := mkStarted {
  st_registry : registry;
  st_resolvers : gmap Z (SniInner (CK := CK));
  st_h3_ports : list Z;
  st_h3_max : Z;
  st_pp_ports : gset Z;
  st_pool_idle : Z;
  st_max_body : Z;
  st_max_connections : Z;
  st_any_access_log : bool;
  st_workers : Z;
  st_ka_timeout : Z;
  st_h2 : H2Settings;
  st_cache_limits : Z * Z;                (* of [init_cache_limits] *)
  st_bound : list bind_req;
  st_tasks : list task;
}.

(** [SweetyServer::run] up to the point where it serves: [None] when a port
    cannot be bound. *)
Definition run (g : GlobalStart) (sites : list site_start) (config_path : option (list Z)) (parallelism : option Z)
    (quic_ok : SiteFile → bool) (can_bind : list bind_req → bind_req → bool) (watcher_ok : bool)
    (visit : gset (list Z) → list (list Z)) : outcome (option Started) :=
  let files := ss_file <$> sites in
  let '(resolvers, tls_bindings) := build_tls files in
  let m := build_registry sites in
  max_body ← max_body_bytes (g_client_max_body_size g);
  let h3 := collect_h3_ports files in
  let binds := (BindHttp <$> collect_http_ports files) ++ (BindTls <$> tls_bindings)
               ++ (BindH3 <$> (fst <$> filter (λ e, quic_ok (snd e) = true) h3)) in
  match bind_all can_bind [] binds with
  | None => Ret None
  | Some bound =>
      let tasks := health_tasks sites m ++ acme_tasks files
                   ++ (if watcher_ok then [TWatchFiles (watched_roots visit files)] else [])
                   ++ (match config_path with Some p => [THotReload p] | None => [] end)
                   ++ (match g_admin_listen g with [] => [] | l => [TAdmin l] end) in
      Ret (Some (mkStarted m resolvers (fst <$> h3) (h3_handlers max_handlers files) (pp_ports sites) (pool_idle (g_worker_connections g))
                   max_body (g_max_connections g) (any_access_log sites) (worker_count parallelism (g_worker_threads g)) (ka_timeout (g_keepalive_timeout g))
                   (h2_settings g) (g_open_file_cache_max g, g_open_file_cache_total_mb g) bound tasks))
  end.

End startup.

(** ** The registry after the start *)

Section registry_theorems.
Context {R CC : Type} (open_log : list Z → LogFormat → option Z) (new_cache : CC → Z).
Context (order : gmap (list Z) (SiteInfo (R := R)) → list (list Z)) (order_spec : ∀ m k, k ∈ order m ↔ is_Some (m !! k)).

Notation registry := (VHostInner (R := R)).
Notation info := (SiteInfo (R := R)).

Implicit Types (m : registry) (i j : info) (g : info → info).

(** A change of every site of a registry. *)
Definition map_sites (g : info → info) (m : registry) : registry := mkVHost (g <$> exact m) (g <$> wildcard m) (g <$> fallback m).

Lemma lookup_map_sites g m host : lookup_inner (map_sites g m) host = g <$> lookup_inner m host.
Proof.
  unfold lookup_inner. cbv zeta. rewrite host_lower. set (h := to_ascii_lowercase host). cbn [map_sites exact wildcard fallback]. rewrite lookup_fmap.
  destruct (exact m !! h); [done|]. cbn [fmap option_fmap option_map]. destruct (find_byte byte_dot h) as [dot|]; [|done].
  rewrite lookup_fmap. by destruct (wildcard m !! _).
Qed.

(** Where a registry holds a site. *)
Definition held (m : registry) (i : info) : Prop :=
  (∃ h, exact m !! h = Some i) ∨ (∃ h, wildcard m !! h = Some i) ∨ fallback m = Some i.
Definition coherent (m : registry) : Prop := ∀ i j, held m i → held m j → si_name i = si_name j → i = j.

Definition give (name : list Z) (l pc fc : option Z) (i : info) : info :=
  if str_eqb (si_name i) name then with_resources l pc fc i else i.

Lemma give_name name l pc fc i : si_name (give name l pc fc i) = si_name i.
Proof. unfold give. by case_match. Qed.

Lemma held_map_sites g m i : held (map_sites g m) i ↔ ∃ j, held m j ∧ i = g j.
Proof.
  unfold held. cbn [map_sites exact wildcard fallback]. split.
  - intros [[h H]|[[h H]|H]]; [rewrite lookup_fmap in H| rewrite lookup_fmap in H|]; apply fmap_Some in H as (j & Hj & ->); naive_solver.
  - intros (j & [[h H]|[[h H]|H]] & ->); [left; exists h|right; left; exists h|right; right]; rewrite ?lookup_fmap, H; done.
Qed.

Lemma coherent_map_sites g m : (∀ i, si_name (g i) = si_name i) → coherent m → coherent (map_sites g m).
Proof.
  intros Hg Hm i j (i' & Hi & ->)%held_map_sites (j' & Hj & ->)%held_map_sites. rewrite !Hg. intros E. by rewrite (Hm i' j').
Qed.

Lemma first_named_held name m i : first_named name (order (exact m)) (exact m) = Some i → held m i ∧ si_name i = name.
Proof.
  unfold first_named. intros [Hin Hn]%find_first_elem. apply str_eqb_eq in Hn. split; [|done].
  apply list_elem_of_omap in Hin as (h & _ & Hh). left. by exists h.
Qed.

(** Injecting is changing the sites of a name, if one has a plain name. *)
Lemma inject_is_give m name l pc fc :
  coherent m →
  inject_site_resources m (order (exact m)) name l pc fc
  = match first_named name (order (exact m)) (exact m) with Some _ => map_sites (give name l pc fc) m | None => m end.
Proof.
  intros Hm. unfold inject_site_resources. destruct (first_named name _ _) as [i|] eqn:E; [|done].
  apply first_named_held in E as [Hi Hn].
  assert (Heq : ∀ j, held m j → (if str_eqb (si_name j) name then with_resources l pc fc i else j) = give name l pc fc j).
  { intros j Hj. unfold give. destruct (str_eqb (si_name j) name) eqn:Ej; [|done]. apply str_eqb_eq in Ej. f_equal.
    apply Hm; [done|done|congruence]. }
  unfold map_sites, replace_named. f_equal.
  - apply map_fmap_ext. intros h j Hj. apply Heq. left. by exists h.
  - apply map_fmap_ext. intros h j Hj. apply Heq. right; left. by exists h.
  - destruct (fallback m) as [f|] eqn:Ef; [|done]. cbn [fmap option_fmap option_map]. rewrite <- (Heq f) by (right; by right). by case_match.
Qed.

Lemma first_named_some m name :
  (∃ h i, exact m !! h = Some i ∧ si_name i = name) ↔ is_Some (first_named name (order (exact m)) (exact m)).
Proof using order_spec.
  split.
  - intros (h & i & Hh & Hn). destruct (first_named name _ _) eqn:E; [by eexists|]. exfalso. unfold first_named in E.
    rewrite find_first_None in E. assert (Hin : i ∈ omap (exact m !!.) (order (exact m))).
    { apply list_elem_of_omap. exists h. split; [|done]. apply order_spec. by exists i. }
    pose proof (proj1 (Forall_forall _ _) E i Hin) as Ei. cbn in Ei. by rewrite Hn, str_eqb_refl in Ei.
  - intros [i Hi]. unfold first_named in Hi. apply find_first_elem in Hi as [Hin Hn]. apply list_elem_of_omap in Hin as (h & _ & Hh).
    exists h, i. split; [done|]. by apply str_eqb_eq.
Qed.

Notation inject := (inject_step open_log new_cache order).

(** The resources of a site, and whether the registry lists it by a plain
    name. *)
Definition with_site (s : SiteStart CC) (i : info) : info :=
  with_resources (site_logger open_log s) (new_cache <$> ss_proxy_cache s) (new_cache <$> ss_fcgi_cache s) i.
Definition plain_named (m : registry) (name : list Z) : Prop := ∃ h i, exact m !! h = Some i ∧ si_name i = name.

Lemma inject_step_cases m s :
  coherent m → coherent (inject m s) ∧ (∀ n, plain_named (inject m s) n ↔ plain_named m n)
  ∧ (plain_named m (cf_name (ss_file s)) →
     ∀ host, lookup_inner (inject m s) host = (λ i, if str_eqb (si_name i) (cf_name (ss_file s)) then with_site s i else i) <$> lookup_inner m host)
  ∧ (¬ plain_named m (cf_name (ss_file s)) → inject m s = m).
Proof using order_spec.
  intros Hm. unfold inject_step. rewrite inject_is_give by done. unfold plain_named. rewrite first_named_some.
  set (g := give _ _ _ _). destruct (first_named _ _ _) as [i|] eqn:E.
  - split_and!; [apply coherent_map_sites; [apply give_name|done]| | |].
    + intros n. cbn [map_sites exact]. split.
      * intros (h & j & Hj & Hn). rewrite lookup_fmap in Hj. apply fmap_Some in Hj as (k & Hk & ->). exists h, k. split; [done|]. rewrite <- Hn. symmetry. apply give_name.
      * intros (h & j & Hj & Hn). exists h, (g j). rewrite lookup_fmap, Hj. split; [done|]. by rewrite <- Hn; apply give_name.
    + intros _ host. apply lookup_map_sites.
    + intros []. by eexists.
  - split_and!; [done|done|by intros [? ?]|done].
Qed.

Lemma inject_all_lookup ss m host :
  coherent m → NoDup (cf_name ∘ ss_file <$> ss) →
  (∀ s i, s ∈ ss → lookup_inner m host = Some i → si_name i = cf_name (ss_file s) → plain_named m (si_name i) →
     lookup_inner (foldl inject m ss) host = Some (with_site s i))
  ∧ (∀ i, lookup_inner m host = Some i → (∀ s, s ∈ ss → si_name i = cf_name (ss_file s) → ¬ plain_named m (si_name i)) →
     lookup_inner (foldl inject m ss) host = Some i).
Proof using order_spec.
  revert m. induction ss as [|s ss IH]; intros m Hm Hnd; cbn [foldl fmap list_fmap] in *; [split; [by intros s i ?%elem_of_nil|done]|].
  apply NoDup_cons in Hnd as [Hs Hnd]. destruct (inject_step_cases m s Hm) as (Hm' & Hplain & Hyes & Hno).
  destruct (IH (inject m s) Hm' Hnd) as [IH1 IH2].
  assert (Hlook : ∀ i, lookup_inner m host = Some i → si_name i ≠ cf_name (ss_file s) ∨ ¬ plain_named m (cf_name (ss_file s)) →
    lookup_inner (inject m s) host = Some i).
  { intros i Hi Hor. destruct (first_named (cf_name (ss_file s)) (order (exact m)) (exact m)) as [x|] eqn:E.
    - assert (Hp : plain_named m (cf_name (ss_file s))) by (apply first_named_some; by exists x).
      rewrite (Hyes Hp), Hi. cbn [fmap option_fmap option_map]. destruct Hor as [Hne|?]; [|done].
      destruct (str_eqb _ _) eqn:Eb; [by apply str_eqb_eq in Eb|done].
    - rewrite Hno; [done|]. intros [x Hx]%first_named_some. congruence. }
  split.
  - intros s' i [->|Hs']%elem_of_cons Hi Hn Hp.
    + apply IH2; [|intros t Ht Hnt; exfalso; apply Hs, list_elem_of_fmap; exists t; split; [|done]; cbn in *; congruence].
      rewrite Hn in Hp. rewrite (Hyes Hp), Hi. cbn [fmap option_fmap option_map]. by rewrite Hn, str_eqb_refl.
    + apply IH1; [done| |done|by apply Hplain]. apply Hlook; [done|]. left. rewrite Hn. intros E. apply Hs, list_elem_of_fmap. by exists s'.
  - intros i Hi Hall. apply IH2.
    + apply Hlook; [done|]. destruct (decide (si_name i = cf_name (ss_file s))) as [E|E]; [|by left]. right. rewrite <- E.
      apply (Hall s); [by left|done].
    + intros t Ht Hn Hp. apply (Hall t); [by right|done|]. by apply Hplain.
Qed.

Context `{L : HeaderLib} (build : list Z → option R) (to_lowercase : list Z → list Z) (canonicalize : list Z → option (list (list Z))).

Notation fresh := (registry_from_config build to_lowercase canonicalize).
Notation from_config := (site_from_config build canonicalize).

Lemma held_fresh cs i : NoDup (sc_name <$> cs) → held (fresh cs) i → ∃ c, c ∈ cs ∧ i = from_config c.
Proof.
  intros Hnd. assert (Hl : ∀ p, from_config <$> last_with p cs = Some i → ∃ c, c ∈ cs ∧ i = from_config c).
  { intros p (c & Hc & ->)%fmap_Some. apply last_with_elem in Hc as [Hc _]. by exists c. }
  intros [[h H]|[[h H]|H]].
  - rewrite (proj1 (registry_tables build to_lowercase canonicalize cs h Hnd)) in H. by apply Hl in H.
  - rewrite (proj1 (proj2 (registry_tables build to_lowercase canonicalize cs h Hnd))) in H. by apply Hl in H.
  - rewrite (proj2 (proj2 (registry_tables build to_lowercase canonicalize cs [] Hnd))) in H. by apply Hl in H.
Qed.

Lemma name_inj (cs : list SiteConfig) (a b : SiteConfig) : NoDup (sc_name <$> cs) → a ∈ cs → b ∈ cs → sc_name a = sc_name b → a = b.
Proof.
  intros Hnd [i Hi]%list_elem_of_lookup [j Hj]%list_elem_of_lookup E.
  assert (i = j) as <-; [|congruence]. eapply (NoDup_lookup _ i j (sc_name a)); [exact Hnd|by rewrite list_lookup_fmap, Hi|rewrite list_lookup_fmap, Hj; cbn; by rewrite E].
Qed.

Lemma coherent_fresh cs : NoDup (sc_name <$> cs) → coherent (fresh cs).
Proof.
  intros Hnd i j Hi Hj E. apply (held_fresh cs) in Hi as (c & Hc & ->); [|done]. apply (held_fresh cs) in Hj as (d & Hd & ->); [|done].
  by rewrite (name_inj cs c d).
Qed.

Lemma plain_fresh cs c : conflict_free to_lowercase cs → c ∈ cs → plain_named (fresh cs) (sc_name c) ↔ exact_names to_lowercase c ≠ [].
Proof.
  intros (Hnd & Hex & _) Hc. split.
  - intros (h & i & Hh & Hn). rewrite (proj1 (registry_tables build to_lowercase canonicalize cs h Hnd)) in Hh.
    apply fmap_Some in Hh as (d & Hd & ->). apply last_with_elem in Hd as [Hd Hin]. apply bool_decide_eq_true in Hin.
    assert (d = c) as -> by (by apply (name_inj cs)). intros E. rewrite E in Hin. by apply elem_of_nil in Hin.
  - destruct (exact_names to_lowercase c) as [|h hs] eqn:E; [done|]. intros _. exists h, (from_config c). split; [|done].
    rewrite (proj1 (registry_tables build to_lowercase canonicalize cs h Hnd)).
    rewrite (last_with_unique (λ s, bool_decide (h ∈ exact_names to_lowercase s)) cs c); [done|done| |].
    + apply bool_decide_eq_true. rewrite E. by left.
    + intros d Hd Hin. apply bool_decide_eq_true in Hin. apply (Hex d c h); [done|done|done|]. rewrite E. by left.
Qed.

Notation registry_of := (build_registry build to_lowercase canonicalize open_log new_cache order).
Notation vhosts sites := (vhost_site ∘ ss_file <$> sites).

Lemma vhost_names (sites : list (SiteStart CC)) : sc_name <$> vhosts sites = cf_name ∘ ss_file <$> sites.
Proof. rewrite <- list_fmap_compose. done. Qed.

(** What is attached to the sites does not make a host known. *)
Lemma started_lookup_none sites host :
  conflict_free to_lowercase (vhosts sites) → spec_lookup to_lowercase (vhosts sites) host = None →
  lookup_inner (registry_of sites) host = None.
Proof.
  intros (Hnd & _) Hspec. unfold build_registry.
  assert (Hl : lookup_inner (fresh (vhosts sites)) host = None)
    by (by rewrite (registry_lookup_spec build to_lowercase canonicalize), Hspec).
  revert Hl. generalize (fresh (vhosts sites)). clear Hnd Hspec. induction sites as [|s sites IH]; intros m Hm; [done|].
  cbn [foldl]. apply IH. unfold inject_step, inject_site_resources. destruct (first_named _ _ _) as [i|]; [|done]. cbv zeta.
  set (g := λ j : SiteInfo (R := R), if str_eqb (si_name j) (cf_name (ss_file s)) then with_resources (site_logger open_log s)
    (new_cache <$> ss_proxy_cache s) (new_cache <$> ss_fcgi_cache s) i else j).
  transitivity (lookup_inner (map_sites g m) host); [|by rewrite lookup_map_sites, Hm]. f_equal. unfold map_sites, replace_named. f_equal.
  destruct (fallback m) as [f|]; [|done]. cbn. unfold g. by destruct (str_eqb _ _).
Qed.

Lemma started_registry_lookup sites s host :
  conflict_free to_lowercase (vhosts sites) → s ∈ sites →
  spec_lookup to_lowercase (vhosts sites) host = Some (vhost_site (ss_file s)) →
  lookup_inner (registry_of sites) host
  = Some (if bool_decide (exact_names to_lowercase (vhost_site (ss_file s)) = [])
          then from_config (vhost_site (ss_file s)) else with_site s (from_config (vhost_site (ss_file s)))).
Proof using order_spec.
  intros Hcf Hs Hspec. pose proof Hcf as (Hnd & _). unfold build_registry.
  assert (Hc : vhost_site (ss_file s) ∈ vhosts sites) by (apply list_elem_of_fmap; by exists s).
  assert (Hl : lookup_inner (fresh (vhosts sites)) host = Some (from_config (vhost_site (ss_file s)))).
  { by rewrite (registry_lookup_spec build to_lowercase canonicalize), Hspec. }
  assert (Hnd' : NoDup (cf_name ∘ ss_file <$> sites)) by (by rewrite <- vhost_names).
  destruct (inject_all_lookup sites (fresh (vhosts sites)) host (coherent_fresh _ Hnd) Hnd') as [H1 H2].
  pose proof (plain_fresh (vhosts sites) (vhost_site (ss_file s)) Hcf Hc) as Hp.
  case_bool_decide as E.
  - apply H2; [done|]. intros t Ht _ Hpl. by apply Hp in Hpl.
  - apply (H1 s); [done|done|done|]. by apply Hp.
Qed.

(** Every health check watches its own site.  In a configuration without
    conflicts a task that is started probes a pool of the very site whose
    settings ask for it. *)
Theorem health_checks_own_pools sites t :
  conflict_free to_lowercase (vhosts sites) →
  (∀ s n, s ∈ sites → n ∈ cf_server_name (ss_file s) →
     spec_lookup to_lowercase (vhosts sites) (strip_port n) = Some (vhost_site (ss_file s))) →
  t ∈ health_tasks sites (registry_of sites) →
  ∃ s u hc, s ∈ sites ∧ u ∈ ss_upstreams s ∧ us_health u = Some hc ∧ hc_enabled hc = true
    ∧ t = THealth (cf_name (ss_file s)) (us_name u) (hc_path hc) (hc_interval hc).
Proof using order_spec.
  intros Hcf Hown Ht. unfold health_tasks in Ht. apply list_elem_of_In, in_concat in Ht as (l & Hl & Ht).
  apply list_elem_of_In, list_elem_of_fmap in Hl as (s & -> & Hs). apply list_elem_of_In, list_elem_of_omap in Ht as (u & Hu & Ht).
  unfold health_task in Ht. destruct (us_health u) as [hc|] eqn:Eh; [|done]. destruct (hc_enabled hc) eqn:Ee; [|done]. cbn [negb orb] in Ht.
  destruct (us_nodes u =? 0)%nat; [done|].
  destruct (omap _ (cf_server_name (ss_file s))) as [|i rest] eqn:Eo; [done|]. cbn [head] in Ht.
  destruct (holds_pool sites i (us_name u)); [|done]. injection Ht as <-. exists s, u, hc. split_and!; try done. f_equal.
  assert (Hi : i ∈ omap (vhost_lookup (registry_of sites)) (cf_server_name (ss_file s))) by (rewrite Eo; by left).
  apply list_elem_of_omap in Hi as (n & Hn & Hi). unfold vhost_lookup in Hi.
  rewrite (started_registry_lookup sites s (strip_port n) Hcf Hs (Hown s n Hs Hn)) in Hi. injection Hi as <-. by case_bool_decide.
Qed.

(** A site without a name gets no health check, whatever its settings. *)
Theorem unnamed_site_unchecked (sites : list (SiteStart CC)) m (s : SiteStart CC) :
  cf_server_name (ss_file s) = [] → omap (health_task sites m s) (ss_upstreams s) = [].
Proof.
  intros Hn. induction (ss_upstreams s) as [|u us IH]; [done|]. cbn [omap list_omap].
  assert (health_task sites m s u = None) as ->; [|exact IH]. unfold health_task. rewrite Hn. by repeat case_match.
Qed.

End registry_theorems.

(** ** Ports *)

Lemma insert_port_elem p q l : p ∈ insert_port q l ↔ p = q ∨ p ∈ l.
Proof.
  induction l as [|x l IH]; cbn [insert_port]; [by rewrite list_elem_of_singleton, elem_of_nil; naive_solver|].
  destruct (Z.ltb_spec q x); [by rewrite elem_of_cons|]. destruct (Z.eqb_spec q x) as [->|?]; rewrite !elem_of_cons, ?IH; naive_solver.
Qed.

Lemma insert_port_sorted p l : StronglySorted Z.lt l → StronglySorted Z.lt (insert_port p l).
Proof.
  induction 1 as [|x l Hs IH Hx]; cbn [insert_port]; [repeat constructor|].
  destruct (Z.ltb_spec p x) as [Hp|Hp].
  - constructor; [by constructor|]. constructor; [done|]. eapply Forall_impl; [exact Hx|]. cbn. lia.
  - destruct (Z.eqb_spec p x) as [->|Hne]; [by constructor|]. constructor; [done|]. apply Forall_forall. intros y Hy.
    apply insert_port_elem in Hy as [->|Hy]; [lia|]. by apply (proj1 (Forall_forall _ _) Hx).
Qed.

Lemma ports_of_elem p l : p ∈ foldr insert_port [] l ↔ p ∈ l.
Proof. induction l as [|q l IH]; [done|]. cbn [foldr]. by rewrite insert_port_elem, IH, elem_of_cons. Qed.

Lemma ports_of_nodup l : NoDup (foldr insert_port [] l).
Proof.
  assert (H : StronglySorted Z.lt (foldr insert_port [] l)) by (induction l; [constructor|by apply insert_port_sorted]).
  induction H as [|x l' _ IH Hx]; constructor; [|done]. intros Hin. pose proof (proj1 (Forall_forall _ _) Hx x Hin). cbn in *. lia.
Qed.

Lemma elem_of_concat_fmap {A B} (f : A → list B) (l : list A) y : y ∈ concat (f <$> l) ↔ ∃ x, x ∈ l ∧ y ∈ f x.
Proof.
  induction l as [|x l IH]; cbn [fmap list_fmap concat]; [split; [by intros ?%elem_of_nil|by intros (x & ?%elem_of_nil & _)]|].
  rewrite elem_of_app, IH. setoid_rewrite elem_of_cons. naive_solver.
Qed.

Lemma h3_step_nodup acc sp : NoDup (fst <$> acc) → NoDup (fst <$> h3_step acc sp).
Proof.
  intros Hn. unfold h3_step. destruct (existsb _ acc) eqn:E; [done|]. rewrite fmap_app. apply NoDup_app. split_and!; [done| |apply NoDup_singleton].
  intros p Hp ->%list_elem_of_singleton. apply list_elem_of_fmap in Hp as (e & Hp & He). apply not_true_iff_false in E. apply E, existsb_exists.
  exists e. split; [by apply list_elem_of_In|]. by apply Z.eqb_eq.
Qed.

Lemma collect_h3_nodup sites : NoDup (fst <$> collect_h3_ports sites).
Proof.
  unfold collect_h3_ports. generalize (concat ((λ s, match cf_tls s with Some t => if existsb (str_eqb (lit "h3")) (tls_protocols t) then (s,.) <$> cf_listen_tls s else [] | None => [] end) <$> sites)).
  intros l. assert (H : ∀ acc, NoDup (fst <$> acc) → NoDup (fst <$> foldl h3_step acc l)); [|apply H; constructor].
  induction l as [|sp l IH]; intros acc Hacc; [done|]. cbn [foldl]. by apply IH, h3_step_nodup.
Qed.

(** The site whose settings an HTTP/3 port gets: the first one with HTTP/3 that lists the port. *)
Definition speaks_h3 (s : SiteFile) : bool :=
  match cf_tls s with Some t => existsb (str_eqb (lit "h3")) (tls_protocols t) | None => false end.
Definition h3_site (sites : list SiteFile) (p : Z) : option SiteFile :=
  find_first (λ s, speaks_h3 s && bool_decide (p ∈ cf_listen_tls s)) sites.

Lemma h3_fold l acc p s :
  (p, s) ∈ foldl h3_step acc l ↔ (p, s) ∈ acc ∨ p ∉ fst <$> acc ∧ find_first (λ e, snd e =? p) l = Some (s, p).
Proof.
  revert acc. induction l as [|[s' q] l IH]; intros acc; cbn [foldl find_first fst snd]; [naive_solver|].
  rewrite IH. unfold h3_step. cbn [fst snd].
  assert (Hex : existsb (λ e : Z * SiteFile, fst e =? q) acc = true ↔ q ∈ fst <$> acc).
  { rewrite existsb_exists, list_elem_of_fmap. setoid_rewrite list_elem_of_In. setoid_rewrite Z.eqb_eq. naive_solver. }
  destruct (existsb _ acc) eqn:E; [apply proj1 in Hex; specialize (Hex eq_refl)|].
  - destruct (Z.eqb_spec q p) as [->|Hne]; naive_solver.
  - assert (Hq : q ∉ fst <$> acc) by (intros H; apply Hex in H; discriminate H). clear Hex E.
    rewrite fmap_app, elem_of_app, not_elem_of_app. cbn [fmap list_fmap fst]. rewrite !list_elem_of_singleton.
    destruct (Z.eqb_spec q p) as [->|Hne]; naive_solver.
Qed.

Lemma collect_h3_spec sites p s : (p, s) ∈ collect_h3_ports sites ↔ h3_site sites p = Some s.
Proof.
  unfold collect_h3_ports. rewrite h3_fold. cbn [fmap list_fmap]. rewrite elem_of_nil.
  assert (E : find_first (λ e, snd e =? p) (concat ((λ s, match cf_tls s with
      | Some t => if existsb (str_eqb (lit "h3")) (tls_protocols t) then (s,.) <$> cf_listen_tls s else [] | None => [] end) <$> sites))
    = (λ s, (s, p)) <$> h3_site sites p).
  { unfold h3_site. induction sites as [|x sites IH]; [done|]. cbn [fmap list_fmap concat find_first]. rewrite find_first_app, IH.
    assert (Hx : speaks_h3 x = match cf_tls x with Some t => existsb (str_eqb (lit "h3")) (tls_protocols t) | None => false end) by done.
    destruct (cf_tls x) as [t|]; [|by rewrite Hx]. rewrite Hx. destruct (existsb _ (tls_protocols t)); [|done]. cbn [andb].
    assert (Hp : find_first (λ e : SiteFile * Z, snd e =? p) ((x,.) <$> cf_listen_tls x)
                 = if bool_decide (p ∈ cf_listen_tls x) then Some (x, p) else None).
    { induction (cf_listen_tls x) as [|q l IHl]; [done|]. cbn [fmap list_fmap find_first snd].
      destruct (Z.eqb_spec q p) as [->|Hne]; [by rewrite bool_decide_true by (by left)|]. rewrite IHl.
      rewrite (bool_decide_ext (p ∈ q :: l) (p ∈ l)); [done|]. rewrite elem_of_cons. naive_solver. }
    rewrite Hp. by case_bool_decide. }
  rewrite E. destruct (h3_site sites p); cbn; split; [intros [?|[_ [= ->]]]; done| |intros [?|[_ ?]]; done|done].
  intros [= ->]. right. split; [apply not_elem_of_nil|done].
Qed.

Lemma bind_all_some can_bind done todo bound : bind_all can_bind done todo = Some bound → bound = done ++ todo.
Proof.
  revert done. induction todo as [|b todo IH]; intros done; cbn [bind_all]; [by intros [= <-]; rewrite app_nil_r|].
  case_match; [|done]. intros ->%IH. by rewrite <- app_assoc.
Qed.

Section start_theorems.
Context `{L : HeaderLib} {R CK CC : Type} (build : list Z → option R) (to_lowercase : list Z → list Z) (canonicalize : list Z → option (list (list Z))).
Context (cache_dir : list Z) (exists_file : list Z → bool) (load_key : list Z → list Z → option CK) (self_signed : list Z → option CK).
Context (open_log : list Z → LogFormat → option Z) (new_cache : CC → Z).
Context (order : gmap (list Z) (SiteInfo (R := R)) → list (list Z)) (order_spec : ∀ m k, k ∈ order m ↔ is_Some (m !! k)).
Context (max_handlers : TlsConfig → Z).

Notation resolver_of := (port_resolver to_lowercase cache_dir exists_file load_key self_signed).
Notation build_all := (build_tls to_lowercase cache_dir exists_file load_key self_signed).
Notation start := (run build to_lowercase canonicalize cache_dir exists_file load_key self_signed open_log new_cache order max_handlers).

Lemma tls_fold sites ports acc :
  let r := foldl (tls_step to_lowercase cache_dir exists_file load_key self_signed sites) acc ports in
  snd r = snd acc ++ filter (λ p, is_Some (resolver_of sites p)) ports
  ∧ ∀ p, fst r !! p = if bool_decide (p ∈ ports) then match resolver_of sites p with Some x => Some x | None => fst acc !! p end else fst acc !! p.
Proof.
  cbv zeta. revert acc. induction ports as [|q ports IH]; intros acc; cbn [foldl].
  { rewrite filter_nil, app_nil_r. split; [done|]. intros p. by rewrite bool_decide_eq_false_2 by (apply not_elem_of_nil). }
  destruct (IH (tls_step to_lowercase cache_dir exists_file load_key self_signed sites acc q)) as [-> H2]. rewrite filter_cons. unfold tls_step in *.
  destruct (resolver_of sites q) as [x|] eqn:E; cbn [fst snd] in *.
  - rewrite decide_True by (by eexists). split; [by rewrite <- app_assoc|]. intros p. rewrite H2. destruct (decide (q = p)) as [->|Hne].
    + rewrite lookup_insert_eq, E, (bool_decide_eq_true_2 (p ∈ p :: ports)) by (by left). by case_bool_decide.
    + rewrite lookup_insert_ne by done. erewrite (bool_decide_ext (p ∈ q :: ports)); [reflexivity|]. rewrite elem_of_cons. naive_solver.
  - rewrite decide_False by (by intros [? ?]). split; [done|]. intros p. rewrite H2. destruct (decide (q = p)) as [->|Hne].
    + rewrite E. by repeat case_bool_decide.
    + erewrite (bool_decide_ext (p ∈ q :: ports)); [reflexivity|]. rewrite elem_of_cons. naive_solver.
Qed.

Lemma build_tls_exact sites :
  snd (build_all sites) = filter (λ p, is_Some (resolver_of sites p)) (tls_ports sites)
  ∧ ∀ p, fst (build_all sites) !! p = if bool_decide (p ∈ tls_ports sites) then resolver_of sites p else None.
Proof.
  destruct (tls_fold sites (tls_ports sites) (∅, [])) as [H1 H2]. split; [exact H1|]. intros p. unfold build_tls. rewrite H2. cbn [fst].
  rewrite lookup_empty. case_bool_decide; [|done]. by destruct (resolver_of sites p).
Qed.

Lemma bound_nodup files quic :
  NoDup ((BindHttp <$> collect_http_ports files) ++ (BindTls <$> snd (build_all files))
         ++ (BindH3 <$> (fst <$> filter (λ e, quic (snd e) = true) (collect_h3_ports files)))).
Proof.
  assert (Hinj : ∀ (f : Z → bind_req) l, (∀ x y, f x = f y → x = y) → NoDup l → NoDup (f <$> l)) by (intros f l Hf Hl; by apply NoDup_fmap_2_strong; [intros; by apply Hf|]).
  apply NoDup_app. split_and!.
  - apply Hinj; [by intros x y [=]|]. apply ports_of_nodup.
  - intros b (p & -> & _)%list_elem_of_fmap [(q & E & _)%list_elem_of_fmap|(q & E & _)%list_elem_of_fmap]%elem_of_app; discriminate E.
  - apply NoDup_app. split_and!.
    + apply Hinj; [by intros x y [=]|]. rewrite (proj1 (build_tls_exact files)). apply NoDup_filter, ports_of_nodup.
    + intros b (p & -> & _)%list_elem_of_fmap (q & E & _)%list_elem_of_fmap. discriminate E.
    + apply Hinj; [by intros x y [=]|]. eapply sublist_NoDup; [apply (collect_h3_nodup files)|]. apply fmap_sublist, sublist_filter.
Qed.

(** C7: Starting puts the configuration into force.  When the server starts with a
    configuration without conflicts (distinct site names, no host, wildcard or
    fallback claimed twice), every host is answered by the site the
    configuration gives it, with that site's access log and caches if the site
    has a plain name and without them if all its names are wildcards, and a
    host the configuration gives no site has none.  Every TLS port has the
    resolver of its sites if one of their certificates could be loaded, and
    exactly the ports with a resolver are bound for TLS; the plain ports of all
    sites are bound, and no others; the HTTP/3 ports bound are those that a
    site with HTTP/3 lists, if the settings of the first such site give a QUIC
    configuration; and no port is bound twice for the same protocol. *)
Theorem start_serves_configuration g sites path par quic can_bind watch visit st :
  start g sites path par quic can_bind watch visit = Ret (Some st) →
  conflict_free to_lowercase (vhost_site ∘ ss_file <$> sites) →
  (∀ s host, s ∈ sites → spec_lookup to_lowercase (vhost_site ∘ ss_file <$> sites) host = Some (vhost_site (ss_file s)) →
     let info := site_from_config build canonicalize (vhost_site (ss_file s)) in
     lookup_inner (st_registry st) host
     = Some (if bool_decide (exact_names to_lowercase (vhost_site (ss_file s)) = []) then info else with_site open_log new_cache s info))
  ∧ (∀ host, spec_lookup to_lowercase (vhost_site ∘ ss_file <$> sites) host = None → lookup_inner (st_registry st) host = None)
  ∧ (∀ p, st_resolvers st !! p = if bool_decide (p ∈ tls_ports (ss_file <$> sites)) then resolver_of (ss_file <$> sites) p else None)
  ∧ (∀ p, BindTls p ∈ st_bound st ↔ is_Some (st_resolvers st !! p))
  ∧ (∀ p, BindHttp p ∈ st_bound st ↔ ∃ s, s ∈ sites ∧ p ∈ cf_listen (ss_file s))
  ∧ (∀ p, BindH3 p ∈ st_bound st ↔ ∃ s, h3_site (ss_file <$> sites) p = Some s ∧ quic s = true)
  ∧ NoDup (st_bound st).
Proof using order_spec.
  unfold run. destruct (build_all (ss_file <$> sites)) as [rs tls] eqn:Et. pose proof (build_tls_exact (ss_file <$> sites)) as [Htls Hrs].
  pose proof (bound_nodup (ss_file <$> sites) quic) as Hnd. rewrite Et in Htls, Hrs, Hnd. cbn [fst snd] in *.
  destruct (max_body_bytes _) as [mb|]; [|done]. cbn [mbind outcome_bind].
  destruct (bind_all can_bind [] _) as [bound|] eqn:Eb; [|done]. apply bind_all_some in Eb. cbn [Datatypes.app] in Eb.
  intros [= <-] Hcf. cbn [st_registry st_resolvers st_bound]. split_and!.
  - intros s host Hs Hspec. by apply (started_registry_lookup open_log new_cache order order_spec build to_lowercase canonicalize sites s host).
  - intros host Hspec. by apply (started_lookup_none open_log new_cache order build to_lowercase canonicalize).
  - exact Hrs.
  - intros p. rewrite Hrs, Eb, Htls, !elem_of_app. split.
    + intros [(q & E & _)%list_elem_of_fmap|[(q & E & Hq)%list_elem_of_fmap|(q & E & _)%list_elem_of_fmap]]; [discriminate E| |discriminate E].
      injection E as ->. apply list_elem_of_filter in Hq as [H1 H2]. by rewrite bool_decide_eq_true_2.
    + case_bool_decide as Hp; [|by intros [? ?]]. intros Hr. right; left. apply list_elem_of_fmap. exists p. split; [done|]. by apply list_elem_of_filter.
  - intros p. rewrite Eb, !elem_of_app. split.
    + intros [(q & E & Hq)%list_elem_of_fmap|[(q & E & _)%list_elem_of_fmap|(q & E & _)%list_elem_of_fmap]]; [|discriminate E|discriminate E].
      injection E as ->. unfold collect_http_ports in Hq. apply ports_of_elem, elem_of_concat_fmap in Hq as (f & Hf & Hq).
      apply list_elem_of_fmap in Hf as (s & -> & Hs). by exists s.
    + intros (s & Hs & Hp). left. apply list_elem_of_fmap. exists p. split; [done|]. unfold collect_http_ports.
      apply ports_of_elem, elem_of_concat_fmap. exists (ss_file s). split; [apply list_elem_of_fmap; by exists s|done].
  - intros p. rewrite Eb, !elem_of_app. setoid_rewrite <- collect_h3_spec. split.
    + intros [(q & E & _)%list_elem_of_fmap|[(q & E & _)%list_elem_of_fmap|(q & E & Hq)%list_elem_of_fmap]]; [discriminate E|discriminate E|].
      injection E as ->. apply list_elem_of_fmap in Hq as ([q' s] & -> & [Hq Hin]%list_elem_of_filter). by exists s.
    + intros (s & Hin & Hq). right; right. apply list_elem_of_fmap. exists p. split; [done|].
      apply list_elem_of_fmap. exists (p, s). split; [done|]. by apply list_elem_of_filter.
  - by rewrite Eb.
Qed.

End start_theorems.

(** A limit of 2^44 megabytes or more ends the start: the product overflows. *)
Theorem body_limit_overflow mb : 2 ^ 44 ≤ mb → max_body_bytes mb = Panic.
Proof.
  intros H. unfold max_body_bytes. cbv zeta. destruct (Z.leb_spec (mb * 1024) u64_max) as [H1|H1]; [|done].
  destruct (Z.leb_spec (mb * 1024 * 1024) u64_max) as [H2|H2]; [|done]. unfold u64_max in *. lia.
Qed.

Module StartWitness.
Import Headers.Model HotReload.Witness.

Definition checked (name : string) : UpstreamStart := mkUpStart (lit name) (Some (mkHealth true (lit "/up") 5)) 1.
Definition start_site (f : SiteFile) : SiteStart Z := mkSiteStart f (Some (lit "/log")) None (Some 5) None true [checked "app"].
Definition sites : list (SiteStart Z) := start_site <$> old.
Definition keys_in (m : gmap (list Z) (SiteInfo (R := unit))) : list (list Z) := fst <$> map_to_list m.

Lemma keys_in_spec m k : k ∈ keys_in m ↔ is_Some (m !! k).
Proof.
  unfold keys_in. rewrite list_elem_of_fmap. split.
  - intros ([h i] & -> & H%elem_of_map_to_list). by exists i.
  - intros [i Hi]. exists (k, i). split; [done|]. by apply elem_of_map_to_list.
Qed.

Definition log (path : list Z) (f : LogFormat) : option Z := Some 1.
Definition starting : outcome (option (Started (R := unit) (CK := list Z))) :=
  run bld to_ascii_lowercase canon (lit "/c") (λ _, true) (λ c k, Some c) (λ _, None) log id keys_in (λ _, 0)
    (mkGlobal 0 51200 0 60 50 1000 64 128 0 200 65535 1000 (lit "127.0.0.1:9000")) sites (Some (lit "c.toml")) None (λ _, true) (λ _ _, true) true elements.

Lemma sites_conflict_free : conflict_free to_ascii_lowercase (vhost_site ∘ ss_file <$> sites).
Proof. exact old_conflict_free. Qed.

Lemma start_serves_configuration_witness :
  ∃ st, starting = Ret (Some st) ∧ (∀ p, BindHttp p ∈ st_bound st ↔ ∃ s, s ∈ sites ∧ p ∈ cf_listen (ss_file s)) ∧ NoDup (st_bound st)
    ∧ ∃ i, lookup_inner (st_registry st) (lit "b.test") = Some i ∧ si_access_logger i = Some 1.
Proof.
  destruct starting as [[st|]|] eqn:E; [|discriminate E|discriminate E].
  exists st. split; [reflexivity|]. unfold starting in E.
  destruct (start_serves_configuration bld to_ascii_lowercase canon (lit "/c") (λ _, true) (λ c k, Some c) (λ _, None) log id keys_in keys_in_spec (λ _, 0)
    _ sites _ _ _ _ _ _ st E sites_conflict_free) as (H1 & _ & _ & _ & H4 & _ & H5).
  split; [exact H4|]. split; [exact H5|]. eexists. split.
  - apply (H1 (start_site (Witness.site "b" ["b.test"]%string)) (lit "b.test")); [right; by left|reflexivity].
  - reflexivity.
Defined.

Lemma health_checks_own_pools_witness :
  ∃ s, s ∈ sites ∧ THealth (lit "b") (lit "app") (lit "/up") 5 = THealth (cf_name (ss_file s)) (lit "app") (lit "/up") 5.
Proof.
  destruct (health_checks_own_pools log id keys_in keys_in_spec bld to_ascii_lowercase canon sites (THealth (lit "b") (lit "app") (lit "/up") 5)
    sites_conflict_free) as (s & u & hc & Hs & Hu & Hh & _ & Ht).
  - intros s n Hs Hn. apply list_elem_of_fmap in Hs as (f & -> & Hf). cbn [ss_file start_site] in *. unfold old in Hf.
    apply elem_of_cons in Hf as [->|Hf]; [|apply list_elem_of_singleton in Hf as ->]; apply list_elem_of_singleton in Hn as ->; reflexivity.
  - assert (H : health_tasks sites (build_registry bld to_ascii_lowercase canon log id keys_in sites)
      = [THealth (lit "a") (lit "app") (lit "/up") 5; THealth (lit "b") (lit "app") (lit "/up") 5]) by (by vm_compute).
    rewrite H. right. by left.
  - exists s. split; [done|]. injection Ht as E1 E2 E3 E4. by rewrite <- E1.
Defined.

Lemma unnamed_site_unchecked_witness :
  omap (health_task (R := unit) sites vhost_empty (start_site (Witness.site "d" []))) [checked "app"] = ([] : list task).
Proof. apply (unnamed_site_unchecked (R := unit) sites vhost_empty (start_site (Witness.site "d" []))). reflexivity. Defined.

Lemma body_limit_overflow_witness : max_body_bytes (2 ^ 44) = Panic.
Proof. apply (body_limit_overflow (2 ^ 44)). lia. Defined.

End StartWitness.
