(* ===== verification/ProxyEntry.v ===== *)
(** * The reverse proxy as a whole: [handle_sweety] of [src/handler/reverse_proxy/mod.rs]

    From the configured upstream to the final response: early refusals, the
    choice of a node, the response cache, the three ways to forward (WebSocket,
    HTTP/2, HTTP/1.1 with its attempts), and what is done to the response.  It
    composes the functions of the other files; the network is given by its
    answers, and what a response adds to the cache is a later step, as in the
    code, where a task of its own does it. *)

From S2P Require Import Prelude RustStr Retry Headers CircuitBreaker LoadBalance F32 Compress ErrorPage ProxyResponse Http1 Streaming ProxyCache Forward ProxyHandler WsProxy H2Upstream.

(** ** Requests, locations and replies *)

(** Header names are in lower case, as the header map keeps them; values are bytes. *)
Record ProxyRequest := mkProxyReq {
  x_method : list Z;
  x_path_and_query : option (list Z);
  x_path : list Z;
  x_authority : option (list Z);
  x_scheme : option (list Z);          (* [uri.scheme_str()] *)
  x_headers : list (list Z * list Z);
  x_is_tls : bool;
  x_is_h2_ws : bool;
  x_client_ip : list Z;
  x_body : list body_item;
}.

(** The settings of the location that the proxy reads. *)
Record ProxyLocation := mkProxyLoc {
  lo_upstream : option (list Z);
  lo_set_headers : list HeaderOverride;
  lo_strip_cookie_secure : bool;
  lo_cookie_domain : option (list Z);
  lo_redirect_from : option (list Z);
  lo_redirect_to : option (list Z);
  lo_add_headers : list HeaderOverride;
  lo_cache_rules : list CacheRule;
  lo_sub_filter : list SubFilter;
  lo_buffering : bool;
  lo_hide_headers : list (list Z);
}.

Inductive reply_body :=
| RBytes (bs : list Z)
| RStream (items : list stream_item)
| RRelay (relay : BiDirStream) (unread : list Z).

Record Reply `{HeaderLib} := mkReply { p_status : Z; p_headers : HeaderMap; p_body : reply_body }.

(** The other end of a WebSocket: whether it could be reached, what it sends,
    and the answer to the client's own handshake. *)
Record ws_peer := mkPeer {
  wp_connected : bool;
  wp_sched : nat → nat;
  wp_data : list Z;
  wp_end : stream_end;
  wp_handshake : option (list (list Z * list Z));
}.

(** What an exchange leaves for the cache. *)
Definition stored : Type := Z * list (list Z * list Z) * list Z.

Section entry.
Context `{L : HeaderLib} {R U : Type} (build : list Z → option R) (replace_all : R → list Z → list Z → list Z)
  (is_match : R → list Z → bool) (encode : coding → Z → reply_body → reply_body) (parse_uri : list Z → option U)
  (default_hash : list Z → Z) (json_write : json_entry → list Z) (json_read : list Z → option json_entry).

(** The answers of the network: per attempt and node for HTTP/1.1. *)
Record Net := mkNet {
  n_idle : nat → nat → option Conn;
  n_connect : nat → nat → nat → result Conn ProxyError;
  n_ready : Z → readiness;
  n_ready' : Z → readiness;
  n_h2_connect : io Z;
  n_exchange : Z → h2_request (U := U) → io h2_answer;
  n_ws : nat → ws_peer;
  n_client : nat → bool;
}.

Record ProxyState := mkProxyState {
  ps_pools : gmap (list Z) UpstreamPool;
  ps_cache : option ProxyCache;
  ps_h2 : gmap (list Z) H2NodePool;
  ps_rules : gmap (list Z) R;          (* [CACHE_RULE_RE_CACHE] *)
}.

Definition set_pool (name : list Z) (p : UpstreamPool) (st : ProxyState) : ProxyState :=
  mkProxyState (<[name := p]> (ps_pools st)) (ps_cache st) (ps_h2 st) (ps_rules st).
Definition set_cache (c : option ProxyCache) (st : ProxyState) : ProxyState :=
  mkProxyState (ps_pools st) c (ps_h2 st) (ps_rules st).

(** ** What the handler reads from the request *)

Definition req_map (q : ProxyRequest) : HeaderMap := foldl (λ m '(k, v), hm_append k v m) hm_empty (x_headers q).
Definition req_header_str (q : ProxyRequest) (name : list Z) : option (list Z) := header_str (req_map q) name.

Definition proxy_path (q : ProxyRequest) : list Z :=
  match x_path_and_query q with
  | Some p => if negb (bool_decide (p = [])) && negb (bool_decide (p = lit "/")) then p else x_path q
  | None => x_path q
  end.

Definition client_host (q : ProxyRequest) : list Z :=
  match x_authority q with Some a => a | None => default [] (req_header_str q (lit "host")) end.

Definition is_ws_h1 (q : ProxyRequest) : bool :=
  negb (x_is_h2_ws q)
  && match req_header_str q (lit "upgrade") with
     | Some v => eq_ignore_ascii_case v (lit "websocket")
     | None => false
     end.
Definition is_ws (q : ProxyRequest) : bool := is_ws_h1 q || x_is_h2_ws q.

Definition proxy_scheme (q : ProxyRequest) : list Z :=
  if x_is_tls q then lit "https" else default (lit "http") (x_scheme q).

Definition proxy_host (q : ProxyRequest) (n : NodeState) : list Z := default (client_host q) (upstream_host n).

(** The headers that go upstream. *)
Definition upstream_headers (loc : ProxyLocation) (q : ProxyRequest) (n : NodeState) : list (list Z * list Z) :=
  proxy_set_headers (x_client_ip q) (proxy_host q n) (proxy_scheme q) (proxy_path q) (lo_set_headers loc)
    (client_headers (is_ws q) ((λ '(k, v), (k, header_visible v)) <$> x_headers q)).

Definition strip_secure (loc : ProxyLocation) (q : ProxyRequest) (n : NodeState) : bool :=
  lo_strip_cookie_secure loc || (tls n && negb (x_is_tls q)).

Definition proxy_key (q : ProxyRequest) : CacheKey := cache_key_new (x_method q) (client_host q) (proxy_path q).

(** [response::proxy_error] *)
Definition proxy_error (status : Z) : Reply :=
  mkReply _ status (hm_insert (lit "content-type") (lit "text/html; charset=utf-8") hm_empty) (RBytes (build_default_html status)).

(** ** The cache *)

(** A hit: the stored headers as they are, then the two markers. *)
Definition replay_header (m : HeaderMap) (kv : list Z * list Z) : HeaderMap :=
  match header_name (fst kv), header_value (snd kv) with
  | Some name, Some val => hm_insert name val m
  | _, _ => m
  end.
Definition hit_reply (e : CacheEntry) : Reply :=
  mkReply _ (status_or_ok (ce_status e))
    (hm_insert (lit "x-cache-status") (lit "HIT") (hm_insert (lit "x-cache") (lit "HIT") (foldl replay_header hm_empty (ce_headers e))))
    (RBytes (ce_body e)).

Definition cache_lookup (now : Z) (q : ProxyRequest) (cache : option ProxyCache) : option CacheEntry * option ProxyCache :=
  match cache with
  | Some c =>
      if should_lookup c (x_method q) (req_map q) then
        let '(e, c) := cache_get default_hash json_read now (proxy_key q) c in (e, Some c)
      else (None, Some c)
  | None => (None, None)
  end.

(** The task that stores a response, with its write to the disk. *)
Definition run_store (now : Z) (order1 order2 : list CacheKey) (key : CacheKey) (s : stored) (c : ProxyCache) : ProxyCache :=
  let '(status, hs, body) := s in
  let '(c, w) := cache_set default_hash json_write now order1 order2 key status hs body c in disk_write w c.

(** ** Forwarding *)

Inductive branch :=
| BReply (r : Reply) (p : UpstreamPool) (h2 : gmap (list Z) H2NodePool) (stores : list stored) (contacts : list nat)
| BHang.

Definition reply_of (f : forwarded) : option Reply :=
  match f with
  | FwOk resp _ => Some (mkReply _ (w_status resp) (w_headers resp) (RBytes (w_body resp)))
  | FwStream s m items => Some (mkReply _ s m (RStream items))
  | _ => None
  end.

(** An attempt that does not come back ends the loop: no retry condition
    matches the status 0. *)
Definition attempt_of (f : forwarded) : attempt_result :=
  match f with
  | FwOk resp _ => AOk (w_status resp)
  | FwStream s _ _ => AOk s
  | FwErr e => AErr e
  | FwBlocked | FwPanic => AOk 0
  end.

Definition store_of (f : forwarded) : option stored := match f with FwOk _ s => s | _ => None end.

Definition h1_req (loc : ProxyLocation) (q : ProxyRequest) (net : Net) (p : UpstreamPool) (n : NodeState) : Req :=
  mkReq (x_method q) (proxy_path q) (proxy_host q n) (upstream_headers loc q n) (x_client_ip q) (proxy_scheme q)
    (strip_secure loc q n) (lo_cookie_domain loc) (lo_redirect_from loc) (lo_redirect_to loc) (write_timeout p)
    (lo_buffering loc) (n_client net).

Definition h1_attempt (loc : ProxyLocation) (q : ProxyRequest) (net : Net) (cache : option ProxyCache) (p : UpstreamPool)
    (n : NodeState) (attempt node : nat) (with_body : bool) : forwarded :=
  snd (fst (forward_request build replace_all (h1_req loc q net p n) (lo_sub_filter loc) cache
              (n_idle net attempt node) (n_connect net attempt node) (if with_body then x_body q else []))).

(** What is unread on the connection that goes back to the pool, if one does. *)
Definition h1_connection (loc : ProxyLocation) (q : ProxyRequest) (net : Net) (cache : option ProxyCache) (p : UpstreamPool)
    (n : NodeState) (attempt node : nat) (with_body : bool) : option (list Z) :=
  snd (forward_request build replace_all (h1_req loc q net p n) (lo_sub_filter loc) cache
         (n_idle net attempt node) (n_connect net attempt node) (if with_body then x_body q else [])).

Definition forward_h1 (clock : nat → Z) (loc : ProxyLocation) (q : ProxyRequest) (net : Net) (cache : option ProxyCache)
    (i : nat) (n : NodeState) (p : UpstreamPool) (h2 : gmap (list Z) H2NodePool) : outcome branch :=
  let att := h1_attempt loc q net cache p n in
  st ← forward_http1 clock (λ a j b, attempt_of (att a j b)) (x_client_ip q) (x_method q) i p;
  let ended := update_node (ls_node st) (active_add (-1)) (ls_pool st) in
  let results := imap (λ a '(j, b), att a j b) (ls_trace st) in
  let finish r := Ret (BReply r ended h2 (omap store_of results) (fst <$> ls_trace st)) in
  match ls_resp st, last results with
  | Some _, Some FwPanic => Panic
  | Some _, Some FwBlocked => Ret BHang
  | Some _, Some f => finish (default (proxy_error 502) (reply_of f))
  | _, _ => finish (proxy_error 502)
  end.

Definition forward_h2 (later : Z) (loc : ProxyLocation) (q : ProxyRequest) (net : Net) (i : nat) (n : NodeState)
    (p : UpstreamPool) (h2 : gmap (list Z) H2NodePool) : outcome branch :=
  let '(hp, h2) := get_or_create (addr n) (tls n) (tls_sni n) (tls_insecure n) 8 (connect_timeout p) h2 in
  let '(f, hp, _) := forward_request_h2 parse_uri header_visible (n_exchange net) (n_ready net) (n_ready' net) (n_h2_connect net)
      (n_client net) (x_method q) (proxy_path q) (proxy_host q n) (upstream_headers loc q n) (x_client_ip q) (proxy_scheme q)
      (x_body q) (strip_secure loc q n) (lo_cookie_domain loc) (lo_redirect_from loc) (lo_redirect_to loc) hp in
  let h2 := <[h2_key (tls n) (addr n) := hp]> h2 in
  let ended p := update_node i (active_add (-1)) p in
  match f with
  | FwPanic => Panic
  | FwBlocked => Ret BHang
  | FwErr _ => p ← node_fails later i p; Ret (BReply (proxy_error 502) (ended p) h2 [] [i])
  | f => Ret (BReply (default (proxy_error 502) (reply_of f)) (ended (update_node i (node_record_success later) p)) h2 [] [i])
  end.

Definition forward_ws (loc : ProxyLocation) (q : ProxyRequest) (net : Net) (i : nat) (n : NodeState)
    (p : UpstreamPool) (h2 : gmap (list Z) H2NodePool) : outcome branch :=
  let w := n_ws net i in
  r ← proxy_websocket (wp_connected w) (wp_sched w) (wp_data w) (wp_end w) BodyStream (x_is_h2_ws q) (wp_handshake w)
        (strip_secure loc q n) (lo_cookie_domain loc) (lo_redirect_from loc) (lo_redirect_to loc);
  match r with
  | Blocked => Ret BHang
  | Failed => Ret (BReply (proxy_error 502) (update_node i (active_add (-1)) p) h2 [] [i])
  | Done resp =>
      Ret (BReply (mkReply _ (wr_status resp) (wr_headers resp)
                     (match wr_relay resp with Some (b, rest) => RRelay b rest | None => RBytes [] end))
             (update_node i (active_add (-1)) p) h2 [] [i])
  end.

(** ** The response *)

Definition mark_miss (cached : bool) (m : HeaderMap) : HeaderMap :=
  if cached then hm_insert (lit "x-cache") (lit "MISS") m else m.

Definition finish_reply (loc : ProxyLocation) (q : ProxyRequest) (ef : effective) (cached : bool) (r : Reply)
    (rules : gmap (list Z) R) : Reply * gmap (list Z) R :=
  let m := proxy_hide_headers (lo_hide_headers loc) (mark_miss cached (p_headers r)) in
  let '(m, rules) := apply_extra_headers build is_match (p_status r) (lo_add_headers loc) (lo_cache_rules loc)
                       (proxy_path q) (x_client_ip q) (proxy_scheme q) m rules in
  let '(m, b) := compress_response encode m (p_body r) (req_header_str q (lit "accept-encoding")) ef in
  (mkReply _ (p_status r) m b, rules).

(** ** [handle_sweety] *)

Inductive proxied :=
| Replied (r : Reply) (st : ProxyState) (stores : list stored) (contacts : list nat)
| Hangs.

Definition is_tunnel (q : ProxyRequest) : bool :=
  eq_ignore_ascii_case (x_method q) (lit "CONNECT") && negb (x_is_h2_ws q).

Definition handle_sweety (now cnow later : Z) (clock : nat → Z) (loc : ProxyLocation) (ef : effective) (net : Net)
    (q : ProxyRequest) (st : ProxyState) : outcome proxied :=
  match lo_upstream loc with
  | None => Ret (Replied (proxy_error 500) st [] [])
  | Some name =>
      match ps_pools st !! name with
      | None => Ret (Replied (proxy_error 500) st [] [])
      | Some p =>
          if is_tunnel q then Ret (Replied (proxy_error 400) st [] [])
          else
            '(r, p) ← pick now (Some (x_client_ip q)) p;
            let st := set_pool name p st in
            match r ≫= λ i, (λ n, (i, n)) <$> nodes p !! i with
            | None => Ret (Replied (proxy_error 502) st [] [])
            | Some (i, n) =>
                let '(hit, cache) := cache_lookup cnow q (ps_cache st) in
                let st := set_cache cache st in
                match hit with
                | Some e => Ret (Replied (hit_reply e) st [] [])
                | None =>
                    let p := update_node i (active_add 1) p in
                    b ← (if is_ws q then forward_ws loc q net i n p (ps_h2 st)
                         else if http2 n then forward_h2 later loc q net i n p (ps_h2 st)
                         else forward_h1 clock loc q net cache i n p (ps_h2 st));
                    match b with
                    | BHang => Ret Hangs
                    | BReply r p h2 stores contacts =>
                        let '(r, rules) := finish_reply loc q ef (bool_decide (is_Some cache)) r (ps_rules st) in
                        Ret (Replied r (mkProxyState (<[name := p]> (ps_pools st)) cache h2 rules) stores contacts)
                    end
                end
            end
      end
  end.

End entry.

(** ** The counters of the nodes *)

Section facts.
Context `{L : HeaderLib} {R U : Type} (build : list Z → option R) (replace_all : R → list Z → list Z → list Z)
  (is_match : R → list Z → bool) (encode : coding → Z → reply_body → reply_body) (parse_uri : list Z → option U)
  (default_hash : list Z → Z) (json_write : json_entry → list Z) (json_read : list Z → option json_entry).

Notation handle := (handle_sweety build replace_all is_match encode parse_uri default_hash json_read).

(** Adding one to a counter and taking it away again, with anything in between
    that leaves the counters alone. *)
Lemma counted_balanced i p p1 :
  Forall is_u32 (actives (nodes p)) → actives (nodes p1) = actives (nodes (update_node i (active_add 1) p)) →
  actives (nodes (update_node i (active_add (-1)) p1)) = actives (nodes p).
Proof. intros Hu Hp. rewrite update_active, Hp, update_active. by apply bump_cancel. Qed.

Lemma forward_h1_balanced clock loc q (net : Net (U := U)) cache i n p h2 r p' h2' ss cs :
  Forall is_u32 (actives (nodes p)) →
  forward_h1 (U := U) build replace_all clock loc q net cache i n (update_node i (active_add 1) p) h2 = Ret (BReply r p' h2' ss cs) →
  actives (nodes p') = actives (nodes p).
Proof.
  intros Hu. unfold forward_h1. intros (st & Hst & H)%outcome_bind_ret. apply forward_http1_held in Hst; [|done].
  assert (Hend : actives (nodes (update_node (ls_node st) (active_add (-1)) (ls_pool st))) = actives (nodes p)).
  { rewrite update_active, Hst. by apply bump_cancel. }
  destruct (ls_resp st); [|by injection H as <- <- <- <- <-].
  destruct (last _) as [[]|]; by simplify_eq/=.
Qed.

Lemma forward_h2_balanced later loc q net i n p h2 r p' h2' ss cs :
  Forall is_u32 (actives (nodes p)) →
  forward_h2 parse_uri later loc q net i n (update_node i (active_add 1) p) h2 = Ret (BReply r p' h2' ss cs) →
  actives (nodes p') = actives (nodes p).
Proof.
  intros Hu. unfold forward_h2. destruct (get_or_create _ _ _ _ _ _ h2) as [hp h2a].
  destruct (forward_request_h2 _ _ _ _ _ _ _ _ _ _ _ _ _ _ _ _ _ _ hp) as [[f hp'] qs].
  destruct f; [| | |done|done].
  - intros [= <- <- <- <- <-]. apply counted_balanced; [done|]. apply update_node_actives, record_success_active.
  - intros [= <- <- <- <- <-]. apply counted_balanced; [done|]. apply update_node_actives, record_success_active.
  - intros (p1 & H1 & [= <- <- <- <- <-])%outcome_bind_ret. apply node_fails_actives in H1. by apply counted_balanced.
Qed.

Lemma forward_ws_balanced loc q (net : Net (U := U)) i n p h2 r p' h2' ss cs :
  Forall is_u32 (actives (nodes p)) →
  forward_ws (U := U) loc q net i n (update_node i (active_add 1) p) h2 = Ret (BReply r p' h2' ss cs) →
  actives (nodes p') = actives (nodes p).
Proof.
  intros Hu. unfold forward_ws. intros (w & _ & H)%outcome_bind_ret.
  destruct w; [..|done]; injection H as <- <- <- <- <-; by apply counted_balanced.
Qed.

(** C33: Connection counters balance.  However the proxy answers (refusal,
    cache hit, WebSocket, HTTP/2, any number of HTTP/1.1 attempts), when it has
    answered every node of every upstream group counts the connections it
    counted before. *)
Theorem proxy_counters_balanced now cnow later clock loc ef net q st r st' ss cs :
  (∀ name p, ps_pools st !! name = Some p → Forall is_u32 (actives (nodes p))) →
  handle now cnow later clock loc ef net q st = Ret (Replied r st' ss cs) →
  ∀ name, (λ p, actives (nodes p)) <$> ps_pools st' !! name = (λ p, actives (nodes p)) <$> ps_pools st !! name.
Proof.
  intros Hu. unfold handle_sweety. destruct (lo_upstream loc) as [nm|]; [|by intros [= <- <- <- <-]].
  destruct (ps_pools st !! nm) as [p|] eqn:Ep; [|by intros [= <- <- <- <-]].
  destruct (is_tunnel q); [by intros [= <- <- <- <-]|]. intros ([o p1] & Hp & H)%outcome_bind_ret.
  apply pick_actives in Hp. pose proof (Hu _ _ Ep) as Hu1. rewrite <- Hp in Hu1.
  assert (Hset : ∀ p2 pools, pools = <[nm := p2]> (<[nm := p1]> (ps_pools st)) ∨ pools = <[nm := p2]> (ps_pools st) →
      actives (nodes p2) = actives (nodes p1) → ∀ name,
      (λ p, actives (nodes p)) <$> pools !! name = (λ p, actives (nodes p)) <$> ps_pools st !! name).
  { intros p2 pools Hpools E name. destruct (decide (name = nm)) as [->|Hne].
    - destruct Hpools as [-> | ->]; rewrite lookup_insert_eq, Ep; cbn; congruence.
    - destruct Hpools as [-> | ->]; rewrite !lookup_insert_ne by done; done. }
  destruct (o ≫= _) as [[i n]|]; [|injection H as <- <- <- <-; cbn; eauto].
  destruct (cache_lookup _ _ _ _ _) as [hit cache]. destruct hit; [injection H as <- <- <- <-; cbn; eauto|].
  apply outcome_bind_ret in H as (b & Hb & H). destruct b as [r0 p2 h2 ss0 cs0|]; [|done].
  destruct (finish_reply _ _ _ _ _ _ _ _ _) as [r1 rules]. injection H as <- <- <- <-. cbn. eapply Hset; [by left|].
  destruct (is_ws q); [by eapply forward_ws_balanced in Hb|].
  destruct (http2 n); [by eapply forward_h2_balanced in Hb|by eapply forward_h1_balanced in Hb].
Qed.

(** ** The cache repeats the response *)

(** What is stored is what the client gets, status and body. *)
Lemma finish_response_stores r c sf cache code h10 s resp reuse st hs b :
  finish_response build replace_all r c sf cache code h10 s = ExOk resp reuse (Some (st, hs, b)) →
  w_status resp = status_or_ok st ∧ w_body resp = b.
Proof.
  unfold finish_response. destruct (read_resp_headers _ _ _ _ _) as [[h s1]| |]; [|done|done]. cbv zeta.
  unfold with_headers. destruct (apply_response_headers _ _ _ _ _ _) as [m|].
  - destruct (no_body_status _); [done|]. case_test; [by destruct (stream_body _ _ _ _ _ _ _)|].
    destruct (read_body c h s1) as [[[[body ts] close] s2]| |]; [|done|done].
    intros [= <- _ Hs]. destruct cache as [pc|]; [|done]. case_test; [|done]. injection Hs as <- <- <-. done.
  - destruct (no_body_status _); [done|]. case_test; [by destruct (stream_body _ _ _ _ _ _ _)|].
    by destruct (read_body c h s1) as [[[[body ts] close] s2]| |].
Qed.

Lemma send_recv_stores r c body kcl hec sf cache retry resp reuse st hs b :
  snd (send_recv build replace_all r c body kcl hec sf cache retry) = ExOk resp reuse (Some (st, hs, b)) →
  w_status resp = status_or_ok st ∧ w_body resp = b.
Proof.
  unfold send_recv. destruct (c_head c); [|done|done]. case_test.
  - destruct (read_line (c_data c) (c_end c)) as [[l| |] s1]; [|done|done]. case_test; [|by apply finish_response_stores].
    destruct (read_line s1 (c_end c)) as [[l2| |] s2]; [|destruct (pipe_request_body _ _ _)|];
      try destruct (pipe_request_body _ _ _); try done;
      destruct (read_line s2 (c_end c)) as [[l3| |] s3]; try done; apply finish_response_stores.
  - destruct (if has_body (r_method r) then _ else _); [|done].
    destruct (read_line (c_data c) (c_end c)) as [[[|l0 l]|k [|l0 l]|] s1]; try done; try apply finish_response_stores;
      destruct k; try done; apply finish_response_stores.
Qed.

Lemma forward_request_stores r sf cache idle connect body w resp st hs b re :
  forward_request build replace_all r sf cache idle connect body = (w, FwOk resp (Some (st, hs, b)), re) →
  w_status resp = status_or_ok st ∧ w_body resp = b.
Proof.
  unfold forward_request. cbv zeta.
  destruct (match idle with Some c => Ok c | None => connect 0%nat end) as [c0|]; [|done].
  destruct (send_recv _ _ r c0 _ _ _ _ _ true) as [w0 x0] eqn:E0.
  destruct x0 as [resp0 re0 st0| | | |]; try done.
  - intros [= _ <- -> _]. eapply send_recv_stores. by rewrite E0.
  - case_test; [|done]. destruct (connect 1%nat) as [c1|]; [|done].
    destruct (send_recv _ _ r c1 _ _ _ _ _ false) as [w1 x1] eqn:E1. destruct x1; try done.
    intros [= _ <- -> _]. eapply send_recv_stores. by rewrite E1.
Qed.

Lemma forward_h1_stored clock loc q (net : Net (U := U)) cache i n p h2 r p' h2' st hs b cs :
  forward_h1 build replace_all clock loc q net cache i n p h2 = Ret (BReply r p' h2' [(st, hs, b)] cs) →
  matches_status (next_upstream_flags p) (status_or_ok st) = false →
  cs = [i] ∧ p_status r = status_or_ok st ∧ p_body r = RBytes b.
Proof.
  unfold forward_h1. intros (ls & Hls & H)%outcome_bind_ret Hm. cbv zeta in H.
  apply forward_http1_single in Hls as (Ht & _ & Hr). rewrite Ht in H.
  cbn [imap last] in H. unfold h1_attempt in *. set (fwd := forward_request _ _ _ _ _ _ _ _) in *.
  destruct fwd as [[w f] re] eqn:Ef. cbn [fst snd] in *.
  assert (Hs : store_of f = Some (st, hs, b) ∧ cs = [i]).
  { destruct (ls_resp ls), f; cbn [fmap list_fmap omap list_omap reply_of default from_option] in H; simplify_eq/=; repeat case_match; naive_solver. }
  destruct Hs as [Hs ->]. destruct f as [resp store| | | |]; try done. cbn [store_of] in Hs. subst store.
  apply forward_request_stores in Ef as [Hst Hb]. cbn [attempt_of] in Hr. rewrite Hst in Hr.
  destruct Hr as [Hr|(_ & Hr & _)]; [|congruence]. rewrite Hr in H. cbn in H. injection H as <- _ _. cbn. by rewrite Hb.
Qed.

(** A lookup after the store. *)
Lemma run_store_get t t2 o1 o2 key st hs b c :
  0 ≤ t2 - t ≤ ttl c →
  cache_get default_hash json_read t2 key (run_store default_hash json_write t o1 o2 key (st, hs, b) c)
    = (Some (mkEntry st hs b t (ttl c)), run_store default_hash json_write t o1 o2 key (st, hs, b) c).
Proof.
  intros Ht. unfold run_store, cache_set.
  set (c1 := if max_entries c <=? Z.of_nat (size (mem c)) then evict t o1 o2 c else c).
  assert (H1 : ttl c1 = ttl c).
  { unfold c1. case_test; [|done]. by destruct (evict_fields t o1 o2 c) as (_ & -> & _). }
  set (c2 := disk_write _ _).
  assert (H2 : mem c2 !! key = Some (mkEntry st hs b t (ttl c))).
  { unfold c2, disk_write. cbn [fst]. destruct (disk_path c1); cbn [mem set_disk set_mem]; rewrite lookup_insert_eq; by rewrite H1. }
  unfold cache_get. rewrite H2. unfold is_expired. cbn [ce_ttl ce_created_at].
  unfold sat_sub. rewrite (proj2 (Z.ltb_ge _ _)) by lia. done.
Qed.

Lemma run_store_lookup t o1 o2 key x c method m :
  should_lookup (run_store default_hash json_write t o1 o2 key x c) method m = should_lookup c method m.
Proof.
  destruct x as [[st hs] b]. unfold run_store, cache_set.
  set (c1 := if max_entries c <=? Z.of_nat (size (mem c)) then evict t o1 o2 c else c).
  assert (H1 : cacheable_methods c1 = cacheable_methods c ∧ bypass_headers c1 = bypass_headers c).
  { unfold c1. case_test; [|done]. unfold evict. repeat case_match; done. }
  destruct H1 as [H1 H2]. unfold should_lookup, disk_write. destruct (disk_path c1); cbn [cacheable_methods bypass_headers set_disk set_mem]; by rewrite H1, H2.
Qed.

Lemma compress_none m b ef : compress_response encode m b None ef = (m, b).
Proof. unfold compress_response. repeat case_match; try done. Qed.

(** C40: The cache repeats the response.  Let a first request [q], no WebSocket upgrade and without
    Accept-Encoding, be answered by the proxy with a reply [r] that it stores, of a status for which no
    other node is tried, and let the store be done at [t].  Let a second request with the same key
    (method, host and path with query) come at any later state of the server, after whatever other
    requests, in which the entry is still in memory as it was stored (not evicted, replaced or purged)
    and within the lifetime of the cache.  If the second request is no tunnel and may look into the
    cache, and a node of the group can be picked (the code picks one before it looks), it is answered
    from the cache with the status and the bytes of [r], nothing is stored and no upstream is contacted,
    whatever else the two requests and the network are. *)
Theorem proxy_hit_repeats_miss now cnow later clock loc ef net q st r st1 status hs b cs name p
    t o1 o2 c st' c2 now2 t2 later2 clock2 loc2 ef2 net2 q2 name2 p1 i p2 n2 :
  lo_upstream loc = Some name → ps_pools st !! name = Some p → is_ws q = false →
  handle now cnow later clock loc ef net q st = Ret (Replied r st1 [(status, hs, b)] cs) →
  req_header_str q (lit "accept-encoding") = None →
  matches_status (next_upstream_flags p) (status_or_ok status) = false →
  ps_cache st1 = Some c → ps_cache st' = Some c2 →
  mem c2 !! proxy_key q = mem (run_store default_hash json_write t o1 o2 (proxy_key q) (status, hs, b) c) !! proxy_key q →
  0 ≤ t2 - t ≤ ttl c →
  lo_upstream loc2 = Some name2 → ps_pools st' !! name2 = Some p1 → is_tunnel q2 = false →
  pick now2 (Some (x_client_ip q2)) p1 = Ret (Some i, p2) → nodes p2 !! i = Some n2 →
  proxy_key q2 = proxy_key q → should_lookup c2 (x_method q2) (req_map q2) = true →
  ∃ r2 st2, handle now2 t2 later2 clock2 loc2 ef2 net2 q2 st' = Ret (Replied r2 st2 [] [])
    ∧ p_status r2 = p_status r ∧ p_body r2 = p_body r.
Proof.
  intros Hl Hp Hws Hh Hae Hm Hc Hc2 Hmem Ht Hl2 Hp1 Htun Hpick Hn2 Hk Hlook.
  assert (Hr : p_status r = status_or_ok status ∧ p_body r = RBytes b).
  { revert Hh. unfold handle_sweety. rewrite Hl, Hp. destruct (is_tunnel q); [done|].
    intros ([o p'] & Hpk & H)%outcome_bind_ret. apply pick_config in Hpk as [Hfl _].
    destruct (o ≫= _) as [[j n]|]; [|done]. destruct (cache_lookup _ _ _ _ _) as [hit cache]. destruct hit; [done|].
    rewrite Hws in H. apply outcome_bind_ret in H as (br & Hb & H). destruct br as [r0 p0 h0 s0 c0|]; [|done].
    unfold finish_reply in H. destruct (apply_extra_headers _ _ _ _ _ _ _ _ _ _) as [m rules]. rewrite Hae, compress_none in H.
    injection H as <- _ -> _. cbn [p_status p_body]. destruct (http2 n).
    - unfold forward_h2 in Hb. destruct (get_or_create _ _ _ _ _ _ _). destruct (forward_request_h2 _ _ _ _ _ _ _ _ _ _ _ _ _ _ _ _ _ _ _) as [[f ?] ?].
      destruct f; try done. by apply outcome_bind_ret in Hb as (? & _ & ?).
    - apply forward_h1_stored in Hb as (_ & ? & ?); [done|]. cbn [next_upstream_flags update_node set_nodes]. by rewrite Hfl. }
  destruct Hr as [Hst Hb]. unfold handle_sweety. rewrite Hl2, Hp1, Htun, Hpick. cbn [mbind outcome_bind option_bind].
  rewrite Hn2. cbn [fmap option_fmap option_map ps_cache set_pool]. rewrite Hc2. cbn [cache_lookup].
  destruct (cache_get_fresh _ _ _ _ _ _ _ (run_store_get t t2 o1 o2 (proxy_key q) status hs b c Ht)) as (Hex & Hin & _). rewrite <- Hmem in Hin.
  rewrite Hlook, Hk, (cache_get_mem _ _ _ _ _ _ Hin Hex). eexists _, _. split; [reflexivity|]. cbn [p_status p_body hit_reply ce_status ce_body].
  by rewrite Hst, Hb.
Qed.

(** ** The headers of the response *)

Context `{HL : !HeaderLaws L}.

(** The value [add_headers] gives a header: that of the last entry that names
    it and has a valid value. *)
Definition added_value (remote_addr scheme : list Z) (n : list Z) (h : HeaderOverride) : option (list Z) :=
  if bool_decide (header_name (ho_name h) = Some n)
  then header_value (replace (lit "$scheme") scheme (replace (lit "$remote_addr") remote_addr (ho_value h))) else None.

Lemma add_headers_spec ra sc hs m n :
  hm_get_all (foldl (add_one_header ra sc) m hs) n =
    match last (omap (added_value ra sc n) hs) with Some v => [v] | None => hm_get_all m n end.
Proof.
  induction hs as [|h hs IH] using rev_ind; [done|]. rewrite foldl_snoc, omap_app. cbn [omap list_omap].
  unfold add_one_header at 1, added_value at 2. cbv zeta. destruct (header_name (ho_name h)) as [k|].
  - destruct (header_value _) as [v|].
    + rewrite get_all_insert. destruct (decide (n = k)) as [->|Hne].
      * rewrite bool_decide_true by done. by rewrite last_snoc.
      * rewrite bool_decide_false by congruence. by rewrite app_nil_r, IH.
    + destruct (bool_decide _); by rewrite app_nil_r, IH.
  - rewrite bool_decide_false by done. by rewrite app_nil_r, IH.
Qed.

(** The value a cache rule gives Cache-Control, for a successful response. *)
Definition rule_value (loc : ProxyLocation) (q : ProxyRequest) (status : Z) : option (list Z) :=
  if (200 <=? status) && (status <? 300)
  then r ← first_rule build is_match (lo_cache_rules loc) (proxy_path q); header_value (cr_cache_control r) else None.

(** The values of a header of the response, from those of the upstream. *)
Definition final_values (loc : ProxyLocation) (q : ProxyRequest) (cached : bool) (status : Z) (n : list Z) (upstream : list (list Z)) : list (list Z) :=
  match last (omap (added_value (x_client_ip q) (proxy_scheme q) n) (lo_add_headers loc)) with
  | Some v => [v]
  | None =>
      match (if bool_decide (n = lit "cache-control") then rule_value loc q status else None) with
      | Some v => [v]
      | None =>
          if bool_decide (Exists (λ name, header_name name = Some n) (lo_hide_headers loc)) then []
          else if cached && bool_decide (n = lit "x-cache") then [lit "MISS"] else upstream
      end
  end.

Lemma extra_headers_spec loc q cached status m rules n :
  cache_ok build rules →
  hm_get_all (fst (apply_extra_headers build is_match status (lo_add_headers loc) (lo_cache_rules loc) (proxy_path q)
      (x_client_ip q) (proxy_scheme q) (proxy_hide_headers (lo_hide_headers loc) (mark_miss cached m)) rules)) n
    = final_values loc q cached status n (hm_get_all m n).
Proof.
  intros Hok. unfold apply_extra_headers.
  set (m1 := proxy_hide_headers _ _).
  assert (H1 : hm_get_all m1 n = if bool_decide (Exists (λ name, header_name name = Some n) (lo_hide_headers loc)) then []
      else if cached && bool_decide (n = lit "x-cache") then [lit "MISS"] else hm_get_all m n).
  { unfold m1. rewrite hide_headers_spec. destruct (bool_decide (Exists _ _)); [done|]. unfold mark_miss.
    destruct cached; [|done]. rewrite get_all_insert. cbn [andb]. repeat case_decide || case_bool_decide; done. }
  unfold final_values, rule_value. rewrite <- H1. clear H1.
  destruct ((200 <=? status) && (status <? 300)).
  - pose proof (apply_cache_rules_first build is_match (lo_cache_rules loc) (proxy_path q) m1 rules Hok) as H2.
    destruct (apply_cache_rules _ _ _ _ _ _) as [m2 rules2]. cbn [fst] in *. rewrite add_headers_spec, H2.
    destruct (last _); [done|]. destruct (first_rule _ _ _ _) as [ru|]; cbn [mbind option_bind]; [|destruct (bool_decide (n = _)); reflexivity].
    destruct (header_value (cr_cache_control ru)); [|destruct (bool_decide (n = _)); reflexivity]. rewrite get_all_insert. by case_decide; case_bool_decide.
  - cbn [fst]. rewrite add_headers_spec. destruct (last _); [done|]. destruct (bool_decide (n = _)); reflexivity.
Qed.

(** What the configuration does to the response of an upstream.  A header
    of the response that the configuration adds has exactly its last valid
    value; else Cache-Control of a successful response has the value of the
    first rule that matches the path; else a hidden header is absent; every
    other header has the values the upstream gave.  Content coding changes
    only Content-Encoding, Content-Length and Vary, and the status is kept. *)
Theorem proxy_reply_headers loc q ef cached r rules n :
  cache_ok build rules →
  n ∉ [lit "content-encoding"; lit "content-length"; lit "vary"] →
  let r' := fst (finish_reply build is_match encode loc q ef cached r rules) in
  p_status r' = p_status r ∧
  hm_get_all (p_headers r') n = final_values loc q cached (p_status r) n (hm_get_all (p_headers r) n).
Proof.
  intros Hok Hn. cbv zeta. unfold finish_reply.
  pose proof (extra_headers_spec loc q cached (p_status r) (p_headers r) rules n Hok) as He.
  destruct (apply_extra_headers _ _ _ _ _ _ _ _ _ _) as [m2 rules2]. cbn [fst] in He.
  destruct (compress_response encode m2 (p_body r) _ ef) as [m3 b3] eqn:Ec. cbn [fst p_status p_headers]. split; [done|].
  rewrite <- He. apply compress_response_consistent in Ec as [[-> _]|(c & raw & _ & _ & _ & _ & _ & _ & _ & _ & Hk)]; [done|by apply Hk].
Qed.

(** ** What a hit leaves out *)

(** The stored header as the hit shows it. *)
Definition replayed (n : list Z) (kv : list Z * list Z) : option (list Z) :=
  if bool_decide (header_name (fst kv) = Some n) then header_value (snd kv) else None.

Lemma replay_headers_spec hs m n :
  hm_get_all (foldl replay_header m hs) n =
    match last (omap (replayed n) hs) with Some v => [v] | None => hm_get_all m n end.
Proof.
  induction hs as [|[k v] hs IH] using rev_ind; [done|]. rewrite foldl_snoc, omap_app. cbn [omap list_omap].
  unfold replay_header at 1, replayed at 2. cbn [fst snd]. destruct (header_name k) as [k'|].
  - destruct (header_value v) as [w|].
    + rewrite get_all_insert. destruct (decide (n = k')) as [->|Hne].
      * rewrite bool_decide_true by done. by rewrite last_snoc.
      * rewrite bool_decide_false by congruence. by rewrite app_nil_r, IH.
    + destruct (bool_decide _); by rewrite app_nil_r, IH.
  - rewrite bool_decide_false by done. by rewrite app_nil_r, IH.
Qed.

(** A hit as a whole. *)
Lemma handle_hit now cnow later clock loc ef net q st name p o i n p1 e c :
  lo_upstream loc = Some name → ps_pools st !! name = Some p → is_tunnel q = false →
  pick now (Some (x_client_ip q)) p = Ret (o, p1) → o = Some i → nodes p1 !! i = Some n →
  cache_lookup default_hash json_read cnow q (ps_cache st) = (Some e, c) →
  handle now cnow later clock loc ef net q st = Ret (Replied (hit_reply e) (set_cache c (set_pool name p1 st)) [] []).
Proof.
  intros Hl Hp Ht Hk -> Hn He. unfold handle_sweety. rewrite Hl, Hp, Ht, Hk. cbn [mbind outcome_bind option_bind].
  rewrite Hn. cbn [fmap option_fmap option_map ps_cache set_pool]. by rewrite He.
Qed.

(** A hit is not treated like a response.  Whatever the location hides,
    adds or rewrites, a hit shows the headers the upstream sent, of each name
    the last: Transfer-Encoding and the other connection headers, which a
    fresh response never shows, included. *)
Theorem hit_shows_raw_headers now cnow later clock loc ef net q st name p i n p1 e c :
  lo_upstream loc = Some name → ps_pools st !! name = Some p → is_tunnel q = false →
  pick now (Some (x_client_ip q)) p = Ret (Some i, p1) → nodes p1 !! i = Some n →
  cache_lookup default_hash json_read cnow q (ps_cache st) = (Some e, c) →
  ∃ r st', handle now cnow later clock loc ef net q st = Ret (Replied r st' [] [])
    ∧ ∀ h, h ∉ [lit "x-cache"; lit "x-cache-status"] →
        hm_get_all (p_headers r) h = match last (omap (replayed h) (ce_headers e)) with Some v => [v] | None => [] end.
Proof.
  intros Hl Hp Ht Hk Hn He. eexists _, _. split; [by eapply handle_hit|]. intros h Hh. cbn [p_headers hit_reply].
  assert (h ≠ lit "x-cache" ∧ h ≠ lit "x-cache-status") as [H1 H2] by (rewrite !not_elem_of_cons in Hh; tauto).
  rewrite !get_all_insert, !decide_False by done. by rewrite replay_headers_spec, get_all_empty.
Qed.

(** The breaker of the node never learns of a hit, nor of a WebSocket.
    Afterwards it is as the choice of the node left it: a probe of a half-open
    breaker that turns out to be a hit is never reported. *)
Theorem probe_unreported now cnow later clock loc ef net q st name p i n p1 r st' ss cs :
  lo_upstream loc = Some name → ps_pools st !! name = Some p → is_tunnel q = false →
  pick now (Some (x_client_ip q)) p = Ret (Some i, p1) → nodes p1 !! i = Some n →
  is_ws q = true ∨ is_Some (fst (cache_lookup default_hash json_read cnow q (ps_cache st))) →
  handle now cnow later clock loc ef net q st = Ret (Replied r st' ss cs) →
  ∃ p' n', ps_pools st' !! name = Some p' ∧ nodes p' !! i = Some n' ∧ circuit_breaker n' = circuit_breaker n.
Proof.
  intros Hl Hp Ht Hk Hn Hc. destruct (cache_lookup default_hash json_read cnow q (ps_cache st)) as [[e|] c] eqn:He.
  { erewrite handle_hit by done. intros [= <- <- <- <-]. exists p1, n. cbn. by rewrite lookup_insert_eq. }
  destruct Hc as [Hws|[? [=]]]. unfold handle_sweety. rewrite Hl, Hp, Ht, Hk. cbn [mbind outcome_bind option_bind].
  rewrite Hn. cbn [fmap option_fmap option_map ps_cache set_pool]. rewrite He, Hws.
  intros (br & Hb & H)%outcome_bind_ret. destruct br as [r0 p2 h2 s0 c0|]; [|done].
  destruct (finish_reply _ _ _ _ _ _ _ _ _) as [r2 rules]. injection H as <- <- <- <-. exists p2. cbn [ps_pools]. rewrite lookup_insert_eq.
  unfold forward_ws in Hb. apply outcome_bind_ret in Hb as (w & _ & Hb).
  exists (active_add (-1) (active_add 1 n)). split; [done|]. split; [|done].
  destruct w; [..|done]; injection Hb as <- <- <- <- <-; unfold update_node; cbn [nodes set_nodes];
    by rewrite !list_lookup_alter_eq, Hn.
Qed.

(** ** From the upstream to the client *)

(** The HTTP/1.1 way when the connection answers. *)
Lemma forward_h1_answered clock loc q (net : Net (U := U)) cache i n p h2 c0 w resp re store :
  (match n_idle net 0 i with Some c => Ok c | None => n_connect net 0 i 0 end) = Ok c0 →
  send_recv build replace_all (h1_req loc q net p n) c0 (x_body q) (known_content_length_of (upstream_headers loc q n))
    (has_expect_continue_of (upstream_headers loc q n)) (lo_sub_filter loc) cache true = (w, ExOk resp re store) →
  matches_status (next_upstream_flags p) (w_status resp) = false →
  (∃ p', forward_h1 build replace_all clock loc q net cache i n p h2 =
    Ret (BReply (mkReply _ (w_status resp) (w_headers resp) (RBytes (w_body resp))) p' h2 (option_list store) [i]))
  ∧ h1_connection build replace_all loc q net cache p n 0 i true = re.
Proof.
  intros Hc Hx Hm.
  assert (Hfw : forward_request build replace_all (h1_req loc q net p n) (lo_sub_filter loc) cache (n_idle net 0 i) (n_connect net 0 i) (x_body q)
    = ([w], FwOk resp store, re)).
  { unfold forward_request. cbv zeta. rewrite Hc. change (r_extra (h1_req loc q net p n)) with (upstream_headers loc q n). by rewrite Hx. }
  assert (Hatt : h1_attempt build replace_all loc q net cache p n 0 i true = FwOk resp store) by (unfold h1_attempt; by rewrite Hfw).
  split; [|unfold h1_connection; by rewrite Hfw]. unfold forward_h1. rewrite (forward_http1_success _ _ _ _ _ _ (w_status resp)); [|by rewrite Hatt|done].
  cbn [mbind outcome_bind ls_resp ls_trace imap last ls_node ls_pool]. rewrite Hatt.
  cbn [reply_of from_option id omap list_omap store_of fmap list_fmap fst]. eexists. by destruct store.
Qed.

(** C1: A proxied response is faithful from end to end.  When a node is chosen
    for a request without a body, nothing is cached for it, and its connection
    (idle or new) delivers a response with a Content-Length of at most 256 MiB,
    then whatever way the bytes arrive in pieces the client gets that status,
    exactly that body, and the upstream's end-to-end headers as the
    configuration changes them.  The connection then goes back to the pool
    with what follows the response less what its reader had fetched ahead, and
    so in step with an upstream that sends nothing unasked.  The location
    buffers responses, and neither rewrites bodies (sub_filter, proxy_redirect)
    nor meets a client that accepts a compressed one; the status is one that
    carries a body and is not retried on another node.  A response to HEAD,
    whose Content-Length no body follows, is not delivered in this sense and
    blocks ([head_request_blocks]). *)
Theorem proxy_response_exact now cnow later clock loc ef net q st name p i n p1 cache c0 sl hs body rest m :
  lo_upstream loc = Some name → ps_pools st !! name = Some p → is_tunnel q = false →
  pick now (Some (x_client_ip q)) p = Ret (Some i, p1) → nodes p1 !! i = Some n →
  cache_lookup default_hash json_read cnow q (ps_cache st) = (None, cache) → cache_ok build (ps_rules st) →
  is_ws q = false → http2 n = false → has_body (x_method q) = false →
  lo_buffering loc = true → lo_sub_filter loc = [] → lo_redirect_from loc = None →
  req_header_str q (lit "accept-encoding") = None →
  (match n_idle net 0 i with Some c => Ok c | None => n_connect net 0 i 0 end) = Ok c0 → c_head c0 = HeadOk →
  c_data c0 = sl ++ CRLF ++ Forward.head_text hs ++ body ++ rest →
  is_ascii sl = true → LF ∉ sl → Forall Forward.hdr_ok hs → (length hs < RESP_MAX_HEADERS)%nat →
  let code := parse_status_code (sl ++ CRLF) in
  let h := head_of (starts_with (lit "HTTP/1.0") (sl ++ CRLF)) hs in
  100 ≤ code ≤ 999 → no_body_status code = false → matches_status (next_upstream_flags p) code = false →
  rh_chunked h = false → rh_close h = false → rh_content_length h = Some (Z.of_nat (length body)) →
  Z.of_nat (length body) ≤ BUFFERED_MAX_BODY →
  apply_response_headers hm_empty (rh_headers h) (strip_secure loc q n) (lo_cookie_domain loc) None (lo_redirect_to loc) = Ret m →
  ∃ r st' ss, handle now cnow later clock loc ef net q st = Ret (Replied r st' ss [i])
    ∧ p_status r = code ∧ p_body r = RBytes body
    ∧ (∀ k, k ≠ lit "content-length" →
        hm_get_all (p_headers r) k = final_values loc q (bool_decide (is_Some cache)) code k (hm_get_all m k))
    ∧ h1_connection build replace_all loc q net cache p1 n 0 i true = Some (into_inner (c_ahead c0) rest).
Proof.
  intros Hl Hp Ht Hk Hn He Hok Hws Hh2 Hnb Hbuf Hsf Hrf Hae Hc Hh Hd Ha Hlf Hhd Hlen code h Hcode Hst Hms Hch Hcl Hct Hmax Hm.
  set (p2 := update_node i (active_add 1) p1).
  destruct (exchange_in_sync build replace_all (h1_req loc q net p2 n) c0 (x_body q)
    (known_content_length_of (upstream_headers loc q n)) (has_expect_continue_of (upstream_headers loc q n))
    cache true sl hs body rest m) as (resp & store & Hx & Hs & Hb & Hhs); try done.
  destruct (send_recv _ _ _ _ _ _ _ _ _ _) as [w x] eqn:Ex. cbn [snd] in Hx. subst x.
  destruct (forward_h1_answered clock loc q net cache i n p2 (ps_h2 st) c0 w resp (Some (into_inner (c_ahead c0) rest)) store) as [[p3 Hf] Hre]; [done|by rewrite Hsf| |].
  { apply pick_config in Hk as [Hfl _]. unfold p2. cbn [next_upstream_flags update_node set_nodes]. by rewrite Hfl, Hs. }
  unfold handle_sweety. rewrite Hl, Hp, Ht, Hk. cbn [mbind outcome_bind option_bind].
  rewrite Hn. cbn [fmap option_fmap option_map ps_cache set_pool]. rewrite He, Hws, Hh2. cbn [ps_h2 set_cache set_pool ps_pools ps_rules].
  fold p2. rewrite Hf. cbn [mbind outcome_bind]. unfold finish_reply. cbn [p_status p_headers p_body].
  destruct (apply_extra_headers _ _ _ _ _ _ _ _ _ _) as [m2 rules2] eqn:Em. rewrite Hae, compress_none.
  eexists _, _, _. split; [reflexivity|]. cbn [p_status p_body p_headers]. rewrite Hb. split_and!; [done|done| |exact Hre].
  intros k Hkne. pose proof (extra_headers_spec loc q (bool_decide (is_Some cache)) (w_status resp) (w_headers resp) (ps_rules st) k Hok) as Hx.
  rewrite Em in Hx. cbn [fst] in Hx. rewrite Hx, Hs, Hhs. f_equal. unfold set_content_length.
  destruct (header_value _); [|done]. by rewrite get_all_insert, decide_False.
Qed.

End facts.

(** ** Witnesses *)

Module EntryWitness.
Import Headers.Model.

Definition bld (p : list Z) : option unit := None.
Definition rall (r : unit) (t s : list Z) : list Z := t.
Definition im (r : unit) (s : list Z) : bool := false.
Definition enc (c : coding) (level : Z) (b : reply_body) : reply_body := b.
Definition uri (s : list Z) : option unit := Some ().
Definition jw := ProxyCache.Witness.jw.
Definition jr := ProxyCache.Witness.jr.
Definition hash := ProxyCache.Witness.h.

Definition loc : ProxyLocation :=
  mkProxyLoc (Some (lit "up")) [] false None None None [mkOverride (lit "X-Served-By") (lit "sweety")] [] [] true [lit "Server"].
Definition get (path : string) : ProxyRequest :=
  mkProxyReq (lit "GET") (Some (lit path)) (lit path) None None [(lit "host", lit "a")] false false (lit "10.0.0.9") [].
Definition off : effective := mkEffective false 0 false 0 false 0.
Definition answer : list Z := Forward.Witness.sl ++ CRLF ++ Forward.head_text Forward.Witness.hs ++ lit "hello" ++ [].
Definition net : Net (U := unit) :=
  mkNet (λ _ _, Some (Forward.Witness.conn answer EndEof)) (λ _ _ _, Err (ConnReset [])) (λ _, Dead) (λ _, Dead) Failed
    (λ _ _, Failed) (λ _, mkPeer false (λ _, 1%nat) [] EndEof None) (λ _, true).
Definition st0 : ProxyState (R := unit) :=
  mkProxyState {[ lit "up" := ProxyHandler.Witness.pool ]} (Some ProxyCache.Witness.c0) ∅ ∅.
Definition run (t : Z) (q : ProxyRequest) (st : ProxyState (R := unit)) :=
  handle_sweety bld rall im enc uri hash jr 0 t 0 (λ _, 0) loc off net q st.

Definition reply (o : outcome (proxied (R := unit))) : Reply :=
  match o with Ret (Replied r _ _ _) => r | _ => mkReply _ 0 hm_empty (RBytes []) end.
Definition state (o : outcome (proxied (R := unit))) : ProxyState (R := unit) :=
  match o with Ret (Replied _ s _ _) => s | _ => st0 end.
Definition stores (o : outcome (proxied (R := unit))) : list stored := match o with Ret (Replied _ _ s _) => s | _ => [] end.

Definition replied (o : outcome (proxied (R := unit))) : bool := match o with Ret (Replied _ _ _ _) => true | _ => false end.
Definition contacts (o : outcome (proxied (R := unit))) : list nat := match o with Ret (Replied _ _ _ cs) => cs | _ => [] end.
Lemma run_eta o : replied o = true → o = Ret (Replied (reply o) (state o) (stores o) (contacts o)).
Proof. by destruct o as [[]|]. Qed.

Definition first := run 0 (get "/a") st0.
Lemma first_run : first = Ret (Replied (reply first) (state first) [(200, Forward.Witness.hs, lit "hello")] [0%nat]).
Proof.
  assert (H : replied first = true) by (vm_compute; reflexivity). apply run_eta in H.
  assert (Hs : stores first = [(200, Forward.Witness.hs, lit "hello")]) by (vm_compute; reflexivity).
  assert (Hc : contacts first = [0%nat]) by (vm_compute; reflexivity). by rewrite <- Hs, <- Hc.
Qed.

Lemma proxy_counters_balanced_witness :
  (λ p, actives (nodes p)) <$> ps_pools (state first) !! lit "up" = Some [3; 0].
Proof.
  rewrite (proxy_counters_balanced bld rall im enc uri hash jr 0 0 0 (λ _, 0) loc off net (get "/a") st0
    (reply first) (state first) [(200, Forward.Witness.hs, lit "hello")] [0%nat]).
  - reflexivity.
  - intros name p Hp. cbn [ps_pools st0] in Hp. apply lookup_singleton_Some in Hp as [<- <-]. repeat constructor; vm_compute; congruence.
  - apply first_run.
Defined.

(** The second client of [/a] contacts no upstream. *)
Definition cached : ProxyCache := default ProxyCache.Witness.c0 (ps_cache (state first)).
Definition warm : ProxyState (R := unit) :=
  set_cache (Some (run_store hash jw 5 [] [] (proxy_key (get "/a")) (200, Forward.Witness.hs, lit "hello") cached)) (state first).

Lemma proxy_hit_repeats_miss_witness :
  ∃ r2 st2, run (60 * SEC) (get "/a") warm = Ret (Replied r2 st2 [] []) ∧ p_status r2 = 200 ∧ p_body r2 = RBytes (lit "hello").
Proof.
  destruct (ps_pools (state first) !! lit "up") as [p1|] eqn:Ep; [|vm_compute in Ep; discriminate].
  destruct (pick 0 (Some (lit "10.0.0.9")) p1) as [[[i|] p2]|] eqn:Ek;
    [|vm_compute in Ep; injection Ep as <-; vm_compute in Ek; discriminate..].
  destruct (nodes p2 !! i) as [n2|] eqn:En;
    [|vm_compute in Ep; injection Ep as <-; vm_compute in Ek; injection Ek as <- <-; vm_compute in En; discriminate].
  destruct (proxy_hit_repeats_miss bld rall im enc uri hash jw jr 0 0 0 (λ _, 0) loc off net (get "/a") st0
    (reply first) (state first) 200 Forward.Witness.hs (lit "hello") [0%nat] (lit "up") ProxyHandler.Witness.pool
    5 [] [] cached warm (run_store hash jw 5 [] [] (proxy_key (get "/a")) (200, Forward.Witness.hs, lit "hello") cached) 0 (60 * SEC) 0 (λ _, 0) loc off net (get "/a") (lit "up") p1 i p2 n2) as (r2 & st2 & H & Hs & Hb);
    [reflexivity|reflexivity|reflexivity|apply first_run|vm_compute; reflexivity|reflexivity|vm_compute; reflexivity|reflexivity|reflexivity
    |vm_compute; split; congruence|reflexivity|exact Ep|reflexivity|exact Ek|exact En|reflexivity|vm_compute; reflexivity|].
  exists r2, st2. split; [exact H|]. rewrite Hs, Hb. split; vm_compute; reflexivity.
Defined.

(** Server is hidden, the added header is there, and Date passes. *)
Definition upstream_reply : Reply :=
  mkReply _ 200 (hm_insert (lit "date") (lit "d") (hm_insert (lit "server") (lit "up") hm_empty)) (RBytes []).
Lemma proxy_reply_headers_witness :
  (λ n, hm_get_all (p_headers (fst (finish_reply bld im enc loc (get "/a") off true upstream_reply ∅))) n)
    <$> [lit "server"; lit "x-served-by"; lit "date"; lit "x-cache"] = [[]; [lit "sweety"]; [lit "d"]; [lit "MISS"]].
Proof.
  cbn [fmap list_fmap].
  rewrite !(λ n H, proj2 (proxy_reply_headers bld im enc loc (get "/a") off true upstream_reply ∅ n (map_Forall_empty _) H));
    [vm_compute; reflexivity|apply (bool_decide_unpack _); vm_compute; exact I..].
Defined.

(** The first response, as a client sees it. *)
Lemma proxy_response_exact_witness :
  ∃ r st' ss, run 0 (get "/a") st0 = Ret (Replied r st' ss [0%nat]) ∧ p_status r = 200 ∧ p_body r = RBytes (lit "hello")
    ∧ hm_get_all (p_headers r) (lit "server") = [].
Proof.
  destruct (pick 0 (Some (lit "10.0.0.9")) ProxyHandler.Witness.pool) as [[[i|] p2]|] eqn:Ek; [|vm_compute in Ek; discriminate..].
  destruct (nodes p2 !! i) as [n2|] eqn:En; [|vm_compute in Ek; injection Ek as <- <-; vm_compute in En; discriminate].
  assert (Hi : i = 0%nat) by (vm_compute in Ek; by injection Ek as <- _).
  assert (Hn : http2 n2 = false ∧ strip_secure loc (get "/a") n2 = false).
  { vm_compute in Ek. injection Ek as <- <-. vm_compute in En. injection En as <-. split; reflexivity. }
  subst i.
  destruct (proxy_response_exact bld rall im enc uri hash jr 0 0 0 (λ _, 0) loc off net (get "/a") st0 (lit "up")
    ProxyHandler.Witness.pool 0%nat n2 p2 (Some ProxyCache.Witness.c0) (Forward.Witness.conn answer EndEof) Forward.Witness.sl
    Forward.Witness.hs (lit "hello") [] (hm_insert (lit "server") (lit "up") hm_empty)) as (r & st' & ss & H & H1 & H2 & H3 & _);
    [reflexivity|reflexivity|reflexivity|exact Ek|exact En|vm_compute; reflexivity|apply map_Forall_empty|reflexivity|apply Hn
    |reflexivity|reflexivity|reflexivity|reflexivity|vm_compute; reflexivity|reflexivity|reflexivity|reflexivity|reflexivity
    |apply (bool_decide_unpack _); vm_compute; exact I|apply Forward.Witness.hs_ok|vm_compute; lia|vm_compute; split; congruence
    |reflexivity|reflexivity|reflexivity|reflexivity|reflexivity|vm_compute; congruence|rewrite (proj2 Hn); reflexivity|].
  exists r, st', ss. split_and!; [exact H|exact H1|exact H2|]. rewrite H3 by (by vm_compute). vm_compute. reflexivity.
Defined.

(** A stored Server header, which the location hides, is shown by the hit. *)
Lemma hit_shows_raw_headers_witness :
  ∃ r st', run (60 * SEC) (get "/a") warm = Ret (Replied r st' [] []) ∧ hm_get_all (p_headers r) (lit "server") = [lit "up"].
Proof.
  destruct (ps_pools warm !! lit "up") as [p1|] eqn:Ep; [|vm_compute in Ep; discriminate].
  destruct (pick 0 (Some (lit "10.0.0.9")) p1) as [[[i|] p2]|] eqn:Ek;
    [|vm_compute in Ep; injection Ep as <-; vm_compute in Ek; discriminate..].
  destruct (nodes p2 !! i) as [n2|] eqn:En;
    [|vm_compute in Ep; injection Ep as <-; vm_compute in Ek; injection Ek as <- <-; vm_compute in En; discriminate].
  destruct (hit_shows_raw_headers bld rall im enc uri hash jr 0 (60 * SEC) 0 (λ _, 0) loc off net (get "/a") warm (lit "up")
    p1 i n2 p2 (mkEntry 200 Forward.Witness.hs (lit "hello") 5 (60 * SEC)) (ps_cache warm)) as (r & st' & H & Hh);
    [reflexivity|exact Ep|reflexivity|exact Ek|exact En|vm_compute; reflexivity|].
  exists r, st'. split; [exact H|]. rewrite Hh by (apply (bool_decide_unpack _); vm_compute; exact I). vm_compute. reflexivity.
Defined.

(** The breaker of the node was open; the hit leaves it half open. *)
Definition half_open : ProxyState (R := unit) :=
  mkProxyState {[ lit "up" := LoadBalance.Witness.pool RoundRobin 0 [LoadBalance.Witness.node 1 0 CB_HALF_OPEN] ]} (ps_cache warm) ∅ ∅.
Lemma probe_unreported_witness :
  ∃ p' n', ps_pools (state (run (60 * SEC) (get "/a") half_open)) !! lit "up" = Some p' ∧ nodes p' !! 0%nat = Some n'
    ∧ circuit_breaker n' = circuit_breaker (LoadBalance.Witness.node 1 0 CB_HALF_OPEN).
Proof.
  destruct (pick 0 (Some (lit "10.0.0.9")) (LoadBalance.Witness.pool RoundRobin 0 [LoadBalance.Witness.node 1 0 CB_HALF_OPEN])) as [[[i|] p2]|] eqn:Ek;
    [|vm_compute in Ek; discriminate..].
  destruct (nodes p2 !! i) as [n2|] eqn:En; [|vm_compute in Ek; injection Ek as <- <-; vm_compute in En; discriminate].
  assert (Hi : i = 0%nat ∧ circuit_breaker n2 = circuit_breaker (LoadBalance.Witness.node 1 0 CB_HALF_OPEN)).
  { vm_compute in Ek. injection Ek as <- <-. vm_compute in En. injection En as <-. split; reflexivity. }
  destruct Hi as [-> Hi].
  assert (Er : replied (run (60 * SEC) (get "/a") half_open) = true) by (vm_compute; reflexivity). apply run_eta in Er.
  rewrite <- Hi.
  apply (probe_unreported bld rall im enc uri hash jr 0 (60 * SEC) 0 (λ _, 0) loc off net (get "/a") half_open (lit "up")
    (LoadBalance.Witness.pool RoundRobin 0 [LoadBalance.Witness.node 1 0 CB_HALF_OPEN]) 0%nat n2 p2
    (reply (run (60 * SEC) (get "/a") half_open)) _ (stores (run (60 * SEC) (get "/a") half_open))
    (contacts (run (60 * SEC) (get "/a") half_open)));
    [reflexivity|reflexivity|reflexivity|exact Ek|exact En|right; vm_compute; eexists; reflexivity|exact Er].
Defined.

End EntryWitness.
