(* ===== verification/FcgiEntry.v ===== *)
(** * The FastCGI handler as a whole: [handle_sweety] of [src/handler/fastcgi.rs]

    The response cache, the address of the application server, the environment
    and the body of the request, the attempts on pooled connections, and the
    content coding of the response. *)

From S2P Require Import Prelude RustStr IpAddr RealIp Headers F32 Compress ErrorPage ConnPool ProxyCache Http1 Streaming Forward FastCgi H2Upstream ProxyEntry.

(** ** Requests and sites *)

Record FcgiRequest := mkFcgiRequest {
  y_method : list Z;
  y_path_and_query : option (list Z);
  y_path : list Z;
  y_query : option (list Z);
  y_authority : option (list Z);
  y_headers : list (list Z * list Z);       (* lower-case name, value bytes *)
  y_is_tls : bool;
  y_peer_ip : IpAddr;
  y_peer_port : Z;
  y_body : list body_item;
}.

(** The settings of the site; paths as text. *)
Record FcgiSite := mkFcgiSite {
  fs_root : option (list Z);
  fs_socket : option (list Z);
  fs_host : option (list Z);
  fs_port : option Z;
  fs_real_ip : option CompiledRealIp;
  fs_client_max_body_size : Z;              (* MiB, of the global settings *)
  fs_version : list Z;
}.

Record FcgiState := mkFcgiState { fe_pool : @FcgiPool app_stream; fe_cache : option ProxyCache }.

(** [FcgiAddr]: the socket when there is one, else host and port. *)
Definition fcgi_addr (s : FcgiSite) : list Z * bool :=
  match fs_socket s with
  | Some sock => (sock, true)
  | None => (default (lit "127.0.0.1") (fs_host s) ++ lit ":" ++ dec (default 9000 (fs_port s)), false)
  end.

Definition reads_body (method : list Z) : bool :=
  bool_decide (method ∈ [lit "POST"; lit "PUT"; lit "PATCH"; lit "DELETE"]).

Section entry.
Context `{L : HeaderLib} (from_utf8_lossy : list Z → list Z) (header_value_bytes : list Z → option (list Z)).
Context (tcp_connect unix_connect : nat → list Z → result app_stream fcgi_connect_error).
Context (encode : coding → Z → reply_body → reply_body).
Context (default_hash : list Z → Z) (json_read : list Z → option json_entry).

Definition fcgi_map (q : FcgiRequest) : HeaderMap := foldl (λ m '(k, v), hm_append k v m) hm_empty (y_headers q).
Definition fcgi_header_str (q : FcgiRequest) (name : list Z) : option (list Z) := header_str (fcgi_map q) name.

Definition fcgi_uri (q : FcgiRequest) : list Z := default (lit "/") (y_path_and_query q).
Definition fcgi_host (q : FcgiRequest) : list Z :=
  match y_authority q with Some a => a | None => default [] (fcgi_header_str q (lit "host")) end.
Definition fcgi_key (q : FcgiRequest) : CacheKey := cache_key_new (y_method q) (fcgi_host q) (fcgi_uri q).

(** [fcgi_error] *)
Definition fcgi_error (status : Z) : Reply :=
  mkReply _ status (hm_insert (lit "content-type") html_type hm_empty) (RBytes (build_default_html status)).

(** A hit: every stored header, then the markers. *)
Definition fcgi_hit (e : CacheEntry) : Reply :=
  mkReply _ (status_or_ok (ce_status e))
    (hm_insert (lit "x-cache-status") (lit "HIT") (hm_insert (lit "x-cache") (lit "HIT")
       (foldl (append_header header_value_bytes) hm_empty (ce_headers e))))
    (RBytes (ce_body e)).

Definition fcgi_lookup (now : Z) (q : FcgiRequest) (cache : option ProxyCache) : option CacheEntry * option ProxyCache :=
  match cache with
  | Some c =>
      if should_lookup c (y_method q) (fcgi_map q) then
        let '(e, c) := cache_get default_hash json_read now (fcgi_key q) c in (e, Some c)
      else (None, Some c)
  | None => (None, None)
  end.

(** The limit in bytes; a product that does not fit ends the process. *)
Definition max_body (s : FcgiSite) : outcome Z :=
  let k := fs_client_max_body_size s * 1024 in
  if u64_max <? k then Panic else if u64_max <? k * 1024 then Panic else Ret (k * 1024).

Definition fcgi_content_length (q : FcgiRequest) : Z :=
  default 0 (s ← fcgi_header_str q (lit "content-length"); parse_uint u64_max s).

(** REMOTE_ADDR *)
Definition remote_addr (s : FcgiSite) (q : FcgiRequest) : outcome (list Z) :=
  match fs_real_ip s with
  | Some rip =>
      o ← extract_real_ip rip (y_peer_ip q) (fcgi_header_str q (to_ascii_lowercase (RealIp.header_name rip)));
      Ret (display_ip (default (y_peer_ip q) o))
  | None => Ret (display_ip (y_peer_ip q))
  end.

Definition fcgi_req (s : FcgiSite) (root : list Z) (script : option (list Z)) (remote body : list Z) (q : FcgiRequest) : FcgiReq :=
  mkFcgiReq (y_method q) (y_path q) (y_query q) (fcgi_uri q) (fcgi_host q) (y_is_tls q) root script (y_headers q)
    (default [] (fcgi_header_str q (lit "content-type"))) body remote (y_peer_port q) (fs_version s).

Definition answer_reply (a : fcgi_answer) : option Reply :=
  match a with
  | FcgiAnswer (Complete resp) => Some (mkReply _ (w_status resp) (w_headers resp) (RBytes (w_body resp)))
  | FcgiAnswer (Streamed st m items) => Some (mkReply _ st m (RStream items))
  | FcgiError _ => None
  end.

(** The reply, the state, what is put into the cache, and the packets sent. *)
Inductive fcgi_done :=
| FReplied (r : Reply) (st : FcgiState) (store : option stored) (sent : list (list Z))
| FHangs.

(** [handle_sweety] *)
Definition handle_fcgi (now : Z) (s : FcgiSite) (loc_root : option (list Z)) (script : option (list Z)) (ef : effective)
    (client : nat → bool) (q : FcgiRequest) (st : FcgiState) : outcome fcgi_done :=
  let '(hit, cache) := fcgi_lookup now q (fe_cache st) in
  let st := mkFcgiState (fe_pool st) cache in
  match hit with
  | Some e => Ret (FReplied (fcgi_hit e) st None [])
  | None =>
      match (match loc_root with Some r => Some r | None => fs_root s end) with
      | None => Ret (FReplied (fcgi_error 500) st None [])
      | Some root =>
          limit ← max_body s;
          if (limit <? fcgi_content_length q) && (0 <? limit) then Ret (FReplied (fcgi_error 413) st None [])
          else
            match (if reads_body (y_method q) then collect_body (y_body q) else Done []) with
            | Blocked => Ret FHangs
            | Failed => Ret FHangs
            | Done body =>
                remote ← remote_addr s q;
                let params := cgi_params from_utf8_lossy (fcgi_req s root script remote body q) in
                let '(a, store, pool, n) :=
                  fcgi_handle from_utf8_lossy header_value_bytes tcp_connect unix_connect cache client
                    (fst (fcgi_addr s)) (snd (fcgi_addr s)) (fe_pool st) in
                let sent := replicate n (request_packet params body) in
                let st := mkFcgiState pool cache in
                match a with
                | FcgiError code => Ret (FReplied (fcgi_error code) st store sent)
                | FcgiAnswer _ =>
                    let r := default (fcgi_error 502) (answer_reply a) in
                    let '(m, b) := compress_response encode (p_headers r) (p_body r) (fcgi_header_str q (lit "accept-encoding")) ef in
                    Ret (FReplied (mkReply _ (p_status r) m b) st store sent)
                end
            end
      end
  end.

End entry.

(** ** What the application reads *)

(** A reference reader of a request, as the FastCGI specification describes
    it: a stream is the records of its type up to an empty one. *)
Fixpoint read_fcgi_stream (fuel : nat) (ty : Z) (s : list Z) : option (list Z * list Z) :=
  match fuel with
  | O => None
  | S fuel =>
      match read_fcgi s with
      | Some (r, s) =>
          if rec_type r =? ty then
            match rec_data r with
            | [] => Some ([], s)
            | d => '(d', s) ← read_fcgi_stream fuel ty s; Some (d ++ d', s)
            end
          else None
      | None => None
      end
  end.

Definition read_request (s : list Z) : option (list Z * list (list Z * list Z) * list Z * list Z) :=
  '(begin, s) ← read_fcgi s;
  '(env, s) ← read_fcgi_stream (S (length s)) FCGI_PARAMS s;
  vars ← decode_nv (S (length env)) env;
  '(body, s) ← read_fcgi_stream (S (length s)) FCGI_STDIN s;
  if rec_type begin =? FCGI_BEGIN_REQUEST then Some (rec_data begin, vars, body, s) else None.

Lemma read_records_stream ty id cs rest fuel :
  Forall (λ c, c ≠ [] ∧ Z.of_nat (length c) ≤ 65535) cs → (length cs < fuel)%nat →
  read_fcgi_stream fuel ty (concat (write_chunk ty id <$> cs) ++ write_fcgi_header ty id 0 0 ++ rest) = Some (concat cs, rest).
Proof.
  intros Hc. revert fuel. induction Hc as [|c cs [Hne Hl] _ IH]; intros fuel Hf; (destruct fuel as [|fuel]; [cbn in Hf; lia|]).
  - cbn [fmap list_fmap concat app read_fcgi_stream]. rewrite read_empty_record. cbn [rec_type rec_data]. by rewrite Z.eqb_refl.
  - cbn [fmap list_fmap concat read_fcgi_stream]. rewrite <- app_assoc, read_write_chunk by done. cbn [rec_type rec_data].
    rewrite Z.eqb_refl, IH by (cbn [length] in Hf; lia). by destruct c.
Qed.

Lemma concat_nonempty_length {A} (cs : list (list A)) : Forall (λ c, c ≠ []) cs → (length cs ≤ length (concat cs))%nat.
Proof.
  induction 1 as [|c cs Hc _ IH]; [done|]. cbn [concat length]. rewrite length_app. destruct c; [done|]. cbn [length]. lia.
Qed.

Lemma write_chunk_length ty id c : (length c < length (write_chunk ty id c))%nat.
Proof. unfold write_chunk, write_fcgi_header. rewrite !length_app. cbn [length to_be_bytes16]. lia. Qed.

Lemma read_written_stream ty id data rest :
  data ≠ [] →
  read_fcgi_stream (S (length (write_fcgi_record ty id data ++ write_fcgi_header ty id 0 0 ++ rest))) ty
    (write_fcgi_record ty id data ++ write_fcgi_header ty id 0 0 ++ rest) = Some (data, rest).
Proof.
  intros Hne. destruct max_content as [Hm1 Hm2].
  destruct (chunks_spec (length data) FCGI_MAX_CONTENT data Hm1) as [Hc Hf]; [lia|].
  set (cs := chunks (length data) FCGI_MAX_CONTENT data) in *.
  assert (Hw : write_fcgi_record ty id data = concat (write_chunk ty id <$> cs)) by (unfold write_fcgi_record, cs; destruct data; [congruence|reflexivity]).
  rewrite Hw, read_records_stream; [by rewrite Hc| |].
  - eapply Forall_impl; [exact Hf|]. intros c [? ?]. split; [done|lia].
  - rewrite length_app. apply Nat.lt_succ_r, (Nat.le_trans _ (length (concat (write_chunk ty id <$> cs)))); [|lia].
    rewrite <- (length_fmap (write_chunk ty id) cs). apply concat_nonempty_length, Forall_fmap, Forall_forall.
    intros c _ E. pose proof (write_chunk_length ty id c) as H. change (write_chunk ty id c = []) in E. rewrite E in H. cbn [length] in H. lia.
Qed.

Lemma encoded_pairs_length (params : list (list Z * list Z)) :
  (length params ≤ length (concat ((λ '(k, v), encode_nv_pair k v) <$> params)))%nat.
Proof.
  rewrite <- (length_fmap (λ '(k, v), encode_nv_pair k v)). apply concat_nonempty_length, Forall_fmap, Forall_forall.
  intros [k v] _ E. cbn in E. unfold encode_nv_pair in E. apply app_nil in E as [E _]. by apply (enc_len_nonempty (length k)).
Qed.

Lemma decode_nv_more params fuel :
  Forall (λ kv, Z.of_nat (length (fst kv)) < 2147483648 ∧ Z.of_nat (length (snd kv)) < 2147483648) params →
  (length params < fuel)%nat →
  decode_nv fuel (concat ((λ '(k, v), encode_nv_pair k v) <$> params)) = Some params.
Proof.
  intros Hp. revert fuel. induction Hp as [|[k v] params [Hk Hv] _ IH]; intros fuel Hf; (destruct fuel as [|fuel]; [cbn in Hf; lia|]); [done|].
  cbn [fst snd] in *. rewrite fmap_cons. cbn [concat]. rewrite decode_nv_step, IH by (done || cbn [length] in Hf; lia). done.
Qed.

(** The request is understood by the application.  A reader of the
    specification finds in the packet a responder request that keeps the
    connection, exactly the variables and exactly the body, whatever their
    sizes; after a request without a body one empty record is left over. *)
Theorem request_packet_roundtrip params body :
  params ≠ [] →
  Forall (λ kv, Z.of_nat (length (fst kv)) < 2147483648 ∧ Z.of_nat (length (snd kv)) < 2147483648) params →
  read_request (request_packet params body)
  = Some ([0; 1; 1; 0; 0; 0; 0; 0], params, body, match body with [] => write_fcgi_header FCGI_STDIN 1 0 0 | _ => [] end).
Proof.
  intros Hne Hp. unfold read_request, request_packet. cbv zeta.
  set (env := concat ((λ '(k, v), encode_nv_pair k v) <$> params)).
  set (tail := write_fcgi_record FCGI_PARAMS 1 env ++ _).
  assert (Hb : read_fcgi (write_fcgi_header FCGI_BEGIN_REQUEST 1 8 0 ++ to_be_bytes16 FCGI_RESPONDER ++ [1] ++ replicate 5 0 ++ tail)
    = Some (mkRecord FCGI_BEGIN_REQUEST [0; 1; 1; 0; 0; 0; 0; 0], tail))
    by (apply (read_write_chunk FCGI_BEGIN_REQUEST 1 [0; 1; 1; 0; 0; 0; 0; 0] tail); cbn; lia).
  rewrite Hb. cbn [mbind option_bind]. subst tail.
  assert (Henv : env ≠ []).
  { intros E. pose proof (encoded_pairs_length params) as Hl. fold env in Hl. rewrite E in Hl. destruct params; [done|]. cbn in Hl. lia. }
  change (write_fcgi_record FCGI_PARAMS 1 []) with (write_fcgi_header FCGI_PARAMS 1 0 0).
  rewrite read_written_stream by done. cbn [mbind option_bind].
  assert (Hd : decode_nv (S (length env)) env = Some params)
    by (apply decode_nv_more; [done|apply Nat.lt_succ_r, encoded_pairs_length]).
  rewrite Hd. cbn [mbind option_bind].
  change (write_fcgi_record FCGI_STDIN 1 []) with (write_fcgi_header FCGI_STDIN 1 0 0).
  destruct body as [|b body].
  - change (write_fcgi_record FCGI_STDIN 1 []) with (write_fcgi_header FCGI_STDIN 1 0 0).
    cbn [read_fcgi_stream]. rewrite read_empty_record. cbn [rec_type rec_data]. rewrite Z.eqb_refl. done.
  - pose proof (read_written_stream FCGI_STDIN 1 (b :: body) []) as Hr. rewrite app_nil_r in Hr. rewrite Hr by done. done.
Qed.

(** ** The handler *)

Section facts.
Context `{L : HeaderLib} (from_utf8_lossy : list Z → list Z) (header_value_bytes : list Z → option (list Z)).
Context (tcp_connect unix_connect : nat → list Z → result app_stream fcgi_connect_error).
Context (encode : coding → Z → reply_body → reply_body).
Context (default_hash : list Z → Z) (json_write : json_entry → list Z) (json_read : list Z → option json_entry).

Notation handle := (handle_fcgi from_utf8_lossy header_value_bytes tcp_connect unix_connect encode default_hash json_read).

Definition request_body_of (q : FcgiRequest) : io (list Z) := if reads_body (y_method q) then collect_body (y_body q) else Done [].

(** A packet is sent only when nothing was cached, a root is configured and the
    body was collected, and every packet is the same. *)
Lemma handle_fcgi_sent now s lr script ef client q st r st' store sent pkt :
  handle now s lr script ef client q st = Ret (FReplied r st' store sent) → pkt ∈ sent →
  ∃ root body remote, (match lr with Some r => Some r | None => fs_root s end) = Some root
    ∧ request_body_of q = Done body ∧ remote_addr s q = Ret remote
    ∧ pkt = request_packet (cgi_params from_utf8_lossy (fcgi_req s root script remote body q)) body.
Proof.
  unfold handle_fcgi, request_body_of. destruct (fcgi_lookup _ _ _ _ _) as [[e|] cache]; [by intros [= <- <- <- <-] ?%not_elem_of_nil|].
  destruct (match lr with Some _ => _ | None => _ end) as [root|]; [|by intros [= <- <- <- <-] ?%not_elem_of_nil].
  intros (limit & _ & H)%outcome_bind_ret. destruct (_ && _); [injection H as <- <- <- <-; by intros ?%not_elem_of_nil|].
  destruct (if reads_body (y_method q) then _ else _) as [body| |]; [|done|done].
  apply outcome_bind_ret in H as (remote & Hr & H). cbn [fe_pool] in H.
  destruct (fcgi_handle _ _ _ _ _ _ _ _ _) as [[[a store0] pool] n].
  intros Hpkt. exists root, body, remote. split_and!; [done|done|done|].
  enough (sent = replicate n (request_packet (cgi_params from_utf8_lossy (fcgi_req s root script remote body q)) body)) as ->
    by (by apply elem_of_replicate in Hpkt as [? _]).
  destruct a as [resp|code]; [|by injection H as <- <- <- <-].
  destruct (compress_response _ _ _ _ _). by injection H as <- <- <- <-.
Qed.

Lemma cgi_params_nonempty r : cgi_params from_utf8_lossy r ≠ [].
Proof.
  unfold cgi_params, cgi_fixed. destruct (match rsplit_once _ _ with Some _ => _ | None => _ end). by destruct (script_of r) as [[? ?] ?].
Qed.

(** C31: The application gets the request.  Whatever connection a request is
    sent on and however often, a reader of the specification finds in the bytes
    a responder request that keeps the connection, exactly the environment of
    the request and the body the handler collected, and after them nothing, or
    one empty STDIN record too many when that body is empty; the variables the
    server computes are there once, so no header of the client replaces them.
    The body collected is the client's for the methods with which one is read
    (POST, PUT, PATCH, DELETE) when it arrives without an error, what arrived before the
    error when not ([fcgi_broken_upload_accepted]), and empty for every other
    method.  Names and values are below 2 GiB. *)
Theorem fcgi_request_faithful now s lr script ef client q st r st' store sent pkt root remote body :
  handle now s lr script ef client q st = Ret (FReplied r st' store sent) → pkt ∈ sent →
  (match lr with Some r => Some r | None => fs_root s end) = Some root → remote_addr s q = Ret remote →
  request_body_of q = Done body →
  let env := cgi_params from_utf8_lossy (fcgi_req s root script remote body q) in
  Forall (λ kv, Z.of_nat (length (fst kv)) < 2147483648 ∧ Z.of_nat (length (snd kv)) < 2147483648) env →
  read_request pkt = Some ([0; 1; 1; 0; 0; 0; 0; 0], env, body, match body with [] => write_fcgi_header FCGI_STDIN 1 0 0 | _ => [] end)
  ∧ (∀ kv, kv ∈ cgi_fixed (fcgi_req s root script remote body q) → filter (λ kv', fst kv' = fst kv) env = [kv])
  ∧ (if reads_body (y_method q) then intact (y_body q) → body = body_data (y_body q) else body = []).
Proof.
  intros Hh Hin Hr Hra Hb env Hlen. split_and!; [|intros kv Hkv; by apply cgi_params_no_override|].
  - destruct (handle_fcgi_sent _ _ _ _ _ _ _ _ _ _ _ _ _ Hh Hin) as (root' & body' & remote' & Hr' & Hb' & Hra' & ->).
    assert (root' = root) as -> by congruence. assert (remote' = remote) as -> by congruence.
    assert (body' = body) as -> by congruence.
    apply request_packet_roundtrip; [apply cgi_params_nonempty|done].
  - unfold request_body_of in Hb. destruct (reads_body _); [|congruence]. intros Hi.
    rewrite collect_body_intact in Hb by done. by injection Hb.
Qed.

(** A broken upload is run as a complete one.  When the client's body ends
    in an error, the application is sent what arrived as if it were all, with a
    CONTENT_LENGTH that agrees. *)
Theorem fcgi_broken_upload_accepted now s lr script ef client q st r st' store sent pkt chunks rest :
  handle now s lr script ef client q st = Ret (FReplied r st' store sent) → pkt ∈ sent →
  reads_body (y_method q) = true → intact chunks → y_body q = chunks ++ BodyError :: rest →
  ∃ env, pkt = request_packet env (body_data chunks)
    ∧ (lit "CONTENT_LENGTH", dec (Z.of_nat (length (body_data chunks)))) ∈ env.
Proof.
  intros Hh Hin Hm Hi Hq. destruct (handle_fcgi_sent _ _ _ _ _ _ _ _ _ _ _ _ _ Hh Hin) as (root & body & remote & _ & Hb & _ & ->).
  assert (body = body_data chunks) as ->.
  { unfold request_body_of in Hb. rewrite Hm, Hq in Hb. clear -Hb Hi. revert body Hb.
    induction Hi as [|i items [bs ->] _ IH]; intros body Hb; cbn [app collect_body body_data] in *; [by injection Hb|].
    destruct (collect_body _) as [b'| |]; [|done|done]. cbn [mbind io_bind] in Hb. injection Hb as <-. by rewrite (IH b'). }
  eexists. split; [reflexivity|]. unfold cgi_params, cgi_fixed. apply elem_of_app. left.
  destruct (match rsplit_once _ _ with Some _ => _ | None => _ end). destruct (script_of _) as [[? ?] ?].
  repeat (apply elem_of_cons; (left; reflexivity) || right).
Qed.

(** ** The cache *)

(** What is stored is the complete response. *)
Lemma fcgi_exchange_stores cache client silent d resp st hs b kept :
  fcgi_exchange from_utf8_lossy header_value_bytes cache client silent d = FxOk resp (Some (st, hs, b)) kept →
  resp = Complete (make_complete_response header_value_bytes st hs b).
Proof.
  assert (Hw : ∀ st0 hs0 b0, write_fcgi_cache cache st0 hs0 b0 = Some (st, hs, b) → st0 = st ∧ hs0 = hs ∧ b0 = b).
  { intros st0 hs0 b0. unfold write_fcgi_cache. destruct cache; [|done]. by destruct (is_cacheable _ _ _); intros [= -> -> ->]. }
  unfold fcgi_exchange. destruct (read_headers_loop _ _ _) as [[[[hb bp] bd] s1]|]; [|by destruct silent].
  destruct (parse_fcgi_headers _) as [status headers]. destruct bd.
  - intros [= <- (-> & -> & ->)%Hw _]. done.
  - destruct (read_body_loop _ _ _) as [[body ends] s2]. destruct ends.
    + intros [= <- (-> & -> & ->)%Hw _]. done.
    + cbv zeta. by destruct (stream_remaining _ _ _ _).
    + destruct silent; [done|]. intros [= <- (-> & -> & ->)%Hw _]. done.
Qed.

Lemma fcgi_attempts_stores rounds attempt cache client addr is_unix p a st hs b p' n :
  fcgi_attempts from_utf8_lossy header_value_bytes tcp_connect unix_connect rounds attempt cache client addr is_unix p
    = (a, Some (st, hs, b), p', n) →
  a = FcgiAnswer (Complete (make_complete_response header_value_bytes st hs b)).
Proof.
  revert attempt p. induction rounds as [|rounds IH]; intros attempt p; cbn [fcgi_attempts]; [done|].
  destruct (fcgi_acquire _ _ _ _ _) as [[c|e] p1]; [|done].
  destruct (fcgi_exchange _ _ _ _ _ _) as [resp store kept| |] eqn:Ex; [|case_test; [apply IH|done]|done].
  intros [= <- -> _ _]. by apply fcgi_exchange_stores in Ex as ->.
Qed.

Context `{HL : !HeaderLaws L}.

Lemma complete_headers st hs b n :
  no_body_status (status_or_ok st) = false → n ∉ [lit "content-type"; lit "content-length"] →
  hm_get_all (w_headers (make_complete_response header_value_bytes st hs b)) n
    = hm_get_all (foldl (append_header header_value_bytes) hm_empty hs) n.
Proof.
  intros Hnb Hn. assert (n ≠ lit "content-type" ∧ n ≠ lit "content-length") as [H1 H2] by (rewrite !not_elem_of_cons in Hn; tauto).
  unfold make_complete_response. cbv zeta. rewrite Hnb. cbn [w_headers]. unfold set_content_length.
  destruct (has_content_type hs), (header_value _); rewrite ?get_all_insert, ?decide_False by done; done.
Qed.

(** The cache repeats the response of the application.  When a response was
    stored, the next request with the same method, host and URI that may look
    into the cache is answered within the lifetime with the same status, bytes
    and headers (all values, in order), and nothing is sent to the
    application. *)
Theorem fcgi_hit_repeats_miss now s lr script ef client q st r st1 status hs b sent
    t o1 o2 c t2 s2 lr2 script2 ef2 client2 q2 :
  handle now s lr script ef client q st = Ret (FReplied r st1 (Some (status, hs, b)) sent) →
  no_body_status (status_or_ok status) = false → fcgi_header_str q (lit "accept-encoding") = None →
  fe_cache st1 = Some c → 0 ≤ t2 - t ≤ ttl c →
  fcgi_key q2 = fcgi_key q → should_lookup c (y_method q2) (fcgi_map q2) = true →
  ∃ r2 st2, handle t2 s2 lr2 script2 ef2 client2 q2
      (mkFcgiState (fe_pool st1) (Some (run_store default_hash json_write t o1 o2 (fcgi_key q) (status, hs, b) c)))
      = Ret (FReplied r2 st2 None [])
    ∧ p_status r2 = p_status r ∧ p_body r2 = p_body r
    ∧ ∀ n, n ∉ [lit "x-cache"; lit "x-cache-status"; lit "content-type"; lit "content-length"] →
        hm_get_all (p_headers r2) n = hm_get_all (p_headers r) n.
Proof.
  intros Hh Hnb Hae Hc Ht Hk Hl.
  assert (Hr : ∃ resp, resp = make_complete_response header_value_bytes status hs b
    ∧ r = mkReply _ (w_status resp) (w_headers resp) (RBytes (w_body resp))).
  { revert Hh. unfold handle_fcgi. destruct (fcgi_lookup _ _ _ _ _) as [[e|] cache]; [done|].
    destruct (match lr with Some _ => _ | None => _ end) as [root|]; [|done].
    intros (limit & _ & H)%outcome_bind_ret. destruct (_ && _); [done|].
    destruct (if reads_body (y_method q) then _ else _) as [body| |]; [|done|done].
    apply outcome_bind_ret in H as (remote & _ & H). cbn [fe_pool] in H.
    destruct (fcgi_handle _ _ _ _ _ _ _ _ _) as [[[a store0] pool] n] eqn:Ea.
    destruct a as [resp|code]; rewrite ?Hae, ?compress_none in H; cbv zeta in H; injection H as Hrep _ -> _;
      unfold fcgi_handle in Ea; apply fcgi_attempts_stores in Ea; [|done]. injection Ea as ->. eexists. split; [reflexivity|].
    rewrite <- Hrep. reflexivity. }
  destruct Hr as (resp & -> & ->). unfold handle_fcgi, fcgi_lookup. cbn [fe_cache].
  rewrite run_store_lookup, Hl, Hk, run_store_get by done. eexists _, _. split; [reflexivity|].
  cbn [p_status p_body p_headers fcgi_hit ce_status ce_body ce_headers]. split_and!.
  - done.
  - unfold make_complete_response. cbv zeta. by rewrite Hnb.
  - intros n Hn. rewrite !not_elem_of_cons in Hn. destruct Hn as (H1 & H2 & H3 & H4 & _).
    rewrite !get_all_insert, !decide_False by done. rewrite complete_headers; [done|done|].
    rewrite !not_elem_of_cons. repeat split; try done. apply not_elem_of_nil.
Qed.

End facts.

(** ** Witnesses *)

Module FcgiEntryWitness.
Import Headers.Model.

Definition app : app_stream := mkApp (wire 1 (FastCgi.Witness.recs ++ [FastCgi.Witness.end_rec])) true.
Definition tcp (n : nat) (a : list Z) : result app_stream fcgi_connect_error := Ok app.
Definition enc (c : coding) (level : Z) (b : reply_body) : reply_body := b.
Definition jw := ProxyCache.Witness.jw.
Definition jr := ProxyCache.Witness.jr.
Definition hash := ProxyCache.Witness.h.
Definition off : effective := mkEffective false 0 false 0 false 0.
Definition site : FcgiSite := mkFcgiSite (Some (lit "/srv")) None None None None 1 (lit "1").
Definition request (method : string) (body : list body_item) : FcgiRequest :=
  mkFcgiRequest (lit method) (Some (lit "/a.php?x=1")) (lit "/a.php") (Some (lit "x=1")) None
    [(lit "host", lit "h"); (lit "script-filename", lit "/etc/passwd")] false (V4 16909060) 5555 body.
Definition st0 : FcgiState := mkFcgiState (fcgi_pool_new 8 1 1) (Some FastCgi.Witness.pc).
Definition run (t : Z) (q : FcgiRequest) (st : FcgiState) := handle_fcgi id Some tcp tcp enc hash jr t site None None off (λ _, true) q st.

Definition replied (o : outcome fcgi_done) : bool := match o with Ret (FReplied _ _ _ _) => true | _ => false end.
Definition reply (o : outcome fcgi_done) : Reply := match o with Ret (FReplied r _ _ _) => r | _ => fcgi_error 0 end.
Definition state (o : outcome fcgi_done) : FcgiState := match o with Ret (FReplied _ s _ _) => s | _ => st0 end.
Definition store (o : outcome fcgi_done) : option stored := match o with Ret (FReplied _ _ s _) => s | _ => None end.
Definition sent (o : outcome fcgi_done) : list (list Z) := match o with Ret (FReplied _ _ _ l) => l | _ => [] end.
Lemma fcgi_run_eta o : replied o = true → o = Ret (FReplied (reply o) (state o) (store o) (sent o)).
Proof. by destruct o as [[]|]. Qed.

Lemma request_packet_roundtrip_witness :
  read_request (request_packet [(lit "A", lit "b")] []) = Some ([0; 1; 1; 0; 0; 0; 0; 0], [(lit "A", lit "b")], [], write_fcgi_header FCGI_STDIN 1 0 0).
Proof. apply (request_packet_roundtrip [(lit "A", lit "b")] []); [done|]. repeat constructor. Defined.

(** A POST whose headers try to choose the script. *)
Definition post := request "POST" [BodyChunk (lit "k="); BodyChunk (lit "v")].
Definition post_env := cgi_params id (fcgi_req site (lit "/srv") None (lit "1.2.3.4") (lit "k=v") post).
Lemma fcgi_request_faithful_witness :
  ∃ pkt, pkt ∈ sent (run 0 post st0) ∧ read_request pkt = Some ([0; 1; 1; 0; 0; 0; 0; 0], post_env, lit "k=v", [])
    ∧ filter (λ kv, fst kv = lit "SCRIPT_FILENAME") post_env = [(lit "SCRIPT_FILENAME", lit "/srv/a.php")].
Proof.
  assert (H : replied (run 0 post st0) = true) by (vm_compute; reflexivity). apply fcgi_run_eta in H.
  assert (Hn : length (sent (run 0 post st0)) = 1%nat) by (vm_compute; reflexivity).
  destruct (sent (run 0 post st0)) as [|pkt ps] eqn:Es; [discriminate|].
  destruct (fcgi_request_faithful id Some tcp tcp enc hash jr 0 site None None off (λ _, true) post st0
    (reply (run 0 post st0)) (state (run 0 post st0)) (store (run 0 post st0)) (pkt :: ps) pkt (lit "/srv") (lit "1.2.3.4") (lit "k=v"))
    as (Hr & Hu & _); [exact H|left|reflexivity|reflexivity|reflexivity| |].
  - apply (bool_decide_unpack _). vm_compute. exact I.
  - exists pkt. split_and!; [left|exact Hr|].
    apply (Hu (lit "SCRIPT_FILENAME", lit "/srv/a.php")). apply (bool_decide_unpack _). vm_compute. exact I.
Defined.

(** Two of the announced bytes arrive. *)
Definition broken := request "POST" ([BodyChunk (lit "k=")] ++ BodyError :: []).
Lemma fcgi_broken_upload_accepted_witness :
  ∃ pkt env, pkt ∈ sent (run 0 broken st0) ∧ pkt = request_packet env (lit "k=") ∧ (lit "CONTENT_LENGTH", lit "2") ∈ env.
Proof.
  assert (H : replied (run 0 broken st0) = true) by (vm_compute; reflexivity). apply fcgi_run_eta in H.
  assert (Hn : length (sent (run 0 broken st0)) = 1%nat) by (vm_compute; reflexivity).
  destruct (sent (run 0 broken st0)) as [|pkt ps] eqn:Es; [discriminate|].
  destruct (fcgi_broken_upload_accepted id Some tcp tcp enc hash jr 0 site None None off (λ _, true) broken st0
    (reply (run 0 broken st0)) (state (run 0 broken st0)) (store (run 0 broken st0)) (pkt :: ps) pkt [BodyChunk (lit "k=")] [])
    as (env & Hp & He); [exact H|left|reflexivity|repeat constructor; eexists; reflexivity|reflexivity|].
  exists pkt, env. split_and!; [left|exact Hp|exact He].
Defined.

Definition cached : ProxyCache := default FastCgi.Witness.pc (fe_cache (state (run 0 (request "GET" []) st0))).
Lemma fcgi_hit_repeats_miss_witness :
  ∃ r2 st2, run (60 * SEC) (request "GET" [])
      (mkFcgiState (fe_pool (state (run 0 (request "GET" []) st0)))
         (Some (run_store hash jw 5 [] [] (fcgi_key (request "GET" [])) (404, FastCgi.Witness.hs, lit "hello") cached)))
      = Ret (FReplied r2 st2 None []) ∧ p_status r2 = 404 ∧ p_body r2 = RBytes (lit "hello").
Proof.
  assert (H : replied (run 0 (request "GET" []) st0) = true) by (vm_compute; reflexivity). apply fcgi_run_eta in H.
  assert (Hs : store (run 0 (request "GET" []) st0) = Some (404, FastCgi.Witness.hs, lit "hello")) by (vm_compute; reflexivity).
  rewrite Hs in H.
  destruct (fcgi_hit_repeats_miss id Some tcp tcp enc hash jw jr 0 site None None off (λ _, true) (request "GET" []) st0
    (reply (run 0 (request "GET" []) st0)) (state (run 0 (request "GET" []) st0)) 404 FastCgi.Witness.hs (lit "hello")
    (sent (run 0 (request "GET" []) st0)) 5 [] [] cached (60 * SEC) site None None off (λ _, true) (request "GET" []))
    as (r2 & st2 & H2 & Hst & Hb & _);
    [exact H|reflexivity|vm_compute; reflexivity|vm_compute; reflexivity|vm_compute; split; congruence|reflexivity|vm_compute; reflexivity|].
  exists r2, st2. split; [exact H2|]. rewrite Hst, Hb. split; vm_compute; reflexivity.
Defined.

End FcgiEntryWitness.
