(* ===== verification/Prometheus.v ===== *)
(** * Metrics for Prometheus: [src/monitor/prometheus.rs]

    The snapshot of the counters of [src/middleware/metrics.rs] as text, and
    what a scraper reads from it.  The two formats of floating-point numbers
    are parameters. *)

From S2P Require Import Prelude RustStr ErrorPage Router Monitor.

Record MetricsSnapshot := mkSnapshot {
  ms_total_requests : Z;
  ms_total_errors_5xx : Z;
  ms_total_errors_4xx : Z;
  ms_total_bytes_sent : Z;
  ms_active_ws_connections : Z;
  ms_active_requests : Z;
}.

(** [GlobalMetrics::snapshot] *)
Definition snapshot (m : GlobalMetrics) : MetricsSnapshot :=
  mkSnapshot (total_requests m) (total_errors_5xx m) (total_errors_4xx m) (total_bytes_sent m)
    (active_ws_connections m) (active_requests m).

(** The two comment lines of a metric. *)
Definition metric_head (name help kind : list Z) : list Z :=
  lit "# HELP " ++ name ++ lit " " ++ help ++ LF :: lit "# TYPE " ++ name ++ lit " " ++ kind ++ [LF].
Definition metric (name help kind value : list Z) : list Z :=
  metric_head name help kind ++ name ++ lit " " ++ value ++ [LF; LF].

Definition status_name (code : Z) : list Z := html "sweety_status_total{code='" ++ dec code ++ html "'}".
Definition status_line (kv : Z * Z) : list Z := status_name (fst kv) ++ lit " " ++ dec (snd kv) ++ [LF].

Section format.
Context {F : Type} (fixed2 fixed6 : F → list Z).      (* [{:.2}], [{:.6}] *)
Context (order : gmap Z Z → list (Z * Z)).             (* the order a hash map is visited in *)

Definition status_vec (r : AnalysisReport (F := F)) : list (Z * Z) := sort_by_key fst (order (ar_statuses r)).

(** [format_metrics] *)
Definition format_metrics (s : MetricsSnapshot) (report : option (AnalysisReport (F := F))) : list Z :=
  metric (lit "sweety_requests_total") (lit "累计处理请求总数") (lit "counter") (dec (ms_total_requests s))
  ++ metric (lit "sweety_active_requests") (lit "当前并发请求数") (lit "gauge") (dec (ms_active_requests s))
  ++ metric (lit "sweety_errors_4xx_total") (lit "累计 4xx 错误数") (lit "counter") (dec (ms_total_errors_4xx s))
  ++ metric (lit "sweety_errors_5xx_total") (lit "累计 5xx 错误数") (lit "counter") (dec (ms_total_errors_5xx s))
  ++ metric (lit "sweety_bytes_sent_total") (lit "累计响应字节数") (lit "counter") (dec (ms_total_bytes_sent s))
  ++ metric (lit "sweety_websocket_connections") (lit "当前活跃 WebSocket 连接数") (lit "gauge") (dec (ms_active_ws_connections s))
  ++ match report with
     | None => []
     | Some r =>
         metric (lit "sweety_avg_response_ms") (lit "近期平均响应时间（毫秒）") (lit "gauge") (fixed2 (ar_avg r))
         ++ metric (lit "sweety_error_rate_5xx") (lit "近期 5xx 错误率") (lit "gauge") (fixed6 (ar_rate_5xx r))
         ++ metric_head (lit "sweety_status_total") (lit "近期各状态码请求数") (lit "counter")
         ++ concat (status_line <$> status_vec r) ++ [LF]
     end.

(** ** What a scraper reads *)

(** A line that is not empty and not a comment is a sample: its name with the
    labels, and after the last space the value. *)
Definition sample (line : list Z) : option (list Z * list Z) :=
  match line with
  | [] => None
  | b :: _ => if b =? 35 then None else rsplit_once SP line
  end.
Definition scrape (text : list Z) : list (list Z * list Z) := omap sample (split_byte LF text).

Definition plain (s : list Z) : Prop := LF ∉ s ∧ SP ∉ s.
Definition named (s : list Z) : Prop := LF ∉ s ∧ s ≠ [] ∧ head s ≠ Some 35.

Lemma scrape_line line rest : LF ∉ line → scrape (line ++ LF :: rest) = option_list (sample line) ++ scrape rest.
Proof.
  intros H. unfold scrape, split_byte. rewrite split_on_app_sep; [|apply Forall_forall; intros b Hb; apply Z.eqb_neq; congruence|apply Z.eqb_refl].
  cbn [omap list_omap]. by destruct (sample line).
Qed.

Lemma sample_value name v : named name → plain v → sample (name ++ lit " " ++ v) = Some (name, v).
Proof.
  intros (_ & Hne & Hh) [_ Hv]. unfold sample. destruct name as [|b name]; [done|]. cbn [app].
  rewrite (proj2 (Z.eqb_neq b 35)) by (intros ->; by apply Hh). unfold rsplit_once.
  change (b :: name ++ lit " " ++ v) with ((b :: name) ++ SP :: v). rewrite rfind_byte_app by done.
  rewrite take_app_length. do 2 f_equal.
  change (SP :: v) with ([SP] ++ v). rewrite app_assoc. apply drop_app_length'. rewrite length_app. cbn [length]. lia.
Qed.

Lemma lit_no_lf : LF ∉ lit "# HELP " ∧ LF ∉ lit "# TYPE " ∧ LF ∉ lit " ".
Proof. split_and!; apply (bool_decide_unpack _); vm_compute; exact I. Qed.

Lemma scrape_head name help kind rest :
  LF ∉ name → LF ∉ help → LF ∉ kind → scrape (metric_head name help kind ++ rest) = scrape rest.
Proof.
  intros Hn Hh Hk. destruct lit_no_lf as (H1 & H2 & H3). unfold metric_head.
  transitivity (scrape ((lit "# HELP " ++ name ++ lit " " ++ help) ++ LF :: (lit "# TYPE " ++ name ++ lit " " ++ kind) ++ LF :: rest)).
  { f_equal. by repeat (rewrite <- app_assoc; cbn [app]). }
  rewrite !scrape_line by (rewrite !elem_of_app; tauto). done.
Qed.

Lemma scrape_sample name v rest : named name → plain v → scrape (name ++ lit " " ++ v ++ LF :: rest) = (name, v) :: scrape rest.
Proof.
  intros Hn Hv. destruct lit_no_lf as (_ & _ & H3).
  transitivity (scrape ((name ++ lit " " ++ v) ++ LF :: rest)); [f_equal; by rewrite <- !app_assoc|].
  rewrite scrape_line, sample_value by (done || destruct Hn, Hv; rewrite !elem_of_app; tauto). done.
Qed.

Lemma scrape_metric name help kind v rest :
  named name → LF ∉ help → LF ∉ kind → plain v → scrape (metric name help kind v ++ rest) = (name, v) :: scrape rest.
Proof.
  intros Hn Hh Hk Hv. unfold metric. rewrite <- app_assoc, scrape_head by (done || apply Hn).
  rewrite <- !app_assoc. cbn [app]. by rewrite scrape_sample.
Qed.

Lemma dec_plain z : 0 ≤ z → plain (dec z).
Proof.
  intros Hz. pose proof (dec_digits z Hz) as Hd. rewrite Forall_forall in Hd.
  split; intros H; specialize (Hd _ H); vm_compute in Hd; discriminate.
Qed.

Lemma status_named code : 0 ≤ code → named (status_name code).
Proof.
  intros Hc. unfold status_name. split_and!; [|done|done]. destruct (dec_plain code Hc) as [Hl _].
  rewrite !elem_of_app. intros [H|[H|H]]; [|done|]; revert H; apply (bool_decide_unpack _); vm_compute; exact I.
Qed.

Lemma scrape_statuses kvs rest :
  Forall (λ kv, 0 ≤ fst kv ∧ 0 ≤ snd kv) kvs →
  scrape (concat (status_line <$> kvs) ++ rest) = ((λ kv, (status_name (fst kv), dec (snd kv))) <$> kvs) ++ scrape rest.
Proof.
  induction 1 as [|[c n] kvs [Hc Hn] _ IH]; [done|]. cbn [fmap list_fmap concat fst snd app] in *.
  unfold status_line at 1. cbn [fst snd]. rewrite <- !app_assoc. cbn [app].
  by rewrite scrape_sample, IH by (apply status_named || apply dec_plain; done).
Qed.

(** The values of a snapshot are counters. *)
Definition snapshot_ok (s : MetricsSnapshot) : Prop :=
  Forall (λ z, 0 ≤ z) [ms_total_requests s; ms_active_requests s; ms_total_errors_4xx s; ms_total_errors_5xx s;
                       ms_total_bytes_sent s; ms_active_ws_connections s].

Definition counters (s : MetricsSnapshot) : list (list Z * list Z) :=
  [(lit "sweety_requests_total", dec (ms_total_requests s)); (lit "sweety_active_requests", dec (ms_active_requests s));
   (lit "sweety_errors_4xx_total", dec (ms_total_errors_4xx s)); (lit "sweety_errors_5xx_total", dec (ms_total_errors_5xx s));
   (lit "sweety_bytes_sent_total", dec (ms_total_bytes_sent s)); (lit "sweety_websocket_connections", dec (ms_active_ws_connections s))].

Ltac literal :=
  lazymatch goal with
  | |- _ ∉ _ => apply (bool_decide_unpack _); vm_compute; exact I
  | |- named _ => split_and!; [apply (bool_decide_unpack _); vm_compute; exact I|vm_compute; discriminate..]
  | |- plain (dec _) => by apply dec_plain
  end.

(** A scraper reads the counters back.  The text has one sample for each
    counter, with its value in decimal, and with a report one for each average
    and, in increasing order, one for each status code with its count; nothing
    else is read as a sample. *)
Theorem metrics_scraped s report :
  snapshot_ok s →
  (∀ x, plain (fixed2 x) ∧ plain (fixed6 x)) → (∀ m, order m ≡ₚ map_to_list m) →
  (∀ r, report = Some r → map_Forall (λ c n, 0 ≤ c ∧ 0 ≤ n) (ar_statuses r)) →
  ∃ codes, scrape (format_metrics s report)
    = counters s ++ match report with
                    | None => []
                    | Some r => (lit "sweety_avg_response_ms", fixed2 (ar_avg r)) :: (lit "sweety_error_rate_5xx", fixed6 (ar_rate_5xx r))
                                :: ((λ kv, (status_name (fst kv), dec (snd kv))) <$> codes)
                    end
    ∧ match report with None => True | Some r => codes ≡ₚ map_to_list (ar_statuses r) ∧ key_sorted fst codes end.
Proof.
  intros Hs Hf Ho Hr. unfold snapshot_ok in Hs. rewrite !Forall_cons in Hs. destruct Hs as (H1 & H2 & H3 & H4 & H5 & H6 & _).
  unfold format_metrics. rewrite !scrape_metric by literal. unfold counters. cbn [app].
  destruct report as [r|]; [|exists []; split; [done|done]].
  assert (Hp : status_vec r ≡ₚ map_to_list (ar_statuses r)) by (unfold status_vec; rewrite sort_by_key_perm; apply Ho).
  exists (status_vec r). split; [|split; [done|apply sort_by_key_sorted]].
  rewrite !scrape_metric by (apply Hf || literal). rewrite scrape_head by literal. rewrite scrape_statuses.
  - do 8 f_equal. unfold scrape. cbn. by rewrite app_nil_r.
  - rewrite Hp. apply Forall_forall. intros [c n] Hin%elem_of_map_to_list. by apply (Hr r).
Qed.

End format.

(** ** Witnesses *)

Module PromWitness.
Definition snap : MetricsSnapshot := mkSnapshot 1000 5 20 1048576 3 10.
Definition report : AnalysisReport (F := unit) := mkReport 905 tt [] [] {[200 := 900; 500 := 5]} 1024 tt.
Lemma metrics_scraped_witness :
  ∃ codes, scrape (format_metrics (λ _ : unit, lit "42.50") (λ _, lit "0.005525") map_to_list snap (Some report))
    = counters snap ++ (lit "sweety_avg_response_ms", lit "42.50") :: (lit "sweety_error_rate_5xx", lit "0.005525")
      :: ((λ kv, (status_name (fst kv), dec (snd kv))) <$> codes)
    ∧ codes ≡ₚ map_to_list (ar_statuses report) ∧ key_sorted fst codes.
Proof.
  apply (metrics_scraped (λ _ : unit, lit "42.50") (λ _, lit "0.005525") map_to_list snap (Some report)).
  - repeat constructor; vm_compute; congruence.
  - intros _. split; split; apply (bool_decide_unpack _); vm_compute; exact I.
  - intros m. reflexivity.
  - intros r [= <-]. apply map_Forall_insert_2; [done|]. apply map_Forall_singleton. done.
Defined.
End PromWitness.
