(* ===== verification/Plugins.v ===== *)
(** * Plugins: [src/handler/plugin/mod.rs]

    The registries of plugins and of custom handlers, the two hooks, and a
    plugin location of the router with them.  A plugin is given by its two
    hooks, a custom handler by its function. *)

From S2P Require Import Prelude RustStr IpAddr Headers Location Rewrite VHost Router.

(** [parse_plugin_name] *)
Definition parse_plugin_name (handler : list Z) : option (list Z) := strip_prefix (lit "plugin:") handler.

Section plugins.
Context `{L : HeaderLib} {R : Type}.

Record PluginRequest := mkPluginRequest {
  pq_method : list Z;
  pq_path : list Z;
  pq_headers : list Z → option (list Z);
  pq_client_ip : list Z;
  pq_body_len : Z;
}.

Inductive PluginResult := Continue | Stop (resp : Response).

Record plugin := mkPlugin { on_request : PluginRequest → PluginResult; on_response : Response → Response }.

(** The defaults of the trait. *)
Definition default_plugin : plugin := mkPlugin (λ _, Continue) (λ r, r).

Record HandlerContext := mkHandlerContext {
  hc_method : list Z;
  hc_path : list Z;
  hc_headers : list Z → option (list Z);
  hc_client_ip : list Z;
  hc_site_name : list Z;
  hc_location_path : list Z;
}.

(** [PluginRegistry] and [HandlerRegistry]. *)
Record Registries := mkRegistries { rg_plugins : gmap (list Z) plugin; rg_handlers : gmap (list Z) (HandlerContext → Response) }.

Definition registries_new : Registries := mkRegistries ∅ ∅.
Definition register_plugin (name : list Z) (p : plugin) (r : Registries) : Registries :=
  mkRegistries (<[name := p]> (rg_plugins r)) (rg_handlers r).
Definition register_handler (name : list Z) (h : HandlerContext → Response) (r : Registries) : Registries :=
  mkRegistries (rg_plugins r) (<[name := h]> (rg_handlers r)).
Definition plugin_names (r : Registries) : list (list Z) := (map_to_list (rg_plugins r)).*1.
Definition handler_names (r : Registries) : list (list Z) := (map_to_list (rg_handlers r)).*1.

(** [run_plugin_request], [run_plugin_response], [run_custom_handler] *)
Definition run_plugin_request (r : Registries) (name : list Z) (req : PluginRequest) : option Response :=
  match rg_plugins r !! name with
  | Some p => match on_request p req with Continue => None | Stop resp => Some resp end
  | None => None
  end.
Definition run_plugin_response (r : Registries) (name : list Z) (resp : Response) : Response :=
  match rg_plugins r !! name with Some p => on_response p resp | None => resp end.
Definition run_custom_handler (r : Registries) (name : list Z) (ctx : HandlerContext) : option Response :=
  (λ h, h ctx) <$> rg_handlers r !! name.

(** What the router hands over. *)
Definition plugin_request (q : Request) (path : list Z) (ip : IpAddr) : PluginRequest :=
  mkPluginRequest (q_method q) path (q_header q) (display_ip ip)
    (default 0 (v ← q_header q (lit "content-length"); parse_uint usize_max v)).
Definition handler_context (site_name location_path : list Z) (q : Request) (path : list Z) (ip : IpAddr) : HandlerContext :=
  mkHandlerContext (q_method q) path (q_header q) (display_ip ip) site_name location_path.

(** The router of a location with these registries. *)
Definition with_plugins (r : Registries) (site_name location_path : list Z) (env : Env (R := R)) : Env :=
  mkEnv (e_max_connections env) (e_max_body_bytes env) (e_h3_ports env) (e_registry env) (e_acme_tokens env) (e_certs_ready env)
    (e_net env) (λ n q path ip, run_plugin_request r n (plugin_request q path ip)) (run_plugin_response r)
    (λ n q path ip, run_custom_handler r n (handler_context site_name location_path q path ip))
    (e_handler env) (e_error_bytes env) (e_fs env) (e_canonicalize env) (e_read env) (e_now env).

(** The hook of the response runs once after a custom handler, and twice when
    there is none. *)
Lemma plugin_location_answer r env site (loc : CompiledLocation (R := R)) q path hp ip st n :
  lc_handler (cl_config loc) = Plugin n →
  let env' := with_plugins r (si_name site) (lc_path (cl_config loc)) env in
  let hook := run_plugin_response r n in
  handle env' site loc q path hp ip st =
    match run_plugin_request r n (plugin_request q path ip) with
    | Some resp => (DPlugin resp, count_status (rp_status resp) st)
    | None =>
        let resp := match run_custom_handler r n (handler_context (si_name site) (lc_path (cl_config loc)) q path ip) with
                    | Some resp => hook resp
                    | None => hook (hook (mkResponse 200 hm_empty []))
                    end in
        let '(resp, st) := finish_response env' site (cl_config loc) q hp ip resp st in (DHandler loc path resp, st)
    end.
Proof.
  intros Hh. cbv zeta. unfold handle, run_handler. rewrite Hh. cbn [e_plugin_request e_plugin_response e_custom_handler with_plugins].
  destruct (run_plugin_request _ _ _); [done|]. by destruct (run_custom_handler _ _ _).
Qed.

(** A plugin nobody registered lets everything pass: the location answers
    200 with an empty body, instead of refusing. *)
Theorem unregistered_plugin_answers_200 r env site (loc : CompiledLocation (R := R)) q path hp ip st n :
  lc_handler (cl_config loc) = Plugin n → rg_plugins r !! n = None → rg_handlers r !! n = None →
  ∃ resp st', handle (with_plugins r (si_name site) (lc_path (cl_config loc)) env) site loc q path hp ip st = (DHandler loc path resp, st')
    ∧ rp_status resp = 200 ∧ rp_body resp = [].
Proof.
  intros Hh Hp Hc. rewrite (plugin_location_answer r env site loc q path hp ip st n Hh).
  unfold run_plugin_request, run_custom_handler, run_plugin_response. rewrite Hp, Hc. cbn [fmap option_fmap option_map].
  unfold finish_response, custom_error_page. cbn [rp_status rp_body]. eexists _, _. split; [reflexivity|done].
Qed.

End plugins.

Module PluginWitness.
Import Headers.Model.
Definition waf : LocationConfig := set_handler (Plugin (lit "my_waf")) Router.Witness.api.
Definition loc : CompiledLocation (R := unit) := compile_location Router.Witness.bld 1 waf.
Lemma unregistered_plugin_answers_200_witness (site : SiteInfo (R := unit)) :
  ∃ resp st', handle (with_plugins registries_new (si_name site) (lc_path (cl_config loc)) Router.Witness.env) site loc
      Router.Witness.req (lit "/") None (V4 1) Router.Witness.st0 = (DHandler loc (lit "/") resp, st')
    ∧ rp_status resp = 200 ∧ rp_body resp = [].
Proof. apply (unregistered_plugin_answers_200 registries_new Router.Witness.env site loc _ _ _ _ _ (lit "my_waf")); reflexivity. Defined.
End PluginWitness.
