(* ===== verification/TlsFiles.v ===== *)
(** * Certificate files and HTTP/3: [src/server/tls.rs], [src/cmd/validate.rs]

    Loading certificates and keys from PEM files, the order of the cipher
    suites, the settings of QUIC end points and the certificate they use, and
    the validation command.  Files, the PEM parser, the signer and the
    configuration builder of rustls are parameters. *)

From S2P Require Import Prelude RustStr Location VHost Config Tls.

(** ** Cipher suites *)

Inductive suite :=
| TLS13_AES_128_GCM_SHA256
| TLS_ECDHE_ECDSA_WITH_AES_128_GCM_SHA256
| TLS_ECDHE_RSA_WITH_AES_128_GCM_SHA256
| TLS13_AES_256_GCM_SHA384
| TLS_ECDHE_ECDSA_WITH_AES_256_GCM_SHA384
| TLS_ECDHE_RSA_WITH_AES_256_GCM_SHA384
| OtherSuite (id : Z).

Definition suite_rank (s : suite) : Z :=
  match s with
  | TLS13_AES_128_GCM_SHA256 => 0
  | TLS_ECDHE_ECDSA_WITH_AES_128_GCM_SHA256 | TLS_ECDHE_RSA_WITH_AES_128_GCM_SHA256 => 1
  | TLS13_AES_256_GCM_SHA384 => 2
  | TLS_ECDHE_ECDSA_WITH_AES_256_GCM_SHA384 | TLS_ECDHE_RSA_WITH_AES_256_GCM_SHA384 => 3
  | OtherSuite _ => 4
  end.

(** [make_crypto_provider] *)
Definition provider_suites (default : list suite) : list suite := sort_by_key suite_rank default.

(** ** Keys *)

Inductive pem_item :=
| Pkcs1Key (der : list Z)
| Pkcs8Key (der : list Z)
| Sec1Key (der : list Z)
| OtherItem.

(** [load_private_key]: the first entry that is a key. *)
Fixpoint load_private_key (items : list pem_item) : option pem_item :=
  match items with
  | [] => None
  | OtherItem :: items => load_private_key items
  | k :: _ => Some k
  end.

(** ** QUIC transport settings *)

Record Http3Config := mkHttp3 {
  h3_max_concurrent_bidi_streams : Z;
  h3_max_concurrent_uni_streams : Z;
  h3_idle_timeout_ms : Z;
  h3_keep_alive_interval_ms : Z;
  h3_receive_window : Z;
  h3_stream_receive_window : Z;
  h3_send_window : Z;
  h3_enable_0rtt : bool;
  h3_mtu_discovery : bool;
  h3_initial_rtt_ms : Z;
  h3_max_ack_delay_ms : Z;
}.

Definition Http3Config_default : Http3Config :=
  mkHttp3 200 100 30000 10000 8388608 2097152 8388608 false true 333 25.

(** What quinn is told; times in milliseconds. *)
Record TransportConfig := mkTransport {
  tc_bidi_streams : Z;
  tc_uni_streams : Z;
  tc_max_idle_timeout : option Z;
  tc_keep_alive_interval : option Z;
  tc_receive_window : Z;
  tc_stream_receive_window : Z;
  tc_send_window : Z;
  tc_mtu_discovery : bool;
  tc_initial_rtt : Z;
  tc_max_ack_delay : option Z;
  tc_bbr_initial_window : option Z;
}.

Definition VARINT_MAX : Z := 4611686018427387903.

(** A value that fits a QUIC variable-length integer, else what was there. *)
Definition varint_or (v old : Z) : Z := if v <=? VARINT_MAX then v else old.

(** [apply_transport_config], on the defaults of quinn. *)
Definition apply_transport_config (tc : TransportConfig) (h3 : Http3Config) : TransportConfig :=
  mkTransport
    (h3_max_concurrent_bidi_streams h3) (h3_max_concurrent_uni_streams h3)
    (if 0 <? h3_idle_timeout_ms h3
     then if h3_idle_timeout_ms h3 <=? VARINT_MAX then Some (h3_idle_timeout_ms h3) else tc_max_idle_timeout tc
     else None)
    (if 0 <? h3_keep_alive_interval_ms h3 then Some (h3_keep_alive_interval_ms h3) else None)
    (varint_or (h3_receive_window h3) (tc_receive_window tc))
    (varint_or (h3_stream_receive_window h3) (tc_stream_receive_window tc))
    (h3_send_window h3)
    (if h3_mtu_discovery h3 then tc_mtu_discovery tc else false)
    (if h3_initial_rtt_ms h3 =? 333 then tc_initial_rtt tc else Z.max (h3_initial_rtt_ms h3) 1)
    (if h3_max_ack_delay_ms h3 =? 25 then tc_max_ack_delay tc else Some (Z.max (h3_max_ack_delay_ms h3) 1))
    (Some 131072).

(** ** Configurations *)

Section files.
Context {SK CFG : Type} (read_file : list Z → option (list Z)) (pem_certs : list Z → option (list (list Z)))
  (pem_items : list Z → list pem_item) (supported : pem_item → option SK) (single_cert : list (list Z) → pem_item → option CFG).
Context (self_signed_config : list Z → option CFG) (cache_dir : list Z) (exists_file : list Z → bool) (tc_default : TransportConfig).

Notation CK := (list (list Z) * SK)%type.

(** [load_certified_key_from_path] *)
Definition load_certified_key (cert key : list Z) : option CK :=
  certs ← (bytes ← read_file cert; pem_certs bytes);
  match certs with
  | [] => None
  | _ => bytes ← read_file key; k ← load_private_key (pem_items bytes); sk ← supported k; Some (certs, sk)
  end.

(** [load_pem_config] *)
Definition load_pem_config (cert key : list Z) : option CFG :=
  certs ← (bytes ← read_file cert; pem_certs bytes);
  match certs with
  | [] => None
  | _ => bytes ← read_file key; k ← load_private_key (pem_items bytes); single_cert certs k
  end.

(** [build_server_config] *)
Definition build_server_config (t : TlsConfig) (names : list (list Z)) : option CFG :=
  if tls_acme t then
    let domain := primary_domain names in
    let cert := acme_cert_path cache_dir domain in
    let key := acme_key_path cache_dir domain in
    if exists_file cert && exists_file key then load_pem_config cert key else self_signed_config domain
  else cert ← tls_cert t; key ← tls_key t; load_pem_config cert key.

(** An end point: its certificate, the early data it accepts, its transport. *)
Record QuicConfig := mkQuic { qc_cert : CFG; qc_alpn : list (list Z); qc_early_data : Z; qc_transport : TransportConfig }.

(** [build_quinn_config_from_pem], [build_quinn_config_self_signed] *)
Definition quinn_from_pem (cert key : list Z) (enable_0rtt : bool) : option QuicConfig :=
  certs ← (bytes ← read_file cert; pem_certs bytes);
  bytes ← read_file key;
  k ← load_private_key (pem_items bytes);
  cfg ← single_cert certs k;
  Some (mkQuic cfg [lit "h3"] (if enable_0rtt then u32_max else 0) tc_default).
Definition quinn_self_signed (domain : list Z) : option QuicConfig :=
  cfg ← self_signed_config domain; Some (mkQuic cfg [lit "h3"] 0 tc_default).

(** [build_quic_config] *)
Definition build_quic_config (t : TlsConfig) (h3 : Http3Config) (names : list (list Z)) : option QuicConfig :=
  q ← (if tls_acme t then
         let domain := primary_domain names in
         let cert := acme_cert_path cache_dir domain in
         let key := acme_key_path cache_dir domain in
         if exists_file cert && exists_file key then quinn_from_pem cert key (h3_enable_0rtt h3) else quinn_self_signed domain
       else match tls_certs t with
            | first :: _ => quinn_from_pem (ck_cert first) (ck_key first) (h3_enable_0rtt h3)
            | [] => cert ← tls_cert t; key ← tls_key t; quinn_from_pem cert key (h3_enable_0rtt h3)
            end);
  Some (mkQuic (qc_cert q) (qc_alpn q) (qc_early_data q) (apply_transport_config (qc_transport q) h3)).

(** ** [cmd_validate] *)

Definition set_single (t : TlsConfig) (p : CertKeyPair) : TlsConfig :=
  mkTls false (tls_acme_email t) (Some (ck_cert p)) (Some (ck_key p)) [] (tls_min_version t) (tls_max_version t)
    (tls_renew_days_before t) (tls_acme_provider t) (tls_acme_challenge t) (tls_protocols t).

Definition validate_tls (t : TlsConfig) (names : list (list Z)) : bool :=
  if tls_acme t then true
  else
    (match tls_cert t, tls_key t with
     | Some _, Some _ => bool_decide (is_Some (build_server_config t names))
     | _, _ => true
     end)
    && forallb (λ p, bool_decide (is_Some (build_server_config (set_single t p) names))) (tls_certs t).

Definition cmd_validate (sites : list SiteFile) : bool :=
  forallb (λ s, match cf_tls s with Some t => validate_tls t (cf_server_name s) | None => true end) sites.

(** ** What validation promises *)

(** A configuration can be built only of a chain and a key rustls can sign with. *)
Context (single_cert_spec : ∀ certs k cfg, single_cert certs k = Some cfg → certs ≠ [] ∧ is_Some (supported k)).

Lemma pem_config_key cert key cfg : load_pem_config cert key = Some cfg → is_Some (load_certified_key cert key).
Proof using single_cert_spec.
  unfold load_pem_config, load_certified_key. destruct (read_file cert ≫= pem_certs) as [[|c certs]|]; cbn; [done| |done].
  destruct (read_file key) as [bytes|]; cbn; [|done]. destruct (load_private_key (pem_items bytes)) as [k|]; cbn; [|done].
  intros [_ [sk ->]]%single_cert_spec. cbn. eauto.
Qed.

Lemma omap_total {A B} (f : A → option B) (l : list A) : Forall (λ x, is_Some (f x)) l → length (omap f l) = length l.
Proof. induction 1 as [|x l [y Hy] _ IH]; [done|]. cbn. rewrite Hy. cbn. by rewrite IH. Qed.

(** C25: A configuration that passed validation starts with all its
    certificates.  When the command accepts, every site that is not left to
    ACME and that the loader accepts gets every certificate it configures: the
    start skips none, so no host of it is left without one. *)
Theorem validated_certificates_load (self_signed : list Z → option CK) sites s t :
  cmd_validate sites = true → s ∈ sites → cf_tls s = Some t → tls_acme t = false → check_tls t = None →
  length (build_certified_keys cache_dir exists_file load_certified_key self_signed t (cf_server_name s))
  = match tls_certs t with [] => 1%nat | ps => length ps end.
Proof using single_cert_spec.
  intros Hv Hs Ht Ha Hc. unfold cmd_validate in Hv. rewrite forallb_forall in Hv. specialize (Hv s (proj1 (list_elem_of_In _ _) Hs)).
  rewrite Ht in Hv. unfold validate_tls in Hv. rewrite Ha in Hv. apply andb_true_iff in Hv as [H1 H2].
  unfold build_certified_keys. rewrite Ha. destruct (tls_certs t) as [|p ps] eqn:Ep.
  - unfold check_tls in Hc. rewrite Ha, Ep in Hc. destruct (tls_cert t) as [cert|] eqn:Ec; [|done]. destruct (tls_key t) as [key|] eqn:Ek; [|done].
    apply bool_decide_eq_true in H1 as [cfg Hb]. unfold build_server_config in Hb. rewrite Ha, Ec, Ek in Hb. cbn in Hb.
    apply pem_config_key in Hb as [ck ->]. done.
  - rewrite <- Ep in *. apply omap_total, Forall_forall. intros x Hx. rewrite forallb_forall in H2.
    specialize (H2 x (proj1 (list_elem_of_In _ _) Hx)). apply bool_decide_eq_true in H2 as [cfg Hb]. cbn in Hb. by apply pem_config_key in Hb.
Qed.

(** HTTP/3 shows the same certificate.  The end point of a site with
    certificates of its own uses the first certificate that handshakes over
    TCP choose from. *)
Theorem quic_certificate_agrees (self_signed : list Z → option CK) t h3 names q :
  tls_acme t = false → build_quic_config t h3 names = Some q →
  ∃ certs k sk rest, single_cert certs k = Some (qc_cert q) ∧ supported k = Some sk
    ∧ build_certified_keys cache_dir exists_file load_certified_key self_signed t names = (certs, sk) :: rest.
Proof using single_cert_spec.
  intros Ha. unfold build_quic_config. rewrite Ha.
  assert (Hq : ∀ cert key e q0, quinn_from_pem cert key e = Some q0 →
      ∃ certs k sk, single_cert certs k = Some (qc_cert q0) ∧ supported k = Some sk ∧ load_certified_key cert key = Some (certs, sk)).
  { intros cert key e q0. unfold quinn_from_pem, load_certified_key. destruct (read_file cert ≫= pem_certs) as [certs|]; cbn; [|done].
    destruct (read_file key) as [bytes|]; cbn; [|done]. destruct (load_private_key (pem_items bytes)) as [k|]; cbn; [|done].
    destruct (single_cert certs k) as [cfg|] eqn:E; cbn; [|done]. intros [= <-]. apply single_cert_spec in E as H. destruct H as [Hne [sk Hsk]].
    exists certs, k, sk. rewrite Hsk. by destruct certs. }
  unfold build_certified_keys. rewrite Ha. destruct (tls_certs t) as [|p ps].
  - destruct (tls_cert t) as [cert|]; cbn; [|done]. destruct (tls_key t) as [key|]; cbn; [|done].
    destruct (quinn_from_pem cert key _) as [q0|] eqn:E; cbn; [|done]. intros [= <-].
    apply Hq in E as (certs & k & sk & ? & ? & ->). by exists certs, k, sk, [].
  - destruct (quinn_from_pem (ck_cert p) (ck_key p) _) as [q0|] eqn:E; cbn; [|done]. intros [= <-].
    apply Hq in E as (certs & k & sk & ? & ? & ->). by exists certs, k, sk, (omap (λ p, load_certified_key (ck_cert p) (ck_key p)) ps).
Qed.

End files.

(** ** Transport limits *)

(** Whatever the configuration says, the windows and the idle timeout handed to
    quinn are values QUIC can express, if quinn's own are. *)
Theorem transport_values_fit tc h3 :
  tc_receive_window tc ≤ VARINT_MAX → tc_stream_receive_window tc ≤ VARINT_MAX → (∀ v, tc_max_idle_timeout tc = Some v → v ≤ VARINT_MAX) →
  let r := apply_transport_config tc h3 in
  tc_receive_window r ≤ VARINT_MAX ∧ tc_stream_receive_window r ≤ VARINT_MAX ∧ (∀ v, tc_max_idle_timeout r = Some v → v ≤ VARINT_MAX).
Proof.
  intros H1 H2 H3. cbn. unfold varint_or. split_and!; repeat case_test; try lia; intros v; repeat case_test; naive_solver lia.
Qed.

(** ** One end point per port *)

Lemma h3_step_inv acc sp : NoDup (fst <$> acc) → NoDup (fst <$> h3_step acc sp).
Proof.
  intros Hn. unfold h3_step. destruct (existsb _ acc) eqn:E; [done|]. rewrite fmap_app. apply NoDup_app. split_and!; [done| |apply NoDup_singleton].
  intros p Hp ->%list_elem_of_singleton. apply list_elem_of_fmap in Hp as (e & Heq & He). cbn in Heq.
  assert (existsb (λ e, fst e =? snd sp) acc = true); [|congruence]. apply existsb_exists. exists e. split; [by apply list_elem_of_In|].
  apply Z.eqb_eq. congruence.
Qed.

(** Every HTTP/3 handshake on a port gets the same certificate.  A port has
    one end point, of the first site that asks for it, and an end point has one
    certificate: the names of the other sites of the port are not covered. *)
Theorem h3_port_has_one_site sites p s s' :
  (p, s) ∈ collect_h3_ports sites → (p, s') ∈ collect_h3_ports sites → s = s'.
Proof.
  intros H1 H2. unfold collect_h3_ports in *.
  assert (Hn : ∀ l acc, NoDup (fst <$> acc) → NoDup (fst <$> foldl h3_step acc l)).
  { induction l as [|x l IH]; intros acc Ha; [done|]. cbn. by apply IH, h3_step_inv. }
  specialize (Hn (concat ((λ s, match cf_tls s with
    | Some t => if existsb (str_eqb (lit "h3")) (tls_protocols t) then (s,.) <$> cf_listen_tls s else []
    | None => [] end) <$> sites)) [] NoDup_nil_2).
  apply list_elem_of_lookup in H1 as [i Hi], H2 as [j Hj].
  assert (i = j) as ->; [|congruence].
  apply (proj1 (NoDup_alt _) Hn i j p); rewrite list_lookup_fmap; by rewrite ?Hi, ?Hj.
Qed.

(** ** Witnesses *)

Module FilesWitness.

(** A file is its PEM text; a certificate is a line, a key is supported when it
    is of the PKCS 8 form, and fits a chain when they begin with the same byte. *)
Definition read (p : list Z) : option (list Z) := if bool_decide (p = []) then None else Some p.
Definition certs_of (b : list Z) : option (list (list Z)) := Some [b].
Definition items (b : list Z) : list pem_item := [OtherItem; Pkcs8Key b].
Definition sign (k : pem_item) : option (list Z) := match k with Pkcs8Key d => Some d | _ => None end.
Definition single (certs : list (list Z)) (k : pem_item) : option (list Z) :=
  match certs, sign k with c :: _, Some d => if bool_decide (head c = head d) then Some d else None | _, _ => None end.
Lemma single_spec certs k cfg : single certs k = Some cfg → certs ≠ [] ∧ is_Some (sign k).
Proof. unfold single. destruct certs, (sign k); done. Qed.

Definition t : TlsConfig :=
  mkTls false None None None [mkPair (lit "a.pem") (lit "a.key"); mkPair (lit "b.pem") (lit "b.key")] (lit "tls1.2") (lit "tls1.3") 30
    (lit "letsencrypt") (lit "http01") [lit "h3"].
Definition s : SiteFile := Tls.Witness.site "a" ["a.test"]%string t.

Lemma validated_certificates_load_witness :
  length (build_certified_keys (lit "/c") (λ _, false) (load_certified_key read certs_of items sign) (λ _, None) t [lit "a.test"]) = 2%nat.
Proof.
  apply (validated_certificates_load (CFG := list Z) read certs_of items sign single (λ _, None) (lit "/c") (λ _, false) single_spec (λ _, None) [s] s t);
    [vm_compute; reflexivity|left|reflexivity..].
Defined.

Definition tc : TransportConfig := mkTransport 100 100 (Some 30000) None 1250000 1250000 10000000 true 333 None None.
Lemma quic_certificate_agrees_witness :
  ∃ certs k sk rest, sign k = Some sk
    ∧ build_certified_keys (lit "/c") (λ _, false) (load_certified_key read certs_of items sign) (λ _, None) t [] = (certs, sk) :: rest.
Proof.
  destruct (quic_certificate_agrees read certs_of items sign single (λ _, None) (lit "/c") (λ _, false) tc single_spec (λ _, None) t
    Http3Config_default [] (mkQuic (lit "a.key") [lit "h3"] 0 (apply_transport_config tc Http3Config_default)))
    as (certs & k & sk & rest & _ & Hk & Hb); [reflexivity|reflexivity|].
  exists certs, k, sk, rest. split; [exact Hk|exact Hb].
Defined.

Lemma transport_values_fit_witness : tc_receive_window (apply_transport_config tc (mkHttp3 1 1 1 1 u64_max 1 1 false true 333 25)) ≤ VARINT_MAX.
Proof.
  destruct (transport_values_fit tc (mkHttp3 1 1 1 1 u64_max 1 1 false true 333 25)) as [H _];
    [vm_compute; discriminate|vm_compute; discriminate|intros v [= <-]; vm_compute; discriminate|exact H].
Defined.

Lemma h3_port_has_one_site_witness : ∀ s', (443, s') ∈ collect_h3_ports [s; Tls.Witness.site "b" ["b.test"]%string t] → s = s'.
Proof.
  intros s' Hs. apply (h3_port_has_one_site [s; Tls.Witness.site "b" ["b.test"]%string t] 443 s s'); [|exact Hs].
  assert (E : collect_h3_ports [s; Tls.Witness.site "b" ["b.test"]%string t] = [(443, s)]) by (vm_compute; reflexivity). rewrite E. left.
Defined.

End FilesWitness.
