(* ===== verification/FileStreams.v ===== *)
(** * Streams that read or send whole files: [src/handler/sendfile.rs]

    The ways of [sendfile.rs] to move a file that do not read by position: the
    memory-mapped stream, the stream over any reader, and [sendfile(2)] on Linux
    and on macOS; and the semaphore that bounds the streams of [Sendfile].  What
    the system calls answer is a list, one entry per call. *)

From S2P Require Import Prelude RustStr Retry Http1 Sendfile.

Definition STREAM_CHUNK : nat := Z.to_nat 32768.
Definition SENDFILE_MAX : nat := Z.to_nat 2097152.

Lemma STREAM_CHUNK_val : Z.of_nat STREAM_CHUNK = 32768.
Proof. unfold STREAM_CHUNK. lia. Qed.
Lemma SENDFILE_MAX_val : Z.of_nat SENDFILE_MAX = 2097152.
Proof. unfold SENDFILE_MAX. lia. Qed.
#[global] Opaque STREAM_CHUNK SENDFILE_MAX.

(** ** The permits of the streams *)

(** The amount of [MemAvailable:] in [/proc/meminfo], in kB. *)
Definition mem_available (meminfo : option (list Z)) : option Z :=
  s ← meminfo;
  l ← List.find (starts_with (lit "MemAvailable:")) (lines s);
  v ← split_whitespace l !! 1%nat;
  parse_uint u64_max v.

(** [pread_semaphore]: the number of permits on Linux. *)
Definition pread_permits (meminfo : option (list Z)) : outcome Z :=
  let avail := default (512 * 1024) (mem_available meminfo) in
  let product := Z.min usize_max (avail * 1024) * 70 in
  if product <=? usize_max then Ret (Z.max 32 (Z.min 2048 (product / 100 / (1024 * 1024)))) else Panic.

(** A stream takes a permit before its first read and gives it back when it ends
    or is dropped. *)
Inductive stream_phase := Waiting | Reading | Ended.

#[export] Instance stream_phase_eq_dec : EqDecision stream_phase.
Proof. solve_decision. Defined.

Inductive permit_step : nat * list stream_phase → nat * list stream_phase → Prop :=
| permit_start free ps : permit_step (free, ps) (free, ps ++ [Waiting])
| permit_acquire i free ps :
    ps !! i = Some Waiting → permit_step (S free, ps) (free, <[i := Reading]> ps)
| permit_end i free ps :
    ps !! i = Some Reading → permit_step (free, ps) (S free, <[i := Ended]> ps)
| permit_cancel i free ps :
    ps !! i = Some Waiting → permit_step (free, ps) (free, <[i := Ended]> ps).

Definition reading (ps : list stream_phase) : nat := length (filter (.= Reading) ps).

(** ** The memory-mapped stream *)

(** Reading a mapping of [len] bytes at [off]: bytes after the end of the file
    within its last page are zero, a page wholly after the end ends the process. *)
Definition mapped (page : nat) (content : list Z) (off len : nat) : outcome (list Z) :=
  let size := length content in
  let limit := ((size + page - 1) / page * page)%nat in
  if (off + len <=? limit)%nat then Ret (take len (drop off content ++ zeros (limit - size))) else Panic.

(** [mmap_file_stream]: [map_ok] says whether the mapping at an offset succeeds. *)
Fixpoint mmap_chunks (fuel page : nat) (map_ok : nat → bool) (content : list Z) (total off : nat)
  : outcome (list (list Z) * stream_result) :=
  match fuel with
  | O => Ret ([], StreamDone)
  | S fuel =>
      if (off <? total)%nat then
        let stop := Nat.min (off + STREAM_CHUNK) total in
        let len := (stop - off)%nat in
        if map_ok off then
          bytes ← mapped page content off len;
          '(cs, r) ← mmap_chunks fuel page map_ok content total stop;
          Ret (bytes :: cs, r)
        else Ret ([], StreamError)
      else Ret ([], StreamDone)
  end.

Definition mmap_file_stream (page : nat) (map_ok : nat → bool) (content : list Z) (file_size : nat)
  : outcome (list (list Z) * stream_result) :=
  if (file_size =? 0)%nat then Ret ([], StreamDone) else mmap_chunks (S file_size) page map_ok content file_size 0.

(** ** The stream over a reader *)

Inductive read_call := ReadGot (n : nat) | ReadError.

Definition backpressure_chunk (len : nat) : nat :=
  if Z.of_nat len <=? 65536 then Z.to_nat 16384 else STREAM_CHUNK.

(** The loop of [file_stream_backpressure]; [rest] is what the reader still has. *)
Fixpoint backpressure_chunks (calls : list read_call) (chunk remaining : nat) (rest : list Z)
  : list (list Z) * stream_result :=
  match remaining with
  | O => ([], StreamDone)
  | _ =>
      match calls with
      | [] => ([], StreamBlocked)
      | ReadError :: _ => ([], StreamError)
      | ReadGot n :: calls =>
          match rest with
          | [] => ([], StreamDone)
          | _ =>
              let m := read_len n (Nat.min remaining chunk) (length rest) in
              let '(cs, r) := backpressure_chunks calls chunk (remaining - m) (drop m rest) in
              (take m rest :: cs, r)
          end
      end
  end.

Definition file_stream_backpressure (calls : list read_call) (len : nat) (content : list Z) : list (list Z) * stream_result :=
  backpressure_chunks calls (backpressure_chunk len) len content.

(** [file_stream_fallback] *)
Definition file_stream_fallback := file_stream_backpressure.

(** ** sendfile *)

(** One turn on Linux: waiting for the socket fails, the call sends up to [n]
    bytes, would block, or fails.  At the end of the file it sends nothing. *)
Inductive linux_call := LReadyError | LSent (n : nat) | LAgain | LError.

(** The bytes that reach the socket and the result; the system call moves [off]. *)
Fixpoint sendfile_linux (calls : list linux_call) (content : list Z) (off rem : nat) (wire : list Z)
  : list Z * io nat :=
  match rem with
  | O => (wire, Done (length wire))
  | _ =>
      match calls with
      | [] => (wire, Blocked)
      | LReadyError :: _ | LError :: _ => (wire, Failed)
      | LAgain :: calls => sendfile_linux calls content off rem wire
      | LSent n :: calls =>
          match drop off content with
          | [] => (wire, Done (length wire))
          | rest =>
              let m := read_len n (Nat.min rem SENDFILE_MAX) (length rest) in
              sendfile_linux calls content (off + m) (rem - m) (wire ++ take m rest)
          end
      end
  end.

(** On macOS a call reports how much it sent in [len] also when it fails. *)
Inductive mac_ret := MOk | MAgain | MError.
Inductive mac_call := MReadyError | MSent (n : nat) (ret : mac_ret).

(** How many of the wanted bytes a call sends: none at the end of the file. *)
Definition mac_len (n want avail : nat) (ret : mac_ret) : nat :=
  match avail, ret with
  | O, _ => O
  | _, MOk => read_len n want avail
  | _, _ => Nat.min n (Nat.min want avail)
  end.

Fixpoint sendfile_macos (calls : list mac_call) (content : list Z) (off rem : nat) (wire : list Z)
  : list Z * io nat :=
  match rem with
  | O => (wire, Done (length wire))
  | _ =>
      match calls with
      | [] => (wire, Blocked)
      | MReadyError :: _ => (wire, Failed)
      | MSent n ret :: calls =>
          let rest := drop off content in
          let len := mac_len n (Nat.min rem SENDFILE_MAX) (length rest) ret in
          match ret with
          | MError => (wire ++ take len rest, Failed)
          | MOk | MAgain => sendfile_macos calls content (off + len) (rem - len) (wire ++ take len rest)
          end
      end
  end.

(** [sendfile_to_socket] of the two systems. *)
Definition sendfile_to_socket_linux (calls : list linux_call) (content : list Z) (offset count : nat) : list Z * io nat :=
  sendfile_linux calls content offset count [].
Definition sendfile_to_socket_macos (calls : list mac_call) (content : list Z) (offset count : nat) : list Z * io nat :=
  sendfile_macos calls content offset count [].

Inductive target_os := Linux | MacOs | Windows.
Definition has_sendfile (os : target_os) : bool := match os with Linux | MacOs => true | Windows => false end.

(** ** Permits *)

(** The permits are between 32 and 2048, and above the floor one MiB each stays within 70% of the
    available memory. *)
Theorem permits_bounded meminfo n :
  pread_permits meminfo = Ret n →
  32 ≤ n ≤ 2048 ∧ (n = 32 ∨ 100 * (n * 1048576) ≤ 70 * (default 524288 (mem_available meminfo) * 1024)).
Proof.
  unfold pread_permits. change (512 * 1024) with 524288. set (a := default _ _).
  destruct (Z.leb_spec (Z.min usize_max (a * 1024) * 70) usize_max) as [H|H]; [|discriminate].
  intros [= <-]. split; [lia|].
  set (p := Z.min usize_max (a * 1024) * 70) in *. change (1024 * 1024) with 1048576.
  destruct (Z.le_gt_cases (p / 100 / 1048576) 32) as [Hq|Hq]; [left; lia|right].
  assert (100 * (p / 100 / 1048576 * 1048576) ≤ p).
  { rewrite Z.div_div by lia. pose proof (Z.mul_div_le p (100 * 1048576) ltac:(lia)). lia. }
  lia.
Qed.

Lemma reading_app ps qs : reading (ps ++ qs) = (reading ps + reading qs)%nat.
Proof. unfold reading. by rewrite filter_app, length_app. Qed.

Lemma reading_insert i p q ps :
  ps !! i = Some p → (reading (<[i := q]> ps) + reading [p] = reading ps + reading [q])%nat.
Proof.
  revert i. induction ps as [|r ps IH]; intros [|i] H; [done|done|injection H as <-|].
  - change (reading ([q] ++ ps) + reading [r] = reading ([r] ++ ps) + reading [q])%nat. rewrite !reading_app. lia.
  - specialize (IH i H).
    change (reading ([r] ++ <[i := q]> ps) + reading [p] = reading ([r] ++ ps) + reading [q])%nat. rewrite !reading_app. lia.
Qed.

(** However streams start, wait, end and are dropped, free permits and reading streams add up to
    the permits of the start: never more streams read than there are permits, and a stream waits
    only while all permits are in use. *)
Theorem permits_conserved n free ps :
  rtc permit_step (n, []) (free, ps) → (free + reading ps = n)%nat.
Proof.
  intros H. apply (rtc_ind_r (λ s, fst s + reading (snd s) = n)%nat (n, [])) in H; [done|cbn; lia|].
  clear H. intros s s' _ Hs IH. inversion Hs; subst; cbn [fst snd] in *.
  - rewrite reading_app. change (reading [Waiting]) with 0%nat. lia.
  - pose proof (reading_insert i Waiting Reading ps0 H) as E.
    change (reading [Waiting]) with 0%nat in E. change (reading [Reading]) with 1%nat in E. lia.
  - pose proof (reading_insert i Reading Ended ps0 H) as E.
    change (reading [Ended]) with 0%nat in E. change (reading [Reading]) with 1%nat in E. lia.
  - pose proof (reading_insert i Waiting Ended ps0 H) as E.
    change (reading [Waiting]) with 0%nat in E. change (reading [Ended]) with 0%nat in E. lia.
Qed.

(** ** The memory-mapped stream *)

Lemma page_limit page size :
  (0 < page)%nat → (size ≤ (size + page - 1) / page * page < size + page)%nat.
Proof.
  intros Hp. pose proof (Nat.div_mod_eq (size + page - 1) page). pose proof (Nat.mod_upper_bound (size + page - 1) page). nia.
Qed.

Lemma mapped_inside page content off len :
  (0 < page)%nat → (off + len ≤ length content)%nat → mapped page content off len = Ret (take len (drop off content)).
Proof.
  intros Hp H. unfold mapped. pose proof (page_limit page (length content) Hp).
  destruct (Nat.leb_spec (off + len) ((length content + page - 1) / page * page)); [|lia].
  by rewrite take_app_le by (rewrite length_drop; lia).
Qed.

Lemma mmap_chunks_exact fuel page content off :
  (0 < page)%nat → (off ≤ length content)%nat → (length content - off < fuel)%nat →
  ∃ cs, mmap_chunks fuel page (λ _, true) content (length content) off = Ret (cs, StreamDone)
        ∧ concat cs = drop off content ∧ Forall (λ c, (1 ≤ length c ≤ STREAM_CHUNK)%nat) cs.
Proof.
  intros Hp. pose proof STREAM_CHUNK_val. revert off. induction fuel as [|fuel IH]; intros off Ho Hf; [lia|]. cbn [mmap_chunks].
  destruct (Nat.ltb_spec off (length content)).
  2: { exists []. split_and!; [done|by rewrite drop_ge by lia|constructor]. }
  set (stop := Nat.min (off + STREAM_CHUNK) (length content)).
  rewrite mapped_inside by lia. cbn [mbind outcome_bind].
  destruct (IH stop) as (cs & -> & Hc & Hall); [lia..|]. cbn.
  eexists. split_and!; [done| |constructor; [rewrite length_take, length_drop; lia|done]].
  cbn [concat]. rewrite Hc. replace stop with (off + (stop - off))%nat by lia.
  rewrite <- drop_drop. replace (off + (stop - off) - off)%nat with (stop - off)%nat by lia. apply take_drop.
Qed.

(** A file that keeps its size is mapped exactly: the slices concatenate to the file, none is empty
    or longer than the chunk size. *)
Theorem mmap_stream_exact page content :
  (0 < page)%nat →
  ∃ cs, mmap_file_stream page (λ _, true) content (length content) = Ret (cs, StreamDone)
        ∧ concat cs = content ∧ Forall (λ c, (1 ≤ length c ≤ STREAM_CHUNK)%nat) cs.
Proof.
  intros Hp. unfold mmap_file_stream. destruct (Nat.eqb_spec (length content) 0) as [E|E].
  - exists []. apply nil_length_inv in E as ->. by split_and!.
  - apply mmap_chunks_exact; lia.
Qed.

Lemma mmap_chunks_truncated fuel page content total off :
  (0 < page)%nat → (length content + page ≤ total)%nat → (off < total)%nat → (total - off < fuel)%nat →
  mmap_chunks fuel page (λ _, true) content total off = Panic.
Proof.
  intros Hp Ht. pose proof STREAM_CHUNK_val. revert off. induction fuel as [|fuel IH]; intros off Ho Hf; [lia|]. cbn [mmap_chunks].
  destruct (Nat.ltb_spec off total); [|lia]. set (stop := Nat.min (off + STREAM_CHUNK) total).
  destruct (mapped page content off (stop - off)) as [b|] eqn:Em; [|done]. cbn [mbind outcome_bind].
  destruct (Nat.lt_ge_cases stop total); [by rewrite IH by lia|exfalso].
  unfold mapped in Em. pose proof (page_limit page (length content) Hp).
  destruct (Nat.leb_spec (off + (stop - off)) ((length content + page - 1) / page * page)); [lia|discriminate].
Qed.

(** A file cut by a page or more after its size was read ends the process (SIGBUS). *)
Theorem mmap_truncated_kills page content total :
  (0 < page)%nat → (length content + page ≤ total)%nat →
  mmap_file_stream page (λ _, true) content total = Panic.
Proof.
  intros Hp Ht. unfold mmap_file_stream. destruct (Nat.eqb_spec total 0); [lia|]. apply mmap_chunks_truncated; lia.
Qed.

(** ** The stream over a reader *)

Definition no_read_error (calls : list read_call) : Prop := Forall (λ c, ∃ n, c = ReadGot n) calls.

Lemma backpressure_chunk_pos len : (1 ≤ backpressure_chunk len)%nat.
Proof. unfold backpressure_chunk. pose proof STREAM_CHUNK_val. destruct (_ <=? _); lia. Qed.

Lemma backpressure_chunks_exact calls chunk rem rest :
  (1 ≤ chunk)%nat → no_read_error calls → (Nat.min rem (S (length rest)) ≤ length calls)%nat →
  ∃ cs, backpressure_chunks calls chunk rem rest = (cs, StreamDone)
        ∧ concat cs = take rem rest ∧ Forall (λ c, (1 ≤ length c ≤ chunk)%nat) cs.
Proof.
  intros Hc. revert rem rest. induction calls as [|c calls IH]; intros rem rest Hne Hlen.
  { destruct rem; [|cbn in Hlen; lia]. exists []. by rewrite take_0. }
  destruct rem as [|rem]; [exists []; by rewrite take_0|].
  apply Forall_cons in Hne as [[n ->] Hne]. cbn [backpressure_chunks].
  destruct rest as [|b rest]; [exists []; by rewrite take_nil|]. set (s := b :: rest) in *.
  set (m := read_len n (Nat.min (S rem) chunk) (length s)).
  assert (Hm : (1 ≤ m ≤ Nat.min (Nat.min (S rem) chunk) (length s))%nat) by (apply read_len_bounds; [lia|cbn; lia]).
  destruct (IH (S rem - m)%nat (drop m s)) as (cs & -> & Hcs & Hall); [done|rewrite length_drop; change (length (_ :: calls)) with (S (length calls)) in Hlen; lia|].
  eexists. split_and!; [done|cbn [concat]; rewrite Hcs; apply take_drop_take; lia|].
  constructor; [rewrite length_take; lia|done].
Qed.

(** The stream over a reader passes on the first [len] bytes of the reader and ends.  A reader that
    ends before is not an error: the stream ends with what there was. *)
Theorem backpressure_exact calls len content :
  no_read_error calls → (Nat.min len (S (length content)) ≤ length calls)%nat →
  ∃ cs, file_stream_backpressure calls len content = (cs, StreamDone)
        ∧ concat cs = take len content ∧ Forall (λ c, (1 ≤ length c ≤ backpressure_chunk len)%nat) cs.
Proof. apply backpressure_chunks_exact, backpressure_chunk_pos. Qed.

(** ** sendfile *)

Definition is_sent (c : linux_call) : bool := match c with LSent _ => true | _ => false end.
Definition linux_fine (calls : list linux_call) : Prop := LReadyError ∉ calls ∧ LError ∉ calls.
Definition sents (calls : list linux_call) : nat := length (filter (λ c, is_sent c = true) calls).

Lemma linux_fine_cons c calls : linux_fine (c :: calls) → linux_fine calls ∧ c ≠ LReadyError ∧ c ≠ LError.
Proof. intros [H1 H2]. apply not_elem_of_cons in H1 as [], H2 as []. by repeat split. Qed.

Lemma sendfile_linux_exact calls content off rem wire :
  linux_fine calls → (Nat.min rem (S (length content - off)) ≤ sents calls)%nat →
  let data := take rem (drop off content) in
  sendfile_linux calls content off rem wire = (wire ++ data, Done (length (wire ++ data))).
Proof.
  revert off rem wire. induction calls as [|c calls IH]; intros off rem wire Hf Hs data; subst data.
  { destruct rem; [|cbn in Hs; lia]. cbn. by rewrite take_0, app_nil_r. }
  destruct rem as [|rem]; [cbn [sendfile_linux]; by rewrite take_0, app_nil_r|].
  apply linux_fine_cons in Hf as (Hf & Hc1 & Hc2). destruct c as [|n| |]; try congruence; cbn [sendfile_linux].
  - assert (E : sents (LSent n :: calls) = S (sents calls)) by done. rewrite E in Hs. clear E.
    destruct (drop off content) as [|b rest] eqn:Ed; [by rewrite take_nil, app_nil_r|]. rewrite <- Ed.
    set (m := read_len n (Nat.min (S rem) SENDFILE_MAX) (length (drop off content))).
    assert (Hl : (1 ≤ length (drop off content))%nat) by (rewrite Ed; cbn; lia).
    assert (Hm : (1 ≤ m ≤ Nat.min (Nat.min (S rem) SENDFILE_MAX) (length (drop off content)))%nat).
    { apply read_len_bounds; [|done]. pose proof SENDFILE_MAX_val. lia. }
    rewrite length_drop in Hm, Hl. rewrite IH by (done || lia).
    rewrite <- app_assoc, <- drop_drop. by rewrite take_drop_take by lia.
  - apply IH; done.
Qed.

(** On Linux the call moves exactly the range, cut at the end of the file, however the kernel splits
    the transfer, and returns its length. *)
Theorem sendfile_linux_sends_range calls content off count :
  linux_fine calls → (Nat.min count (S (length content - off)) ≤ sents calls)%nat →
  let data := take count (drop off content) in
  sendfile_to_socket_linux calls content off count = (data, Done (length data)).
Proof. intros. by apply sendfile_linux_exact. Qed.

Lemma sendfile_macos_prefix calls content off rem wire :
  ∃ k, (k ≤ rem)%nat ∧ fst (sendfile_macos calls content off rem wire) = wire ++ take k (drop off content)
       ∧ (∀ n, snd (sendfile_macos calls content off rem wire) = Done n →
               k = rem ∧ (off + k ≤ length content ∨ rem = 0)%nat ∧ n = length (wire ++ take k (drop off content))).
Proof.
  revert off rem wire. induction calls as [|c calls IH]; intros off rem wire;
    (destruct rem as [|rem]; [exists 0%nat; cbn; rewrite take_0, app_nil_r; split_and!; naive_solver|]).
  { exists 0%nat. cbn. rewrite take_0, app_nil_r. split_and!; [lia|done|discriminate]. }
  destruct c as [|n ret]; cbn [sendfile_macos].
  { exists 0%nat. cbn. rewrite take_0, app_nil_r. split_and!; [lia|done|discriminate]. }
  set (rest := drop off content). set (len := mac_len n (Nat.min (S rem) SENDFILE_MAX) (length rest) ret).
  assert (Hlen : (len ≤ Nat.min (S rem) (length rest))%nat).
  { subst len. unfold mac_len. pose proof SENDFILE_MAX_val. destruct (length rest) as [|l] eqn:El; [lia|].
    destruct ret; [|lia..]. pose proof (read_len_bounds n (Nat.min (S rem) SENDFILE_MAX) (S l)). lia. }
  assert (Hgo : ∃ k, (k ≤ S rem)%nat
     ∧ fst (sendfile_macos calls content (off + len) (S rem - len) (wire ++ take len rest)) = wire ++ take k rest
     ∧ ∀ n, snd (sendfile_macos calls content (off + len) (S rem - len) (wire ++ take len rest)) = Done n →
            k = S rem ∧ (off + k ≤ length content ∨ S rem = 0)%nat ∧ n = length (wire ++ take k rest)).
  { destruct (IH (off + len)%nat (S rem - len)%nat (wire ++ take len rest)) as (k & Hk & Hw & Hd).
    assert (E : (wire ++ take len rest) ++ take k (drop (off + len) content) = wire ++ take (len + k) rest).
    { rewrite <- app_assoc, <- drop_drop. f_equal. fold rest.
      rewrite <- (take_drop_take len (len + k)) by lia. do 2 f_equal. lia. }
    rewrite E in *. exists (len + k)%nat. split_and!; [lia|done|].
    intros n0 H. destruct (Hd n0 H) as (-> & Hin & ->). subst rest. rewrite length_drop in Hlen. split_and!; [lia|lia|done]. }
  destruct ret; [exact Hgo|exact Hgo|]. exists len. split_and!; [lia|done|discriminate].
Qed.

(** On macOS the count of the last call is not looked at: where the range goes beyond the end of the
    file the loop never returns with a result, whatever the system answers. *)
Theorem sendfile_macos_spins calls content off count :
  (length content < off + count)%nat → (0 < count)%nat →
  ∀ n, snd (sendfile_to_socket_macos calls content off count) ≠ Done n.
Proof.
  intros H H0 n Hd. destruct (sendfile_macos_prefix calls content off count []) as (k & _ & _ & Hk).
  destruct (Hk n Hd) as (-> & Hin & _). lia.
Qed.

(** With every call answered by success it turns for ever. *)
Theorem sendfile_macos_blocked n content off count k :
  (length content ≤ off)%nat → (0 < count)%nat →
  sendfile_to_socket_macos (replicate k (MSent n MOk)) content off count = ([], Blocked).
Proof.
  intros Ho Hc. destruct count as [|count]; [lia|]. unfold sendfile_to_socket_macos.
  assert (Hd : drop off content = []) by (apply drop_ge; lia).
  induction k as [|k IH]; [done|]. cbn [replicate sendfile_macos]. rewrite Hd. cbn [length mac_len].
  rewrite Nat.sub_0_r, Nat.add_0_r, take_nil. exact IH.
Qed.

(** On both systems a result is the number of bytes that reached the socket, and these are the range. *)
Theorem sendfile_systems_agree lcalls mcalls content off count n m :
  linux_fine lcalls → (Nat.min count (S (length content - off)) ≤ sents lcalls)%nat →
  snd (sendfile_to_socket_macos mcalls content off count) = Done m →
  snd (sendfile_to_socket_linux lcalls content off count) = Done n →
  m = n ∧ fst (sendfile_to_socket_macos mcalls content off count) = fst (sendfile_to_socket_linux lcalls content off count).
Proof.
  intros Hf Hs Hm Hn. unfold sendfile_to_socket_linux in *.
  rewrite sendfile_linux_exact in * by done. cbn [fst snd app] in *. injection Hn as <-.
  destruct (sendfile_macos_prefix mcalls content off count []) as (k & _ & Hw & Hk).
  destruct (Hk m Hm) as (-> & _ & ->). done.
Qed.

Module StreamWitness.

Definition meminfo : option (list Z) :=
  Some (lit "MemTotal: 16000000 kB" ++ [LF] ++ lit "MemAvailable:  1000000 kB" ++ [LF]).

Lemma permits_bounded_witness : pread_permits meminfo = Ret 683 ∧ 32 ≤ 683 ≤ 2048.
Proof.
  assert (H : pread_permits meminfo = Ret 683) by (vm_compute; reflexivity).
  split; [exact H|exact (proj1 (permits_bounded meminfo 683 H))].
Defined.

Lemma permits_conserved_witness :
  rtc permit_step (1%nat, []) (0%nat, [Reading; Waiting]) ∧ (0 + reading [Reading; Waiting] = 1)%nat.
Proof.
  assert (H : rtc permit_step (1%nat, []) (0%nat, [Reading; Waiting])).
  { eapply rtc_l; [apply permit_start|]. eapply rtc_l; [apply permit_start|].
    eapply rtc_l; [by apply (permit_acquire 0)|]. apply rtc_refl. }
  split; [exact H|exact (permits_conserved 1 0 _ H)].
Defined.

Lemma mmap_truncated_kills_witness : mmap_file_stream 4 (λ _, true) (lit "abc") 7 = Panic.
Proof. apply mmap_truncated_kills; cbn; lia. Defined.

Lemma backpressure_exact_witness :
  ∃ cs, file_stream_backpressure (replicate 6 (ReadGot 2)) 9 (lit "hello") = (cs, StreamDone) ∧ concat cs = lit "hello".
Proof.
  destruct (backpressure_exact (replicate 6 (ReadGot 2)) 9 (lit "hello")) as (cs & H & Hc & _).
  - repeat constructor; by eexists.
  - cbn. lia.
  - exists cs. split; [exact H|exact Hc].
Defined.

Lemma sendfile_linux_witness :
  sendfile_to_socket_linux (LSent 2 :: LAgain :: replicate 4 (LSent 9)) (lit "hello") 1 9 = (lit "ello", Done 4%nat).
Proof.
  rewrite sendfile_linux_sends_range; [reflexivity| |vm_compute; lia].
  split; set_solver.
Defined.

End StreamWitness.
