(* ===== verification/Process.v ===== *)
(** * Process control: [src/main.rs], [src/cli.rs], [src/util.rs], [src/cmd/daemon.rs], [src/cmd/run.rs]

    The commands that start and stop servers, as operations on the machine they
    run on: the servers that are running and the PID file.  [sweety stop] is the
    one of [Cli], interpreted on the machine.  Also the preparations of
    [sweety run]: the limit of open files, the log filter and the panic hook. *)

From S2P Require Import Prelude RustStr Http1 Headers ProxyCache LoadBalance VHost Config Tls HotReload Json AdminServer AdminConfig AdminRoutes Cli FileHeaders.

(** ** The command line *)

Inductive Commands := Run | Start | Stop | Restart | Reload | Validate | ApiDoc | Version.

Record CliArgs := mkCli { cli_command : option Commands; cli_config : option (list Z); cli_pid_file : option (list Z) }.

(** The paths of [Cli]: the option or its default. *)
Definition config_path (a : CliArgs) : list Z := default (lit "config/sweety.toml") (cli_config a).
Definition pid_path (a : CliArgs) : list Z := default (lit "/var/run/sweety.pid") (cli_pid_file a).

(** [default_config_path] of the loader, which reads the environment. *)
Definition default_config_path (sweety_config : option (list Z)) : list Z := default (lit "config/sweety.toml") sweety_config.

(** ** The machine *)

(** The servers that run, each with whether it stops on SIGTERM, and the PID
    files by path. *)
Record Machine := mkMachine { m_procs : gmap Z bool; m_files : gmap (list Z) (list Z) }.

Definition kill_one (pid : Z) (s : signal) (m : Machine) : Machine :=
  match m_procs m !! pid, s with
  | Some true, SIGTERM | Some _, SIGKILL => mkMachine (delete pid (m_procs m)) (m_files m)
  | _, _ => m
  end.

Definition do_action (path : list Z) (m : Machine) (a : stop_action) : Machine :=
  match a with
  | Kill pid s => kill_one pid s m
  | RemovePidFile => mkMachine (m_procs m) (delete path (m_files m))
  end.

(** What [kill] answers for the SIGTERM: the process exists or not.  [other]
    answers for the numbers that address no single process. *)
Definition kill_answer (other : Z → kill_result) (m : Machine) (pid : Z) : kill_result :=
  if pid <=? 0 then other pid else if bool_decide (is_Some (m_procs m !! pid)) then KillOk else NoSuchProcess.

(** The checks of the wait: every 100 ms, on the machine after the SIGTERM. *)
Definition checks_on (alive : bool) : list (bool * Z) := (λ k, (alive, 100 * (Z.of_nat k + 1))) <$> seq 0 50.

Definition pid_in_file (path : list Z) (m : Machine) : Z :=
  match m_files m !! path ≫= λ t, parse_uint u32_max (trim t) with Some p => as_pid_t p | None => 0 end.

Definition alive_after_term (path : list Z) (m : Machine) : bool :=
  bool_decide (is_Some (m_procs (kill_one (pid_in_file path m) SIGTERM m) !! pid_in_file path m)).

(** [cmd_stop] on the machine: its exit status and what is left. *)
Definition exec_stop (other : Z → kill_result) (path : list Z) (m : Machine) : Z * Machine :=
  match cmd_stop (m_files m !! path) (kill_answer other m) (checks_on (alive_after_term path m)) with
  | Some (how, acts) => (match how with StopError => 1 | _ => 0 end, fold_left (do_action path) acts m)
  | None => (1, m)
  end.

(** [cmd_start]: the configuration loads, the child is spawned as process
    [pid], its number is written. *)
Definition cmd_start (load_ok : bool) (spawn : option (Z * bool)) (write_ok : bool) (path : list Z) (m : Machine) : Z * Machine :=
  if negb load_ok then (1, m)
  else match spawn with
       | None => (1, m)
       | Some (pid, obeys) =>
           (0, mkMachine (<[pid := obeys]> (m_procs m)) (if write_ok then <[path := dec pid]> (m_files m) else m_files m))
       end.

(** [cmd_stop] on Windows: what [taskkill] answers, [None] when it cannot be run. *)
Definition exec_stop_windows (taskkill : Z → gmap Z bool → option (bool * gmap Z bool)) (path : list Z) (m : Machine) : Z * Machine :=
  match m_files m !! path ≫= λ t, parse_uint u32_max (trim t) with
  | None => (1, m)
  | Some pid =>
      match taskkill pid (m_procs m) with
      | Some (_, procs) => (0, mkMachine procs (delete path (m_files m)))
      | None => (1, m)
      end
  end.

(** The branches of [main] that start and stop servers; the others leave the
    machine as it is and end with [status]. *)
Definition exec_command (other : Z → kill_result) (load_ok : bool) (spawn : option (Z * bool)) (write_ok : bool) (status : Z)
    (a : CliArgs) (m : Machine) : Z * Machine :=
  match default Run (cli_command a) with
  | Start => cmd_start load_ok spawn write_ok (pid_path a) m
  | Stop => exec_stop other (pid_path a) m
  | Restart =>
      let '(code, m1) := exec_stop other (pid_path a) m in
      if code =? 0 then cmd_start load_ok spawn write_ok (pid_path a) m1 else (code, m1)
  | Run | Reload | Validate | ApiDoc | Version => (status, m)
  end.

(** ** [sweety run] *)

Definition RLIM_INFINITY : Z := u64_max.
Definition NOFILE_TARGET : Z := 1048576.

Record rlimit := mkLimit { rlim_cur : Z; rlim_max : Z }.

(** [raise_nofile_limit]; [setrlimit old new] is [None] when it fails. *)
Definition raise_nofile_limit (setrlimit : rlimit → rlimit → option rlimit) (old : rlimit) : rlimit :=
  let hard := if negb (rlim_max old =? RLIM_INFINITY) && (rlim_max old <? NOFILE_TARGET) then NOFILE_TARGET else rlim_max old in
  let target_soft := if hard =? RLIM_INFINITY then NOFILE_TARGET else hard in
  if rlim_cur old <? target_soft then default old (setrlimit old (mkLimit target_soft hard)) else old.

(** The panic hook: the text of a panic. *)
Inductive payload := PStr (s : list Z) | PString (s : list Z) | POther.
Definition panic_message (p : payload) (location : option (list Z * Z)) : list Z :=
  let msg := match p with PStr s | PString s => s | POther => lit "(unknown panic payload)" end in
  let loc := match location with Some (file, line) => file ++ lit ":" ++ dec line | None => lit "(unknown location)" end in
  lit "PANIC: " ++ msg ++ lit " at " ++ loc.

Section logging.
Context {F : Type} (env_filter : list Z → option F).

(** The filter of [cmd_run]: the environment's, or the level of the configuration. *)
Definition base_filter (log_level : list Z) : list Z := log_level ++ lit ",quinn_udp=error".
Definition log_filter (env : option F) (lossy : list Z → F) (log_level : list Z) : F :=
  default (lossy (base_filter log_level)) env.

(** [set_log_reload_handle]: a cell written once; [set_log_level] on it. *)
Definition set_log_reload_handle (f : F) (cell : option F) : option F := match cell with Some g => Some g | None => Some f end.
Definition set_log_level (level : list Z) (cell : option F) : result (option F) unit :=
  match cell with
  | None => Err tt
  | Some _ => match env_filter level with Some f => Ok (Some f) | None => Err tt end
  end.
End logging.

(** [load_cfg_or_exit] *)
Definition load_cfg_or_exit {C E} (r : result C E) : C + Z := match r with Ok c => inl c | Err _ => inr 1 end.

(** ** The configuration file *)

Section loading.
Context (from_toml from_json from_yaml : list Z → option (list SiteFile)) (to_lowercase : list Z → list Z).

(** The parser the extension chooses; [None] for one that is not supported. *)
Definition parser_of (path : list Z) : option (list Z → option (list SiteFile)) :=
  let ext := to_lowercase (default (lit "toml") (extension path)) in
  if str_eqb ext (lit "toml") then Some from_toml
  else if str_eqb ext (lit "json") then Some from_json
  else if str_eqb ext (lit "yaml") || str_eqb ext (lit "yml") then Some from_yaml
  else None.

(** [load_config]: reading, parsing, expanding and checking. *)
Definition load_config_file (files : gmap (list Z) (list Z)) (path : list Z) : option (list SiteFile) :=
  content ← files !! path;
  if utf8_valid content then parse ← parser_of path; load_config (parse content) else None.

(** [cmd_run]: the exit status, the limit of open files, the log filter, and the
    sites that are served; [serve] says whether the server ends without error. *)
Record RunOutcome (F : Type) := mkRun { ro_status : Z; ro_limit : rlimit; ro_filter : option F; ro_sites : option (list SiteFile) }.

Definition cmd_run {F : Type} (setrlimit : rlimit → rlimit → option rlimit) (limit : rlimit) (files : gmap (list Z) (list Z))
    (log_level : list SiteFile → list Z) (env : option F) (lossy : list Z → F) (serve : list SiteFile → bool) (path : list Z)
    (cell : option F) : RunOutcome F :=
  let limit := raise_nofile_limit setrlimit limit in
  match load_config_file files path with
  | None => mkRun F 1 limit cell None
  | Some cfg =>
      mkRun F (if serve cfg then 0 else 1) limit (set_log_reload_handle (log_filter env lossy (log_level cfg)) cell) (Some cfg)
  end.

End loading.

(** ** Starting and stopping *)

Definition valid_pid (pid : Z) : Prop := 0 < pid < 2 ^ 31.

Lemma trim_dec z : 0 ≤ z → trim (dec z) = dec z.
Proof.
  intros H. apply trim_visible. eapply Forall_impl; [by apply dec_digits|].
  intros b Hb. unfold is_ascii_digit in Hb. unfold visible. lia.
Qed.

Lemma wait_gone : wait_exit (checks_on false) = Some true.
Proof. reflexivity. Qed.
Lemma wait_stubborn : wait_exit (checks_on true) = Some false.
Proof. vm_compute. reflexivity. Qed.

Lemma pid_in_file_dec path m pid :
  valid_pid pid → m_files m !! path = Some (dec pid) → pid_in_file path m = pid.
Proof.
  intros [H0 H1] Hf. unfold pid_in_file, as_pid_t. rewrite Hf. cbn [mbind option_bind].
  rewrite trim_dec, parse_uint_dec by (unfold u32_max, u64_max; lia). case_test; lia.
Qed.

(** [sweety stop] on the machine: the server of the PID file is gone, whether it stops on SIGTERM
    or not and also when it had gone before; no other server is touched and the file is removed. *)
Theorem stop_stops other path m pid :
  valid_pid pid → m_files m !! path = Some (dec pid) →
  exec_stop other path m = (0, mkMachine (delete pid (m_procs m)) (delete path (m_files m))).
Proof.
  intros Hv Hf. unfold exec_stop, alive_after_term. rewrite (pid_in_file_dec path m pid) by done.
  unfold cmd_stop. rewrite Hf, trim_dec, parse_uint_dec by (unfold valid_pid, u32_max, u64_max in *; lia).
  replace (as_pid_t pid) with pid by (unfold as_pid_t, valid_pid in *; case_test; lia).
  unfold kill_answer at 1. case_test; [unfold valid_pid in *; lia|].
  destruct m as [procs files]. unfold kill_one. cbn [m_procs m_files] in *.
  destruct (procs !! pid) as [[]|] eqn:Ep; rewrite ?Ep.
  - cbn [m_procs]. rewrite lookup_delete_eq, (bool_decide_true (is_Some (Some true))), bool_decide_false by (eauto || by intros []).
    rewrite wait_gone. cbn [fold_left do_action]. unfold kill_one. cbn [m_procs]. by rewrite Ep.
  - rewrite !bool_decide_true by eauto. rewrite wait_stubborn. cbn [fold_left do_action]. unfold kill_one. cbn [m_procs].
    rewrite Ep. cbn [m_procs]. by rewrite Ep.
  - rewrite bool_decide_false by by intros []. cbn [fold_left do_action]. unfold kill_one. cbn [m_procs m_files].
    rewrite Ep. cbn [m_procs m_files]. rewrite (delete_id procs pid) by done. reflexivity.
Qed.

(** On Windows the PID file goes also when the server could not be ended, and the command succeeds. *)
Theorem windows_stop_forgets_server taskkill path m pid :
  valid_pid pid → m_files m !! path = Some (dec pid) → taskkill pid (m_procs m) = Some (false, m_procs m) →
  exec_stop_windows taskkill path m = (0, mkMachine (m_procs m) (delete path (m_files m))).
Proof.
  intros Hv Hf Ht. unfold exec_stop_windows. rewrite Hf. cbn [mbind option_bind].
  rewrite trim_dec, parse_uint_dec by (unfold valid_pid, u32_max, u64_max in *; lia). by rewrite Ht.
Qed.

(** Starting and stopping is a round trip: what was running before is running after. *)
Theorem start_stop_roundtrip other path m pid obeys :
  valid_pid pid → m_procs m !! pid = None → m_files m !! path = None →
  exec_stop other path (snd (cmd_start true (Some (pid, obeys)) true path m)) = (0, m).
Proof.
  intros Hv Hp Hf. cbn [cmd_start negb snd]. rewrite (stop_stops _ _ _ pid) by (done || apply lookup_insert_eq).
  cbn [m_procs m_files]. rewrite !delete_insert_id by done. by destruct m.
Qed.

(** The second of two starts overwrites the PID file of the first without looking at it: after a stop
    the first server still runs, and a further stop or restart ends with an error. *)
Theorem second_start_orphans_first other path m p po q qo :
  valid_pid q → p ≠ q →
  let m' := snd (exec_stop other path
              (snd (cmd_start true (Some (q, qo)) true path (snd (cmd_start true (Some (p, po)) true path m))))) in
  m_procs m' !! p = Some po ∧ fst (exec_stop other path m') = 1 ∧ snd (exec_stop other path m') = m'.
Proof.
  intros Hq Hne m'. subst m'. cbn [cmd_start negb snd m_procs m_files].
  rewrite (stop_stops _ _ _ q) by (done || apply lookup_insert_eq). cbn [snd m_procs m_files].
  split; [by rewrite lookup_delete_ne, lookup_insert_ne, lookup_insert_eq by congruence|].
  unfold exec_stop. cbn [m_files]. by rewrite lookup_delete_eq.
Qed.

(** [sweety restart] without a PID file starts nothing: the stop ends the process of the command. *)
Theorem restart_needs_pid_file other load_ok spawn write_ok status a m :
  cli_command a = Some Restart → m_files m !! pid_path a = None →
  exec_command other load_ok spawn write_ok status a m = (1, m).
Proof. intros Hc Hf. unfold exec_command, exec_stop. rewrite Hc. cbn [default]. by rewrite Hf. Qed.

(** A machine on which exactly one server runs, the one of the PID file. *)
Definition one_server (path : list Z) (m : Machine) : Prop :=
  ∃ pid obeys, valid_pid pid ∧ m_procs m = {[ pid := obeys ]} ∧ m_files m !! path = Some (dec pid).

(** Restarts, however many and whether the servers stop on SIGTERM or have to be killed, keep exactly
    one server running, and the PID file names it. *)
Theorem restarts_keep_one_server other status a spawns m :
  cli_command a = Some Restart → Forall (λ s, valid_pid (fst s)) spawns → one_server (pid_path a) m →
  one_server (pid_path a) (fold_left (λ m s, snd (exec_command other true (Some s) true status a m)) spawns m).
Proof.
  intros Hc Hs. revert m. induction Hs as [|[q qo] spawns Hq _ IH]; intros m (p & po & Hp & Hm & Hf); [by exists p, po|].
  cbn [fold_left]. apply IH. unfold exec_command. rewrite Hc. cbn [default]. rewrite (stop_stops _ _ _ p) by done.
  cbn [cmd_start negb snd Z.eqb]. exists q, qo. cbn [m_procs m_files]. rewrite Hm.
  split_and!; [done|by rewrite delete_singleton_eq|apply lookup_insert_eq].
Qed.

(** [sweety start] reports success as soon as the child exists: what it exits with does not depend on
    whether the PID file could be written or what the child does. *)
Theorem start_status load_ok spawn write_ok path m :
  fst (cmd_start load_ok spawn write_ok path m) = 0 ↔ load_ok = true ∧ is_Some spawn.
Proof. unfold cmd_start. destruct load_ok, spawn as [[]|]; cbn; naive_solver. Qed.

(** ** The limit of open files *)

(** Where the hard limit is at least the target or there is none, the soft limit reaches it. *)
Theorem limit_raised setrlimit old :
  (∀ new, rlim_cur new ≤ rlim_max new → rlim_max new = rlim_max old → setrlimit old new = Some new) →
  NOFILE_TARGET ≤ rlim_max old ≤ RLIM_INFINITY →
  let new := raise_nofile_limit setrlimit old in
  rlim_max new = rlim_max old ∧ NOFILE_TARGET ≤ rlim_cur new ∧ rlim_cur old ≤ rlim_cur new.
Proof.
  intros Hset Hmax. unfold raise_nofile_limit, NOFILE_TARGET, RLIM_INFINITY, u64_max in *.
  rewrite (proj2 (Z.ltb_ge (rlim_max old) 1048576)) by lia. rewrite andb_false_r. cbv zeta.
  destruct (Z.eqb_spec (rlim_max old) 18446744073709551615) as [E|E]; case_test.
  - rewrite Hset by (cbn [rlim_cur rlim_max]; lia). cbn [from_option id rlim_cur rlim_max]. lia.
  - lia.
  - rewrite Hset by (cbn [rlim_cur rlim_max]; lia). cbn [from_option id rlim_cur rlim_max]. lia.
  - lia.
Qed.

(** A process that may not raise its hard limit keeps its soft limit as well when the hard limit is
    below the target: the one call asks for both, and its failure is not noticed. *)
Theorem low_hard_limit_keeps_soft setrlimit old :
  (∀ new, rlim_max old < rlim_max new → setrlimit old new = None) →
  rlim_max old < NOFILE_TARGET → raise_nofile_limit setrlimit old = old.
Proof.
  intros Hset Hmax. unfold raise_nofile_limit, NOFILE_TARGET, RLIM_INFINITY, u64_max in *.
  destruct (Z.eqb_spec (rlim_max old) 18446744073709551615); [lia|]. rewrite (proj2 (Z.ltb_lt (rlim_max old) 1048576)) by lia. cbn [negb andb].
  case_test; [|done]. by rewrite Hset by (cbn [rlim_max]; lia).
Qed.

(** ** The log filter *)

(** A reload sets the bare level: the directive that [sweety run] adds for a noisy library is lost
    even where the level parses the same way. *)
Theorem reload_drops_directive {F} (env_filter : list Z → option F) f level :
  env_filter level = Some f →
  set_log_level env_filter level (set_log_reload_handle f None) = Ok (env_filter level)
  ∧ base_filter level ≠ level.
Proof.
  intros H. cbn. rewrite H. split; [done|]. unfold base_filter. intros E.
  apply (f_equal length) in E. rewrite length_app in E. cbn in E. lia.
Qed.

(** ** What is loaded *)

Section loaded.
Context (from_toml from_json from_yaml : list Z → option (list SiteFile)) (to_lowercase : list Z → list Z).
Notation load := (load_config_file from_toml from_json from_yaml to_lowercase).

(** A file whose extension is not one of the four is refused, whatever it holds. *)
Theorem other_extension_refused files path ext :
  extension path = Some ext → to_lowercase ext ∉ [lit "toml"; lit "json"; lit "yaml"; lit "yml"] → load files path = None.
Proof.
  intros He Hn. unfold load_config_file, parser_of. rewrite He. cbn [default].
  rewrite !not_elem_of_cons in Hn. destruct Hn as (H1 & H2 & H3 & H4 & _).
  unfold str_eqb. rewrite !bool_decide_false by done. cbn [orb]. destruct (files !! path) as [c|]; cbn [mbind option_bind]; [|done]. by destruct (utf8_valid c).
Qed.

(** [sweety run] serves a configuration that passes every check or none: every site it serves is well
    formed, and without such a configuration the process ends with status 1. *)
Theorem run_serves_valid {F : Type} setrlimit limit files log_level (env : option F) lossy serve path cell :
  let r := cmd_run from_toml from_json from_yaml to_lowercase setrlimit limit files log_level env lossy serve path cell in
  match ro_sites _ r with
  | Some sites => Forall site_ok sites
  | None => ro_status _ r = 1 ∧ ro_filter _ r = cell
  end.
Proof.
  cbv zeta. unfold cmd_run. destruct (load files path) as [cfg|] eqn:E; [|done]. cbn [ro_sites].
  unfold load_config_file in E. destruct (files !! path) as [c|]; cbn [mbind option_bind] in E; [|done].
  destruct (utf8_valid c); [|done]. destruct (parser_of _ _ _ _ _); [|done]. by apply load_config_ok in E.
Qed.

End loaded.

Module ProcessWitness.

Definition idle : Machine := mkMachine ∅ ∅.
Definition path : list Z := lit "/run/s.pid".
Definition restart : CliArgs := mkCli (Some Restart) None (Some path).
Definition any (pid : Z) : kill_result := KillFailed.

Lemma start_stop_roundtrip_witness :
  exec_stop any path (snd (cmd_start true (Some (812, false)) true path idle)) = (0, idle).
Proof. apply (start_stop_roundtrip any path idle 812 false); [unfold valid_pid; lia|reflexivity|reflexivity]. Defined.

Lemma windows_stop_forgets_server_witness :
  exec_stop_windows (λ _ procs, Some (false, procs)) path (mkMachine {[ 4 := true ]} {[ path := dec 4 ]}) = (0, mkMachine {[ 4 := true ]} ∅).
Proof.
  rewrite (windows_stop_forgets_server _ _ _ 4); [|unfold valid_pid; lia|reflexivity|reflexivity].
  reflexivity.
Defined.

Lemma second_start_orphans_first_witness :
  m_procs (snd (exec_stop any path (snd (cmd_start true (Some (11, true)) true path (snd (cmd_start true (Some (10, true)) true path idle)))))) !! 10
  = Some true.
Proof. apply (second_start_orphans_first any path idle 10 true 11 true); [unfold valid_pid; lia|lia]. Defined.

Lemma restarts_keep_one_server_witness :
  one_server path (fold_left (λ m s, snd (exec_command any true (Some s) true 0 restart m)) [(5, true); (6, false); (7, true)]
    (mkMachine {[ 4 := false ]} {[ path := dec 4 ]})).
Proof.
  apply (restarts_keep_one_server any 0 restart); [reflexivity|repeat constructor; unfold valid_pid; cbn; lia|].
  exists 4, false. unfold valid_pid. split_and!; [lia|lia|reflexivity|reflexivity].
Defined.

(** [setrlimit] of an ordinary process. *)
Definition ordinary (old new : rlimit) : option rlimit :=
  if (rlim_max new <=? rlim_max old) && (rlim_cur new <=? rlim_max new) then Some new else None.

Lemma low_hard_limit_keeps_soft_witness : raise_nofile_limit ordinary (mkLimit 1024 4096) = mkLimit 1024 4096.
Proof.
  apply low_hard_limit_keeps_soft; [|reflexivity]. intros new H. unfold ordinary. cbn in *.
  by rewrite (proj2 (Z.leb_gt _ _)) by lia.
Defined.

Lemma limit_raised_witness : NOFILE_TARGET ≤ rlim_cur (raise_nofile_limit ordinary (mkLimit 1024 2000000)).
Proof.
  apply (limit_raised ordinary (mkLimit 1024 2000000)).
  - intros new H1 H2. unfold ordinary. cbn in *. by rewrite (proj2 (Z.leb_le _ _)), (proj2 (Z.leb_le _ _)) by lia.
  - unfold NOFILE_TARGET, RLIM_INFINITY, u64_max. cbn. lia.
Defined.

End ProcessWitness.
