(* ===== verification/Watcher.v ===== *)
(** * The watcher of the configuration file: [src/config/hot_reload.rs]

    Between a change of the file and the reload of [HotReload] lie the events of
    the notification library, the filter of its callback, a channel, a pause that
    gathers bursts, and the reads of the file.  The steps of the file system, of
    the library and of the loop interleave freely; the theorems say when a change
    is loaded, and when it is lost. *)

From S2P Require Import Prelude RustStr Headers Location Rewrite VHost Config Tls HotReload Json AdminServer AdminConfig.

(** ** Events *)

Inductive EventKind := EkModify | EkCreate | EkRemove | EkAccess | EkOther.
Record Event := mkNotify { ev_kind : EventKind; ev_paths : list (list Z) }.

Section callback.
Context (canonical : list Z → option (list Z)).

Definition watch_target (config_path : list Z) : list Z := default config_path (canonical config_path).

(** The callback: what it sends, [true] for a removal. *)
Definition on_event (target : list Z) (r : result Event unit) : option bool :=
  match r with
  | Err _ => None
  | Ok e =>
      let is_config := existsb (λ p, bool_decide (canonical p = Some target) || str_eqb p target) (ev_paths e) in
      match ev_kind e with
      | EkModify | EkCreate => if is_config then Some false else None
      | EkRemove => if is_config then Some true else None
      | EkAccess | EkOther => None
      end
  end.

End callback.

(** What is watched: the file, or its directory where the file cannot be. *)
Inductive watch_mode := WatchFile | WatchDir.
Definition start_watch (watcher_ok file_ok dir_ok : bool) : option watch_mode :=
  if watcher_ok then if file_ok then Some WatchFile else if dir_ok then Some WatchDir else None else None.

(** [start_hot_reload]: without a runtime there is no loop. *)
Definition start_hot_reload (runtime_ok watcher_ok file_ok dir_ok : bool) : option watch_mode :=
  if runtime_ok then start_watch watcher_ok file_ok dir_ok else None.

(** The events of a burst after the first: the last decides. *)
Definition drain (is_remove : bool) (more : list bool) : bool := default is_remove (last more).

Section watch.
Context `{L : HeaderLib} {R : Type} (build : list Z → option R) (to_lowercase : list Z → list Z)
  (canonicalize : list Z → option (list (list Z))).
Context {CK : Type} (first : gmap (list Z) (list CK) → option (list CK)).
Context (certified_keys check_keys : TlsConfig → list (list Z) → list CK).
Context (ser : SiteFile → option (list Z)) (ser_tls : option TlsConfig → option (list Z)).
Context (order : gset (list Z) → list (list Z)).

Notation ctx_t := (ReloadCtx (R := R) (CK := CK)).
Notation diff := (apply_diff build to_lowercase canonicalize first certified_keys ser ser_tls order).
Notation turn := (reload_event build to_lowercase canonicalize first certified_keys check_keys ser ser_tls order).

(** What a file holds: what parsing its text gives. *)
Notation text := (option (list SiteFile)).

(** A text that passes the three stages. *)
Definition accepted (t : text) : option (list SiteFile) :=
  new ← load_config t;
  match validate_config new with
  | Some _ => None
  | None => if preflight_tls check_keys new then Some new else None
  end.

(** The stages of one turn after the burst: the loop compares with the
    configuration it loaded last, [cur], not with the one in force. *)
Definition watch_turn (cur : list SiteFile) (c : ctx_t) (t : text) : list SiteFile * ctx_t :=
  match accepted t with
  | Some new => (new, diff cur new c)
  | None => (cur, c)
  end.

(** The loop: waiting for an event, in the pause, past the burst, past the
    check that the file exists. *)
Inductive loop_phase := Idle | Pausing (removed : bool) | Drained (removed : bool) | Reading.

(** File, events on their way and in the channel, loop, its configuration, the
    state in force, whether the watch still follows the file, and the text the
    loop read last. *)
Record World := mkWorld {
  w_file : option text;
  w_queue : list bool;
  w_loop : loop_phase;
  w_cur : list SiteFile;
  w_ctx : ctx_t;
  w_attached : bool;
  w_seen : option text;
}.

Definition with_loop (p : loop_phase) (q : list bool) (w : World) : World :=
  mkWorld (w_file w) q p (w_cur w) (w_ctx w) (w_attached w) (w_seen w).

(** An event reaches the channel while the watch follows the file. *)
Definition emit (bs : list bool) (w : World) : list bool := if w_attached w then w_queue w ++ bs else w_queue w.

(** The steps of the loop: receiving an event, the end of the pause with what has
    arrived by then, the check that the file exists, reading it. *)
Inductive loop_step : World → World → Prop :=
| lp_recv b q w :
    w_loop w = Idle → w_queue w = b :: q → loop_step w (with_loop (Pausing b) q w)
| lp_drain b pre post w :
    w_loop w = Pausing b → w_queue w = pre ++ post → loop_step w (with_loop (Drained (drain b pre)) post w)
| lp_check b w :
    w_loop w = Drained b →
    loop_step w (with_loop (if b || bool_decide (w_file w = None) then Idle else Reading) (w_queue w) w)
| lp_read w :
    w_loop w = Reading →
    loop_step w
      (match w_file w with
       | None => with_loop Idle (w_queue w) w
       | Some t =>
           let '(cur, c) := watch_turn (w_cur w) (w_ctx w) t in
           mkWorld (w_file w) (w_queue w) Idle cur c (w_attached w) (Some t)
       end).

(** The steps.  Writing in place and removing are seen in both modes.  One write is one step: an editor
    that truncates the file and writes it in pieces is several, with what the file holds in between.
    Its event is sent with it but may reach the loop any time later, so a read can see the new
    text before the event.  A file
    that is replaced by another (a rename over it) is a creation for a watch on
    the directory; a watch on the file itself sees its file change and go, and
    ends. *)
Inductive watch_step (mode : watch_mode) : World → World → Prop :=
| st_write t w :
    is_Some (w_file w) ∨ mode = WatchDir →
    watch_step mode w (mkWorld (Some t) (emit [false] w) (w_loop w) (w_cur w) (w_ctx w) (w_attached w) (w_seen w))
| st_touch w :
    watch_step mode w (mkWorld (w_file w) (emit [false] w) (w_loop w) (w_cur w) (w_ctx w) (w_attached w) (w_seen w))
| st_remove w :
    watch_step mode w (mkWorld None (emit [true] w) (w_loop w) (w_cur w) (w_ctx w)
      (match mode with WatchDir => w_attached w | WatchFile => false end) (w_seen w))
| st_replace_dir t w :
    mode = WatchDir →
    watch_step mode w (mkWorld (Some t) (emit [false] w) (w_loop w) (w_cur w) (w_ctx w) (w_attached w) (w_seen w))
| st_replace_file t w :
    mode = WatchFile →
    watch_step mode w (mkWorld (Some t) (emit [false; true] w) (w_loop w) (w_cur w) (w_ctx w) false (w_seen w))
| st_loop w w' : loop_step w w' → watch_step mode w w'.

(** ** The loop and the reload of one event *)

Lemma accepted_turn c t : turn c (mkEvent false true t) = match accepted t with Some new => diff (hr_cfg c) new c | None => c end.
Proof.
  unfold reload_event, accepted. cbn [orb negb ev_removed ev_exists ev_parsed].
  destruct (load_config t) as [new|]; cbn [mbind option_bind]; [|done].
  destruct (validate_config new); [done|]. by destruct (preflight_tls check_keys new).
Qed.

(** While nobody else changes the configuration the loop compares with the one in force, and its
    turn is the reload of [HotReload]. *)
Lemma watch_turn_reload c t : watch_turn (hr_cfg c) c t = (hr_cfg (turn c (mkEvent false true t)), turn c (mkEvent false true t)).
Proof. rewrite accepted_turn. unfold watch_turn. destruct (accepted t); [|done]. by rewrite apply_diff_cfg. Qed.

(** ** No change is lost *)

(** The events the loop has still to act on. *)
Definition pending (w : World) : list bool :=
  match w_loop w with
  | Idle => w_queue w
  | Pausing b | Drained b => b :: w_queue w
  | Reading => false :: w_queue w
  end.

Definition current (w : World) : Prop :=
  w_attached w = true ∧ w_cur w = hr_cfg (w_ctx w)
  ∧ (∀ t, w_file w = Some t → w_seen w = Some t ∨ last (pending w) = Some false)
  ∧ (∀ t new, w_seen w = Some t → accepted t = Some new → hr_cfg (w_ctx w) = new).

Lemma last_drain b pre post : last (drain b pre :: post) = last (b :: pre ++ post).
Proof.
  unfold drain. destruct post as [|x post].
  - rewrite app_nil_r, !last_cons. by destruct (last pre).
  - by rewrite app_comm_cons, last_app_cons, last_cons_cons.
Qed.

Lemma pending_emit bs w w' :
  w_loop w' = w_loop w → w_queue w' = w_queue w ++ bs → pending w' = pending w ++ bs.
Proof. unfold pending. intros -> ->. by destruct (w_loop w). Qed.

Lemma current_loop w w' : current w → loop_step w w' → current w'.
Proof.
  intros (Ha & Hc & Hf & Hs) Hstep.
  inversion Hstep; subst; clear Hstep; unfold current; cbn [w_attached w_cur w_ctx w_file w_seen with_loop] in *.
  - split_and!; [done..| |done]. intros t0 Ht. destruct (Hf t0 Ht) as [|Hl]; [by left|right]. unfold pending in *. cbn. by rewrite H, H0 in Hl.
  - split_and!; [done..| |done]. intros t0 Ht. destruct (Hf t0 Ht) as [|Hl]; [by left|right]. unfold pending in *. cbn [w_loop w_queue with_loop].
    rewrite H, H0 in Hl. by rewrite last_drain.
  - split_and!; [done..| |done]. intros t0 Ht. destruct (Hf t0 Ht) as [|Hl]; [by left|]. unfold pending in *. cbn [w_loop w_queue with_loop].
    rewrite H in Hl. rewrite Ht. rewrite bool_decide_false by done. destruct b; cbn [orb]; [|by right].
    destruct (w_queue w) as [|x q]; [done|right]. by rewrite last_cons_cons in Hl.
  - destruct (w_file w) as [t|] eqn:Ef.
    + rewrite Hc, watch_turn_reload. cbn [w_attached w_cur w_ctx w_file w_seen]. split_and!; [done|done| |].
      * intros t0 [= <-]. by left.
      * intros t0 new [= <-] Hacc. by rewrite accepted_turn, Hacc, apply_diff_cfg.
    + unfold with_loop. cbn. by rewrite Ef.
Qed.

(** A step of the world that leaves a watch on the directory, or in file mode neither removes nor
    replaces the file. *)
Definition gentle (mode : watch_mode) (w w' : World) : Prop :=
  watch_step mode w w' ∧ (mode = WatchDir ∨ w_attached w' = w_attached w).

Lemma current_step mode w w' : current w → gentle mode w w' → current w'.
Proof.
  intros (Ha & Hc & Hf & Hs) [Hstep Hg].
  assert (Hemit : ∀ bs, emit bs w = w_queue w ++ bs) by (intros bs; unfold emit; by rewrite Ha).
  inversion Hstep; subst; clear Hstep; unfold current; cbn [w_attached w_cur w_ctx w_file w_seen with_loop] in *.
  - split_and!; [done..| |done]. intros t0 [= <-]. right. rewrite (pending_emit [false] w) by (done || apply Hemit). by rewrite last_snoc.
  - split_and!; [done..| |done]. intros t0 _. right. rewrite (pending_emit [false] w) by (done || apply Hemit). by rewrite last_snoc.
  - split_and!; [by destruct Hg as [->| ->]|done|done|done].
  - split_and!; [done..| |done]. intros t0 [= <-]. right. rewrite (pending_emit [false] w) by (done || apply Hemit). by rewrite last_snoc.
  - destruct Hg as [?|Hg]; [done|congruence].
  - eapply current_loop; [|done]. by split_and!.
Qed.

Lemma current_run mode w w' : current w → rtc (gentle mode) w w' → current w'.
Proof. intros Hw Hrun. revert Hw. induction Hrun as [|w w1 w' Hs _ IH]; eauto using current_step. Qed.

(** Nothing left to do. *)
Definition quiet (w : World) : Prop := w_loop w = Idle ∧ w_queue w = [].

Lemma current_quiet w t new :
  current w → quiet w → w_file w = Some t → accepted t = Some new → hr_cfg (w_ctx w) = new.
Proof.
  intros (_ & _ & Hf & Hs) [Hi Hq] Ht Hacc. destruct (Hf t Ht) as [Hseen|Hl]; [by eapply Hs|].
  unfold pending in Hl. by rewrite Hi, Hq in Hl.
Qed.

(** No change of the configuration file is lost.  However writes, removals and replacements of the
    file, the delivery of events, the pause and the reads of the loop interleave, once the loop is
    idle and no event is left the configuration in force is the one of the file, if the file is there
    and passes the checks: with a watch on the directory always, with a watch on the file as long as
    the file is only written in place. *)
Theorem no_change_lost mode w w' t new :
  current w → rtc (gentle mode) w w' → quiet w' → w_file w' = Some t → accepted t = Some new →
  hr_cfg (w_ctx w') = new.
Proof.
  intros Hw Hrun Hq Ht Hacc. apply (current_run mode w w' Hw) in Hrun. by eapply current_quiet.
Qed.

(** *** What is served *)

Section served.
Context (order_elements : ∀ X, order X ≡ₚ elements X).

(** The configurations that are ever written and accepted: any two of them can follow one another. *)
Context (good : list SiteFile → Prop) (good_reload : ∀ old new, good old → good new → reloadable to_lowercase ser old new).

Definition file_good (w : World) : Prop := ∀ t new, w_file w = Some t → accepted t = Some new → good new.

(** The registry is the one of a start with the configuration in force, whatever logs and caches are
    attached to its sites. *)
Definition faithful (w : World) : Prop :=
  good (hr_cfg (w_ctx w)) ∧ file_good w
  ∧ bare_registry (hr_registry (w_ctx w))
    = registry_from_config build to_lowercase canonicalize (vhost_site <$> hr_cfg (w_ctx w)).

Definition orderly (mode : watch_mode) (w w' : World) : Prop := gentle mode w w' ∧ file_good w'.

Lemma faithful_loop w w' : current w → faithful w → loop_step w w' → file_good w' → faithful w'.
Proof using order_elements good_reload.
  intros (_ & Hc & _) (Hg & Hf & Hr) Hs Hf'. inversion Hs; subst; try by split_and!.
  destruct (w_file w) as [t|] eqn:Ef; [|by split_and!]. unfold watch_turn in *. destruct (accepted t) as [new|] eqn:Ea; [|by split_and!].
  assert (Hn : good new) by by eapply Hf. rewrite Hc in *. unfold faithful. cbn [w_ctx] in *. rewrite apply_diff_cfg. split_and!; [done..|].
  apply reload_registry; [done| |done]. by apply good_reload.
Qed.

Lemma faithful_step mode w w' : current w → faithful w → orderly mode w w' → faithful w'.
Proof using order_elements good_reload.
  intros Hw H [[Hs _] Hf']. pose proof H as (Hg & Hf & Hr).
  inversion Hs as [| | | | |? ? Hl]; subst; [by split_and!..|]. by eapply faithful_loop.
Qed.

(** C16: A change of the configuration file is served.  However writes, removals and replacements of
    the file, the delivery of events, the pause and the reads of the loop interleave over any number
    of changes, once the loop is idle and no event is left every host is answered by the site, with all
    its settings, that a server started with the file as it is then answers it by, if that passes the
    checks.  The watch is attached at first and stays so: with a watch on the directory always, with a
    watch on the file as long as the file is only written in place ([replaced_file_not_loaded]).  The
    configurations that pass the checks are ones that can follow one another ([reloadable]: distinct
    names, no host claimed twice, written alike only if alike, no fallback given up without another),
    nobody else changes the configuration in force, and the logs and caches attached to the sites are
    left out of the comparison. *)
Theorem change_is_served mode w w' t new host :
  current w → faithful w → rtc (orderly mode) w w' → quiet w' → w_file w' = Some t → accepted t = Some new →
  hr_cfg (w_ctx w') = new
  ∧ bare <$> lookup_inner (hr_registry (w_ctx w')) host
    = lookup_inner (registry_from_config build to_lowercase canonicalize (vhost_site <$> new)) host.
Proof using order_elements good_reload.
  intros Hw Hfa Hrun Hq Ht Hacc.
  assert (current w' ∧ faithful w') as [Hw' (_ & _ & Hr)].
  { clear Hq Ht. induction Hrun as [|w w1 w' Hs _ IH]; [done|]. apply IH; [by eapply current_step; [|apply Hs]|by eapply faithful_step]. }
  pose proof (current_quiet w' t new Hw' Hq Ht Hacc) as Hn. split; [done|].
  by rewrite <- bare_lookup, Hr, Hn.
Qed.

End served.

(** How much the loop has left to do. *)
Definition work (w : World) : nat :=
  (4 * length (w_queue w) + match w_loop w with Idle => 0 | Pausing _ => 3 | Drained _ => 2 | Reading => 1 end)%nat.

Lemma loop_work w w' : loop_step w w' → (work w' < work w)%nat ∧ w_file w' = w_file w.
Proof.
  intros Hs. unfold work. inversion Hs as [b q ? Hi Hq|b pre post ? Hi Hq|b ? Hi|? Hi]; subst; cbn [with_loop w_queue w_loop w_file].
  - rewrite Hi, Hq. cbn [length]. split; [lia|done].
  - rewrite Hi, Hq, length_app. split; [lia|done].
  - rewrite Hi. destruct (_ || _); (split; [lia|done]).
  - rewrite Hi. destruct (w_file w) eqn:Ef; cbn; rewrite ?Ef; [destruct (watch_turn _ _ _); cbn|]; (split; [lia|done]).
Qed.

Lemma loop_progress w : quiet w ∨ ∃ w', loop_step w w'.
Proof.
  destruct (w_loop w) as [|b|b|] eqn:Ei.
  - destruct (w_queue w) as [|b q] eqn:Eq; [by left|right; eexists; by eapply lp_recv].
  - right. eexists. by apply (lp_drain b [] (w_queue w)).
  - right. eexists. by eapply lp_check.
  - right. eexists. by eapply lp_read.
Qed.

(** Every run from a state comes to [P]: it holds, or there is a next step and it comes to [P] from
    wherever that leads. *)
Inductive inevitably {A} (step : A → A → Prop) (P : A → Prop) (x : A) : Prop :=
| inev_now : P x → inevitably step P x
| inev_later : (∃ y, step x y) → (∀ y, step x y → inevitably step P y) → inevitably step P x.

Lemma inevitably_reached {A} (step : A → A → Prop) P x : inevitably step P x → ∃ y, rtc step x y ∧ P y.
Proof.
  induction 1 as [x Hx|x [y Hy] _ IH]; [by exists x|]. destruct (IH y Hy) as (z & Hz & HP). exists z. split; [by eapply rtc_l|done].
Qed.

Lemma loop_settles w t new :
  current w → w_file w = Some t → accepted t = Some new →
  inevitably loop_step (λ w', quiet w' ∧ hr_cfg (w_ctx w') = new) w ∧ ∀ n w', nsteps loop_step n w w' → (n ≤ work w)%nat.
Proof.
  intros Hw Ht Hacc. remember (work w) as k eqn:Ek. revert w Hw Ht Ek.
  induction (lt_wf k) as [k _ IH]; intros w Hw Ht ->.
  assert (Hstep : ∀ w1, loop_step w w1 → inevitably loop_step (λ w', quiet w' ∧ hr_cfg (w_ctx w') = new) w1
            ∧ (work w1 < work w)%nat ∧ ∀ n w', nsteps loop_step n w1 w' → (n ≤ work w1)%nat).
  { intros w1 Hs. destruct (loop_work _ _ Hs) as [Hlt Hf].
    destruct (IH (work w1) Hlt w1) as [H1 H2]; [by eapply current_loop|by rewrite Hf|done|]. done. }
  split.
  - destruct (loop_progress w) as [Hq|Hp]; [apply inev_now; split; [done|by eapply current_quiet]|].
    apply inev_later; [done|]. intros w1 Hs. by apply Hstep.
  - intros n w' Hrun. destruct Hrun as [|n w w1 w' Hs Hrun]; [lia|].
    destruct (Hstep w1 Hs) as (_ & Hlt & Hn). specialize (Hn n w' Hrun). lia.
Qed.

(** Writing [t] to the file. *)
Definition write_file (t : text) (w : World) : World :=
  mkWorld (Some t) (emit [false] w) (w_loop w) (w_cur w) (w_ctx w) (w_attached w) (w_seen w).

(** C38: A change of the configuration file is loaded.  Take a watch that was attached when the file and the
    configuration in force agreed, and any run of the file and the loop since that did not detach it (on
    the directory any run, on the file itself one in which it is only written in place), whatever
    events are on their way and wherever the loop stands.  When a text that passes the checks is now
    written to the file and the file then left alone, every run of the loop comes to rest with that
    configuration in force, within four steps for each event and three for the turn the loop is in. *)
Theorem change_is_loaded mode w0 w t new :
  current w0 → rtc (gentle mode) w0 w → is_Some (w_file w) ∨ mode = WatchDir → accepted t = Some new →
  watch_step mode w (write_file t w)
  ∧ inevitably loop_step (λ w', quiet w' ∧ hr_cfg (w_ctx w') = new) (write_file t w)
  ∧ ∀ n w', nsteps loop_step n (write_file t w) w' → (n ≤ work (write_file t w))%nat.
Proof.
  intros Hw Hrun Hm Hacc. assert (Hs : watch_step mode w (write_file t w)) by by apply st_write.
  split; [done|]. apply loop_settles with t; [|done|done].
  apply (current_step mode w); [by eapply current_run|]. split; [done|by right].
Qed.

(** ** A watched file that is replaced *)

(** A replacement of a watched file is not loaded: with the loop idle, the only events it causes end
    with a removal, and however the world goes on, later writes and replacements included, once the
    loop has drained them in one burst the configuration stays what it was. *)
Theorem replaced_file_not_loaded w t :
  w_attached w = true → quiet w →
  ∃ w1 w2, watch_step WatchFile w w1 ∧ w_file w1 = Some t ∧ rtc (watch_step WatchFile) w1 w2 ∧ quiet w2
           ∧ w_file w2 = Some t ∧ w_ctx w2 = w_ctx w ∧ w_attached w2 = false.
Proof.
  intros Ha [Hi Hq]. eexists _, _. split; [by apply (st_replace_file WatchFile t w)|]. split; [done|]. split.
  { eapply rtc_l; [apply st_loop, (lp_recv false [true]); cbn; [done|]; unfold emit; by rewrite Ha, Hq|].
    eapply rtc_l; [by apply st_loop, (lp_drain false [true] [])|].
    eapply rtc_l; [by apply st_loop, (lp_check true)|]. apply rtc_refl. }
  cbn. unfold quiet. cbn. auto.
Qed.

Lemma blind_step mode w w' : w_attached w = false → quiet w → watch_step mode w w' → w_attached w' = false ∧ quiet w' ∧ w_ctx w' = w_ctx w.
Proof.
  intros Ha [Hi Hq] Hs. inversion Hs as [| | | | |? ? Hl]; subst; [..|inversion Hl; congruence];
    cbn; unfold quiet; cbn; unfold emit; rewrite Ha, Hi, Hq; split_and!; try done; by destruct mode.
Qed.

(** After that no change of the file is ever loaded again. *)
Theorem watch_ends w w' :
  w_attached w = false → quiet w → rtc (watch_step WatchFile) w w' → w_ctx w' = w_ctx w ∧ quiet w'.
Proof.
  intros Ha Hq Hrun. induction Hrun as [|w w1 w' Hs _ IH]; [done|].
  destruct (blind_step _ _ _ Ha Hq Hs) as (Ha1 & Hq1 & E). rewrite <- E. by apply IH.
Qed.

End watch.

Module WatchWitness.
Import Headers.Model HotReload.Witness.

Notation step := (watch_step bld to_ascii_lowercase canon fst_val keys keys HotReload.Witness.ser HotReload.Witness.ser_tls elements).
Notation soft := (gentle bld to_ascii_lowercase canon fst_val keys keys HotReload.Witness.ser HotReload.Witness.ser_tls elements).
Notation one_turn := (watch_turn bld to_ascii_lowercase canon fst_val keys keys HotReload.Witness.ser HotReload.Witness.ser_tls elements).

Definition start : World := mkWorld (Some (Some old)) [] Idle old ctx true (Some (Some old)).

Lemma start_current : current keys start.
Proof.
  split_and!; [done|done| |].
  - intros t [= <-]. by left.
  - intros t nw [= <-] H. vm_compute in H. injection H as <-. reflexivity.
Qed.

(** The two configurations of the example can follow one another. *)
Definition either (l : list SiteFile) : Prop := l = old ∨ l = new.

Lemma either_reload a b : either a → either b → reloadable to_ascii_lowercase HotReload.Witness.ser a b.
Proof.
  intros Ha Hb. split_and!.
  - destruct Ha as [->| ->]; [exact old_conflict_free|exact new_conflict_free].
  - destruct Hb as [->| ->]; [exact old_conflict_free|exact new_conflict_free].
  - intros x y Hx Hy He. destruct Ha as [->| ->], Hb as [->| ->]; unfold old, new in *; members; try done; vm_compute in He; discriminate He.
  - intros x Hx Hf. exfalso. destruct Ha as [->| ->]; unfold old, new in *; members; discriminate Hf.
Qed.

Notation tidy := (orderly bld to_ascii_lowercase canon fst_val keys keys HotReload.Witness.ser HotReload.Witness.ser_tls elements either).

Lemma files_good (w : World (R := unit) (CK := Z)) :
  w_file w = Some None ∨ w_file w = Some (Some new) → file_good keys either w.
Proof. intros [E|E] t nw Ht Ha; rewrite E in Ht; injection Ht as <-; vm_compute in Ha; [done|]. injection Ha as <-. by right. Qed.

(** The file is written twice within one burst. *)
Definition reloaded : World :=
  let '(cur, c) := one_turn old ctx (Some new) in mkWorld (Some (Some new)) [] Idle cur c true (Some (Some new)).

Lemma write_twice : rtc (tidy WatchFile) start reloaded.
Proof.
  unfold reloaded, start. destruct (one_turn old ctx (Some new)) as [cur c] eqn:E.
  eapply rtc_l; [split; [split; [apply (st_write _ _ _ _ _ _ _ _ _ WatchFile None); left; by eexists|by right]|apply files_good; by left]|].
  eapply rtc_l; [split; [split; [apply (st_write _ _ _ _ _ _ _ _ _ WatchFile (Some new)); left; by eexists|by right]|apply files_good; by right]|].
  eapply rtc_l; [split; [split; [by apply st_loop, (lp_recv _ _ _ _ _ _ _ _ _ false [false])|by right]|apply files_good; by right]|].
  eapply rtc_l; [split; [split; [by apply st_loop, (lp_drain _ _ _ _ _ _ _ _ _ false [false] [])|by right]|apply files_good; by right]|].
  eapply rtc_l; [split; [split; [by apply st_loop, (lp_check _ _ _ _ _ _ _ _ _ false)|by right]|apply files_good; by right]|].
  eapply rtc_l; [split; [split; [by apply st_loop, (lp_read _ _ _ _ _ _ _ _ _)|right]|]|];
    cbn [with_loop w_file w_cur w_ctx w_attached w_queue w_loop w_seen]; rewrite E; [reflexivity|apply files_good; by right|apply rtc_refl].
Qed.

Lemma change_is_served_witness :
  hr_cfg (w_ctx reloaded) = new
  ∧ bare <$> lookup_inner (hr_registry (w_ctx reloaded)) (lit "b.test")
    = lookup_inner (registry_from_config bld to_ascii_lowercase canon (vhost_site <$> new)) (lit "b.test").
Proof.
  apply (change_is_served bld to_ascii_lowercase canon fst_val keys keys HotReload.Witness.ser HotReload.Witness.ser_tls elements
           (λ X, reflexivity _) either either_reload WatchFile start reloaded (Some new) new).
  - exact start_current.
  - split_and!; [by left| |reflexivity]. intros t nw [= <-] H. vm_compute in H. injection H as <-. by left.
  - exact write_twice.
  - unfold reloaded. destruct (one_turn old ctx (Some new)). by split.
  - unfold reloaded. by destruct (one_turn old ctx (Some new)).
  - reflexivity.
Defined.

Lemma no_change_lost_witness : hr_cfg (w_ctx reloaded) = new.
Proof.
  apply (no_change_lost bld to_ascii_lowercase canon fst_val keys keys HotReload.Witness.ser HotReload.Witness.ser_tls elements
           WatchFile start reloaded (Some new) new).
  - exact start_current.
  - eapply rtc_subrel; [|exact write_twice]. by intros ? ? [? _].
  - unfold reloaded. destruct (one_turn old ctx (Some new)). by split.
  - unfold reloaded. by destruct (one_turn old ctx (Some new)).
  - reflexivity.
Defined.

Notation lstep := (loop_step bld to_ascii_lowercase canon fst_val keys keys HotReload.Witness.ser HotReload.Witness.ser_tls elements).

(** The file is overwritten once more while the event of a broken text is in the channel. *)
Definition broken : World := write_file None start.
Lemma change_is_loaded_witness :
  ∃ w, rtc lstep (write_file (Some new) broken) w ∧ quiet w ∧ hr_cfg (w_ctx w) = new ∧ hr_cfg (w_ctx broken) = old.
Proof.
  destruct (change_is_loaded bld to_ascii_lowercase canon fst_val keys keys HotReload.Witness.ser HotReload.Witness.ser_tls elements
              WatchFile start broken (Some new) new start_current) as (_ & Hi & _).
  - apply rtc_once. split; [apply (st_write _ _ _ _ _ _ _ _ _ WatchFile None); left; by eexists|by right].
  - left. by eexists.
  - reflexivity.
  - destruct (inevitably_reached _ _ _ Hi) as (w & Hr & Hq & Hn). exists w. split_and!; [exact Hr|exact Hq|exact Hn|reflexivity].
Defined.

Lemma replaced_file_not_loaded_witness :
  ∃ w1 w2, step WatchFile start w1 ∧ rtc (step WatchFile) w1 w2 ∧ w_file w2 = Some (Some new) ∧ hr_cfg (w_ctx w2) = old.
Proof.
  destruct (replaced_file_not_loaded bld to_ascii_lowercase canon fst_val keys keys HotReload.Witness.ser HotReload.Witness.ser_tls elements
              start (Some new)) as (w1 & w2 & H1 & _ & H2 & _ & Hf & Hc & _); [reflexivity|by split|].
  exists w1, w2. rewrite Hc. auto.
Defined.

(** ** Changes through the admin interface *)

(** The state after the admin interface made [sites] the configuration: the loop is not told. *)
Definition after_admin (sites : list SiteFile) : ReloadCtx (CK := Z) :=
  mkCtx (apply_registry bld to_ascii_lowercase canon (λ m, snd <$> map_to_list m) (hr_registry ctx) sites) ∅ sites (hr_meta ctx).

Definition served (c : ReloadCtx (R := unit) (CK := Z)) (host : string) : option (list Z) := si_name <$> lookup_inner (hr_registry c) (lit host).

Definition site_a2 : list SiteFile := [site "a" ["a.test"; "a2.test"]%string; site "b" ["b.test"]%string].

(** A site added through the admin interface is served on after a reload of the file that does not
    have it, and the configuration in force does not list it. *)
Theorem admin_site_outlives_reload :
  let c := snd (one_turn old (after_admin (old ++ [site "x" ["x.test"]%string])) (Some site_a2)) in
  hr_cfg c = site_a2 ∧ served c "x.test" = Some (lit "x").
Proof. vm_compute. auto. Qed.

(** A site removed through the admin interface is not served after a reload of the file that has it
    unchanged, although the configuration in force lists it. *)
Theorem admin_removed_site_stays_out :
  let c := snd (one_turn old (after_admin [site "a" ["a.test"]%string]) (Some site_a2)) in
  hr_cfg c = site_a2 ∧ served c "a2.test" = Some (lit "a") ∧ served c "b.test" = None.
Proof. vm_compute. auto. Qed.

End WatchWitness.
