(* ===== verification/UpstreamTls.v ===== *)
(** * Encrypted connections to upstreams: [src/handler/reverse_proxy/tls_client.rs]

    [tls_connect] with its two shared configurations, and the places that open
    connections with it: HTTP/1.1 nodes ([conn.rs]), HTTP/2 nodes
    ([upstream_h2.rs]), WebSockets ([ws_proxy.rs]) and health checks
    ([probe_health] of [conn.rs], run by [lb.rs]).  rustls is a parameter: it
    runs a handshake with a given verifier. *)

From S2P Require Import Prelude RustStr Retry Headers LoadBalance ProxyResponse ConnPool Http1 Streaming Forward ProxyHandler H2Upstream WsProxy.

(** ** The two configurations *)

Inductive ServerCertVerifier := NoVerifier | WebPkiRoots.

#[export] Instance verifier_eq_dec : EqDecision ServerCertVerifier.
Proof. solve_decision. Defined.

(** [ClientConfig]: the verifier and the size of the session cache. *)
Record ClientConfig := mkClientConfig { cc_verifier : ServerCertVerifier; cc_sessions : Z }.

Definition build_insecure_config : ClientConfig := mkClientConfig NoVerifier 1024.
Definition build_secure_config : ClientConfig := mkClientConfig WebPkiRoots 1024.

(** [TLS_CLIENT_INSECURE] and [TLS_CLIENT_SECURE], set on first use. *)
Record TlsCells := mkCells { cell_insecure : option ClientConfig; cell_secure : option ClientConfig }.
Definition empty_cells : TlsCells := mkCells None None.

Definition client_config (insecure : bool) (st : TlsCells) : ClientConfig * TlsCells :=
  if insecure then
    let c := default build_insecure_config (cell_insecure st) in (c, mkCells (Some c) (cell_secure st))
  else
    let c := default build_secure_config (cell_secure st) in (c, mkCells (cell_insecure st) (Some c)).

Section tls.
Context {Cert SN IO S : Type}.
(** [ServerName::try_from]; whether a chain is valid for a name under the roots
    of webpki; the handshake of rustls with a verifier, and the certificate the
    peer of a connection showed. *)
Context (server_name : list Z → option SN) (webpki : Cert → SN → bool)
  (handshake : (Cert → SN → bool) → SN → IO → option S) (peer : S → Cert).

(** [verify_server_cert] of the two verifiers. *)
Definition verify_server_cert (v : ServerCertVerifier) (c : Cert) (n : SN) : bool :=
  match v with NoVerifier => true | WebPkiRoots => webpki c n end.

(** [tls_connect] *)
Definition tls_connect (io : IO) (sni : list Z) (insecure : bool) (st : TlsCells) : option S * TlsCells :=
  let '(cfg, st) := client_config insecure st in
  (n ← server_name sni; handshake (verify_server_cert (cc_verifier cfg)) n io, st).

(** A stream to an upstream, encrypted or not. *)
Inductive upstream_stream := Plain (io : IO) | Secured (s : S).

(** Connecting with an optional handshake: [connect] is the outcome of opening
    the socket within the time limit of the caller. *)
Definition open_stream (connect : UpstreamAddr → option IO) (addr : UpstreamAddr) (use_tls : bool) (sni : list Z)
    (insecure : bool) (st : TlsCells) : option upstream_stream * TlsCells :=
  match connect addr with
  | None => (None, st)
  | Some io =>
      if use_tls then let '(s, st) := tls_connect io sni insecure st in (Secured <$> s, st) else (Some (Plain io), st)
  end.

(** HTTP/1.1: the kind of connection that is pooled. *)
Definition open_pooled (connect : UpstreamAddr → option IO) (addr : UpstreamAddr) (use_tls : bool) (sni : list Z)
    (insecure : bool) (st : TlsCells) : option (PooledConn upstream_stream) * TlsCells :=
  let '(s, st) := open_stream connect addr use_tls sni insecure st in
  ((match addr, use_tls with
    | Tcp _, true => ConnTls
    | Tcp _, false => ConnTcp
    | Unix _, true => ConnTlsUnix
    | Unix _, false => ConnUnix
    end) <$> s, st).

(** ** HTTP/2 *)

Record h2_settings := mkH2Settings { initial_window_size : Z; initial_connection_window_size : Z }.
Definition h2_client_settings : h2_settings := mkH2Settings (Z.shiftl 1 20) (Z.shiftl 1 21).

(** [H2NodePool::new_conn]; [h2] is the handshake of the h2 crate, which gives
    the number of the connection. *)
Definition h2_new_conn (h2 : h2_settings → upstream_stream → option Z) (connect : UpstreamAddr → option IO) (p : H2NodePool)
    (st : TlsCells) : io Z * TlsCells :=
  let '(s, st) := open_stream connect (h2_addr p) (h2_use_tls p) (h2_tls_sni p) (h2_tls_insecure p) st in
  (match s ≫= h2 h2_client_settings with Some c => Done c | None => Failed end, st).

(** ** WebSockets *)

(** The part of [do_ws_proxy] that connects, followed by the relay. *)
Definition do_ws_proxy `{HeaderLib} (connect : UpstreamAddr → option IO) (addr : UpstreamAddr) (use_tls : bool) (sni : list Z)
    (insecure : bool) (sched : nat → nat) (answer : upstream_stream → list Z * stream_end) (body_slot : request_body) (is_h2_ws : bool)
    (client_handshake : option (list (list Z * list Z))) (strip : bool) (cookie_domain redirect_from redirect_to : option (list Z))
    (st : TlsCells) : outcome (io (ws_response)) * TlsCells :=
  let '(s, st) := open_stream connect addr use_tls sni insecure st in
  (match s with
   | None => Ret Failed
   | Some s => let '(bytes, e) := answer s in
               ws_handshake_and_relay sched bytes e body_slot is_h2_ws client_handshake strip cookie_domain redirect_from redirect_to
   end, st).

(** ** Health checks *)

Definition probe_request (path host : list Z) : list Z :=
  lit "HEAD " ++ path ++ lit " HTTP/1.1" ++ CRLF ++ lit "Host: " ++ host ++ CRLF ++ lit "Connection: close" ++ CRLF ++ CRLF.

(** [do_probe] on an open stream: writing, then the first line of the answer. *)
Definition do_probe (write_ok : bool) (answer : list Z * stream_end) : io Z :=
  if write_ok then
    match fst (read_line (fst answer) (snd answer)) with
    | Line l => Done (parse_status_code l)
    | LineErr _ _ => Failed
    | LineBlocked => Blocked
    end
  else Failed.

(** [probe_health]; a connection that is neither made nor refused waits. *)
Definition probe_health (connect : UpstreamAddr → io IO) (write_ok : bool)
    (answer : upstream_stream → list Z → list Z * stream_end) (addr : UpstreamAddr) (path : list Z) (use_tls : bool)
    (sni : list Z) (insecure : bool) (st : TlsCells) : io Z * TlsCells :=
  let req := probe_request path (addr_as_str addr) in
  match connect addr with
  | Failed => (Failed, st)
  | Blocked => (Blocked, st)
  | Done i =>
      let '(s, st) := open_stream (λ _, Some i) addr use_tls sni insecure st in
      (match s with Some s => do_probe write_ok (answer s req) | None => Failed end, st)
  end.

(** One node of [health_check_task]: the probe under its time limit. *)
Definition probe_outcome (r : io Z) : probe_result :=
  match r with Done code => ProbeStatus code | Failed => ProbeError | Blocked => ProbeTimeout end.

Definition check_node (connect : UpstreamAddr → io IO) (write_ok : bool)
    (answer : upstream_stream → list Z → list Z * stream_end) (path : list Z) (acc : list NodeState * TlsCells) (n : NodeState)
  : list NodeState * TlsCells :=
  let '(done, st) := acc in
  let '(r, st) := probe_health connect write_ok answer (addr n) path (tls n) (tls_sni n) (tls_insecure n) st in
  (done ++ [health_check_node (probe_outcome r) n], st).

Definition check_round (connect : UpstreamAddr → io IO) (write_ok : bool)
    (answer : upstream_stream → list Z → list Z * stream_end) (path : list Z) (ns : list NodeState) (st : TlsCells)
  : list NodeState * TlsCells :=
  foldl (check_node connect write_ok answer path) ([], st) ns.

(** ** Certificates are checked *)

(** The cells hold nothing or the configuration they are named after. *)
Definition cells_ok (st : TlsCells) : Prop :=
  (∀ c, cell_insecure st = Some c → c = build_insecure_config) ∧ (∀ c, cell_secure st = Some c → c = build_secure_config).

Lemma empty_cells_ok : cells_ok empty_cells.
Proof. by split. Qed.

Lemma client_config_ok insecure st :
  cells_ok st → cells_ok (snd (client_config insecure st))
  ∧ cc_verifier (fst (client_config insecure st)) = if insecure then NoVerifier else WebPkiRoots.
Proof.
  intros [Hi Hs]. unfold client_config. destruct insecure.
  - destruct (cell_insecure st) as [c|] eqn:E; cbn; [rewrite (Hi c eq_refl)|]; (split; [split; cbn; naive_solver|done]).
  - destruct (cell_secure st) as [c|] eqn:E; cbn; [rewrite (Hs c eq_refl)|]; (split; [split; cbn; naive_solver|done]).
Qed.

Lemma tls_connect_cells io sni insecure st : cells_ok st → cells_ok (snd (tls_connect io sni insecure st)).
Proof.
  intros H. apply (client_config_ok insecure) in H as [H _]. unfold tls_connect.
  by destruct (client_config insecure st) as [cfg st'].
Qed.

Lemma open_stream_cells connect addr use_tls sni insecure st :
  cells_ok st → cells_ok (snd (open_stream connect addr use_tls sni insecure st)).
Proof.
  intros H. unfold open_stream. destruct (connect addr) as [i|]; [|done]. destruct use_tls; [|done].
  pose proof (tls_connect_cells i sni insecure st H). by destruct (tls_connect i sni insecure st).
Qed.

(** rustls completes a handshake only when its verifier accepted the certificate of the peer. *)
Context (handshake_verified : ∀ v n i s, handshake v n i = Some s → v (peer s) n = true).

Lemma tls_connect_verified i sni st s :
  cells_ok st → fst (tls_connect i sni false st) = Some s →
  ∃ n, server_name sni = Some n ∧ webpki (peer s) n = true.
Proof using handshake_verified.
  intros Hst. destruct (client_config_ok false st Hst) as [_ Hv]. unfold tls_connect.
  destruct (client_config false st) as [cfg st']. cbn [fst] in *. rewrite Hv.
  destruct (server_name sni) as [n|]; cbn; [|done]. intros Hs. exists n. split; [done|]. by apply handshake_verified in Hs.
Qed.

(** The calls that open connections, in any order. *)
Inductive tls_call := TlsCall (connect : UpstreamAddr → option IO) (addr : UpstreamAddr) (use_tls : bool) (sni : list Z) (insecure : bool).
Definition run_call (st : TlsCells) (c : tls_call) : TlsCells :=
  match c with TlsCall connect addr use_tls sni insecure => snd (open_stream connect addr use_tls sni insecure st) end.

(** Newly opened connections are checked unless checking is switched off.  Whatever connections were
    opened before, with or without checking, opening an encrypted connection for a node that does not
    set tls_insecure succeeds only if the peer showed a certificate that is valid, under the public roots,
    for the server name of the node; and the shared configurations are the ones of their mode. *)
Theorem upstream_certificate_checked calls connect addr sni s :
  let st := foldl run_call empty_cells calls in
  fst (open_stream connect addr true sni false st) = Some s →
  cells_ok st ∧ ∃ t n, s = Secured t ∧ server_name sni = Some n ∧ webpki (peer t) n = true.
Proof using handshake_verified.
  intros st. assert (Hst : cells_ok st).
  { subst st. generalize empty_cells_ok. generalize empty_cells. induction calls as [|c calls IH]; intros st0 H; [done|].
    cbn [foldl]. apply IH. destruct c. cbn. by apply open_stream_cells. }
  unfold open_stream. destruct (connect addr) as [i|]; [|done].
  pose proof (tls_connect_verified i sni st) as Hv. destruct (tls_connect i sni false st) as [[t|] st']; cbn; [|done].
  intros [= <-]. split; [done|]. destruct (Hv t Hst eq_refl) as (n & Hn & Hw). by exists t, n.
Qed.

(** A node whose certificate does not hold is taken out by the next health check. *)
Theorem bad_certificate_unhealthy connect write_ok answer path n st i :
  cells_ok st → tls n = true → tls_insecure n = false → connect (addr n) = Done i →
  (∀ s m, server_name (tls_sni n) = Some m → handshake (verify_server_cert WebPkiRoots) m i = Some s → webpki (peer s) m = false) →
  fst (check_node connect write_ok answer path ([], st) n) = [mark_unhealthy n].
Proof using handshake_verified.
  intros Hst Ht Hi Hc Hbad. unfold check_node, probe_health, open_stream. rewrite Ht, Hi, Hc.
  destruct (tls_connect i (tls_sni n) false st) as [[s|] st'] eqn:E; cbn; [exfalso|done].
  destruct (client_config_ok false st Hst) as [_ Hv]. unfold tls_connect in E.
  destruct (client_config false st) as [cfg st1]. cbn [fst] in Hv. rewrite Hv in E.
  destruct (server_name (tls_sni n)) as [m|]; cbn in E; [|done]. injection E as E _.
  specialize (Hbad s m eq_refl E). apply handshake_verified in E. cbn in E. congruence.
Qed.

End tls.

(** ** Probes *)

Lemma split_ws_visible a cur s : visible a = true → s ≠ [] → split_ws cur (a :: s) = split_ws (a :: cur) s.
Proof.
  intros (H1 & H2 & H3 & _)%visible_not_ws Hs. cbn [split_ws]. rewrite H1. destruct s as [|b s]; [done|].
  rewrite H2. destruct s as [|c s]; [done|]. by rewrite H3.
Qed.

Lemma split_ws_field w cur s : field w → cur ++ w ≠ [] → split_ws cur (w ++ SP :: s) = (rev cur ++ w) :: split_ws [] s.
Proof.
  revert cur. induction w as [|a w IH]; intros cur Hw Hne.
  - cbn [app]. rewrite app_nil_r in *. cbn [split_ws is_ws1]. by destruct cur.
  - apply Forall_cons in Hw as [Ha Hw]. change ((a :: w) ++ SP :: s) with (a :: (w ++ SP :: s)).
    rewrite split_ws_visible by (done || by destruct w). rewrite IH by done. cbn [rev]. by rewrite <- app_assoc.
Qed.

(** The status a probe reports is the one of the answer; nothing after the first line matters. *)
Theorem probe_reports_status version code reason rest e :
  field version → version ≠ [] → 0 ≤ code ≤ u16_max → is_ascii reason = true → LF ∉ reason →
  do_probe true ((version ++ SP :: dec code ++ SP :: reason) ++ CRLF ++ rest, e) = Done code.
Proof.
  intros Hv Hne Hc Ha Hr. pose proof (dec_field code) as Hd. unfold do_probe. cbn [fst snd].
  rewrite read_line_ascii.
  - cbn [fst]. f_equal. unfold parse_status_code, split_whitespace. rewrite <- app_assoc. cbn [app].
    rewrite split_ws_field by done. rewrite <- app_assoc. cbn [app]. rewrite split_ws_field.
    + cbn [lookup list_lookup rev app]. by rewrite parse_uint_dec by (unfold u16_max, u64_max in *; lia).
    + apply Hd. lia.
    + cbn [app]. by apply to_decimal_nonempty.
  - rewrite is_ascii_app, field_ascii by done. cbn [andb]. change (is_ascii (SP :: dec code ++ SP :: reason)) with (is_ascii (dec code ++ SP :: reason)).
    rewrite is_ascii_app, field_ascii by (apply Hd; lia). exact Ha.
  - rewrite not_elem_of_app, not_elem_of_cons, not_elem_of_app, not_elem_of_cons.
    split_and!; [by apply field_no_lf|done|apply field_no_lf, Hd; lia|done|done].
Qed.

(** ** Connections are pooled by address *)

(** The key of the pool has the address and whether TLS is used: a connection opened without checking
    the certificate and returned is handed to the next request for the address, also of a node that
    checks certificates. *)
Theorem unverified_connection_reused {IO S} (pools : gmap (list Z) (list (IdleConn (@upstream_stream IO S)))) pool t0 t1 now clock a s cr :
  let key := key_from_addr (Tcp a) true in
  default [] (pools !! key) = [] → 0 < max_idle pool → sat_sub (clock 0%nat) t1 < idle_timeout pool →
  fst (acquire pool now clock key (release pool t0 t1 key (ConnTls (Secured s)) cr 1 0 0 0 pools)) = Some (ConnTls (Secured s), cr, 1).
Proof. intros key Hq Hm Hi. by rewrite (release_acquire pools pool t0 t1 now clock key _ cr 1 0 0 0) by (done || lia). Qed.

Module TlsWitness.

(** Certificates and names are texts; a connection is the certificate its peer shows. *)
Definition name (s : list Z) : option (list Z) := match s with [] => None | _ => Some s end.
Definition valid (c n : list Z) : bool := str_eqb c n.
Definition shake (v : list Z → list Z → bool) (n i : list Z) : option (list Z) := if v i n then Some i else None.

Lemma shake_verified v n i s : shake v n i = Some s → v s n = true.
Proof. unfold shake. destruct (v i n) eqn:E; [|done]. by intros [= <-]. Qed.

Definition dial (c : string) (a : UpstreamAddr) : option (list Z) := Some (lit c).
Definition up : UpstreamAddr := Tcp (lit "10.0.0.1:443").

Lemma upstream_certificate_checked_witness :
  fst (open_stream name valid shake (dial "api.test") up true (lit "api.test") false
         (foldl (run_call name valid shake) empty_cells [TlsCall (dial "evil") up true (lit "x") true])) = Some (Secured (lit "api.test"))
  ∧ fst (open_stream name valid shake (dial "evil") up true (lit "api.test") false
         (foldl (run_call name valid shake) empty_cells [TlsCall (dial "evil") up true (lit "x") true])) = None
  ∧ valid (lit "api.test") (lit "api.test") = true.
Proof.
  split; [reflexivity|]. split; [reflexivity|].
  destruct (upstream_certificate_checked name valid shake (λ s, s) shake_verified [TlsCall (dial "evil") up true (lit "x") true]
              (dial "api.test") up (lit "api.test") (Secured (lit "api.test")) eq_refl) as (_ & t & n & Ht & Hn & Hw).
  injection Ht as <-. injection Hn as <-. exact Hw.
Defined.

Lemma probe_reports_status_witness :
  do_probe true ((lit "HTTP/1.1" ++ SP :: dec 204 ++ SP :: lit "No Content") ++ CRLF ++ lit "Server: x", EndOpen) = Done 204.
Proof.
  apply probe_reports_status; [by repeat constructor|done|unfold u16_max; lia|reflexivity|].
  apply (bool_decide_unpack _). by vm_compute.
Defined.

Lemma unverified_connection_reused_witness :
  fst (acquire (conn_pool_new 2 60) 0 (λ _, 0) (key_from_addr up true)
         (release (conn_pool_new 2 60) 0 0 (key_from_addr up true) (ConnTls (Secured (IO := unit) (lit "evil"))) 0 1 0 0 0 ∅))
  = Some (ConnTls (Secured (lit "evil")), 0, 1).
Proof. apply unverified_connection_reused; [reflexivity|cbn; lia|by vm_compute]. Defined.

End TlsWitness.
