(* ===== verification/Serde.v ===== *)
(** * Reading and writing configurations: the serde derives of [src/config/model/]

    The derived [Deserialize] and [Serialize] of the configuration types, as
    codecs between the types and the tree of [Json]: names of members, defaults
    of missing ones, names of variants, and the hand-written deserialisers.  TOML
    has no null: a member that is [None] is left out there.  The admin interface
    reads back what it writes (edits through the JSON tree, files saved as TOML),
    so a codec that does not round-trip breaks it. *)

From S2P Require Import Prelude RustStr Retry Headers Location Rewrite VHost LoadBalance ProxyCache Compress Config Tls HotReload Json AdminServer AdminConfig.

(** ** Codecs *)

Inductive format := FJson | FToml.

#[export] Instance format_eq_dec : EqDecision format.
Proof. solve_decision. Defined.

Record codec (A : Type) := mkCodec { enc : format → A → Value; dec_value : Value → option A }.
Arguments mkCodec {A} _ _.
Arguments enc {A} _ _ _.
Arguments dec_value {A} _ _.

Definition c_bool : codec bool := mkCodec (λ _ b, JBool b) (λ v, match v with JBool b => Some b | _ => None end).

(** Unsigned integers of a width. *)
Definition c_uint (max : Z) : codec Z :=
  mkCodec (λ _ n, JNumber (PosInt n)) (λ v, match v with JNumber (PosInt n) => if n <=? max then Some n else None | _ => None end).

Definition c_text : codec (list Z) := mkCodec (λ _ s, JString s) (λ v, match v with JString s => Some s | _ => None end).

Definition c_list {A} (c : codec A) : codec (list A) :=
  mkCodec (λ f l, JArray (enc c f <$> l)) (λ v, match v with JArray l => mapM (dec_value c) l | _ => None end).

Definition c_option {A} (c : codec A) : codec (option A) :=
  mkCodec (λ f o, match o with Some a => enc c f a | None => JNull end)
    (λ v, match v with JNull => Some None | _ => Some <$> dec_value c v end).

(** Enumerations without data: the variant by its name.  (The derived readers also take an object of
    one member for a variant, and an array for a structure; the program writes neither.) *)
Definition c_enum {A} (names : list (list Z * A)) (name : A → list Z) : codec A :=
  mkCodec (λ _ a, JString (name a))
    (λ v, match v with JString s => snd <$> List.find (λ p, str_eqb (fst p) s) names | _ => None end).

(** [rename_all = snake_case]: an underscore before every upper-case letter
    after the first, and lower case. *)
Definition byte_underscore : Z := 95.
Fixpoint snake_rest (s : list Z) : list Z :=
  match s with
  | [] => []
  | b :: s => if is_ascii_uppercase b then byte_underscore :: byte_lower b :: snake_rest s else b :: snake_rest s
  end.
Definition snake_case (s : list Z) : list Z := match s with [] => [] | b :: s => byte_lower b :: snake_rest s end.

(** ** Structures *)

Definition is_null (v : Value) : bool := match v with JNull => true | _ => false end.

(** The members that are written: TOML leaves out the ones that are null. *)
Definition prune (f : format) (l : list (list Z * Value)) : list (list Z * Value) :=
  match f with FJson => l | FToml => List.filter (λ kv, negb (is_null (snd kv))) l end.

Definition members (f : format) (l : list (list Z * Value)) : list (list Z * Value) :=
  foldr (λ kv m, obj_insert (fst kv) (snd kv) m) [] (prune f l).

Definition struct (f : format) (l : list (list Z * Value)) : Value := JObject (members f l).

(** A member with what a missing one is: [None] for a required one. *)
Definition member {A} (k : string) (missing : option A) (c : codec A) (m : list (list Z * Value)) : option A :=
  match obj_get (lit k) m with Some v => dec_value c v | None => missing end.

Definition of_object {A} (read : list (list Z * Value) → option A) (v : Value) : option A :=
  match v with JObject m => read m | _ => None end.

(** ** The types *)

Definition strategy_name (s : LoadBalanceStrategy) : list Z :=
  snake_case (lit (match s with
    | RoundRobin => "RoundRobin" | Weighted => "Weighted" | LeastConn => "LeastConn" | IpHash => "IpHash" end)).
Definition c_strategy : codec LoadBalanceStrategy :=
  c_enum ((λ s, (strategy_name s, s)) <$> [RoundRobin; Weighted; LeastConn; IpHash]) strategy_name.

Definition condition_name (c : NextUpstreamCondition) : list Z :=
  snake_case (lit (match c with
    | NError => "Error" | NTimeout => "Timeout" | NHttp502 => "Http502" | NHttp503 => "Http503" | NHttp504 => "Http504"
    | NHttp429 => "Http429" | NNonIdempotent => "NonIdempotent" | NInvalidHeader => "InvalidHeader" | NOff => "Off" end)).
Definition c_condition : codec NextUpstreamCondition :=
  c_enum ((λ s, (condition_name s, s)) <$> [NError; NTimeout; NHttp502; NHttp503; NHttp504; NHttp429; NNonIdempotent; NInvalidHeader; NOff])
    condition_name.

(** [rename_all = lowercase] *)
Definition flag_name (f : RewriteFlag) : list Z :=
  lit (match f with Last => "last" | BreakFlag => "break" | Redirect => "redirect" | Permanent => "permanent" end).
Definition c_flag : codec RewriteFlag := c_enum ((λ s, (flag_name s, s)) <$> [Last; BreakFlag; Redirect; Permanent]) flag_name.

Definition c_rewrite : codec RewriteRule :=
  mkCodec (λ f r, struct f [(lit "pattern", enc c_text f (rr_pattern r)); (lit "target", enc c_text f (rr_target r));
                            (lit "flag", enc c_flag f (rr_flag r)); (lit "condition", enc (c_option c_text) f (rr_condition r))])
    (of_object (λ m,
       p ← member "pattern" None c_text m; t ← member "target" None c_text m; fl ← member "flag" (Some Last) c_flag m;
       c ← member "condition" (Some None) (c_option c_text) m; Some (mkRule p t fl c))).

(** [UpstreamAddr]: the derived [Serialize] tags the variant, the hand-written
    [Deserialize] reads a text. *)
Definition c_addr : codec UpstreamAddr :=
  mkCodec (λ f a, match a with
                  | Tcp s => struct f [(lit "Tcp", JString s)]
                  | Unix s => struct f [(lit "Unix", JString s)]
                  end)
    (λ v, UpstreamAddr_parse <$> dec_value c_text v).

(** [HandlerType]: five variants by name; the last is tried with what is left
    and reads the text after its prefix. *)
Definition handler_name (h : HandlerType) : list Z :=
  match h with
  | Static => lit "static" | Fastcgi => lit "fastcgi" | Websocket => lit "websocket" | ReverseProxy => lit "reverse_proxy"
  | Grpc => lit "grpc" | Plugin n => n
  end.
Definition c_handler : codec HandlerType :=
  mkCodec (λ _ h, JString (handler_name h))
    (λ v, match v with
          | JString s =>
              match List.find (λ h, str_eqb (handler_name h) s) [Static; Fastcgi; Websocket; ReverseProxy; Grpc] with
              | Some h => Some h
              | None => Plugin <$> strip_prefix (lit "plugin:") s
              end
          | _ => None
          end).

Definition c_node : codec UpstreamNode :=
  mkCodec (λ f n, struct f
     [(lit "addr", enc c_addr f (un_addr n)); (lit "weight", enc (c_uint u32_max) f (un_weight n)); (lit "tls", enc c_bool f (un_tls n));
      (lit "tls_sni", enc (c_option c_text) f (un_tls_sni n)); (lit "tls_insecure", enc c_bool f (un_tls_insecure n));
      (lit "upstream_host", enc (c_option c_text) f (un_upstream_host n)); (lit "http2", enc c_bool f (un_http2 n));
      (lit "send_proxy_protocol", enc (c_uint u8_max) f (un_send_proxy_protocol n))])
    (of_object (λ m,
       a ← member "addr" None c_addr m; w ← member "weight" (Some 1) (c_uint u32_max) m; t ← member "tls" (Some false) c_bool m;
       s ← member "tls_sni" (Some None) (c_option c_text) m; i ← member "tls_insecure" (Some false) c_bool m;
       h ← member "upstream_host" (Some None) (c_option c_text) m; h2 ← member "http2" (Some false) c_bool m;
       p ← member "send_proxy_protocol" (Some 0) (c_uint u8_max) m; Some (mkUpstreamNode a w t s i h h2 p))).

Definition c_health : codec HealthCheckConfig :=
  mkCodec (λ f h, struct f
     [(lit "enabled", enc c_bool f (LoadBalance.hc_enabled h)); (lit "interval", enc (c_uint u64_max) f (LoadBalance.hc_interval h));
      (lit "timeout", enc (c_uint u64_max) f (hc_timeout h)); (lit "path", enc c_text f (LoadBalance.hc_path h))])
    (of_object (λ m,
       e ← member "enabled" (Some true) c_bool m; i ← member "interval" (Some 10) (c_uint u64_max) m;
       t ← member "timeout" (Some 3) (c_uint u64_max) m; p ← member "path" (Some (lit "/health")) c_text m;
       Some (mkHealthCheckConfig e i t p))).

Definition c_breaker : codec CircuitBreakerConfig :=
  mkCodec (λ f b, struct f
     [(lit "max_failures", enc (c_uint u32_max) f (cbc_max_failures b)); (lit "window_secs", enc (c_uint u64_max) f (cbc_window_secs b));
      (lit "fail_timeout", enc (c_uint u64_max) f (cbc_fail_timeout b))])
    (of_object (λ m,
       a ← member "max_failures" (Some 5) (c_uint u32_max) m; w ← member "window_secs" (Some 60) (c_uint u64_max) m;
       t ← member "fail_timeout" (Some 30) (c_uint u64_max) m; Some (mkCBConfig a w t))).

Definition c_upstream : codec UpstreamConfig :=
  mkCodec (λ f u, struct f
     [(lit "name", enc c_text f (uc_name u)); (lit "strategy", enc c_strategy f (uc_strategy u));
      (lit "health_check", enc (c_option c_health) f (uc_health_check u)); (lit "nodes", enc (c_list c_node) f (uc_nodes u));
      (lit "keepalive", enc (c_uint usize_max) f (uc_keepalive u)); (lit "keepalive_requests", enc (c_uint u64_max) f (uc_keepalive_requests u));
      (lit "keepalive_time", enc (c_uint u64_max) f (uc_keepalive_time u)); (lit "connect_timeout", enc (c_uint u64_max) f (uc_connect_timeout u));
      (lit "read_timeout", enc (c_uint u64_max) f (uc_read_timeout u)); (lit "write_timeout", enc (c_uint u64_max) f (uc_write_timeout u));
      (lit "retry", enc (c_uint u32_max) f (uc_retry u)); (lit "retry_timeout", enc (c_uint u64_max) f (uc_retry_timeout u));
      (lit "proxy_next_upstream", enc (c_list c_condition) f (uc_proxy_next_upstream u));
      (lit "circuit_breaker", enc (c_option c_breaker) f (uc_circuit_breaker u))])
    (of_object (λ m,
       n ← member "name" None c_text m; s ← member "strategy" (Some RoundRobin) c_strategy m;
       h ← member "health_check" (Some None) (c_option c_health) m; ns ← member "nodes" None (c_list c_node) m;
       k ← member "keepalive" (Some 0) (c_uint usize_max) m; kr ← member "keepalive_requests" (Some 0) (c_uint u64_max) m;
       kt ← member "keepalive_time" (Some 0) (c_uint u64_max) m; ct ← member "connect_timeout" (Some 10) (c_uint u64_max) m;
       rt ← member "read_timeout" (Some 60) (c_uint u64_max) m; wt ← member "write_timeout" (Some 60) (c_uint u64_max) m;
       r ← member "retry" (Some 0) (c_uint u32_max) m; rto ← member "retry_timeout" (Some 0) (c_uint u64_max) m;
       nx ← member "proxy_next_upstream" (Some []) (c_list c_condition) m;
       cb ← member "circuit_breaker" (Some None) (c_option c_breaker) m;
       Some (mkUpstreamConfig n s h ns k kr kt ct rt wt r rto nx cb))).

Definition c_compress : codec CompressConfig :=
  mkCodec (λ f c, struct f
     [(lit "gzip", enc c_bool f (cc_gzip c)); (lit "gzip_level", enc (c_uint u32_max) f (cc_gzip_level c));
      (lit "brotli", enc c_bool f (cc_brotli c)); (lit "brotli_level", enc (c_uint u32_max) f (cc_brotli_level c));
      (lit "zstd", enc c_bool f (cc_zstd c)); (lit "zstd_level", enc (c_uint u32_max) f (cc_zstd_level c));
      (lit "min_length", enc (c_uint usize_max) f (cc_min_length c))])
    (of_object (λ m,
       g ← member "gzip" (Some false) c_bool m; gl ← member "gzip_level" (Some 6) (c_uint u32_max) m;
       b ← member "brotli" (Some false) c_bool m; bl ← member "brotli_level" (Some 4) (c_uint u32_max) m;
       z ← member "zstd" (Some false) c_bool m; zl ← member "zstd_level" (Some 3) (c_uint u32_max) m;
       l ← member "min_length" (Some 1) (c_uint usize_max) m; Some (mkCompress g gl b bl z zl l))).

Definition c_site_compress : codec SiteCompressConfig :=
  mkCodec (λ f c, struct f
     [(lit "gzip", enc (c_option c_bool) f (scc_gzip c)); (lit "gzip_level", enc (c_option (c_uint u32_max)) f (scc_gzip_level c));
      (lit "brotli", enc (c_option c_bool) f (scc_brotli c)); (lit "brotli_level", enc (c_option (c_uint u32_max)) f (scc_brotli_level c));
      (lit "zstd", enc (c_option c_bool) f (scc_zstd c)); (lit "zstd_level", enc (c_option (c_uint u32_max)) f (scc_zstd_level c));
      (lit "min_length", enc (c_option (c_uint usize_max)) f (scc_min_length c))])
    (of_object (λ m,
       g ← member "gzip" (Some None) (c_option c_bool) m; gl ← member "gzip_level" (Some None) (c_option (c_uint u32_max)) m;
       b ← member "brotli" (Some None) (c_option c_bool) m; bl ← member "brotli_level" (Some None) (c_option (c_uint u32_max)) m;
       z ← member "zstd" (Some None) (c_option c_bool) m; zl ← member "zstd_level" (Some None) (c_option (c_uint u32_max)) m;
       l ← member "min_length" (Some None) (c_option (c_uint usize_max)) m; Some (mkSiteCompress g gl b bl z zl l))).

Definition c_hsts : codec HstsConfig :=
  mkCodec (λ f h, struct f
     [(lit "max_age", enc (c_uint u64_max) f (max_age h)); (lit "include_sub_domains", enc c_bool f (include_sub_domains h));
      (lit "preload", enc c_bool f (preload h))])
    (of_object (λ m,
       a ← member "max_age" (Some 31536000) (c_uint u64_max) m; i ← member "include_sub_domains" (Some false) c_bool m;
       p ← member "preload" (Some false) c_bool m; Some (mkHsts a i p))).

(** The member [hsts] of a site: missing means the default, which is on. *)
Definition HstsConfig_default : HstsConfig := mkHsts 31536000 false false.
Definition hsts_member (m : list (list Z * Value)) : option (option HstsConfig) :=
  member "hsts" (Some (Some HstsConfig_default)) (c_option c_hsts) m.

(** [ProxyCacheConfig] and [FastCgiCacheConfig], which differ in the headers
    that bypass the cache when none are given. *)
Definition default_no_cache_headers : list (list Z) := [lit "Authorization"; lit "Cookie"].
Definition c_cache (bypass : list (list Z)) : codec ProxyCacheConfig :=
  mkCodec (λ f c, struct f
     [(lit "path", enc (c_option c_text) f (pcc_path c)); (lit "max_entries", enc (c_uint usize_max) f (pcc_max_entries c));
      (lit "ttl", enc (c_uint u64_max) f (pcc_ttl c)); (lit "cacheable_statuses", enc (c_list (c_uint u16_max)) f (pcc_cacheable_statuses c));
      (lit "cacheable_methods", enc (c_list c_text) f (pcc_cacheable_methods c));
      (lit "bypass_headers", enc (c_list c_text) f (pcc_bypass_headers c));
      (lit "ignore_headers", enc (c_list c_text) f (pcc_ignore_headers c))])
    (of_object (λ m,
       p ← member "path" (Some None) (c_option c_text) m; e ← member "max_entries" (Some 1000) (c_uint usize_max) m;
       t ← member "ttl" (Some 60) (c_uint u64_max) m; s ← member "cacheable_statuses" (Some [200; 301; 302]) (c_list (c_uint u16_max)) m;
       ms ← member "cacheable_methods" (Some [lit "GET"; lit "HEAD"]) (c_list c_text) m;
       b ← member "bypass_headers" (Some bypass) (c_list c_text) m;
       i ← member "ignore_headers" (Some []) (c_list c_text) m; Some (mkProxyCacheConfig p e t s ms b i))).
Definition c_proxy_cache : codec ProxyCacheConfig := c_cache default_no_cache_headers.
Definition c_fcgi_cache : codec ProxyCacheConfig := c_cache [].

(** [FastCgiConfig] with its [Default]. *)
Record FastCgiSettings := mkFcgiSettings {
  fs_socket : option (list Z); fs_host : option (list Z); fs_port : option Z; fs_pool_size : Z;
  fs_connect_timeout : Z; fs_read_timeout : Z; fs_cache : option ProxyCacheConfig;
}.
Definition FastCgiSettings_default : FastCgiSettings := mkFcgiSettings None None None 32 5 30 None.
Definition c_fastcgi : codec FastCgiSettings :=
  mkCodec (λ f c, struct f
     [(lit "socket", enc (c_option c_text) f (fs_socket c)); (lit "host", enc (c_option c_text) f (fs_host c));
      (lit "port", enc (c_option (c_uint u16_max)) f (fs_port c)); (lit "pool_size", enc (c_uint usize_max) f (fs_pool_size c));
      (lit "connect_timeout", enc (c_uint u64_max) f (fs_connect_timeout c)); (lit "read_timeout", enc (c_uint u64_max) f (fs_read_timeout c));
      (lit "cache", enc (c_option c_fcgi_cache) f (fs_cache c))])
    (of_object (λ m,
       s ← member "socket" (Some None) (c_option c_text) m; h ← member "host" (Some None) (c_option c_text) m;
       p ← member "port" (Some None) (c_option (c_uint u16_max)) m; z ← member "pool_size" (Some 32) (c_uint usize_max) m;
       ct ← member "connect_timeout" (Some 5) (c_uint u64_max) m; rt ← member "read_timeout" (Some 30) (c_uint u64_max) m;
       c ← member "cache" (Some None) (c_option c_fcgi_cache) m; Some (mkFcgiSettings s h p z ct rt c))).

(** ** [GlobalConfig] *)

Record GlobalConfig := mkGlobal {
  g_worker_threads : Z;
  g_worker_connections : Z;
  g_max_connections : Z;
  g_keepalive_timeout : Z;
  g_fastcgi_connect_timeout : Z;
  g_fastcgi_read_timeout : Z;
  g_client_max_body_size : Z;
  g_client_header_buffer_size : Z;
  g_client_body_buffer_size : Z;
  g_gzip : bool;
  g_gzip_min_length : Z;
  g_gzip_comp_level : Z;
  g_compress : CompressConfig;
  g_admin_listen : list Z;
  g_admin_token : list Z;
  g_error_log : option (list Z);
  g_prometheus_enabled : bool;
  g_prometheus_path : list Z;
  g_log_level : list Z;
  g_open_file_cache_max : Z;
  g_open_file_cache_inactive : Z;
  g_open_file_cache_total_mb : Z;
  g_h2_max_concurrent_streams : Z;
  g_h2_max_pending_per_conn : Z;
  g_h2_max_concurrent_reset_streams : Z;
  g_h2_max_frame_size : Z;
  g_h2_max_requests_per_conn : Z;
}.

(** [impl Default for GlobalConfig] *)
Definition GlobalConfig_default : GlobalConfig :=
  mkGlobal 0 51200 0 60 5 60 50 32 512 false 1 5 default_compress [] [] None true (lit "/metrics") (lit "info") 200000 60 512 128 0 200 65535 1000.

Definition global_fields (f : format) (g : GlobalConfig) : list (list Z * Value) :=
  [(lit "worker_threads", enc (c_uint usize_max) f (g_worker_threads g));
   (lit "worker_connections", enc (c_uint usize_max) f (g_worker_connections g));
   (lit "max_connections", enc (c_uint usize_max) f (g_max_connections g));
   (lit "keepalive_timeout", enc (c_uint u64_max) f (g_keepalive_timeout g));
   (lit "fastcgi_connect_timeout", enc (c_uint u64_max) f (g_fastcgi_connect_timeout g));
   (lit "fastcgi_read_timeout", enc (c_uint u64_max) f (g_fastcgi_read_timeout g));
   (lit "client_max_body_size", enc (c_uint usize_max) f (g_client_max_body_size g));
   (lit "client_header_buffer_size", enc (c_uint usize_max) f (g_client_header_buffer_size g));
   (lit "client_body_buffer_size", enc (c_uint usize_max) f (g_client_body_buffer_size g));
   (lit "gzip", enc c_bool f (g_gzip g));
   (lit "gzip_min_length", enc (c_uint usize_max) f (g_gzip_min_length g));
   (lit "gzip_comp_level", enc (c_uint u32_max) f (g_gzip_comp_level g));
   (lit "compress", enc c_compress f (g_compress g));
   (lit "admin_listen", enc c_text f (g_admin_listen g));
   (lit "admin_token", enc c_text f (g_admin_token g));
   (lit "error_log", enc (c_option c_text) f (g_error_log g));
   (lit "prometheus_enabled", enc c_bool f (g_prometheus_enabled g));
   (lit "prometheus_path", enc c_text f (g_prometheus_path g));
   (lit "log_level", enc c_text f (g_log_level g));
   (lit "open_file_cache_max", enc (c_uint usize_max) f (g_open_file_cache_max g));
   (lit "open_file_cache_inactive", enc (c_uint u64_max) f (g_open_file_cache_inactive g));
   (lit "open_file_cache_total_mb", enc (c_uint usize_max) f (g_open_file_cache_total_mb g));
   (lit "h2_max_concurrent_streams", enc (c_uint u32_max) f (g_h2_max_concurrent_streams g));
   (lit "h2_max_pending_per_conn", enc (c_uint usize_max) f (g_h2_max_pending_per_conn g));
   (lit "h2_max_concurrent_reset_streams", enc (c_uint usize_max) f (g_h2_max_concurrent_reset_streams g));
   (lit "h2_max_frame_size", enc (c_uint u32_max) f (g_h2_max_frame_size g));
   (lit "h2_max_requests_per_conn", enc (c_uint usize_max) f (g_h2_max_requests_per_conn g))].

(** The derived reader, with the default functions of the members. *)
Definition read_global (m : list (list Z * Value)) : option GlobalConfig :=
  x0 ← member "worker_threads" (Some 0) (c_uint usize_max) m;
  x1 ← member "worker_connections" (Some 51200) (c_uint usize_max) m;
  x2 ← member "max_connections" (Some 0) (c_uint usize_max) m;
  x3 ← member "keepalive_timeout" (Some 60) (c_uint u64_max) m;
  x4 ← member "fastcgi_connect_timeout" (Some 5) (c_uint u64_max) m;
  x5 ← member "fastcgi_read_timeout" (Some 60) (c_uint u64_max) m;
  x6 ← member "client_max_body_size" (Some 50) (c_uint usize_max) m;
  x7 ← member "client_header_buffer_size" (Some 32) (c_uint usize_max) m;
  x8 ← member "client_body_buffer_size" (Some 512) (c_uint usize_max) m;
  x9 ← member "gzip" (Some false) c_bool m;
  x10 ← member "gzip_min_length" (Some 1) (c_uint usize_max) m;
  x11 ← member "gzip_comp_level" (Some 5) (c_uint u32_max) m;
  x12 ← member "compress" (Some default_compress) c_compress m;
  x13 ← member "admin_listen" (Some []) c_text m;
  x14 ← member "admin_token" (Some []) c_text m;
  x15 ← member "error_log" (Some None) (c_option c_text) m;
  x16 ← member "prometheus_enabled" (Some true) c_bool m;
  x17 ← member "prometheus_path" (Some (lit "/metrics")) c_text m;
  x18 ← member "log_level" (Some (lit "info")) c_text m;
  x19 ← member "open_file_cache_max" (Some 200000) (c_uint usize_max) m;
  x20 ← member "open_file_cache_inactive" (Some 60) (c_uint u64_max) m;
  x21 ← member "open_file_cache_total_mb" (Some 512) (c_uint usize_max) m;
  x22 ← member "h2_max_concurrent_streams" (Some 128) (c_uint u32_max) m;
  x23 ← member "h2_max_pending_per_conn" (Some 0) (c_uint usize_max) m;
  x24 ← member "h2_max_concurrent_reset_streams" (Some 200) (c_uint usize_max) m;
  x25 ← member "h2_max_frame_size" (Some 65535) (c_uint u32_max) m;
  x26 ← member "h2_max_requests_per_conn" (Some 1000) (c_uint usize_max) m;
  Some (mkGlobal x0 x1 x2 x3 x4 x5 x6 x7 x8 x9 x10 x11 x12 x13 x14 x15 x16 x17 x18 x19 x20 x21 x22 x23 x24 x25 x26).

Definition c_global : codec GlobalConfig := mkCodec (λ f g, struct f (global_fields f g)) (of_object read_global).

(** ** Laws *)

(** Numbers that both formats can hold: TOML integers are signed. *)
Definition i64_max : Z := 9223372036854775807.
Definition uint_ok (max n : Z) : Prop := 0 ≤ n ≤ max ∧ n ≤ i64_max.

(** What is written is read back, and is never null. *)
Definition codec_ok {A} (c : codec A) (wf : A → Prop) : Prop :=
  ∀ f a, wf a → dec_value c (enc c f a) = Some a ∧ is_null (enc c f a) = false.

Definition opt_wf {A} (wf : A → Prop) (o : option A) : Prop := match o with Some a => wf a | None => True end.
Definition always {A} (a : A) : Prop := True.

Create HintDb codecs.

Lemma c_bool_ok : codec_ok c_bool always.
Proof. by intros f b _. Qed.
Lemma c_text_ok : codec_ok c_text always.
Proof. by intros f b _. Qed.
Lemma c_uint_ok max : codec_ok (c_uint max) (uint_ok max).
Proof. intros f n [Hn _]. cbn. rewrite (proj2 (Z.leb_le _ _)) by lia. done. Qed.
Lemma c_list_ok {A} (c : codec A) wf : codec_ok c wf → codec_ok (c_list c) (Forall wf).
Proof.
  intros H f l Hl. split; [|done]. cbn [dec_value enc c_list]. induction Hl as [|a l Ha _ IH]; [done|].
  cbn [fmap list_fmap mapM]. rewrite (proj1 (H f a Ha)). cbn [mbind option_bind]. cbn [fmap list_fmap] in IH. by rewrite IH.
Qed.
Lemma c_enum_ok {A} (all : list A) (name : A → list Z) :
  (∀ a, List.find (λ p, str_eqb (fst p) (name a)) ((λ s, (name s, s)) <$> all) = Some (name a, a)) →
  codec_ok (c_enum ((λ s, (name s, s)) <$> all) name) always.
Proof. intros H f a _. cbn. by rewrite H. Qed.
Lemma c_strategy_ok : codec_ok c_strategy always.
Proof. apply c_enum_ok. by intros []. Qed.
Lemma c_condition_ok : codec_ok c_condition always.
Proof. apply c_enum_ok. by intros []. Qed.
Lemma c_flag_ok : codec_ok c_flag always.
Proof. apply c_enum_ok. by intros []. Qed.

#[export] Hint Resolve c_bool_ok c_text_ok c_uint_ok c_list_ok c_strategy_ok c_condition_ok c_flag_ok : codecs.

(** *** Members *)

Lemma obj_get_members k l : obj_get k (foldr (λ kv m, obj_insert (fst kv) (snd kv) m) [] l) = obj_get k l.
Proof.
  induction l as [|[k' v] l IH]; [done|]. cbn [foldr obj_get fst snd]. unfold str_eqb. case_bool_decide as E.
  - subst. apply obj_get_insert.
  - by rewrite obj_get_insert_ne.
Qed.

Lemma obj_get_elem k v l : NoDup (fst <$> l) → (k, v) ∈ l → obj_get k l = Some v.
Proof.
  induction l as [|[k' v'] l IH]; intros Hnd Hin; [by apply elem_of_nil in Hin|].
  rewrite fmap_cons, NoDup_cons in Hnd. destruct Hnd as [Hk Hnd]. cbn [obj_get]. unfold str_eqb.
  apply elem_of_cons in Hin as [[= -> ->]|Hin]; [by rewrite bool_decide_true|].
  rewrite bool_decide_false; [by apply IH|]. intros ->. apply Hk. exact (list_elem_of_fmap_2 fst l (k', v) Hin).
Qed.

Lemma prune_keys f l : NoDup (fst <$> l) → NoDup (fst <$> prune f l) ∧ ∀ k, k ∈ fst <$> prune f l → k ∈ fst <$> l.
Proof.
  intros H. destruct f; [done|]. induction l as [|[k v] l IH]; [done|]. cbn [prune List.filter snd].
  rewrite fmap_cons, NoDup_cons in H. destruct H as [Hk Hnd]. destruct (IH Hnd) as [IH1 IH2]. cbn [prune] in *.
  destruct (is_null v); cbn [negb]; rewrite ?fmap_cons; cbn [fst].
  - split; [done|]. intros k' Hin. right. auto.
  - split; [constructor; auto|]. intros k' [->|Hin]%elem_of_cons; [by left|right; auto].
Qed.

Lemma members_get f l k v :
  NoDup (fst <$> l) → (k, v) ∈ l →
  obj_get k (members f l) = if bool_decide (f = FToml) && is_null v then None else Some v.
Proof.
  intros Hnd Hin. unfold members. rewrite obj_get_members. destruct f; [by apply obj_get_elem|]. cbn [bool_decide].
  rewrite bool_decide_true by done. cbn [andb]. destruct (is_null v) eqn:En.
  - clear -Hnd Hin En. induction l as [|[k' v'] l IH]; [done|]. cbn [prune List.filter snd] in *.
    rewrite fmap_cons, NoDup_cons in Hnd. destruct Hnd as [Hk Hnd]. cbn [fst] in Hk. apply elem_of_cons in Hin as [[= -> ->]|Hin].
    + rewrite En. cbn [negb]. destruct (obj_get k' _) as [w|] eqn:E; [exfalso|done].
      apply Hk. apply (prune_keys FToml l Hnd). cbn [prune].
      clear -E. induction (List.filter _ l) as [|[k2 v2] q IH]; [done|]. cbn [obj_get] in E. unfold str_eqb in E.
      rewrite fmap_cons. cbn [fst]. case_bool_decide; [subst; by left|right; by apply IH].
    + specialize (IH Hnd Hin). destruct (is_null v'); cbn [negb]; [done|]. cbn [obj_get]. unfold str_eqb.
      rewrite bool_decide_false; [done|]. intros ->. apply Hk. exact (list_elem_of_fmap_2 fst l (k', v) Hin).
  - apply obj_get_elem; [by apply prune_keys|]. cbn [prune]. apply list_elem_of_In, filter_In. split; [by apply list_elem_of_In|].
    cbn. by rewrite En.
Qed.

Lemma member_enc {A} (c : codec A) wf f l k missing a :
  NoDup (fst <$> l) → (lit k, enc c f a) ∈ l → codec_ok c wf → wf a → member k missing c (members f l) = Some a.
Proof.
  intros Hnd Hin Hc Ha. destruct (Hc f a Ha) as [H1 H2]. unfold member. rewrite (members_get f l _ _ Hnd Hin), H2, andb_false_r. done.
Qed.

Lemma member_opt {A} (c : codec A) wf f l k o :
  NoDup (fst <$> l) → (lit k, enc (c_option c) f o) ∈ l → codec_ok c wf → opt_wf wf o →
  member k (Some None) (c_option c) (members f l) = Some o.
Proof.
  intros Hnd Hin Hc Ho. unfold member. rewrite (members_get f l _ _ Hnd Hin). destruct o as [a|]; cbn [enc c_option] in *.
  - destruct (Hc f a Ho) as [H1 H2]. rewrite H2, andb_false_r. cbn [dec_value c_option].
    destruct (enc c f a); [discriminate H2|by rewrite H1..].
  - by destruct (bool_decide (f = FToml)).
Qed.

(** Reads the members of a structure one after the other. *)
Ltac find_member := first [apply list_elem_of_here | apply list_elem_of_further; find_member].
Lemma opt_always {A} (o : option A) : opt_wf always o.
Proof. by destruct o. Qed.
Lemma Forall_always {A} (l : list A) : Forall always l.
Proof. by apply Forall_true. Qed.
Ltac side := first [assumption | exact I | apply opt_always | apply Forall_always | by destruct_and?].
Ltac read_members Hnd :=
  repeat (lazymatch goal with
  | |- (member ?k ?d ?c (members ?f ?l) ≫= _) = _ =>
      let H := fresh in
      eassert (H : member k d c (members f l) = Some _);
      [first [eapply member_opt; [exact Hnd|find_member|solve [eauto with codecs]|side]
             |eapply member_enc; [exact Hnd|find_member|solve [eauto with codecs]|side]]
      |rewrite H; clear H; cbn [mbind option_bind]]
  end).
Ltac struct_ok :=
  split; [|reflexivity]; cbn [dec_value enc of_object];
  match goal with |- of_object _ (struct _ ?l) = _ =>
    let Hnd := fresh "Hnd" in
    assert (Hnd : NoDup (fst <$> l)) by (apply (bool_decide_unpack _); vm_compute; exact I);
    unfold of_object, struct; read_members Hnd
  end.

Lemma c_rewrite_ok : codec_ok c_rewrite always.
Proof. intros f r _. unfold c_rewrite. struct_ok. by destruct r. Qed.

Definition health_wf (h : HealthCheckConfig) : Prop :=
  uint_ok u64_max (LoadBalance.hc_interval h) ∧ uint_ok u64_max (hc_timeout h).
Lemma c_health_ok : codec_ok c_health health_wf.
Proof. intros f h [H1 H2]. unfold c_health. struct_ok. by destruct h. Qed.

Definition breaker_wf (b : CircuitBreakerConfig) : Prop :=
  uint_ok u32_max (cbc_max_failures b) ∧ uint_ok u64_max (cbc_window_secs b) ∧ uint_ok u64_max (cbc_fail_timeout b).
Lemma c_breaker_ok : codec_ok c_breaker breaker_wf.
Proof. intros f b (H1 & H2 & H3). unfold c_breaker. struct_ok. by destruct b. Qed.

Definition hsts_wf (h : HstsConfig) : Prop := uint_ok u64_max (max_age h).
Lemma c_hsts_ok : codec_ok c_hsts hsts_wf.
Proof. intros f h H. unfold hsts_wf in H. unfold c_hsts. struct_ok. by destruct h. Qed.

Definition compress_wf (c : CompressConfig) : Prop :=
  uint_ok u32_max (cc_gzip_level c) ∧ uint_ok u32_max (cc_brotli_level c) ∧ uint_ok u32_max (cc_zstd_level c)
  ∧ uint_ok usize_max (cc_min_length c).
Lemma c_compress_ok : codec_ok c_compress compress_wf.
Proof. intros f c (H1 & H2 & H3 & H4). unfold c_compress. struct_ok. by destruct c. Qed.

Definition site_compress_wf (c : SiteCompressConfig) : Prop :=
  opt_wf (uint_ok u32_max) (scc_gzip_level c) ∧ opt_wf (uint_ok u32_max) (scc_brotli_level c)
  ∧ opt_wf (uint_ok u32_max) (scc_zstd_level c) ∧ opt_wf (uint_ok usize_max) (scc_min_length c).
Lemma c_site_compress_ok : codec_ok c_site_compress site_compress_wf.
Proof. intros f c (H1 & H2 & H3 & H4). unfold c_site_compress. struct_ok. by destruct c. Qed.

Definition cache_wf (c : ProxyCacheConfig) : Prop :=
  uint_ok usize_max (pcc_max_entries c) ∧ uint_ok u64_max (pcc_ttl c) ∧ Forall (uint_ok u16_max) (pcc_cacheable_statuses c).
Lemma c_cache_ok bypass : codec_ok (c_cache bypass) cache_wf.
Proof. intros f c (H1 & H2 & H3). unfold c_cache. struct_ok. by destruct c. Qed.
Lemma c_fcgi_cache_ok : codec_ok c_fcgi_cache cache_wf.
Proof. apply c_cache_ok. Qed.

#[export] Hint Resolve c_rewrite_ok c_health_ok c_breaker_ok c_hsts_ok c_compress_ok c_fcgi_cache_ok : codecs.

Definition fastcgi_wf (c : FastCgiSettings) : Prop :=
  opt_wf (uint_ok u16_max) (fs_port c) ∧ uint_ok usize_max (fs_pool_size c) ∧ uint_ok u64_max (fs_connect_timeout c)
  ∧ uint_ok u64_max (fs_read_timeout c) ∧ opt_wf cache_wf (fs_cache c).
Lemma c_fastcgi_ok : codec_ok c_fastcgi fastcgi_wf.
Proof. intros f c (H1 & H2 & H3 & H4 & H5). unfold c_fastcgi. struct_ok. by destruct c. Qed.

(** *** The global section *)

Definition global_wf (g : GlobalConfig) : Prop :=
  Forall (uint_ok u64_max)
    [g_worker_threads g; g_worker_connections g; g_max_connections g; g_keepalive_timeout g; g_fastcgi_connect_timeout g;
     g_fastcgi_read_timeout g; g_client_max_body_size g; g_client_header_buffer_size g; g_client_body_buffer_size g;
     g_gzip_min_length g; g_open_file_cache_max g; g_open_file_cache_inactive g; g_open_file_cache_total_mb g;
     g_h2_max_pending_per_conn g; g_h2_max_concurrent_reset_streams g; g_h2_max_requests_per_conn g]
  ∧ Forall (uint_ok u32_max) [g_gzip_comp_level g; g_h2_max_concurrent_streams g; g_h2_max_frame_size g]
  ∧ compress_wf (g_compress g).

Lemma c_global_ok : codec_ok c_global global_wf.
Proof.
  intros f g (H64 & H32 & Hc). repeat (apply Forall_cons in H64 as [? H64]). repeat (apply Forall_cons in H32 as [? H32]).
  unfold c_global, global_fields, read_global. struct_ok. by destruct g.
Qed.

(** The global section survives being written and read.  What the server writes of its global
    settings, as JSON for the admin interface or as TOML for the configuration file, is read back as
    the same settings, whatever their values within their widths; and the defaults of the reader and
    of the program agree: an empty section gives [GlobalConfig::default]. *)
Theorem global_config_roundtrip f g :
  global_wf g →
  dec_value c_global (enc c_global f g) = Some g ∧ dec_value c_global (JObject []) = Some GlobalConfig_default.
Proof. intros H. split; [by apply c_global_ok|reflexivity]. Qed.

(** The defaults of FastCGI and HSTS agree with their [Default] as well; those of the compression
    section do not: a section that is there and empty switches off what its absence leaves on. *)
Theorem section_defaults :
  dec_value c_fastcgi (JObject []) = Some FastCgiSettings_default
  ∧ dec_value c_hsts (JObject []) = Some HstsConfig_default
  ∧ (g_compress <$> dec_value c_global (JObject [])) = Some (mkCompress true 6 true 4 true 3 1)
  ∧ (g_compress <$> dec_value c_global (JObject [(lit "compress", JObject [])])) = Some (mkCompress false 6 false 4 false 3 1).
Proof. by vm_compute. Qed.

(** ** What is not read back *)

(** The address of a node is written as a tagged variant and read as a text: no node that was written
    can be read. *)
Theorem node_not_read_back f n : dec_value c_node (enc c_node f n) = None.
Proof.
  unfold c_node. cbn [dec_value enc]. unfold of_object, struct. cbv beta iota.
  match goal with |- context [members f ?l] =>
    assert (Hnd : NoDup (fst <$> l)) by (apply (bool_decide_unpack _); vm_compute; exact I);
    pose proof (members_get f l (lit "addr") (enc c_addr f (un_addr n)) Hnd ltac:(find_member)) as Ha;
    assert (Hm : member "addr" None c_addr (members f l) = None)
      by (unfold member; rewrite Ha; by destruct (un_addr n), f);
    rewrite Hm end.
  reflexivity.
Qed.

(** An upstream group with nodes written by the server, in the JSON tree that every edit through the
    admin interface reads back or in the file it saves, is refused: such a configuration cannot be
    edited, and a saved one does not load. *)
Theorem saved_upstream_refused f u : uc_nodes u ≠ [] → dec_value c_upstream (enc c_upstream f u) = None.
Proof.
  intros Hn. unfold c_upstream. cbn [dec_value enc]. unfold of_object, struct. cbv beta iota.
  match goal with |- context [members f ?l] =>
    assert (Hnd : NoDup (fst <$> l)) by (apply (bool_decide_unpack _); vm_compute; exact I);
    pose proof (members_get f l (lit "nodes") (enc (c_list c_node) f (uc_nodes u)) Hnd ltac:(find_member)) as Hn';
    assert (Hnodes : member "nodes" None (c_list c_node) (members f l) = None) end.
  { unfold member. rewrite Hn', andb_false_r. cbn [enc c_list dec_value]. destruct (uc_nodes u) as [|n ns]; [done|].
    cbn [fmap list_fmap mapM]. by rewrite node_not_read_back. }
  rewrite Hnodes. clear. destruct (member "name" _ _ _); cbn [mbind option_bind]; [|done].
  destruct (member "strategy" _ _ _); cbn [mbind option_bind]; [|done]. by destruct (member "health_check" _ _ _).
Qed.

(** The name of a plugin is written without the prefix it is read with: the handler of a plugin
    location is never read back as it was. *)
Theorem plugin_not_read_back f n : dec_value c_handler (enc c_handler f (Plugin n)) ≠ Some (Plugin n).
Proof.
  cbn [dec_value enc c_handler handler_name]. destruct (List.find _ _) as [h|] eqn:Ef.
  - intros [= ->]. apply List.find_some in Ef as [Hin _]. repeat (destruct Hin as [Hin|Hin]; [discriminate Hin|]). done.
  - destruct (strip_prefix (lit "plugin:") n) as [n'|] eqn:Es; [|done]. intros [= ->].
    apply strip_prefix_Some in Es. apply (f_equal length) in Es. rewrite length_app in Es. cbn in Es. lia.
Qed.

(** A plugin called like a built-in handler turns into that handler. *)
Theorem plugin_named_static f : dec_value c_handler (enc c_handler f (Plugin (lit "static"))) = Some Static.
Proof. reflexivity. Qed.

(** The other handlers are read back. *)
Lemma handler_read_back f h : (∀ n, h ≠ Plugin n) → dec_value c_handler (enc c_handler f h) = Some h.
Proof. intros H. destruct h; try done. by destruct (H name). Qed.

(** The documented names of the retry conditions for statuses are not the ones of the reader. *)
Theorem documented_conditions_refused :
  (dec_value c_condition ∘ JString ∘ lit) <$> ["http_502"; "http_503"; "http_504"; "http_429"]%string = [None; None; None; None]
  ∧ (dec_value c_condition ∘ JString ∘ lit) <$> ["http502"; "http503"; "http504"; "http429"]%string
    = [Some NHttp502; Some NHttp503; Some NHttp504; Some NHttp429].
Proof. by vm_compute. Qed.

(** A TOML file cannot switch HSTS off, and a configuration without it that is saved has it again. *)
Theorem hsts_on_in_toml m :
  (∀ v, obj_get (lit "hsts") m = Some v → is_null v = false) → hsts_member m ≠ Some None.
Proof.
  intros H. unfold hsts_member, member. destruct (obj_get (lit "hsts") m) as [v|]; [|done]. specialize (H v eq_refl).
  cbn [dec_value c_option]. destruct v; [discriminate H|..]; by destruct (dec_value c_hsts _).
Qed.

(** *** Edits through the admin interface *)

Section edits.
Context `{L : HeaderLib} {R : Type} (build : list Z → option R) (to_lowercase : list Z → list Z)
  (canonicalize : list Z → option (list (list Z))).
Context {CK G : Type}.
Notation app := (AppConfig (G := G)).
Context (to_value : app → option Value) (from_value : Value → option app) (to_toml : app → option (list Z))
  (disk_write : list Z → write_result) (max_handlers : TlsConfig → Z)
  (values : gmap (list Z) (SiteInfo (R := R)) → list (SiteInfo (R := R))).

(** The place of an upstream group in the tree of a configuration. *)
Definition group_path (i j : Z) : list (list Z) := [lit "sites"; dec i; lit "upstreams"; dec j].

(** The reader of a configuration reads every upstream group in it. *)
Context (from_value_groups : ∀ root new i j v,
  from_value root = Some new → json_navigate root (group_path i j) = Some v → is_Some (dec_value c_upstream v)).

(** With one upstream group that has a node, no edit anywhere else in the tree succeeds: every one of
    them is refused and nothing changes. *)
Theorem edits_refused_with_upstream q segs edit (c : AdminContext (R := R) (CK := CK) (G := G)) root i j u :
  to_value (ad_cfg c) = Some root → json_navigate root (group_path i j) = Some (enc c_upstream FJson u) → uc_nodes u ≠ [] →
  diverge segs (group_path i j) →
  ∃ e, config_tree_mutate build to_lowercase canonicalize to_value from_value to_toml disk_write max_handlers values q segs edit c = (e, c).
Proof using from_value_groups.
  intros Hr Hnav Hn Hd. unfold config_tree_mutate. destruct (tree_new to_value from_value segs edit c) as [new|e] eqn:E; [exfalso|by eexists].
  apply tree_new_ok in E as (root' & t & put & t' & Hr' & Hm & _ & Hf). rewrite Hr in Hr'. injection Hr' as <-.
  rewrite <- (navigate_put_other root segs (group_path i j) t put t' Hm Hd) in Hnav.
  destruct (from_value_groups _ _ _ _ _ Hf Hnav) as [v Hv]. by rewrite (saved_upstream_refused FJson u Hn) in Hv.
Qed.

End edits.

Module SerdeWitness.
Import Headers.Model.

Definition settings : GlobalConfig := GlobalConfig_default.

Lemma global_config_roundtrip_witness :
  dec_value c_global (enc c_global FToml settings) = Some settings ∧ dec_value c_global (JObject []) = Some settings.
Proof.
  apply (global_config_roundtrip FToml settings).
  unfold global_wf, compress_wf, uint_ok. split_and!; repeat constructor; vm_compute; congruence.
Defined.

Definition group : UpstreamConfig :=
  mkUpstreamConfig (lit "api") RoundRobin None [mkUpstreamNode (Tcp (lit "10.0.0.1:80")) 1 false None false None false 0] 0 0 0 10 60 60 0 0 [] None.

Lemma saved_upstream_refused_witness : dec_value c_upstream (enc c_upstream FToml group) = None.
Proof. apply saved_upstream_refused. discriminate. Defined.

(** A tree with one group, and a reader that accepts the tree without sites only. *)
Definition tree : Value :=
  JObject [(lit "sites", JArray [JObject [(lit "upstreams", JArray [enc c_upstream FJson group])]])].
Definition strict (root : Value) : option (AppConfig (G := unit)) :=
  match root with JObject [(k, JArray [])] => if str_eqb k (lit "sites") then Some (mkApp tt []) else None | _ => None end.

Lemma strict_groups root nw i j v :
  strict root = Some nw → json_navigate root (group_path i j) = Some v → is_Some (dec_value c_upstream v).
Proof.
  destruct root as [| | | | |[|[k [| | | |[|]|]] [|]]]; try done. cbn [strict]. unfold str_eqb. case_bool_decide; [subst|done].
  intros _ H. exfalso. unfold group_path in H. cbn [json_navigate obj_get] in H. rewrite bool_decide_false, str_eqb_refl in H by discriminate.
  rewrite bool_decide_false in H by by apply to_decimal_nonempty. unfold arr_get in H.
  destruct (parse_uint usize_max (dec i)) as [z|]; [|done]. by destruct (z <? _).
Qed.
Definition admin0 : AdminContext (R := unit) (CK := Z) (G := unit) := mkAdmin (mkVHost ∅ ∅ None) (mkApp tt []) ∅ None ∅ 0.

Lemma edits_refused_with_upstream_witness :
  ∃ e, config_tree_mutate (λ _, None) to_ascii_lowercase (λ _, None) (λ _, Some tree) strict (λ _, None) (λ _, Written) (λ _, 0) (λ _, [])
         (mkAdminReq (lit "PUT") [] ∅ ∅ []) [lit "global"; lit "gzip"] (λ v, Ok (JBool true)) admin0 = (e, admin0).
Proof.
  apply (edits_refused_with_upstream (λ _, None) to_ascii_lowercase (λ _, None) (λ _, Some tree) strict (λ _, None) (λ _, Written) (λ _, 0) (λ _, [])
           strict_groups _ _ _ admin0 tree 0 0 group); [reflexivity|reflexivity|discriminate|].
  split; [discriminate|]. left. reflexivity.
Defined.

Lemma hsts_on_in_toml_witness : hsts_member (members FToml [(lit "hsts", enc (c_option c_hsts) FToml None)]) ≠ Some None.
Proof. apply hsts_on_in_toml. vm_compute. discriminate. Defined.

End SerdeWitness.
