(* ===== verification/AdminViews.v ===== *)
(** * The reports of the admin interface: [src/admin_api/handlers/], [src/admin_api/websocket.rs]

    The endpoints that only report ([system.rs], [sites.rs], [runtime.rs], the
    listing of [upstreams.rs] in the format of another server), as the trees they
    serialise, and the messages of the event stream.  What the process knows of
    itself is a record; the registry, the configuration, the caches and the
    counters are those of the other files. *)

From S2P Require Import Prelude RustStr Retry F32 F64 Headers Location Rewrite VHost LoadBalance ProxyCache Config Tls HotReload Json AdminServer AdminConfig AdminRoutes Router Monitor Prometheus Compress Serde.

(** What an endpoint answers: a status and a tree. *)
Notation report := (Z * Value)%type.

Definition num (n : Z) : Value := JNumber (PosInt n).
Definition text (s : list Z) : Value := JString s.
Definition opt_text (o : option (list Z)) : Value := match o with Some s => JString s | None => JNull end.
Definition texts (l : list (list Z)) : Value := JArray (JString <$> l).
Definition count_of {A} (l : list A) : Value := num (Z.of_nat (length l)).

(** [serde_json::json!] of an object. *)
Definition json (l : list (string * Value)) : Value := struct FJson ((λ kv, (lit (fst kv), snd kv)) <$> l).

(** ** The process *)

Record ProcessInfo := mkProcess {
  pi_uptime_secs : Z;
  pi_parallelism : option Z;          (* [available_parallelism] *)
  pi_pid : Z;
  pi_os : list Z;
  pi_arch : list Z;
  pi_version : list Z;
  pi_rustc : option (list Z);
}.

Definition cpus (p : ProcessInfo) : Z := default 1 (pi_parallelism p).
Definition worker_threads (p : ProcessInfo) (g : GlobalConfig) : Z :=
  if 0 <? g_worker_threads g then g_worker_threads g else cpus p.

(** ** System endpoints *)

Definition route_health : report := (200, json [("status", text (lit "ok"))]).

Definition route_version (p : ProcessInfo) : report :=
  (200, json [("name", text (lit "Sweety")); ("version", text (pi_version p)); ("rustc", text (default (lit "unknown") (pi_rustc p)));
              ("target", text (pi_arch p)); ("os", text (pi_os p))]).

Definition route_system (p : ProcessInfo) (g : GlobalConfig) (active : Z) (site_count : Z) (listen : list Z) : report :=
  (200, json [("uptime_secs", num (pi_uptime_secs p)); ("uptime_human", text (format_duration (pi_uptime_secs p)));
              ("worker_threads", num (worker_threads p g)); ("max_connections", num (g_max_connections g));
              ("active_connections", num active); ("site_count", num site_count); ("pid", num (pi_pid p)); ("admin_listen", text listen)]).

Definition route_debug (p : ProcessInfo) (g : GlobalConfig) (snap : MetricsSnapshot) (active site_count : Z) (path : option (list Z)) : report :=
  (200, json [("uptime_secs", num (pi_uptime_secs p)); ("pid", num (pi_pid p)); ("num_cpus", num (cpus p));
              ("worker_threads", num (worker_threads p g)); ("active_connections", num active);
              ("active_requests", num (ms_active_requests snap)); ("active_ws_connections", num (ms_active_ws_connections snap));
              ("total_requests", num (ms_total_requests snap)); ("total_errors_4xx", num (ms_total_errors_4xx snap));
              ("total_errors_5xx", num (ms_total_errors_5xx snap)); ("total_bytes_sent", num (ms_total_bytes_sent snap));
              ("site_count", num site_count); ("config_path", opt_text path); ("os", text (pi_os p)); ("arch", text (pi_arch p))]).

(** The share of requests that ended in an error, as a double. *)
Definition error_rate (errors total : Z) : f64 := if 0 <? total then f64_div (f64_of_u64 errors) (f64_of_u64 total) else 0.

Definition route_stats (snap : MetricsSnapshot) (active : Z) : report :=
  (200, json [("total_requests", num (ms_total_requests snap)); ("total_errors_4xx", num (ms_total_errors_4xx snap));
              ("total_errors_5xx", num (ms_total_errors_5xx snap)); ("total_bytes_sent", num (ms_total_bytes_sent snap));
              ("active_requests", num (ms_active_requests snap)); ("active_ws_connections", num (ms_active_ws_connections snap));
              ("active_connections", num active);
              ("error_rate_4xx", JNumber (Float (error_rate (ms_total_errors_4xx snap) (ms_total_requests snap))));
              ("error_rate_5xx", JNumber (Float (error_rate (ms_total_errors_5xx snap) (ms_total_requests snap))))]).

Definition route_connections (g : GlobalConfig) (snap : MetricsSnapshot) (active : Z) : report :=
  (200, json [("active_connections", num active); ("max_connections", num (g_max_connections g));
              ("active_requests", num (ms_active_requests snap)); ("active_ws_connections", num (ms_active_ws_connections snap))]).

Definition route_log_level_get (level : list Z) : report := (200, json [("level", text level)]).

(** [route_plugins] *)
Definition route_plugins (names : list (list Z)) : report :=
  (200, json [("count", count_of names); ("plugins", JArray ((λ n, json [("name", text n)]) <$> names))]).

(** ** Sites *)

Section sites.
Context {R : Type}.
Notation info_t := (SiteInfo (R := R)).

Context (debug_handler : HandlerType → list Z) (debug_strategy : LoadBalanceStrategy → list Z)
  (location_upstream : CompiledLocation (R := R) → option (list Z)).

Definition opt_bool (o : option bool) : Value := match o with Some b => JBool b | None => JNull end.
Definition opt_num (o : option Z) : Value := match o with Some n => num n | None => JNull end.
Definition has {A} (o : option A) : Value := JBool (bool_decide (is_Some o)).

Definition site_entry (s : info_t) : Value :=
  json [("name", text (si_name s)); ("force_https", JBool (si_force_https s)); ("websocket", JBool (sx_websocket (si_extra s)));
        ("gzip", opt_bool (sz_gzip (sx_compression (si_extra s)))); ("fallback", JBool (si_fallback s)); ("listen_tls", JArray (num <$> si_listen_tls s));
        ("location_count", count_of (si_locations s)); ("upstream_count", count_of (sx_upstreams (si_extra s)));
        ("upstream_names", texts (uc_name <$> sx_upstreams (si_extra s))); ("has_tls", has (sx_tls (si_extra s)));
        ("has_access_log", has (si_access_logger s)); ("has_proxy_cache", has (si_proxy_cache s)); ("root", opt_text (si_root s))].

Definition route_sites_list (sites : list info_t) : report :=
  (200, json [("count", count_of sites); ("sites", JArray (site_entry <$> sites))]).

Definition location_entry (l : CompiledLocation (R := R)) : Value :=
  json [("path", text (lc_path (cl_config l))); ("handler", text (debug_handler (lc_handler (cl_config l))));
        ("upstream", opt_text (location_upstream l))].
Definition upstream_entry (u : UpstreamConfig) : Value :=
  json [("name", text (uc_name u)); ("strategy", text (debug_strategy (uc_strategy u))); ("node_count", count_of (uc_nodes u))].
Definition hsts_entry (h : option HstsConfig) : Value :=
  match h with
  | Some h => json [("max_age", num (max_age h)); ("include_sub_domains", JBool (include_sub_domains h)); ("preload", JBool (preload h))]
  | None => JNull
  end.

Definition site_detail (s : info_t) : Value :=
  json [("name", text (si_name s)); ("force_https", JBool (si_force_https s)); ("websocket", JBool (sx_websocket (si_extra s)));
        ("gzip", opt_bool (sz_gzip (sx_compression (si_extra s)))); ("gzip_comp_level", opt_num (sz_gzip_comp_level (sx_compression (si_extra s)))); ("fallback", JBool (si_fallback s));
        ("listen_tls", JArray (num <$> si_listen_tls s)); ("root", opt_text (si_root s)); ("index", texts (si_index s));
        ("hsts", hsts_entry (si_hsts s)); ("locations", JArray (location_entry <$> si_locations s));
        ("upstreams", JArray (upstream_entry <$> sx_upstreams (si_extra s)));
        ("error_pages", JObject (foldr (λ kv m, obj_insert (dec (fst kv)) (text (snd kv)) m) [] (map_to_list (si_error_pages s))));
        ("rewrite_count", count_of (si_rewrites s)); ("has_tls", has (sx_tls (si_extra s)));
        ("has_access_log", has (si_access_logger s)); ("has_proxy_cache", has (si_proxy_cache s)); ("has_fastcgi", has (sx_fastcgi (si_extra s)))].

Definition err_tree (msg : list Z) : Value := json [("success", JBool false); ("error", text msg)].

(** [route_site_detail]; the text of the refusal is a parameter. *)
Definition route_site_detail (no_site : list Z → list Z) (sites : list info_t) (name : list Z) : report :=
  match List.find (λ s, str_eqb (si_name s) name) sites with
  | Some s => (200, site_detail s)
  | None => (404, err_tree (no_site name))
  end.

(** ** Caches *)

(** [ProxyCache::stats] *)
Definition cache_stats (now : Z) (c : ProxyCache) : Value :=
  json [("entries", num (Z.of_nat (size (mem c)))); ("max_entries", num (max_entries c));
        ("expired", num (Z.of_nat (length (List.filter (λ kv, is_expired now (snd kv)) (map_to_list (mem c))))));
        ("ttl_secs", num (ttl c / SEC)); ("has_disk", has (disk_path c))].

Definition cache_entry (now : Z) (site kind : list Z) (c : ProxyCache) : Value :=
  json [("site", text site); ("type", text kind); ("stats", cache_stats now c)].

(** The caches of a site: the handles of its registry entry. *)
Definition site_caches (now : Z) (caches : gmap Z ProxyCache) (s : info_t) : list Value :=
  let shown kind h := match h ≫= (caches !!.) with Some c => [cache_entry now (si_name s) (lit kind) c] | None => [] end in
  shown "proxy_cache"%string (si_proxy_cache s) ++ shown "fcgi_cache"%string (si_fcgi_cache s).

Definition route_cache_stats (now : Z) (caches : gmap Z ProxyCache) (sites : list info_t) : report :=
  (200, json [("caches", JArray (concat (site_caches now caches <$> sites)))]).

End sites.

(** ** Certificates *)

(** [read_cert_expiry]: the day a file was last changed; [modified] is seconds
    since the epoch. *)
Definition read_cert_expiry (label : list Z) (modified : option Z) : option (list Z) := (λ s, label ++ dec (s / 86400)) <$> modified.

Definition cert_entry (label : list Z) (modified : list Z → option Z) (s : SiteFile) (t : TlsConfig) : Value :=
  json [("site", text (cf_name s)); ("domains", texts (cf_server_name s)); ("cert_path", opt_text (tls_cert t));
        ("key_path", opt_text (tls_key t)); ("acme", JBool (tls_acme t));
        ("expiry", opt_text (tls_cert t ≫= λ p, read_cert_expiry label (modified p))); ("protocols", texts (tls_protocols t))].

Definition route_certs_list (label : list Z) (modified : list Z → option Z) (sites : list SiteFile) : report :=
  let certs := omap (λ s, cert_entry label modified s <$> cf_tls s) sites in
  (200, json [("count", count_of certs); ("certificates", JArray certs)]).

(** ** Upstreams in the format of another server *)

Definition caddy_entry (n : NodeState) : Value :=
  json [("address", text (addr_as_str (addr n))); ("healthy", JBool (is_healthy n)); ("num_requests", num (active_connections n));
        ("fails", num (fail_count n))].

Fixpoint caddy_nodes (seen : list (list Z)) (ns : list NodeState) : list Value :=
  match ns with
  | [] => []
  | n :: ns =>
      let a := addr_as_str (addr n) in
      if bool_decide (a ∈ seen) then caddy_nodes seen ns else caddy_entry n :: caddy_nodes (a :: seen) ns
  end.

(** [route_caddy_upstreams]: the nodes of all groups of all sites, in the order
    they are visited. *)
Definition route_caddy_upstreams (ns : list NodeState) : report := (200, JArray (caddy_nodes [] ns)).

(** ** The event stream *)

(** [PushMessage], tagged by [type]. *)
Inductive PushMessage := Stats (s : MetricsSnapshot) | Event (message : list Z) | Ping.

Definition push_json (m : PushMessage) : Value :=
  match m with
  | Stats s => json [("type", text (lit "stats")); ("total_requests", num (ms_total_requests s)); ("total_errors_5xx", num (ms_total_errors_5xx s));
                     ("total_errors_4xx", num (ms_total_errors_4xx s)); ("total_bytes_sent", num (ms_total_bytes_sent s));
                     ("active_ws_connections", num (ms_active_ws_connections s)); ("active_requests", num (ms_active_requests s))]
  | Event msg => json [("type", text (lit "event")); ("message", text msg)]
  | Ping => json [("type", text (lit "ping"))]
  end.

(** [start_stats_stream]: what is logged at the given ticks. *)
Definition start_stats_stream (at_tick : nat → GlobalMetrics) (ticks : nat) : list Value :=
  (λ k, push_json (Stats (snapshot (at_tick k)))) <$> seq 0 ticks.

(** ** What the reports promise *)

Lemma f64_of_u64_pos n : 0 < n → 0 < f64_of_u64 n.
Proof.
  intros Hn. pose proof scale_pos. apply (Z.lt_le_trans _ (1 * F64_SCALE)); [lia|].
  apply round53_ge; [lia|lia|by apply representable_int|]. nia.
Qed.

Lemma f64_of_u64_mono a b : 0 ≤ a ≤ b → f64_of_u64 a ≤ f64_of_u64 b.
Proof. intros H. pose proof scale_pos. apply round53_mono; nia. Qed.

(** The error rates are between 0 and 1, rounding included, as long as no more errors than requests
    were counted. *)
Theorem error_rate_bounded errors total : 0 ≤ errors ≤ total → 0 ≤ error_rate errors total ≤ F64_SCALE.
Proof.
  intros H. pose proof scale_pos. unfold error_rate. destruct (Z.ltb_spec 0 total); [|lia].
  pose proof (f64_of_u64_pos total). pose proof (f64_of_u64_mono errors total H).
  assert (0 ≤ f64_of_u64 errors) by (apply round53_nonneg; nia). unfold f64_div. split; [apply round53_nonneg; nia|].
  apply round53_le; [nia|lia| |nia]. rewrite <- (Z.mul_1_l F64_SCALE). by apply representable_int.
Qed.

(** A request without any counted before it has rate 0 instead of a division by zero. *)
Lemma error_rate_idle errors : error_rate errors 0 = 0.
Proof. reflexivity. Qed.

(** *** Reading a report *)

Lemma json_get k v (l : list (string * Value)) :
  NoDup (lit ∘ fst <$> l) → (k, v) ∈ l → json_member (lit k) (json l) = Some v.
Proof.
  intros Hnd Hin. unfold json, struct, json_member, members. cbn [prune]. rewrite obj_get_members. apply obj_get_elem.
  - rewrite <- list_fmap_compose. exact Hnd.
  - apply list_elem_of_fmap. by exists (k, v).
Qed.

Ltac in_report := first [apply list_elem_of_here | apply list_elem_of_further; in_report].
Ltac read_report := apply json_get; [apply (bool_decide_unpack _); vm_compute; exact I|in_report].

(** The number of workers that is reported is at least one. *)
Theorem workers_reported p g active sites listen :
  (∀ n, pi_parallelism p = Some n → 0 < n) →
  ∃ n, json_member (lit "worker_threads") (snd (route_system p g active sites listen)) = Some (num n) ∧ 0 < n.
Proof.
  intros Hp. exists (worker_threads p g). split; [read_report|]. unfold worker_threads, cpus.
  destruct (Z.ltb_spec 0 (g_worker_threads g)); [done|]. destruct (pi_parallelism p) as [n|] eqn:E; cbn; [by apply Hp|lia].
Qed.

Section site_reports.
Context {R : Type} (debug_handler : HandlerType → list Z)
  (debug_strategy : LoadBalanceStrategy → list Z) (location_upstream : CompiledLocation (R := R) → option (list Z))
  (no_site : list Z → list Z).
Notation detail := (route_site_detail debug_handler debug_strategy location_upstream no_site).

(** The list of sites and the details of a site agree: the details are there for exactly the names of
    the list, and they are those of the name asked for. *)
Theorem details_of_listed sites name :
  (fst (detail sites name) = 200 ↔ name ∈ si_name <$> sites)
  ∧ (fst (detail sites name) = 200 → json_member (lit "name") (snd (detail sites name)) = Some (text name))
  ∧ json_member (lit "count") (snd (route_sites_list (R := R) sites)) = Some (num (Z.of_nat (length sites))).
Proof.
  split_and!.
  - unfold route_site_detail. destruct (List.find _ sites) as [s|] eqn:E; cbn [fst].
    + apply List.find_some in E as [Hin Hn]. apply bool_decide_eq_true in Hn as <-. split; [|done]. intros _.
      apply list_elem_of_fmap_2. by apply list_elem_of_In.
    + split; [done|]. intros (s & -> & Hs)%list_elem_of_fmap. exfalso.
      apply list_elem_of_In in Hs. apply (List.find_none _ _ E) in Hs. by rewrite str_eqb_refl in Hs.
  - unfold route_site_detail. destruct (List.find _ sites) as [s|] eqn:E; cbn [fst snd]; [|done]. intros _.
    apply List.find_some in E as [_ Hn]. apply bool_decide_eq_true in Hn as <-. read_report.
  - read_report.
Qed.

(** No cache reports more expired entries than it has. *)
Theorem expired_within_entries now c :
  ∃ e x, json_member (lit "entries") (cache_stats now c) = Some (num e) ∧ json_member (lit "expired") (cache_stats now c) = Some (num x)
         ∧ 0 ≤ x ≤ e.
Proof.
  eexists _, _. split_and!; [read_report|read_report|lia|].
  rewrite <- (length_map_to_list (mem c)). apply inj_le. induction (map_to_list (mem c)) as [|kv l IH]; [done|].
  cbn [List.filter]. destruct (is_expired now (snd kv)); cbn [length]; lia.
Qed.

End site_reports.

(** *** Nodes *)

Definition shown_address (v : Value) : option (list Z) :=
  match json_member (lit "address") v with Some (JString a) => Some a | _ => None end.

Lemma caddy_address n : shown_address (caddy_entry n) = Some (addr_as_str (addr n)).
Proof.
  unfold shown_address. assert (json_member (lit "address") (caddy_entry n) = Some (text (addr_as_str (addr n)))) as ->; [read_report|done].
Qed.

(** The list shows every address once: none twice, none left out. *)
Theorem caddy_addresses_once seen ns :
  NoDup (omap shown_address (caddy_nodes seen ns))
  ∧ ∀ a, a ∈ omap shown_address (caddy_nodes seen ns) ↔ a ∈ (addr_as_str ∘ addr) <$> ns ∧ a ∉ seen.
Proof.
  revert seen. induction ns as [|n ns IH]; intros seen; [split; [constructor|set_solver]|]. cbn [caddy_nodes].
  rewrite fmap_cons. cbn [compose]. case_bool_decide as Hs.
  - destruct (IH seen) as [IH1 IH2]. split; [done|]. intros a. rewrite IH2, elem_of_cons. split; [tauto|]. intros [[->|]]; [done|tauto].
  - destruct (IH (addr_as_str (addr n) :: seen)) as [IH1 IH2]. cbn [omap list_omap]. rewrite caddy_address.
    split; [constructor; [|done]; rewrite IH2; set_solver|]. intros a. rewrite !elem_of_cons, IH2, elem_of_cons.
    destruct (decide (a = addr_as_str (addr n))) as [->|]; tauto.
Qed.

(** *** Events *)

(** The kind of every message is the tag its reader dispatches on. *)
Lemma push_tag m :
  json_member (lit "type") (push_json m) = Some (text (lit (match m with Stats _ => "stats" | Event _ => "event" | Ping => "ping" end))).
Proof. destruct m; read_report. Qed.

Module ViewWitness.

Lemma error_rate_bounded_witness : 0 ≤ error_rate 1 3 ≤ F64_SCALE.
Proof. apply error_rate_bounded. lia. Defined.

Lemma workers_reported_witness :
  ∃ n, json_member (lit "worker_threads") (snd (route_system (mkProcess 10 (Some 4) 1 [] [] [] None) GlobalConfig_default 0 1 [])) = Some (num n) ∧ 0 < n.
Proof. apply workers_reported. intros n [= <-]. lia. Defined.

End ViewWitness.
