(* ===== verification/SerdeSite.v ===== *)
(** * Reading and writing sites: the serde derives of [src/config/model/site.rs], [location.rs], [tls.rs]

    The remaining sections of the configuration file, with every member, and the
    file as a whole.  A configuration that is written is read back, except for
    what [Serde] shows to be lost: the file as a whole survives when it has no
    upstream nodes and no plugin locations and, in TOML, no site with HSTS
    switched off and no error pages.  Both ways of changing a configuration
    through the admin interface, converting a file and editing the tree, follow. *)

From S2P Require Import Prelude RustStr IpAddr AccessControl RealIp Retry Headers Http1 Location Rewrite VHost LoadBalance ProxyCache Compress ProxyResponse ProxyHandler Config Tls HotReload Json AdminServer AdminConfig RateLimit Dns01 TlsFiles Serde.

(** ** The parts of a location *)

Definition action_name (a : AccessAction) : list Z := lit (match a with AccessControl.Allow => "allow" | AccessControl.Deny => "deny" end).
Definition c_action : codec AccessAction := c_enum ((λ s, (action_name s, s)) <$> [AccessControl.Allow; AccessControl.Deny]) action_name.

Definition c_access_rule : codec AccessRule :=
  mkCodec (λ f r, struct f [(lit "action", enc c_action f (ar_action r)); (lit "source", enc c_text f (ar_source r));
                            (lit "priority", enc (c_uint u16_max) f (ar_priority r))])
    (of_object (λ m,
       a ← member "action" None c_action m; s ← member "source" None c_text m;
       p ← member "priority" (Some default_priority) (c_uint u16_max) m; Some (mkAccessRule a s p))).

Definition c_override : codec HeaderOverride :=
  mkCodec (λ f h, struct f [(lit "name", enc c_text f (ho_name h)); (lit "value", enc c_text f (ho_value h))])
    (of_object (λ m, n ← member "name" None c_text m; v ← member "value" None c_text m; Some (mkOverride n v))).

Definition c_cache_rule : codec CacheRule :=
  mkCodec (λ f r, struct f [(lit "pattern", enc c_text f (cr_pattern r)); (lit "cache_control", enc c_text f (cr_cache_control r))])
    (of_object (λ m, p ← member "pattern" None c_text m; c ← member "cache_control" None c_text m; Some (mkCacheRule p c))).

Definition c_sub_filter : codec SubFilter :=
  mkCodec (λ f s, struct f [(lit "pattern", enc c_text f (sf_pattern s)); (lit "replacement", enc c_text f (sf_replacement s))])
    (of_object (λ m, p ← member "pattern" None c_text m; r ← member "replacement" None c_text m; Some (mkSubFilter p r))).

(** ** Locations *)

Record LocationFile := mkLocFile {
  lf_path : list Z;
  lf_handler : HandlerType;
  lf_root : option (list Z);
  lf_upstream : option (list Z);
  lf_cache_control : option (list Z);
  lf_return_code : option Z;
  lf_max_connections : option Z;
  lf_strip_cookie_secure : bool;
  lf_proxy_cookie_domain : option (list Z);
  lf_proxy_redirect_from : option (list Z);
  lf_proxy_redirect_to : option (list Z);
  lf_proxy_set_headers : list HeaderOverride;
  lf_add_headers : list HeaderOverride;
  lf_proxy_hide_headers : list (list Z);
  lf_access_rules : list AccessRule;
  lf_cache_rules : list CacheRule;
  lf_return_url : option (list Z);
  lf_return_body : option (list Z);
  lf_return_content_type : option (list Z);
  lf_limit_conn : Z;
  lf_proxy_buffering : bool;
  lf_try_files : list (list Z);
  lf_sub_filter : list SubFilter;
  lf_auth_request : option (list Z);
  lf_auth_failure_status : Z;
  lf_auth_request_headers : list HeaderOverride;
}.

(** [impl Default for LocationConfig] *)
Definition LocationFile_default : LocationFile :=
  mkLocFile [] Static None None None None None false None None None [] [] [] [] [] None None None 0 false [] [] None 401 [].

Definition location_fields (f : format) (l : LocationFile) : list (list Z * Value) :=
  [(lit "path", enc c_text f (lf_path l));
   (lit "handler", enc c_handler f (lf_handler l));
   (lit "root", enc (c_option c_text) f (lf_root l));
   (lit "upstream", enc (c_option c_text) f (lf_upstream l));
   (lit "cache_control", enc (c_option c_text) f (lf_cache_control l));
   (lit "return_code", enc (c_option (c_uint u16_max)) f (lf_return_code l));
   (lit "max_connections", enc (c_option (c_uint usize_max)) f (lf_max_connections l));
   (lit "strip_cookie_secure", enc c_bool f (lf_strip_cookie_secure l));
   (lit "proxy_cookie_domain", enc (c_option c_text) f (lf_proxy_cookie_domain l));
   (lit "proxy_redirect_from", enc (c_option c_text) f (lf_proxy_redirect_from l));
   (lit "proxy_redirect_to", enc (c_option c_text) f (lf_proxy_redirect_to l));
   (lit "proxy_set_headers", enc (c_list c_override) f (lf_proxy_set_headers l));
   (lit "add_headers", enc (c_list c_override) f (lf_add_headers l));
   (lit "proxy_hide_headers", enc (c_list c_text) f (lf_proxy_hide_headers l));
   (lit "access_rules", enc (c_list c_access_rule) f (lf_access_rules l));
   (lit "cache_rules", enc (c_list c_cache_rule) f (lf_cache_rules l));
   (lit "return_url", enc (c_option c_text) f (lf_return_url l));
   (lit "return_body", enc (c_option c_text) f (lf_return_body l));
   (lit "return_content_type", enc (c_option c_text) f (lf_return_content_type l));
   (lit "limit_conn", enc (c_uint usize_max) f (lf_limit_conn l));
   (lit "proxy_buffering", enc c_bool f (lf_proxy_buffering l));
   (lit "try_files", enc (c_list c_text) f (lf_try_files l));
   (lit "sub_filter", enc (c_list c_sub_filter) f (lf_sub_filter l));
   (lit "auth_request", enc (c_option c_text) f (lf_auth_request l));
   (lit "auth_failure_status", enc (c_uint u16_max) f (lf_auth_failure_status l));
   (lit "auth_request_headers", enc (c_list c_override) f (lf_auth_request_headers l))].

Definition read_location (m : list (list Z * Value)) : option LocationFile :=
  x0 ← member "path" None c_text m;
  x1 ← member "handler" None c_handler m;
  x2 ← member "root" (Some None) (c_option c_text) m;
  x3 ← member "upstream" (Some None) (c_option c_text) m;
  x4 ← member "cache_control" (Some None) (c_option c_text) m;
  x5 ← member "return_code" (Some None) (c_option (c_uint u16_max)) m;
  x6 ← member "max_connections" (Some None) (c_option (c_uint usize_max)) m;
  x7 ← member "strip_cookie_secure" (Some false) c_bool m;
  x8 ← member "proxy_cookie_domain" (Some None) (c_option c_text) m;
  x9 ← member "proxy_redirect_from" (Some None) (c_option c_text) m;
  x10 ← member "proxy_redirect_to" (Some None) (c_option c_text) m;
  x11 ← member "proxy_set_headers" (Some []) (c_list c_override) m;
  x12 ← member "add_headers" (Some []) (c_list c_override) m;
  x13 ← member "proxy_hide_headers" (Some []) (c_list c_text) m;
  x14 ← member "access_rules" (Some []) (c_list c_access_rule) m;
  x15 ← member "cache_rules" (Some []) (c_list c_cache_rule) m;
  x16 ← member "return_url" (Some None) (c_option c_text) m;
  x17 ← member "return_body" (Some None) (c_option c_text) m;
  x18 ← member "return_content_type" (Some None) (c_option c_text) m;
  x19 ← member "limit_conn" (Some 0) (c_uint usize_max) m;
  x20 ← member "proxy_buffering" (Some false) c_bool m;
  x21 ← member "try_files" (Some []) (c_list c_text) m;
  x22 ← member "sub_filter" (Some []) (c_list c_sub_filter) m;
  x23 ← member "auth_request" (Some None) (c_option c_text) m;
  x24 ← member "auth_failure_status" (Some 401) (c_uint u16_max) m;
  x25 ← member "auth_request_headers" (Some []) (c_list c_override) m;
  Some (mkLocFile x0 x1 x2 x3 x4 x5 x6 x7 x8 x9 x10 x11 x12 x13 x14 x15 x16 x17 x18 x19 x20 x21 x22 x23 x24 x25).

Definition c_location : codec LocationFile := mkCodec (λ f l, struct f (location_fields f l)) (of_object read_location).

(** ** TLS *)

Definition c_pair : codec CertKeyPair :=
  mkCodec (λ f p, struct f [(lit "cert", enc c_text f (ck_cert p)); (lit "key", enc c_text f (ck_key p))])
    (of_object (λ m, c ← member "cert" None c_text m; k ← member "key" None c_text m; Some (mkPair c k))).

(** [DnsProviderConfig], tagged by [type]. *)
Definition provider_name (p : DnsProviderConfig) : list Z :=
  snake_case (lit (match p with Cloudflare _ _ => "Cloudflare" | Aliyun _ _ => "Aliyun" | Shell _ _ => "Shell" end)).
Definition c_provider : codec DnsProviderConfig :=
  mkCodec (λ f p, struct f ((lit "type", enc c_text f (provider_name p)) ::
     match p with
     | Cloudflare t z => [(lit "api_token", enc c_text f t); (lit "zone_id", enc (c_option c_text) f z)]
     | Aliyun i s => [(lit "access_key_id", enc c_text f i); (lit "access_key_secret", enc c_text f s)]
     | Shell s d => [(lit "set_script", enc c_text f s); (lit "del_script", enc (c_option c_text) f d)]
     end))
    (of_object (λ m,
       t ← member "type" None c_text m;
       if str_eqb t (lit "cloudflare") then
         k ← member "api_token" None c_text m; z ← member "zone_id" (Some None) (c_option c_text) m; Some (Cloudflare k z)
       else if str_eqb t (lit "aliyun") then
         i ← member "access_key_id" None c_text m; s ← member "access_key_secret" None c_text m; Some (Aliyun i s)
       else if str_eqb t (lit "shell") then
         s ← member "set_script" None c_text m; d ← member "del_script" (Some None) (c_option c_text) m; Some (Shell s d)
       else None)).

(** [Http3Config]: the transport settings and the limit of connections. *)
Record Http3File := mkHttp3File { hf_max_handlers : Z; hf_transport : Http3Config }.
Definition Http3File_default : Http3File := mkHttp3File 0 Http3Config_default.

Definition c_http3 : codec Http3File :=
  mkCodec (λ f h, let t := hf_transport h in struct f
     [(lit "max_handlers", enc (c_uint usize_max) f (hf_max_handlers h));
      (lit "max_concurrent_bidi_streams", enc (c_uint u32_max) f (h3_max_concurrent_bidi_streams t));
      (lit "max_concurrent_uni_streams", enc (c_uint u32_max) f (h3_max_concurrent_uni_streams t));
      (lit "idle_timeout_ms", enc (c_uint u64_max) f (h3_idle_timeout_ms t));
      (lit "keep_alive_interval_ms", enc (c_uint u64_max) f (h3_keep_alive_interval_ms t));
      (lit "receive_window", enc (c_uint u64_max) f (h3_receive_window t));
      (lit "stream_receive_window", enc (c_uint u64_max) f (h3_stream_receive_window t));
      (lit "send_window", enc (c_uint u64_max) f (h3_send_window t));
      (lit "enable_0rtt", enc c_bool f (h3_enable_0rtt t)); (lit "mtu_discovery", enc c_bool f (h3_mtu_discovery t));
      (lit "initial_rtt_ms", enc (c_uint u64_max) f (h3_initial_rtt_ms t));
      (lit "max_ack_delay_ms", enc (c_uint u64_max) f (h3_max_ack_delay_ms t))])
    (of_object (λ m,
       mh ← member "max_handlers" (Some 0) (c_uint usize_max) m;
       b ← member "max_concurrent_bidi_streams" (Some 200) (c_uint u32_max) m;
       u ← member "max_concurrent_uni_streams" (Some 100) (c_uint u32_max) m;
       i ← member "idle_timeout_ms" (Some 30000) (c_uint u64_max) m;
       k ← member "keep_alive_interval_ms" (Some 10000) (c_uint u64_max) m;
       rw ← member "receive_window" (Some (8 * 1024 * 1024)) (c_uint u64_max) m;
       sw ← member "stream_receive_window" (Some (2 * 1024 * 1024)) (c_uint u64_max) m;
       se ← member "send_window" (Some (8 * 1024 * 1024)) (c_uint u64_max) m;
       z ← member "enable_0rtt" (Some false) c_bool m; mt ← member "mtu_discovery" (Some true) c_bool m;
       r ← member "initial_rtt_ms" (Some 333) (c_uint u64_max) m; a ← member "max_ack_delay_ms" (Some 25) (c_uint u64_max) m;
       Some (mkHttp3File mh (mkHttp3 b u i k rw sw se z mt r a)))).

(** [TlsConfig]: the part the other files use, the DNS provider and HTTP/3. *)
Record TlsFile := mkTlsFile { tf_tls : TlsConfig; tf_dns_provider : option DnsProviderConfig; tf_http3 : Http3File }.

Definition c_tls : codec TlsFile :=
  mkCodec (λ f x, let t := tf_tls x in struct f
     [(lit "acme", enc c_bool f (tls_acme t)); (lit "acme_email", enc (c_option c_text) f (tls_acme_email t));
      (lit "cert", enc (c_option c_text) f (tls_cert t)); (lit "key", enc (c_option c_text) f (tls_key t));
      (lit "certs", enc (c_list c_pair) f (tls_certs t)); (lit "min_version", enc c_text f (tls_min_version t));
      (lit "max_version", enc c_text f (tls_max_version t));
      (lit "acme_renew_days_before", enc (c_uint u64_max) f (tls_renew_days_before t));
      (lit "acme_provider", enc c_text f (tls_acme_provider t)); (lit "acme_challenge", enc c_text f (tls_acme_challenge t));
      (lit "dns_provider", enc (c_option c_provider) f (tf_dns_provider x)); (lit "protocols", enc (c_list c_text) f (tls_protocols t));
      (lit "http3", enc c_http3 f (tf_http3 x))])
    (of_object (λ m,
       a ← member "acme" (Some false) c_bool m; e ← member "acme_email" (Some None) (c_option c_text) m;
       c ← member "cert" (Some None) (c_option c_text) m; k ← member "key" (Some None) (c_option c_text) m;
       cs ← member "certs" (Some []) (c_list c_pair) m; mi ← member "min_version" (Some (lit "tls1.2")) c_text m;
       ma ← member "max_version" (Some (lit "tls1.3")) c_text m; d ← member "acme_renew_days_before" (Some 30) (c_uint u64_max) m;
       p ← member "acme_provider" (Some (lit "letsencrypt")) c_text m; ch ← member "acme_challenge" (Some (lit "http01")) c_text m;
       dp ← member "dns_provider" (Some None) (c_option c_provider) m;
       ps ← member "protocols" (Some [lit "h3"; lit "h2"; lit "http/1.1"]) (c_list c_text) m;
       h ← member "http3" (Some Http3File_default) c_http3 m;
       Some (mkTlsFile (mkTls a e c k cs mi ma d p ch ps) dp h))).

(** ** The parts of a site *)

Definition dimension_name (d : RateLimitDimension) : list Z :=
  snake_case (lit (match d with DIp => "Ip" | DPath => "Path" | DHeader => "Header" | DUserAgent => "UserAgent" | DIpPath => "IpPath" end)).
Definition c_dimension : codec RateLimitDimension :=
  c_enum ((λ s, (dimension_name s, s)) <$> [DIp; DPath; DHeader; DUserAgent; DIpPath]) dimension_name.

Definition c_rate_rule : codec RateLimitRule :=
  mkCodec (λ f r, struct f
     [(lit "dimension", enc c_dimension f (rl_dimension r)); (lit "rate", enc (c_uint u64_max) f (rl_rate r));
      (lit "burst", enc (c_uint u64_max) f (rl_burst r)); (lit "nodelay", enc c_bool f (rl_nodelay r));
      (lit "path_pattern", enc (c_option c_text) f (rl_path_pattern r)); (lit "header_name", enc (c_option c_text) f (rl_header_name r))])
    (of_object (λ m,
       d ← member "dimension" None c_dimension m; r ← member "rate" None (c_uint u64_max) m;
       b ← member "burst" (Some 0) (c_uint u64_max) m; n ← member "nodelay" (Some true) c_bool m;
       p ← member "path_pattern" (Some None) (c_option c_text) m; h ← member "header_name" (Some None) (c_option c_text) m;
       Some (RateLimit.mkRule d r b n p h))).

(** [RateLimitConfig]: its rules. *)
Definition c_rate_limit : codec (list RateLimitRule) :=
  mkCodec (λ f rs, struct f [(lit "rules", enc (c_list c_rate_rule) f rs)])
    (of_object (λ m, rs ← member "rules" (Some []) (c_list c_rate_rule) m; Some rs)).

Definition c_real_ip : codec RealIpConfig :=
  mkCodec (λ f r, struct f
     [(lit "set_real_ip_from", enc (c_list c_text) f (set_real_ip_from r)); (lit "real_ip_header", enc c_text f (real_ip_header r));
      (lit "recursive", enc c_bool f (rc_recursive r))])
    (of_object (λ m,
       l ← member "set_real_ip_from" (Some []) (c_list c_text) m; h ← member "real_ip_header" (Some default_real_ip_header) c_text m;
       r ← member "recursive" (Some false) c_bool m; Some (mkRealIpConfig l h r))).

(** [rename_all = lowercase] *)
Definition preset_name (p : SitePreset) : list Z :=
  to_ascii_lowercase (lit (match p with WordPress => "WordPress" | Laravel => "Laravel" | StaticSite => "Static" end)).
Definition c_preset : codec SitePreset := c_enum ((λ s, (preset_name s, s)) <$> [WordPress; Laravel; StaticSite]) preset_name.

Definition SiteCompress_default : SiteCompressConfig := mkSiteCompress None None None None None None None.

(** ** Sites *)

Record FullSite := mkFull {
  st_name : list Z;
  st_server_name : list (list Z);
  st_listen : list Z;
  st_listen_tls : list Z;
  st_root : option (list Z);
  st_index : list (list Z);
  st_access_log : option (list Z);
  st_access_log_format : option (list Z);
  st_error_log : option (list Z);
  st_tls : option TlsFile;
  st_fastcgi : option FastCgiSettings;
  st_upstreams : list UpstreamConfig;
  st_locations : list LocationFile;
  st_rewrites : list RewriteRule;
  st_rate_limit : option (list RateLimitRule);
  st_hsts : option HstsConfig;
  st_fallback : bool;
  st_gzip : option bool;
  st_gzip_comp_level : option Z;
  st_compress : SiteCompressConfig;
  st_websocket : bool;
  st_force_https : bool;
  st_real_ip : option RealIpConfig;
  st_proxy_protocol : bool;
  st_error_pages : gmap Z (list Z);
  st_proxy_cache : option ProxyCacheConfig;
  st_preset : option SitePreset;
  st_php_fastcgi : option (list Z);
  st_acme_email : option (list Z);
}.

Section pages.
(** The order in which a table of texts is visited; of two keys with the same
    number the first one visited here is kept. *)
Context (visit : list (Z * list Z) → list (Z * list Z)).

(** [error_pages]: the numbers are written as keys, [deserialize_u16_map] reads them. *)
Definition page_member (kv : Z * list Z) : list Z * Value := (dec (fst kv), JString (snd kv)).
Definition read_page (kv : list Z * Value) : option (Z * list Z) :=
  s ← dec_value c_text (snd kv); n ← parse_uint u16_max (fst kv); Some (n, s).
Definition c_pages : codec (gmap Z (list Z)) :=
  mkCodec (λ f p, JObject (foldr (λ kv m, obj_insert (fst kv) (snd kv) m) [] (page_member <$> map_to_list p)))
    (of_object (λ m, l ← mapM read_page m; Some (list_to_map (visit l)))).

Definition site_fields (f : format) (s : FullSite) : list (list Z * Value) :=
  [(lit "name", enc c_text f (st_name s));
   (lit "server_name", enc (c_list c_text) f (st_server_name s));
   (lit "listen", enc (c_list (c_uint u16_max)) f (st_listen s));
   (lit "listen_tls", enc (c_list (c_uint u16_max)) f (st_listen_tls s));
   (lit "root", enc (c_option c_text) f (st_root s));
   (lit "index", enc (c_list c_text) f (st_index s));
   (lit "access_log", enc (c_option c_text) f (st_access_log s));
   (lit "access_log_format", enc (c_option c_text) f (st_access_log_format s));
   (lit "error_log", enc (c_option c_text) f (st_error_log s));
   (lit "tls", enc (c_option c_tls) f (st_tls s));
   (lit "fastcgi", enc (c_option c_fastcgi) f (st_fastcgi s));
   (lit "upstreams", enc (c_list c_upstream) f (st_upstreams s));
   (lit "locations", enc (c_list c_location) f (st_locations s));
   (lit "rewrites", enc (c_list c_rewrite) f (st_rewrites s));
   (lit "rate_limit", enc (c_option c_rate_limit) f (st_rate_limit s));
   (lit "hsts", enc (c_option c_hsts) f (st_hsts s));
   (lit "fallback", enc c_bool f (st_fallback s));
   (lit "gzip", enc (c_option c_bool) f (st_gzip s));
   (lit "gzip_comp_level", enc (c_option (c_uint u32_max)) f (st_gzip_comp_level s));
   (lit "compress", enc c_site_compress f (st_compress s));
   (lit "websocket", enc c_bool f (st_websocket s));
   (lit "force_https", enc c_bool f (st_force_https s));
   (lit "real_ip", enc (c_option c_real_ip) f (st_real_ip s));
   (lit "proxy_protocol", enc c_bool f (st_proxy_protocol s));
   (lit "error_pages", enc c_pages f (st_error_pages s));
   (lit "proxy_cache", enc (c_option c_proxy_cache) f (st_proxy_cache s));
   (lit "preset", enc (c_option c_preset) f (st_preset s));
   (lit "php_fastcgi", enc (c_option c_text) f (st_php_fastcgi s));
   (lit "acme_email", enc (c_option c_text) f (st_acme_email s))].

Definition read_site (m : list (list Z * Value)) : option FullSite :=
  x0 ← member "name" None c_text m;
  x1 ← member "server_name" None (c_list c_text) m;
  x2 ← member "listen" (Some [80]) (c_list (c_uint u16_max)) m;
  x3 ← member "listen_tls" (Some []) (c_list (c_uint u16_max)) m;
  x4 ← member "root" (Some None) (c_option c_text) m;
  x5 ← member "index" (Some [lit "index.html"; lit "index.htm"]) (c_list c_text) m;
  x6 ← member "access_log" (Some None) (c_option c_text) m;
  x7 ← member "access_log_format" (Some None) (c_option c_text) m;
  x8 ← member "error_log" (Some None) (c_option c_text) m;
  x9 ← member "tls" (Some None) (c_option c_tls) m;
  x10 ← member "fastcgi" (Some None) (c_option c_fastcgi) m;
  x11 ← member "upstreams" (Some []) (c_list c_upstream) m;
  x12 ← member "locations" (Some []) (c_list c_location) m;
  x13 ← member "rewrites" (Some []) (c_list c_rewrite) m;
  x14 ← member "rate_limit" (Some None) (c_option c_rate_limit) m;
  x15 ← member "hsts" (Some (Some HstsConfig_default)) (c_option c_hsts) m;
  x16 ← member "fallback" (Some false) c_bool m;
  x17 ← member "gzip" (Some None) (c_option c_bool) m;
  x18 ← member "gzip_comp_level" (Some None) (c_option (c_uint u32_max)) m;
  x19 ← member "compress" (Some SiteCompress_default) c_site_compress m;
  x20 ← member "websocket" (Some true) c_bool m;
  x21 ← member "force_https" (Some true) c_bool m;
  x22 ← member "real_ip" (Some None) (c_option c_real_ip) m;
  x23 ← member "proxy_protocol" (Some false) c_bool m;
  x24 ← member "error_pages" (Some ∅) c_pages m;
  x25 ← member "proxy_cache" (Some None) (c_option c_proxy_cache) m;
  x26 ← member "preset" (Some None) (c_option c_preset) m;
  x27 ← member "php_fastcgi" (Some None) (c_option c_text) m;
  x28 ← member "acme_email" (Some None) (c_option c_text) m;
  Some (mkFull x0 x1 x2 x3 x4 x5 x6 x7 x8 x9 x10 x11 x12 x13 x14 x15 x16 x17 x18 x19 x20 x21 x22 x23 x24 x25 x26 x27 x28).

Definition c_site : codec FullSite := mkCodec (λ f s, struct f (site_fields f s)) (of_object read_site).

(** [AppConfig] *)
Record FullConfig := mkConfig { fc_global : GlobalConfig; fc_sites : list FullSite }.

Definition c_config : codec FullConfig :=
  mkCodec (λ f c, struct f [(lit "global", enc c_global f (fc_global c)); (lit "sites", enc (c_list c_site) f (fc_sites c))])
    (of_object (λ m,
       g ← member "global" (Some GlobalConfig_default) c_global m; s ← member "sites" (Some []) (c_list c_site) m; Some (mkConfig g s))).

End pages.

(** ** What the other parts see *)

Definition location_of (l : LocationFile) : LocationConfig :=
  mkLocation (lf_path l) (lf_handler l) (lf_root l) (lf_cache_control l) (lf_return_code l) (lf_return_url l) (lf_return_body l)
    (lf_return_content_type l) (lf_limit_conn l) (lf_access_rules l) (lf_auth_request l) (lf_auth_failure_status l)
    (lf_auth_request_headers l) (lf_try_files l) (lf_upstream l).

Definition site_of (s : FullSite) : SiteFile :=
  mkFile (st_name s) (st_server_name s) (st_listen s) (st_listen_tls s) (st_root s) (st_index s) (tf_tls <$> st_tls s)
    ((λ c, mkFcgiCfg (fs_socket c) (fs_host c) (fs_port c)) <$> st_fastcgi s) (st_upstreams s) (location_of <$> st_locations s)
    (st_rewrites s) (st_hsts s) (st_fallback s) (st_force_https s) (st_real_ip s) (st_error_pages s) (st_preset s) (st_php_fastcgi s)
    (st_acme_email s) (st_websocket s) (mkSC (st_compress s) (st_gzip s) (st_gzip_comp_level s)) (st_proxy_cache s).

Definition app_of (c : FullConfig) : AppConfig (G := GlobalConfig) := mkApp (fc_global c) (site_of <$> fc_sites c).

(** ** Laws *)

Lemma c_action_ok : codec_ok c_action always.
Proof. apply c_enum_ok. by intros []. Qed.
Lemma c_dimension_ok : codec_ok c_dimension always.
Proof. apply c_enum_ok. by intros []. Qed.
Lemma c_preset_ok : codec_ok c_preset always.
Proof. apply c_enum_ok. by intros []. Qed.
Lemma c_override_ok : codec_ok c_override always.
Proof. intros f h _. unfold c_override. struct_ok. by destruct h. Qed.
Lemma c_cache_rule_ok : codec_ok c_cache_rule always.
Proof. intros f h _. unfold c_cache_rule. struct_ok. by destruct h. Qed.
Lemma c_sub_filter_ok : codec_ok c_sub_filter always.
Proof. intros f h _. unfold c_sub_filter. struct_ok. by destruct h. Qed.
Lemma c_pair_ok : codec_ok c_pair always.
Proof. intros f h _. unfold c_pair. struct_ok. by destruct h. Qed.
Lemma c_real_ip_ok : codec_ok c_real_ip always.
Proof. intros f h _. unfold c_real_ip. struct_ok. by destruct h. Qed.
Lemma c_provider_ok : codec_ok c_provider always.
Proof.
  intros f p _. unfold c_provider. destruct p; struct_ok;
    repeat match goal with |- (if ?b then _ else _) = _ => let v := eval vm_compute in b in change b with v; cbv iota end;
    read_members Hnd; reflexivity.
Qed.

(** A handler that is not a plugin is read back ([Serde.handler_read_back]). *)
Definition no_plugin (h : HandlerType) : Prop := ∀ n, h ≠ Plugin n.
Lemma c_handler_ok : codec_ok c_handler no_plugin.
Proof. intros f h Hh. split; [by apply handler_read_back|done]. Qed.

#[export] Hint Resolve c_action_ok c_dimension_ok c_preset_ok c_override_ok c_cache_rule_ok c_sub_filter_ok c_pair_ok c_real_ip_ok
  c_provider_ok c_handler_ok c_site_compress_ok c_cache_ok c_fastcgi_ok c_global_ok : codecs.

Definition access_rule_wf (r : AccessRule) : Prop := uint_ok u16_max (ar_priority r).
Lemma c_access_rule_ok : codec_ok c_access_rule access_rule_wf.
Proof. intros f r H. unfold access_rule_wf in H. unfold c_access_rule. struct_ok. by destruct r. Qed.

Definition rate_rule_wf (r : RateLimitRule) : Prop := uint_ok u64_max (rl_rate r) ∧ uint_ok u64_max (rl_burst r).
Lemma c_rate_rule_ok : codec_ok c_rate_rule rate_rule_wf.
Proof.
  intros f r [H1 H2]. unfold c_rate_rule. struct_ok. by destruct r.
Qed.

#[export] Hint Resolve c_access_rule_ok c_rate_rule_ok : codecs.

Lemma c_rate_limit_ok : codec_ok c_rate_limit (Forall rate_rule_wf).
Proof. intros f rs H. unfold c_rate_limit. struct_ok. done. Qed.

Definition http3_wf (h : Http3File) : Prop :=
  let t := hf_transport h in
  uint_ok usize_max (hf_max_handlers h)
  ∧ Forall (uint_ok u32_max) [h3_max_concurrent_bidi_streams t; h3_max_concurrent_uni_streams t]
  ∧ Forall (uint_ok u64_max)
      [h3_idle_timeout_ms t; h3_keep_alive_interval_ms t; h3_receive_window t; h3_stream_receive_window t; h3_send_window t;
       h3_initial_rtt_ms t; h3_max_ack_delay_ms t].
Lemma c_http3_ok : codec_ok c_http3 http3_wf.
Proof.
  intros f h (H1 & H32 & H64). repeat (apply Forall_cons in H64 as [? H64]). repeat (apply Forall_cons in H32 as [? H32]).
  unfold c_http3. cbv zeta. struct_ok. by destruct h as [? []].
Qed.

#[export] Hint Resolve c_rate_limit_ok c_http3_ok : codecs.

Definition tls_wf (t : TlsFile) : Prop := uint_ok u64_max (tls_renew_days_before (tf_tls t)) ∧ http3_wf (tf_http3 t).
Lemma c_tls_ok : codec_ok c_tls tls_wf.
Proof. intros f t [H1 H2]. unfold c_tls. cbv zeta. struct_ok. by destruct t as [[] ? ?]. Qed.

Definition location_wf (l : LocationFile) : Prop :=
  no_plugin (lf_handler l) ∧ opt_wf (uint_ok u16_max) (lf_return_code l) ∧ opt_wf (uint_ok usize_max) (lf_max_connections l)
  ∧ Forall access_rule_wf (lf_access_rules l) ∧ uint_ok usize_max (lf_limit_conn l) ∧ uint_ok u16_max (lf_auth_failure_status l).
Lemma c_location_ok : codec_ok c_location location_wf.
Proof.
  intros f l (H1 & H2 & H3 & H4 & H5 & H6). unfold c_location, location_fields, read_location. struct_ok. by destruct l.
Qed.

(** A group without nodes is read back. *)
Definition upstream_wf (u : UpstreamConfig) : Prop :=
  uc_nodes u = [] ∧ opt_wf health_wf (uc_health_check u) ∧ uint_ok usize_max (uc_keepalive u)
  ∧ Forall (uint_ok u64_max)
      [uc_keepalive_requests u; uc_keepalive_time u; uc_connect_timeout u; uc_read_timeout u; uc_write_timeout u; uc_retry_timeout u]
  ∧ uint_ok u32_max (uc_retry u) ∧ opt_wf breaker_wf (uc_circuit_breaker u).

Lemma c_no_nodes : codec_ok (c_list c_node) (λ l, l = []).
Proof. by intros f l ->. Qed.

Lemma c_upstream_ok : codec_ok c_upstream upstream_wf.
Proof.
  intros f u (H0 & H1 & H2 & H64 & H3 & H4). repeat (apply Forall_cons in H64 as [? H64]). pose proof c_no_nodes.
  unfold c_upstream. struct_ok. by destruct u.
Qed.

#[export] Hint Resolve c_tls_ok c_location_ok c_upstream_ok : codecs.

(** *** Error pages *)

Lemma obj_insert_perm k v m : k ∉ fst <$> m → obj_insert k v m ≡ₚ (k, v) :: m.
Proof.
  induction m as [|[k' v'] m IH]; intros Hk; [done|]. rewrite fmap_cons, not_elem_of_cons in Hk. destruct Hk as [Hne Hk]. cbn [fst] in Hne.
  cbn [obj_insert]. unfold str_eqb. rewrite bool_decide_false by done. destruct (key_lt k k'); [done|]. rewrite IH by done. apply Permutation_swap.
Qed.

Lemma obj_of_perm (l : list (list Z * Value)) :
  NoDup (fst <$> l) → foldr (λ kv m, obj_insert (fst kv) (snd kv) m) [] l ≡ₚ l.
Proof.
  induction l as [|[k v] l IH]; intros Hnd; [done|]. rewrite fmap_cons, NoDup_cons in Hnd. destruct Hnd as [Hk Hnd]. cbn [foldr fst snd] in *.
  rewrite obj_insert_perm; [by rewrite IH|]. by rewrite (IH Hnd).
Qed.

Definition pages_wf (p : gmap Z (list Z)) : Prop := map_Forall (λ k _, uint_ok u16_max k) p.

Lemma read_page_member k v : uint_ok u16_max k → read_page (page_member (k, v)) = Some (k, v).
Proof.
  intros [Hk _]. unfold read_page, page_member. cbn [fst snd dec_value c_text mbind option_bind].
  rewrite parse_uint_dec by (unfold u16_max, u64_max in *; lia). done.
Qed.

Lemma page_keys_nodup p : pages_wf p → NoDup (fst <$> (page_member <$> map_to_list p)).
Proof.
  intros Hp. rewrite <- list_fmap_compose. pose proof (NoDup_fst_map_to_list p) as Hnd.
  assert (Hk : Forall (λ kv, uint_ok u16_max (fst kv)) (map_to_list p)) by (by apply map_Forall_to_list in Hp; eapply Forall_impl; [exact Hp|intros []]).
  induction (map_to_list p) as [|[k v] l IH]; [constructor|]. rewrite !fmap_cons in *. apply NoDup_cons in Hnd as [Hn Hnd].
  apply Forall_cons in Hk as [[Hk _] Hl]. constructor; [|by apply IH]. intros ([k' v'] & Hd & Hin)%list_elem_of_fmap.
  apply Hn. apply list_elem_of_fmap. exists (k', v'). split; [|done]. rewrite Forall_forall in Hl. destruct (Hl _ Hin) as [Hk' _].
  change (dec k = dec k') in Hd. cbn [fst] in *. apply (f_equal (parse_uint u16_max)) in Hd. unfold u16_max, u64_max in *.
  rewrite !parse_uint_dec in Hd by (unfold u64_max; lia). by injection Hd.
Qed.

Section visited.
Context (visit : list (Z * list Z) → list (Z * list Z)) (visit_perm : ∀ l, visit l ≡ₚ l).

Lemma c_pages_ok : codec_ok (c_pages visit) pages_wf.
Proof using visit_perm.
  intros f p Hp. split; [|done]. cbn [enc c_pages dec_value of_object].
  pose proof (obj_of_perm _ (page_keys_nodup p Hp)) as Hperm.
  apply Permutation_map_inv in Hperm as (l & -> & Hl).
  assert (Hm : mapM read_page (map page_member l) = Some l).
  { apply mapM_Some. apply Forall2_fmap_l, Forall_Forall2_diag, Forall_forall. intros [k v] Hin. apply read_page_member.
    rewrite <- Hl in Hin. apply elem_of_map_to_list in Hin. exact (Hp k v Hin). }
  rewrite Hm. cbn [mbind option_bind]. f_equal. rewrite <- (list_to_map_to_list p). apply list_to_map_proper.
  - rewrite visit_perm, <- Hl. apply NoDup_fst_map_to_list.
  - by rewrite visit_perm, <- Hl.
Qed.
End visited.

(** *** Sites *)

(** Values within their widths, groups without nodes, locations without plugins.
    In TOML the policy is given, and there are no error pages: whether the library
    writes numbers as keys is not part of the program. *)
Definition site_wf (f : format) (s : FullSite) : Prop :=
  Forall (uint_ok u16_max) (st_listen s) ∧ Forall (uint_ok u16_max) (st_listen_tls s) ∧ opt_wf tls_wf (st_tls s)
  ∧ opt_wf fastcgi_wf (st_fastcgi s) ∧ Forall upstream_wf (st_upstreams s) ∧ Forall location_wf (st_locations s)
  ∧ opt_wf (Forall rate_rule_wf) (st_rate_limit s) ∧ opt_wf hsts_wf (st_hsts s) ∧ opt_wf (uint_ok u32_max) (st_gzip_comp_level s)
  ∧ site_compress_wf (st_compress s) ∧ pages_wf (st_error_pages s) ∧ opt_wf cache_wf (st_proxy_cache s)
  ∧ (f = FToml → is_Some (st_hsts s) ∧ st_error_pages s = ∅).

Lemma c_proxy_cache_ok : codec_ok c_proxy_cache cache_wf.
Proof. apply c_cache_ok. Qed.
#[export] Hint Resolve c_proxy_cache_ok : codecs.

(** The policy of a site: what is missing is not [None]. *)
Lemma member_policy f l o :
  NoDup (fst <$> l) → (lit "hsts", enc (c_option c_hsts) f o) ∈ l → opt_wf hsts_wf o → (f = FToml → is_Some o) →
  member "hsts" (Some (Some HstsConfig_default)) (c_option c_hsts) (members f l) = Some o.
Proof.
  intros Hnd Hin Ho Hf. unfold member. rewrite (members_get f l _ _ Hnd Hin). destruct o as [a|]; cbn [enc c_option] in *.
  - destruct (c_hsts_ok f a Ho) as [H1 H2]. rewrite H2, andb_false_r. cbn [dec_value c_option].
    destruct (enc c_hsts f a); [discriminate H2|by rewrite H1..].
  - destruct f; [done|]. by destruct (Hf eq_refl).
Qed.

Section config.
Context (visit : list (Z * list Z) → list (Z * list Z)) (visit_perm : ∀ l, visit l ≡ₚ l).

Lemma c_site_ok f s :
  site_wf f s → dec_value (c_site visit) (enc (c_site visit) f s) = Some s ∧ is_null (enc (c_site visit) f s) = false.
Proof using visit_perm.
  intros (H1 & H2 & H3 & H4 & H5 & H6 & H7 & H8 & H9 & H10 & H11 & H12 & Hf). pose proof (c_pages_ok visit visit_perm).
  unfold c_site, site_fields, read_site. struct_ok.
  erewrite (member_policy f); [|exact Hnd|find_member|exact H8|by intros E; apply Hf]. cbn [mbind option_bind].
  read_members Hnd. by destruct s.
Qed.

Definition config_wf (f : format) (c : FullConfig) : Prop := global_wf (fc_global c) ∧ Forall (site_wf f) (fc_sites c).

Lemma c_sites_ok f l :
  Forall (site_wf f) l → dec_value (c_list (c_site visit)) (enc (c_list (c_site visit)) f l) = Some l.
Proof using visit_perm.
  intros H. cbn [dec_value enc c_list]. induction H as [|s l Hs _ IH]; [done|].
  cbn [fmap list_fmap mapM]. rewrite (proj1 (c_site_ok f s Hs)). cbn [mbind option_bind]. cbn [fmap list_fmap] in IH. by rewrite IH.
Qed.
End config.

(** *** The configuration *)

Lemma config_read_back visit f c :
  (∀ l, visit l ≡ₚ l) → config_wf f c → dec_value (c_config visit) (enc (c_config visit) f c) = Some c.
Proof.
  intros Hv [Hg Hs]. unfold c_config. cbn [dec_value enc].
  match goal with |- of_object _ (struct _ ?l) = _ => assert (Hnd : NoDup (fst <$> l)) by (apply (bool_decide_unpack _); vm_compute; exact I) end.
  unfold of_object, struct. read_members Hnd. unfold member. erewrite (members_get f _ _ _ Hnd) by find_member.
  replace (is_null _) with false by done. rewrite andb_false_r. rewrite c_sites_ok by done. by destruct c.
Qed.

(** C37: A configuration that is written is read back.  As JSON for the admin interface or as TOML for
    the file, with every member of every section, whatever the values within their widths: provided
    no upstream group has nodes and no location a plugin, and in TOML no site has HSTS switched off or
    error pages.  A file without any section is the default configuration. *)
Theorem config_roundtrip visit f c :
  (∀ l, visit l ≡ₚ l) → config_wf f c →
  dec_value (c_config visit) (enc (c_config visit) f c) = Some c
  ∧ dec_value (c_config visit) (JObject []) = Some (mkConfig GlobalConfig_default []).
Proof. intros Hv Hw. split; [by apply config_read_back|reflexivity]. Qed.

(** What the conditions exclude cannot be read: a group that was read was read with its nodes. *)
Lemma read_site_upstreams visit m s :
  read_site visit m = Some s → ∃ us, member "upstreams" (Some []) (c_list c_upstream) m = Some us.
Proof.
  unfold read_site. intros H. repeat (apply bind_Some in H as (? & ? & H); first [by eexists; eassumption | idtac]).
Qed.

Lemma c_list_items {A} (c : codec A) v l seg n x :
  dec_value (c_list c) v = Some l → (∃ vs, v = JArray vs ∧ arr_get seg vs = Some (n, x)) → is_Some (dec_value c x).
Proof.
  intros Hd (vs & -> & Hx). cbn [dec_value c_list] in Hd. apply mapM_Some in Hd.
  unfold arr_get in Hx. destruct (parse_uint usize_max seg) as [z|]; [|done]. destruct (z <? _); [|done].
  destruct (vs !! Z.to_nat z) as [w|] eqn:E; [|done]. injection Hx as _ <-.
  destruct (Forall2_lookup_l _ _ _ _ _ Hd E) as (a & _ & Ha). by eexists.
Qed.

Lemma c_list_array {A} (c : codec A) v l : dec_value (c_list c) v = Some l → ∃ vs, v = JArray vs.
Proof. destruct v; try done. by eexists. Qed.

(** The place of a group in a tree that the reader accepts: the reader reads the group. *)
Lemma config_groups visit root c i j v :
  dec_value (c_config visit) root = Some c → json_navigate root (group_path i j) = Some v → is_Some (dec_value c_upstream v).
Proof.
  intros Hd Hnav. unfold group_path in Hnav. destruct root as [| | | | |m]; try done. cbn [dec_value c_config of_object] in Hd.
  apply bind_Some in Hd as (g & _ & Hd). apply bind_Some in Hd as (ss & Hs & _). unfold member in Hs.
  cbn [json_navigate] in Hnav. rewrite bool_decide_false in Hnav by done. destruct (obj_get (lit "sites") m) as [vs|]; [|done].
  destruct (c_list_array _ _ _ Hs) as [l ->].
  rewrite bool_decide_false in Hnav by by apply to_decimal_nonempty. destruct (arr_get (dec i) l) as [[n site]|] eqn:Ea; [|done].
  destruct (c_list_items _ _ _ (dec i) n site Hs) as [s Hsite]; [by eexists|].
  destruct site as [| | | | |m2]; try done. cbn [dec_value c_site of_object] in Hsite. apply read_site_upstreams in Hsite as [us Hu].
  unfold member in Hu. rewrite bool_decide_false in Hnav by done. destruct (obj_get (lit "upstreams") m2) as [vu|]; [|done].
  destruct (c_list_array _ _ _ Hu) as [l2 ->].
  rewrite bool_decide_false in Hnav by by apply to_decimal_nonempty. destruct (arr_get (dec j) l2) as [[n2 u]|] eqn:Eb; [|done].
  injection Hnav as <-. eapply c_list_items; [exact Hu|by eexists].
Qed.

Lemma c_list_in {A} (c : codec A) f l a r :
  dec_value (c_list c) (enc (c_list c) f l) = Some r → a ∈ l → is_Some (dec_value c (enc c f a)).
Proof.
  intros Hd [i Hi]%list_elem_of_lookup. cbn [dec_value enc c_list] in Hd. apply mapM_Some in Hd.
  assert (E : (enc c f <$> l) !! i = Some (enc c f a)) by by rewrite list_lookup_fmap, Hi.
  destruct (Forall2_lookup_l _ _ _ _ _ Hd E) as (b & _ & Hb). by eexists.
Qed.

(** A member that is written, and is not null, is the one that is read. *)
Lemma member_written {A} (c : codec A) f l k missing v :
  NoDup (fst <$> l) → (lit k, v) ∈ l → is_null v = false → member k missing c (members f l) = dec_value c v.
Proof. intros Hnd Hin Hn. unfold member. by rewrite (members_get f l _ _ Hnd Hin), Hn, andb_false_r. Qed.

(** One node in one group of one site, and the configuration that was written is refused. *)
Theorem nodes_refused visit f c s u :
  s ∈ fc_sites c → u ∈ st_upstreams s → uc_nodes u ≠ [] → dec_value (c_config visit) (enc (c_config visit) f c) = None.
Proof.
  intros Hs Hu Hn. destruct (dec_value (c_config visit) _) as [d|] eqn:E; [exfalso|done]. cbn [dec_value enc c_config of_object struct] in E.
  unfold struct, of_object in E. apply bind_Some in E as (g & _ & E). apply bind_Some in E as (ss & Es & _).
  erewrite (member_written _ f) in Es; [|apply (bool_decide_unpack _); vm_compute; exact I|find_member|done].
  destruct (c_list_in _ _ _ s _ Es Hs) as [d' Ed]. unfold c_site in Ed. cbn [dec_value enc] in Ed. unfold struct, of_object in Ed.
  apply read_site_upstreams in Ed as [us Eu]. unfold site_fields in Eu.
  erewrite (member_written _ f) in Eu; [|apply (bool_decide_unpack _); vm_compute; exact I|find_member|done].
  destruct (c_list_in _ _ _ u _ Eu Hu) as [d'' Ed']. by rewrite (saved_upstream_refused f u Hn) in Ed'.
Qed.

(** ** The admin interface *)

Section admin.
Context `{L : HeaderLib} {R : Type} (build : list Z → option R) (to_lowercase : list Z → list Z)
  (canonicalize : list Z → option (list (list Z))) {CK : Type}.
Context (disk_write : list Z → write_result) (max_handlers : TlsConfig → Z)
  (values : gmap (list Z) (SiteInfo (R := R)) → list (SiteInfo (R := R))).
Context (visit : list (Z * list Z) → list (Z * list Z)).
Notation app := (AppConfig (G := GlobalConfig)).
Notation admin := (AdminContext (R := R) (CK := CK) (G := GlobalConfig)).

(** The text of trees: TOML is read, JSON is read and written. *)
Context (toml_tree json_tree : list Z → option Value) (to_string_pretty : Value → option (list Z)) (to_toml : app → option (list Z)).

(** [POST /adapt]: the JSON text of a TOML file; [None] is an error text. *)
Definition route_adapt (body : list Z) : Z * option (list Z) :=
  if utf8_valid body then
    match toml_tree body ≫= dec_value (c_config visit) with
    | Some c => match to_string_pretty (enc (c_config visit) FJson c) with Some t => (200, Some t) | None => (500, None) end
    | None => (400, None)
    end
  else (400, None).

(** The readers of [POST /load] and of the tree endpoints. *)
Definition parse_full (body : list Z) : option app := app_of <$> (json_tree body ≫= dec_value (c_config visit)).
Definition from_tree (v : Value) : option app := app_of <$> dec_value (c_config visit) v.

Notation load := (route_load (CK := CK) build to_lowercase canonicalize parse_full to_toml disk_write max_handlers values).

Context (json_text : ∀ v t, to_string_pretty v = Some t → json_tree t = Some v).

(** What [/adapt] answers for a file, [/load] reads as the configuration of that file, under the
    conditions of the round trip. *)
Theorem adapted_file_loads body v c t :
  (∀ l, visit l ≡ₚ l) → toml_tree body = Some v → dec_value (c_config visit) v = Some c → config_wf FJson c →
  route_adapt body = (200, Some t) → parse_full t = Some (app_of c).
Proof using json_text.
  intros Hv Hb Hd Hw Ha. unfold route_adapt in Ha. destruct (utf8_valid body); [|done]. rewrite Hb in Ha. cbn [mbind option_bind] in Ha.
  rewrite Hd in Ha. destruct (to_string_pretty _) as [t'|] eqn:Et; [|done]. injection Ha as <-.
  unfold parse_full. rewrite (json_text _ _ Et). cbn [mbind option_bind]. by rewrite config_read_back.
Qed.

(** With a node in the file the answer of [/adapt] is refused by [/load], and nothing changes. *)
Theorem adapted_nodes_refused q body v c s u t (st : admin) :
  toml_tree body = Some v → dec_value (c_config visit) v = Some c → s ∈ fc_sites c → u ∈ st_upstreams s → uc_nodes u ≠ [] →
  route_adapt body = (200, Some t) → pr_body q = t → load q st = ((400, BErr), st).
Proof using json_text.
  intros Hb Hd Hs Hu Hn Ha Hq. unfold route_adapt in Ha. destruct (utf8_valid body); [|done]. rewrite Hb in Ha. cbn [mbind option_bind] in Ha.
  rewrite Hd in Ha. destruct (to_string_pretty _) as [t'|] eqn:Et; [|done]. injection Ha as <-. unfold route_load.
  rewrite Hq. unfold parse_full. rewrite (json_text _ _ Et). cbn [mbind option_bind]. by rewrite (nodes_refused visit FJson c s u).
Qed.

(** With a node in the configuration in force, no edit elsewhere in its tree succeeds
    ([Serde.edits_refused_with_upstream] for the real reader). *)
Theorem edits_refused to_value q segs edit (st : admin) root i j u :
  to_value (ad_cfg st) = Some root → json_navigate root (group_path i j) = Some (enc c_upstream FJson u) → uc_nodes u ≠ [] →
  diverge segs (group_path i j) →
  ∃ e, config_tree_mutate build to_lowercase canonicalize to_value from_tree to_toml disk_write max_handlers values q segs edit st = (e, st).
Proof.
  apply edits_refused_with_upstream. intros root' new i' j' v Hf Hnav. unfold from_tree in Hf.
  destruct (dec_value (c_config visit) root') as [c|] eqn:E; [|done]. by eapply config_groups.
Qed.

End admin.

(** ** Defaults *)

(** What is missing gets the value of the [Default] implementations: of a location all but its path and
    handler, of HTTP/3 everything. *)
Theorem missing_is_default p :
  dec_value c_location (JObject [(lit "path", JString p); (lit "handler", JString (lit "static"))])
    = Some (mkLocFile p Static None None None None None false None None None [] [] [] [] [] None None None 0 false [] [] None 401 [])
  ∧ dec_value c_location (JObject [(lit "path", JString []); (lit "handler", JString (lit "static"))]) = Some LocationFile_default
  ∧ dec_value c_http3 (JObject []) = Some Http3File_default.
Proof. split_and!; reflexivity. Qed.

(** The TLS section does not: an empty section is usable, the derived [Default] has no protocols and no
    provider. *)
Theorem tls_section_default :
  (tf_tls <$> dec_value c_tls (JObject [])) = Some (TlsConfig_absent false None) ∧ TlsConfig_absent false None ≠ TlsConfig_default.
Proof. split; [reflexivity|discriminate]. Qed.

Module SiteWitness.
Import Headers.Model.

Definition loc : LocationFile :=
  mkLocFile (lit "/api/") ReverseProxy None (Some (lit "api")) None None None true None None None [mkOverride (lit "X-A") (lit "b")] [] []
    [mkAccessRule AccessControl.Deny (lit "10.0.0.0/8") 3] [] None None None 100 true [] [] None 401 [].

Definition group (nodes : list UpstreamNode) : UpstreamConfig :=
  mkUpstreamConfig (lit "api") LeastConn (Some (mkHealthCheckConfig true 10 3 (lit "/up"))) nodes 8 0 0 10 60 60 2 0 [NHttp502; NTimeout] None.

Definition site (nodes : list UpstreamNode) (pages : gmap Z (list Z)) : FullSite :=
  mkFull (lit "a") [lit "a.test"] [80] [443] (Some (lit "/srv")) [lit "index.html"] None None None
    (Some (mkTlsFile (TlsConfig_absent true (Some (lit "a@a.test"))) (Some (Cloudflare (lit "t") None)) Http3File_default)) None
    [group nodes] [loc] [] (Some [RateLimit.mkRule DIpPath 5 10 true None None]) (Some HstsConfig_default) false None None SiteCompress_default
    true true None false pages None None None None.

Definition cfg (nodes : list UpstreamNode) (pages : gmap Z (list Z)) : FullConfig := mkConfig GlobalConfig_default [site nodes pages].
Definition keep (l : list (Z * list Z)) : list (Z * list Z) := l.

Lemma cfg_wf f pages : pages_wf pages → (f = FToml → pages = ∅) → config_wf f (cfg [] pages).
Proof.
  intros Hp Hf. split; [|apply Forall_singleton].
  - unfold global_wf, compress_wf, uint_ok. split_and!; repeat constructor; vm_compute; congruence.
  - unfold site_wf. cbn [site st_listen st_listen_tls st_tls st_fastcgi st_upstreams st_locations st_rate_limit st_hsts st_gzip_comp_level
      st_compress st_error_pages st_proxy_cache opt_wf].
    split_and!; try done; try (repeat constructor; vm_compute; congruence).
    intros E. split; [by eexists|by apply Hf].
Qed.

Lemma config_roundtrip_witness :
  let c := cfg [] {[404 := lit "/404.html"; 502 := lit "/bad.html"]} in
  dec_value (c_config keep) (enc (c_config keep) FJson c) = Some c
  ∧ dec_value (c_config keep) (JObject []) = Some (mkConfig GlobalConfig_default []).
Proof.
  apply (config_roundtrip keep FJson (cfg [] _)); [done|]. apply cfg_wf; [|done].
  intros k v. rewrite lookup_insert_Some. intros [[<- _]|[_ Hk]]; [vm_compute; split_and!; congruence|].
  apply lookup_singleton_Some in Hk as [<- _]. vm_compute; split_and!; congruence.
Defined.

Lemma config_toml_example :
  let c := cfg [] ∅ in dec_value (c_config keep) (enc (c_config keep) FToml c) = Some c.
Proof. apply config_read_back; [done|]. apply cfg_wf; [|done]. intros k v. by rewrite lookup_empty. Qed.

Definition node : UpstreamNode := mkUpstreamNode (Tcp (lit "10.0.0.1:80")) 1 false None false None false 0.

Lemma nodes_refused_witness : dec_value (c_config keep) (enc (c_config keep) FToml (cfg [node] ∅)) = None.
Proof. apply (nodes_refused keep FToml _ (site [node] ∅) (group [node])); [by left|by left|discriminate]. Defined.

End SiteWitness.
