(* ===== verification/Dormant.v ===== *)
(** * Code that nothing calls

    Three parts of the program are complete and unused: the error log
    ([src/middleware/error_log.rs]), the table of security headers
    ([src/middleware/security.rs]), and the FastCGI parser that buffers a whole
    response ([parse_fcgi_response] of [src/handler/fastcgi/proto.rs]).  The
    theorems say where they agree with what is used in their place. *)

From S2P Require Import Prelude RustStr Headers Http1 ProxyCache Forward FastCgi AccessLog.

(** ** The error log *)

Inductive ErrorLevel := LError | LWarn | LNotice.

Definition level_name (l : ErrorLevel) : list Z :=
  lit (match l with LError => "error" | LWarn => "warn" | LNotice => "notice" end).

(** [ErrorLogger]: the contents of its file, if it has one. *)
Definition ErrorLogger : Type := option (list Z).
Definition tracing_only : ErrorLogger := None.

(** [ErrorLogger::file]: the directory is made, the file opened at its end. *)
Definition error_log_file (dir_ok open_ok : bool) (existing : option (list Z)) : option ErrorLogger :=
  if dir_ok && open_ok then Some (Some (default [] existing)) else None.

Definition error_line (time : list Z) (level : ErrorLevel) (site message : list Z) : list Z :=
  time ++ lit " [" ++ level_name level ++ lit "] [" ++ site ++ lit "] " ++ message.

(** [ErrorLogger::log]: the file, and the level and line of the trace.  A write
    that fails has written [cut] bytes. *)
Definition log_error (cut : option nat) (time : list Z) (level : ErrorLevel) (site message : list Z) (w : ErrorLogger)
  : ErrorLogger * (ErrorLevel * list Z) :=
  let line := error_line time level site message in
  let data := line ++ [LF] in
  ((λ f, f ++ match cut with Some n => take n data | None => data end) <$> w, (level, line)).

(** ** Security headers *)

Record SecurityHeaders := mkSecurity {
  sh_hsts : bool;
  sh_hsts_max_age : Z;
  sh_x_frame_options : option (list Z);
  sh_x_content_type_options : bool;
  sh_x_xss_protection : bool;
  sh_csp : option (list Z);
  sh_referrer_policy : option (list Z);
}.

Definition SecurityHeaders_default : SecurityHeaders :=
  mkSecurity false 31536000 (Some (lit "SAMEORIGIN")) true true None (Some (lit "strict-origin-when-cross-origin")).

Definition when {A} (b : bool) (a : A) : list A := if b then [a] else [].
Definition given {A} (k : A) (o : option (list Z)) : list (A * list Z) := match o with Some v => [(k, v)] | None => [] end.

Definition to_headers (s : SecurityHeaders) : list (list Z * list Z) :=
  when (sh_hsts s) (lit "Strict-Transport-Security", lit "max-age=" ++ dec (sh_hsts_max_age s) ++ lit "; includeSubDomains")
  ++ given (lit "X-Frame-Options") (sh_x_frame_options s)
  ++ when (sh_x_content_type_options s) (lit "X-Content-Type-Options", lit "nosniff")
  ++ when (sh_x_xss_protection s) (lit "X-XSS-Protection", lit "1; mode=block")
  ++ given (lit "Content-Security-Policy") (sh_csp s)
  ++ given (lit "Referrer-Policy") (sh_referrer_policy s)
  ++ [(lit "Server", lit "Sweety")].

(** ** The buffered FastCGI response *)

Section buffered.
Context `{L : HeaderLib}.

(** The two searches, and [from_utf8(..).unwrap_or] of the head. *)
Definition head_text (s : list Z) : list Z := if utf8_valid s then s else [].
Definition split_response (stdout : list Z) : list Z * list Z :=
  match find_crlfcrlf stdout with
  | Some i => (head_text (take i stdout), drop (i + 4) stdout)
  | None =>
      match find_pair LF LF stdout with
      | Some i => (head_text (take i stdout), drop (i + 2) stdout)
      | None => ([], stdout)
      end
  end.

Definition parse_fcgi_response (stdout : list Z) : WebResponse :=
  let '(header_part, body) := split_response stdout in
  let '(status, headers) := parse_fcgi_headers header_part in
  let m := foldl (append_header header_value) hm_empty headers in
  let m := if has_content_type headers then m else hm_insert (lit "content-type") html_type m in
  mkResp _ (status_or_ok status) body m.

(** [find_header_text_end] *)
Definition find_header_text_end (buf : list Z) : option nat := snd <$> find_header_end buf.

(** ** It agrees with the streaming parser *)

Lemma split_response_end stdout :
  split_response stdout
  = match find_header_end stdout with
    | Some (e, i) => (head_text (take i stdout), drop e stdout)
    | None => ([], stdout)
    end.
Proof. unfold split_response, find_header_end. destruct (find_crlfcrlf stdout); [done|]. by destruct (find_pair LF LF stdout). Qed.

Lemma append_headers_agree (hvb : list Z → option (list Z)) hs m :
  Forall (λ kv, hvb (snd kv) = header_value (snd kv)) hs →
  foldl (append_header hvb) m hs = foldl (append_header header_value) m hs.
Proof.
  intros H. revert m. induction H as [|kv hs Hkv _ IH]; intros m; [done|]. cbn [foldl]. rewrite IH. unfold append_header. by rewrite Hkv.
Qed.

Context (from_utf8_lossy : list Z → list Z) (hvb : list Z → option (list Z)).
Context (lossy_valid : ∀ s, utf8_valid s = true → from_utf8_lossy s = s).

(** For output with a well-formed head whose values the two conversions treat alike, and a status with
    a body, the buffered parser gives the response of the streaming handler, but for its length. *)
Theorem buffered_parse_agrees stdout e i :
  find_header_end stdout = Some (e, i) → utf8_valid (take i stdout) = true →
  let '(status, headers) := parse_fcgi_headers (from_utf8_lossy (take i stdout)) in
  Forall (λ kv, hvb (snd kv) = header_value (snd kv)) headers → no_body_status (status_or_ok status) = false →
  let r := parse_fcgi_response stdout in
  make_complete_response hvb status headers (drop e stdout)
  = mkResp _ (w_status r) (w_body r) (set_content_length (length (w_body r)) (w_headers r)).
Proof.
  intros He Hu. unfold parse_fcgi_response. rewrite split_response_end, He. unfold head_text. rewrite Hu, lossy_valid by done.
  destruct (parse_fcgi_headers _) as [status headers]. intros Hh Hn. unfold make_complete_response. rewrite Hn, append_headers_agree by done.
  done.
Qed.

(** A head with one byte that is not UTF-8 is lost as a whole, status included; the streaming handler
    replaces the byte. *)
Theorem bad_byte_drops_head stdout e i :
  find_header_end stdout = Some (e, i) → utf8_valid (take i stdout) = false →
  parse_fcgi_response stdout = mkResp _ 200 (drop e stdout) (hm_insert (lit "content-type") html_type hm_empty).
Proof. intros He Hu. unfold parse_fcgi_response. rewrite split_response_end, He. unfold head_text. by rewrite Hu. Qed.

End buffered.

(** ** What the log holds *)

Record error_entry := mkErr { ee_time : list Z; ee_level : ErrorLevel; ee_site : list Z; ee_message : list Z }.
Definition entry_line (e : error_entry) : list Z := error_line (ee_time e) (ee_level e) (ee_site e) (ee_message e).
Definition log_entry (w : ErrorLogger) (e : error_entry) : ErrorLogger :=
  fst (log_error None (ee_time e) (ee_level e) (ee_site e) (ee_message e) w).

(** The file grows by one line for each error, in their order, behind what it held; without a file
    nothing is kept. *)
Theorem error_log_appends es w : foldl log_entry w es = (λ f, f ++ AccessLog.text (entry_line <$> es)) <$> w.
Proof.
  revert w. induction es as [|e es IH]; intros w; cbn [foldl].
  - destruct w; cbn; by rewrite ?app_nil_r.
  - rewrite IH. unfold log_entry, log_error, AccessLog.text. destruct w as [f|]; [|done]. cbn. by rewrite <- !app_assoc.
Qed.

(** A message is written as it is: with a line feed in it one error looks like two. *)
Theorem error_line_forged time time' level level' site site' m m' :
  let whole := mkErr time level site (m ++ [LF] ++ error_line time' level' site' m') in
  foldl log_entry (Some []) [whole] = foldl log_entry (Some []) [mkErr time level site m; mkErr time' level' site' m'].
Proof. cbv zeta. rewrite !error_log_appends. unfold AccessLog.text, entry_line, error_line. cbn [fmap list_fmap option_fmap option_map concat ee_time ee_level ee_site ee_message].
  f_equal. by rewrite <- !app_assoc, ?app_nil_r.
Qed.

(** ** What the headers are *)

(** Each header at most once, whatever is configured, and the program is always named. *)
Theorem security_headers_once s : NoDup (fst <$> to_headers s) ∧ (lit "Server", lit "Sweety") ∈ to_headers s.
Proof.
  split.
  - destruct s as [[] ? [] [] [] [] []]; cbn; apply (bool_decide_unpack _); by vm_compute.
  - unfold to_headers. rewrite !elem_of_app. do 6 right. left.
Qed.

Module DormantWitness.

Lemma buffered_parse_agrees_witness :
  let stdout := lit "Status: 404" ++ [LF] ++ lit "X-A: b" ++ [LF; LF] ++ lit "gone" in
  find_header_end stdout = Some (20%nat, 18%nat) ∧ utf8_valid (take 18 stdout) = true
  ∧ parse_fcgi_headers (take 18 stdout) = (404, [(lit "X-A", lit "b")]).
Proof. by vm_compute. Qed.

Lemma bad_byte_example :
  let stdout := lit "Status: 404" ++ [LF] ++ lit "X-A: " ++ [255; LF; LF] ++ lit "gone" in
  split_response stdout = ([], lit "gone").
Proof. by vm_compute. Qed.

Lemma log_error_cut_example :
  fst (log_error (Some 7%nat) (lit "t") LWarn (lit "a") (lit "m") (Some [])) = Some (lit "t [warn").
Proof. by vm_compute. Qed.

End DormantWitness.
