(* ===== verification/AcmeLoop.v ===== *)
(** * The renewal loop: [acme_renewal_loop] of [src/server/acme.rs]

    The loop over the sites that [Tls.acme_site] models one of, with its waits;
    the addresses it makes up for sites without one; and the part of the reload
    that concerns QUIC end points.  The theorems say that checks come often
    enough, that every check makes up a new account, and what end points of other
    sites get. *)

From S2P Require Import Prelude RustStr VHost Config Tls AcmeOrder TlsFiles.

(** ** Addresses *)

Definition NANOS : Z := 1000000000.
Definition TLDS : list (list Z) := lit <$> ["com"; "net"; "org"; "io"; "dev"; "cc"; "me"; "co"]%string.

(** [random_email] at [ts] nanoseconds since the epoch. *)
Definition random_email (ts : Z) : list Z :=
  let tld := nth (Z.to_nat (ts mod 2 ^ 64 mod 8)) TLDS [] in
  let user := ts mod NANOS in
  let domain := ts / NANOS mod 1000000 in
  lit "a" ++ dec user ++ lit "@d" ++ dec domain ++ lit "." ++ tld.

Definition site_email (t : TlsConfig) (ts : Z) : list Z :=
  match tls_acme_email t with Some (b :: e) => b :: e | _ => random_email ts end.

(** ** Rounds *)

Definition CHECK_EVERY : Z := 12 * 3600.

Section rounds.
Context {CK : Type} (to_lowercase : list Z → list Z) (cache_dir : list Z)
  (parse_pem : list Z → list Z → option CK) (not_after_of : list Z → option Z).
Notation site_step := (acme_site to_lowercase cache_dir parse_pem not_after_of).
Notation world := (AcmeWorld (CK := CK)).

(** What one site meets in a round: the time, whether it has a DNS provider, how
    far saving comes, and the answers to its applications. *)
Record Check := mkCheck { ck_now : Z; ck_dns : bool; ck_save : save_reach; ck_attempt : nat → option (list Z * list Z) }.

Fixpoint acme_round (sites : list SiteFile) (meets : nat → Check) (w : world) : world * Z :=
  match sites with
  | [] => (w, 0)
  | s :: sites =>
      let k := meets 0%nat in
      let '(w1, waits) := site_step (ck_now k) (ck_dns k) (ck_save k) (ck_attempt k) s w in
      let '(w2, t) := acme_round sites (meets ∘ S) w1 in
      (w2, foldr Z.add 0 waits + t)
  end.

(** The loop: the starts of its rounds and what is left.  A round takes its waits
    and the time of its applications, which is given. *)
Fixpoint acme_renewal_loop (sites : list SiteFile) (start : Z) (rounds : list (Z * (nat → Check))) (w : world) : list Z * world :=
  match rounds with
  | [] => ([], w)
  | (orders, meets) :: rounds =>
      let '(w1, waits) := acme_round sites meets w in
      let '(starts, w2) := acme_renewal_loop sites (start + waits + orders + CHECK_EVERY) rounds w1 in
      (start :: starts, w2)
  end.

(** ** How often a site is checked *)

Definition BACKOFF_TOTAL : Z := 9360.
Definition uses_acme (s : SiteFile) : bool := match cf_tls s with Some t => tls_acme t | None => false end.

Lemma acme_retry_waits can_retry steps attempt k :
  Forall (λ w, 0 ≤ w) steps → 0 ≤ foldr Z.add 0 (snd (acme_retry can_retry steps attempt k)) ≤ foldr Z.add 0 steps.
Proof.
  intros H. revert k. induction H as [|w steps Hw Hs IH]; intros k; cbn [acme_retry snd foldr]; [lia|].
  assert (0 ≤ foldr Z.add 0 steps) by (clear -Hs; induction Hs; cbn; lia).
  destruct can_retry; [|cbn; lia]. destruct (attempt k); [cbn; lia|]. specialize (IH (S k)).
  destruct (acme_retry _ _ _ _). cbn [snd foldr] in *. lia.
Qed.

Lemma acme_site_waits now dns save attempt s w :
  0 ≤ foldr Z.add 0 (snd (site_step now dns save attempt s w)) ≤ if uses_acme s then BACKOFF_TOTAL else 0.
Proof.
  unfold acme_site, uses_acme. destruct (cf_tls s) as [t|]; [|cbn; lia]. destruct (tls_acme t); cbn [negb]; [|cbn; lia].
  destruct (acme_domains t _) as [|d ds]; [cbn; unfold BACKOFF_TOTAL; lia|]. destruct (_ && _); [cbn; unfold BACKOFF_TOTAL; lia|].
  match goal with |- context [acme_apply ?c ?a] => pose proof (acme_retry_waits c BACKOFF a 1) as H; unfold acme_apply; destruct (a 0%nat) as [[cert key]|] end.
  - destruct save; cbn; unfold BACKOFF_TOTAL; lia.
  - specialize (H ltac:(repeat constructor; lia)). change (foldr Z.add 0 BACKOFF) with BACKOFF_TOTAL in H.
    destruct (acme_retry _ _ _ _) as [[[cert key]|] ws]; [destruct save|]; exact H.
Qed.

(** The most a round waits. *)
Definition round_waits (sites : list SiteFile) : Z := BACKOFF_TOTAL * Z.of_nat (length (List.filter uses_acme sites)).

Lemma acme_round_waits sites meets w : 0 ≤ snd (acme_round sites meets w) ≤ round_waits sites.
Proof.
  revert meets w. induction sites as [|s sites IH]; intros meets w; cbn [acme_round]; [unfold round_waits; cbn; lia|].
  pose proof (acme_site_waits (ck_now (meets 0%nat)) (ck_dns (meets 0%nat)) (ck_save (meets 0%nat)) (ck_attempt (meets 0%nat)) s w) as Hs.
  destruct (site_step _ _ _ _ _ _) as [w1 waits]. specialize (IH (meets ∘ S) w1). destruct (acme_round _ _ _) as [w2 t]. cbn [snd] in *.
  unfold round_waits in *. cbn [List.filter]. destruct (uses_acme s); cbn [length]; lia.
Qed.

(** Whatever the authorities answer, a certificate is checked while it is due and not yet expired: the
    loop comes round within twelve hours, the waits of all sites and the time [slow] of applications, and
    if that is less than the days of renewal, some round starts inside them. *)
Theorem checked_while_due sites start rounds w not_after days slow :
  Forall (λ r, 0 ≤ fst r ≤ slow) rounds → 0 < days →
  CHECK_EVERY + round_waits sites + slow ≤ days * 86400 →
  start ≤ not_after → not_after - start < CHECK_EVERY * Z.of_nat (length rounds) →
  ∃ t, t ∈ fst (acme_renewal_loop sites start rounds w) ∧ t ≤ not_after ∧ cert_needs_renewal not_after t days = true.
Proof.
  intros Hr Hd Hgap. revert start w. induction Hr as [|[orders meets] rounds Ho _ IH]; intros start w Hs He; [cbn in He; lia|].
  cbn [acme_renewal_loop fst length] in *. pose proof (acme_round_waits sites meets w) as Hw.
  destruct (acme_round sites meets w) as [w1 waits]. cbn [snd] in Hw.
  specialize (IH (start + waits + orders + CHECK_EVERY) w1). destruct (acme_renewal_loop sites _ rounds w1) as [starts w2]. cbn [fst] in *.
  destruct (Z.le_gt_cases (days * 86400) (not_after - start)) as [Hfar|Hnear].
  - destruct IH as (t & Ht & ? & ?); [lia|lia|]. exists t. split_and!; [by right|done..].
  - exists start. split_and!; [by left|lia|]. unfold cert_needs_renewal. apply Z.ltb_lt.
    rewrite Z.quot_div_nonneg by lia. apply Z.div_lt_upper_bound; lia.
Qed.

End rounds.

(** ** Accounts *)

(** The text up to the first byte that is no digit. *)
Lemma digits_split a a' c c' s s' :
  Forall (λ b, is_ascii_digit b = true) a → Forall (λ b, is_ascii_digit b = true) a' →
  is_ascii_digit c = false → is_ascii_digit c' = false → a ++ c :: s = a' ++ c' :: s' → a = a' ∧ s = s'.
Proof.
  intros Ha. revert a'. induction Ha as [|x a Hx _ IH]; intros a' Ha' Hc Hc' E; destruct Ha' as [|y a' Hy Ha']; simplify_eq/=; try congruence.
  - done.
  - destruct (IH a' Ha' Hc Hc' ltac:(eassumption)) as [-> ->]. done.
Qed.

Lemma replace_digits c d s : is_ascii_digit c = false → Forall (λ b, is_ascii_digit b = true) s → replace_byte c d s = s.
Proof.
  intros Hc H. unfold replace_byte. induction H as [|b s Hb _ IH]; [done|]. rewrite fmap_cons, IH.
  destruct (Z.eqb_spec b c); [subst; congruence|done].
Qed.

Lemma replace_app c d s t : replace_byte c d (s ++ t) = replace_byte c d s ++ replace_byte c d t.
Proof. apply fmap_app. Qed.

Lemma dec_inj_u64 a b : 0 ≤ a < NANOS → 0 ≤ b < NANOS → dec a = dec b → a = b.
Proof.
  unfold NANOS. intros Ha Hb E. apply (f_equal (parse_uint u64_max)) in E.
  rewrite !parse_uint_dec in E by (unfold u64_max; lia). by injection E.
Qed.

Lemma random_email_file ts :
  0 ≤ ts →
  replace_byte byte_dot byte_underscore (replace_byte 64 byte_underscore (random_email ts))
  = lit "a" ++ dec (ts mod NANOS) ++ lit "_d" ++ dec (ts / NANOS mod 1000000) ++ lit "_" ++ nth (Z.to_nat (ts mod 2 ^ 64 mod 8)) TLDS [].
Proof.
  intros H. unfold random_email.
  assert (Hu : 0 ≤ ts mod NANOS) by (apply Z.mod_pos_bound; unfold NANOS; lia).
  assert (Hd : 0 ≤ ts / NANOS mod 1000000) by (apply Z.mod_pos_bound; lia).
  rewrite !replace_app, !(replace_digits _ _ (dec _)) by (done || by apply dec_digits).
  assert (Ht : ∀ i, (i < 8)%nat → replace_byte byte_dot byte_underscore (replace_byte 64 byte_underscore (nth i TLDS [])) = nth i TLDS []).
  { intros i Hi. do 8 (destruct i as [|i]; [reflexivity|]). lia. }
  rewrite Ht; [reflexivity|]. pose proof (Z.mod_pos_bound (ts mod 2 ^ 64) 8). lia.
Qed.

(** Two checks of a site without an address never share an account: within eleven days the made-up
    addresses, and the files of their accounts, are different at any two moments, so each application
    opens a new account with the authority. *)
Theorem account_file_new cache_dir provider ts ts' :
  0 ≤ ts < ts' → ts' < ts + NANOS * 1000000 →
  creds_path cache_dir provider (random_email ts) ≠ creds_path cache_dir provider (random_email ts').
Proof.
  intros [H0 Hlt] Hnear E. unfold creds_path in E. rewrite !random_email_file in E by lia.
  apply app_inv_head, app_inv_head, app_inv_head, app_inv_head, app_inv_tail, app_inv_head in E.
  pose proof (Z.mod_pos_bound ts NANOS ltac:(unfold NANOS; lia)). pose proof (Z.mod_pos_bound ts' NANOS ltac:(unfold NANOS; lia)).
  pose proof (Z.mod_pos_bound (ts / NANOS) 1000000 ltac:(lia)). pose proof (Z.mod_pos_bound (ts' / NANOS) 1000000 ltac:(lia)).
  change (lit "_d" ++ ?x) with (95 :: 100 :: x) in E. change (lit "_" ++ ?x) with (95 :: x) in E.
  apply digits_split in E as [Eu E]; [|by apply dec_digits; lia..|reflexivity|reflexivity]. injection E as E.
  apply digits_split in E as [Ed _]; [|by apply dec_digits; lia..|reflexivity|reflexivity].
  apply dec_inj_u64 in Eu; [|lia..]. apply dec_inj_u64 in Ed; [|unfold NANOS in *; lia..]. unfold NANOS in *.
  pose proof (Z.div_mod ts 1000000000 ltac:(lia)). pose proof (Z.div_mod ts' 1000000000 ltac:(lia)).
  pose proof (Z.div_mod (ts / 1000000000) 1000000 ltac:(lia)). pose proof (Z.div_mod (ts' / 1000000000) 1000000 ltac:(lia)). lia.
Qed.

(** ** QUIC end points *)

Section quic.
Context {CK SK CFG : Type} (to_lowercase : list Z → list Z) (parse_pem : list Z → list Z → option CK).
Context (pem_certs : list Z → option (list (list Z))) (pem_items : list Z → list pem_item)
  (single_cert : list (list Z) → pem_item → option CFG) (tc_default : TransportConfig).
Notation quic := (QuicConfig (CFG := CFG)).
Notation build fs := (quinn_from_pem (fs !!.) pem_certs pem_items single_cert tc_default).

(** [reload_acme_cert_in_resolvers]: the resolvers, then every end point of the
    process, by its number. *)
Definition reload_acme_cert_in_resolvers (fs : gmap (list Z) (list Z)) (cert key : list Z) (names : list (list Z))
    (st : gmap Z (SniInner (CK := CK)) * gmap Z quic) : gmap Z (SniInner (CK := CK)) * gmap Z quic :=
  (reload_acme_cert to_lowercase parse_pem fs cert key names (fst st),
   match build fs cert key false with
   | Some q => (λ _, q) <$> snd st
   | None => snd st
   end).

(** After the renewal of one site every end point shows its certificate, whichever site it belongs to,
    with 0-RTT off and the transport settings of its configuration gone; the resolvers of TLS are
    changed for the names of the site only. *)
Theorem renewal_replaces_all_endpoints fs cert key names rs eps q id old :
  build fs cert key false = Some q → eps !! id = Some old →
  snd (reload_acme_cert_in_resolvers fs cert key names (rs, eps)) !! id = Some q
  ∧ qc_early_data q = 0 ∧ qc_transport q = tc_default.
Proof.
  intros Hb Hid. unfold reload_acme_cert_in_resolvers. cbn [snd]. rewrite Hb, lookup_fmap, Hid. split; [done|].
  unfold quinn_from_pem in Hb. repeat (apply bind_Some in Hb as (? & ? & Hb)). by injection Hb as <-.
Qed.

End quic.

Module LoopWitness.

Definition site : SiteFile := Tls.Witness.acme_a.
Definition meets (k : nat) : Check := mkCheck 0 false BothSaved (λ _, None).

(** Ten rounds of two applications each that all fail, for a certificate that ends in a hundred hours. *)
Lemma checked_while_due_witness :
  ∃ t, t ∈ fst (acme_renewal_loop to_ascii_lowercase (lit "/c") Tls.Witness.pem (λ _, None) [site] 0
                  (replicate 10 (600, meets)) Tls.Witness.world)
       ∧ t ≤ 360000 ∧ cert_needs_renewal 360000 t 3 = true.
Proof.
  apply (checked_while_due to_ascii_lowercase (lit "/c") Tls.Witness.pem (λ _, None) [site] 0 (replicate 10 (600, meets))
           Tls.Witness.world 360000 3 600).
  - apply Forall_replicate. cbn. lia.
  - lia.
  - vm_compute. congruence.
  - lia.
  - vm_compute. congruence.
Defined.

Lemma account_file_new_witness :
  creds_path (lit "/c") (lit "letsencrypt") (random_email 1700000000123456789)
  ≠ creds_path (lit "/c") (lit "letsencrypt") (random_email 1700043200123456789).
Proof. apply account_file_new; unfold NANOS; lia. Defined.

Lemma random_email_example : random_email 1700000000123456789 = lit "a123456789@d0.cc".
Proof. vm_compute. reflexivity. Qed.

End LoopWitness.
